(* ===== verification/_CoqProject ===== *)
-Q . S2P
Prelude.v
Bytes.v
Lunchbox.v
Ring.v
DataOStream.v
DataIStream.v
Serialize.v
Transfer.v
Archive.v
ConnectionSet.v
SelectWakeup.v
Worker.v
Commands.v
CustomCommands.v
ObjectStreams.v
InstanceCache.v
Connections.v
CachePins.v
ObjectCM.v
MasterCM.v
SlaveCM.v
Replication.v
ObjectStore.v
StoreTable.v
StoreCache.v
StoreFaults.v
BufferCache.v
Connection.v
Receive.v
Dispatch.v
SendToken.v
ConnectionDescription.v
Global.v
Posix.v
PipeConnection.v
EventPipe.v
SocketConnection.v
LocalNode.v
Handshake.v
NodeLife.v
ObjectMap.v
Barrier.v
Queue.v
Steal.v
Rsp.v
RspFlow.v
Rdma.v
RdmaThreads.v
