(* ===== verification/Prelude.v ===== *)
(** * Collage: a verification library for the co:: networking core

    Collage (src/co) is a C++ library for distributed objects: nodes exchange
    commands over connections, objects are replicated from a master instance to
    slave instances version by version, and data is serialised into compressed,
    buffered streams.  This library models the code that makes replication work,
    from the bytes of a plain item up to a master and a slave change manager
    exchanging commits, and proves it correct.

    ** Parts and files

    - Prelude: machine integers (an unsigned w-bit integer is a Z reduced modulo
      2^w; lia sees the constants), tactics, lemmas on lists.
    - Bytes: fixed-width integers as bytes on little- and big-endian hosts.
    - Lunchbox: the external libraries as interfaces (classes of operations and
      of documented laws) with concrete instances: MTQueue, Pression compressors,
      byte swapping.
    - Ring: co/ring.h, RingPtr, Ring, BufferQ.
    - DataOStream, DataIStream, Serialize, Transfer: co/dataOStream.*,
      co/dataIStream.*, the stream operators, and a session of one stream read by
      the other.  Archive: the boost archives on top of them
      (co/dataOStreamArchive, co/dataIStreamArchive).
    - Commands: co/oCommand.cpp, iCommand.cpp, objectOCommand.cpp,
      objectICommand.cpp, objectDataOCommand.cpp, objectDataICommand.cpp.
      CustomCommands: co/customOCommand.cpp, customICommand.cpp and the handlers
      of co/localNode.cpp for them.
    - ConnectionSet: the POSIX branch of co/connectionSet.cpp, with
      eventConnection.cpp and the switch over events of co/localNode.cpp;
      SelectWakeup splits its operations into the steps of several threads.
      EventPipe runs the event connection on its pipe.
    - Posix, PipeConnection: the system calls as an interface, co/fdConnection.cpp
      and the POSIX branch of co/pipeConnection.cpp, an instance of the transports
      of Connection.  SocketConnection: the POSIX branch of
      co/socketConnection.cpp.  Global: co/global.cpp and the options of
      co/localNode.cpp.
    - Worker: co/commandQueue.cpp and the loop of co/worker.ipp.
    - ObjectStreams: co/object*DataOStream.cpp, objectDataIStream.cpp,
      dataIStreamQueue.cpp.
    - InstanceCache: co/instanceCache.cpp.
    - Connections: co/connections.h; a node's connections are the Network class.
    - ObjectCM, MasterCM, SlaveCM: co/objectCM.cpp, masterCMCommand.cpp,
      versionedMasterCM.cpp, fullMasterCM.cpp, deltaMasterCM.cpp,
      unbufferedMasterCM.cpp, versionedSlaveCM.cpp, staticSlaveCM.cpp.
    - Replication: the two change managers joined by the wire.
    - ObjectStore: co/objectStore.cpp and the part of co/object.cpp it uses; the
      change manager of an object is the ChangeManager class.  StoreTable makes it
      a state machine of a node (applications, the receiver thread, replies of
      other nodes in any order), StoreCache adds the instance cache (its lemmas on
      pins are in CachePins), StoreFaults holds what goes wrong.
    - BufferCache: co/buffer.cpp, bufferCache.cpp, with the threads that return
      buffers.  Connection: the receive and send loops of co/connection.cpp over a
      transport interface, bufferConnection.cpp.  Receive: how the receiver thread
      of co/localNode.cpp frames commands.  Dispatch: co/dispatcher.cpp and the
      pending commands of co/localNode.cpp.  SendToken: the send token of a node.
    - ConnectionDescription: co/connectionDescription.cpp and the text a node sends
      of itself (co/node.cpp).  LocalNode: co/node.cpp and the handshake of
      co/localNode.cpp; Handshake explores two nodes that connect to each other.
      NodeLife: listening, listeners, connecting by identifier and the end of the
      receiver thread, with the invariant of a node's tables.
    - ObjectMap: co/objectMap.cpp with serializable.cpp.
    - Barrier: co/barrier.cpp and a step relation for the distributed system of
      participants, master and messages in flight.
    - Queue: co/queueMaster.cpp, queueSlave.cpp, queueItem.cpp,
      randomDistributor.cpp, equalDistributor.cpp, and the system of producers,
      master, slaves and consumers.
    - Steal: co/stealingQueueSlave.cpp, stealingQueueMaster.cpp and
      loadAwareDistributor.cpp, and the system of master, slaves and thieves.
    - Rsp, RspFlow: co/rspConnection.cpp, the reliable multicast protocol: reading,
      writing, acknowledgements, repeats, membership and timeouts.
    - Rdma: the flow control of co/rdmaConnection.cpp: two ends with their ring
      buffers, credits, messages and completions, over adapters that carry out
      work requests in order.  RdmaThreads cuts reading, writing and polling into
      the steps of the read and write threads of each end, which interleave.

    ** Correspondence

    A class is a Record with the members of the class (or of its detail::
    implementation); a method is a Definition that returns the new state, what it
    sends and its result.  Virtual calls into a subclass are either recorded as
    values (SendCall for sendData, Message for a command sent to nodes) or an
    interface (BufferSource for getNextBuffer).  A call that may block returns
    None (or false) where it waits.  Locks are not modelled: each method is one
    step, except where the interleaving of threads is the subject (SelectWakeup,
    BufferCache, Worker, RdmaThreads), whose steps are smaller.  The order in which a hash map is iterated, the time, identifiers of
    nodes and process attributes are arguments.  Assertions are not part of the
    definitions (release builds compile them out); where one matters it is a
    definition of its own (_checkConsistency) or a hypothesis.

    ** Theorems

    - Streams: what is written is what is read, for every streamable type, buffer
      size and compressor that honours its contract, across byte orders unless the
      data is compressed (Transfer.stream_transports); the packets of a session
      (DataOStream.ostream_delivers, ostream_resend) and the one input on which
      the last packet is lost (empty_write_drops_last).  Archives transport
      integers between types and byte orders, and floats up to the sign of zero and
      the payload of a NaN (Archive.archive_transports), and
      Archive.archive_int_load says exactly what is refused and what is not.
    - Commands: Commands.command_roundtrip; object data commands:
      ObjectStreams.object_data_arrives, queue_assembles, pull_keeps_order; custom
      commands reach their handler with their arguments
      (CustomCommands.custom_command_delivered), unless the command was copied
      while it was built (custom_copy_repeats_id).
    - Connection sets: select reports only connections of the set, from tables that
      match it (ConnectionSet.select_reports_members), every event of a poll once
      while the set is not changed (poll_events_reported_once), and a change by
      another thread is never lost on a blocked poll after the first select
      (SelectWakeup.no_change_lost); a connection without a
      descriptor can break this (invalid_handle_leaves_stale_table,
      first_select_not_woken).
      The event connection on a pipe is the one the set is proved with
      (EventPipe.event_pipe_refines).
    - Transports: a pipe connection is a reliable stream in each direction, under
      any schedule and any failures of the system calls (PipeConnection.
      pipe_connection_fifo, pipe_delivers); a socket connection leaks no descriptor and
      closes none it does not own, but for descriptor 0 after being stuck in the
      connecting state (SocketConnection.socket_descriptors), and connects within nine attempts
      (connect_attempts).  Descriptors leak or are closed wrongly after some errors
      (connect_leaks, failed_listen_closes_stdin).  Global attributes survive the
      command line (Global.globals_passed_on).
    - Workers call their commands once and in order (Worker.worker_calls_in_order).
    - Replication: the master refines an append-only log
      (MasterCM.master_keeps_log), keeps the versions asked for
      (auto_obsolete_exact), blocks exactly when the object is dirty and a slave's
      bound is below the next version (commit_waits), initialises mapping slaves completely
      (mapping_completes), and a slave applies versions in order and once
      (SlaveCM.sync_applies_in_order, map_data_applied, cache_completes_queue);
      together, a slave reproduces every committed value
      (Replication.replication_converges).  A decreasing incarnation breaks the
      log (decreasing_incarnation_gap).
    - InstanceCache: the accounted size is exact as long as no incomplete stream is
      deleted (cache_size_exact), eviction terminates and makes room, pinned objects
      stay; deleting an incomplete stream breaks the accounting.
    - Barrier: no participant leaves a round another has not entered, and no
      wake-up is lost, for any order of message delivery; one participant on each
      node, one version of the barrier, no timeouts.
    - ObjectStore: the table lists exactly the attached objects, with distinct
      instance identifiers (StoreTable.object_table_exact), commands reach exactly
      their addressees (dispatch_exact), cached data announced to a master is not
      evicted before the answer (StoreCache.cache_promise_kept); a version being
      received when its object is mapped is lost, and deregistering leaves the
      object in the send queue (StoreFaults).
    - Receiving: whatever the transport reads at a time, commands are framed exactly
      (Receive.commands_framed); buffers are never shared (BufferCache.
      buffers_exclusive, compact_bounds), sends are complete (Connection.send_exact);
      the dispatcher is a finite map (Dispatch.dispatcher_is_map), and commands
      for an object keep their order while they wait for it
      (object_commands_in_order); the send token is exclusive and fair
      (SendToken.token_exclusive).  A read without data and a timed-out token break
      this (interrupted_tail_desyncs, token_granted_twice).
    - Nodes: what a node says of itself is read back (ConnectionDescription.
      node_data_roundtrip); two nodes that connect at once agree, in every order of
      deliveries (Handshake.handshake_agrees), but do not disconnect cleanly
      (disconnect_half_open).  The tables of a node stay sound whatever arrives, as
      long as the handlers' assertions hold (NodeLife.node_tables_sound), and the
      receiver thread closes everything when it ends (node_shutdown_complete);
      connecting by identifier returns a reachable node, or one made for a
      discovered instance that could not be connected (connect_id_returns,
      zeroconf_result_inverted).
    - ObjectMap: master and slave instances implement one registry
      (object_map_mirrors), if nothing is added and removed between two commits
      (object_map_unseparate).
    - Queue: every item pushed that has data is delivered to one consumer, once,
      behind a flag byte (queue_exactly_once), a waiting consumer is answered (queue_pop_answered)
      unless items are empty (queue_empty_items_stall).
    - Steal: items pushed are conserved by distribution and popping, and each item a
      thief takes is replaced by one other (steal_conserves), whose data is blank
      (stolen_item_blank); slaves are sent at most one item beyond their credits
      (load_aware_credits) unless the counter overflows (credit_overflow).
    - Rsp: a reader gets a prefix of what the writer sent, in order, whatever the
      network loses, repeats or reorders within the window in which sequence numbers
      are unambiguous (rsp_stream_prefix, datagram_alias);
      requests for acknowledgement are answered (RspFlow.rsp_ack_request_answered),
      acknowledgements free exactly what all readers have (rsp_ack_frees), and
      what a reader asks for is sent again (rsp_nack_repeated).
    - Rdma: in every interleaving of the threads of both ends each end reads a prefix
      of what the other wrote, write credits are not overdrawn, every address is
      valid and no receive is lost (RdmaThreads.rdma_threads_safe), for buffers of
      the same size and queues of at least four requests.  When the passes of the
      read and write threads of an end do not overlap, every request also finds a
      receive (Rdma.rdma_stream_safe), announced data is read at once, and nothing
      is stuck when nothing is on its way (rdma_no_deadlock), for queues of at least
      six requests; when they overlap both ends can wait for ever
      (RdmaThreads.rdma_race_deadlock).
    - Ring: BufferQ refines a bounded FIFO across counter wrap-around.
    - Connections: gatherConnections reaches every connected node.

    ** Fuel

    Loops that are not structural take fuel equal to a bound of what they
    consume: the buffers left in an input stream, the length of a queue, the
    number of streams in a cache item or cache.  The theorems about these loops
    state their results, so running out of fuel would falsify them;
    InstanceCache.eviction_makes_room is the termination statement for the only
    loop whose bound is not visible in its argument.

    Handshake enumerates all states of two nodes by evaluation; states_checked is
    the closure check, so its bounds (twenty steps to rest, two connections) are
    proved, not assumed.

    The retries of connecting by identifier are the nine of the code; the last loop
    of the receiver thread takes the number of its connections as fuel
    (node_shutdown_complete).  Rdma models one pass of the loops of read and write,
    and RdmaThreads their steps, as how often they repeat depends on the peer.

    ** Not modelled

    The centralised and latency-aware distributors compute in floating point and
    use lunchbox::FloatMap.  Named pipe, UDT and the set-up of RDMA transports,
    zeroconf and the Windows branches (among them the helper threads of the
    connection set) are operating system or third-party I/O.  Boost's traversal
    of class types and object tracking are boost's own code.  The step relation
    of SelectWakeup and the steps of RdmaThreads take accesses to memory as
    sequentially consistent.
*)

From stdpp Require Export base gmap list strings numbers sorting.
From Stdlib Require Export ZArith Lia.
#[global] Open Scope Z_scope.

(** ** Machine integers

    An unsigned w-bit integer is a [Z] reduced modulo [2 ^ w]; the widths the
    sources use are spelled out so that [lia] sees the constants. *)

Definition wrapu (w x : Z) : Z := x `mod` 2 ^ w.
Definition u8 (x : Z) : Z := x `mod` 256.
Definition u16 (x : Z) : Z := x `mod` 65536.
Definition u32 (x : Z) : Z := x `mod` 4294967296.
Definition u64 (x : Z) : Z := x `mod` 18446744073709551616.
Definition u128 (x : Z) : Z := x `mod` 340282366920938463463374607431768211456.

(** Two's complement reading of a w-bit pattern. *)
Definition i8 (x : Z) : Z := (x + 128) `mod` 256 - 128.
Definition i32 (x : Z) : Z := (x + 2147483648) `mod` 4294967296 - 2147483648.

Definition max_u16 : Z := 65535.
Definition max_u32 : Z := 4294967295.
Definition max_u64 : Z := 18446744073709551615.

Definition is_u16 (x : Z) : Prop := 0 <= x < 65536.
Definition is_u32 (x : Z) : Prop := 0 <= x < 4294967296.
Definition is_u64 (x : Z) : Prop := 0 <= x < 18446744073709551616.
Definition is_i32 (x : Z) : Prop := -2147483648 <= x < 2147483648.

(** ** Tactics *)

(** Linear arithmetic over the wrapped widths: unfold, turn [mod] and [/] into
    equations, and call [lia]. *)
Ltac solve_wrap :=
  unfold u8, u16, u32, u64, u128, i8, i32, is_u16, is_u32, is_u64, is_i32,
    max_u16, max_u32, max_u64 in *;
  Z.div_mod_to_equations; lia.

(** Split every [match] of the goal and discharge the contradictory cases. *)
Ltac split_matches := repeat (case_match; simplify_eq/=; try done).

(** The library's own hint database: facts the components need over and over. *)
Create HintDb collage discriminated.
Create Rewrite HintDb collage.

(** ** Shared lemmas on integers *)

Lemma wrapu_range w x : 0 <= w -> 0 <= wrapu w x < 2 ^ w.
Proof. intros. unfold wrapu. apply Z.mod_pos_bound. lia. Qed.

Lemma wrapu_small w x : 0 <= x < 2 ^ w -> wrapu w x = x.
Proof. intros. unfold wrapu. by apply Z.mod_small. Qed.

Lemma wrapu_idem w x : 0 <= w -> wrapu w (wrapu w x) = wrapu w x.
Proof. intros. apply wrapu_small. by apply wrapu_range. Qed.

Lemma u16_range x : is_u16 (u16 x).
Proof. solve_wrap. Qed.
Lemma u32_range x : is_u32 (u32 x).
Proof. solve_wrap. Qed.
Lemma u64_range x : is_u64 (u64 x).
Proof. solve_wrap. Qed.
Lemma u16_small x : is_u16 x -> u16 x = x.
Proof. intros. solve_wrap. Qed.
Lemma u32_small x : is_u32 x -> u32 x = x.
Proof. intros. solve_wrap. Qed.
Lemma u64_small x : is_u64 x -> u64 x = x.
Proof. intros. solve_wrap. Qed.
Lemma i32_small x : is_i32 x -> i32 x = x.
Proof. intros. solve_wrap. Qed.

#[export] Hint Resolve u16_range u32_range u64_range : collage.
#[export] Hint Rewrite u16_small u32_small u64_small i32_small : collage.

(** ** Sums over finite maps *)

Section msum.

Context {K A : Type} `{Countable K}.

Definition msum (f : A -> Z) (m : gmap K A) : Z := map_fold (fun _ x acc => f x + acc) 0 m.

Lemma msum_empty f : msum f ∅ = 0.
Proof. apply map_fold_empty. Qed.

Lemma msum_delete f (m : gmap K A) i x : m !! i = Some x -> msum f m = f x + msum f (delete i m).
Proof. intros Hi. unfold msum. erewrite map_fold_delete_L; eauto. intros. lia. Qed.

Lemma msum_insert f (m : gmap K A) i x : msum f (<[i := x]> m) = f x + msum f (delete i m).
Proof.
  rewrite (msum_delete f _ i x) by apply lookup_insert_eq. by rewrite delete_insert_eq.
Qed.

Lemma msum_nonneg f (m : gmap K A) : map_Forall (fun _ x => 0 <= f x) m -> 0 <= msum f m.
Proof.
  induction m as [|i x m Hi IH] using map_ind; intros Hm; [by rewrite msum_empty|].
  rewrite msum_insert, delete_id by done. apply map_Forall_insert in Hm as [? ?]; [|done].
  specialize (IH ltac:(done)). lia.
Qed.

End msum.

(** ** Boolean comparisons *)

Lemma gtb_false a b : a <= b -> (a >? b) = false.
Proof. intros. destruct (Z.gtb_spec a b); [lia|done]. Qed.
Lemma gtb_true a b : b < a -> (a >? b) = true.
Proof. intros. by apply Z.gtb_lt. Qed.

(** ** Shared lemmas on filters *)

Lemma filter_none {A} (P : A -> Prop) `{!forall x, Decision (P x)} (l : list A) :
  Forall (fun x => ~ P x) l -> filter P l = [].
Proof. induction 1 as [|x l Hx _ IH]; [done|]. by rewrite filter_cons_False. Qed.

Lemma filter_ext_Forall {A} (P R : A -> Prop) `{!forall x, Decision (P x), !forall x, Decision (R x)}
    (l : list A) :
  Forall (fun x => P x <-> R x) l -> filter P l = filter R l.
Proof.
  induction 1 as [|x l Hx _ IH]; [done|]. rewrite !filter_cons, IH.
  repeat case_decide; tauto.
Qed.

Lemma filter_all {A} (P : A -> Prop) `{!forall x, Decision (P x)} (l : list A) :
  Forall P l -> filter P l = l.
Proof. induction 1 as [|x l Hx _ IH]; [done|]. by rewrite filter_cons_True, IH. Qed.

(** ** Functions updated at one point *)

Definition fset {A} (f : Z -> A) (p : Z) (a : A) : Z -> A := fun q => if q =? p then a else f q.

Lemma fset_eq {A} (f : Z -> A) p a : fset f p a p = a.
Proof. unfold fset. by rewrite Z.eqb_refl. Qed.

Lemma fset_ne {A} (f : Z -> A) p q a : q <> p -> fset f p a q = f q.
Proof. intros Hq. unfold fset. by rewrite (proj2 (Z.eqb_neq _ _)). Qed.

Lemma fset_not_in {A B} (g : A -> B) (f : Z -> A) p a (l : list Z) :
  p ∉ l -> (fun q => g (fset f p a q)) <$> l = (fun q => g (f q)) <$> l.
Proof.
  intros Hp. apply list_fmap_ext. intros i q Hq. rewrite fset_ne; [done|]. intros ->.
  by apply Hp, (list_elem_of_lookup_2 _ i).
Qed.

(** The lists held by the members of a family: one of them singled out. *)
Lemma concat_fset {A B} (g : A -> list B) (f : Z -> A) p (l : list Z) :
  NoDup l -> p ∈ l ->
  exists rest : list B, concat ((fun q => g (f q)) <$> l) ≡ₚ g (f p) ++ rest /\
    forall a, concat ((fun q => g (fset f p a q)) <$> l) ≡ₚ g a ++ rest.
Proof.
  intros Hnd (l1 & l2 & ->)%list_elem_of_split. apply NoDup_app in Hnd as (_ & H1 & [H2 _]%NoDup_cons).
  assert (p ∉ l1) as Hp1 by (intros Hp; apply (H1 p Hp); left).
  exists (concat ((fun q => g (f q)) <$> l1) ++ concat ((fun q => g (f q)) <$> l2)).
  split; [|intros a]; rewrite fmap_app, fmap_cons, concat_app; cbn [concat].
  - by rewrite Permutation_app_swap_app.
  - rewrite !fset_not_in, fset_eq by done. by rewrite Permutation_app_swap_app.
Qed.
