(* ===== verification/Bytes.v ===== *)
(** * Bytes: fixed-width integers in memory

    A byte is a [Z] in [0, 256).  [le_split n z] are the [n] least significant
    bytes of [z], lowest first, and [le_combine] reads them back; a host stores
    an integer with [enc], which reverses them on a big-endian host. *)

From S2P Require Import Prelude.

Abbreviation bytes := (list Z).

Definition is_byte (b : Z) : Prop := 0 <= b < 256.

Fixpoint le_split (n : nat) (z : Z) : bytes :=
  match n with
  | O => []
  | S n => z `mod` 256 :: le_split n (z `div` 256)
  end.

Fixpoint le_combine (l : bytes) : Z :=
  match l with
  | [] => 0
  | b :: l => b + 256 * le_combine l
  end.

(** An integer of [n] bytes as a host of the given byte order stores it. *)
Definition enc (be : bool) (n : nat) (z : Z) : bytes :=
  if be then rev (le_split n z) else le_split n z.

Definition dec (be : bool) (l : bytes) : Z :=
  le_combine (if be then rev l else l).

(** ** Lemmas *)

Lemma length_le_split n z : length (le_split n z) = n.
Proof. revert z. induction n; intros z; simpl; auto. Qed.

Lemma le_combine_split n z : le_combine (le_split n z) = z `mod` 256 ^ Z.of_nat n.
Proof.
  revert z. induction n as [|n IH]; intros z.
  { simpl. by rewrite Z.mod_1_r. }
  cbn [le_split le_combine]. rewrite IH, Nat2Z.inj_succ, Z.pow_succ_r by lia.
  rewrite Z.rem_mul_r by lia. lia.
Qed.

Lemma le_split_bytes n z : Forall is_byte (le_split n z).
Proof.
  revert z. induction n; intros z; simpl; constructor; auto.
  apply Z.mod_pos_bound. lia.
Qed.

Lemma le_split_combine l : Forall is_byte l -> le_split (length l) (le_combine l) = l.
Proof.
  induction 1 as [|b l Hb _ IH]; [done|]. unfold is_byte in Hb. cbn [length le_combine le_split].
  rewrite Z.mul_comm, Z.mod_add, Z.div_add, Z.div_small, Z.mod_small, Z.add_0_l by lia.
  by rewrite IH.
Qed.

Lemma le_combine_bound l : Forall is_byte l -> 0 <= le_combine l < 256 ^ Z.of_nat (length l).
Proof.
  induction 1 as [|b l Hb _ IH]; [simpl; lia|]. unfold is_byte in Hb.
  cbn [length le_combine]. rewrite Nat2Z.inj_succ, Z.pow_succ_r by lia. lia.
Qed.

Lemma length_enc be n z : length (enc be n z) = n.
Proof. unfold enc. destruct be; rewrite ?length_rev; apply length_le_split. Qed.

Lemma enc_bytes be n z : Forall is_byte (enc be n z).
Proof.
  unfold enc. destruct be; [apply Forall_rev|]; apply le_split_bytes.
Qed.

Lemma dec_enc be n z : 0 <= z < 256 ^ Z.of_nat n -> dec be (enc be n z) = z.
Proof.
  intros Hz. unfold dec, enc.
  destruct be; rewrite ?rev_involutive, le_combine_split; by apply Z.mod_small.
Qed.

(** Reading on a host of the other byte order after reversing the bytes. *)
Lemma dec_swap be n z : 0 <= z < 256 ^ Z.of_nat n -> dec (negb be) (rev (enc be n z)) = z.
Proof.
  intros Hz. unfold dec, enc.
  destruct be; simpl; rewrite ?rev_involutive, le_combine_split; by apply Z.mod_small.
Qed.

Lemma enc_nonempty be n z : (0 < n)%nat -> enc be n z <> [].
Proof. intros Hn H. apply (f_equal length) in H. rewrite length_enc in H. simpl in H. lia. Qed.

#[export] Hint Resolve enc_bytes le_split_bytes : collage.
#[export] Hint Rewrite length_enc length_le_split : collage.
