(* ===== verification/Lunchbox.v ===== *)
(** * Interfaces of the libraries Collage is built on

    Collage's sources call Lunchbox (queues, byte swapping), Pression
    (compressor plugins) and Servus (128-bit identifiers), which are not part of
    the repository.  Each is an interface here: a class of operations and a
    class of the documented laws the components rely on.  The components take
    the operations as parameters; the instances at the end are concrete
    functions that satisfy the laws. *)

From S2P Require Import Prelude Bytes.

(** ** lunchbox::MTQueue and lunchbox::LFQueue

    A thread-safe FIFO.  [q_pop] is [tryPop]: [None] on an empty queue, where the
    blocking [pop] would wait. *)

Class MTQueue (Q : Type -> Type) := {
  q_empty : forall {A}, Q A;
  q_push : forall {A}, Q A -> A -> Q A;
  q_pushFront : forall {A}, Q A -> A -> Q A;
  q_pushFrontAll : forall {A}, Q A -> list A -> Q A;
  q_pop : forall {A}, Q A -> option (A * Q A);
  q_contents : forall {A}, Q A -> list A;
}.

Class MTQueueOk (Q : Type -> Type) `{MTQueue Q} : Prop := {
  q_contents_empty A : q_contents (q_empty : Q A) = [];
  q_contents_push A (q : Q A) x : q_contents (q_push q x) = q_contents q ++ [x];
  q_contents_pushFront A (q : Q A) x : q_contents (q_pushFront q x) = x :: q_contents q;
  q_contents_pushFrontAll A (q : Q A) l : q_contents (q_pushFrontAll q l) = l ++ q_contents q;
  q_pop_nil A (q : Q A) : q_contents q = [] -> q_pop q = None;
  q_pop_cons A (q : Q A) x l :
    q_contents q = x :: l -> exists q', q_pop q = Some (x, q') /\ q_contents q' = l;
}.

Section queue.

Context {Q : Type -> Type} `{!MTQueue Q}.

Definition q_isEmpty {A} (q : Q A) : bool :=
  match q_contents q with [] => true | _ => false end.
Definition q_getSize {A} (q : Q A) : Z := Z.of_nat (length (q_contents q)).
Definition q_getFront {A} (q : Q A) : option A := head (q_contents q).
Definition q_getBack {A} (q : Q A) : option A := last (q_contents q).
Definition q_pushAll {A} (q : Q A) (l : list A) : Q A := fold_left q_push l q.

Context `{!MTQueueOk Q}.

Lemma q_contents_pushAll {A} (q : Q A) l : q_contents (q_pushAll q l) = q_contents q ++ l.
Proof.
  unfold q_pushAll. revert q. induction l as [|x l IH]; intros q; simpl.
  { by rewrite app_nil_r. }
  by rewrite IH, q_contents_push, <-app_assoc.
Qed.

(** What a pop tells about the contents, both ways. *)
Lemma q_pop_spec {A} (q : Q A) :
  match q_pop q with
  | None => q_contents q = []
  | Some (x, q') => q_contents q = x :: q_contents q'
  end.
Proof.
  destruct (q_contents q) as [|x l] eqn:Hc.
  - by rewrite q_pop_nil.
  - destruct (q_pop_cons _ q x l Hc) as (q' & -> & <-). done.
Qed.

End queue.

#[export] Hint Rewrite @q_contents_empty @q_contents_push @q_contents_pushFront
  @q_contents_pushFrontAll @q_contents_pushAll using (typeclasses eauto) : collage.

(** ** Pression: compressor plugins

    [compress name b] are the chunks a compressor of the given name produces for
    [b], at least one; [decompress name chunks size] restores [size] bytes. *)

Class Pression := {
  EQ_COMPRESSOR_NONE : Z;
  compress : Z -> bytes -> list bytes;
  decompress : Z -> list bytes -> Z -> bytes;
}.

Class PressionOk `{Pression} : Prop := {
  decompress_compress name b :
    decompress name (compress name b) (Z.of_nat (length b)) = b;
  compress_nonempty name b : compress name b <> [];
}.

(** ** lunchbox::byteswap and servus::uint128_t

    [byteswap] reverses the bytes of one item in memory.  A 128-bit identifier
    occupies 16 bytes in memory; its layout is the library's. *)

Class Lunchbox := {
  byteswap : bytes -> bytes;
  enc128 : bool -> Z -> bytes;
  dec128 : bool -> bytes -> Z;
  byteswap128 : bytes -> bytes;
}.

Definition is_u128 (x : Z) : Prop := 0 <= x < 2 ^ 128.

Class LunchboxOk `{Lunchbox} : Prop := {
  byteswap_rev l : byteswap l = rev l;
  length_enc128 be x : length (enc128 be x) = 16%nat;
  dec128_enc128 be x : is_u128 x -> dec128 be (enc128 be x) = x;
  dec128_swap be x : is_u128 x -> dec128 (negb be) (byteswap128 (enc128 be x)) = x;
}.

(** ** Instances *)

#[export] Instance list_MTQueue : MTQueue list := {
  q_empty A := [];
  q_push A q x := q ++ [x];
  q_pushFront A q x := x :: q;
  q_pushFrontAll A q l := l ++ q;
  q_pop A q := match q with [] => None | x :: q => Some (x, q) end;
  q_contents A q := q;
}.

#[export] Instance list_MTQueueOk : MTQueueOk list.
Proof.
  split; try done; simpl; intros; subst; eauto.
Qed.

(** Store-only compression: one chunk, the data itself. *)
Definition store_Pression : Pression := {|
  EQ_COMPRESSOR_NONE := 0;
  compress _ b := [b];
  decompress _ chunks _ := concat chunks;
|}.

Lemma store_PressionOk : @PressionOk store_Pression.
Proof. split; intros name b; [apply app_nil_r|done]. Qed.

(** Run-length compression of constant data: a pair of bytes. *)
Definition const_Pression : Pression := {|
  EQ_COMPRESSOR_NONE := 0;
  compress _ b :=
    match b with
    | x :: _ => if decide (b = replicate (length b) x) then [[x]] else [b; []]
    | [] => [[]; []]
    end;
  decompress _ chunks n :=
    match chunks with
    | [[x]] => replicate (Z.to_nat n) x
    | [b; _] => b
    | _ => []
    end;
|}.

Lemma const_PressionOk : @PressionOk const_Pression.
Proof.
  split; intros name [|x b]; try done; cbn [compress const_Pression]; case_decide as Hd; try done.
  - cbn [decompress const_Pression]. by rewrite Nat2Z.id.
  - by destruct b.
Qed.

Definition native_Lunchbox : Lunchbox := {|
  byteswap := @rev Z;
  enc128 be x := enc be 16 x;
  dec128 := dec;
  byteswap128 := @rev Z;
|}.

Lemma native_LunchboxOk : @LunchboxOk native_Lunchbox.
Proof.
  split; simpl; intros; auto using length_enc.
  - by apply dec_enc.
  - by apply dec_swap.
Qed.
