(* ===== verification/Ring.v ===== *)
(** * Fixed-size ring buffers (co/ring.h)

    [RingPtr] keeps a free-running counter of the template type T and a
    correction that makes the counter usable modulo a ring length that is not a
    power of two; [Ring] is an array of such pointers and [BufferQ] the queue
    built on it.  T is an unsigned type of [w] bits ([uint32_t] or [size_t] in
    the sources), so every sum is wrapped at [w] bits. *)

From S2P Require Import Prelude.

Record RingPtr := mkRingPtr { ptrVal : Z; ptrAdjust : Z }.

Definition RingPtr_init : RingPtr := mkRingPtr 0 0.

#[export] Instance RingPtr_inhabited : Inhabited RingPtr := populate RingPtr_init.

Record Ring := mkRing { num : Z; ptrs : list RingPtr }.

Record BufferQ (A : Type) := mkBufferQ { ring : Ring; buffer : list A }.
Arguments mkBufferQ {A} _ _.
Arguments ring {A} _.
Arguments buffer {A} _.

Section ring.

Context (w : Z).

(** ** RingPtr *)

Definition rp_value (p : RingPtr) : Z := ptrVal p.

Definition rp_ptr (p : RingPtr) (num off : Z) : Z :=
  wrapu w (wrapu w (ptrVal p `mod` num + ptrAdjust p) + off) `mod` num.

Definition rp_incr (p : RingPtr) (num amount : Z) : RingPtr :=
  let optrVal := ptrVal p in
  let v := wrapu w (ptrVal p + amount) in
  if v <? optrVal
  then mkRingPtr v
         (wrapu w (wrapu w (ptrAdjust p + wrapu w (-1) `mod` num) + 1) `mod` num)
  else mkRingPtr v (ptrAdjust p).

(** ** Ring *)

Definition HEAD : nat := 0.
Definition TAIL (r : Ring) : nat := (length (ptrs r) - 1)%nat.

Definition Ring_init (NUM : nat) (num_ : Z) : Ring :=
  mkRing num_ (replicate NUM RingPtr_init).

Definition value (r : Ring) (ID : nat) : Z := rp_value (ptrs r !!! ID).

Definition ptr (r : Ring) (ID : nat) (off : Z) : Z := rp_ptr (ptrs r !!! ID) (num r) off.

Definition available (r : Ring) (ID1 ID2 : nat) : Z :=
  wrapu w (value r ID1 - value r ID2).

Definition negAvailable (r : Ring) (ID1 ID2 : nat) : Z :=
  wrapu w (num r - available r ID1 ID2).

Definition isEmpty (r : Ring) (ID1 ID2 : nat) : bool := value r ID1 =? value r ID2.

Definition isFull (r : Ring) (ID1 ID2 : nat) : bool := available r ID1 ID2 =? num r.

Definition incr (r : Ring) (ID : nat) (amount : Z) : Ring :=
  mkRing (num r) (<[ID := rp_incr (ptrs r !!! ID) (num r) amount]> (ptrs r)).

Definition moveValue (r : Ring) (ID : nat) (val : Z) : Ring :=
  incr r ID (wrapu w (val - value r ID)).

Definition linearSize (r : Ring) (ID1 ID2 : nat) : Z :=
  let avail := available r ID1 ID2 in
  let id2 := ptr r ID2 0 in
  let left := wrapu w (num r - id2) in
  if avail <? left then avail else left.

Definition negLinearSize (r : Ring) (ID1 ID2 : nat) : Z :=
  let avail := wrapu w (num r - available r ID1 ID2) in
  let id1 := ptr r ID1 0 in
  let left := wrapu w (num r - id1) in
  if avail <? left then avail else left.

Definition align (r : Ring) (ID : nat) (a : Z) : Ring :=
  incr r ID (wrapu w (a - ptr r ID 0 `mod` a) `mod` a).

(** The loop of [updateTail]: the largest distance of a middle pointer
    [1 <= I < TAIL] to the head. *)
Fixpoint maxAvail (r : Ring) (ids : list nat) (avail : Z) : Z :=
  match ids with
  | [] => avail
  | ID :: ids' =>
      let tmp := available r HEAD ID in
      maxAvail r ids' (if tmp >? avail then tmp else avail)
  end.

Definition updateTail (r : Ring) : Ring :=
  let avail := maxAvail r (seq 1 (TAIL r - 1)) 0 in
  incr r (TAIL r) (wrapu w (available r HEAD (TAIL r) - avail)).

Definition clear (r : Ring) (newNum : Z) : Ring :=
  mkRing newNum ((fun _ => RingPtr_init) <$> ptrs r).

(** ** BufferQ *)

Section bufferq.

Context {A : Type} `{!Inhabited A}.

Definition get (q : BufferQ A) : A * BufferQ A :=
  let res := buffer q !!! Z.to_nat (ptr (ring q) HEAD 0) in
  (res, mkBufferQ (incr (ring q) HEAD 1) (buffer q)).

Definition put (q : BufferQ A) (val : A) : BufferQ A :=
  let t := TAIL (ring q) in
  mkBufferQ (incr (ring q) t 1)
            (<[Z.to_nat (ptr (ring q) t 0) := val]> (buffer q)).

End bufferq.

(** ** Lemmas

    [tracks n p N]: the pointer [p] of a ring of length [n] has been advanced
    by [N] entries in total since it was cleared. *)

Definition tracks (n : Z) (p : RingPtr) (N : Z) : Prop :=
  0 <= N /\ ptrVal p = wrapu w N /\ 0 <= ptrAdjust p < n /\
  (ptrVal p + ptrAdjust p) `mod` n = N `mod` n.

Lemma tracks_init n : 0 < n -> tracks n RingPtr_init 0.
Proof. intros. unfold tracks, wrapu. simpl. rewrite !Zmod_0_l. lia. Qed.

Lemma mod_add_cong n a b c : 0 < n -> a `mod` n = b `mod` n -> (a + c) `mod` n = (b + c) `mod` n.
Proof. intros Hn H. by rewrite <-(Zplus_mod_idemp_l a), H, Zplus_mod_idemp_l. Qed.

Section bounded.

Context (Hw : 0 < w).

Let M := 2 ^ w.

Lemma M_pos : 1 < M.
Proof. unfold M. change 1 with (2 ^ 0). apply Z.pow_lt_mono_r; lia. Qed.

Lemma wrap_step v amount :
  0 <= v < M -> 0 <= amount < M ->
  (v + amount < M /\ wrapu w (v + amount) = v + amount) \/
  (M <= v + amount /\ wrapu w (v + amount) = v + amount - M).
Proof.
  intros Hv Ha. unfold wrapu. fold M. pose proof M_pos.
  destruct (decide (v + amount < M)).
  - left. rewrite Z.mod_small; lia.
  - right. split; [lia|]. symmetry. apply (Z.mod_unique _ _ 1); lia.
Qed.

Lemma adjust_step n a :
  0 < n -> 2 * n <= M -> 0 <= a < n ->
  wrapu w (wrapu w (a + wrapu w (-1) `mod` n) + 1) `mod` n = (a + M) `mod` n.
Proof.
  intros Hn HM Ha. pose proof M_pos.
  assert (wrapu w (-1) = M - 1) as ->.
  { unfold wrapu. fold M. symmetry. apply (Z.mod_unique _ _ (-1)); lia. }
  pose proof (Z.mod_pos_bound (M - 1) n Hn).
  rewrite (wrapu_small w (a + _)), wrapu_small by (fold M; lia).
  replace (a + (M - 1) `mod` n + 1) with ((M - 1) `mod` n + (a + 1)) by lia.
  rewrite Zplus_mod_idemp_l. f_equal. lia.
Qed.

Lemma rp_incr_tracks n p N amount :
  0 < n -> 2 * n <= M -> 0 <= amount < M ->
  tracks n p N -> tracks n (rp_incr p n amount) (N + amount).
Proof.
  intros Hn HM Ha (HN & Hv & Hadj & Hmod). unfold tracks, rp_incr.
  pose proof M_pos. pose proof (wrapu_range w N ltac:(lia)) as Hr. fold M in Hr.
  assert (wrapu w (N + amount) = wrapu w (ptrVal p + amount)) as Hval.
  { rewrite Hv. unfold wrapu. by rewrite Zplus_mod_idemp_l. }
  rewrite Hval. destruct (wrap_step (ptrVal p) amount) as [[Hc He]|[Hc He]]; try lia.
  - rewrite He. destruct (Z.ltb_spec (ptrVal p + amount) (ptrVal p)); simpl; [lia|].
    split_and!; try lia.
    replace (ptrVal p + amount + ptrAdjust p) with (ptrVal p + ptrAdjust p + amount) by lia.
    by apply mod_add_cong.
  - rewrite He. destruct (Z.ltb_spec (ptrVal p + amount - M) (ptrVal p)); simpl; [|lia].
    rewrite adjust_step by lia.
    pose proof (Z.mod_pos_bound (ptrAdjust p + M) n Hn).
    split_and!; try lia. rewrite Zplus_mod_idemp_r.
    replace (ptrVal p + amount - M + (ptrAdjust p + M)) with (ptrVal p + ptrAdjust p + amount) by lia.
    by apply mod_add_cong.
Qed.

Lemma rp_ptr_tracks n p N off :
  0 < n -> 0 <= off -> 2 * n + off <= M ->
  tracks n p N -> rp_ptr p n off = (N + off) `mod` n.
Proof.
  intros Hn Ho HM (HN & Hv & Hadj & Hmod). unfold rp_ptr.
  pose proof (Z.mod_pos_bound (ptrVal p) n Hn).
  rewrite (wrapu_small w (_ + ptrAdjust p)), wrapu_small by (fold M; lia).
  replace (ptrVal p `mod` n + ptrAdjust p + off)
    with (ptrVal p `mod` n + (ptrAdjust p + off)) by lia.
  rewrite Zplus_mod_idemp_l.
  replace (ptrVal p + (ptrAdjust p + off)) with (ptrVal p + ptrAdjust p + off) by lia.
  by apply mod_add_cong.
Qed.

(** Distances of two pointers that are less than [2 ^ w] apart are exact. *)
Lemma tracks_distance n p q N K :
  tracks n p N -> tracks n q K -> K <= N < K + M ->
  wrapu w (ptrVal p - ptrVal q) = N - K.
Proof.
  intros (_ & -> & _) (_ & -> & _) HNK. unfold wrapu. fold M.
  rewrite Zminus_mod_idemp_l, Zminus_mod_idemp_r. apply Z.mod_small. lia.
Qed.

(** *** Rings of tracked pointers *)

Lemma value_incr r ID a :
  (ID < length (ptrs r))%nat -> value (incr r ID a) ID = wrapu w (value r ID + a).
Proof.
  intros H. unfold value, incr; simpl. rewrite list_lookup_total_insert_eq by done.
  unfold rp_incr, rp_value. by case_match.
Qed.

Lemma value_incr_ne r ID ID' a : ID <> ID' -> value (incr r ID a) ID' = value r ID'.
Proof. intros H. unfold value, incr; simpl. by rewrite list_lookup_total_insert_ne. Qed.

Lemma TAIL_incr r ID a : TAIL (incr r ID a) = TAIL r.
Proof. unfold TAIL, incr; simpl. by rewrite length_insert. Qed.

Lemma available_range r i j : 0 <= available r i j < M.
Proof. apply wrapu_range. lia. Qed.

Lemma maxAvail_spec r ids a :
  0 <= a ->
  a <= maxAvail r ids a /\
  (forall i, i ∈ ids -> available r HEAD i <= maxAvail r ids a) /\
  (maxAvail r ids a = a \/ exists i, i ∈ ids /\ maxAvail r ids a = available r HEAD i).
Proof.
  revert a. induction ids as [|i ids IH]; intros a Ha; simpl.
  { split_and!; [lia | set_solver | auto]. }
  pose proof (available_range r HEAD i).
  destruct (IH (if available r HEAD i >? a then available r HEAD i else a)) as (H1 & H2 & H3).
  { case_match; lia. }
  destruct (Z.gtb_spec (available r HEAD i) a).
  - split_and!; [lia| |].
    + intros j [->|Hj]%elem_of_cons; [lia | by apply H2].
    + right. destruct H3 as [->|(j & Hj & ->)]; eexists; (split; [|done]); rewrite elem_of_cons; auto.
  - split_and!; [lia| |].
    + intros j [->|Hj]%elem_of_cons; [lia | by apply H2].
    + destruct H3 as [->|(j & Hj & ->)]; [by left | right].
      exists j. rewrite elem_of_cons. auto.
Qed.

(** The distance of the tail to the head after [updateTail]. *)
Lemma updateTail_available r :
  (2 <= length (ptrs r))%nat ->
  available (updateTail r) HEAD (TAIL r) = maxAvail r (seq 1 (TAIL r - 1)) 0.
Proof.
  intros Hlen. unfold updateTail. set (m := maxAvail _ _ _).
  assert (TAIL r <> HEAD) by (unfold TAIL, HEAD; lia).
  assert (0 <= m < M) as Hm.
  { destruct (maxAvail_spec r (seq 1 (TAIL r - 1)) 0) as (H1 & _ & H3); [lia|].
    fold m in H1, H3. pose proof M_pos.
    destruct H3 as [->|(j & _ & ->)]; [lia | apply available_range]. }
  unfold available at 1. rewrite value_incr_ne by done.
  rewrite value_incr by (unfold TAIL; lia).
  unfold available, wrapu. fold M.
  rewrite Zminus_mod_idemp_l, Zplus_mod_idemp_r, Zminus_mod_idemp_r.
  replace (_ - _) with m by lia. by apply Z.mod_small.
Qed.

Lemma updateTail_middle r i :
  (1 <= i < TAIL r)%nat -> available (updateTail r) HEAD i = available r HEAD i.
Proof.
  intros Hi. unfold updateTail, available.
  rewrite !value_incr_ne by (unfold HEAD; lia). done.
Qed.

(** *** The queue *)

Context {A : Type} `{!Inhabited A}.

(** [repr q l]: the queue [q] holds the entries [l], oldest first. *)
Definition repr (q : BufferQ A) (l : list A) : Prop :=
  exists h ph pt,
    let n := num (ring q) in
    ptrs (ring q) = [ph; pt] /\ 0 < n /\ 2 * n <= M /\
    Z.of_nat (length (buffer q)) = n /\
    tracks n ph h /\ tracks n pt (h + Z.of_nat (length l)) /\
    Z.of_nat (length l) <= n /\
    forall i x, l !! i = Some x ->
      buffer q !! Z.to_nat ((h + Z.of_nat i) `mod` n) = Some x.

Lemma repr_init n (b : list A) :
  0 < n -> 2 * n <= M -> Z.of_nat (length b) = n ->
  repr (mkBufferQ (Ring_init 2 n) b) [].
Proof.
  intros. exists 0, RingPtr_init, RingPtr_init. simpl.
  split_and!; auto using tracks_init; lia || set_solver.
Qed.

Lemma mod_neq n h i k :
  0 < n -> 0 <= i < n -> 0 <= k < n -> i <> k -> (h + i) `mod` n <> (h + k) `mod` n.
Proof.
  intros Hn Hi Hk Hne Heq.
  pose proof (Z.div_mod (h + i) n ltac:(lia)). pose proof (Z.div_mod (h + k) n ltac:(lia)).
  set (d := (h + i) `div` n - (h + k) `div` n).
  assert (i - k = n * d) by (unfold d; lia).
  assert (d = 0) by nia. nia.
Qed.

Lemma put_repr q l x :
  repr q l -> Z.of_nat (length l) < num (ring q) -> repr (put q x) (l ++ [x]).
Proof.
  intros (h & ph & pt & Hp & Hn & HM & Hb & Hh & Ht & Hlen & Hl) Hlt.
  assert (0 <= h) as Hh0 by apply Hh. pose proof M_pos.
  exists h, ph, (rp_incr pt (num (ring q)) 1). unfold put, incr, TAIL, ptr; simpl.
  rewrite Hp; simpl. rewrite length_insert, length_app; simpl.
  split_and!; auto; try lia.
  - replace (h + Z.of_nat (length l + 1)) with (h + Z.of_nat (length l) + 1) by lia.
    apply rp_incr_tracks; auto; lia.
  - rewrite (rp_ptr_tracks _ _ (h + Z.of_nat (length l))) by (auto; lia).
    rewrite Z.add_0_r. set (n := num (ring q)) in *.
    pose proof (Z.mod_pos_bound (h + Z.of_nat (length l)) n Hn).
    intros i y [Hi|[Hi Hy]]%lookup_app_Some.
    + apply lookup_lt_Some in Hi as Hlt'.
      rewrite list_lookup_insert_ne; [by apply Hl|].
      pose proof (Z.mod_pos_bound (h + Z.of_nat i) n Hn).
      intros Heq%Z2Nat.inj; try lia. by apply mod_neq in Heq; lia.
    + apply list_lookup_singleton_Some in Hy as [Hi' ->].
      replace (Z.of_nat i) with (Z.of_nat (length l)) by lia.
      apply list_lookup_insert_eq. lia.
Qed.

Lemma get_repr q x l :
  repr q (x :: l) -> (get q).1 = x /\ repr (get q).2 l.
Proof.
  intros (h & ph & pt & Hp & Hn & HM & Hb & Hh & Ht & Hlen & Hl).
  assert (0 <= h) as Hh0 by apply Hh. pose proof M_pos. simpl in *.
  unfold get, incr, ptr; simpl. rewrite Hp; simpl. split.
  - rewrite (rp_ptr_tracks _ _ h) by (auto; lia).
    apply list_lookup_total_correct. by apply (Hl 0%nat x).
  - exists (h + 1), (rp_incr ph (num (ring q)) 1), pt. simpl.
    split_and!; auto; try lia.
    + apply rp_incr_tracks; auto; lia.
    + by replace (h + 1 + Z.of_nat (length l)) with (h + Z.of_nat (S (length l))) by lia.
    + intros i y Hi. replace (h + 1 + Z.of_nat i) with (h + Z.of_nat (S i)) by lia.
      by apply Hl.
Qed.

End bounded.

End ring.

(** ** Properties *)

(** The index computed by [RingPtr::ptr] is exact.  However often the
    free-running counter of type T has wrapped around, after any sequence of
    increments [ptr( num, off )] is the total number of entries advanced plus
    [off], modulo the ring length, provided [2 * num + off] fits in T. *)
Theorem ring_ptr_exact w n off (amounts : list Z) :
  0 < w -> 0 < n -> 0 <= off -> 2 * n + off <= 2 ^ w ->
  Forall (fun a => 0 <= a < 2 ^ w) amounts ->
  rp_ptr w (fold_left (fun p a => rp_incr w p n a) amounts RingPtr_init) n off
  = (foldr Z.add 0 amounts + off) `mod` n.
Proof.
  intros Hw Hn Ho HM Ham. apply rp_ptr_tracks; auto.
  cut (forall p N, tracks w n p N ->
    tracks w n (fold_left (fun p a => rp_incr w p n a) amounts p) (N + foldr Z.add 0 amounts)).
  { intros H. apply (H RingPtr_init 0). by apply tracks_init. }
  induction Ham as [|a amounts Ha _ IH]; intros p N HpN; simpl.
  { by rewrite Z.add_0_r. }
  rewrite Z.add_assoc. apply IH, rp_incr_tracks; auto; lia.
Qed.

Lemma ring_ptr_exact_witness :
  rp_ptr 8 (fold_left (fun p a => rp_incr 8 p 100 a) [200; 200; 200] RingPtr_init) 100 7 = 7.
Proof.
  apply (ring_ptr_exact 8 100 7 [200; 200; 200]); try lia.
  repeat constructor; lia.
Defined.

(** After [Ring::updateTail] the tail is as far behind the head as the
    slowest middle pointer: no middle pointer is behind the tail, some middle
    pointer is level with it, and a ring without middle pointers is drained. *)
Theorem updateTail_slowest w (r : Ring) :
  0 < w -> (2 <= length (ptrs r))%nat ->
  let r' := updateTail w r in
  (forall i, (1 <= i < TAIL r)%nat ->
     available w r' HEAD i <= available w r' HEAD (TAIL r)) /\
  (if decide (2 <= TAIL r)%nat
   then exists i, (1 <= i < TAIL r)%nat /\
          available w r' HEAD i = available w r' HEAD (TAIL r)
   else available w r' HEAD (TAIL r) = 0).
Proof.
  intros Hw Hlen r'. unfold r'. rewrite updateTail_available by done.
  destruct (maxAvail_spec w Hw r (seq 1 (TAIL r - 1)) 0) as (_ & Hmax & Hex); [lia|].
  split.
  - intros i Hi. rewrite updateTail_middle by done. apply Hmax, elem_of_seq. lia.
  - case_decide as Ht; destruct Hex as [He|(i & Hi%elem_of_seq & He)].
    + exists 1%nat. split; [lia|]. rewrite updateTail_middle by lia.
      pose proof (available_range w Hw r HEAD 1).
      pose proof (Hmax 1%nat ltac:(apply elem_of_seq; lia)). lia.
    + exists i. split; [lia|]. rewrite updateTail_middle by lia. done.
    + done.
    + lia.
Qed.

Lemma updateTail_slowest_witness :
  let r := mkRing 10 [mkRingPtr 3 0; mkRingPtr 252 0; mkRingPtr 255 0; mkRingPtr 250 0] in
  available 8 (updateTail 8 r) HEAD 1 <= available 8 (updateTail 8 r) HEAD 3.
Proof.
  intros r. apply (updateTail_slowest 8 r); [lia | simpl; lia | simpl; unfold TAIL; simpl; lia].
Defined.

(** The operations of a queue and its specification: a bounded list. *)
Inductive qop (A : Type) := Put (x : A) | Get.
Arguments Put {A} _.
Arguments Get {A}.

Fixpoint run {A} `{!Inhabited A} (w : Z) (q : BufferQ A) (ops : list (qop A)) :
    list A * BufferQ A :=
  match ops with
  | [] => ([], q)
  | Put x :: ops => run w (put w q x) ops
  | Get :: ops =>
      let '(x, q) := get w q in let '(out, q) := run w q ops in (x :: out, q)
  end.

Fixpoint spec_run {A} (n : Z) (l : list A) (ops : list (qop A)) : option (list A * list A) :=
  match ops with
  | [] => Some ([], l)
  | Put x :: ops => if Z.of_nat (length l) <? n then spec_run n (l ++ [x]) ops else None
  | Get :: ops =>
      match l with
      | [] => None
      | x :: l => prod_map (cons x) id <$> spec_run n l ops
      end
  end.

(** C35: [BufferQ] refines a bounded FIFO.  Every sequence of [put] and [get]
    calls that never puts into a full queue or gets from an empty one returns
    what a list of capacity [num] returns, and leaves the queue holding the
    list's entries, no matter how often the counters wrap. *)
Theorem bufferq_refines_fifo {A} `{!Inhabited A} w (q : BufferQ A) l ops out l' :
  0 < w -> repr w q l -> spec_run (num (ring q)) l ops = Some (out, l') ->
  (run w q ops).1 = out /\ repr w (run w q ops).2 l'.
Proof.
  intros Hw. revert q l out. induction ops as [|[x|] ops IH]; intros q l out Hrep Hs;
    cbn [run spec_run] in *.
  - by simplify_eq.
  - case_match eqn:Hlt; [|done]. apply Z.ltb_lt in Hlt.
    apply (IH _ (l ++ [x])); [by apply put_repr | done].
  - destruct l as [|x l]; [done|].
    apply fmap_Some in Hs as ([out0 l0] & Hs & [= -> ->]).
    pose proof (get_repr w Hw q x l Hrep) as [Hx Hrep'].
    assert (num (ring (get w q).2) = num (ring q)) as Hnum by done.
    destruct (get w q) as [y q']; cbn [fst snd] in *; subst y.
    rewrite <-Hnum in Hs. destruct (IH q' l out0 Hrep' Hs) as [Ho Hr].
    destruct (run w q' ops); simplify_eq/=. done.
Qed.

Lemma bufferq_refines_fifo_witness :
  (run 3 (mkBufferQ (Ring_init 2 3) [0; 0; 0]%Z)
     [Put 1; Put 2; Get; Put 3; Put 4; Get; Get; Put 5; Get; Get]).1 = [1; 2; 3; 4; 5].
Proof.
  apply (bufferq_refines_fifo 3 (mkBufferQ (Ring_init 2 3) [0; 0; 0]%Z) [] _ _ []).
  - lia.
  - apply repr_init; simpl; lia.
  - reflexivity.
Defined.

(** [linearSize] and [negLinearSize] are the largest contiguous runs.  With
    the writer [N] and the reader [K] entries into the stream, at most [num]
    apart, [linearSize] is the number of readable entries capped at the end of
    the buffer, and [negLinearSize] the number of free entries capped there. *)
Theorem linear_sizes_exact w (r : Ring) i j N K :
  0 < w -> 0 < num r -> 2 * num r <= 2 ^ w ->
  tracks w (num r) (ptrs r !!! i) N -> tracks w (num r) (ptrs r !!! j) K ->
  K <= N <= K + num r ->
  linearSize w r i j = Z.min (N - K) (num r - K `mod` num r) /\
  negLinearSize w r i j = Z.min (num r - (N - K)) (num r - N `mod` num r).
Proof.
  intros Hw Hn HM Hi Hj HNK.
  assert (available w r i j = N - K) as Hav.
  { apply (tracks_distance w (num r)); auto; lia. }
  pose proof (Z.mod_pos_bound N (num r) Hn). pose proof (Z.mod_pos_bound K (num r) Hn).
  unfold linearSize, negLinearSize, ptr.
  rewrite Hav, (rp_ptr_tracks w Hw (num r) (ptrs r !!! i) N), (rp_ptr_tracks w Hw (num r) (ptrs r !!! j) K), !Z.add_0_r by (auto; lia).
  rewrite !wrapu_small by lia.
  split; destruct (Z.ltb_spec (N - K) (num r - K `mod` num r));
    destruct (Z.ltb_spec (num r - (N - K)) (num r - N `mod` num r)); lia.
Qed.

Lemma linear_sizes_exact_witness :
  let r := incr 8 (incr 8 (Ring_init 2 100) 0 70) 1 50 in
  linearSize 8 r 0 1 = 20 /\ negLinearSize 8 r 0 1 = 30.
Proof.
  intros r. apply (linear_sizes_exact 8 r 0 1 70 50); try (simpl; lia).
  - apply (rp_incr_tracks 8 ltac:(lia) 100 RingPtr_init 0); simpl; try lia.
    by apply tracks_init.
  - apply (rp_incr_tracks 8 ltac:(lia) 100 RingPtr_init 0); simpl; try lia.
    by apply tracks_init.
Defined.
