(* ===== verification/DataOStream.v ===== *)
(** * Output data streams (co/dataOStream.h, dataOStream.ipp, dataOStream.cpp)

    [DataOStream] buffers what the application writes, hands the buffer to the
    subclass's [sendData] in packets, compresses each packet when that pays and
    optionally retains everything for a later [_resend].  The record follows
    [detail::DataOStream]: [compressor], [isGood] and [chunks] stand for the
    pression::Compressor member (its name, its [isGood()] and the chunks of its
    last result).  A call of the virtual [sendData] is recorded as a [SendCall]
    with everything the subclass can see of it. *)

From S2P Require Import Prelude Bytes Lunchbox.

Inductive CompressorState :=
  | STATE_UNCOMPRESSED
  | STATE_PARTIAL
  | STATE_COMPLETE
  | STATE_UNCOMPRESSIBLE.

#[export] Instance CompressorState_eq_dec : EqDecision CompressorState.
Proof. solve_decision. Defined.

Record DataOStream := mkDataOStream {
  state : CompressorState;
  buffer : bytes;
  bufferStart : Z;
  dataSize : Z;
  compressedDataSize : Z;
  connections : list Z;
  compressor : Z;
  isGood : bool;
  chunks : list bytes;
  enabled : bool;
  dataSent : bool;
  save : bool
}.

Definition set_state (v : CompressorState) (s : DataOStream) : DataOStream :=
  mkDataOStream v (buffer s) (bufferStart s) (dataSize s) (compressedDataSize s) (connections s) (compressor s) (isGood s) (chunks s) (enabled s) (dataSent s) (save s).
Definition set_buffer (v : bytes) (s : DataOStream) : DataOStream :=
  mkDataOStream (state s) v (bufferStart s) (dataSize s) (compressedDataSize s) (connections s) (compressor s) (isGood s) (chunks s) (enabled s) (dataSent s) (save s).
Definition set_bufferStart (v : Z) (s : DataOStream) : DataOStream :=
  mkDataOStream (state s) (buffer s) v (dataSize s) (compressedDataSize s) (connections s) (compressor s) (isGood s) (chunks s) (enabled s) (dataSent s) (save s).
Definition set_dataSize (v : Z) (s : DataOStream) : DataOStream :=
  mkDataOStream (state s) (buffer s) (bufferStart s) v (compressedDataSize s) (connections s) (compressor s) (isGood s) (chunks s) (enabled s) (dataSent s) (save s).
Definition set_compressedDataSize (v : Z) (s : DataOStream) : DataOStream :=
  mkDataOStream (state s) (buffer s) (bufferStart s) (dataSize s) v (connections s) (compressor s) (isGood s) (chunks s) (enabled s) (dataSent s) (save s).
Definition set_connections (v : list Z) (s : DataOStream) : DataOStream :=
  mkDataOStream (state s) (buffer s) (bufferStart s) (dataSize s) (compressedDataSize s) v (compressor s) (isGood s) (chunks s) (enabled s) (dataSent s) (save s).
Definition set_compressor (v : Z) (s : DataOStream) : DataOStream :=
  mkDataOStream (state s) (buffer s) (bufferStart s) (dataSize s) (compressedDataSize s) (connections s) v (isGood s) (chunks s) (enabled s) (dataSent s) (save s).
Definition set_isGood (v : bool) (s : DataOStream) : DataOStream :=
  mkDataOStream (state s) (buffer s) (bufferStart s) (dataSize s) (compressedDataSize s) (connections s) (compressor s) v (chunks s) (enabled s) (dataSent s) (save s).
Definition set_chunks (v : list bytes) (s : DataOStream) : DataOStream :=
  mkDataOStream (state s) (buffer s) (bufferStart s) (dataSize s) (compressedDataSize s) (connections s) (compressor s) (isGood s) v (enabled s) (dataSent s) (save s).
Definition set_enabled (v : bool) (s : DataOStream) : DataOStream :=
  mkDataOStream (state s) (buffer s) (bufferStart s) (dataSize s) (compressedDataSize s) (connections s) (compressor s) (isGood s) (chunks s) v (dataSent s) (save s).
Definition set_dataSent (v : bool) (s : DataOStream) : DataOStream :=
  mkDataOStream (state s) (buffer s) (bufferStart s) (dataSize s) (compressedDataSize s) (connections s) (compressor s) (isGood s) (chunks s) (enabled s) v (save s).
Definition set_save (v : bool) (s : DataOStream) : DataOStream :=
  mkDataOStream (state s) (buffer s) (bufferStart s) (dataSize s) (compressedDataSize s) (connections s) (compressor s) (isGood s) (chunks s) (enabled s) (dataSent s) v.

(** One call of [sendData( data, size, last )] and the header and chunks the
    stream would report for it. *)
Record SendCall := mkSendCall {
  sc_data : bytes;
  sc_size : Z;
  sc_last : bool;
  sc_compressor : Z;
  sc_nChunks : Z;
  sc_chunks : list bytes
}.

Section dataostream.

Context `{!Pression}.

(** [Global::getIAttribute( IATTR_OBJECT_COMPRESSION )] and
    [Global::getObjectBufferSize()]. *)
Context (threshold objectBufferSize : Z).

Definition size_of (b : bytes) : Z := Z.of_nat (length b).

(** The bytes of the buffer from [bufferStart] on, what [sendData] is given. *)
Definition window (s : DataOStream) : bytes :=
  drop (Z.to_nat (bufferStart s)) (buffer s).

Definition DataOStream_init (name : Z) (good : bool) : DataOStream :=
  mkDataOStream STATE_UNCOMPRESSED [] 0 0 0 [] name good [] false false false.

Definition getCompressor (s : DataOStream) : Z :=
  match state s with
  | STATE_UNCOMPRESSED | STATE_UNCOMPRESSIBLE => EQ_COMPRESSOR_NONE
  | _ => compressor s
  end.

Definition getNumChunks (s : DataOStream) : Z :=
  match state s with
  | STATE_UNCOMPRESSED | STATE_UNCOMPRESSIBLE => 1
  | _ => Z.of_nat (length (chunks s))
  end.

Definition chunksSize (l : list bytes) : Z := size_of (concat l).

(** [detail::DataOStream::compress]; [src] are the [size] bytes at the pointer. *)
Definition compress_ (s : DataOStream) (src : bytes) (result : CompressorState) : DataOStream :=
  if bool_decide (state s = result) || bool_decide (state s = STATE_UNCOMPRESSIBLE) then s
  else if negb (isGood s) || (size_of src <=? threshold)
  then set_state STATE_UNCOMPRESSED s
  else
    let result_ := compress (compressor s) src in
    let s := set_compressedDataSize (chunksSize result_) (set_chunks result_ s) in
    if compressedDataSize s >=? size_of src
    then set_state STATE_UNCOMPRESSIBLE s
    else
      let s := set_state result s in
      if bool_decide (result = STATE_COMPLETE) then set_buffer [] s else s.

Definition mkCall (s : DataOStream) (data : bytes) (size : Z) (last : bool) : SendCall :=
  mkSendCall data size last (getCompressor s) (getNumChunks s) (chunks s).

Definition enable_ (s : DataOStream) : DataOStream :=
  set_buffer [] (set_enabled true (set_dataSize 0 (set_dataSent false
    (set_bufferStart 0 (set_state STATE_UNCOMPRESSED s))))).

Definition setupConnections (s : DataOStream) (conns : list Z) : DataOStream :=
  set_connections conns s.

Definition clearConnections (s : DataOStream) : DataOStream := set_connections [] s.

Definition resetBuffer (s : DataOStream) : DataOStream :=
  let s := set_state STATE_UNCOMPRESSED s in
  if save s then set_bufferStart (size_of (buffer s)) s
  else set_buffer [] (set_bufferStart 0 s).

Definition flush (s : DataOStream) (last : bool) : DataOStream * list SendCall :=
  let '(s, out) :=
    match connections s with
    | [] => (s, [])
    | _ =>
        let ptr := window s in
        let s := compress_ (set_state STATE_UNCOMPRESSED s) ptr STATE_PARTIAL in
        (s, [mkCall s ptr (size_of ptr) last])
    end in
  (resetBuffer (set_dataSent true s), out).

Definition write_ (s : DataOStream) (data : bytes) : DataOStream * list SendCall :=
  let '(s, out) :=
    if size_of (buffer s) - bufferStart s >? objectBufferSize
    then flush s false else (s, []) in
  (set_buffer (buffer s ++ data) s, out).

Definition disable (s : DataOStream) : DataOStream * list SendCall :=
  if negb (enabled s) then (s, [])
  else
    let s := set_dataSize (size_of (buffer s)) s in
    let s := set_dataSent (dataSize s >? 0) s in
    let '(s, out) :=
      match dataSent s, connections s with
      | true, _ :: _ =>
          let ptr := window s in
          let size := size_of (buffer s) - bufferStart s in
          let s :=
            if (size =? 0) && bool_decide (state s = STATE_PARTIAL)
            then set_buffer [] (set_state STATE_COMPLETE s)
            else compress_ (set_state STATE_UNCOMPRESSED s) ptr
                   (if bufferStart s =? 0 then STATE_COMPLETE else STATE_PARTIAL) in
          (s, [mkCall s ptr size true])
      | _, _ => (s, [])
      end in
    let s := if save s then s else set_buffer [] s in
    (set_connections [] (set_enabled false s), out).

Definition resend (s : DataOStream) : DataOStream * list SendCall :=
  let data := take (Z.to_nat (dataSize s)) (buffer s) in
  let s := compress_ s data STATE_COMPLETE in
  (s, [mkCall s data (dataSize s) true]).

Definition enableSave (s : DataOStream) : DataOStream := set_save true s.
Definition disableSave (s : DataOStream) : DataOStream := set_save false s.
Definition hasSentData (s : DataOStream) : bool := dataSent s.

Definition reset (s : DataOStream) : DataOStream :=
  set_connections [] (set_enabled false (resetBuffer s)).

(** What [sendBody] puts on a connection for a call, given its data. *)
Definition sendBody (be : bool) (c : SendCall) : bytes :=
  if sc_compressor c =? EQ_COMPRESSOR_NONE then sc_data c
  else concat ((fun chunk => enc be 8 (size_of chunk) ++ chunk) <$> sc_chunks c).

Definition getCompressedDataSize (s : DataOStream) : Z :=
  if getCompressor s =? EQ_COMPRESSOR_NONE then 0
  else compressedDataSize s + getNumChunks s * 8.

(** A sequence of [_write] calls. *)
Fixpoint writes (s : DataOStream) (ws : list bytes) : DataOStream * list SendCall :=
  match ws with
  | [] => (s, [])
  | w :: ws =>
      let '(s, out) := write_ s w in
      let '(s, out') := writes s ws in
      (s, out ++ out')
  end.

End dataostream.

(** ** Lemmas *)

Section lemmas.

Context `{!Pression, !PressionOk}.
Context (threshold objectBufferSize : Z).

(** What a receiver recovers from a call: the data itself, or the
    decompression of its chunks. *)
Definition payload (c : SendCall) : bytes :=
  if sc_compressor c =? EQ_COMPRESSOR_NONE then sc_data c
  else decompress (sc_compressor c) (sc_chunks c) (sc_size c).

Lemma size_of_app b c : size_of (b ++ c) = size_of b + size_of c.
Proof. unfold size_of. rewrite length_app. lia. Qed.

Lemma size_of_nonneg b : 0 <= size_of b.
Proof. unfold size_of. lia. Qed.

Lemma size_of_pos b : b <> [] -> 0 < size_of b.
Proof. destruct b; [done|]. unfold size_of. simpl. lia. Qed.

Lemma concat_nonempty (ws : list bytes) :
  ws <> [] -> Forall (.≠ []) ws -> concat ws <> [].
Proof. destruct ws as [|w ws]; [done|]. intros _ [Hw _]%Forall_cons. by destruct w. Qed.

(** [compress_] changes neither the connections nor the switches. *)
Lemma compress_frame s src r :
  let s' := compress_ threshold s src r in
  connections s' = connections s /\ enabled s' = enabled s /\ save s' = save s /\
  bufferStart s' = bufferStart s /\ dataSize s' = dataSize s /\
  dataSent s' = dataSent s /\ compressor s' = compressor s /\ isGood s' = isGood s.
Proof. unfold compress_. by split_matches. Qed.

Lemma compress_buffer s src r :
  r <> STATE_COMPLETE -> buffer (compress_ threshold s src r) = buffer s.
Proof. intros. unfold compress_. split_matches. by rewrite bool_decide_eq_true in *. Qed.

(** A compression, unless it is skipped as already done, describes the data it
    was given. *)
Lemma compress_payload s src r last :
  state s <> r -> r = STATE_PARTIAL \/ r = STATE_COMPLETE ->
  compressor s <> EQ_COMPRESSOR_NONE ->
  payload (mkCall (compress_ threshold s src r) src (size_of src) last) = src.
Proof.
  intros Hs Hr Hn. unfold compress_. rewrite (bool_decide_eq_false_2 _ Hs).
  unfold payload, mkCall, getCompressor; cbn -[size_of Z.eqb Z.leb Z.geb].
  case_bool_decide as Hu; [by rewrite Hu, Z.eqb_refl|].
  destruct (negb (isGood s) || _); cbn -[size_of Z.eqb Z.leb Z.geb]; [by rewrite Z.eqb_refl|].
  destruct (chunksSize _ >=? size_of src); cbn -[size_of Z.eqb Z.leb Z.geb];
    [by rewrite Z.eqb_refl|].
  destruct Hr as [-> | ->]; cbn -[size_of Z.eqb Z.leb Z.geb];
    rewrite (proj2 (Z.eqb_neq _ _)) by done; apply decompress_compress.
Qed.

(** The state of an enabled stream between two writes: [done] has been handed
    to [sendData], [pend] is still buffered. *)
Record writing (s : DataOStream) (pend done : list bytes) : Prop := {
  wr_state : state s = STATE_UNCOMPRESSED;
  wr_enabled : enabled s = true;
  wr_conns : connections s <> [];
  wr_name : compressor s <> EQ_COMPRESSOR_NONE;
  wr_buffer : buffer s = if save s then concat done ++ concat pend else concat pend;
  wr_start : bufferStart s = if save s then size_of (concat done) else 0;
}.

Lemma writing_window s pend done :
  writing s pend done -> window s = concat pend.
Proof.
  intros []. unfold window. rewrite wr_buffer0, wr_start0. destruct (save s); [|done].
  unfold size_of. rewrite Nat2Z.id. apply drop_app_length.
Qed.

Lemma writing_size s pend done :
  writing s pend done -> size_of (buffer s) - bufferStart s = size_of (concat pend).
Proof.
  intros []. rewrite wr_buffer0, wr_start0. destruct (save s); rewrite ?size_of_app; lia.
Qed.

Lemma flush_spec s pend done last :
  writing s pend done ->
  exists s' c, flush threshold s last = (s', [c]) /\
    payload c = concat pend /\ sc_last c = last /\ sc_size c = size_of (concat pend) /\
    writing s' [] (done ++ pend) /\ save s' = save s.
Proof.
  intros Hwr. pose proof (writing_window _ _ _ Hwr) as Hwin.
  destruct Hwr. unfold flush. destruct (connections s) as [|c0 cs] eqn:Hc; [done|].
  rewrite Hwin. set (s1 := set_state STATE_UNCOMPRESSED s).
  set (s2 := compress_ threshold s1 (concat pend) STATE_PARTIAL).
  pose proof (compress_frame s1 (concat pend) STATE_PARTIAL) as (F1&F2&F3&F4&F5&F6&F7&F8).
  fold s2 in F1, F2, F3, F4, F5, F6, F7, F8.
  assert (buffer s2 = buffer s) as Hb by (unfold s2; by rewrite compress_buffer).
  eexists _, _. split; [done|]. split_and!; try done.
  - by apply compress_payload; [done | by left | ].
  - unfold resetBuffer. cbn [save set_state set_dataSent]. rewrite F3.
    cbn [save s1 set_state] in *. simpl in F3.
    destruct (save s) eqn:Hsv; cbn; constructor; cbn; rewrite ?F1, ?F2, ?F3, ?F7; cbn;
      rewrite ?Hc, ?Hb, ?wr_buffer0, ?Hsv, ?concat_app, ?app_nil_r; done.
  - unfold resetBuffer. cbn. rewrite F3. cbn. by destruct (save s) eqn:Hsv; cbn; rewrite F3.
Qed.

Lemma write_spec s pend done w :
  0 <= objectBufferSize -> writing s pend done ->
  exists s' out pend' done', write_ threshold objectBufferSize s w = (s', out) /\
    writing s' (pend' ++ [w]) done' /\ save s' = save s /\
    Forall (fun c => sc_last c = false) out /\
    ((out = [] /\ pend' = pend /\ done' = done) \/
     (exists c, out = [c] /\ payload c = concat pend /\ pend <> [] /\
        pend' = [] /\ done' = done ++ pend)).
Proof.
  intros Ho Hwr. unfold write_. rewrite (writing_size _ _ _ Hwr).
  destruct (Z.gtb_spec (size_of (concat pend)) objectBufferSize) as [Hgt|Hle].
  - destruct (flush_spec s pend done false Hwr) as (s' & c & -> & Hp & Hl & _ & Hwr' & Hsv).
    exists (set_buffer (buffer s' ++ w) s'), [c], [], (done ++ pend). split_and!; try done.
    + destruct Hwr'. constructor; cbn; try done.
      rewrite wr_buffer0. destruct (save s'); by rewrite ?app_nil_r, ?concat_app.
    + by constructor.
    + right. exists c. split_and!; auto. intros ->. unfold size_of in Hgt. simpl in Hgt. lia.
  - exists (set_buffer (buffer s ++ w) s), [], pend, done. split_and!; try done.
    + destruct Hwr. constructor; cbn; try done.
      rewrite wr_buffer0, concat_app; simpl. rewrite app_nil_r.
      destruct (save s); by rewrite <-?app_assoc.
    + by left.
Qed.

Lemma writes_spec s pend done ws :
  0 <= objectBufferSize -> writing s pend done ->
  exists s' out pend' groups, writes threshold objectBufferSize s ws = (s', out) /\
    pend ++ ws = concat groups ++ pend' /\ payload <$> out = (@concat Z) <$> groups /\
    Forall (.≠ []) groups /\ Forall (fun c => sc_last c = false) out /\
    (ws <> [] \/ pend <> [] -> pend' <> []) /\
    writing s' pend' (done ++ concat groups) /\ save s' = save s.
Proof.
  intros Ho. revert s pend done. induction ws as [|w ws IH]; intros s pend done Hwr.
  { exists s, [], pend, []. simpl. rewrite !app_nil_r. naive_solver. }
  cbn [writes].
  destruct (write_spec s pend done w Ho Hwr) as (s1 & o1 & p1 & d1 & -> & Hwr1 & Hsv1 & Hl1 & Hcase).
  destruct (IH s1 (p1 ++ [w]) d1 Hwr1)
    as (s2 & o2 & p2 & gs & -> & Hpart & Hpay & Hne & Hl2 & Hp2 & Hwr2 & Hsv2).
  assert (p2 <> []) by (apply Hp2; right; by destruct p1).
  destruct Hcase as [(-> & -> & ->) | (c & -> & Hc & Hpne & -> & ->)].
  - exists s2, o2, p2, gs. rewrite <-app_assoc in Hpart. split_and!; auto. congruence.
  - exists s2, (c :: o2), p2, (pend :: gs). split_and!; auto.
    + simpl. rewrite <-app_assoc, <-Hpart. done.
    + by rewrite !fmap_cons, Hc, Hpay.
    + by constructor; [inv Hl1|].
    + simpl. by rewrite app_assoc.
    + congruence.
Qed.

(** [saved s data]: a disabled stream that can resend all of [data]; a
    completely compressed buffer lives in the compressor's result only. *)
Definition saved (s : DataOStream) (data : bytes) : Prop :=
  dataSize s = size_of data /\ compressor s <> EQ_COMPRESSOR_NONE /\
  (if bool_decide (state s = STATE_COMPLETE)
   then chunks s = compress (compressor s) data else buffer s = data).

Lemma compress_saved s src :
  state s <> STATE_COMPLETE -> saved s src ->
  saved (compress_ threshold s src STATE_COMPLETE) src.
Proof.
  intros Hs (Hd & Hn & Hb). unfold saved.
  pose proof (compress_frame s src STATE_COMPLETE) as (_&_&_&_&F5&_&F7&_). rewrite F5, F7.
  split_and!; try done.
  rewrite bool_decide_eq_false_2 in Hb by done.
  unfold compress_. rewrite (bool_decide_eq_false_2 _ Hs). cbn [orb].
  destruct (decide (state s = STATE_UNCOMPRESSIBLE)) as [Hu|Hu];
    [rewrite (bool_decide_eq_true_2 _ Hu); by rewrite Hu|rewrite (bool_decide_eq_false_2 _ Hu)].
  destruct (negb (isGood s) || _); [done|]. cbn -[size_of Z.geb].
  by destruct (_ >=? _).
Qed.

Lemma resend_spec s data :
  saved s data ->
  exists s' c, resend threshold s = (s', [c]) /\ saved s' data /\
    payload c = data /\ sc_last c = true /\ sc_size c = size_of data.
Proof.
  intros Hsv. pose proof Hsv as (Hd & Hn & Hb). unfold resend.
  set (src := take (Z.to_nat (dataSize s)) (buffer s)).
  pose proof (compress_frame s src STATE_COMPLETE) as (_&_&_&_&F5&_&F7&_).
  rewrite F5. case_bool_decide as Hc.
  - unfold compress_. rewrite bool_decide_eq_true_2 by done. cbn [orb].
    eexists _, _. split; [done|]. split_and!; try done.
    unfold payload, mkCall, getCompressor; simpl. rewrite Hc.
    rewrite (proj2 (Z.eqb_neq _ _)) by done. rewrite Hb, Hd. apply decompress_compress.
  - assert (src = data) as ->.
    { unfold src. rewrite Hb, Hd. unfold size_of. rewrite Nat2Z.id. by apply take_ge. }
    subst data. rewrite Hd. eexists _, _. split; [done|]. split_and!; try done.
    + by apply compress_saved.
    + apply compress_payload; auto.
Qed.

Lemma disable_spec s pend done :
  writing s pend done -> concat pend <> [] ->
  exists s' c, disable threshold s = (s', [c]) /\
    payload c = concat pend /\ sc_last c = true /\ sc_size c = size_of (concat pend) /\
    hasSentData s' = true /\ enabled s' = false /\ connections s' = [] /\
    (save s = true -> saved s' (concat done ++ concat pend)).
Proof.
  intros Hwr Hne. pose proof (writing_window _ _ _ Hwr) as Hwin.
  pose proof (writing_size _ _ _ Hwr) as Hsz.
  assert (0 < size_of (buffer s)) as Hpos.
  { apply size_of_pos. destruct Hwr. rewrite wr_buffer0.
    destruct (save s); [by destruct (concat done)|done]. }
  destruct Hwr. unfold disable. rewrite wr_enabled0. cbn [negb].
  cbn [dataSent set_dataSent dataSize set_dataSize connections].
  rewrite (proj2 (Z.gtb_lt _ _)) by lia.
  destruct (connections s) as [|c0 cs] eqn:Hc; [done|].
  set (s1 := set_dataSent true (set_dataSize (size_of (buffer s)) s)).
  change (window s1) with (window s). rewrite Hwin.
  change (size_of (buffer s1) - bufferStart s1) with (size_of (buffer s) - bufferStart s).
  rewrite Hsz, (proj2 (Z.eqb_neq _ _)) by (pose proof (size_of_pos _ Hne); lia).
  cbn [andb]. change (bufferStart s1) with (bufferStart s).
  set (r := if bufferStart s =? 0 then STATE_COMPLETE else STATE_PARTIAL).
  assert (r = STATE_COMPLETE /\ (save s = true -> concat done = []) \/ r = STATE_PARTIAL) as Hr.
  { unfold r. rewrite wr_start0. destruct (Z.eqb_spec (if save s then size_of (concat done) else 0) 0)
      as [Hz|]; [left; split; [done|] | by right].
    intros Hs. rewrite Hs in Hz. destruct (concat done); [done|]. unfold size_of in Hz. simpl in Hz. lia. }
  clearbody r.
  set (s2 := compress_ threshold _ _ r).
  pose proof (compress_frame (set_state STATE_UNCOMPRESSED s1) (concat pend) r)
    as (F1&F2&F3&F4&F5&F6&F7&F8). fold s2 in F1, F2, F3, F4, F5, F6, F7, F8.
  eexists _, _. split; [done|]. split_and!; try done.
  - apply compress_payload; naive_solver.
  - unfold hasSentData. cbn. by destruct (save s2); cbn; rewrite F6.
  - intros Hs. rewrite F3. cbn [save set_state s1 set_dataSent set_dataSize]. rewrite Hs in *.
    unfold saved. cbn. rewrite F5, F7. cbn. rewrite wr_buffer0. split_and!; try done.
    destruct Hr as [[-> Hdone%(fun f => f eq_refl)] | ->].
    + rewrite Hdone in *. cbn [app] in *.
      assert (saved s2 (concat pend)) as (_ & _ & Hsv).
      { apply compress_saved; [done|]. unfold saved. cbn. by rewrite wr_buffer0. }
      rewrite F7 in Hsv. done.
    + assert (state s2 <> STATE_COMPLETE) as Hst by (unfold s2, compress_; split_matches).
      rewrite bool_decide_eq_false_2 by done. unfold s2. by rewrite compress_buffer.
Qed.

(** What a receiver may rely on in any call: the announced size is that of the
    payload, and compressed data, which only a good compressor produces, is
    smaller than the payload and comes with its number of chunks. *)
Definition call_ok (comp : Z * bool) (c : SendCall) : Prop :=
  sc_size c = size_of (payload c) /\
  (sc_compressor c = EQ_COMPRESSOR_NONE -> sc_nChunks c = 1) /\
  (sc_compressor c <> EQ_COMPRESSOR_NONE ->
     comp = (sc_compressor c, true) /\ sc_nChunks c = Z.of_nat (length (sc_chunks c)) /\
     chunksSize (sc_chunks c) < sc_size c /\
     exists src, sc_chunks c = compress (sc_compressor c) src).

(** The stream's compressor and whether it works. *)
Definition comp_of (s : DataOStream) : Z * bool := (compressor s, isGood s).

Definition sound (s : DataOStream) : Prop :=
  compressor s <> EQ_COMPRESSOR_NONE /\ 0 <= bufferStart s <= size_of (buffer s).

Lemma compress_call_ok s src r last :
  r = STATE_PARTIAL \/ r = STATE_COMPLETE -> compressor s <> EQ_COMPRESSOR_NONE ->
  call_ok (comp_of s)
    (mkCall (compress_ threshold (set_state STATE_UNCOMPRESSED s) src r) src (size_of src) last).
Proof.
  intros Hr Hn. split.
  { by rewrite compress_payload; destruct Hr as [-> | ->]; auto. }
  unfold compress_. rewrite (bool_decide_eq_false_2 (_ = r)) by (by destruct Hr as [-> | ->]).
  unfold mkCall, getCompressor, getNumChunks; cbn -[size_of Z.leb Z.geb].
  unfold comp_of. destruct (isGood s); cbn -[size_of Z.leb Z.geb]; [|done].
  destruct (size_of src <=? threshold); cbn -[size_of Z.geb]; [done|].
  destruct (Z.geb_spec (chunksSize (compress (compressor s) src)) (size_of src)); cbn -[size_of]; [done|].
  destruct Hr as [-> | ->]; cbn -[size_of]; (split; [done|]); intros _; split_and!; eauto.
Qed.

Lemma flush_calls s last :
  sound s ->
  let '(s', out) := flush threshold s last in
  sound s' /\ comp_of s' = comp_of s /\ Forall (call_ok (comp_of s)) out.
Proof.
  intros [Hn Hb]. unfold flush. destruct (connections s) as [|c0 cs].
  - unfold resetBuffer. cbn. destruct (save s); cbn; (split_and!; [split; cbn; [done|]|done|done]);
      unfold size_of; simpl; lia.
  - set (s1 := compress_ threshold _ _ _).
    pose proof (compress_frame (set_state STATE_UNCOMPRESSED s) (window s) STATE_PARTIAL)
      as (_&_&F3&_&_&_&F7&F8). fold s1 in F3, F7, F8.
    split_and!.
    + unfold resetBuffer. cbn. rewrite F3. cbn. destruct (save s); (split; cbn; [by rewrite F7|]);
        unfold size_of; simpl; lia.
    + unfold resetBuffer. cbn. unfold comp_of. destruct (save s1); cbn; by rewrite F7, F8.
    + constructor; [|done]. apply compress_call_ok; auto.
Qed.

Lemma writes_calls s ws :
  sound s ->
  let '(s', out) := writes threshold objectBufferSize s ws in
  sound s' /\ comp_of s' = comp_of s /\ Forall (call_ok (comp_of s)) out.
Proof.
  revert s. induction ws as [|w ws IH]; intros s Hs; cbn [writes]; [done|].
  assert (let '(s', out) := write_ threshold objectBufferSize s w in
    sound s' /\ comp_of s' = comp_of s /\ Forall (call_ok (comp_of s)) out) as Hw.
  { unfold write_. pose proof (flush_calls s false Hs) as Hf.
    destruct (_ >? _); [destruct (flush threshold s false) as [s1 o1]; destruct Hf as ([? ?] & Hg & ?)|
      destruct Hs]; cbn -[size_of]; (split_and!; [split; cbn; [done|]|done|done]);
      rewrite size_of_app; pose proof (size_of_nonneg w); lia. }
  destruct (write_ _ _ _ _) as [s1 o1]. destruct Hw as (Hs1 & Hg1 & Ho1).
  specialize (IH s1 Hs1). destruct (writes _ _ s1 ws) as [s2 o2]. destruct IH as (Hs2 & Hg2 & Ho2).
  rewrite Hg1 in *. split_and!; auto. by apply Forall_app.
Qed.

Lemma disable_calls s :
  sound s -> state s = STATE_UNCOMPRESSED -> Forall (call_ok (comp_of s)) (disable threshold s).2.
Proof.
  intros [Hn Hb] Hst. unfold disable. destruct (enabled s); cbn [negb]; [|done].
  cbn -[size_of Z.gtb]. destruct (_ >? 0), (connections s); try done. cbn -[size_of].
  rewrite Hst. change (bool_decide (STATE_UNCOMPRESSED = STATE_PARTIAL)) with false.
  rewrite andb_false_r. constructor; [|done].
  change (window (set_dataSent _ _)) with (window s).
  replace (size_of (buffer s) - bufferStart s) with (size_of (window s)).
  - set (s1 := set_dataSent true (set_dataSize (size_of (buffer s)) s)).
    change (comp_of s) with (comp_of s1). apply compress_call_ok; [|done].
    destruct (_ =? 0); auto.
  - unfold window, size_of in *. rewrite length_drop. lia.
Qed.

(** A saving stream without receivers only accumulates. *)
Record keeping (s : DataOStream) (data : bytes) : Prop := {
  kp_state : state s = STATE_UNCOMPRESSED;
  kp_enabled : enabled s = true;
  kp_conns : connections s = [];
  kp_save : save s = true;
  kp_name : compressor s <> EQ_COMPRESSOR_NONE;
  kp_buffer : buffer s = data;
}.

Lemma writes_keeping s data ws :
  keeping s data ->
  exists s', writes threshold objectBufferSize s ws = (s', []) /\ keeping s' (data ++ concat ws).
Proof.
  revert s data. induction ws as [|w ws IH]; intros s data Hk; cbn [writes].
  { exists s. by rewrite app_nil_r. }
  assert (exists s1, write_ threshold objectBufferSize s w = (s1, []) /\ keeping s1 (data ++ w))
    as (s1 & -> & Hk1).
  { destruct Hk. unfold write_, flush. rewrite kp_conns0.
    destruct (_ >? objectBufferSize); (eexists; split; [done|]);
      unfold resetBuffer; cbn; rewrite ?kp_save0; constructor; cbn; congruence. }
  destruct (IH s1 (data ++ w) Hk1) as (s2 & -> & Hk2).
  exists s2. simpl. by rewrite app_assoc.
Qed.

Lemma disable_keeping s data :
  keeping s data ->
  exists s', disable threshold s = (s', []) /\ saved s' data /\
    hasSentData s' = negb (bool_decide (data = [])).
Proof.
  intros []. unfold disable. rewrite kp_enabled0. cbn -[size_of]. rewrite kp_conns0.
  assert ((size_of (buffer s) >? 0) = negb (bool_decide (data = []))) as Hb
    by (rewrite kp_buffer0; by destruct data).
  destruct (size_of (buffer s) >? 0); (eexists; split; [done|]);
    unfold saved, hasSentData; cbn -[size_of]; rewrite kp_save0; cbn -[size_of];
    rewrite kp_state0, bool_decide_eq_false_2, kp_buffer0; done.
Qed.

(** Without data nothing is sent. *)
Lemma disable_nothing s :
  writing s [] [] -> exists s', disable threshold s = (s', []) /\ saved s' [] /\ hasSentData s' = false.
Proof.
  intros []. unfold disable. rewrite wr_enabled0. cbn -[size_of].
  assert (buffer s = []) as -> by (by destruct (save s)).
  cbn -[size_of]. eexists. split; [done|]. unfold saved, hasSentData.
  destruct (save s) eqn:Hs; cbn -[size_of]; rewrite ?Hs; cbn -[size_of];
    rewrite wr_state0, bool_decide_eq_false_2; done.
Qed.

End lemmas.

(** ** Properties *)

(** A stream set up for the given receivers and enabled. *)
Definition opened `{!Pression} (name : Z) (good sv : bool) (conns : list Z) : DataOStream :=
  enable_ (setupConnections (set_save sv (DataOStream_init name good)) conns).

(** The same up to the compressor's leftovers of an earlier use, as recycled
    streams have them. *)
Definition fresh `{!Pression} (s : DataOStream) (name : Z) (good sv : bool) (conns : list Z) : Prop :=
  set_chunks [] (set_compressedDataSize 0 s) = opened name good sv conns.

(** The life of a stream between [_enable] and [disable]. *)
Definition session `{!Pression} (threshold obs : Z) (s : DataOStream) (ws : list bytes) :
    DataOStream * list SendCall :=
  let '(s, out) := writes threshold obs s ws in
  let '(s, out') := disable threshold s in
  (s, out ++ out').

(** The stream after [k] calls of [_resend]. *)
Fixpoint resends `{!Pression} (threshold : Z) (k : nat) (s : DataOStream) : DataOStream :=
  match k with
  | O => s
  | S k => (resend threshold (resends threshold k s)).1
  end.

Section properties.

Context `{!Pression, !PressionOk}.

(** *** Fresh streams *)

Lemma fresh_opened name good sv conns : fresh (opened name good sv conns) name good sv conns.
Proof. done. Qed.

Lemma fresh_enable s sv conns :
  fresh (enable_ (setupConnections (set_save sv s) conns)) (compressor s) (isGood s) sv conns.
Proof. by destruct s. Qed.

Lemma fresh_fields s name good sv conns :
  fresh s name good sv conns ->
  state s = STATE_UNCOMPRESSED /\ buffer s = [] /\ bufferStart s = 0 /\ dataSize s = 0 /\
  connections s = conns /\ comp_of s = (name, good) /\ enabled s = true /\ dataSent s = false /\
  save s = sv.
Proof. intros Hf. destruct s. unfold fresh, opened in Hf. cbn in Hf. injection Hf as -> -> -> -> -> -> -> -> -> ->. done. Qed.

Lemma fresh_writing s name good sv conns :
  fresh s name good sv conns -> name <> EQ_COMPRESSOR_NONE -> conns <> [] ->
  writing s [] [] /\ sound s.
Proof.
  intros (F1 & F2 & F3 & F4 & F5 & F6 & F7 & F8 & F9)%fresh_fields Hn Hc.
  injection F6 as F6 F10.
  split; [constructor|split]; rewrite ?F1, ?F2, ?F3, ?F5, ?F6, ?F9; try done; by destruct sv.
Qed.

Lemma fresh_keeping s name good :
  fresh s name good true [] -> name <> EQ_COMPRESSOR_NONE -> keeping s [].
Proof.
  intros (F1 & F2 & F3 & F4 & F5 & F6 & F7 & F8 & F9)%fresh_fields Hn. injection F6 as F6 F10.
  constructor; congruence.
Qed.

(** Everything about a session: how the writes are grouped into packets, the
    final flag, and what each packet announces. *)
Lemma session_spec threshold obs s0 name good sv conns ws :
  fresh s0 name good sv conns ->
  0 <= obs -> name <> EQ_COMPRESSOR_NONE -> conns <> [] ->
  ws <> [] -> Forall (.≠ []) ws ->
  let '(s, out) := session threshold obs s0 ws in
  exists groups, concat groups = ws /\ Forall (.≠ []) groups /\
    payload <$> out = (@concat Z) <$> groups /\
    sc_last <$> out = replicate (length groups - 1) false ++ [true] /\
    hasSentData s = true /\ Forall (call_ok (name, good)) out.
Proof.
  intros Hfr Ho Hn Hc Hne Hws. unfold session.
  destruct (fresh_writing _ _ _ _ _ Hfr Hn Hc) as [Hwr Hso].
  pose proof (fresh_fields _ _ _ _ _ Hfr) as (_ & _ & _ & _ & _ & Hcomp & _).
  destruct (writes_spec threshold obs _ _ _ ws Ho Hwr)
    as (s1 & o1 & pend & gs & Hws1 & Hpart & Hpay & Hgs & Hlast & Hp & Hwr1 & _).
  pose proof (writes_calls threshold obs s0 ws Hso) as Hok.
  rewrite Hcomp, Hws1 in *. destruct Hok as (Hok2 & Hok3 & Hok1).
  simpl in Hpart. subst ws.
  apply Forall_app in Hws as [_ Hpend].
  destruct (disable_spec threshold s1 pend _ Hwr1) as (s2 & c & Hdis & Hcp & Hcl & _ & Hsd & _).
  { apply concat_nonempty; auto. }
  rewrite Hdis. exists (gs ++ [pend]). rewrite concat_app, !fmap_app, Hpay. simpl. rewrite Hcp, Hcl, app_nil_r.
  split_and!; auto.
  - apply Forall_app. split; [done|]. constructor; auto.
  - f_equal. rewrite length_app. simpl.
    replace (length gs + 1 - 1)%nat with (length gs) by lia.
    rewrite <-(length_fmap (@concat Z) gs), <-Hpay, length_fmap.
    clear -Hlast. induction Hlast as [|c o Hc _ IH]; [done|]. by rewrite fmap_cons, Hc, IH.
  - apply Forall_app. split; [exact Hok1|].
    pose proof (disable_calls threshold s1 Hok2 (wr_state _ _ _ Hwr1)) as Hd.
    rewrite Hok3, Hdis in Hd. exact Hd.
Qed.

Lemma resend_comp threshold s : comp_of (resend threshold s).1 = comp_of s.
Proof.
  unfold resend, comp_of. cbn [fst].
  pose proof (compress_frame threshold s (take (Z.to_nat (dataSize s)) (buffer s)) STATE_COMPLETE)
    as (_&_&_&_&_&_&F7&F8). by rewrite F7, F8.
Qed.

Lemma disable_comp threshold s : comp_of (disable threshold s).1 = comp_of s.
Proof.
  unfold disable, comp_of. destruct (enabled s); [|done]. cbn -[size_of Z.gtb].
  destruct (_ >? 0), (connections s); cbn -[size_of]; [by destruct (save s)| |by destruct (save s)..].
  set (s1 := set_dataSent true _).
  set (r := if bufferStart s =? 0 then STATE_COMPLETE else STATE_PARTIAL).
  pose proof (compress_frame threshold (set_state STATE_UNCOMPRESSED s1) (window s1) r)
    as (_&_&_&_&_&_&F7&F8).
  destruct ((_ =? 0) && _); case_match; cbn -[size_of]; by rewrite ?F7, ?F8.
Qed.

Lemma session_save threshold obs s ws : save (session threshold obs s ws).1 = save s.
Proof.
  assert (forall s last, save (flush threshold s last).1 = save s) as Hf.
  { clear. intros s last. unfold flush, resetBuffer.
    pose proof (compress_frame threshold (set_state STATE_UNCOMPRESSED s) (window s) STATE_PARTIAL)
      as (_&_&F3&_). destruct (connections s); cbn in *; [by destruct (save s) eqn:Hs|].
    rewrite F3. destruct (save s) eqn:Hs; cbn; congruence. }
  assert (forall ws s, save (writes threshold obs s ws).1 = save s) as Hw.
  { clear ws s. induction ws as [|w ws IH]; intros s; cbn [writes]; [done|].
    assert (save (write_ threshold obs s w).1 = save s) as E.
    { unfold write_. specialize (Hf s false). destruct (_ >? _); [|done]. by destruct (flush _ _ _). }
    destruct (write_ _ _ _ _) as [s1 o1]. specialize (IH s1).
    destruct (writes _ _ s1 ws) as [s2 o2]. cbn [fst] in *. congruence. }
  unfold session. specialize (Hw ws s). destruct (writes _ _ s ws) as [s1 o1]. cbn [fst] in Hw.
  assert (save (disable threshold s1).1 = save s1) as Hd.
  { clear. unfold disable. destruct (enabled s1); [|done]. cbn -[size_of Z.gtb].
    destruct (_ >? 0), (connections s1); cbn -[size_of]; try by destruct (save s1) eqn:Hs.
    set (s2 := set_dataSent true _).
    set (r := if bufferStart s1 =? 0 then STATE_COMPLETE else STATE_PARTIAL).
    pose proof (compress_frame threshold (set_state STATE_UNCOMPRESSED s2) (window s2) r)
      as (_&_&F3&_).
    destruct ((_ =? 0) && _); cbn -[size_of] in *; [by destruct (save s1) eqn:Hs|].
    rewrite F3. destruct (save s1) eqn:Hs; cbn -[size_of]; congruence. }
  destruct (disable threshold s1) as [s2 o2]. cbn [fst] in *. congruence.
Qed.

(** A stream reports that data was sent exactly if something was written. *)
Lemma session_hasSent threshold obs s0 name good sv conns ws :
  fresh s0 name good sv conns -> 0 <= obs -> name <> EQ_COMPRESSOR_NONE -> Forall (.≠ []) ws ->
  (conns = [] -> sv = true) ->
  hasSentData (session threshold obs s0 ws).1 = negb (bool_decide (ws = [])).
Proof.
  intros Hfr Ho Hn Hws Hcs. unfold session. destruct (decide (conns = [])) as [->|Hc].
  - rewrite Hcs in Hfr by done. pose proof (fresh_keeping _ _ _ Hfr Hn) as Hk0.
    destruct (writes_keeping threshold obs s0 [] ws Hk0) as (s1 & -> & Hk).
    destruct (disable_keeping threshold s1 _ Hk) as (s2 & -> & _ & Hh).
    cbn [fst app]. rewrite Hh. destruct ws as [|w ws]; [done|]. apply Forall_cons in Hws as [Hw _].
    rewrite !bool_decide_eq_false_2; [done|done|]. simpl. by destruct w.
  - destruct (fresh_writing _ _ _ _ _ Hfr Hn Hc) as [Hwr _]. destruct (decide (ws = [])) as [->|Hne].
    + cbn [writes]. by destruct (disable_nothing threshold s0 Hwr) as (s2 & -> & _ & Hh).
    + pose proof (session_spec threshold obs s0 name good sv conns ws Hfr Ho Hn Hc Hne Hws) as Hs.
      unfold session in Hs. destruct (writes _ _ _ _) as [s1 o1], (disable _ _) as [s2 o2].
      destruct Hs as (gs & _ & _ & _ & _ & Hh & _). cbn [fst]. by rewrite Hh, bool_decide_eq_false_2.
Qed.

Lemma session_comp threshold obs s0 name good sv conns ws :
  fresh s0 name good sv conns -> name <> EQ_COMPRESSOR_NONE ->
  comp_of (session threshold obs s0 ws).1 = (name, good).
Proof.
  intros (F1 & F2 & F3 & F4 & F5 & F6 & F7 & F8 & F9)%fresh_fields Hn.
  unfold session. pose proof (writes_calls threshold obs s0 ws) as Hw.
  destruct (writes _ _ s0 ws) as [s1 o1]. pose proof (disable_comp threshold s1) as Hd.
  destruct (disable threshold s1) as [s2 o2]. cbn [fst] in *. rewrite Hd.
  destruct Hw as (_ & -> & _); [|done]. injection F6 as F6 F10.
  split; [congruence|]. rewrite F2, F3. done.
Qed.

(** A saving stream keeps everything, with or without receivers. *)
Lemma session_saved threshold obs s0 name good conns ws :
  fresh s0 name good true conns -> 0 <= obs -> name <> EQ_COMPRESSOR_NONE -> Forall (.≠ []) ws ->
  saved (session threshold obs s0 ws).1 (concat ws).
Proof.
  intros Hfr Ho Hn Hws. unfold session. destruct (decide (conns = [])) as [->|Hc].
  - destruct (writes_keeping threshold obs s0 [] ws (fresh_keeping _ _ _ Hfr Hn)) as (s1 & -> & Hk).
    by destruct (disable_keeping threshold s1 _ Hk) as (s2 & -> & ? & _).
  - destruct (fresh_writing _ _ _ _ _ Hfr Hn Hc) as [Hwr _]. destruct (decide (ws = [])) as [->|Hne].
    { cbn [writes]. by destruct (disable_nothing threshold s0 Hwr) as (s2 & -> & ? & _). }
    destruct (writes_spec threshold obs s0 [] [] ws Ho Hwr)
      as (s1 & o1 & pend & gs & -> & Hpart & _ & _ & _ & Hp & Hwr1 & Hsv1).
    simpl in Hpart. subst ws. apply Forall_app in Hws as [_ Hpend].
    destruct (disable_spec threshold s1 pend _ Hwr1) as (s2 & c & -> & _ & _ & _ & _ & _ & _ & Hs).
    { apply concat_nonempty; auto. }
    rewrite concat_app. apply Hs. rewrite Hsv1. apply fresh_fields in Hfr. naive_solver.
Qed.

(** Without receivers, or without data, nothing goes out. *)
Lemma session_quiet threshold obs s0 name good sv conns ws :
  fresh s0 name good sv conns -> name <> EQ_COMPRESSOR_NONE ->
  conns = [] /\ sv = true \/ ws = [] -> (session threshold obs s0 ws).2 = [].
Proof.
  intros Hfr Hn [[-> ->]| ->]; unfold session.
  - destruct (writes_keeping threshold obs s0 [] ws (fresh_keeping _ _ _ Hfr Hn)) as (s1 & -> & Hk).
    by destruct (disable_keeping threshold s1 _ Hk) as (s2 & -> & _).
  - cbn [writes]. apply fresh_fields in Hfr as (F1 & F2 & F3 & F4 & F5 & F6 & F7 & F8 & F9).
    unfold disable. rewrite F7. cbn -[size_of]. rewrite F2. done.
Qed.

(** A stream delivers what was written.  Between [_enable] and [disable] the
    packets handed to [sendData], decompressed, are the writes in order, grouped
    without splitting any write ("a write operation is never segmented");
    exactly the final packet is flagged last, and [hasSentData] is true.  The
    writes are non-empty, as every typed write of the sources is. *)
Theorem ostream_delivers threshold obs name good sv conns ws :
  0 <= obs -> name <> EQ_COMPRESSOR_NONE -> conns <> [] ->
  ws <> [] -> Forall (.≠ []) ws ->
  let '(s, out) := session threshold obs (opened name good sv conns) ws in
  exists groups, concat groups = ws /\ Forall (.≠ []) groups /\
    payload <$> out = (@concat Z) <$> groups /\
    sc_last <$> out = replicate (length groups - 1) false ++ [true] /\
    hasSentData s = true.
Proof.
  intros Ho Hn Hc Hne Hws.
  pose proof (session_spec threshold obs _ name good sv conns ws (fresh_opened _ _ _ _) Ho Hn Hc Hne Hws) as Hs.
  destruct (session _ _ _ _) as [s out]. destruct Hs as (gs & ? & ? & ? & ? & ? & _). by exists gs.
Qed.

(** A saved stream can be resent.  With [enableSave], whether or not there
    were receivers at the time, every later [_resend] hands over one final packet
    that decompresses to everything written, however often it is repeated. *)
Theorem ostream_resend threshold obs name good conns ws k :
  0 <= obs -> name <> EQ_COMPRESSOR_NONE -> ws <> [] -> Forall (.≠ []) ws ->
  let s := (session threshold obs (opened name good true conns) ws).1 in
  exists c, (resend threshold (resends threshold k s)).2 = [c] /\
    payload c = concat ws /\ sc_last c = true /\ sc_size c = size_of (concat ws).
Proof.
  intros Ho Hn Hne Hws s.
  pose proof (session_saved threshold obs _ name good conns ws (fresh_opened _ _ _ _) Ho Hn Hws) as Hsv.
  fold s in Hsv.
  assert (saved (resends threshold k s) (concat ws)) as Hk.
  { induction k as [|k IH]; cbn [resends]; [done|].
    by destruct (resend_spec threshold _ _ IH) as (s' & c & -> & ? & _). }
  by destruct (resend_spec threshold _ _ Hk) as (s' & c & -> & _ & ?); exists c.
Qed.

(** The packet sizes announced for a compressed buffer are its size on the wire. *)
Lemma body_size be s data size last :
  compressedDataSize s = chunksSize (chunks s) -> getCompressedDataSize s <> 0 ->
  getCompressedDataSize s = size_of (sendBody be (mkCall s data size last)).
Proof.
  intros Hc Hne. unfold getCompressedDataSize, sendBody, mkCall in *; cbn -[size_of Z.eqb] in *.
  destruct (getCompressor s =? EQ_COMPRESSOR_NONE) eqn:Hg; [done|].
  assert (getNumChunks s = Z.of_nat (length (chunks s))) as Hn.
  { unfold getNumChunks, getCompressor in *. destruct (state s); try done;
      by rewrite Z.eqb_refl in Hg. }
  rewrite Hc, Hn. clear. unfold chunksSize, size_of.
  induction (chunks s) as [|c l IH]; [done|]. rewrite fmap_cons. cbn [concat length].
  rewrite !length_app, length_enc. lia.
Qed.

End properties.

(** *** Witnesses and the edge case of empty writes *)

Lemma ostream_delivers_witness :
  exists groups, concat groups = [[1; 1; 1]; [1; 1]; [2; 3]] /\ Forall (.≠ []) groups /\
    @payload const_Pression <$>
      (@session const_Pression 2 4 (@opened const_Pression 7 true false [0]) [[1; 1; 1]; [1; 1]; [2; 3]]).2
    = (@concat Z) <$> groups.
Proof.
  pose proof (@ostream_delivers const_Pression const_PressionOk 2 4 7 true false [0]
    [[1; 1; 1]; [1; 1]; [2; 3]] ltac:(lia) ltac:(done) ltac:(done) ltac:(done)
    ltac:(by repeat constructor)) as H.
  destruct (session _ _ _ _) as [s out]. destruct H as (gs & ? & ? & ? & _). by exists gs.
Defined.

Lemma ostream_resend_witness :
  exists c, (@resend const_Pression 2 (@resends const_Pression 2 3
      (@session const_Pression 2 4 (@opened const_Pression 7 true true []) [[1; 1; 1]; [1; 1]]).1)).2
    = [c] /\ @payload const_Pression c = [1; 1; 1; 1; 1].
Proof.
  destruct (@ostream_resend const_Pression const_PressionOk 2 4 7 true [] [[1; 1; 1]; [1; 1]] 3
    ltac:(lia) ltac:(done) ltac:(done) ltac:(by repeat constructor)) as (c & ? & ? & _).
  by exists c.
Defined.

(** A zero-length write can drop the end of a stream.  On a stream that does
    not save, when more than [getObjectBufferSize()] bytes are buffered, an empty
    [_write] flushes them as a non-final packet and leaves the buffer empty, so
    that [disable] sends no final packet and [hasSentData] is false although all
    the data went out. *)
Theorem empty_write_drops_last `{!Pression} threshold obs s pend :
  writing s [pend] [] -> save s = false -> obs < size_of pend ->
  let '(s1, out1) := write_ threshold obs s [] in
  let '(s2, out2) := disable threshold s1 in
  length out1 = 1%nat /\ Forall (fun c => sc_last c = false) out1 /\
  out2 = [] /\ hasSentData s2 = false.
Proof.
  intros Hwr Hsv Hlt. unfold write_. rewrite (writing_size _ _ _ Hwr). cbn [concat].
  rewrite app_nil_r, (proj2 (Z.gtb_lt _ _)) by lia.
  destruct Hwr. unfold flush. destruct (connections s) as [|c cs] eqn:Hc; [done|].
  pose proof (compress_frame threshold (set_state STATE_UNCOMPRESSED s) (window s) STATE_PARTIAL)
    as (F1&F2&F3&_). simpl in F1, F2, F3.
  unfold resetBuffer. cbn. rewrite F3, Hsv. unfold disable. cbn. rewrite F2, wr_enabled0. cbn.
  split_and!; try done; [by constructor|]. unfold hasSentData. cbn. by rewrite F3, Hsv.
Qed.

Lemma empty_write_drops_last_witness :
  let s := (@writes const_Pression 2 4 (@opened const_Pression 7 true false [0]) [[1; 2; 3; 4; 5]]).1 in
  (@disable const_Pression 2 (@write_ const_Pression 2 4 s []).1).2 = [].
Proof.
  intros s. pose proof (@empty_write_drops_last const_Pression 2 4 s [1; 2; 3; 4; 5]
    ltac:(by constructor) ltac:(reflexivity) ltac:(by vm_compute)) as H.
  destruct (write_ _ _ _ _) as [s1 o1]. simpl. destruct (disable _ s1) as [s2 o2]. apply H.
Defined.
