(* ===== verification/DataIStream.v ===== *)
(** * Input data streams (co/dataIStream.h, dataIStream.ipp, dataIStream.cpp)

    [DataIStream] reads from a sequence of buffers its subclass supplies through
    the virtual [getNextBuffer], decompressing each buffer as it is entered.  The
    subclass is an interface: a type of sources with [getNextBuffer] and a bound
    [buffersLeft] on the buffers still to come, the fuel of the loops below. *)

From S2P Require Import Prelude Bytes Lunchbox DataOStream.

(** What [getNextBuffer] returns through its out-parameters: the compressor, the
    number of chunks, the bytes at [*chunkData] and the (uncompressed) size.
    [nb_swap] is a [setSwapping] call made on the way. *)
Record NextBuffer := mkNextBuffer {
  nb_compressor : Z;
  nb_nChunks : Z;
  nb_data : bytes;
  nb_size : Z;
  nb_swap : option bool
}.

Class BufferSource (S : Type) := {
  getNextBuffer : S -> option NextBuffer * S;
  buffersLeft : S -> nat;
}.

(** A source never grows: every buffer it hands out is one less to come. *)
Class BufferSourceOk (S : Type) `{BufferSource S} : Prop := {
  getNextBuffer_decreases s nb s' :
    getNextBuffer s = (Some nb, s') -> (buffersLeft s' < buffersLeft s)%nat;
}.

Record DataIStream (S : Type) := mkDataIStream {
  input : option bytes;
  inputSize : Z;
  position : Z;
  swap : bool;
  source : S
}.
Arguments mkDataIStream {S} _ _ _ _ _.
Arguments input {S} _.
Arguments inputSize {S} _.
Arguments position {S} _.
Arguments swap {S} _.
Arguments source {S} _.

Section dataistream.

Context `{!Pression} {S : Type} `{!BufferSource S}.

(** The byte order of the receiving host. *)
Context (be : bool).

Definition DataIStream_init (swap_ : bool) (src : S) : DataIStream S :=
  mkDataIStream None 0 0 swap_ src.

Definition setSwapping (onOff : bool) (ist : DataIStream S) : DataIStream S :=
  mkDataIStream (input ist) (inputSize ist) (position ist) onOff (source ist).

Definition isSwapping (ist : DataIStream S) : bool := swap ist.

Definition reset_ (ist : DataIStream S) : DataIStream S :=
  mkDataIStream None 0 0 false (source ist).

(** The chunk table at the start of a compressed buffer. *)
Fixpoint readChunks (n : nat) (src : bytes) : list bytes :=
  match n with
  | O => []
  | Datatypes.S n =>
      let size := dec be (take 8 src) in
      let src := drop 8 src in
      take (Z.to_nat size) src :: readChunks n (drop (Z.to_nat size) src)
  end.

Definition decompress_ (data : bytes) (name nChunks dataSize : Z) : bytes :=
  if name =? EQ_COMPRESSOR_NONE then data
  else decompress name (readChunks (Z.to_nat nChunks) data) dataSize.

(** The loop of [_checkBuffer]; the fuel is the number of buffers left. *)
Fixpoint checkBuffer_loop (fuel : nat) (ist : DataIStream S) : bool * DataIStream S :=
  if position ist <? inputSize ist then (true, ist)
  else
    match fuel with
    | O => (false, ist)
    | Datatypes.S fuel =>
        match getNextBuffer (source ist) with
        | (None, src) => (false, mkDataIStream None 0 0 (swap ist) src)
        | (Some nb, src) =>
            checkBuffer_loop fuel
              (mkDataIStream
                 (Some (decompress_ (nb_data nb) (nb_compressor nb) (nb_nChunks nb) (nb_size nb)))
                 (nb_size nb) 0 (default (swap ist) (nb_swap nb)) src)
        end
    end.

Definition checkBuffer (ist : DataIStream S) : bool * DataIStream S :=
  checkBuffer_loop (Datatypes.S (buffersLeft (source ist))) ist.

Definition hasData (ist : DataIStream S) : bool * DataIStream S := checkBuffer ist.

Definition wasUsed (ist : DataIStream S) : bool :=
  match input ist with Some _ => true | None => false end.

Definition advance (n : Z) (ist : DataIStream S) : DataIStream S :=
  mkDataIStream (input ist) (inputSize ist) (position ist + n) (swap ist) (source ist).

(** The [n] bytes at the read position. *)
Definition at_position (n : Z) (ist : DataIStream S) : bytes :=
  take (Z.to_nat n) (drop (Z.to_nat (position ist)) (default [] (input ist))).

(** [_read]: [None] where the code logs an error and leaves the target as is. *)
Definition read_ (size : Z) (ist : DataIStream S) : option bytes * DataIStream S :=
  match checkBuffer ist with
  | (false, ist) => (None, ist)
  | (true, ist) =>
      if size >? inputSize ist - position ist then (None, ist)
      else (Some (at_position size ist), advance size ist)
  end.

Definition getRemainingBuffer (size : Z) (ist : DataIStream S) : option bytes * DataIStream S :=
  match checkBuffer ist with
  | (false, ist) => (None, ist)
  | (true, ist) =>
      if u64 (position ist + size) >? inputSize ist then (None, ist)
      else (Some (at_position size ist), advance size ist)
  end.

Definition getRemainingBufferSize (ist : DataIStream S) : Z * DataIStream S :=
  match checkBuffer ist with
  | (false, ist) => (0, ist)
  | (true, ist) => (inputSize ist - position ist, ist)
  end.

End dataistream.

(** ** Sources that supply a known list of payloads *)

Section supplies.

Context `{!Pression, !PressionOk} {S : Type} `{!BufferSource S, !BufferSourceOk S}.
Context (be sw : bool).

(** [supplies b src ps]: a stream with swapping [b] that takes its buffers from
    the source enters exactly the buffers [ps], swapping by [sw] in each. *)
Inductive supplies : bool -> S -> list bytes -> Prop :=
  | supplies_nil b src src' :
      getNextBuffer src = (None, src') -> getNextBuffer src' = (None, src') -> supplies b src []
  | supplies_cons b src src' nb p ps :
      getNextBuffer src = (Some nb, src') ->
      decompress_ be (nb_data nb) (nb_compressor nb) (nb_nChunks nb) (nb_size nb) = p ->
      nb_size nb = size_of p -> is_u64 (nb_size nb) -> default b (nb_swap nb) = sw ->
      supplies sw src' ps -> supplies b src (p :: ps).

(** [holds ist ws]: what is left to read on [ist] are the writes [ws], no write
    spread over two buffers. *)
Definition holds (ist : DataIStream S) (ws : list bytes) : Prop :=
  exists cur groups,
    ws = cur ++ concat groups /\ (cur <> [] -> swap ist = sw) /\
    0 <= position ist <= inputSize ist /\
    inputSize ist = size_of (default [] (input ist)) /\ is_u64 (inputSize ist) /\
    drop (Z.to_nat (position ist)) (default [] (input ist)) = concat cur /\
    supplies (swap ist) (source ist) ((@concat Z) <$> groups).

Lemma holds_init b src groups :
  supplies b src ((@concat Z) <$> groups) -> holds (DataIStream_init b src) (concat groups).
Proof. intros Hs. exists [], groups. by split_and!. Qed.

Lemma holds_exhausted (ist : DataIStream S) cur :
  0 <= position ist <= inputSize ist -> inputSize ist = size_of (default [] (input ist)) ->
  drop (Z.to_nat (position ist)) (default [] (input ist)) = concat cur ->
  size_of (concat cur) = inputSize ist - position ist.
Proof.
  intros H1 H2 <-. unfold size_of in *. rewrite length_drop. lia.
Qed.

(** The loop finds the buffer holding the next non-empty write. *)
Lemma checkBuffer_loop_spec fuel ist w ws :
  (buffersLeft (source ist) < fuel)%nat ->
  holds ist (w :: ws) -> w <> [] ->
  exists ist' cur groups, checkBuffer_loop be fuel ist = (true, ist') /\
    w :: ws = (w :: cur) ++ concat groups /\ swap ist' = sw /\
    0 <= position ist' <= inputSize ist' /\
    inputSize ist' = size_of (default [] (input ist')) /\ is_u64 (inputSize ist') /\
    drop (Z.to_nat (position ist')) (default [] (input ist')) = w ++ concat cur /\
    supplies sw (source ist') ((@concat Z) <$> groups).
Proof.
  revert ist. induction fuel as [|fuel IH]; intros ist Hf (cur & gs & Heq & Hsw & Hp & Hi & H64 & Hd & Hs) Hw;
    [lia|].
  pose proof (holds_exhausted ist cur Hp Hi Hd) as Hsz.
  cbn [checkBuffer_loop]. destruct (Z.ltb_spec (position ist) (inputSize ist)) as [Hlt|Hge].
  - destruct cur as [|w' cur]; [unfold size_of in Hsz; simpl in Hsz; lia|].
    simpl in Heq. injection Heq as -> ->.
    rewrite (Hsw ltac:(done)) in Hs. exists ist, cur, gs. split_and!; auto; lia.
  - assert (concat cur = []) as Hcur.
    { destruct (concat cur); [done|]. unfold size_of in Hsz; simpl in Hsz; lia. }
    assert (cur = [] \/ exists cur', cur = [] :: cur') as [->|(cur' & ->)].
    { destruct cur as [|c cur]; [by left|right]. simpl in Hcur.
      apply app_nil in Hcur as [-> _]. eauto. }
    2: { simpl in Heq. congruence. }
    destruct gs as [|g gs]; simpl in Heq, Hs; [done|].
    inv Hs. match goal with H : getNextBuffer _ = _ |- _ => rewrite H;
      apply getNextBuffer_decreases in H end.
    apply IH; [cbn [source]; lia | | done].
    exists g, gs. cbn [position inputSize input swap source default].
    split_and!; auto; try lia.
    { match goal with H : nb_size _ = _ |- _ => rewrite H end. apply size_of_nonneg. }
    all: try match goal with H : default _ _ = sw |- _ => by rewrite H end.
    all: simplify_eq/=; congruence.
Qed.

Lemma read_spec ist w ws :
  holds ist (w :: ws) -> w <> [] ->
  exists ist', read_ be (size_of w) ist = (Some w, ist') /\ holds ist' ws.
Proof.
  intros Hh Hw. unfold read_, checkBuffer.
  destruct (checkBuffer_loop_spec (Datatypes.S (buffersLeft (source ist))) ist w ws)
    as (ist' & cur & gs & -> & Heq & Hsw & Hp & Hi & H64 & Hd & Hs); auto.
  pose proof (f_equal size_of Hd) as Hsz. rewrite size_of_app in Hsz.
  unfold size_of at 1 in Hsz. rewrite length_drop in Hsz. unfold size_of in Hi.
  pose proof (size_of_nonneg (concat cur)).
  destruct (Z.gtb_spec (size_of w) (inputSize ist' - position ist')) as [?|_]; [lia|].
  eexists. split.
  - unfold at_position. rewrite Hd. do 2 f_equal. unfold size_of. rewrite Nat2Z.id.
    apply take_app_length.
  - exists cur, gs. injection Heq as Heq. cbn [advance position inputSize input swap source].
    rewrite Hsw.
    pose proof (size_of_nonneg w). split_and!; auto; try lia.
    rewrite Z2Nat.inj_add by lia. rewrite <-drop_drop, Hd.
    unfold size_of. rewrite Nat2Z.id. apply drop_app_length.
Qed.

(** A write may be read in parts. *)
Lemma holds_parts ist l ws : holds ist (concat l :: ws) -> holds ist (l ++ ws).
Proof.
  intros (cur & gs & Heq & Hsw & Hp & Hi & H64 & Hd & Hs).
  destruct cur as [|c cur]; simpl in Heq.
  - assert (exists gs', concat gs' = l ++ ws /\ (@concat Z) <$> gs' = (@concat Z) <$> gs)
      as (gs' & Hgs' & Hc).
    { clear -Heq. induction gs as [|[|g gr] gs IH]; simpl in Heq; [done| |].
      - destruct (IH Heq) as (gs' & ? & Hc). exists ([] :: gs'). split; [done|].
        by rewrite !fmap_cons, Hc.
      - injection Heq as <- ->. exists ((l ++ gr) :: gs).
        split; [simpl; by rewrite app_assoc|]. by rewrite !fmap_cons, concat_app. }
    exists [], gs'. rewrite Hc. simpl. split_and!; auto; lia.
  - injection Heq as <- ->. exists (l ++ cur), gs. rewrite app_assoc, concat_app.
    split_and!; auto; try lia.
Qed.

(** Looking for data keeps what there is to read. *)
Lemma checkBuffer_loop_holds fuel ist ws :
  (buffersLeft (source ist) < fuel)%nat ->
  holds ist ws -> holds (checkBuffer_loop be fuel ist).2 ws.
Proof.
  revert ist. induction fuel as [|fuel IH]; intros ist Hf Hh; [lia|].
  cbn [checkBuffer_loop]. destruct (Z.ltb_spec (position ist) (inputSize ist)) as [Hlt|Hge]; [done|].
  destruct Hh as (cur & gs & -> & Hsw & Hp & Hi & H64 & Hd & Hs).
  pose proof (holds_exhausted ist cur Hp Hi Hd) as Hsz.
  assert (concat cur = []) as Hcur.
  { destruct (concat cur); [done|]. unfold size_of in Hsz; simpl in Hsz; lia. }
  destruct gs as [|g gs]; inv Hs.
  - match goal with H : getNextBuffer (source _) = _ |- _ => rewrite H end.
    exists cur, []. cbn. rewrite Hcur. split_and!; auto; try lia; [done|]. by econstructor.
  - match goal with H : getNextBuffer _ = _ |- _ => rewrite H;
      apply getNextBuffer_decreases in H end.
    apply IH; [cbn [source]; lia|].
    exists (cur ++ g), gs. cbn [position inputSize input swap source default].
    simpl. rewrite concat_app, Hcur, <-app_assoc. simplify_eq/=. split_and!; auto; try lia.
    + match goal with H : nb_size _ = _ |- _ => rewrite H end. apply size_of_nonneg.
    + congruence.
    + match goal with H : default _ _ = sw |- _ => by rewrite H end.
Qed.

Lemma checkBuffer_holds ist ws : holds ist ws -> holds (checkBuffer be ist).2 ws.
Proof. intros. unfold checkBuffer. apply checkBuffer_loop_holds; auto. Qed.

(** With nothing left to read, [hasData] is false. *)
Lemma hasData_end ist : holds ist [] -> (hasData be ist).1 = false.
Proof.
  unfold hasData, checkBuffer.
  assert (forall fuel ist, (buffersLeft (source ist) < fuel)%nat -> holds ist [] ->
    (checkBuffer_loop be fuel ist).1 = false) as Hl; [|intros; apply Hl; auto].
  clear ist. intros fuel. induction fuel as [|fuel IH]; intros ist Hf Hh; [lia|].
  pose proof Hh as (cur & gs & Heq & Hsw & Hp & Hi & H64 & Hd & Hs).
  symmetry in Heq. apply app_eq_nil in Heq as [-> Hg].
  pose proof (holds_exhausted ist [] Hp Hi Hd) as Hsz. unfold size_of in Hsz. simpl in Hsz.
  cbn [checkBuffer_loop]. rewrite (proj2 (Z.ltb_ge _ _)) by lia.
  destruct gs as [|g gs]; inv Hs; match goal with H : getNextBuffer (source _) = _ |- _ => rewrite H;
    try apply getNextBuffer_decreases in H end; [done|].
  apply IH; [cbn [source]; lia|]. cbn [concat] in Hg. apply app_eq_nil in Hg as [-> Hg].
  simplify_eq/=. exists [], gs. cbn. split_and!; auto; try congruence; try lia.
  - match goal with H : is_u64 (nb_size _) |- _ => apply H end.
  - match goal with H : default _ _ = sw |- _ => by rewrite H end.
Qed.

(** With a non-empty write to come, the rest of the current buffer has it. *)
Lemma getRemainingBufferSize_spec ist w ws :
  holds ist (w :: ws) -> w <> [] ->
  exists n ist', getRemainingBufferSize be ist = (n, ist') /\ size_of w <= n /\
    holds ist' (w :: ws) /\ position ist' < inputSize ist'.
Proof.
  intros Hh Hw. unfold getRemainingBufferSize, checkBuffer.
  destruct (checkBuffer_loop_spec (Datatypes.S (buffersLeft (source ist))) ist w ws)
    as (ist' & cur & gs & -> & Heq & Hsw & Hp & Hi & H64 & Hd & Hs); auto.
  pose proof (f_equal size_of Hd) as Hsz. rewrite size_of_app in Hsz.
  unfold size_of at 1 in Hsz. rewrite length_drop in Hsz. unfold size_of in Hi.
  pose proof (size_of_nonneg (concat cur)). pose proof (size_of_pos w Hw).
  eexists _, ist'. split_and!; [done|lia| |lia].
  exists (w :: cur), gs. rewrite Hsw. split_and!; auto; lia.
Qed.

(** Taking the bytes at the read position by pointer is the same as reading. *)
Lemma getRemainingBuffer_spec ist w ws :
  holds ist (w :: ws) -> w <> [] -> position ist < inputSize ist ->
  exists ist', getRemainingBuffer be (size_of w) ist = (Some w, ist') /\ holds ist' ws.
Proof.
  intros Hh Hw Hlt. destruct (read_spec ist w ws Hh Hw) as (ist' & Hr & Hh').
  exists ist'. split; [|done]. revert Hr. unfold read_, getRemainingBuffer, checkBuffer.
  cbn [checkBuffer_loop]. rewrite (proj2 (Z.ltb_lt _ _) Hlt).
  assert (0 <= position ist /\ inputSize ist < 18446744073709551616) as [? ?]
    by (destruct Hh as (?&?&?&?&?&?&[??]&?); lia).
  pose proof (size_of_nonneg w).
  destruct (Z.gtb_spec (size_of w) (inputSize ist - position ist)) as [|Hle]; [done|].
  rewrite u64_small by (unfold is_u64; lia).
  by destruct (Z.gtb_spec (position ist + size_of w) (inputSize ist)); [lia|].
Qed.

End supplies.
