(* ===== verification/Serialize.v ===== *)
(** * Typed serialization (dataOStream.h/.ipp, dataIStream.h/.ipp, objectVersion.h)

    The stream operators for plain items, 128-bit identifiers, strings, vectors,
    buffers, maps, sets and [ObjectVersion].  A writer is the list of [_write]
    calls it makes on a sending host of byte order [bes]; a reader runs on a
    [DataIStream] of a receiving host of byte order [ber] and is given the old
    value of its target, which the code leaves in place when a read fails.
    [codec] pairs the two, [codec_ok] is their round trip, and every combinator
    of the sources preserves it. *)

From S2P Require Import Prelude Bytes Lunchbox DataOStream DataIStream.

Record ObjectVersion := mkObjectVersion { identifier : Z; version : Z }.

Definition VERSION_NONE : Z := 0.
Definition VERSION_FIRST : Z := 1.
Definition VERSION_NEWEST : Z := 0xfffffffffffffffb.
Definition VERSION_OLDEST : Z := 0xfffffffffffffffc.
Definition VERSION_NEXT : Z := 0xfffffffffffffffd.
Definition VERSION_INVALID : Z := 0xfffffffffffffffe.
Definition VERSION_HEAD : Z := 0xffffffffffffffff.

Record codec (S T : Type) := mkCodec {
  put : T -> list bytes;
  get : T -> DataIStream S -> T * DataIStream S
}.
Arguments mkCodec {S T} _ _.
Arguments put {S T} _ _.
Arguments get {S T} _ _ _.

Section writers.

Context `{!Lunchbox} (bes : bool).

Definition write_item (n : nat) (v : Z) : list bytes := [enc bes n v].

Definition write_u128 (v : Z) : list bytes := [enc128 bes v].

Definition write_bool (v : bool) : list bytes := write_item 1 (if v then 1 else 0).

Definition write_string (str : bytes) : list bytes :=
  let nElems := size_of str in
  enc bes 8 nElems :: if nElems >? 0 then [str] else [].

(** [_writeFlatVector] of items of [n] bytes. *)
Definition write_flat (n : nat) (value : list Z) : list bytes :=
  let nElems := Z.of_nat (length value) in
  enc bes 8 nElems :: if nElems >? 0 then [concat (enc bes n <$> value)] else [].

(** A lunchbox::Buffer: the array is written even when it is empty. *)
Definition write_buffer (n : nat) (value : list Z) : list bytes :=
  [enc bes 8 (Z.of_nat (length value)); concat (enc bes n <$> value)].

Definition write_vector {T} (w : T -> list bytes) (value : list T) : list bytes :=
  write_item 8 (Z.of_nat (length value)) ++ concat (w <$> value).

(** The memory image of the struct: two 128-bit values. *)
Definition ov_image (ov : ObjectVersion) : bytes :=
  enc128 bes (identifier ov) ++ enc128 bes (version ov).

Definition write_ObjectVersion (ov : ObjectVersion) : list bytes := [ov_image ov].

Definition write_ObjectVersions (value : list ObjectVersion) : list bytes :=
  let nElems := Z.of_nat (length value) in
  enc bes 8 nElems :: if nElems >? 0 then [concat (ov_image <$> value)] else [].

(** [serializeChildren], given the children's identifiers and versions. *)
Definition serializeChildren (children : list ObjectVersion) : list bytes :=
  write_item 8 (Z.of_nat (length children)) ++ concat (write_ObjectVersion <$> children).

(** A map is written in its iteration order [it]. *)
Definition write_map {K V} (wk : K -> list bytes) (wv : V -> list bytes) (it : list (K * V)) :
    list bytes :=
  write_item 8 (Z.of_nat (length it)) ++ concat ((fun kv => wk kv.1 ++ wv kv.2) <$> it).

Definition write_set {T} (w : T -> list bytes) (it : list T) : list bytes :=
  write_item 8 (Z.of_nat (length it)) ++ concat (w <$> it).

End writers.

Section readers.

Context `{!Pression, !Lunchbox} {S : Type} `{!BufferSource S} (ber : bool).

Definition read_item (n : nat) (old : Z) (ist : DataIStream S) : Z * DataIStream S :=
  let '(r, ist) := read_ ber (Z.of_nat n) ist in
  let mem := default (enc ber n old) r in
  (dec ber (if isSwapping ist then byteswap mem else mem), ist).

Definition read_u128 (old : Z) (ist : DataIStream S) : Z * DataIStream S :=
  let '(r, ist) := read_ ber 16 ist in
  let mem := default (enc128 ber old) r in
  (dec128 ber (if isSwapping ist then byteswap128 mem else mem), ist).

Definition read_bool (old : bool) (ist : DataIStream S) : bool * DataIStream S :=
  let '(v, ist) := read_item 1 (if old then 1 else 0) ist in (negb (v =? 0), ist).

Definition read_string (old : bytes) (ist : DataIStream S) : bytes * DataIStream S :=
  let '(nElems, ist) := read_item 8 0 ist in
  let '(maxElems, ist) := getRemainingBufferSize ber ist in
  if nElems =? 0 then ([], ist)
  else
    let '(p, ist) := getRemainingBuffer ber (if nElems <=? maxElems then nElems else maxElems) ist in
    (default [] p, ist).

(** The items of an array in memory, each byteswapped when the stream swaps. *)
Fixpoint unpack (sw : bool) (n k : nat) (mem : bytes) : list Z :=
  match k with
  | O => []
  | Datatypes.S k =>
      let item := take n mem in
      dec ber (if sw then byteswap item else item) :: unpack sw n k (drop n mem)
  end.

(** [_readArray] of POD data, into the given items. *)
Definition readArray (n : nat) (value : list Z) (ist : DataIStream S) : list Z * DataIStream S :=
  let '(r, ist) := read_ ber (Z.of_nat (length value * n)) ist in
  (unpack (isSwapping ist) n (length value) (default (concat (enc ber n <$> value)) r), ist).

Definition read_flat (n : nat) (old : list Z) (ist : DataIStream S) : list Z * DataIStream S :=
  let '(nElems, ist) := read_item 8 0 ist in
  let value := resize (Z.to_nat nElems) 0 old in
  if nElems >? 0 then readArray n value ist else (value, ist).

Definition read_buffer (n : nat) (old : list Z) (ist : DataIStream S) : list Z * DataIStream S :=
  let '(nElems, ist) := read_item 8 0 ist in
  readArray n (resize (Z.to_nat nElems) 0 old) ist.

(** [_readArray] of non-POD data and the loop of the vector operator. *)
Fixpoint read_items {T} (r : T -> DataIStream S -> T * DataIStream S) (value : list T)
    (ist : DataIStream S) : list T * DataIStream S :=
  match value with
  | [] => ([], ist)
  | x :: value =>
      let '(x, ist) := r x ist in
      let '(value, ist) := read_items r value ist in
      (x :: value, ist)
  end.

Definition read_vector {T} (dflt : T) (r : T -> DataIStream S -> T * DataIStream S) (old : list T)
    (ist : DataIStream S) : list T * DataIStream S :=
  let '(nElems, ist) := read_item 8 0 ist in
  read_items r (resize (Z.to_nat nElems) dflt old) ist.

Definition read_ObjectVersion (old : ObjectVersion) (ist : DataIStream S) :
    ObjectVersion * DataIStream S :=
  let '(r, ist) := read_ ber 32 ist in
  let mem := default (ov_image ber old) r in
  let conv b := dec128 ber (if isSwapping ist then byteswap128 b else b) in
  (mkObjectVersion (conv (take 16 mem)) (conv (drop 16 mem)), ist).

(** [ObjectVersion] is not POD: the flat vector is read item by item. *)
Definition read_ObjectVersions (old : list ObjectVersion) (ist : DataIStream S) :
    list ObjectVersion * DataIStream S :=
  let '(nElems, ist) := read_item 8 0 ist in
  let value := resize (Z.to_nat nElems) (mkObjectVersion 0 VERSION_NONE) old in
  if nElems >? 0 then read_items read_ObjectVersion value ist else (value, ist).

Section containers.

Context {K V : Type} `{Countable K} (dk : K) (dv : V).
Context (rk : K -> DataIStream S -> K * DataIStream S) (rv : V -> DataIStream S -> V * DataIStream S).

(** [map.insert( std::make_pair( key, value ))] keeps an existing entry. *)
Definition map_insert (k : K) (v : V) (m : gmap K V) : gmap K V :=
  match m !! k with Some _ => m | None => <[k := v]> m end.

Fixpoint read_entries (n : nat) (m : gmap K V) (ist : DataIStream S) : gmap K V * DataIStream S :=
  match n with
  | O => (m, ist)
  | Datatypes.S n =>
      let '(key, ist) := rk dk ist in
      let '(value, ist) := rv dv ist in
      read_entries n (map_insert key value m) ist
  end.

Definition read_map (old : gmap K V) (ist : DataIStream S) : gmap K V * DataIStream S :=
  let '(nElems, ist) := read_item 8 0 ist in
  read_entries (Z.to_nat nElems) ∅ ist.

Fixpoint read_elements (n : nat) (s : gset K) (ist : DataIStream S) : gset K * DataIStream S :=
  match n with
  | O => (s, ist)
  | Datatypes.S n => let '(item, ist) := rk dk ist in read_elements n ({[item]} ∪ s) ist
  end.

Definition read_set (old : gset K) (ist : DataIStream S) : gset K * DataIStream S :=
  let '(nElems, ist) := read_item 8 0 ist in
  read_elements (Z.to_nat nElems) ∅ ist.

End containers.

End readers.

(** ** Round trips of the operators *)

Section roundtrips.

Context `{!Pression, !Lunchbox, !LunchboxOk} {S : Type} `{!BufferSource S, !BufferSourceOk S}.
Context (bes ber : bool).

(** The sender's and receiver's byte orders determine whether the stream swaps. *)
Abbreviation swapping := (xorb bes ber).
Abbreviation holds := (DataIStream.holds ber swapping).

(** A codec is correct for the values in [wf]: it writes at least once, never
    empty, and reading what it wrote returns the value and leaves the rest. *)
Definition codec_ok {T} (wf : T -> Prop) (c : codec S T) : Prop :=
  forall x, wf x ->
    put c x <> [] /\ Forall (.≠ []) (put c x) /\
    forall old ist ws, holds ist (put c x ++ ws) ->
      exists ist', get c old ist = (x, ist') /\ holds ist' ws.

(** A read leaves the stream swapping as the data needs. *)
Lemma read_swap ist w ws :
  holds ist (w :: ws) -> w <> [] ->
  exists ist', read_ ber (size_of w) ist = (Some w, ist') /\ holds ist' ws /\
    isSwapping ist' = swapping.
Proof.
  intros Hh Hw. destruct (read_spec ber swapping ist w ws Hh Hw) as (ist' & Hr & Hh').
  exists ist'. split_and!; auto. revert Hr. unfold read_, checkBuffer.
  destruct (checkBuffer_loop_spec ber swapping (Datatypes.S (buffersLeft (source ist))) ist w ws)
    as (ist1 & cur & gs & -> & _ & Hsw & _); auto.
  destruct (_ >? _); [done|]. intros [= _ <-]. exact Hsw.
Qed.

Lemma dec_swapping n v :
  0 <= v < 256 ^ Z.of_nat n ->
  dec ber (if swapping then byteswap (enc bes n v) else enc bes n v) = v.
Proof.
  intros Hv. destruct bes, ber; simpl; rewrite ?byteswap_rev; first [by apply dec_enc |
    by apply (dec_swap true) | by apply (dec_swap false)].
Qed.

Lemma dec128_swapping v :
  is_u128 v -> dec128 ber (if swapping then byteswap128 (enc128 bes v) else enc128 bes v) = v.
Proof.
  intros Hv. destruct bes, ber; simpl; first [by apply dec128_enc128 |
    by apply (dec128_swap true) | by apply (dec128_swap false)].
Qed.

Lemma size_of_enc be n v : size_of (enc be n v) = Z.of_nat n.
Proof. unfold size_of. by rewrite length_enc. Qed.

Lemma size_of_enc128 v : size_of (enc128 bes v) = 16.
Proof. unfold size_of. by rewrite length_enc128. Qed.

Lemma enc128_nonempty v : enc128 bes v <> [].
Proof. intros Hn%(f_equal size_of). by rewrite size_of_enc128 in Hn. Qed.

Lemma read_item_spec n v old ist ws :
  (0 < n)%nat -> 0 <= v < 256 ^ Z.of_nat n -> holds ist (enc bes n v :: ws) ->
  exists ist', read_item ber n old ist = (v, ist') /\ holds ist' ws.
Proof.
  intros Hn Hv Hh.
  destruct (read_swap ist (enc bes n v) ws Hh) as (ist' & Hr & Hh' & Hsw); [by apply enc_nonempty|].
  exists ist'. split; [|done]. unfold read_item. rewrite size_of_enc in Hr. rewrite Hr, Hsw.
  cbn [from_option id]. by rewrite dec_swapping.
Qed.

Lemma read_count_spec {T} (l : list T) ist ws :
  is_u64 (Z.of_nat (length l)) -> holds ist (enc bes 8 (Z.of_nat (length l)) :: ws) ->
  exists ist', read_item ber 8 0 ist = (Z.of_nat (length l), ist') /\ holds ist' ws.
Proof. intros Hl. apply read_item_spec; [lia|done]. Qed.

(** *** The codecs *)

Definition c_uint (n : nat) : codec S Z := mkCodec (write_item bes n) (read_item ber n).
Definition c_u128 : codec S Z := mkCodec (write_u128 bes) (read_u128 ber).
Definition c_bool : codec S bool := mkCodec (write_bool bes) (read_bool ber).
Definition c_string : codec S bytes := mkCodec (write_string bes) (read_string ber).
Definition c_flat (n : nat) : codec S (list Z) := mkCodec (write_flat bes n) (read_flat ber n).
Definition c_buffer (n : nat) : codec S (list Z) := mkCodec (write_buffer bes n) (read_buffer ber n).
Definition c_vector {T} (dflt : T) (c : codec S T) : codec S (list T) :=
  mkCodec (write_vector bes (put c)) (read_vector ber dflt (get c)).
Definition c_ObjectVersion : codec S ObjectVersion :=
  mkCodec (write_ObjectVersion bes) (read_ObjectVersion ber).
Definition c_ObjectVersions : codec S (list ObjectVersion) :=
  mkCodec (write_ObjectVersions bes) (read_ObjectVersions ber).
Definition c_map {K V} `{Countable K} (dk : K) (dv : V) (it : gmap K V -> list (K * V))
    (ck : codec S K) (cv : codec S V) : codec S (gmap K V) :=
  mkCodec (fun m => write_map bes (put ck) (put cv) (it m)) (read_map ber dk dv (get ck) (get cv)).
Definition c_set {K} `{Countable K} (dk : K) (it : gset K -> list K) (ck : codec S K) :
    codec S (gset K) :=
  mkCodec (fun s => write_set bes (put ck) (it s)) (read_set ber dk (get ck)).
(** Two values streamed one after the other. *)
Definition c_pair {A B} (ca : codec S A) (cb : codec S B) : codec S (A * B) :=
  mkCodec (fun x => put ca x.1 ++ put cb x.2)
    (fun old ist => let '(a, ist) := get ca old.1 ist in
                    let '(b, ist) := get cb old.2 ist in ((a, b), ist)).

Definition wf_uint (n : nat) (v : Z) : Prop := 0 <= v < 256 ^ Z.of_nat n.
Definition wf_string (s : bytes) : Prop := is_u64 (size_of s).
Definition wf_list {T} (wf : T -> Prop) (l : list T) : Prop :=
  is_u64 (Z.of_nat (length l)) /\ Forall wf l.
Definition wf_ov (ov : ObjectVersion) : Prop := is_u128 (identifier ov) /\ is_u128 (version ov).

Lemma uint_ok n : (0 < n)%nat -> codec_ok (wf_uint n) (c_uint n).
Proof.
  intros Hn x Hx. simpl. split_and!; [done| |].
  - constructor; [by apply enc_nonempty|done].
  - intros old ist ws. by apply read_item_spec.
Qed.

Lemma u128_ok : codec_ok is_u128 c_u128.
Proof.
  intros x Hx. simpl. split_and!; [done| |].
  - constructor; [apply enc128_nonempty|done].
  - intros old ist ws Hh.
    destruct (read_swap _ _ _ Hh (enc128_nonempty x)) as (ist' & Hr & Hh' & Hsw).
    exists ist'. split; [|done]. unfold read_u128. rewrite size_of_enc128 in Hr. rewrite Hr, Hsw.
    cbn [from_option id]. by rewrite dec128_swapping.
Qed.

Lemma bool_ok : codec_ok (fun _ => True) c_bool.
Proof.
  intros x _. cbn [put get c_bool]. unfold write_bool, write_item. split_and!; [done| |].
  - constructor; [by apply enc_nonempty; lia|done].
  - intros old ist ws Hh. unfold read_bool.
    destruct (read_item_spec 1 (if x then 1 else 0) (if old then 1 else 0) ist ws)
      as (ist' & -> & Hh'); [lia|by destruct x|done|].
    exists ist'. by destruct x.
Qed.

Lemma string_ok : codec_ok wf_string c_string.
Proof.
  intros x Hx. cbn [put get c_string]. unfold write_string. split_and!; [done| |].
  - constructor; [by apply enc_nonempty; lia|].
    destruct (Z.gtb_spec (size_of x) 0); [|done]. constructor; [|done]. by intros ->.
  - intros old ist ws Hh. unfold read_string.
    destruct (read_count_spec x ist _ Hx Hh) as (ist1 & -> & Hh1). fold (size_of x).
    destruct (Z.gtb_spec (size_of x) 0) as [Hpos|Hle].
    + assert (x <> []) by (by intros ->).
      destruct (getRemainingBufferSize_spec ber swapping ist1 x ws Hh1)
        as (n & ist2 & -> & Hn & Hh2 & Hlt); [done|].
      rewrite (proj2 (Z.eqb_neq _ _)), (proj2 (Z.leb_le _ _)) by lia.
      destruct (getRemainingBuffer_spec ber swapping ist2 x ws) as (ist3 & -> & Hh3); auto.
      by exists ist3.
    + assert (x = []) as -> by (destruct x; [done|]; unfold size_of in Hle; simpl in Hle; lia).
      pose proof (checkBuffer_holds ber swapping ist1 ws Hh1) as Hh2.
      unfold getRemainingBufferSize. destruct (checkBuffer ber ist1) as [[] ist2]; by exists ist2.
Qed.

Lemma unpack_packed n l rest :
  Forall (wf_uint n) l ->
  unpack ber swapping n (length l) (concat (enc bes n <$> l) ++ rest) = l.
Proof.
  induction 1 as [|v l Hv _ IH]; [done|]. rewrite fmap_cons. cbn [length unpack concat].
  rewrite <-app_assoc.
  rewrite take_app_length', drop_app_length', IH by (by rewrite length_enc). by rewrite dec_swapping.
Qed.

Lemma length_packed n l : length (concat (enc bes n <$> l)) = (length l * n)%nat.
Proof.
  induction l as [|v l IH]; [done|]. rewrite fmap_cons. cbn [concat length].
  rewrite length_app, length_enc, IH. lia.
Qed.

Lemma packed_nonempty n l : (0 < n)%nat -> l <> [] -> concat (enc bes n <$> l) <> [].
Proof.
  intros Hn Hl Hc%(f_equal length). rewrite length_packed in Hc. destruct l; simpl in *; [done|lia].
Qed.

Lemma readArray_spec n l value ist ws :
  (0 < n)%nat -> l <> [] -> Forall (wf_uint n) l -> length value = length l ->
  holds ist (concat (enc bes n <$> l) :: ws) ->
  exists ist', readArray ber n value ist = (l, ist') /\ holds ist' ws.
Proof.
  intros Hn Hl Hwf Hlen Hh.
  destruct (read_swap _ _ _ Hh (packed_nonempty n l Hn Hl)) as (ist' & Hr & Hh' & Hsw).
  exists ist'. split; [|done]. unfold readArray, size_of in *. rewrite Hlen, <-length_packed.
  rewrite Hr, Hsw. cbn [from_option id]. by rewrite <-(app_nil_r (concat _)), unpack_packed.
Qed.

Lemma length_resized {T} (d : T) (old l : list T) :
  length (resize (Z.to_nat (Z.of_nat (length l))) d old) = length l.
Proof. by rewrite Nat2Z.id, length_resize. Qed.

Lemma gtb_length {T} (l : list T) : (Z.of_nat (length l) >? 0) = negb (bool_decide (l = [])).
Proof. by destruct l. Qed.

Lemma flat_ok n : (0 < n)%nat -> codec_ok (wf_list (wf_uint n)) (c_flat n).
Proof.
  intros Hn l [Hl Hwf]. cbn [put get c_flat]. unfold write_flat. rewrite gtb_length.
  split_and!; [done| |].
  - constructor; [by apply enc_nonempty; lia|].
    case_bool_decide; simpl; [done|]. constructor; [by apply packed_nonempty|done].
  - intros old ist ws Hh. unfold read_flat.
    destruct (read_count_spec l ist _ Hl Hh) as (ist1 & -> & Hh1). rewrite gtb_length.
    case_bool_decide as Hnil; simpl in *.
    + subst l. exists ist1. by rewrite resize_0.
    + apply readArray_spec; auto. apply length_resized.
Qed.

Lemma buffer_ok n :
  (0 < n)%nat -> codec_ok (fun l => l <> [] /\ wf_list (wf_uint n) l) (c_buffer n).
Proof.
  intros Hn l (Hne & Hl & Hwf). cbn [put get c_buffer]. unfold write_buffer.
  split_and!; [done| |].
  - constructor; [by apply enc_nonempty; lia|]. constructor; [by apply packed_nonempty|done].
  - intros old ist ws Hh. unfold read_buffer.
    destruct (read_count_spec l ist _ Hl Hh) as (ist1 & -> & Hh1).
    apply readArray_spec; auto. apply length_resized.
Qed.

(** Items written one by one are read back one by one. *)
Lemma read_items_spec {T} (wf : T -> Prop) (c : codec S T) l value ist ws :
  codec_ok wf c -> Forall wf l -> length value = length l ->
  holds ist (concat (put c <$> l) ++ ws) ->
  exists ist', read_items (get c) value ist = (l, ist') /\ holds ist' ws.
Proof.
  intros Hc Hwf. revert value ist. induction Hwf as [|x l Hx Hwf IH]; intros [|o value] ist Hlen Hh;
    try done.
  { by exists ist. }
  rewrite fmap_cons in Hh. cbn [concat] in Hh. rewrite <-app_assoc in Hh.
  destruct (Hc x Hx) as (_ & _ & Hget). destruct (Hget o _ _ Hh) as (ist1 & Hg & Hh1).
  cbn [read_items]. rewrite Hg.
  destruct (IH value ist1 ltac:(simpl in *; lia) Hh1) as (ist2 & -> & Hh2). by exists ist2.
Qed.

Lemma puts_nonempty {T} (wf : T -> Prop) (c : codec S T) l :
  codec_ok wf c -> Forall wf l -> Forall (.≠ []) (concat (put c <$> l)).
Proof.
  intros Hc. induction 1 as [|x l Hx _ IH]; [by constructor|].
  rewrite fmap_cons. cbn [concat]. apply Forall_app. split; [|done]. by apply Hc.
Qed.

Lemma vector_ok {T} (dflt : T) wf (c : codec S T) :
  codec_ok wf c -> codec_ok (wf_list wf) (c_vector dflt c).
Proof.
  intros Hc l [Hl Hwf]. cbn [put get c_vector]. unfold write_vector. split_and!; [done| |].
  - constructor; [by apply enc_nonempty; lia|]. by eapply puts_nonempty.
  - intros old ist ws Hh. unfold read_vector.
    destruct (read_count_spec l ist _ Hl Hh) as (ist1 & -> & Hh1).
    eapply read_items_spec; eauto. apply length_resized.
Qed.

Lemma pair_ok {A B} wa wb (ca : codec S A) (cb : codec S B) :
  codec_ok wa ca -> codec_ok wb cb -> codec_ok (fun x => wa x.1 /\ wb x.2) (c_pair ca cb).
Proof.
  intros Ha Hb [a b] [Hwa Hwb]. simpl in *.
  destruct (Ha a Hwa) as (Hna & Hea & Hga), (Hb b Hwb) as (_ & Heb & Hgb). split_and!.
  - by destruct (put ca a).
  - by apply Forall_app.
  - intros [oa ob] ist ws Hh. rewrite <-app_assoc in Hh. simpl.
    destruct (Hga oa _ _ Hh) as (ist1 & -> & Hh1). destruct (Hgb ob _ _ Hh1) as (ist2 & -> & Hh2).
    by exists ist2.
Qed.

Lemma ov_image_nonempty ov : ov_image bes ov <> [].
Proof. unfold ov_image. intros [Hn _]%app_eq_nil. by apply enc128_nonempty in Hn. Qed.

Lemma ObjectVersion_ok : codec_ok wf_ov c_ObjectVersion.
Proof.
  intros [i v] [Hi Hv]. simpl in Hi, Hv. cbn [put get c_ObjectVersion]. unfold write_ObjectVersion.
  split_and!; [done| |].
  - constructor; [apply ov_image_nonempty|done].
  - intros old ist ws Hh.
    destruct (read_swap _ _ _ Hh (ov_image_nonempty _)) as (ist' & Hr & Hh' & Hsw).
    exists ist'. split; [|done]. unfold read_ObjectVersion. revert Hr.
    unfold ov_image at 1. rewrite size_of_app, !size_of_enc128. change (16 + 16) with 32. intros ->.
    rewrite Hsw. cbn [from_option id]. unfold ov_image. simpl identifier. simpl version.
    rewrite take_app_length', drop_app_length' by (by rewrite length_enc128).
    by rewrite !dec128_swapping.
Qed.

Lemma ObjectVersions_ok : codec_ok (wf_list wf_ov) c_ObjectVersions.
Proof.
  intros l [Hl Hwf]. cbn [put get c_ObjectVersions]. unfold write_ObjectVersions.
  rewrite gtb_length. split_and!; [done| |].
  - constructor; [by apply enc_nonempty; lia|].
    case_bool_decide as Hne; simpl; [done|]. constructor; [|done].
    destruct l as [|ov l]; [done|]. rewrite fmap_cons. cbn [concat].
    intros [Hn _]%app_eq_nil. by apply ov_image_nonempty in Hn.
  - intros old ist ws Hh. unfold read_ObjectVersions.
    destruct (read_count_spec l ist _ Hl Hh) as (ist1 & -> & Hh1). rewrite gtb_length.
    case_bool_decide as Hnil; simpl in *.
    + subst l. exists ist1. by rewrite resize_0.
    + apply (read_items_spec wf_ov c_ObjectVersion); auto using ObjectVersion_ok, length_resized.
      cbn [put c_ObjectVersion]. apply holds_parts in Hh1. unfold write_ObjectVersion.
      replace (concat _) with (ov_image bes <$> l); [done|].
      clear. induction l as [|ov l IH]; [done|]. by rewrite !fmap_cons; simpl; rewrite <-IH.
Qed.

(** What [serializeChildren] writes, [deserializeChildren] reads as a vector. *)
Lemma serializeChildren_ok l ist old ws :
  wf_list wf_ov l -> holds ist (serializeChildren bes l ++ ws) ->
  exists ist', read_ObjectVersions ber old ist = (l, ist') /\ holds ist' ws.
Proof.
  intros [Hl Hwf] Hh. unfold read_ObjectVersions.
  destruct (read_count_spec l ist _ Hl Hh) as (ist1 & -> & Hh1). rewrite gtb_length.
  case_bool_decide as Hnil; simpl.
  - subst l. exists ist1. by rewrite resize_0.
  - by apply (read_items_spec wf_ov c_ObjectVersion); auto using ObjectVersion_ok, length_resized.
Qed.

Section containers.

Context {K V : Type} `{Countable K} (dk : K) (dv : V).
Context (wk : K -> Prop) (wv : V -> Prop) (ck : codec S K) (cv : codec S V).
Context (Hck : codec_ok wk ck) (Hcv : codec_ok wv cv).

(** The iteration order of the container is the library's. *)
Context (it : gmap K V -> list (K * V)) (it_perm : forall m, it m ≡ₚ map_to_list m).
Context (its : gset K -> list K) (its_perm : forall s, its s ≡ₚ elements s).

Lemma read_entries_spec l m ist ws :
  Forall (fun kv => wk kv.1 /\ wv kv.2) l -> NoDup l.*1 -> (forall k, k ∈ l.*1 -> m !! k = None) ->
  holds ist (concat ((fun kv => put ck kv.1 ++ put cv kv.2) <$> l) ++ ws) ->
  exists ist', read_entries dk dv (get ck) (get cv) (length l) m ist
    = (list_to_map l ∪ m, ist') /\ holds ist' ws.
Proof.
  intros Hwf. revert m ist. induction Hwf as [|[k v] l [Hk Hv] Hwf IH]; intros m ist Hnd Hm Hh.
  { exists ist. simpl. by rewrite (left_id_L ∅ _). }
  rewrite fmap_cons in Hh. cbn [concat fst snd] in *. rewrite <-!app_assoc in Hh.
  rewrite fmap_cons in Hnd. apply NoDup_cons in Hnd as [Hkl Hnd].
  destruct (Hck k Hk) as (_ & _ & Hgk). destruct (Hgk dk _ _ Hh) as (ist1 & Hg1 & Hh1).
  destruct (Hcv v Hv) as (_ & _ & Hgv). destruct (Hgv dv _ _ Hh1) as (ist2 & Hg2 & Hh2).
  cbn [read_entries length]. rewrite Hg1, Hg2.
  assert (map_insert k v m = <[k := v]> m) as ->.
  { unfold map_insert. by rewrite Hm by set_solver. }
  destruct (IH (<[k := v]> m) ist2 Hnd) as (ist3 & -> & Hh3); [|done|].
  { intros k' Hk'. rewrite lookup_insert_ne by set_solver. apply Hm. set_solver. }
  exists ist3. split; [|done]. f_equal. cbn [list_to_map foldr]. simpl.
  rewrite <-insert_union_r; [by rewrite insert_union_l|].
  by apply not_elem_of_list_to_map_1.
Qed.

Lemma map_ok :
  codec_ok (fun m => is_u64 (Z.of_nat (size m)) /\ map_Forall (fun k v => wk k /\ wv v) m)
    (c_map dk dv it ck cv).
Proof.
  intros m [Hsz Hwf]. cbn [put get c_map]. unfold write_map.
  assert (length (it m) = size m) as Hlen.
  { rewrite (it_perm m). apply length_map_to_list. }
  assert (Forall (fun kv => wk kv.1 /\ wv kv.2) (it m)) as Hit.
  { rewrite (it_perm m). apply map_Forall_to_list in Hwf. eapply Forall_impl; [exact Hwf|].
    by intros [k v]. }
  split_and!; [done| |].
  - constructor; [by apply enc_nonempty; lia|].
    assert (codec_ok (fun kv => wk kv.1 /\ wv kv.2) (c_pair ck cv)) as Hp by (by apply pair_ok).
    apply (puts_nonempty _ _ _ Hp Hit).
  - intros old ist ws Hh. unfold read_map.
    destruct (read_count_spec (it m) ist _ ltac:(by rewrite Hlen) Hh) as (ist1 & -> & Hh1).
    rewrite Nat2Z.id.
    destruct (read_entries_spec (it m) ∅ ist1 ws Hit) as (ist2 & -> & Hh2); auto.
    + rewrite (it_perm m). apply NoDup_fst_map_to_list.
    + exists ist2. split; [|done]. rewrite (right_id_L ∅ _). f_equal.
      rewrite (list_to_map_proper (it m) (map_to_list m)), list_to_map_to_list; auto.
      rewrite (it_perm m). apply NoDup_fst_map_to_list.
Qed.

Lemma read_elements_spec l s ist ws :
  Forall wk l -> holds ist (concat (put ck <$> l) ++ ws) ->
  exists ist', read_elements dk (get ck) (length l) s ist = (list_to_set l ∪ s, ist') /\
    holds ist' ws.
Proof.
  intros Hwf. revert s ist. induction Hwf as [|k l Hk Hwf IH]; intros s ist Hh.
  { exists ist. simpl. split; [f_equal; set_solver|done]. }
  rewrite fmap_cons in Hh. cbn [concat] in Hh. rewrite <-!app_assoc in Hh.
  destruct (Hck k Hk) as (_ & _ & Hgk). destruct (Hgk dk _ _ Hh) as (ist1 & Hg1 & Hh1).
  cbn [read_elements length]. rewrite Hg1.
  destruct (IH ({[k]} ∪ s) ist1 Hh1) as (ist2 & -> & Hh2). exists ist2. split; [|done].
  f_equal. cbn [list_to_set]. set_solver.
Qed.

Lemma set_ok :
  codec_ok (fun s => is_u64 (Z.of_nat (size s)) /\ set_Forall wk s) (c_set dk its ck).
Proof.
  intros s [Hsz Hwf]. cbn [put get c_set]. unfold write_set.
  assert (length (its s) = size s) as Hlen by (by rewrite (its_perm s)).
  assert (Forall wk (its s)) as Hit.
  { rewrite (its_perm s). by apply set_Forall_elements. }
  split_and!; [done| |].
  - constructor; [by apply enc_nonempty; lia|]. by apply (puts_nonempty wk).
  - intros old ist ws Hh. unfold read_set.
    destruct (read_count_spec (its s) ist _ ltac:(by rewrite Hlen) Hh) as (ist1 & -> & Hh1).
    rewrite Nat2Z.id.
    destruct (read_elements_spec (its s) ∅ ist1 ws Hit Hh1) as (ist2 & -> & Hh2).
    exists ist2. split; [|done]. f_equal. rewrite (its_perm s), list_to_set_elements_L. set_solver.
Qed.

End containers.

End roundtrips.
