(* ===== verification/Transfer.v ===== *)
(** * A stream from end to end

    The packets a [DataOStream] hands to [sendData] reach the receiver in order
    and unchanged (the connections are reliable), as the buffers its
    [DataIStream] gets: [received] is the [sendBody] image of a call together
    with the header fields the data commands carry. *)

From S2P Require Import Prelude Bytes Lunchbox DataOStream DataIStream Serialize.

(** A queue of buffers is a source. *)
#[export] Instance list_BufferSource : BufferSource (list NextBuffer) := {
  getNextBuffer l := match l with [] => (None, []) | nb :: l => (Some nb, l) end;
  buffersLeft := @length NextBuffer;
}.

#[export] Instance list_BufferSourceOk : BufferSourceOk (list NextBuffer).
Proof. split. intros [|nb l] nb' l'; simpl; [done|]. intros [= <- <-]. lia. Qed.

Definition received `{!Pression} (bes : bool) (c : SendCall) : NextBuffer :=
  mkNextBuffer (sc_compressor c) (sc_nChunks c) (sendBody bes c) (sc_size c) None.

Section transfer.

Context `{!Pression, !PressionOk, !Lunchbox, !LunchboxOk}.

(** The chunk table written by [sendBody] is read back by [_decompress] on a
    host of the same byte order. *)
Lemma readChunks_sendBody be l :
  Forall (fun ch => is_u64 (size_of ch)) l ->
  readChunks be (length l) (concat ((fun ch => enc be 8 (size_of ch) ++ ch) <$> l)) = l.
Proof.
  induction 1 as [|ch l Hch _ IH]; [done|]. rewrite fmap_cons. cbn [length readChunks concat].
  rewrite <-app_assoc. rewrite take_app_length', drop_app_length' by (by rewrite length_enc).
  rewrite dec_enc by done. unfold size_of at 1 3. rewrite Nat2Z.id.
  by rewrite take_app_length, drop_app_length, IH.
Qed.

Lemma chunk_sizes l n :
  chunksSize l < n -> is_u64 n -> Forall (fun ch => is_u64 (size_of ch)) l.
Proof.
  intros Hl Hn. apply Forall_forall. intros ch Hch. apply list_elem_of_split in Hch as (l1 & l2 & ->).
  unfold chunksSize in Hl. rewrite concat_app in Hl. cbn [concat] in Hl. rewrite !size_of_app in Hl.
  pose proof (size_of_nonneg (concat l1)). pose proof (size_of_nonneg (concat l2)).
  pose proof (size_of_nonneg ch). unfold is_u64 in *. lia.
Qed.

(** A received packet decompresses to the payload that was sent. *)
Lemma received_payload bes ber comp c :
  call_ok comp c -> is_u64 (sc_size c) -> (comp.2 = true -> bes = ber) ->
  let nb := received bes c in
  decompress_ ber (nb_data nb) (nb_compressor nb) (nb_nChunks nb) (nb_size nb) = payload c.
Proof.
  intros (Hsz & _ & Hc) H64 Hbe. unfold received, decompress_, payload, sendBody. cbn -[Z.eqb].
  destruct (Z.eqb_spec (sc_compressor c) EQ_COMPRESSOR_NONE) as [|Hne]; [done|].
  destruct (Hc Hne) as (Hg & -> & Hlt & _). rewrite Hg in Hbe. rewrite (Hbe eq_refl), Nat2Z.id, readChunks_sendBody; [done|].
  by eapply chunk_sizes.
Qed.

Lemma received_supplies bes ber comp out :
  Forall (call_ok comp) out -> Forall (fun c => is_u64 (sc_size c)) out ->
  (comp.2 = true -> bes = ber) ->
  supplies ber (xorb bes ber) (xorb bes ber) (received bes <$> out) (payload <$> out).
Proof.
  intros Hok H64 Hbe. induction Hok as [|c out Hc _ IH]; [by econstructor|].
  apply Forall_cons in H64 as [Hc64 H64]. rewrite !fmap_cons.
  eapply (supplies_cons _ _ _ _ _ (received bes c)); [done| | |done|done|by apply IH].
  - by eapply received_payload.
  - simpl. by destruct Hc as [-> _].
Qed.

Lemma sizes_bounded out groups ws :
  payload <$> out = (@concat Z) <$> groups -> concat groups = ws -> is_u64 (size_of (concat ws)) ->
  forall comp, Forall (call_ok comp) out -> Forall (fun c => is_u64 (sc_size c)) out.
Proof.
  intros Hp <- H64 comp Hok. revert groups Hp H64.
  induction Hok as [|c out [Hsz _] _ IH]; intros [|g gs] Hp H64; try done.
  rewrite !fmap_cons in Hp. injection Hp as Hp1 Hp2. cbn [concat] in H64.
  rewrite concat_app, size_of_app in H64.
  pose proof (size_of_nonneg (concat g)). pose proof (size_of_nonneg (concat (concat gs))).
  constructor; [rewrite Hsz, Hp1; unfold is_u64 in *; lia|].
  apply (IH gs Hp2). unfold is_u64 in *. lia.
Qed.

(** A stream session read back: whatever a correct codec writes, the receiver
    reads, and then has no data left. *)
Lemma transfer_codec {T} (wf : T -> Prop) bes ber (c : codec (list NextBuffer) T)
    threshold obs name good sv conns x old :
  codec_ok bes ber wf c -> wf x -> 0 <= obs -> name <> EQ_COMPRESSOR_NONE -> conns <> [] ->
  is_u64 (size_of (concat (put c x))) -> (good = true -> bes = ber) ->
  let out := (session threshold obs (opened name good sv conns) (put c x)).2 in
  let '(y, ist) := get c old (DataIStream_init (xorb bes ber) (received bes <$> out)) in
  y = x /\ (hasData ber ist).1 = false.
Proof.
  intros Hc Hx Ho Hn Hcs H64 Hbe. destruct (Hc x Hx) as (Hne & Hws & Hget).
  pose proof (session_spec threshold obs _ name good sv conns (put c x) (fresh_opened _ _ _ _) Ho Hn Hcs Hne Hws) as Hs.
  destruct (session _ _ _ _) as [s out]. destruct Hs as (gs & Hgs & _ & Hpay & _ & _ & Hok).
  cbn [snd].
  assert (holds ber (xorb bes ber) (DataIStream_init (xorb bes ber) (received bes <$> out))
    (put c x ++ [])) as Hh.
  { rewrite app_nil_r, <-Hgs. apply holds_init. rewrite <-Hpay.
    apply (received_supplies bes ber (name, good)); auto. by eapply sizes_bounded. }
  destruct (Hget old _ _ Hh) as (ist & -> & Hh'). split; [done|].
  by apply (hasData_end ber (xorb bes ber)).
Qed.

End transfer.

(** ** The types an application can stream

    Every combination of the operators: the types of values closed under
    vectors, pairs and maps, with keys of integer type. *)

Inductive ty :=
  | TUInt (n : nat)
  | TU128
  | TBool
  | TString
  | TFlat (n : nat)
  | TBuffer (n : nat)
  | TObjectVersion
  | TObjectVersions
  | TVector (t : ty)
  | TPair (a b : ty)
  | TMap (n : nat) (t : ty)
  | TSet (n : nat).

Fixpoint denote (t : ty) : Type :=
  match t with
  | TUInt _ | TU128 => Z
  | TBool => bool
  | TString => bytes
  | TFlat _ | TBuffer _ => list Z
  | TObjectVersion => ObjectVersion
  | TObjectVersions => list ObjectVersion
  | TVector t => list (denote t)
  | TPair a b => denote a * denote b
  | TMap _ t => gmap Z (denote t)
  | TSet _ => gset Z
  end.

Fixpoint dflt (t : ty) : denote t :=
  match t with
  | TUInt _ | TU128 => 0
  | TBool => false
  | TString | TFlat _ | TBuffer _ => []
  | TObjectVersion => mkObjectVersion 0 VERSION_NONE
  | TObjectVersions => []
  | TVector t => []
  | TPair a b => (dflt a, dflt b)
  | TMap _ t => ∅
  | TSet _ => ∅
  end.

(** Values that fit their type: integers in range, item sizes of at least one
    byte, and a lunchbox::Buffer that is not empty. *)
Fixpoint fits (t : ty) : denote t -> Prop :=
  match t with
  | TUInt n => fun v => (0 < n)%nat /\ wf_uint n v
  | TU128 => is_u128
  | TBool => fun _ => True
  | TString => wf_string
  | TFlat n => fun l => (0 < n)%nat /\ wf_list (wf_uint n) l
  | TBuffer n => fun l => (0 < n)%nat /\ l <> [] /\ wf_list (wf_uint n) l
  | TObjectVersion => wf_ov
  | TObjectVersions => wf_list wf_ov
  | TVector t => wf_list (fits t)
  | TPair a b => fun x => fits a x.1 /\ fits b x.2
  | TMap n t => fun m => (0 < n)%nat /\ is_u64 (Z.of_nat (size m)) /\
                  map_Forall (fun k v => wf_uint n k /\ fits t v) m
  | TSet n => fun s => (0 < n)%nat /\ is_u64 (Z.of_nat (size s)) /\ set_Forall (wf_uint n) s
  end.

Section typed.

Context `{!Pression, !PressionOk, !Lunchbox, !LunchboxOk}.
Context {S : Type} `{!BufferSource S, !BufferSourceOk S}.
Context (bes ber : bool).

(** The iteration order of the sender's containers. *)
Context (it : forall V, gmap Z V -> list (Z * V)) (its : gset Z -> list Z).

Fixpoint stream (t : ty) : codec S (denote t) :=
  match t with
  | TUInt n => c_uint bes ber n
  | TU128 => c_u128 bes ber
  | TBool => c_bool bes ber
  | TString => c_string bes ber
  | TFlat n => c_flat bes ber n
  | TBuffer n => c_buffer bes ber n
  | TObjectVersion => c_ObjectVersion bes ber
  | TObjectVersions => c_ObjectVersions bes ber
  | TVector t => c_vector bes ber (dflt t) (stream t)
  | TPair a b => c_pair (stream a) (stream b)
  | TMap n t => c_map bes ber 0 (dflt t) (it (denote t)) (c_uint bes ber n) (stream t)
  | TSet n => c_set bes ber 0 its (c_uint bes ber n)
  end.

Context (it_perm : forall V (m : gmap Z V), it V m ≡ₚ map_to_list m).
Context (its_perm : forall s, its s ≡ₚ elements s).

Lemma stream_ok t : codec_ok bes ber (fits t) (stream t).
Proof.
  induction t; cbn [stream fits denote];
    try match goal with |- codec_ok _ _ (fun l => (0 < ?n)%nat /\ _) _ => intros x [Hn Hx]; revert x Hx end.
  - by apply uint_ok.
  - apply u128_ok.
  - apply bool_ok.
  - apply string_ok.
  - by apply flat_ok.
  - by apply buffer_ok.
  - apply ObjectVersion_ok.
  - apply ObjectVersions_ok.
  - by apply vector_ok.
  - by apply pair_ok.
  - eapply map_ok; eauto using uint_ok.
  - eapply set_ok; eauto using uint_ok.
Qed.

End typed.

(** ** Properties *)

(** C3: Streams transport values.  Whatever value of a streamable type (integers
    of any width, identifiers, strings, vectors, buffers, maps, sets, object
    versions and their combinations) is written to a [DataOStream] on a host of
    one byte order, the [DataIStream] of a receiver of either byte order reads
    back the same value and then has no data left, however the writes were
    buffered, flushed and compressed.  A stream with a working compressor needs
    both hosts to have the same byte order, because [_decompress] reads the
    chunk sizes without swapping them.  Values must [fits] their types; in
    particular a buffer is not empty. *)
Theorem stream_transports `{!Pression, !PressionOk, !Lunchbox, !LunchboxOk}
    bes ber it its threshold obs name good sv conns t (x old : denote t) :
  (forall V (m : gmap Z V), it V m ≡ₚ map_to_list m) -> (forall s, its s ≡ₚ elements s) ->
  0 <= obs -> name <> EQ_COMPRESSOR_NONE -> conns <> [] -> (good = true -> bes = ber) ->
  let c := stream (S := list NextBuffer) bes ber it its t in
  fits t x -> is_u64 (size_of (concat (put c x))) ->
  let out := (session threshold obs (opened name good sv conns) (put c x)).2 in
  let '(y, ist) := get c old (DataIStream_init (xorb bes ber) (received bes <$> out)) in
  y = x /\ (hasData ber ist).1 = false.
Proof.
  intros Hit Hits Ho Hn Hc Hbe c Hx H64.
  apply (transfer_codec (fits t)); auto. by apply stream_ok.
Qed.

(** A value of several types, sent by a big-endian host to a little-endian one
    in packets of more than four bytes. *)
Definition sample_ty : ty :=
  TPair (TVector TString) (TPair (TFlat 4) (TPair (TMap 2 TBool) TObjectVersions)).
Definition sample : denote sample_ty :=
  ([[72; 105]; []; [33]], ([1; 65536; 3], ({[ 7 := true ]}, [mkObjectVersion 5 2; mkObjectVersion 6 1]))).

Lemma stream_transports_witness :
  let c := @stream store_Pression native_Lunchbox (list NextBuffer) _ true false
             (fun V => map_to_list) elements sample_ty in
  let out := (@session store_Pression 2 4 (@opened store_Pression 7 false false [0]) (put c sample)).2 in
  (1 < length out)%nat /\
  (get c (dflt sample_ty) (DataIStream_init true (@received store_Pression true <$> out))).1 = sample.
Proof.
  intros c out. split; [by vm_compute; lia|].
  pose proof (@stream_transports store_Pression store_PressionOk native_Lunchbox native_LunchboxOk
    true false (fun V => map_to_list) elements 2 4 7 false false [0] sample_ty sample (dflt sample_ty)
    (fun V m => Permutation_refl _) (fun s => Permutation_refl _) ltac:(lia) ltac:(done) ltac:(done)
    ltac:(done)) as H.
  cbv zeta in H. fold c in H. fold out in H. change (xorb true false) with true in H.
  destruct (get c _ _) as [y ist]. apply H.
  - cbn. unfold wf_list, wf_string, wf_uint, is_u64, wf_ov, is_u128, size_of. cbn.
    split_and!; try lia; try (repeat first [apply Forall_nil_2 | apply Forall_cons_2]; simpl; lia).
    + by vm_compute.
    + apply map_Forall_singleton. simpl. lia.
  - by vm_compute.
Defined.
