(* ===== verification/Archive.v ===== *)
(** * Boost archives over data streams (dataOStreamArchive and dataIStreamArchive, .h, .ipp and .cpp)

    [DataOStreamArchive] and [DataIStreamArchive] are boost.serialization
    archives on top of the data streams.  They write integers in a portable
    form: the number of significant bytes, with the sign of the value, and then
    these bytes in little-endian order, so that a value can be loaded on a host
    of another byte order and into another integer type.  A [throw] of the code
    is the left side of a sum.

    The [boost] functions the archives call are the class [Boost] and its
    documented laws [BoostOk].  A floating point value is its bit pattern (the
    code asserts IEC 559 and a bit type of the same size), on which
    [fp_traits::get_bits] and [set_bits] are the identity. *)

From S2P Require Import Prelude Bytes Lunchbox DataOStream DataIStream Serialize Transfer.

(** ** Integer types *)

Record IntType := mkIntType { sizeof_ : nat; is_signed : bool }.

Definition U (n : nat) : IntType := mkIntType n false.
Definition I (n : nat) : IntType := mkIntType n true.

(** The values of [n] bytes. *)
Definition range (n : nat) : Z := 256 ^ Z.of_nat n.

(** Conversion to the type: two's complement for the signed types. *)
Definition cast (T : IntType) (z : Z) : Z :=
  let m := z `mod` range (sizeof_ T) in
  if is_signed T && (range (sizeof_ T) <=? 2 * m) then m - range (sizeof_ T) else m.

(** [v] is a value of the type. *)
Definition in_type (T : IntType) (v : Z) : Prop :=
  if is_signed T then - range (sizeof_ T) <= 2 * v < range (sizeof_ T)
  else 0 <= v < range (sizeof_ T).

(** ** The parts of boost the archives use *)

Inductive FpClass := FP_ZERO | FP_NAN | FP_INFINITE | FP_SUBNORMAL | FP_NORMAL.

#[export] Instance FpClass_eq_dec : EqDecision FpClass.
Proof. solve_decision. Defined.

(** Bits of the mantissa of the IEC 559 formats of four and eight bytes. *)
Definition mantissa_bits (n : nat) : Z := if Nat.eqb n 4 then 23 else 52.

Definition ieee_sign (n : nat) : Z := 2 ^ (8 * Z.of_nat n - 1).
Definition ieee_mantissa (n : nat) : Z := 2 ^ mantissa_bits n - 1.
Definition ieee_exponent (n : nat) : Z := ieee_sign n - 2 ^ mantissa_bits n.

Definition ieee_class (n : nat) (b : Z) : FpClass :=
  let e := Z.land b (ieee_exponent n) in
  let m := Z.land b (ieee_mantissa n) in
  if e =? ieee_exponent n then (if m =? 0 then FP_INFINITE else FP_NAN)
  else if e =? 0 then (if m =? 0 then FP_ZERO else FP_SUBNORMAL)
  else FP_NORMAL.

Class Boost := {
  store_little_endian : nat -> Z -> bytes;
  load_little_endian : IntType -> bytes -> Z;
  fp_sign : nat -> Z;
  fp_exponent : nat -> Z;
  fp_mantissa : nat -> Z;
  fpclassify : nat -> Z -> FpClass;
  BOOST_ARCHIVE_VERSION : Z;
}.

Class BoostOk `{Boost} : Prop := {
  store_little_endian_eq n z : store_little_endian n z = le_split n z;
  load_little_endian_eq T l : load_little_endian T l = cast T (le_combine l);
  fp_sign_eq n : fp_sign n = ieee_sign n;
  fp_exponent_eq n : fp_exponent n = ieee_exponent n;
  fp_mantissa_eq n : fp_mantissa n = ieee_mantissa n;
  fpclassify_eq n b : fpclassify n b = ieee_class n b;
  archive_version_u16 : is_u16 BOOST_ARCHIVE_VERSION;
}.

(** ** Errors *)

Inductive ArchiveError :=
  | ENegative (* a negative number for an unsigned type *)
  | ESize (invalid_size : Z)
  | EBool (c : Z)
  | EFloat (bits : Z)
  | EInvalidSignature
  | EUnsupportedVersion.

Abbreviation Throws T := (sum ArchiveError T).

Definition magicByte : Z := Z.lor 99 111.
Definition no_infnan : Z := 64.
Definition is_finite (c : FpClass) : bool :=
  match c with FP_NAN | FP_INFINITE => false | _ => true end.

Section oarchive.

Context `{!Lunchbox, !Boost} (bes : bool).

Definition saveSignedChar (c : Z) : list bytes := write_item bes 1 (u8 c).

(** An [Array< const void >] is written as it is. *)
Definition save_binary (data : bytes) : list bytes := [data].

(** The loop that counts the bytes [temp] needs, at most one per byte of the
    type. *)
Fixpoint save_size (fuel : nat) (T : IntType) (temp : Z) : Z :=
  match fuel with
  | O => 0
  | S fuel =>
      let temp := Z.shiftr temp 8 in
      if negb (temp =? 0) && negb (temp =? cast T (-1)) then 1 + save_size fuel T temp else 1
  end.

Definition save_int (T : IntType) (t : Z) : list bytes :=
  if negb (t =? 0) then
    let size := save_size (sizeof_ T) T t in
    saveSignedChar (if t >? 0 then size else - size) ++
    save_binary (take (Z.to_nat size) (store_little_endian (sizeof_ T) t))
  else saveSignedChar 0.

Definition save_bool (b : bool) : list bytes :=
  saveSignedChar (if b then 1 else 0) ++ if b then saveSignedChar 84 else [].

Definition save_string (s : bytes) : list bytes := write_string bes s.

(** [save_array] of items of [n] bytes. *)
Definition save_array (n : nat) (a : list Z) : list bytes := [concat (enc bes n <$> a)].

(** The bit pattern the switch over [fpclassify] chooses for a value. *)
Definition canonical (n : nat) (t : Z) : Z :=
  match fpclassify n t with
  | FP_ZERO => 0
  | FP_NAN => Z.lor (fp_exponent n) (fp_mantissa n)
  | FP_INFINITE => Z.lor (fp_exponent n) ((if ieee_sign n <=? t then 1 else 0) * fp_sign n)
  | FP_SUBNORMAL | FP_NORMAL => t
  end.

Definition save_float (flags : Z) (n : nat) (t : Z) : Throws (list bytes) :=
  if negb (Z.land flags no_infnan =? 0) && negb (is_finite (fpclassify n t)) then inl (EFloat t)
  else inr (save_int (U n) (canonical n t)).

(** Boost's strong typedefs. *)
Definition save_library_version (v : Z) : list bytes := save_int (U 2) (u16 v).
Definition save_class_id (v : Z) : list bytes := save_int (U 2) (u16 v).
Definition save_item_version (v : Z) : list bytes := save_int (U 4) (u32 v).
Definition save_collection_size (v : Z) : list bytes := save_int (U 4) (u32 v).
Definition save_object_id (v : Z) : list bytes := save_int (U 4) (u32 v).
Definition save_version (v : Z) : list bytes := save_int (U 4) (u32 v).

(** The constructor writes the header. *)
Definition DataOStreamArchive_init : list bytes :=
  saveSignedChar magicByte ++ save_library_version BOOST_ARCHIVE_VERSION.

End oarchive.

Section iarchive.

Context `{!Pression, !Lunchbox, !Boost} {S : Type} `{!BufferSource S} (ber : bool).

(** The indeterminate value of the local variable of [_loadSignedChar]. *)
Context (garbage : Z).

Abbreviation stream_ := (DataIStream S).

Definition loadSignedChar (ist : stream_) : Z * stream_ :=
  let '(c, ist) := read_item ber 1 garbage ist in (i8 c, ist).

(** [load_binary] of [size] bytes to the start of the memory [mem]. *)
Definition load_binary (mem : bytes) (size : Z) (ist : stream_) : bytes * stream_ :=
  let '(r, ist) := read_ ber size ist in
  (match r with Some b => b ++ drop (Z.to_nat size) mem | None => mem end, ist).

Definition load_int (T : IntType) (ist : stream_) : Throws Z * stream_ :=
  let '(size, ist) := loadSignedChar ist in
  if negb (size =? 0) then
    if (size <? 0) && negb (is_signed T) then (inl ENegative, ist)
    else if Z.abs size >? Z.of_nat (sizeof_ T) then (inl (ESize size), ist)
    else
      let temp := replicate (sizeof_ T) (if size <? 0 then 255 else 0) in
      let '(temp, ist) := load_binary temp (Z.abs size) ist in
      (inr (load_little_endian T temp), ist)
  else (inr 0, ist).

Definition load_bool (ist : stream_) : Throws bool * stream_ :=
  let '(c, ist) := loadSignedChar ist in
  if c =? 0 then (inr false, ist)
  else if c =? 1 then let '(b, ist) := loadSignedChar ist in (inr (negb (b =? 0)), ist)
  else (inl (EBool c), ist).

Definition load_string (old : bytes) (ist : stream_) : bytes * stream_ := read_string ber old ist.

Definition load_array (n : nat) (value : list Z) (ist : stream_) : list Z * stream_ :=
  readArray ber n value ist.

(** [denorm_absent]: the host's type has no denormalized numbers. *)
Definition load_float (flags : Z) (denorm_absent : bool) (n : nat) (ist : stream_) :
    Throws Z * stream_ :=
  let '(bits, ist) := load_int (U n) ist in
  match bits with
  | inl e => (inl e, ist)
  | inr t =>
      if negb (Z.land flags no_infnan =? 0) && negb (is_finite (fpclassify n t)) then (inl (EFloat t), ist)
      else if denorm_absent && bool_decide (fpclassify n t = FP_SUBNORMAL) then (inl (EFloat t), ist)
      else (inr t, ist)
  end.

Definition load_library_version (ist : stream_) : Throws Z * stream_ := load_int (U 2) ist.
Definition load_class_id (ist : stream_) : Throws Z * stream_ := load_int (U 2) ist.
Definition load_item_version (ist : stream_) : Throws Z * stream_ := load_int (U 4) ist.
Definition load_collection_size (ist : stream_) : Throws Z * stream_ := load_int (U 4) ist.
Definition load_object_id (ist : stream_) : Throws Z * stream_ := load_int (U 4) ist.
Definition load_version (ist : stream_) : Throws Z * stream_ := load_int (U 4) ist.

(** The constructor checks the header and returns the library version. *)
Definition DataIStreamArchive_init (ist : stream_) : Throws Z * stream_ :=
  let '(c, ist) := loadSignedChar ist in
  if negb (c =? magicByte) then (inl EInvalidSignature, ist)
  else
    match load_library_version ist with
    | (inl e, ist) => (inl e, ist)
    | (inr v, ist) => if v >? BOOST_ARCHIVE_VERSION then (inl EUnsupportedVersion, ist) else (inr v, ist)
    end.

End iarchive.

(** ** Integer types and their bytes *)

Lemma range_pos n : 0 < range n.
Proof. unfold range. lia. Qed.

Lemma range_S n : range (S n) = 256 * range n.
Proof. unfold range. rewrite Nat2Z.inj_succ, Z.pow_succ_r by lia. done. Qed.

Lemma range_shiftl n : range n = 2 ^ (8 * Z.of_nat n).
Proof. unfold range. rewrite Z.pow_mul_r by lia. done. Qed.

Lemma range_mono n m : (n <= m)%nat -> range n <= range m.
Proof. intros. unfold range. apply Z.pow_le_mono_r; lia. Qed.

Lemma cast_in_type T v : in_type T v -> cast T v = v.
Proof.
  destruct T as [n []]; unfold in_type, cast; cbn [sizeof_ is_signed]; pose proof (range_pos n);
    intros Hv; simpl.
  - destruct (decide (0 <= v)).
    + rewrite Z.mod_small by lia. destruct (Z.leb_spec (range n) (2 * v)); lia.
    + assert (v `mod` range n = v + range n) as ->.
      { symmetry. apply (Z.mod_unique_pos _ _ (-1)); lia. }
      destruct (Z.leb_spec (range n) (2 * (v + range n))); lia.
  - by rewrite Z.mod_small.
Qed.

Lemma cast_mod T v : cast T (v `mod` range (sizeof_ T)) = cast T v.
Proof. unfold cast. pose proof (range_pos (sizeof_ T)). by rewrite Z.mod_mod by lia. Qed.

(** The value modulo [256 ^ n] from its low [k] bytes, the rest a constant. *)
Lemma le_split_app k m v :
  le_split (k + m) v = le_split k v ++ le_split m (v `div` range k).
Proof.
  revert v. induction k as [|k IH]; intros v; simpl.
  { unfold range. by rewrite Z.pow_0_r, Z.div_1_r. }
  f_equal. rewrite IH. do 2 f_equal. rewrite range_S, Z.div_div; [done|lia|apply range_pos].
Qed.

Lemma le_split_0 m : le_split m 0 = replicate m 0.
Proof. induction m as [|m IH]; [done|]. cbn [le_split replicate]. by rewrite Zdiv_0_l, IH. Qed.

Lemma le_split_m1 m : le_split m (-1) = replicate m 255.
Proof.
  induction m as [|m IH]; [done|]. cbn [le_split replicate].
  by rewrite (eq_refl : (-1) `div` 256 = -1), IH.
Qed.

Lemma le_split_extend k n v :
  (k <= n)%nat -> v `div` range k = (if v <? 0 then -1 else 0) ->
  le_split k v ++ replicate (n - k) (if v <? 0 then 255 else 0) = le_split n v.
Proof.
  intros Hk Hd. replace n with (k + (n - k))%nat at 2 by lia. rewrite le_split_app, Hd. f_equal.
  destruct (v <? 0); by rewrite ?le_split_0, ?le_split_m1.
Qed.

(** ** The size of a portable integer

    [save_size] is the least number of bytes, at least one, after which the
    value shifted by them is all sign. *)

Definition all_sign (v : Z) (k : nat) : Prop := v `div` range k = if v <? 0 then -1 else 0.

Lemma all_sign_bounds v k :
  all_sign v k <-> (if v <? 0 then - range k <= v else v < range k).
Proof.
  unfold all_sign. pose proof (range_pos k). destruct (Z.ltb_spec v 0).
  - split; intros Hv.
    + pose proof (Z.mul_div_le v (range k)). lia.
    + symmetry. apply (Z.div_unique_pos _ _ _ (v + range k)); lia.
  - split; intros Hv.
    + apply Z.div_small_iff in Hv; lia.
    + apply Z.div_small. lia.
Qed.

Lemma all_sign_mono v k m : (k <= m)%nat -> all_sign v k -> all_sign v m.
Proof.
  intros Hk. rewrite !all_sign_bounds. pose proof (range_mono k m Hk).
  destruct (v <? 0); lia.
Qed.

Lemma in_type_all_sign T v : in_type T v -> all_sign v (sizeof_ T).
Proof.
  rewrite all_sign_bounds. unfold in_type. pose proof (range_pos (sizeof_ T)).
  destruct (is_signed T), (Z.ltb_spec v 0); lia.
Qed.

(** A value that is all sign after [k] bytes is one of the wider types. *)
Lemma all_sign_in_type T v k :
  all_sign v k -> (k < sizeof_ T)%nat -> (v < 0 -> is_signed T = true) -> in_type T v.
Proof.
  rewrite all_sign_bounds. intros Hv Hk Hs. unfold in_type.
  pose proof (range_mono (S k) (sizeof_ T) Hk) as Hr. rewrite range_S in Hr.
  pose proof (range_pos k).
  destruct (Z.ltb_spec v 0); [rewrite Hs by lia|destruct (is_signed T)]; lia.
Qed.

Lemma shiftr_8 v : Z.shiftr v 8 = v `div` 256.
Proof. by rewrite Z.shiftr_div_pow2. Qed.

Lemma cast_m1 T : (0 < sizeof_ T)%nat -> cast T (-1) = if is_signed T then -1 else range (sizeof_ T) - 1.
Proof.
  intros Hn. pose proof (range_mono 1 (sizeof_ T) Hn) as Hr. change (range 1) with 256 in Hr.
  destruct (is_signed T) eqn:Hs.
  - apply cast_in_type. unfold in_type. rewrite Hs. lia.
  - unfold cast. rewrite Hs. simpl. symmetry. apply (Z.mod_unique_pos _ _ (-1)); lia.
Qed.

(** The loop condition: the shifted value is neither zero nor minus one. *)
Lemma save_size_cond T v :
  (0 < sizeof_ T)%nat -> in_type T v ->
  negb (Z.shiftr v 8 =? 0) && negb (Z.shiftr v 8 =? cast T (-1)) = true <-> ~ all_sign v 1.
Proof.
  intros Hn Hv. rewrite cast_m1 by done. rewrite shiftr_8.
  rewrite andb_true_iff, !negb_true_iff, !Z.eqb_neq, all_sign_bounds.
  change (range 1) with 256. pose proof (range_mono 1 (sizeof_ T) Hn) as Hr.
  change (range 1) with 256 in Hr. unfold in_type in Hv.
  destruct (is_signed T), (Z.ltb_spec v 0); Z.div_mod_to_equations; lia.
Qed.

Lemma all_sign_shift v k : all_sign (Z.shiftr v 8) k <-> all_sign v (S k).
Proof.
  rewrite !all_sign_bounds, range_S, shiftr_8. pose proof (range_pos k).
  destruct (Z.ltb_spec (v `div` 256) 0), (Z.ltb_spec v 0); Z.div_mod_to_equations; lia.
Qed.

Lemma save_size_S fuel T v :
  save_size (S fuel) T v =
  if negb (Z.shiftr v 8 =? 0) && negb (Z.shiftr v 8 =? cast T (-1))
  then 1 + save_size fuel T (Z.shiftr v 8) else 1.
Proof. done. Qed.

(** The loop ends within the bytes of the type, at the least such size. *)
Lemma save_size_spec T v fuel :
  (0 < sizeof_ T)%nat -> in_type T v -> (0 < fuel)%nat -> all_sign v fuel ->
  exists k, save_size fuel T v = Z.of_nat (S k) /\ (S k <= fuel)%nat /\ all_sign v (S k) /\
    forall j, (0 < j)%nat -> all_sign v j -> (S k <= j)%nat.
Proof.
  intros Hn. revert v. induction fuel as [|fuel IH]; intros v Hv Hf Hs; [lia|].
  rewrite save_size_S. pose proof (save_size_cond T v Hn Hv) as Hc.
  destruct (_ && _).
  - assert (~ all_sign v 1) as H1 by (by apply Hc).
    assert (0 < fuel)%nat by (destruct fuel; [done|lia]).
    destruct (IH (Z.shiftr v 8)) as (k & -> & Hk & Hks & Hmin); [|done|by apply all_sign_shift|].
    { rewrite shiftr_8. unfold in_type in *. pose proof (range_pos (sizeof_ T)).
      destruct (is_signed T); Z.div_mod_to_equations; lia. }
    exists (S k). split_and!; [lia|lia|by apply all_sign_shift|].
    intros [|[|j]] Hj Hsj; [lia|done|]. specialize (Hmin (S j)). rewrite all_sign_shift in Hmin.
    specialize (Hmin ltac:(lia) Hsj). lia.
  - exists 0%nat. split_and!; [done|lia| |intros; lia].
    destruct (decide (v `div` range 1 = if v <? 0 then -1 else 0)) as [|Hne]; [done|].
    by apply Hc in Hne.
Qed.

(** The number of bytes of a value in the stream, zero for zero. *)
Definition nbytes (T : IntType) (v : Z) : Z := if v =? 0 then 0 else save_size (sizeof_ T) T v.

Lemma in_type_sizeof T v : in_type T v -> v <> 0 -> (0 < sizeof_ T)%nat.
Proof.
  intros Hv H0. destruct T as [[|n] s]; [|simpl; lia]. unfold in_type, range in Hv.
  simpl in Hv. destruct s; lia.
Qed.

Lemma nbytes_spec T v :
  in_type T v -> v <> 0 ->
  exists k, save_size (sizeof_ T) T v = Z.of_nat (S k) /\ (S k <= sizeof_ T)%nat /\
    all_sign v (S k) /\ forall j, (0 < j)%nat -> all_sign v j -> (S k <= j)%nat.
Proof.
  intros Hv H0. pose proof (in_type_sizeof T v Hv H0). apply save_size_spec; auto.
  by apply in_type_all_sign.
Qed.

(** ** Loading what was saved *)

Section roundtrip.

Context `{!Pression, !Lunchbox, !LunchboxOk, !Boost, !BoostOk}.
Context {S : Type} `{!BufferSource S, !BufferSourceOk S}.
Context (bes ber : bool) (garbage : Z).

Abbreviation holds := (DataIStream.holds ber (xorb bes ber)).

Lemma loadSignedChar_spec c ist ws :
  -128 <= c < 128 -> holds ist (saveSignedChar bes c ++ ws) ->
  exists ist', loadSignedChar ber garbage ist = (c, ist') /\ holds ist' ws.
Proof.
  intros Hc Hh. unfold saveSignedChar, write_item in Hh.
  destruct (read_item_spec bes ber 1 (u8 c) garbage ist ws) as (ist' & Hr & Hh'); [lia| |done|].
  { change (256 ^ Z.of_nat 1) with 256. solve_wrap. }
  exists ist'. split; [|done]. unfold loadSignedChar. rewrite Hr. f_equal. solve_wrap.
Qed.

Lemma load_binary_spec mem b ist ws :
  b <> [] -> holds ist (b :: ws) ->
  exists ist', load_binary ber mem (size_of b) ist = (b ++ drop (length b) mem, ist') /\ holds ist' ws.
Proof.
  intros Hb Hh. destruct (read_spec ber (xorb bes ber) ist b ws Hh Hb) as (ist' & Hr & Hh').
  exists ist'. split; [|done]. unfold load_binary. rewrite Hr. f_equal. f_equal.
  unfold size_of. by rewrite Nat2Z.id.
Qed.

(** What [load_int] makes of a saved integer of the given size. *)
Definition load_result (T : IntType) (size v : Z) : Throws Z :=
  if (v <? 0) && negb (is_signed T) then inl ENegative
  else if size >? Z.of_nat (sizeof_ T) then inl (ESize (if v <? 0 then - size else size))
  else inr (cast T v).

Lemma cast_0 T : cast T 0 = 0.
Proof.
  unfold cast. rewrite Zmod_0_l. pose proof (range_pos (sizeof_ T)).
  destruct (Z.leb_spec (range (sizeof_ T)) (2 * 0)); [lia|]. by rewrite andb_false_r.
Qed.

Lemma load_result_0 T : load_result T 0 0 = inr 0.
Proof. unfold load_result. simpl. by rewrite gtb_false, cast_0 by lia. Qed.

(** The memory of [temp] once the bytes are loaded. *)
Lemma load_extended T v k :
  all_sign v k -> (k <= sizeof_ T)%nat ->
  load_little_endian T (le_split k v ++ drop k (replicate (sizeof_ T) (if v <? 0 then 255 else 0)))
  = cast T v.
Proof.
  intros Hs Hk. rewrite drop_replicate, le_split_extend by done.
  rewrite load_little_endian_eq, le_combine_split. apply cast_mod.
Qed.

Lemma load_int_spec T T' v ist ws :
  in_type T v -> (sizeof_ T < 128)%nat -> holds ist (save_int bes T v ++ ws) ->
  exists ist', load_int ber garbage T' ist = (load_result T' (nbytes T v) v, ist') /\
    (forall x, load_result T' (nbytes T v) v = inr x -> holds ist' ws).
Proof.
  intros Hv Hn Hh. unfold save_int in Hh. unfold load_int, nbytes.
  destruct (Z.eqb_spec v 0) as [->|Hv0]; cbn [negb] in Hh.
  { destruct (loadSignedChar_spec 0 ist ws) as (ist' & -> & Hh'); [lia|done|].
    exists ist'. rewrite load_result_0. by split. }
  destruct (nbytes_spec T v Hv Hv0) as (k & Hk & HkT & Hs & _). rewrite Hk in Hh |- *.
  rewrite <-app_assoc in Hh.
  apply loadSignedChar_spec in Hh as (ist1 & -> & Hh1); [|destruct (v >? 0); lia].
  rewrite Nat2Z.id, store_little_endian_eq in Hh1. unfold load_result.
  assert (((if v >? 0 then Z.of_nat (Datatypes.S k) else - Z.of_nat (Datatypes.S k)) <? 0) = (v <? 0)) as ->.
  { destruct (Z.gtb_spec v 0), (Z.ltb_spec v 0); (apply Z.ltb_lt || apply Z.ltb_ge); lia. }
  replace (Z.abs _) with (Z.of_nat (Datatypes.S k)) by (destruct (v >? 0); lia).
  rewrite (proj2 (Z.eqb_neq _ _)) by (destruct (v >? 0); lia). cbn [negb].
  destruct (_ && _); [by exists ist1|].
  destruct (Z.gtb_spec (Z.of_nat (Datatypes.S k)) (Z.of_nat (sizeof_ T'))) as [Hgt|Hle].
  { exists ist1. split; [|done]. do 3 f_equal. destruct (Z.gtb_spec v 0), (Z.ltb_spec v 0); lia. }
  assert (take (Datatypes.S k) (le_split (sizeof_ T) v) = le_split (Datatypes.S k) v) as Htk.
  { replace (sizeof_ T) with (Datatypes.S k + (sizeof_ T - Datatypes.S k))%nat by lia.
    rewrite le_split_app. apply take_app_length'. by rewrite length_le_split. }
  rewrite Htk in Hh1.
  destruct (load_binary_spec (replicate (sizeof_ T') (if v <? 0 then 255 else 0))
    (le_split (Datatypes.S k) v) ist1 ws) as (ist2 & Hl & Hh2); [done|done|].
  rewrite (length_le_split (Datatypes.S k) v) in Hl. unfold size_of in Hl.
  rewrite (length_le_split (Datatypes.S k) v) in Hl. rewrite Hl.
  exists ist2. split; [|done]. rewrite load_extended; [done|done|lia].
Qed.

(** The size of a value of the target type never exceeds that type. *)
Lemma load_result_fits T T' v :
  in_type T v -> in_type T' v -> load_result T' (nbytes T v) v = inr v.
Proof.
  intros Hv Hv'. unfold load_result, nbytes.
  assert ((v <? 0) && negb (is_signed T') = false) as ->.
  { unfold in_type in Hv'. destruct (is_signed T'), (Z.ltb_spec v 0); try done; lia. }
  rewrite cast_in_type by done. destruct (Z.eqb_spec v 0) as [->|Hv0]; [by rewrite gtb_false by lia|].
  destruct (nbytes_spec T v Hv Hv0) as (k & -> & _ & _ & Hmin).
  specialize (Hmin (sizeof_ T') (in_type_sizeof T' v Hv' Hv0) (in_type_all_sign T' v Hv')).
  by rewrite gtb_false by lia.
Qed.

Lemma load_result_negative T size v :
  load_result T size v = inl ENegative <-> v < 0 /\ is_signed T = false.
Proof.
  unfold load_result. destruct (Z.ltb_spec v 0), (is_signed T), (_ >? _); simpl;
    split; try done; intros [? ?]; try done; lia.
Qed.

Lemma load_result_size T size v :
  (exists c, load_result T size v = inl (ESize c)) <->
  ~ (v < 0 /\ is_signed T = false) /\ Z.of_nat (sizeof_ T) < size.
Proof.
  rewrite <-(load_result_negative T size v). unfold load_result.
  destruct (_ && _); [naive_solver|].
  destruct (Z.gtb_spec size (Z.of_nat (sizeof_ T))); naive_solver lia.
Qed.

(** A wrong value is returned only for a signed type of just as many bytes. *)
Lemma load_result_cast T T' v x :
  in_type T v -> load_result T' (nbytes T v) v = inr x ->
  x = cast T' v /\ (x <> v -> is_signed T' = true /\ nbytes T v = Z.of_nat (sizeof_ T')).
Proof.
  intros Hv. unfold load_result. destruct ((v <? 0) && _) eqn:Hneg; [done|].
  destruct (Z.gtb_spec (nbytes T v) (Z.of_nat (sizeof_ T'))) as [|Hle]; [done|].
  intros [= <-]. split; [done|]. intros Hne.
  assert (~ in_type T' v) as Hnt by (by intros ?%cast_in_type).
  assert (v <> 0) as Hv0 by (intros ->; by rewrite cast_0 in Hne).
  unfold nbytes in *. rewrite (proj2 (Z.eqb_neq v 0) Hv0) in *.
  destruct (nbytes_spec T v Hv Hv0) as (k & Hk & _ & Hks & _). rewrite Hk in *.
  assert (v < 0 -> is_signed T' = true) as Hsg.
  { intros Hlt. rewrite (proj2 (Z.ltb_lt v 0) Hlt) in Hneg. by destruct (is_signed T'). }
  destruct (decide (Datatypes.S k < sizeof_ T')%nat) as [Hlt|].
  { destruct Hnt. by eapply all_sign_in_type. }
  assert (sizeof_ T' = Datatypes.S k) as HT by lia. split; [|lia].
  destruct (is_signed T') eqn:Hs; [done|]. destruct Hnt. unfold in_type. rewrite Hs, HT.
  apply all_sign_bounds in Hks. destruct (Z.ltb_spec v 0); [by auto|lia].
Qed.

Lemma load_int_roundtrip T T' v ist ws :
  in_type T v -> (sizeof_ T < 128)%nat -> in_type T' v -> holds ist (save_int bes T v ++ ws) ->
  exists ist', load_int ber garbage T' ist = (inr v, ist') /\ holds ist' ws.
Proof.
  intros Hv Hn Hv' Hh. destruct (load_int_spec T T' v ist ws Hv Hn Hh) as (ist' & Hl & Hr).
  rewrite load_result_fits in Hl, Hr by done. eauto.
Qed.

Lemma load_bool_roundtrip b ist ws :
  holds ist (save_bool bes b ++ ws) ->
  exists ist', load_bool ber garbage ist = (inr b, ist') /\ holds ist' ws.
Proof.
  intros Hh. unfold save_bool in Hh. rewrite <-app_assoc in Hh. unfold load_bool.
  apply loadSignedChar_spec in Hh as (ist1 & -> & Hh1); [|by destruct b].
  destruct b; simpl in *; [|by exists ist1].
  destruct (loadSignedChar_spec 84 ist1 ws) as (ist2 & -> & Hh2); [lia|done|]. by exists ist2.
Qed.

(** A saved [true] is the integer 84 ('T') to an integer load, and a saved
    integer is a boolean only when it is zero or positive and of one byte. *)
Lemma save_bool_is_int : save_bool bes true = save_int bes (U 1) 84.
Proof. unfold save_int. rewrite store_little_endian_eq. by destruct bes. Qed.

Lemma load_bool_of_int T v ist ws :
  in_type T v -> (sizeof_ T < 128)%nat -> holds ist (save_int bes T v ++ ws) -> 0 <= v < 256 ->
  exists ist', load_bool ber garbage ist = (inr (negb (v =? 0)), ist') /\ holds ist' ws.
Proof.
  intros Hv Hn Hh Hr. unfold save_int in Hh. unfold load_bool.
  destruct (Z.eqb_spec v 0) as [->|Hv0]; cbn [negb] in *.
  { destruct (loadSignedChar_spec 0 ist ws) as (ist' & -> & Hh'); [lia|done|]. by exists ist'. }
  destruct (nbytes_spec T v Hv Hv0) as (k & Hk & HkT & _ & Hmin). rewrite Hk in Hh.
  assert (k = 0%nat) as ->.
  { cut (Datatypes.S k <= 1)%nat; [lia|]. apply Hmin; [lia|]. apply all_sign_bounds.
    change (range 1) with 256. destruct (Z.ltb_spec v 0); lia. }
  rewrite gtb_true, <-app_assoc in Hh by lia.
  apply loadSignedChar_spec in Hh as (ist1 & -> & Hh1); [|lia].
  rewrite store_little_endian_eq in Hh1.
  replace (save_binary _) with (saveSignedChar bes (i8 v)) in Hh1.
  2: { unfold saveSignedChar, write_item, save_binary. destruct (sizeof_ T) as [|m]; [lia|].
       cbn [le_split take Z.to_nat Z.of_nat Pos.of_succ_nat Pos.to_nat Pos.iter_op].
       f_equal. unfold enc. replace (u8 (i8 v)) with v by solve_wrap. simpl.
       by destruct bes. }
  apply loadSignedChar_spec in Hh1 as (ist2 & -> & Hh2); [|solve_wrap].
  exists ist2. split; [|done]. simpl. do 3 f_equal. apply negb_true_iff, Z.eqb_neq. solve_wrap.
Qed.

Lemma load_string_roundtrip s old ist ws :
  wf_string s -> holds ist (save_string bes s ++ ws) ->
  exists ist', load_string ber old ist = (s, ist') /\ holds ist' ws.
Proof. intros Hs Hh. destruct (string_ok (S := S) bes ber s Hs) as (_ & _ & Hg). by apply (Hg old). Qed.

(** An empty array is one empty write, which the reader passes over. *)
Lemma load_array_roundtrip n l value ist ws :
  (0 < n)%nat -> Forall (wf_uint n) l -> length value = length l ->
  holds ist (save_array bes n l ++ ws) ->
  exists ist', load_array ber n value ist = (l, ist') /\ holds ist' ws.
Proof.
  intros Hn Hwf Hlen Hh. destruct (decide (l = [])) as [->|Hl]; [|by apply (readArray_spec bes)].
  destruct value; [|done]. apply (holds_parts ber (xorb bes ber) ist []) in Hh.
  pose proof (checkBuffer_holds ber _ ist ws Hh) as Hh1. unfold load_array, readArray, read_.
  destruct (checkBuffer ber ist) as [[] ist1]; cbn [snd length unpack] in *; [|by exists ist1].
  destruct (_ >? _); [by exists ist1|]. eexists. split; [done|].
  destruct Hh1 as (cur & gs & Hws & Hsw & Hp & Hi & H64 & Hd & Hs). exists cur, gs.
  cbn [advance input inputSize position swap source]. change (Z.of_nat (0 * n)) with 0. rewrite Z.add_0_r.
  split_and!; auto; lia.
Qed.

(** *** Floating point values *)

Definition wf_float (n : nat) (t : Z) : Prop := (n = 4%nat \/ n = 8%nat) /\ 0 <= t < range n.

Lemma canonical_cases n t :
  canonical n t = t \/ canonical n t = 0 \/
  canonical n t = Z.lor (ieee_exponent n) (ieee_mantissa n) \/ canonical n t = ieee_exponent n \/
  canonical n t = Z.lor (ieee_exponent n) (ieee_sign n).
Proof.
  unfold canonical. rewrite fp_exponent_eq, fp_mantissa_eq, fp_sign_eq.
  destruct (fpclassify n t); [auto|auto| |auto|auto].
  destruct (ieee_sign n <=? t); rewrite ?Z.mul_1_l, ?Z.mul_0_l, ?Z.lor_0_r; auto 6.
Qed.

(** The chosen pattern is one of the type, of the same class, and chosen again. *)
Lemma canonical_range n t : wf_float n t -> in_type (U n) (canonical n t).
Proof.
  intros Hw. unfold in_type. cbn [is_signed sizeof_ U].
  destruct (canonical_cases n t) as [->|[->|[->|[->| ->]]]]; [apply Hw|..];
    destruct Hw as [[->| ->] _]; by vm_compute.
Qed.

Lemma canonical_class n t : wf_float n t -> fpclassify n (canonical n t) = fpclassify n t.
Proof.
  intros Hw. unfold canonical. rewrite !fpclassify_eq, fp_exponent_eq, fp_mantissa_eq, fp_sign_eq.
  destruct Hw as [[->| ->] _]; destruct (ieee_class _ t) eqn:Hc; try done;
    destruct (ieee_sign _ <=? t); by vm_compute.
Qed.

Lemma canonical_sign n t :
  wf_float n t -> fpclassify n t = FP_INFINITE ->
  (ieee_sign n <=? canonical n t) = (ieee_sign n <=? t).
Proof.
  intros Hw Hc. unfold canonical. rewrite Hc, fp_exponent_eq, fp_sign_eq.
  destruct Hw as [[->| ->] _]; destruct (ieee_sign _ <=? t); by vm_compute.
Qed.

Lemma canonical_idem n t : wf_float n t -> canonical n (canonical n t) = canonical n t.
Proof.
  intros Hw. pose proof (canonical_class n t Hw) as Hc. pose proof (canonical_sign n t Hw) as Hs.
  unfold canonical at 1 3. rewrite Hc. destruct (fpclassify n t) eqn:Ht; try done.
  - by rewrite Hs.
  - unfold canonical. by rewrite Ht.
  - unfold canonical. by rewrite Ht.
Qed.

Lemma wf_float_canonical n t : wf_float n t -> wf_float n (canonical n t).
Proof. intros Hw. split; [apply Hw|]. apply (canonical_range n t Hw). Qed.

Lemma load_float_roundtrip n t denorm_absent ist ws :
  wf_float n t -> (denorm_absent = true -> fpclassify n t <> FP_SUBNORMAL) ->
  holds ist (save_int bes (U n) (canonical n t) ++ ws) ->
  exists ist', load_float ber garbage 0 denorm_absent n ist = (inr (canonical n t), ist') /\
    holds ist' ws.
Proof.
  intros Hw Hd Hh. pose proof (canonical_range n t Hw) as Hr.
  destruct (load_int_roundtrip (U n) (U n) _ ist ws Hr) as (ist' & Hl & Hh'); auto.
  { destruct Hw as [[->| ->] _]; simpl; lia. }
  exists ist'. split; [|done]. unfold load_float. rewrite Hl. cbn [Z.land Z.eqb negb andb].
  rewrite canonical_class by done. destruct denorm_absent; [|done]. simpl.
  by rewrite bool_decide_eq_false_2 by auto.
Qed.

(** *** The header *)

Lemma archive_init_roundtrip ist ws :
  holds ist (DataOStreamArchive_init bes ++ ws) ->
  exists ist', DataIStreamArchive_init ber garbage ist = (inr BOOST_ARCHIVE_VERSION, ist') /\
    holds ist' ws.
Proof.
  intros Hh. unfold DataOStreamArchive_init in Hh. rewrite <-app_assoc in Hh.
  apply loadSignedChar_spec in Hh as (ist1 & Hl & Hh1); [|by vm_compute].
  pose proof archive_version_u16 as Hv.
  unfold save_library_version in Hh1. rewrite u16_small in Hh1 by done.
  destruct (load_int_roundtrip (U 2) (U 2) _ ist1 ws Hv) as (ist2 & Hl2 & Hh2); auto.
  { simpl. lia. }
  exists ist2. split; [|done]. unfold DataIStreamArchive_init, load_library_version.
  rewrite Hl, Z.eqb_refl, Hl2. cbn [negb]. by rewrite gtb_false by lia.
Qed.

End roundtrip.

(** ** Archives of values *)

(** What is saved and loaded one after the other: an integer saved from one type
    and loaded into another, a boolean, a string, a float or an array. *)
Inductive aty :=
  | AInt (T T' : IntType)
  | ABool
  | AString
  | AFloat (n : nat)
  | AArray (n count : nat).

Inductive aval := VInt (z : Z) | VBool (b : bool) | VString (s : bytes) | VFloat (bits : Z) | VArray (a : list Z).

Definition wf_val `{!Boost} (denorm_absent : bool) (t : aty) (v : aval) : Prop :=
  match t, v with
  | AInt T T', VInt z => (sizeof_ T < 128)%nat /\ in_type T z /\ in_type T' z
  | ABool, VBool _ => True
  | AString, VString s => wf_string s
  | AFloat n, VFloat b => wf_float n b /\ (denorm_absent = true -> fpclassify n b <> FP_SUBNORMAL)
  | AArray n count, VArray a => (0 < n)%nat /\ a <> [] /\ length a = count /\ Forall (wf_uint n) a
  | _, _ => False
  end.

(** What a value is once it has been loaded. *)
Definition canonical_val `{!Boost} (t : aty) (v : aval) : aval :=
  match t, v with AFloat n, VFloat b => VFloat (canonical n b) | _, _ => v end.

Section archive.

Context `{!Pression, !Lunchbox, !Boost} {S : Type} `{!BufferSource S}.
Context (bes ber : bool) (garbage : Z) (denorm_absent : bool).

(** The archives are constructed without flags. *)
Definition save_val (t : aty) (v : aval) : Throws (list bytes) :=
  match t, v with
  | AInt T _, VInt z => inr (save_int bes T z)
  | ABool, VBool b => inr (save_bool bes b)
  | AString, VString s => inr (save_string bes s)
  | AFloat n, VFloat b => save_float bes 0 n b
  | AArray n _, VArray a => inr (save_array bes n a)
  | _, _ => inr []
  end.

Fixpoint save_vals (l : list (aty * aval)) : Throws (list bytes) :=
  match l with
  | [] => inr []
  | (t, v) :: l =>
      match save_val t v with
      | inl e => inl e
      | inr ws => match save_vals l with inl e => inl e | inr ws' => inr (ws ++ ws') end
      end
  end.

Definition save_archive (l : list (aty * aval)) : Throws (list bytes) :=
  match save_vals l with inl e => inl e | inr ws => inr (DataOStreamArchive_init bes ++ ws) end.

Definition lift {A} (f : A -> aval) (r : Throws A * DataIStream S) : Throws aval * DataIStream S :=
  (match r.1 with inl e => inl e | inr x => inr (f x) end, r.2).

Definition load_val (t : aty) (ist : DataIStream S) : Throws aval * DataIStream S :=
  match t with
  | AInt _ T => lift VInt (load_int ber garbage T ist)
  | ABool => lift VBool (load_bool ber garbage ist)
  | AString => let '(s, ist) := load_string ber [] ist in (inr (VString s), ist)
  | AFloat n => lift VFloat (load_float ber garbage 0 denorm_absent n ist)
  | AArray n count => let '(a, ist) := load_array ber n (replicate count 0) ist in (inr (VArray a), ist)
  end.

Fixpoint load_vals (ts : list aty) (ist : DataIStream S) : Throws (list aval) * DataIStream S :=
  match ts with
  | [] => (inr [], ist)
  | t :: ts =>
      match load_val t ist with
      | (inl e, ist) => (inl e, ist)
      | (inr v, ist) =>
          match load_vals ts ist with
          | (inl e, ist) => (inl e, ist)
          | (inr vs, ist) => (inr (v :: vs), ist)
          end
      end
  end.

Definition load_archive (ts : list aty) (ist : DataIStream S) : Throws (list aval) * DataIStream S :=
  match DataIStreamArchive_init ber garbage ist with
  | (inl e, ist) => (inl e, ist)
  | (inr _, ist) => load_vals ts ist
  end.

End archive.

Section archives.

Context `{!Pression, !Lunchbox, !LunchboxOk, !Boost, !BoostOk}.
Context {S : Type} `{!BufferSource S, !BufferSourceOk S}.
Context (bes ber : bool) (garbage : Z) (denorm_absent : bool).

Abbreviation holds := (DataIStream.holds ber (xorb bes ber)).

(** Without flags nothing throws, and a float is saved as its canonical pattern. *)
Lemma save_val_ok t v :
  exists ws, save_val bes t v = inr ws.
Proof. destruct t, v; simpl; eauto. Qed.

Lemma save_val_canonical t v :
  wf_val denorm_absent t v -> save_val bes t (canonical_val t v) = save_val bes t v.
Proof.
  destruct t, v; try done. intros [Hw _]. simpl. unfold save_float. simpl.
  by rewrite canonical_idem.
Qed.

Lemma save_int_nonempty T v :
  in_type T v -> save_int bes T v <> [] /\ Forall (.≠ []) (save_int bes T v).
Proof.
  intros Hv. unfold save_int, saveSignedChar, write_item.
  destruct (Z.eqb_spec v 0) as [->|Hv0]; cbn [negb].
  { split; [done|]. constructor; [by apply enc_nonempty; lia|done]. }
  split; [done|]. constructor; [by apply enc_nonempty; lia|]. constructor; [|done].
  destruct (nbytes_spec T v Hv Hv0) as (k & -> & HkT & _). rewrite Nat2Z.id, store_little_endian_eq.
  intros Hn%(f_equal length). rewrite length_take, length_le_split in Hn. cbn [length] in Hn. lia.
Qed.

Lemma save_val_nonempty t v ws :
  wf_val denorm_absent t v -> save_val bes t v = inr ws -> Forall (.≠ []) ws.
Proof.
  destruct t, v; try done; simpl; intros Hw Hs.
  - injection Hs as <-. apply save_int_nonempty, Hw.
  - injection Hs as <-. unfold save_bool, saveSignedChar, write_item.
    destruct b; repeat constructor; by apply enc_nonempty; lia.
  - injection Hs as <-. by apply (string_ok (S := list NextBuffer) bes ber s Hw).
  - revert Hs. unfold save_float. simpl. intros [= <-].
    apply save_int_nonempty. apply canonical_range, Hw.
  - injection Hs as <-. constructor; [|done]. by apply packed_nonempty; apply Hw.
Qed.

Lemma load_val_roundtrip t v ws0 ist ws :
  wf_val denorm_absent t v -> save_val bes t v = inr ws0 -> holds ist (ws0 ++ ws) ->
  exists ist', load_val ber garbage denorm_absent t ist = (inr (canonical_val t v), ist') /\
    holds ist' ws.
Proof.
  destruct t, v; try done; simpl; intros Hw Hs Hh; unfold lift.
  - injection Hs as <-. destruct Hw as (? & ? & ?).
    edestruct (load_int_roundtrip bes ber garbage T T') as (ist' & -> & Hh'); eauto.
  - injection Hs as <-.
    edestruct (load_bool_roundtrip bes ber garbage) as (ist' & -> & Hh'); eauto.
  - injection Hs as <-.
    edestruct (load_string_roundtrip bes ber s []) as (ist' & -> & Hh'); eauto.
  - revert Hs. unfold save_float. simpl. intros [= <-]. destruct Hw as [Hw Hd].
    edestruct (load_float_roundtrip bes ber garbage n bits) as (ist' & -> & Hh'); eauto.
  - injection Hs as <-. destruct Hw as (Hn & _ & <- & Hwf).
    edestruct (load_array_roundtrip bes ber n a (replicate (length a) 0)) as (ist' & -> & Hh'); eauto.
    by rewrite length_replicate.
Qed.

Lemma load_vals_roundtrip l ws0 ist ws :
  Forall (fun tv => wf_val denorm_absent tv.1 tv.2) l -> save_vals bes l = inr ws0 ->
  holds ist (ws0 ++ ws) ->
  exists ist', load_vals ber garbage denorm_absent l.*1 ist
      = (inr ((fun tv => canonical_val tv.1 tv.2) <$> l), ist') /\ holds ist' ws.
Proof.
  intros Hw. revert ws0 ist. induction Hw as [|[t v] l Hv Hw IH]; intros ws0 ist Hs Hh.
  { injection Hs as <-. exists ist. eauto. }
  rewrite !fmap_cons. cbn [save_vals load_vals fst snd] in *.
  destruct (save_val bes t v) as [|w] eqn:Hsv; [done|]. destruct (save_vals bes l) as [|ws1]; [done|].
  injection Hs as <-. rewrite <-app_assoc in Hh.
  destruct (load_val_roundtrip t v w ist _ Hv Hsv Hh) as (ist1 & -> & Hh1).
  destruct (IH ws1 ist1 eq_refl Hh1) as (ist2 & -> & Hh2). eauto.
Qed.

Lemma save_vals_facts l :
  Forall (fun tv => wf_val denorm_absent tv.1 tv.2) l ->
  exists ws, save_vals bes l = inr ws /\ Forall (.≠ []) ws /\
    save_vals bes ((fun tv => (tv.1, canonical_val tv.1 tv.2)) <$> l) = inr ws.
Proof.
  induction 1 as [|[t v] l Hv Hw (ws & IH1 & IH2 & IH3)]; [by exists []|]. rewrite fmap_cons.
  cbn [save_vals fst snd]. rewrite save_val_canonical by done.
  destruct (save_val_ok t v) as (w & Hs). rewrite Hs, IH1, IH3. exists (w ++ ws). split_and!; auto.
  apply Forall_app. split; [|done]. by eapply save_val_nonempty.
Qed.

(** An archive of values as a codec of the typed streams. *)
Definition c_archive (ts : list aty) : codec S (Throws (list aval)) :=
  mkCodec
    (fun r => match r with
              | inl _ => []
              | inr vs => match save_archive bes (zip ts vs) with inl _ => [] | inr ws => ws end
              end)
    (fun _ ist => load_archive ber garbage denorm_absent ts ist).

(** The values as loading returns them. *)
Definition wf_archive (ts : list aty) (r : Throws (list aval)) : Prop :=
  exists l, ts = l.*1 /\ Forall (fun tv => wf_val denorm_absent tv.1 tv.2) l /\
    r = inr ((fun tv => canonical_val tv.1 tv.2) <$> l).

Lemma zip_canonical (l : list (aty * aval)) :
  zip l.*1 ((fun tv => canonical_val tv.1 tv.2) <$> l)
  = (fun tv => (tv.1, canonical_val tv.1 tv.2)) <$> l.
Proof. induction l as [|[t v] l IH]; [done|]. rewrite !fmap_cons. simpl. by rewrite IH. Qed.

Lemma init_nonempty : Forall (.≠ []) (DataOStreamArchive_init bes).
Proof.
  unfold DataOStreamArchive_init, saveSignedChar, write_item, save_library_version.
  pose proof archive_version_u16.
  constructor; [by apply enc_nonempty; lia|]. rewrite u16_small by done.
  by apply save_int_nonempty.
Qed.

Lemma archive_ok ts : codec_ok bes ber (wf_archive ts) (c_archive ts).
Proof.
  intros r (l & -> & Hw & ->). cbn [put get c_archive]. unfold save_archive.
  rewrite zip_canonical. destruct (save_vals_facts l Hw) as (ws0 & Hs & Hne & Hc). rewrite Hc.
  split_and!; [done| |].
  { apply Forall_app. split; [apply init_nonempty|done]. }
  intros _ ist ws Hh. rewrite <-app_assoc in Hh. unfold load_archive.
  destruct (archive_init_roundtrip bes ber garbage ist _ Hh) as (ist1 & -> & Hh1).
  by apply (load_vals_roundtrip l ws0).
Qed.

End archives.

(** ** Instances *)

Definition native_Boost : Boost := {|
  store_little_endian := le_split;
  load_little_endian T l := cast T (le_combine l);
  fp_sign := ieee_sign;
  fp_exponent := ieee_exponent;
  fp_mantissa := ieee_mantissa;
  fpclassify := ieee_class;
  BOOST_ARCHIVE_VERSION := 10;
|}.

Lemma native_BoostOk : @BoostOk native_Boost.
Proof. split; try done. Qed.

(** ** Properties *)

(** C19: Archives transport values.  Whatever sequence of integers, booleans,
    strings, floats and non-empty arrays is saved through a
    [DataOStreamArchive], a [DataIStreamArchive] on a host of either byte order
    accepts the header and loads the same values, and the stream is then
    exhausted.  An integer may be loaded into another type than it was saved
    from, as long as that type can represent it; a float comes back as its
    canonical bit pattern, which differs for a negative zero and the payload of a
    NaN.  With a working compressor both hosts must have the same byte order. *)
Theorem archive_transports `{!Pression, !PressionOk, !Lunchbox, !LunchboxOk, !Boost, !BoostOk}
    bes ber garbage denorm_absent threshold obs name good sv conns (l : list (aty * aval)) ws :
  Forall (fun tv => wf_val denorm_absent tv.1 tv.2) l -> save_archive bes l = inr ws ->
  0 <= obs -> name <> EQ_COMPRESSOR_NONE -> conns <> [] -> (good = true -> bes = ber) ->
  is_u64 (size_of (concat ws)) ->
  let out := (session threshold obs (opened name good sv conns) ws).2 in
  let '(r, ist) := load_archive ber garbage denorm_absent l.*1
                     (DataIStream_init (xorb bes ber) (received bes <$> out)) in
  r = inr ((fun tv => canonical_val tv.1 tv.2) <$> l) /\ (hasData ber ist).1 = false.
Proof.
  intros Hw Hs Ho Hn Hc Hbe H64.
  pose proof (transfer_codec (wf_archive denorm_absent l.*1) bes ber (c_archive bes ber garbage denorm_absent l.*1)
    threshold obs name good sv conns (inr ((fun tv => canonical_val tv.1 tv.2) <$> l)) (inr [])
    (archive_ok bes ber garbage denorm_absent l.*1)) as Ht.
  destruct (save_vals_facts bes ber denorm_absent l Hw) as (ws0 & Hs0 & _ & Hc0).
  assert (put (c_archive (S := list NextBuffer) bes ber garbage denorm_absent l.*1)
    (inr ((fun tv => canonical_val tv.1 tv.2) <$> l)) = ws) as Hput.
  { cbn [put c_archive]. rewrite zip_canonical. unfold save_archive in *. rewrite Hc0.
    rewrite Hs0 in Hs. by injection Hs as <-. }
  rewrite Hput in Ht. apply Ht; auto. by exists l.
Qed.

(** An integer written as int64 and read as int16, a negative zero, a NaN with a
    payload, a string and an array, from a big-endian host to a little-endian
    one in packets of more than four bytes. *)
Definition sample_items : list (aty * aval) :=
  [(AInt (I 8) (I 2), VInt (-129)); (ABool, VBool true); (AString, VString [72; 105]);
   (AFloat 4, VFloat 0x80000000); (AFloat 8, VFloat 0x7ff0000000000001);
   (AFloat 4, VFloat 0xff800000); (AArray 2 2, VArray [258; 3])].

Lemma archive_transports_witness :
  match @save_archive native_Boost true sample_items with
  | inr ws =>
      let out := (@session store_Pression 2 4 (@opened store_Pression 7 false false [0]) ws).2 in
      (1 < length out)%nat /\
      (@load_archive store_Pression native_Lunchbox native_Boost _ _ false 0 false sample_items.*1
        (DataIStream_init true (@received store_Pression true <$> out))).1
      = inr [VInt (-129); VBool true; VString [72; 105]; VFloat 0; VFloat 0x7fffffffffffffff;
             VFloat 0xff800000; VArray [258; 3]]
  | inl _ => False
  end.
Proof.
  destruct (@save_archive native_Boost true sample_items) as [e|ws] eqn:Hs;
    [by vm_compute in Hs|].
  assert (ws = match @save_archive native_Boost true sample_items with inr w => w | _ => [] end)
    as Hws by (by rewrite Hs). intros out.
  split; [unfold out; rewrite Hws; vm_compute; lia|].
  pose proof (@archive_transports store_Pression store_PressionOk native_Lunchbox native_LunchboxOk
    native_Boost native_BoostOk true false 0 false 2 4 7 false false [0] sample_items ws) as H.
  cbv zeta in H. fold out in H. change (xorb true false) with true in H.
  destruct (load_archive _ _ _ _ _) as [r ist]. destruct H as [-> _]; try done; [|by rewrite Hws; vm_compute].
  repeat first [apply Forall_nil_2 | apply Forall_cons_2]; cbn;
    unfold in_type, wf_string, wf_float, wf_uint; cbn; try split_and!; try done; try lia; auto.
  all: try (repeat first [apply Forall_nil_2 | apply Forall_cons_2]; simpl; lia).
Defined.

(** Portable integers are loaded or refused.  Loading an integer that was
    saved from a type [T] into a type [T'] returns the value whenever [T'] can
    represent it, and throws when it is negative and [T'] is unsigned or when
    it has more bytes than [T'].  In between the load returns another value,
    the conversion of [v] to [T'], and only when [T'] is signed and the value
    has exactly as many bytes as [T']. *)
Theorem archive_int_load `{!Pression, !Lunchbox, !LunchboxOk, !Boost, !BoostOk}
    {S : Type} `{!BufferSource S, !BufferSourceOk S} bes ber garbage T T' v (ist : DataIStream S) ws :
  in_type T v -> (sizeof_ T < 128)%nat ->
  DataIStream.holds ber (xorb bes ber) ist (save_int bes T v ++ ws) ->
  let '(r, ist') := load_int ber garbage T' ist in
  (in_type T' v -> r = inr v) /\
  (r = inl ENegative <-> v < 0 /\ is_signed T' = false) /\
  ((exists size, r = inl (ESize size)) <->
     ~ (v < 0 /\ is_signed T' = false) /\ Z.of_nat (sizeof_ T') < nbytes T v) /\
  forall x, r = inr x ->
    x = cast T' v /\ DataIStream.holds ber (xorb bes ber) ist' ws /\
    (x <> v -> is_signed T' = true /\ nbytes T v = Z.of_nat (sizeof_ T')).
Proof.
  intros Hv Hn Hh. destruct (load_int_spec bes ber garbage T T' v ist ws Hv Hn Hh) as (ist' & -> & Hr).
  split; [by apply load_result_fits|]. split; [apply load_result_negative|].
  split; [apply load_result_size|]. intros x Hx.
  destruct (load_result_cast T T' v x Hv Hx) as [-> Hne]. eauto.
Qed.

(** Reading 128, written as a 16-bit integer, into a signed byte gives -128. *)
Lemma archive_int_load_witness :
  let ist := DataIStream_init false [mkNextBuffer 0 1 (concat (@save_int native_Boost false (I 2) 128)) 2 None] in
  let r := (@load_int store_Pression native_Lunchbox native_Boost _ _ false 0 (I 1) ist).1 in
  r = inr (-128) /\ (forall x, r = inr x -> x = cast (I 1) 128) /\ ~ in_type (I 1) 128.
Proof.
  intros ist r. split; [by vm_compute|]. split; [|intros [_ Hx]; by vm_compute in Hx].
  pose proof (@archive_int_load store_Pression native_Lunchbox native_LunchboxOk native_Boost native_BoostOk
    _ _ _ false false 0 (I 2) (I 1) 128 ist []) as H.
  unfold r. destruct (load_int _ _ _ _) as [r' ist']. cbn [fst]. intros x Hx.
  eapply H; [by vm_compute|by vm_compute; lia| |done].
  apply (holds_init _ _ _ _ [_]). eapply supplies_cons; try done. by econstructor.
Defined.
