(* ===== verification/ConnectionSet.v ===== *)
(** * Selecting on connections (connectionSet.cpp, eventConnection.cpp, POSIX branch)

    A [ConnectionSet] polls the file descriptors of its connections together with
    one of its own, the self connection, which other threads use to interrupt a
    running select.  Connections are identifiers; [getNotifier] and [isListening]
    are what the connection objects answer.  The system call [poll] is the
    environment: its return value and the [revents] it writes are the inputs of
    [select], one for every call the loop makes. *)

From S2P Require Import Prelude.

(** ** The event connection: a flag and the bytes in its pipe *)

Record EventConnection := mkEvent { ev_set : bool; ev_pipe : nat }.

Definition EventConnection_connect : EventConnection := mkEvent false 0.
Definition EventConnection_set (e : EventConnection) : EventConnection :=
  if ev_set e then e else mkEvent true (S (ev_pipe e)).
Definition EventConnection_reset (e : EventConnection) : EventConnection :=
  if negb (ev_set e) then e else mkEvent false (pred (ev_pipe e)).

(** The descriptor is readable while the pipe holds a byte. *)
Definition event_ok (e : EventConnection) : Prop := ev_pipe e = if ev_set e then 1%nat else 0%nat.

Lemma event_connect_ok : event_ok EventConnection_connect.
Proof. done. Qed.
Lemma event_set_ok e : event_ok e -> event_ok (EventConnection_set e).
Proof. unfold event_ok, EventConnection_set. destruct (ev_set e) eqn:E; simpl; [by rewrite E|lia]. Qed.
Lemma event_reset_ok e : event_ok e -> event_ok (EventConnection_reset e).
Proof. unfold event_ok, EventConnection_reset. destruct (ev_set e) eqn:E; simpl; [lia|by rewrite E]. Qed.
Lemma event_set_set e : ev_set (EventConnection_set e) = true.
Proof. unfold EventConnection_set. by destruct (ev_set e) eqn:?. Qed.

(** ** The connection set *)

Inductive Event :=
  | EVENT_NONE | EVENT_CONNECT | EVENT_DISCONNECT | EVENT_DATA | EVENT_TIMEOUT
  | EVENT_INTERRUPT | EVENT_ERROR | EVENT_SELECT_ERROR | EVENT_INVALID_HANDLE.

#[export] Instance Event_eq_dec : EqDecision Event.
Proof. solve_decision. Defined.

(** A connection of the result table: the self connection or one of the set. *)
Inductive Res := RSelf | RConn (c : Z).

#[export] Instance Res_eq_dec : EqDecision Res.
Proof. solve_decision. Defined.

(** [events] is always POLLIN. *)
Record pollfd := mkPollfd { fd : Z; revents : Z }.

Definition POLLIN : Z := 1.
Definition POLLPRI : Z := 2.
Definition POLLERR : Z := 8.
Definition POLLHUP : Z := 16.
Definition POLLNVAL : Z := 32.
Definition EINTR : Z := 4.

Record ConnectionSet := mkConnectionSet {
  allConnections : list Z;
  fdSetCopy : list pollfd;
  fdSet : list pollfd;
  fdSetResult : list Res;
  selfConnection : EventConnection;
  connection : option Res;
  error : Z;
  dirty : bool;
  listened : list Z; (* the connections that have this set as a listener *)
}.

Definition ConnectionSet_init : ConnectionSet :=
  mkConnectionSet [] [] [] [] EventConnection_connect None 0 true [].

Definition with_conns (l : list Z) (s : ConnectionSet) : ConnectionSet :=
  mkConnectionSet l (fdSetCopy s) (fdSet s) (fdSetResult s) (selfConnection s) (connection s) (error s)
    (dirty s) (listened s).
Definition with_fds (copy set : list pollfd) (res : list Res) (s : ConnectionSet) : ConnectionSet :=
  mkConnectionSet (allConnections s) copy set res (selfConnection s) (connection s) (error s)
    (dirty s) (listened s).
Definition with_self (e : EventConnection) (s : ConnectionSet) : ConnectionSet :=
  mkConnectionSet (allConnections s) (fdSetCopy s) (fdSet s) (fdSetResult s) e (connection s) (error s)
    (dirty s) (listened s).
Definition with_result (c : option Res) (err : Z) (s : ConnectionSet) : ConnectionSet :=
  mkConnectionSet (allConnections s) (fdSetCopy s) (fdSet s) (fdSetResult s) (selfConnection s) c err
    (dirty s) (listened s).
Definition with_dirty (d : bool) (s : ConnectionSet) : ConnectionSet :=
  mkConnectionSet (allConnections s) (fdSetCopy s) (fdSet s) (fdSetResult s) (selfConnection s)
    (connection s) (error s) d (listened s).
Definition with_listened (l : list Z) (s : ConnectionSet) : ConnectionSet :=
  mkConnectionSet (allConnections s) (fdSetCopy s) (fdSet s) (fdSetResult s) (selfConnection s)
    (connection s) (error s) (dirty s) l.

Definition interrupt (s : ConnectionSet) : ConnectionSet :=
  with_self (EventConnection_set (selfConnection s)) s.

Definition setDirty (s : ConnectionSet) : ConnectionSet :=
  if dirty s then s else interrupt (with_dirty true s).

(** [std::find] and [erase] of the first occurrence. *)
Fixpoint erase (c : Z) (l : list Z) : list Z :=
  match l with
  | [] => []
  | x :: l => if x =? c then l else x :: erase c l
  end.

Definition getSize (s : ConnectionSet) : nat := length (allConnections s).
Definition isEmpty (s : ConnectionSet) : bool :=
  match allConnections s with [] => true | _ => false end.

Definition addConnection (c : Z) (s : ConnectionSet) : ConnectionSet :=
  setDirty (with_listened (listened s ++ [c]) (with_conns (allConnections s ++ [c]) s)).

Definition removeConnection (c : Z) (s : ConnectionSet) : bool * ConnectionSet :=
  if negb (bool_decide (c ∈ allConnections s)) then (false, s)
  else
    let s := if bool_decide (connection s = Some (RConn c)) then with_result None (error s) s else s in
    let s := with_listened (erase c (listened s)) s in
    (true, setDirty (with_conns (erase c (allConnections s)) s)).

Definition clear_ (s : ConnectionSet) : ConnectionSet :=
  let s := with_result None (error s) s in
  let s := with_listened (fold_left (fun l c => erase c l) (allConnections s) (listened s)) s in
  let s := setDirty (with_conns [] s) in
  with_fds (fdSetCopy s) [] [] s.

(** [notifyStateChanged] of a listener. *)
Definition notifyStateChanged (c : Z) (s : ConnectionSet) : ConnectionSet :=
  if bool_decide (c ∈ listened s) then setDirty s else s.

(** What parsing a poll result comes to: an event, the [abort] of the code, or
    an access outside of the result table. *)
Inductive Parsed := PEvent (e : Event) | PAbort | POutOfRange.

Definition has (flags bit : Z) : bool := negb (Z.land flags bit =? 0).

Definition classify (pollEvents : Z) : Parsed :=
  if has pollEvents POLLERR then PEvent EVENT_ERROR
  else if has pollEvents POLLHUP || has pollEvents POLLNVAL then PEvent EVENT_DISCONNECT
  else if has pollEvents POLLIN || has pollEvents POLLPRI then PEvent EVENT_DATA
  else PAbort.

(** The loop of [_parseSelect], the result table indexed along with the fd set;
    returns the outcome, the connection if one was found, and the fd set. *)
Fixpoint parse_loop (fds : list pollfd) (results : list Res) : Parsed * option Res * list pollfd :=
  match fds with
  | [] => (PEvent EVENT_NONE, None, [])
  | pollFD :: fds =>
      if revents pollFD =? 0 then
        let '(r, c, fds) := parse_loop fds (tail results) in (r, c, pollFD :: fds)
      else
        let pollEvents := revents pollFD in
        let fds := mkPollfd (fd pollFD) 0 :: fds in
        match head results with
        | None => (POutOfRange, None, fds)
        | Some c => (classify pollEvents, Some c, fds)
        end
  end.

Definition parseSelect (s : ConnectionSet) : Parsed * ConnectionSet :=
  let '(r, c, fds) := parse_loop (fdSet s) (fdSetResult s) in
  let s := with_fds (fdSetCopy s) fds (fdSetResult s) s in
  (r, match c with None => s | Some c => with_result (Some c) (error s) s end).

Section select.

Context (selfNotifier : Z) (getNotifier : Z -> Z) (isListening : Z -> bool).

Definition getSelectResult (s : ConnectionSet) : Parsed * ConnectionSet :=
  let '(event, s) := parseSelect s in
  match connection s with
  | Some RSelf =>
      (PEvent EVENT_INTERRUPT,
       with_self (EventConnection_reset (selfConnection s)) (with_result None (error s) s))
  | Some (RConn c) =>
      if match event with PEvent EVENT_DATA => isListening c | _ => false end
      then (PEvent EVENT_CONNECT, s) else (event, s)
  | None => (event, s)
  end.

(** The loop over the connections: [Some c] when [c] has no descriptor. *)
Fixpoint setup_loop (conns : list Z) (fds : list pollfd) (results : list Res) :
    option Z * list pollfd * list Res :=
  match conns with
  | [] => (None, fds, results)
  | c :: conns =>
      if getNotifier c <=? 0 then (Some c, fds, results)
      else setup_loop conns (fds ++ [mkPollfd (getNotifier c) 0]) (results ++ [RConn c])
  end.

(** The parts of [_setupFDSet]: the clean set, the start of a rebuild and the
    rebuild from the connection list, which holds the lock. *)
Definition setup_copy (s : ConnectionSet) : ConnectionSet :=
  with_fds (fdSetCopy s) (fdSetCopy s) (fdSetResult s) s.
Definition setup_begin (s : ConnectionSet) : ConnectionSet :=
  with_fds (fdSetCopy s) [] [] (with_dirty false s).
Definition setup_build (s : ConnectionSet) : bool * ConnectionSet :=
  match setup_loop (allConnections s) [mkPollfd selfNotifier 0] [RSelf] with
  | (Some c, fds, results) =>
      (false, with_result (Some (RConn c)) (error s) (with_fds (fdSetCopy s) fds results s))
  | (None, fds, results) => (true, with_fds fds fds results s)
  end.

Definition setupFDSet (s : ConnectionSet) : bool * ConnectionSet :=
  if negb (dirty s) then (true, setup_copy s) else setup_build (setup_begin s).

(** What [poll] returns, with the [revents] it writes on success. *)
Inductive PollRet := PollTimeout | PollError (errno : Z) | PollReady (revs : list Z).

Definition write_revents (revs : list Z) (fds : list pollfd) : list pollfd :=
  zip_with (fun p r => mkPollfd (fd p) r) fds revs.

(** [select], given what the calls to [poll] return; [Waiting] is a select that
    blocks in the next one. *)
Inductive Selected := Returned (p : Parsed) | Waiting.

Fixpoint select (rets : list PollRet) (s : ConnectionSet) : Selected * ConnectionSet :=
  let s := with_result None 0 s in
  let '(r, s) := if negb (dirty s) then getSelectResult s else (PEvent EVENT_NONE, s) in
  match r with
  | PEvent EVENT_NONE =>
      let '(ok, s) := setupFDSet s in
      if negb ok then (Returned (PEvent EVENT_INVALID_HANDLE), s)
      else
        match rets with
        | [] => (Waiting, s)
        | PollTimeout :: _ => (Returned (PEvent EVENT_TIMEOUT), s)
        | PollError errno :: rets =>
            if errno =? EINTR then select rets s
            else (Returned (PEvent EVENT_SELECT_ERROR), with_result (connection s) errno s)
        | PollReady revs :: rets =>
            let s := with_fds (fdSetCopy s) (write_revents revs (fdSet s)) (fdSetResult s) s in
            let '(r, s) := getSelectResult s in
            match r with
            | PEvent EVENT_NONE => select rets s
            | _ => (Returned r, s)
            end
        end
  | _ => (Returned r, s)
  end.

End select.

(** ** Lists of connections *)

Lemma erase_perm c l : c ∈ l -> l ≡ₚ c :: erase c l.
Proof.
  induction l as [|x l IH]; intros Hc; [by apply not_elem_of_nil in Hc|]. simpl.
  destruct (Z.eqb_spec x c) as [->|Hne]; [done|].
  rewrite (IH ltac:(set_solver)) at 1. apply Permutation_swap.
Qed.

Lemma erase_proper c l1 l2 : l1 ≡ₚ l2 -> erase c l1 ≡ₚ erase c l2.
Proof.
  intros Hl. destruct (decide (c ∈ l1)) as [Hc|Hc].
  - apply (Permutation_cons_inv (a := c)). rewrite <-!erase_perm; [done| |done]. by rewrite <-Hl.
  - assert (forall l, c ∉ l -> erase c l = l) as Hn.
    { clear. induction l as [|x l IH]; [done|]. simpl. intros Hc.
      destruct (Z.eqb_spec x c) as [->|]; [set_solver|]. f_equal. apply IH. set_solver. }
    rewrite !Hn; [done| |done]. by rewrite <-Hl.
Qed.

Lemma erase_subset c l : erase c l ⊆ l.
Proof.
  induction l as [|x l IH]; [done|]. simpl. destruct (x =? c); set_solver.
Qed.

(** ** Poll results *)

(** [poll] reports what was asked for, POLLIN, and the error conditions. *)
Definition legal (r : Z) : Prop :=
  Z.land r (Z.lor POLLIN (Z.lor POLLERR (Z.lor POLLHUP POLLNVAL))) = r.

Lemma classify_legal r :
  legal r -> r <> 0 ->
  classify r ∈ [PEvent EVENT_ERROR; PEvent EVENT_DISCONNECT; PEvent EVENT_DATA].
Proof.
  intros Hl Hr. unfold classify.
  destruct (has r POLLERR) eqn:H1; [set_solver|].
  destruct (has r POLLHUP) eqn:H2; [set_solver|].
  destruct (has r POLLNVAL) eqn:H3; [set_solver|].
  destruct (has r POLLIN) eqn:H4; [set_solver|].
  unfold has in *. apply negb_false_iff, Z.eqb_eq in H1, H2, H3, H4.
  destruct Hr. rewrite <-Hl, !Z.land_lor_distr_r, H1, H2, H3, H4. done.
Qed.

(** The first entry with events is cleared and reported, with its connection. *)
Lemma parse_loop_none fds results :
  Forall (fun p => revents p = 0) fds -> parse_loop fds results = (PEvent EVENT_NONE, None, fds).
Proof.
  intros Hz. revert results. induction Hz as [|p fds Hp _ IH]; intros results; [done|].
  simpl. by rewrite Hp, IH.
Qed.

Lemma parse_loop_first pre p post results c :
  Forall (fun p => revents p = 0) pre -> revents p <> 0 -> results !! length pre = Some c ->
  parse_loop (pre ++ p :: post) results
  = (classify (revents p), Some c, pre ++ mkPollfd (fd p) 0 :: post).
Proof.
  intros Hz Hp. revert results. induction Hz as [|q pre Hq _ IH]; intros [|x results] Hc; try done.
  - simpl in *. injection Hc as ->. by rewrite (proj2 (Z.eqb_neq _ _) Hp).
  - simpl. rewrite Hq. simpl. by rewrite IH.
Qed.

(** Every fd set is quiet or has a first entry with events. *)
Lemma first_event fds :
  Forall (fun p => revents p = 0) fds \/
  exists pre p post, fds = pre ++ p :: post /\ Forall (fun p => revents p = 0) pre /\ revents p <> 0.
Proof.
  induction fds as [|p fds IH]; [by left|]. destruct (decide (revents p = 0)) as [Hp|Hp].
  - destruct IH as [IH|(pre & q & post & -> & Hz & Hq)]; [left; by constructor|right].
    exists (p :: pre), q, post. split_and!; auto.
  - right. by exists [], p, fds.
Qed.

Section invariant.

Context (selfNotifier : Z) (getNotifier : Z -> Z) (isListening : Z -> bool).

(** A clean set: the result table is the self connection and the connections of
    the set, in order, and the descriptors are theirs. *)
Definition table (conns : list Z) : list Res := RSelf :: (RConn <$> conns).
Definition clean_fds (conns : list Z) : list pollfd :=
  (fun n => mkPollfd n 0) <$> (selfNotifier :: (getNotifier <$> conns)).

Record aligned (s : ConnectionSet) : Prop := mkAligned {
  al_result : fdSetResult s = table (allConnections s);
  al_copy : fdSetCopy s = clean_fds (allConnections s);
  al_fds : fd <$> fdSet s = fd <$> fdSetCopy s;
  al_legal : Forall (fun p => legal (revents p)) (fdSet s);
}.

Lemma setup_loop_spec conns fds results :
  match setup_loop getNotifier conns fds results with
  | (None, fds', results') =>
      fds' = fds ++ ((fun c => mkPollfd (getNotifier c) 0) <$> conns) /\
      results' = results ++ (RConn <$> conns)
  | (Some c, _, _) => c ∈ conns /\ getNotifier c <= 0
  end.
Proof.
  revert fds results. induction conns as [|c conns IH]; intros fds results; simpl.
  { by rewrite !app_nil_r. }
  destruct (Z.leb_spec (getNotifier c) 0); [set_solver|].
  specialize (IH (fds ++ [mkPollfd (getNotifier c) 0]) (results ++ [RConn c])).
  destruct (setup_loop _ _ _ _) as [[[c'|] fds'] results']; [set_solver|].
  destruct IH as [-> ->]. by rewrite <-!app_assoc.
Qed.

(** What [_setupFDSet] keeps, and what it establishes when it succeeds. *)
Lemma setupFDSet_spec s :
  (dirty s = false -> aligned s) ->
  match setupFDSet selfNotifier getNotifier s with
  | (true, s') => aligned s' /\ fdSet s' = fdSetCopy s' /\ connection s' = connection s
  | (false, s') => exists c, connection s' = Some (RConn c) /\ c ∈ allConnections s /\ getNotifier c <= 0
  end.
Proof.
  intros Hal. unfold setupFDSet. destruct (dirty s) eqn:Hd; simpl.
  - unfold setup_build, setup_begin. simpl.
    pose proof (setup_loop_spec (allConnections s) [mkPollfd selfNotifier 0] [RSelf]) as Hl.
    destruct (setup_loop _ _ _ _) as [[[c|] fds] results]; simpl.
    + by exists c.
    + destruct Hl as [-> ->]. split_and!; [|done|done]. split; simpl; try done.
      * unfold clean_fds. rewrite !fmap_cons, <-list_fmap_compose. done.
      * constructor; [done|]. by apply Forall_fmap, Forall_true.
  - specialize (Hal eq_refl) as [H1 H2 H3 H4]. split_and!; [|done|done].
    split; simpl; auto. rewrite H2. by apply Forall_fmap, Forall_true.
Qed.

Lemma setupFDSet_frame s :
  let s' := (setupFDSet selfNotifier getNotifier s).2 in
  allConnections s' = allConnections s /\ listened s' = listened s /\
  selfConnection s' = selfConnection s /\ dirty s' = false.
Proof.
  unfold setupFDSet. destruct (dirty s) eqn:Hd; simpl; [|done].
  unfold setup_build. destruct (setup_loop _ _ _ _) as [[[c|] fds] results]; done.
Qed.

(** What select may report about a connection: a member of the set. *)
Definition reports (s : ConnectionSet) (e : Event) : Prop :=
  match e with
  | EVENT_CONNECT => exists c, connection s = Some (RConn c) /\ c ∈ allConnections s /\ isListening c = true
  | EVENT_DATA => exists c, connection s = Some (RConn c) /\ c ∈ allConnections s /\ isListening c = false
  | EVENT_DISCONNECT | EVENT_ERROR => exists c, connection s = Some (RConn c) /\ c ∈ allConnections s
  | EVENT_INTERRUPT => connection s = None /\ ev_set (selfConnection s) = false
  | EVENT_TIMEOUT | EVENT_SELECT_ERROR => connection s = None
  | EVENT_INVALID_HANDLE =>
      exists c, connection s = Some (RConn c) /\ c ∈ allConnections s /\ getNotifier c <= 0
  | EVENT_NONE => False
  end.

(** What one entry with events makes of a select: the event and [getConnection]. *)
Definition report (c : Res) (pollEvents : Z) : Parsed * option Res :=
  match c with
  | RSelf => (PEvent EVENT_INTERRUPT, None)
  | RConn c =>
      (match classify pollEvents with
       | PEvent EVENT_DATA => if isListening c then PEvent EVENT_CONNECT else PEvent EVENT_DATA
       | e => e
       end, Some (RConn c))
  end.

(** The reports a polled set still holds. *)
Fixpoint pending (fds : list pollfd) (results : list Res) : list (Parsed * option Res) :=
  match fds, results with
  | p :: fds, c :: results =>
      if revents p =? 0 then pending fds results else report c (revents p) :: pending fds results
  | _, _ => []
  end.

Lemma pending_none fds results : Forall (fun p => revents p = 0) fds -> pending fds results = [].
Proof.
  intros Hz. revert results. induction Hz as [|p fds Hp _ IH]; intros [|c results]; try done.
  simpl. by rewrite Hp, IH.
Qed.

Lemma pending_first pre p post results c :
  Forall (fun p => revents p = 0) pre -> revents p <> 0 -> results !! length pre = Some c ->
  pending (pre ++ p :: post) results
  = report c (revents p) :: pending (pre ++ mkPollfd (fd p) 0 :: post) results.
Proof.
  intros Hz Hp. revert results.
  induction Hz as [|q pre Hq _ IH]; intros [|x results] Hc; try done.
  - simpl in *. injection Hc as ->. by rewrite (proj2 (Z.eqb_neq _ _) Hp).
  - simpl in *. rewrite Hq. simpl. by rewrite (IH results).
Qed.

Lemma aligned_length s : aligned s -> length (fdSet s) = length (fdSetResult s).
Proof.
  intros [H1 H2 H3 _]. apply (f_equal length) in H3. rewrite H2 in H3. rewrite H1.
  unfold clean_fds, table in *. rewrite !length_fmap in H3. simpl in *. by rewrite !length_fmap in *.
Qed.

(** The fields a result of the previous poll leaves as they are. *)
Definition same_set (s s' : ConnectionSet) : Prop :=
  allConnections s' = allConnections s /\ listened s' = listened s /\ dirty s' = dirty s.

Lemma getSelectResult_none s :
  connection s = None -> Forall (fun p => revents p = 0) (fdSet s) ->
  getSelectResult isListening s = (PEvent EVENT_NONE, with_fds (fdSetCopy s) (fdSet s) (fdSetResult s) s).
Proof.
  intros Hc Hz. unfold getSelectResult, parseSelect. rewrite parse_loop_none by done. simpl.
  by rewrite Hc.
Qed.

Lemma reported s pre p post :
  aligned s -> fdSet s = pre ++ p :: post -> Forall (fun p => revents p = 0) pre -> revents p <> 0 ->
  exists c, fdSetResult s !! length pre = Some c /\
    getSelectResult isListening s = ((report c (revents p)).1,
      let s := with_fds (fdSetCopy s) (pre ++ mkPollfd (fd p) 0 :: post) (fdSetResult s) s in
      match c with
      | RSelf => with_self (EventConnection_reset (selfConnection s)) (with_result None (error s) s)
      | RConn c => with_result (Some (RConn c)) (error s) s
      end).
Proof.
  intros Hal Hf Hz Hp. pose proof (aligned_length s Hal) as Hlen.
  destruct (lookup_lt_is_Some_2 (fdSetResult s) (length pre)) as [c Hc].
  { rewrite <-Hlen, Hf, length_app. simpl. lia. }
  exists c. split; [done|]. unfold getSelectResult, parseSelect.
  rewrite Hf, (parse_loop_first pre p post _ c) by done. destruct c as [|c]; [done|]. simpl.
  destruct (classify (revents p)) as [[]| |]; try done. by destruct (isListening c).
Qed.

Lemma getSelectResult_spec s :
  aligned s -> connection s = None ->
  match pending (fdSet s) (fdSetResult s) with
  | [] => Forall (fun p => revents p = 0) (fdSet s)
  | r :: rest =>
      exists s', getSelectResult isListening s = (r.1, s') /\ connection s' = r.2 /\ aligned s' /\
        pending (fdSet s') (fdSetResult s') = rest /\ same_set s s' /\
        (event_ok (selfConnection s) -> event_ok (selfConnection s')) /\
        exists e, r.1 = PEvent e /\ reports s' e
  end.
Proof.
  intros Hal Hc. destruct (first_event (fdSet s)) as [Hz|(pre & p & post & Hf & Hz & Hp)].
  { by rewrite pending_none. }
  destruct (reported s pre p post Hal Hf Hz Hp) as (c & Hlc & Hget).
  rewrite Hf, (pending_first _ _ _ _ c) by done. eexists. split; [exact Hget|].
  destruct Hal as [H1 H2 H3 H4].
  assert (legal (revents p)) as Hlp.
  { rewrite Hf in H4. by apply Forall_app in H4 as [_ [? ?]%Forall_cons]. }
  assert (Forall (fun p => legal (revents p)) (pre ++ mkPollfd (fd p) 0 :: post)) as Hl'.
  { rewrite Hf in H4. apply Forall_app in H4 as [Ha [_ Hb]%Forall_cons].
    apply Forall_app. split; [done|]. by constructor. }
  assert (fd <$> (pre ++ mkPollfd (fd p) 0 :: post) = fd <$> fdSetCopy s) as Hfd.
  { rewrite <-H3, Hf, !fmap_app. done. }
  pose proof (classify_legal _ Hlp Hp) as Hcl.
  rewrite H1 in Hlc. destruct (length pre) as [|k]; simpl in Hlc.
  - injection Hlc as <-. simpl. split_and!; try done.
    { by apply event_reset_ok. }
    exists EVENT_INTERRUPT. split; [done|]. split; [done|]. simpl.
    unfold EventConnection_reset. by destruct (ev_set (selfConnection s)) eqn:E; rewrite ?E.
  - apply list_lookup_fmap_Some in Hlc as (c' & -> & Hk). simpl.
    apply list_elem_of_lookup_2 in Hk as Hin. split_and!; try done.
    repeat apply elem_of_cons in Hcl as [->|Hcl]; [..|by apply elem_of_nil in Hcl].
    + exists EVENT_ERROR. simpl. eauto.
    + exists EVENT_DISCONNECT. simpl. eauto.
    + destruct (isListening c') eqn:Hl; eexists; split; try done; simpl; eauto.
Qed.

(** ** Select *)

Definition poll_ok (n : nat) (r : PollRet) : Prop :=
  match r with PollReady revs => length revs = n /\ Forall legal revs | _ => True end.

Definition set_inv (s : ConnectionSet) : Prop :=
  listened s ≡ₚ allConnections s /\ event_ok (selfConnection s) /\ (dirty s = false -> aligned s).

Lemma aligned_write s revs :
  aligned s -> length revs = S (length (allConnections s)) -> Forall legal revs ->
  aligned (with_fds (fdSetCopy s) (write_revents revs (fdSet s)) (fdSetResult s) s).
Proof.
  intros Hal Hlen Hl. pose proof (aligned_length s Hal) as Hfl. destruct Hal as [H1 H2 H3 H4].
  rewrite H1 in Hfl. unfold table in Hfl. simpl in Hfl. rewrite length_fmap in Hfl.
  split; simpl; auto.
  - rewrite <-H3. unfold write_revents. rewrite <-Hlen in Hfl. clear -Hfl. revert revs Hfl.
    induction (fdSet s) as [|p fds IH]; intros [|r revs] Hfl; simpl in *; try done; try lia.
    f_equal. apply IH. lia.
  - unfold write_revents. clear -Hl. revert revs Hl. induction (fdSet s) as [|p fds IH];
      intros [|r revs] Hl; simpl; try constructor; try by apply Forall_cons in Hl as [? ?].
    apply IH. by apply Forall_cons in Hl as [? ?].
Qed.

(** A select that waits has a clean, quiet set of the current descriptors. *)
Definition select_ok (s0 s : ConnectionSet) (r : Selected) : Prop :=
  allConnections s = allConnections s0 /\ listened s = listened s0 /\
  event_ok (selfConnection s) /\
  match r with
  | Waiting => dirty s = false /\ aligned s /\ fdSet s = clean_fds (allConnections s)
  | Returned p => exists e, p = PEvent e /\ reports s e /\
      (e <> EVENT_INVALID_HANDLE -> dirty s = false /\ aligned s)
  end.

(** The part of a pass before the call of [poll]: a report, or a set to poll. *)
Lemma select_unfold rets s :
  select selfNotifier getNotifier isListening rets s =
  let s := with_result None 0 s in
  let '(r, s) := if negb (dirty s) then getSelectResult isListening s else (PEvent EVENT_NONE, s) in
  match r with
  | PEvent EVENT_NONE =>
      let '(ok, s) := setupFDSet selfNotifier getNotifier s in
      if negb ok then (Returned (PEvent EVENT_INVALID_HANDLE), s)
      else
        match rets with
        | [] => (Waiting, s)
        | PollTimeout :: _ => (Returned (PEvent EVENT_TIMEOUT), s)
        | PollError errno :: rets =>
            if errno =? EINTR then select selfNotifier getNotifier isListening rets s
            else (Returned (PEvent EVENT_SELECT_ERROR), with_result (connection s) errno s)
        | PollReady revs :: rets =>
            let s := with_fds (fdSetCopy s) (write_revents revs (fdSet s)) (fdSetResult s) s in
            let '(r, s) := getSelectResult isListening s in
            match r with
            | PEvent EVENT_NONE => select selfNotifier getNotifier isListening rets s
            | _ => (Returned r, s)
            end
        end
  | _ => (Returned r, s)
  end.
Proof. by destruct rets. Qed.

Lemma aligned_result c err s : aligned s -> aligned (with_result c err s).
Proof. by intros [? ? ? ?]. Qed.

(** Parsing a result ends the select with a report, or finds the set quiet. *)
Lemma getSelectResult_ok s0 s :
  aligned s -> connection s = None -> event_ok (selfConnection s) -> dirty s = false ->
  allConnections s = allConnections s0 -> listened s = listened s0 ->
  let '(r, s') := getSelectResult isListening s in
  (r = PEvent EVENT_NONE /\ s' = with_fds (fdSetCopy s) (fdSet s) (fdSetResult s) s) \/
  (r <> PEvent EVENT_NONE /\ select_ok s0 s' (Returned r)).
Proof.
  intros Hal Hc Hev Hd Ha Hl. pose proof (getSelectResult_spec s Hal Hc) as Hs.
  destruct (pending _ _) as [|r rest].
  { rewrite getSelectResult_none by done. by left. }
  destruct Hs as (s' & -> & Hc' & Hal' & _ & (H1 & H2 & H3) & Hev' & e & -> & Hr). right. split.
  { intros [= ->]. done. }
  split_and!; [congruence|congruence|auto|]. exists e. split_and!; auto. intros _. split; congruence || done.
Qed.

Lemma inv_with_fds s :
  set_inv s -> set_inv (with_fds (fdSetCopy s) (fdSet s) (fdSetResult s) s).
Proof. intros (H1 & H2 & H3). split_and!; auto. intros Hd. destruct (H3 Hd). by split. Qed.

Lemma select_ok_trans s0 s1 s2 r :
  allConnections s1 = allConnections s0 -> listened s1 = listened s0 ->
  select_ok s1 s2 r -> select_ok s0 s2 r.
Proof. intros H1 H2 (H3 & H4 & H5). split; [congruence|]. split; [congruence|done]. Qed.

(** Before [poll]: the results of the previous one, then the descriptors. *)
Lemma select_results s :
  set_inv s ->
  let s0 := with_result None 0 s in
  let '(r, s1) := if negb (dirty s0) then getSelectResult isListening s0 else (PEvent EVENT_NONE, s0) in
  (r = PEvent EVENT_NONE /\ set_inv s1 /\ connection s1 = None /\
     allConnections s1 = allConnections s /\ listened s1 = listened s) \/
  (r <> PEvent EVENT_NONE /\ select_ok s s1 (Returned r)).
Proof.
  intros (Hls & Hev & Hal). cbn [with_result dirty].
  assert (set_inv (with_result None 0 s)) as Hinv.
  { split_and!; auto. intros. apply aligned_result. auto. }
  destruct (dirty s) eqn:Hd; cbn [negb]; [by left|].
  pose proof (getSelectResult_ok s (with_result None 0 s)) as Hg.
  destruct (getSelectResult _ _) as [r s1].
  destruct Hg as [[-> ->]|?]; [by apply aligned_result, Hal|done..|by left|by right].
Qed.

Lemma select_setup s :
  set_inv s -> connection s = None ->
  let '(ok, s') := setupFDSet selfNotifier getNotifier s in
  allConnections s' = allConnections s /\ listened s' = listened s /\
  if (ok : bool) then set_inv s' /\ select_ok s s' Waiting /\ connection s' = None
  else select_ok s s' (Returned (PEvent EVENT_INVALID_HANDLE)).
Proof.
  intros (Hls & Hev & Hal) Hc. pose proof (setupFDSet_spec s Hal) as Hset.
  pose proof (setupFDSet_frame s) as (Ha & Hl & Hsf & Hd).
  destruct (setupFDSet _ _ s) as [[] s']; cbn [snd] in *; (split; [done|split; [done|]]).
  - destruct Hset as (Hal2 & Hq & Hc2). split.
    { unfold set_inv. rewrite Hl, Ha, Hsf. auto. }
    split; [|congruence]. unfold select_ok. rewrite Hsf. split_and!; auto. rewrite Hq. apply Hal2.
  - destruct Hset as (c & Hc' & Hin & Hn). unfold select_ok. rewrite Hsf. split_and!; auto.
    exists EVENT_INVALID_HANDLE. split; [done|]. split; [|done]. exists c. by rewrite Ha.
Qed.

Lemma select_spec rets s :
  set_inv s -> Forall (poll_ok (S (length (allConnections s)))) rets ->
  let '(r, s') := select selfNotifier getNotifier isListening rets s in select_ok s s' r.
Proof.
  revert s. induction rets as [|ret rets IH]; intros s Hinv Hrets; rewrite select_unfold; cbv zeta;
    pose proof (select_results s Hinv) as Hres; cbv zeta in Hres;
    destruct (if negb _ then _ else _) as [r s1];
    (destruct Hres as [(-> & Hi1 & Hc1 & Ha1 & Hl1)|[Hr Hok]]; [|by destruct r as [[]| |]]);
    pose proof (select_setup s1 Hi1 Hc1) as Hset;
    destruct (setupFDSet _ _ s1) as [[] s2]; destruct Hset as (Ha2 & Hl2 & Hset); cbn [negb];
    try by apply (select_ok_trans s s1).
  all: destruct Hset as (Hi2 & Hw2 & Hc2); apply (select_ok_trans s s1) in Hw2; [|done|done].
  { done. }
  apply Forall_cons in Hrets as [Hret Hrets]. destruct Hw2 as (Ha & Hl & Hev & Hd & Hal & Hq).
  destruct ret as [|errno|revs].
  - split_and!; auto. exists EVENT_TIMEOUT. split_and!; auto.
  - destruct (errno =? EINTR).
    + specialize (IH s2 Hi2). rewrite Ha in IH. specialize (IH Hrets).
      destruct (select _ _ _ rets s2). by apply (select_ok_trans s s2).
    + split_and!; auto. exists EVENT_SELECT_ERROR. split_and!; auto. intros _. by split; [|apply aligned_result].
  - destruct Hret as [Hlen Hleg]. rewrite <-Ha in Hlen.
    pose proof (aligned_write s2 revs Hal Hlen Hleg) as Hal3.
    pose proof (getSelectResult_ok s _ Hal3 Hc2 Hev Hd Ha Hl) as Hg.
    destruct (getSelectResult _ _) as [r s3]. destruct Hg as [[-> ->]|[Hne Hok]].
    + match goal with |- context [select _ _ _ rets ?x] => specialize (IH x); set (s3 := x) in * end.
      assert (set_inv s3) as Hi3.
      { apply (inv_with_fds (with_fds (fdSetCopy s2) (write_revents revs (fdSet s2)) (fdSetResult s2) s2)).
        destruct Hi2 as (? & ? & _). by split_and!. }
      specialize (IH Hi3). cbn in IH. rewrite Ha in IH. specialize (IH Hrets).
      destruct (select _ _ _ rets s3). by apply (select_ok_trans s s3).
    + by destruct r as [[]| |].
Qed.

End invariant.

(** ** A set in use

    The threads of a node add and remove connections, interrupt the set and
    change the state, and with it the descriptor, of a connection; the receiver
    thread selects and removes a connection that was disconnected or has no
    descriptor, as [LocalNode::_handleDisconnect] does. *)

Record World := mkWorld { w_set : ConnectionSet; w_notifier : Z -> Z; w_errors : Z }.

(** What the receiver thread does about an event, and its count of errors in a
    row; [LBUNIMPLEMENTED] is an action of its own. *)
Inductive Action := HandleConnect | HandleData | HandleDisconnect | RedispatchCommands | Nothing | Unimplemented.

#[export] Instance Action_eq_dec : EqDecision Action.
Proof. solve_decision. Defined.

Definition receiver_switch (result : Event) (nErrors : Z) : Action * Z :=
  let '(a, nErrors) :=
    match result with
    | EVENT_CONNECT => (HandleConnect, nErrors)
    | EVENT_DATA => (HandleData, nErrors)
    | EVENT_DISCONNECT | EVENT_INVALID_HANDLE => (HandleDisconnect, nErrors)
    | EVENT_TIMEOUT => (Nothing, nErrors)
    | EVENT_ERROR => (if nErrors + 1 >? 100 then HandleDisconnect else Nothing, nErrors + 1)
    | EVENT_SELECT_ERROR => (if nErrors + 1 >? 10 then Unimplemented else Nothing, nErrors + 1)
    | EVENT_INTERRUPT => (RedispatchCommands, nErrors)
    | EVENT_NONE => (Unimplemented, nErrors)
    end in
  (a, if negb (bool_decide (result = EVENT_ERROR)) && negb (bool_decide (result = EVENT_SELECT_ERROR))
      then 0 else nErrors).

Inductive Op :=
  | OpAdd (c : Z)
  | OpRemove (c : Z)
  | OpInterrupt
  | OpState (c n : Z)
  | OpSelect (rets : list PollRet).

Section world.

Context (selfNotifier : Z) (isListening : Z -> bool).

(** The receiver thread after a select; what the handlers of the other actions do
    to the set are operations of their own. *)
Definition serve (r : Selected) (nErrors : Z) (s : ConnectionSet) : ConnectionSet * Z :=
  match r with
  | Returned (PEvent e) =>
      let '(a, nErrors) := receiver_switch e nErrors in
      (match a, connection s with
       | HandleDisconnect, Some (RConn c) => (removeConnection c s).2
       | _, _ => s
       end, nErrors)
  | _ => (s, nErrors)
  end.

Definition do_op (o : Op) (w : World) : option Selected * World :=
  match o with
  | OpAdd c => (None, mkWorld (addConnection c (w_set w)) (w_notifier w) (w_errors w))
  | OpRemove c => (None, mkWorld (removeConnection c (w_set w)).2 (w_notifier w) (w_errors w))
  | OpInterrupt => (None, mkWorld (interrupt (w_set w)) (w_notifier w) (w_errors w))
  | OpState c n => (None, mkWorld (notifyStateChanged c (w_set w)) (fset (w_notifier w) c n) (w_errors w))
  | OpSelect rets =>
      let '(r, s) := select selfNotifier (w_notifier w) isListening rets (w_set w) in
      let '(s, nErrors) := serve r (w_errors w) s in
      (Some r, mkWorld s (w_notifier w) nErrors)
  end.

Definition op_ok (o : Op) (w : World) : Prop :=
  match o with
  | OpSelect rets => Forall (poll_ok (S (getSize (w_set w)))) rets
  | _ => True
  end.

Inductive reachable : World -> Prop :=
  | reach_init n : reachable (mkWorld ConnectionSet_init n 0)
  | reach_op w o : reachable w -> op_ok o w -> reachable (do_op o w).2.

Definition world_inv (w : World) : Prop := set_inv selfNotifier (w_notifier w) (w_set w).

Lemma setDirty_inv n s :
  listened s ≡ₚ allConnections s -> event_ok (selfConnection s) -> set_inv selfNotifier n (setDirty s).
Proof.
  intros Hl Hev. unfold setDirty. destruct (dirty s) eqn:Hd.
  - split_and!; auto. congruence.
  - split_and!; auto; [by apply event_set_ok|done].
Qed.

Lemma removeConnection_inv n c s :
  listened s ≡ₚ allConnections s -> event_ok (selfConnection s) ->
  c ∈ allConnections s -> set_inv selfNotifier n (removeConnection c s).2.
Proof.
  intros Hl Hev Hc. unfold removeConnection. rewrite bool_decide_eq_true_2 by done. cbn [negb snd].
  apply setDirty_inv; case_bool_decide; simpl; auto; by apply erase_proper.
Qed.

Lemma removeConnection_absent c s : c ∉ allConnections s -> (removeConnection c s).2 = s.
Proof. intros Hc. unfold removeConnection. by rewrite bool_decide_eq_false_2. Qed.

Lemma serve_inv n s0 s r nErrors :
  set_inv selfNotifier n s0 -> select_ok selfNotifier n isListening s0 s r ->
  set_inv selfNotifier n (serve r nErrors s).1.
Proof.
  intros (Hl & _ & _) (Ha & Hls & Hev & Hr). unfold serve.
  assert (listened s ≡ₚ allConnections s) as Hp by (by rewrite Ha, Hls).
  destruct r as [p|]; [|by destruct Hr as (? & ? & _); split_and!].
  destruct Hr as (e & -> & Hrep & Hok).
  assert (e <> EVENT_INVALID_HANDLE -> set_inv selfNotifier n s) as Hinv.
  { intros [Hd Hal]%Hok. by split_and!. }
  destruct (receiver_switch e nErrors) as [a n'] eqn:Hsw. cbn [fst].
  destruct (decide (a = HandleDisconnect)) as [->|Hne].
  - destruct e; try done; simpl in Hrep; [destruct Hrep as (c & -> & Hc)..| |destruct Hrep as (c & -> & Hc & _)];
      try by apply removeConnection_inv.
    unfold receiver_switch in Hsw. by destruct (_ >? 10).
  - destruct a; try done; apply Hinv; intros ->; by unfold receiver_switch in Hsw.
Qed.

Lemma aligned_ext n n' s :
  (forall c, c ∈ allConnections s -> n c = n' c) -> aligned selfNotifier n s -> aligned selfNotifier n' s.
Proof.
  intros Hn [H1 H2 H3 H4]. split; auto. rewrite H2. unfold clean_fds. rewrite !fmap_cons. f_equal.
  f_equal. apply list_fmap_ext. intros i c Hc. apply Hn. by eapply list_elem_of_lookup_2.
Qed.

Lemma do_op_inv o w : world_inv w -> op_ok o w -> world_inv (do_op o w).2.
Proof.
  unfold world_inv. intros Hinv Hok. pose proof Hinv as (Hl & Hev & Hal).
  destruct o as [c|c| |c n|rets]; simpl in *.
  - apply setDirty_inv; simpl; [by rewrite Hl|done].
  - destruct (decide (c ∈ allConnections (w_set w))); [by apply removeConnection_inv|].
    by rewrite removeConnection_absent.
  - split_and!; simpl; auto; [by apply event_set_ok|]. intros Hd. destruct (Hal Hd). by split.
  - unfold notifyStateChanged. case_bool_decide as Hc; [by apply setDirty_inv|].
    split_and!; auto. intros Hd. apply (aligned_ext (w_notifier w)); auto.
    intros c' Hc'. rewrite fset_ne; [done|]. intros ->. apply Hc. by rewrite Hl.
  - pose proof (select_spec selfNotifier (w_notifier w) isListening rets _ Hinv Hok) as Hs.
    destruct (select _ _ _ _ _) as [r s]. pose proof (serve_inv (w_notifier w) _ s r (w_errors w) Hinv Hs) as Hsv.
    by destruct (serve r (w_errors w) s).
Qed.

(** The count of errors is the receiver's, not a connection's, and capping one
    connection does not reset it: the first error of the next one caps it too. *)
Lemma error_cap_carries_over nErrors :
  100 < nErrors + 1 -> receiver_switch EVENT_ERROR nErrors = (HandleDisconnect, nErrors + 1) /\
  (receiver_switch EVENT_ERROR (receiver_switch EVENT_ERROR nErrors).2).1 = HandleDisconnect.
Proof. intros Hn. unfold receiver_switch. simpl. rewrite !gtb_true by lia. done. Qed.

Lemma reachable_inv w : reachable w -> world_inv w.
Proof. induction 1; [done|]. by apply do_op_inv. Qed.

End world.

(** ** Fairness *)

Section fairness.

Context (selfNotifier : Z) (getNotifier : Z -> Z) (isListening : Z -> bool).

Abbreviation select' := (select selfNotifier getNotifier isListening).

(** Successive selects that make no call to [poll], with their connections. *)
Fixpoint selects (k : nat) (s : ConnectionSet) : list (Selected * option Res) * ConnectionSet :=
  match k with
  | O => ([], s)
  | S k =>
      let '(r, s) := select' [] s in
      let '(l, s') := selects k s in ((r, connection s) :: l, s')
  end.

Definition returned (r : Parsed * option Res) : Selected * option Res := (Returned r.1, r.2).

Lemma select_pending rets s r rest :
  aligned selfNotifier getNotifier s -> dirty s = false ->
  pending isListening (fdSet s) (fdSetResult s) = r :: rest ->
  exists s', select' rets s = (Returned r.1, s') /\ connection s' = r.2 /\
    aligned selfNotifier getNotifier s' /\ dirty s' = false /\
    pending isListening (fdSet s') (fdSetResult s') = rest.
Proof.
  intros Hal Hd Hp. rewrite select_unfold. cbn [with_result dirty]. rewrite Hd. cbn [negb].
  pose proof (getSelectResult_spec selfNotifier getNotifier isListening (with_result None 0 s)) as Hg.
  cbn [with_result fdSet fdSetResult] in Hg. rewrite Hp in Hg.
  destruct Hg as (s' & -> & Hc & Hal' & Hp' & (_ & _ & Hd') & _ & e & He & Hr);
    [by apply aligned_result|done|].
  exists s'. rewrite He in *. split; [by destruct e|]. by rewrite Hd'.
Qed.

Lemma selects_pending s l :
  aligned selfNotifier getNotifier s -> dirty s = false ->
  pending isListening (fdSet s) (fdSetResult s) = l ->
  exists s', selects (length l) s = (returned <$> l, s') /\ (select' [] s').1 = Waiting.
Proof.
  revert s. induction l as [|r l IH]; intros s Hal Hd Hp.
  - exists s. split; [done|]. rewrite select_unfold. cbn [with_result dirty]. rewrite Hd. cbn [negb].
    pose proof (getSelectResult_spec selfNotifier getNotifier isListening (with_result None 0 s)) as Hg.
    cbn [with_result fdSet fdSetResult] in Hg. rewrite Hp in Hg.
    rewrite getSelectResult_none; [|done|apply Hg; [by apply aligned_result|done]].
    unfold setupFDSet. cbn. by rewrite Hd.
  - destruct (select_pending [] s r l Hal Hd Hp) as (s1 & Hs & Hc & Hal1 & Hd1 & Hp1).
    destruct (IH s1 Hal1 Hd1 Hp1) as (s2 & Hs2 & Hw). exists s2. split; [|done].
    cbn [length selects]. rewrite Hs, Hs2, Hc. done.
Qed.

(** A set that is about to poll, and what the poll writes to it. *)
Definition polled (revs : list Z) (s : ConnectionSet) : list pollfd :=
  write_revents revs (clean_fds selfNotifier getNotifier (allConnections s)).

Lemma select_polls s revs r rest :
  aligned selfNotifier getNotifier s -> dirty s = false -> fdSet s = fdSetCopy s ->
  length revs = S (length (allConnections s)) -> Forall legal revs ->
  pending isListening (polled revs s) (table (allConnections s)) = r :: rest ->
  exists s', select' [PollReady revs] s = (Returned r.1, s') /\ connection s' = r.2 /\
    aligned selfNotifier getNotifier s' /\ dirty s' = false /\
    pending isListening (fdSet s') (fdSetResult s') = rest.
Proof.
  intros Hal Hd Hq Hlen Hleg Hp. rewrite select_unfold. cbn [with_result dirty]. rewrite Hd. cbn [negb].
  pose proof Hal as [H1 H2 _ _].
  rewrite getSelectResult_none; [|done|].
  2: { cbn. rewrite Hq, H2. by apply Forall_fmap, Forall_true. }
  unfold setupFDSet. cbn [with_fds with_result dirty]. rewrite Hd. cbn [negb].
  set (s1 := setup_copy _).
  assert (aligned selfNotifier getNotifier s1) as Hal1.
  { split; simpl; auto. rewrite H2. by apply Forall_fmap, Forall_true. }
  pose proof (aligned_write selfNotifier getNotifier s1 revs Hal1 Hlen Hleg) as Hal2.
  pose proof (getSelectResult_spec selfNotifier getNotifier isListening _ Hal2 eq_refl) as Hg.
  cbn [with_fds fdSet fdSetResult] in Hg. unfold polled in Hp.
  change (fdSet s1) with (fdSetCopy s) in Hg |- *. change (fdSetResult s1) with (fdSetResult s) in Hg |- *.
  change (fdSetCopy s1) with (fdSetCopy s) in Hg |- *. rewrite H1, H2 in Hg |- *. rewrite Hp in Hg.
  destruct Hg as (s' & Hg & Hc & Hal' & Hp' & (_ & _ & Hd') & _ & e & He & Hr). rewrite Hg.
  exists s'. rewrite He in *. split; [by destruct e|]. rewrite Hd'. done.
Qed.

End fairness.

(** ** Properties *)

(** C14: Select reports the connections of the set.  However connections were
    added, removed, changed state and selected before, a select neither aborts
    nor reads outside of its tables: it returns an event, and a connect, data,
    disconnect or error event is about a connection that is in the set now, a
    connect event about a listening one; an interrupt has consumed the self
    connection's event.  A select that blocks polls the self connection and
    exactly the current descriptors of the set's connections, in order. *)
Theorem select_reports_members selfNotifier isListening w rets :
  reachable selfNotifier isListening w -> Forall (poll_ok (S (getSize (w_set w)))) rets ->
  let '(r, s) := select selfNotifier (w_notifier w) isListening rets (w_set w) in
  allConnections s = allConnections (w_set w) /\
  match r with
  | Waiting => dirty s = false /\ fdSetResult s = table (allConnections s) /\
      fdSet s = clean_fds selfNotifier (w_notifier w) (allConnections s)
  | Returned p => exists e, p = PEvent e /\ reports (w_notifier w) isListening s e
  end.
Proof.
  intros Hw%reachable_inv Hr.
  pose proof (select_spec selfNotifier (w_notifier w) isListening rets _ Hw Hr) as Hs.
  destruct (select _ _ _ _ _) as [[p|] s]; destruct Hs as (Ha & _ & _ & Hs); (split; [done|]).
  - destruct Hs as (e & -> & He & _). by exists e.
  - destruct Hs as (Hd & [H1 _ _ _] & Hf). done.
Qed.

(** Two connections, a listener 20 and a link 21; the poll finds events on the
    self connection, the listener and the link, and two selects report the first
    two. *)
Definition sample_ops : list Op :=
  [OpState 20 5; OpState 21 6; OpAdd 20; OpAdd 21; OpSelect [PollReady [1; 1; 1]]; OpSelect []].
Definition sample_world : World :=
  foldl (fun w o => (do_op 4 (fun c => c =? 20) o w).2) (mkWorld ConnectionSet_init (fun _ => 0) 0) sample_ops.

Lemma select_reports_members_witness :
  let '(r, s) := select 4 (w_notifier sample_world) (fun c => c =? 20) [] (w_set sample_world) in
  r = Returned (PEvent EVENT_DATA) /\ connection s = Some (RConn 21) /\
  21 ∈ allConnections (w_set sample_world).
Proof.
  pose proof (select_reports_members 4 (fun c => c =? 20) sample_world []) as H.
  assert (reachable 4 (fun c => c =? 20) sample_world) as Hw.
  { unfold sample_world, sample_ops. cbn [foldl]. repeat (apply reach_op; [|try done]); [apply reach_init|by repeat constructor|].
    apply Forall_nil_2. }
  specialize (H Hw ltac:(by constructor)).
  destruct (select _ _ _ _ _) as [r s] eqn:Hs.
  assert (r = Returned (PEvent EVENT_DATA)) as -> by (apply (f_equal fst) in Hs; by vm_compute in Hs).
  destruct H as (Ha & e & [= <-] & c & Hc & Hin & _).
  assert (connection s = Some (RConn 21)) as Hc' by (apply (f_equal (connection ∘ snd)) in Hs; by vm_compute in Hs).
  rewrite Hc' in Hc. injection Hc as <-. rewrite Ha in Hin. done.
Defined.

(** C33: One poll, every event once.  When a select on a clean set polls and finds
    events, it and the selects after it report every entry with events once, in
    the order of the set, before [poll] is called again: no busy connection
    keeps the set from reporting the others.  The self connection is the first
    entry.  The set must not be changed in between: adding and removing
    connections and their changes of state mark it dirty, and the next select
    then drops what is left and polls again. *)
Theorem poll_events_reported_once selfNotifier getNotifier isListening s revs r l :
  aligned selfNotifier getNotifier s -> dirty s = false -> fdSet s = fdSetCopy s ->
  length revs = S (length (allConnections s)) -> Forall legal revs ->
  pending isListening (polled selfNotifier getNotifier revs s) (table (allConnections s)) = r :: l ->
  let '(r1, s1) := select selfNotifier getNotifier isListening [PollReady revs] s in
  let '(rs, s2) := selects selfNotifier getNotifier isListening (length l) s1 in
  (r1, connection s1) :: rs = returned <$> (r :: l) /\
  (select selfNotifier getNotifier isListening [] s2).1 = Waiting.
Proof.
  intros Hal Hd Hq Hlen Hleg Hp.
  destruct (select_polls selfNotifier getNotifier isListening s revs r l) as (s1 & -> & Hc & Hal1 & Hd1 & Hp1); auto.
  destruct (selects_pending selfNotifier getNotifier isListening s1 l Hal1 Hd1 Hp1) as (s2 & -> & Hw).
  split; [|done]. by rewrite Hc.
Qed.

Definition sample_clean : ConnectionSet :=
  (select 4 (fun c => c) (fun c => c =? 20) [] (addConnection 22 (addConnection 21 (addConnection 20 ConnectionSet_init)))).2.

Lemma poll_events_reported_once_witness :
  let '(r1, s1) := select 4 (fun c => c) (fun c => c =? 20) [PollReady [0; 1; 16; 8]] sample_clean in
  let '(rs, s2) := selects 4 (fun c => c) (fun c => c =? 20) 2 s1 in
  (r1, connection s1) :: rs =
    [(Returned (PEvent EVENT_CONNECT), Some (RConn 20)); (Returned (PEvent EVENT_DISCONNECT), Some (RConn 21));
     (Returned (PEvent EVENT_ERROR), Some (RConn 22))] /\
  (select 4 (fun c => c) (fun c => c =? 20) [] s2).1 = Waiting.
Proof.
  apply (poll_events_reported_once 4 (fun c => c) (fun c => c =? 20) sample_clean [0; 1; 16; 8]
    (PEvent EVENT_CONNECT, Some (RConn 20))
    [(PEvent EVENT_DISCONNECT, Some (RConn 21)); (PEvent EVENT_ERROR, Some (RConn 22))]).
  - split; try by vm_compute. vm_compute. by repeat constructor.
  - done.
  - done.
  - done.
  - by repeat constructor.
  - done.
Defined.

(** When [_setupFDSet] fails, the set stays marked clean with a partial result
    table next to the descriptors of the set before: unless the connection
    without a descriptor is removed, the next select reads outside of the table. *)
Lemma invalid_handle_leaves_stale_table :
  exists s rets, dirty s = true /\
    let '(r, s1) := select 4 (fun c => if c =? 21 then 0 else c) (fun _ => false) [] s in
    r = Returned (PEvent EVENT_INVALID_HANDLE) /\ dirty s1 = false /\
    (select 4 (fun c => if c =? 21 then 0 else c) (fun _ => false) rets s1).1 = Returned POutOfRange.
Proof.
  exists (setDirty (select 4 (fun c => c) (fun _ => false) []
    (addConnection 22 (addConnection 21 (addConnection 20 ConnectionSet_init)))).2), [PollReady [0; 0; 0; 1]].
  by vm_compute.
Qed.
