(* ===== verification/SelectWakeup.v ===== *)
(** * Interrupting a running select (connectionSet.cpp)

    [ConnectionSet] is changed by any thread while the receiver thread selects:
    the list of connections is protected by a lock, [dirty] and the self
    connection tell the selecting thread to rebuild its descriptors.  Here the
    operations of ConnectionSet.v are split at the points where the threads can
    interleave: a thread that changes the set does so under the lock, then runs
    [setDirty] (read [dirty], write it, set the event); the selecting thread
    reads [dirty], parses results, clears [dirty], rebuilds under the lock and
    polls.  The accesses are taken as atomic and sequentially consistent. *)

From S2P Require Import Prelude ConnectionSet.

(** A thread inside [addConnection], [removeConnection] or [notifyStateChanged],
    after its change: about to read [dirty], about to write it, about to set the
    event. *)
Inductive MPhase := M_changed | M_checked | M_dirtied.

(** The selecting thread: between selects, at the top of the loop, about to parse
    earlier results, about to set up the descriptors, rebuilding, in [poll],
    about to parse the results of [poll], told of a connection without a
    descriptor, and inside the [removeConnection] that follows. *)
Inductive SPhase :=
  | S_idle | S_start | S_results | S_setup | S_build | S_poll | S_parse
  | S_failed (c : Z) | S_remove (tid : Z).

Record System := mkSystem {
  sy_set : ConnectionSet;
  sy_notifier : Z -> Z;
  sy_sel : SPhase;
  sy_mods : gmap Z MPhase;
}.

Section wakeup.

Context (selfNotifier : Z) (isListening : Z -> bool).

(** The changes of the list, which hold the lock. *)
Definition list_add (c : Z) (s : ConnectionSet) : ConnectionSet :=
  with_listened (listened s ++ [c]) (with_conns (allConnections s ++ [c]) s).
Definition list_remove (c : Z) (s : ConnectionSet) : ConnectionSet :=
  let s := if bool_decide (connection s = Some (RConn c)) then with_result None (error s) s else s in
  with_conns (erase c (allConnections s)) (with_listened (erase c (listened s)) s).

(** A step of another thread. *)
Inductive mod_step (sel : SPhase) : System -> System -> Prop :=
  | mod_add tid c s n m : m !! tid = None ->
      mod_step sel (mkSystem s n sel m) (mkSystem (list_add c s) n sel (<[tid := M_changed]> m))
  | mod_remove tid c s n m : m !! tid = None -> c ∈ allConnections s ->
      mod_step sel (mkSystem s n sel m) (mkSystem (list_remove c s) n sel (<[tid := M_changed]> m))
  | mod_state tid c fd s n m : m !! tid = None -> c ∈ listened s ->
      mod_step sel (mkSystem s n sel m) (mkSystem s (fset n c fd) sel (<[tid := M_changed]> m))
  | mod_interrupt s n m : mod_step sel (mkSystem s n sel m) (mkSystem (interrupt s) n sel m)
  | mod_skip tid s n m : m !! tid = Some M_changed -> dirty s = true ->
      mod_step sel (mkSystem s n sel m) (mkSystem s n sel (delete tid m))
  | mod_check tid s n m : m !! tid = Some M_changed -> dirty s = false ->
      mod_step sel (mkSystem s n sel m) (mkSystem s n sel (<[tid := M_checked]> m))
  | mod_mark tid s n m : m !! tid = Some M_checked ->
      mod_step sel (mkSystem s n sel m) (mkSystem (with_dirty true s) n sel (<[tid := M_dirtied]> m))
  | mod_wake tid s n m : m !! tid = Some M_dirtied ->
      mod_step sel (mkSystem s n sel m) (mkSystem (interrupt s) n sel (delete tid m)).

(** A step of the selecting thread. *)
Inductive sel_step (n : Z -> Z) (m : gmap Z MPhase) : System -> System -> Prop :=
  | sel_call s : sel_step n m (mkSystem s n S_idle m) (mkSystem (with_result None 0 s) n S_start m)
  | sel_clean s : dirty s = false -> sel_step n m (mkSystem s n S_start m) (mkSystem s n S_results m)
  | sel_dirty s : dirty s = true -> sel_step n m (mkSystem s n S_start m) (mkSystem s n S_setup m)
  | sel_report s r s' : getSelectResult isListening s = (r, s') -> r <> PEvent EVENT_NONE ->
      sel_step n m (mkSystem s n S_results m) (mkSystem s' n S_idle m)
  | sel_quiet s s' : getSelectResult isListening s = (PEvent EVENT_NONE, s') ->
      sel_step n m (mkSystem s n S_results m) (mkSystem s' n S_setup m)
  | sel_copy s : dirty s = false ->
      sel_step n m (mkSystem s n S_setup m) (mkSystem (setup_copy s) n S_poll m)
  | sel_begin s : dirty s = true ->
      sel_step n m (mkSystem s n S_setup m) (mkSystem (setup_begin s) n S_build m)
  | sel_build s s' : setup_build selfNotifier n s = (true, s') ->
      sel_step n m (mkSystem s n S_build m) (mkSystem s' n S_poll m)
  | sel_fail s s' c : setup_build selfNotifier n s = (false, s') -> connection s' = Some (RConn c) ->
      sel_step n m (mkSystem s n S_build m) (mkSystem s' n (S_failed c) m)
  | sel_drop s c tid : c ∈ allConnections s -> m !! tid = None ->
      sel_step n m (mkSystem s n (S_failed c) m)
        (mkSystem (list_remove c s) n (S_remove tid) (<[tid := M_changed]> m))
  | sel_gone s c : c ∉ allConnections s ->
      sel_step n m (mkSystem s n (S_failed c) m) (mkSystem s n S_idle m)
  | sel_dropped s tid : m !! tid = None ->
      sel_step n m (mkSystem s n (S_remove tid) m) (mkSystem s n S_idle m)
  | sel_timeout s : sel_step n m (mkSystem s n S_poll m) (mkSystem s n S_idle m)
  | sel_error s errno :
      sel_step n m (mkSystem s n S_poll m) (mkSystem (with_result (connection s) errno s) n S_idle m)
  | sel_again s : sel_step n m (mkSystem s n S_poll m) (mkSystem (with_result None 0 s) n S_start m)
  | sel_ready s revs :
      sel_step n m (mkSystem s n S_poll m)
        (mkSystem (with_fds (fdSetCopy s) (write_revents revs (fdSet s)) (fdSetResult s) s) n S_parse m)
  | sel_event s r s' : getSelectResult isListening s = (r, s') -> r <> PEvent EVENT_NONE ->
      sel_step n m (mkSystem s n S_parse m) (mkSystem s' n S_idle m)
  | sel_fluke s s' : getSelectResult isListening s = (PEvent EVENT_NONE, s') ->
      sel_step n m (mkSystem s n S_parse m) (mkSystem (with_result None 0 s') n S_start m).

Inductive sys_reachable : System -> Prop :=
  | sys_init n : sys_reachable (mkSystem ConnectionSet_init n S_idle ∅)
  | sys_mod w w' : sys_reachable w -> mod_step (sy_sel w) w w' -> sys_reachable w'
  | sys_sel w w' : sys_reachable w -> sel_step (sy_notifier w) (sy_mods w) w w' -> sys_reachable w'.

(** ** The invariant *)

(** The tables are those of the current connections and descriptors. *)
Definition fresh (n : Z -> Z) (s : ConnectionSet) : Prop :=
  fdSetResult s = table (allConnections s) /\
  fdSetCopy s = clean_fds selfNotifier n (allConnections s).

(** A thread has changed the set and will look at [dirty]. *)
Definition announced (m : gmap Z MPhase) : Prop := exists tid p, m !! tid = Some p /\ p <> M_dirtied.
(** A thread has set [dirty] and will set the event. *)
Definition waking (m : gmap Z MPhase) : Prop := exists tid, m !! tid = Some M_dirtied.

(** Stale tables will be rebuilt, except while they are, and after a failure. *)
Definition stale_noticed (n : Z -> Z) (s : ConnectionSet) (sel : SPhase) (m : gmap Z MPhase) : Prop :=
  match sel with
  | S_build => True
  | S_failed c => c ∈ allConnections s \/ dirty s = true \/ announced m
  | _ => fresh n s \/ dirty s = true \/ announced m
  end.

(** A set marked dirty after the descriptors were chosen wakes the poll. *)
Definition dirty_wakes (s : ConnectionSet) (sel : SPhase) (m : gmap Z MPhase) : Prop :=
  match sel with
  | S_build | S_poll => dirty s = true -> ev_set (selfConnection s) = true \/ waking m
  | _ => True
  end.

Definition polls_self (s : ConnectionSet) : Prop :=
  fdSetCopy s = [] \/ fd <$> head (fdSetCopy s) = Some selfNotifier.

Record sys_inv (w : System) : Prop := mkSysInv {
  si_stale : stale_noticed (sy_notifier w) (sy_set w) (sy_sel w) (sy_mods w);
  si_dirty : dirty_wakes (sy_set w) (sy_sel w) (sy_mods w);
  si_self : polls_self (sy_set w);
  si_poll : sy_sel w = S_poll -> fdSet (sy_set w) = fdSetCopy (sy_set w);
  si_listened : listened (sy_set w) ≡ₚ allConnections (sy_set w);
}.

Lemma announced_insert tid p m : p <> M_dirtied -> announced (<[tid := p]> m).
Proof. intros. exists tid, p. by rewrite lookup_insert_eq. Qed.

Lemma announced_other tid m : m !! tid = Some M_dirtied -> announced m -> announced (delete tid m).
Proof.
  intros Ht (tid' & p & Hl & Hp). exists tid', p. rewrite lookup_delete_ne; [done|]. congruence.
Qed.

Lemma waking_insert tid p m : m !! tid <> Some M_dirtied -> waking m -> waking (<[tid := p]> m).
Proof. intros Ht (tid' & Hl). exists tid'. rewrite lookup_insert_ne; congruence. Qed.

Lemma waking_delete tid m : m !! tid <> Some M_dirtied -> waking m -> waking (delete tid m).
Proof. intros Ht (tid' & Hl). exists tid'. rewrite lookup_delete_ne; congruence. Qed.

#[local] Hint Resolve announced_insert announced_other waking_insert waking_delete : collage.

Lemma fresh_listened n n' s :
  (forall c, c ∈ allConnections s -> n c = n' c) -> fresh n s -> fresh n' s.
Proof.
  intros Hn [H1 H2]. split; [done|]. rewrite H2. unfold clean_fds. rewrite !fmap_cons. f_equal. f_equal.
  apply list_fmap_ext. intros i c Hc. apply Hn. by eapply list_elem_of_lookup_2.
Qed.

(** A change announces itself, whatever the tables were. *)
Lemma stale_announced n s sel m : announced m -> stale_noticed n s sel m.
Proof. intros Ha. destruct sel; simpl; auto. Qed.

Lemma stale_dirty n s sel m : dirty s = true -> stale_noticed n s sel m.
Proof. intros Ha. destruct sel; simpl; auto. Qed.

Lemma stale_mono n s s' sel m m' :
  allConnections s' = allConnections s -> fdSetResult s' = fdSetResult s -> fdSetCopy s' = fdSetCopy s ->
  dirty s' = dirty s -> (announced m -> announced m') ->
  stale_noticed n s sel m -> stale_noticed n s' sel m'.
Proof.
  intros H1 H2 H3 H4 H5. unfold stale_noticed, fresh. rewrite H1, H2, H3, H4. destruct sel; tauto.
Qed.

Lemma dirty_mono s s' sel m m' :
  dirty s' = dirty s -> (ev_set (selfConnection s) = true -> ev_set (selfConnection s') = true) ->
  (waking m -> waking m' \/ ev_set (selfConnection s') = true) ->
  dirty_wakes s sel m -> dirty_wakes s' sel m'.
Proof.
  intros H1 H2 H3. unfold dirty_wakes. rewrite H1. destruct sel; try done; intuition.
Qed.

Lemma dirty_woken s sel m : waking m -> dirty_wakes s sel m.
Proof. intros. destruct sel; simpl; auto. Qed.

Lemma list_remove_fields c s :
  fdSetCopy (list_remove c s) = fdSetCopy s /\ fdSet (list_remove c s) = fdSet s /\
  dirty (list_remove c s) = dirty s /\ selfConnection (list_remove c s) = selfConnection s /\
  allConnections (list_remove c s) = erase c (allConnections s) /\
  listened (list_remove c s) = erase c (listened s).
Proof. unfold list_remove. by case_bool_decide. Qed.

(** A thread that starts a change: any change of the list that keeps the rest. *)
Lemma change_inv s n sel m s' n' tid :
  sys_inv (mkSystem s n sel m) -> m !! tid = None -> dirty s' = dirty s ->
  selfConnection s' = selfConnection s -> fdSetCopy s' = fdSetCopy s -> fdSet s' = fdSet s ->
  listened s' ≡ₚ allConnections s' ->
  sys_inv (mkSystem s' n' sel (<[tid := M_changed]> m)).
Proof.
  intros [H1 H2 H3 H4 H5] Ht Hd Hs Hc Hf Hl. split; cbn [sy_set sy_notifier sy_sel sy_mods] in *.
  - apply stale_announced. by apply announced_insert.
  - apply (dirty_mono s s' sel m); auto; [by rewrite Hs|]. intros. left. apply waking_insert; [by rewrite Ht|done].
  - unfold polls_self. by rewrite Hc.
  - rewrite Hc, Hf. done.
  - done.
Qed.

Lemma mod_step_inv w w' : mod_step (sy_sel w) w w' -> sys_inv w -> sys_inv w'.
Proof.
  intros Hstep Hinv. pose proof Hinv as [H1 H2 H3 H4 H5]. remember (sy_sel w) as sel eqn:Hsel.
  destruct Hstep as [tid c s n m Ht|tid c s n m Ht Hc|tid c f s n m Ht Hc|s n m|tid s n m Ht Hd
    |tid s n m Ht Hd|tid s n m Ht|tid s n m Ht]; cbn [sy_set sy_notifier sy_sel sy_mods] in *.
  - eapply change_inv; eauto; simpl. by rewrite H5.
  - destruct (list_remove_fields c s) as (Hf1 & Hf2 & Hf3 & Hf4 & Hf5 & Hf6).
    eapply change_inv; eauto. rewrite Hf5, Hf6. by apply erase_proper.
  - by eapply change_inv.
  - split; cbn [sy_set sy_notifier sy_sel sy_mods]; [| |done|done|done].
    + by apply (stale_mono n s _ _ m m).
    + apply (dirty_mono s _ _ m m); auto. intros _. by apply event_set_set.
  - split; cbn [sy_set sy_notifier sy_sel sy_mods]; [| |done|done|done].
    + by apply stale_dirty.
    + apply (dirty_mono s s _ m); auto. intros. left. apply waking_delete; [by rewrite Ht|done].
  - split; cbn [sy_set sy_notifier sy_sel sy_mods]; [| |done|done|done].
    + apply stale_announced. by apply announced_insert.
    + apply (dirty_mono s s _ m); auto. intros. left. apply waking_insert; [by rewrite Ht|done].
  - split; cbn [sy_set sy_notifier sy_sel sy_mods]; [| |done|done|done].
    + by apply stale_dirty.
    + apply dirty_woken. exists tid. by rewrite lookup_insert_eq.
  - split; cbn [sy_set sy_notifier sy_sel sy_mods]; [| |done|done|done].
    + apply (stale_mono n s _ _ m); auto. by apply announced_other.
    + apply (dirty_mono s _ _ m); auto; simpl; [by intros; apply event_set_set|].
      intros. right. apply event_set_set.
Qed.

(** What parsing results leaves as it is. *)
Lemma getSelectResult_frame s r s' :
  getSelectResult isListening s = (r, s') ->
  allConnections s' = allConnections s /\ fdSetResult s' = fdSetResult s /\
  fdSetCopy s' = fdSetCopy s /\ dirty s' = dirty s /\ listened s' = listened s.
Proof.
  unfold getSelectResult, parseSelect. destruct (parse_loop _ _) as [[p c] fds].
  destruct c as [c|]; cbn [connection with_result with_fds].
  - destruct c as [|c]; [by intros [= <- <-]|].
    destruct (match p with PEvent EVENT_DATA => _ | _ => _ end); by intros [= <- <-].
  - destruct (connection s) as [[|c]|]; [by intros [= <- <-]| |by intros [= <- <-]].
    destruct (match p with PEvent EVENT_DATA => _ | _ => _ end); by intros [= <- <-].
Qed.

Lemma setup_build_frame n s ok s' :
  setup_build selfNotifier n s = (ok, s') ->
  allConnections s' = allConnections s /\ listened s' = listened s /\ dirty s' = dirty s /\
  selfConnection s' = selfConnection s /\
  if ok then fresh n s' /\ fdSet s' = fdSetCopy s' /\ fd <$> head (fdSetCopy s') = Some selfNotifier
  else fdSetCopy s' = fdSetCopy s /\ forall c, connection s' = Some (RConn c) -> c ∈ allConnections s.
Proof.
  unfold setup_build.
  pose proof (setup_loop_spec n isListening (allConnections s) [mkPollfd selfNotifier 0] [RSelf]) as Hl.
  destruct (setup_loop _ _ _ _) as [[[c|] fds] results]; intros [= <- <-]; simpl.
  - split_and!; auto. intros c' [= <-]. apply Hl.
  - destruct Hl as [-> ->]. split_and!; auto. split; [done|]. simpl.
    unfold clean_fds. rewrite !fmap_cons, <-list_fmap_compose. done.
Qed.

(** A step that keeps the tables, the list and [dirty], outside of [poll]. *)
Lemma sel_quiet_inv s n sel m s' sel' :
  sys_inv (mkSystem s n sel m) ->
  allConnections s' = allConnections s -> fdSetResult s' = fdSetResult s -> fdSetCopy s' = fdSetCopy s ->
  dirty s' = dirty s -> listened s' = listened s ->
  (stale_noticed n s sel m -> stale_noticed n s sel' m) ->
  sel' ∈ [S_idle; S_start; S_results; S_setup; S_parse] ->
  sys_inv (mkSystem s' n sel' m).
Proof.
  intros [H1 H2 H3 H4 H5] Ha Hr Hc Hd Hl Hs Hsel. split; cbn [sy_set sy_notifier sy_sel sy_mods] in *.
  - apply (stale_mono n s s' sel' m m); auto.
  - unfold dirty_wakes. set_solver.
  - unfold polls_self. by rewrite Hc.
  - intros ->. set_solver.
  - by rewrite Ha, Hl.
Qed.

Ltac quiet_step := eapply sel_quiet_inv; eauto; set_solver.

Lemma sel_step_inv w w' : sel_step (sy_notifier w) (sy_mods w) w w' -> sys_inv w -> sys_inv w'.
Proof.
  intros Hstep Hinv. pose proof Hinv as [H1 H2 H3 H4 H5].
  remember (sy_notifier w) as n eqn:Hn. remember (sy_mods w) as m eqn:Hm.
  destruct Hstep; cbn [sy_set sy_notifier sy_sel sy_mods] in *; clear Hn Hm.
  all: try match goal with H : getSelectResult _ _ = _ |- _ =>
    destruct (getSelectResult_frame _ _ _ H) as (? & ? & ? & ? & ?) end.
  all: try quiet_step.
  - (* sel_copy *) split; cbn [sy_set sy_notifier sy_sel sy_mods]; [done| |done|done|done].
    simpl. congruence.
  - (* sel_begin *) split; cbn [sy_set sy_notifier sy_sel sy_mods]; done.
  - (* sel_build *) destruct (setup_build_frame _ _ _ _ H) as (Ha & Hl & Hd & Hs & Hf & Hq & Hh).
    split; cbn [sy_set sy_notifier sy_sel sy_mods]; [by left| |by right|done|by rewrite Ha, Hl].
    simpl in *. by rewrite Hd, Hs.
  - (* sel_fail *) destruct (setup_build_frame _ _ _ _ H) as (Ha & Hl & Hd & Hs & Hf & Hc).
    split; cbn [sy_set sy_notifier sy_sel sy_mods]; [|done| |done|by rewrite Ha, Hl].
    + left. rewrite Ha. by apply Hc.
    + unfold polls_self. by rewrite Hf.
  - (* sel_drop *) destruct (list_remove_fields c s) as (Hf1 & Hf2 & Hf3 & Hf4 & Hf5 & Hf6).
    split; cbn [sy_set sy_notifier sy_sel sy_mods]; [|done| |done|].
    + apply stale_announced. by apply announced_insert.
    + unfold polls_self. by rewrite Hf1.
    + rewrite Hf5, Hf6. by apply erase_proper.
Qed.

Lemma sys_reachable_inv w : sys_reachable w -> sys_inv w.
Proof.
  induction 1 as [n|w w' _ IH Hs|w w' _ IH Hs].
  - split; simpl; auto. by left.
  - by apply (mod_step_inv w).
  - by apply (sel_step_inv w).
Qed.

End wakeup.

(** ** Properties *)

(** C13: No change is lost on a running select.  In every interleaving of threads
    that add and remove connections, change their state and interrupt the set
    with the thread that selects, whenever the latter is in [poll] and no other
    thread is still inside such an operation, [poll] is given exactly the
    descriptors of the current connections, or the event of the self connection
    is set and its descriptor is the first one polled, so that [poll] returns
    and the set is rebuilt.  The thread must have built a set of descriptors
    before; the first select is an exception, see [first_select_not_woken]. *)
Theorem no_change_lost selfNotifier isListening w :
  sys_reachable selfNotifier isListening w -> sy_sel w = S_poll -> sy_mods w = ∅ ->
  fdSetCopy (sy_set w) <> [] ->
  (fdSet (sy_set w) = clean_fds selfNotifier (sy_notifier w) (allConnections (sy_set w)) /\
   fdSetResult (sy_set w) = table (allConnections (sy_set w))) \/
  (ev_set (selfConnection (sy_set w)) = true /\ dirty (sy_set w) = true /\
   fd <$> head (fdSet (sy_set w)) = Some selfNotifier).
Proof.
  intros [H1 H2 H3 H4 _]%sys_reachable_inv Hsel Hm Hne. rewrite Hsel, Hm in *. specialize (H4 eq_refl).
  destruct H1 as [[Hr Hc]|[Hd|(tid & p & Hl & _)]].
  - left. by rewrite H4.
  - right. destruct (H2 Hd) as [He|(tid & Hl)]; [|by rewrite lookup_empty in Hl].
    destruct H3 as [|Hh]; [done|]. by rewrite H4.
  - by rewrite lookup_empty in Hl.
Qed.

(** The selecting thread polls an empty set; another thread adds connection 20,
    and the poll is woken. *)
Definition woken_set : ConnectionSet :=
  interrupt (with_dirty true (list_add 20 (setup_build 4 (fun _ => 5) (setup_begin
    (with_result None 0 ConnectionSet_init))).2)).

(** Extend a run by one step, of the selecting or of another thread. *)
Ltac run_sel H step := eapply sys_sel in H; [|by apply step].
Ltac run_mod H step := eapply sys_mod in H; [|by apply step].

Lemma no_change_lost_witness :
  let w := mkSystem woken_set (fun _ => 5) S_poll ∅ in
  sys_reachable 4 (fun _ => false) w /\
  ((fdSet woken_set = clean_fds 4 (fun _ => 5) (allConnections woken_set) /\
    fdSetResult woken_set = table (allConnections woken_set)) \/
   (ev_set (selfConnection woken_set) = true /\ dirty woken_set = true /\
    fd <$> head (fdSet woken_set) = Some 4)).
Proof.
  intros w. assert (sys_reachable 4 (fun _ => false) w) as Hw.
  { pose proof (sys_init 4 (fun _ => false) (fun _ => 5)) as H.
    run_sel H sel_call. run_sel H sel_dirty. run_sel H sel_begin. run_sel H sel_build.
    run_mod H (mod_add S_poll 1 20). run_mod H (mod_check S_poll 1).
    run_mod H (mod_mark S_poll 1). run_mod H (mod_wake S_poll 1). exact H. }
  split; [done|]. by apply (no_change_lost 4 (fun _ => false) w).
Defined.

(** Before the set was ever built the guarantee does not hold: if the first
    rebuild meets a connection without a descriptor which another thread then
    removes, the next select polls no descriptor at all and nothing wakes it. *)
Lemma first_select_not_woken :
  exists w, sys_reachable 4 (fun _ => false) w /\ sy_sel w = S_poll /\ sy_mods w = ∅ /\
    fdSet (sy_set w) = [] /\ ev_set (selfConnection (sy_set w)) = true.
Proof.
  pose proof (sys_init 4 (fun _ => false) (fun _ => 0)) as H.
  run_mod H (mod_add S_idle 1 20). run_mod H (mod_skip S_idle 1).
  run_sel H sel_call. run_sel H sel_dirty. run_sel H sel_begin. run_sel H sel_fail.
  eapply sys_mod in H; [|apply (mod_remove (S_failed 20) 1 20); [done|apply list_elem_of_here]].
  eapply sys_sel in H; [|apply sel_gone; apply not_elem_of_nil].
  run_sel H sel_call. run_sel H sel_clean. run_sel H sel_quiet. run_sel H sel_copy.
  run_mod H (mod_check S_poll 1). run_mod H (mod_mark S_poll 1).
  run_mod H (mod_wake S_poll 1). eexists. by split; [exact H|].
Qed.
