(* ===== verification/Worker.v ===== *)
(** * Command queues and worker threads (commandQueue.cpp, worker.h, worker.ipp)

    A [CommandQueue] is a thread-safe queue of commands; a [WorkerThread] pops all
    commands of its queue at once and calls each of them, until [stopRunning].
    Other threads push while the worker runs, so the worker is a step relation:
    its own steps are the executable [worker_step], and between any two of them
    commands may be pushed.  The queue is lunchbox::MTQueue, through its
    interface; a push on a bounded queue that is full waits, which is a step that
    comes later. *)

From S2P Require Import Prelude Bytes Lunchbox.

(** ** The command queue *)

Section queue.

Context {Q : Type -> Type} `{!MTQueue Q} {C : Type}.

Definition CommandQueue_init : Q C := q_empty.
Definition CommandQueue_push (command : C) (q : Q C) : Q C := q_push q command.
Definition CommandQueue_pushFront (command : C) (q : Q C) : Q C := q_pushFront q command.
Definition CommandQueue_isEmpty (q : Q C) : bool := q_isEmpty q.
Definition CommandQueue_getSize (q : Q C) : Z := q_getSize q.
Definition CommandQueue_flush (q : Q C) : Q C := q_empty.

(** [pop] with a timeout and [tryPop]: the invalid command, [None], if there is
    nothing to pop in time. *)
Definition CommandQueue_tryPop (q : Q C) : option C * Q C :=
  match q_pop q with Some (c, q) => (Some c, q) | None => (None, q) end.

(** [popAll] takes what is there, one pop after the other. *)
Fixpoint pop_n (n : nat) (q : Q C) : list C * Q C :=
  match n with
  | O => ([], q)
  | S n =>
      match q_pop q with
      | None => ([], q)
      | Some (c, q) => let '(l, q) := pop_n n q in (c :: l, q)
      end
  end.

Definition CommandQueue_popAll (q : Q C) : list C * Q C := pop_n (length (q_contents q)) q.

Context `{!MTQueueOk Q}.

Lemma popAll_spec q :
  (CommandQueue_popAll q).1 = q_contents q /\ q_contents (CommandQueue_popAll q).2 = [].
Proof.
  unfold CommandQueue_popAll. remember (q_contents q) as l eqn:Hl. revert q Hl.
  induction l as [|c l IH]; intros q Hl; simpl; [by rewrite <-Hl|].
  pose proof (q_pop_spec q) as Hp. destruct (q_pop q) as [[c' q']|]; [|congruence].
  rewrite <-Hl in Hp. injection Hp as <- Hp. specialize (IH q' Hp).
  destruct (pop_n (length l) q') as [l' q'']. simpl in *. destruct IH as [-> ?]. done.
Qed.

End queue.

(** ** The worker thread *)

Section worker.

Context {Q : Type -> Type} `{!MTQueue Q} {C App : Type}.

(** Calling a command: its result, the new state of the application and the
    commands the handler pushes to this worker's queue. *)
Context (call : C -> App -> bool * App * list C).
Context (stopRunning : App -> bool) (notifyIdle : App -> bool * App).

(** At the top of the loop, in the loop that calls [notifyIdle] while there is
    nothing to do, before [popAll], in the loop over the popped commands, after
    the loop; [W_Abort] is [LBABORT]. *)
Inductive WPhase := W_Loop | W_Idle | W_Pop | W_Batch (commands : list C) | W_Exit | W_Abort.

Record Worker := mkWorker {
  wk_queue : Q C;
  wk_phase : WPhase;
  wk_app : App;
  wk_called : list C;
}.

Definition Worker_init (a : App) : Worker := mkWorker CommandQueue_init W_Loop a [].

(** One step of [run]; [None] when the thread waits in [popAll] or has ended. *)
Definition worker_step (w : Worker) : option Worker :=
  match wk_phase w with
  | W_Loop =>
      if stopRunning (wk_app w) then
        Some (mkWorker (CommandQueue_flush (wk_queue w)) W_Exit (wk_app w) (wk_called w))
      else Some (mkWorker (wk_queue w) W_Idle (wk_app w) (wk_called w))
  | W_Idle =>
      if CommandQueue_isEmpty (wk_queue w) then
        let '(more, a) := notifyIdle (wk_app w) in
        Some (mkWorker (wk_queue w) (if more then W_Idle else W_Pop) a (wk_called w))
      else Some (mkWorker (wk_queue w) W_Pop (wk_app w) (wk_called w))
  | W_Pop =>
      if CommandQueue_isEmpty (wk_queue w) then None
      else
        let '(commands, q) := CommandQueue_popAll (wk_queue w) in
        Some (mkWorker q (W_Batch commands) (wk_app w) (wk_called w))
  | W_Batch [] => Some (mkWorker (wk_queue w) W_Loop (wk_app w) (wk_called w))
  | W_Batch (command :: commands) =>
      let '(ok, a, pushed) := call command (wk_app w) in
      let q := q_pushAll (wk_queue w) pushed in
      let called := wk_called w ++ [command] in
      if negb ok then Some (mkWorker q W_Abort a called)
      else if stopRunning a then
        Some (mkWorker (CommandQueue_flush q) W_Exit a called)
      else Some (mkWorker q (W_Batch commands) a called)
  | W_Exit | W_Abort => None
  end.

(** The commands waiting for the worker, in the order it will call them. *)
Definition batch (p : WPhase) : list C := match p with W_Batch l => l | _ => [] end.
Definition waiting (w : Worker) : list C := batch (wk_phase w) ++ q_contents (wk_queue w).

(** The commands a step pushes to the queue itself. *)
Definition pushed_by (w : Worker) : list C :=
  match wk_phase w with
  | W_Batch (command :: _) => (call command (wk_app w)).2
  | _ => []
  end.

Definition running (p : WPhase) : Prop := match p with W_Loop | W_Idle | W_Pop | W_Batch _ => True | _ => False end.

(** A run of the worker among other threads; [order] is the order in which the
    commands were given to it: a push is last, a [pushFront] is next after the
    commands that were popped already. *)
Inductive worker_run (a : App) : list C -> Worker -> Prop :=
  | run_init : worker_run a [] (Worker_init a)
  | run_push order w c : worker_run a order w -> running (wk_phase w) ->
      worker_run a (order ++ [c])
        (mkWorker (CommandQueue_push c (wk_queue w)) (wk_phase w) (wk_app w) (wk_called w))
  | run_pushFront order w c : worker_run a order w -> running (wk_phase w) ->
      worker_run a (wk_called w ++ batch (wk_phase w) ++ c :: q_contents (wk_queue w))
        (mkWorker (CommandQueue_pushFront c (wk_queue w)) (wk_phase w) (wk_app w) (wk_called w))
  | run_step order w w' : worker_run a order w -> worker_step w = Some w' ->
      worker_run a (order ++ pushed_by w) w'.

Context `{!MTQueueOk Q}.

Lemma isEmpty_contents (q : Q C) : CommandQueue_isEmpty q = true <-> q_contents q = [].
Proof. unfold CommandQueue_isEmpty, q_isEmpty. by destruct (q_contents q). Qed.

(** A step calls at most the first waiting command. *)
Lemma worker_step_spec w w' :
  worker_step w = Some w' ->
  running (wk_phase w) /\
  ((running (wk_phase w') /\ wk_called w' ++ waiting w' = wk_called w ++ waiting w ++ pushed_by w) \/
   (exists rest, waiting w' = rest /\ ~ running (wk_phase w') /\
      wk_called w' `prefix_of` wk_called w ++ waiting w)).
Proof.
  unfold worker_step, waiting, pushed_by. destruct (wk_phase w) as [| | |[|c l]| |] eqn:Hp; try done; simpl.
  - intros Hs. split; [done|]. destruct (stopRunning (wk_app w)); injection Hs as <-.
    + right. eexists. split_and!; auto. simpl. by apply prefix_app_r.
    + left. simpl. by rewrite app_nil_r.
  - intros Hs. split; [done|]. left. destruct (CommandQueue_isEmpty (wk_queue w)).
    + destruct (notifyIdle (wk_app w)) as [[] a]; injection Hs as <-; simpl; by rewrite app_nil_r.
    + injection Hs as <-. simpl. by rewrite app_nil_r.
  - intros Hs. split; [done|]. left. destruct (CommandQueue_isEmpty (wk_queue w)); [done|].
    destruct (popAll_spec (wk_queue w)) as [H1 H2].
    destruct (CommandQueue_popAll (wk_queue w)) as [l q]. simpl in *. subst l. injection Hs as <-.
    simpl. by rewrite H2.
  - intros [= <-]. split; [done|]. left. simpl. by rewrite app_nil_r.
  - destruct (call c (wk_app w)) as [[ok a] pushed]. intros Hs. split; [done|].
    assert (wk_called w ++ [c] `prefix_of` wk_called w ++ c :: l ++ q_contents (wk_queue w)) as Hpre.
    { apply prefix_app. by exists (l ++ q_contents (wk_queue w)). }
    destruct ok; simpl in Hs; [destruct (stopRunning a)|]; injection Hs as <-; [right; eauto| |right; eauto].
    left. split; [done|]. simpl. rewrite q_contents_pushAll. by rewrite <-!app_assoc.
Qed.

Lemma worker_run_order a order w :
  worker_run a order w ->
  (running (wk_phase w) -> order = wk_called w ++ waiting w) /\ wk_called w `prefix_of` order.
Proof.
  induction 1 as [|order w c _ [IH _] Hr|order w c _ [IH _] Hr|order w w' _ [IH _] Hs].
  - unfold waiting. simpl. rewrite q_contents_empty. done.
  - unfold waiting in *. simpl. rewrite (IH Hr). unfold CommandQueue_push. rewrite q_contents_push.
    split; [intros _; by rewrite <-!app_assoc|]. rewrite <-!app_assoc. by apply prefix_app_r.
  - unfold waiting. simpl. unfold CommandQueue_pushFront. rewrite q_contents_pushFront.
    split; [done|]. by apply prefix_app_r.
  - destruct (worker_step_spec w w' Hs) as [Hr [[Hr' Heq]|(rest & _ & Hn & Hpre)]]; rewrite (IH Hr).
    + rewrite <-app_assoc, <-Heq. split; [done|]. by apply prefix_app_r.
    + split; [done|]. by apply prefix_app_r.
Qed.

(** Left alone, a worker that is not stopped calls everything that waits. *)
Fixpoint worker_steps (fuel : nat) (w : Worker) : Worker :=
  match fuel with
  | O => w
  | S fuel => match worker_step w with Some w' => worker_steps fuel w' | None => w end
  end.

Section quiet.

Context (Hcall : forall c a, exists a', call c a = (true, a', [])).
Context (Hstop : forall a, stopRunning a = false) (Hidle : forall a, (notifyIdle a).1 = false).

Lemma batch_step q c l a called :
  exists a', worker_step (mkWorker q (W_Batch (c :: l)) a called) = Some (mkWorker q (W_Batch l) a' (called ++ [c])).
Proof.
  destruct (Hcall c a) as (a' & Hc). exists a'. unfold worker_step. cbn [wk_phase wk_app wk_queue wk_called].
  rewrite Hc. cbn [negb]. by rewrite Hstop.
Qed.

Lemma worker_steps_batch l q a called fuel :
  exists a', worker_steps (length l + fuel) (mkWorker q (W_Batch l) a called)
    = worker_steps fuel (mkWorker q (W_Batch []) a' (called ++ l)).
Proof.
  revert a called. induction l as [|c l IH]; intros a called.
  { exists a. by rewrite app_nil_r. }
  destruct (batch_step q c l a called) as (a1 & Hs). cbn [length Nat.add worker_steps]. rewrite Hs.
  destruct (IH a1 (called ++ [c])) as (a2 & ->). exists a2. by rewrite <-app_assoc.
Qed.

Lemma worker_blocks q a called :
  q_contents q = [] -> worker_step (mkWorker q W_Pop a called) = None.
Proof. intros Hq%isEmpty_contents. unfold worker_step. cbn [wk_phase wk_queue]. by rewrite Hq. Qed.

Lemma worker_steps_blocked q a called fuel :
  q_contents q = [] -> worker_steps fuel (mkWorker q W_Pop a called) = mkWorker q W_Pop a called.
Proof. intros Hq. destruct fuel as [|fuel]; [done|]. cbn [worker_steps]. by rewrite worker_blocks. Qed.

(** From the top of the loop to [popAll]. *)
Lemma idle_step q a called : exists a', worker_step (mkWorker q W_Idle a called) = Some (mkWorker q W_Pop a' called).
Proof.
  unfold worker_step. cbn [wk_phase wk_app wk_queue wk_called]. destruct (CommandQueue_isEmpty q); [|by exists a].
  pose proof (Hidle a) as Hi. destruct (notifyIdle a) as [[] a']; [done|]. by exists a'.
Qed.

Lemma loop_steps q a called fuel :
  exists a', worker_steps (S (S fuel)) (mkWorker q W_Loop a called) = worker_steps fuel (mkWorker q W_Pop a' called).
Proof.
  destruct (idle_step q a called) as (a' & Hi). exists a'.
  assert (worker_step (mkWorker q W_Loop a called) = Some (mkWorker q W_Idle a called)) as Hl
    by (unfold worker_step; cbn [wk_phase wk_app]; by rewrite Hstop).
  cbn [worker_steps]. by rewrite Hl, Hi.
Qed.

Lemma worker_drains_batch l q a called fuel :
  q_contents q = [] -> (length l + 3 <= fuel)%nat ->
  let w' := worker_steps fuel (mkWorker q (W_Batch l) a called) in
  wk_called w' = called ++ l /\ worker_step w' = None.
Proof.
  intros Hq Hf. replace fuel with (length l + S (S (S (fuel - length l - 3))))%nat by lia.
  destruct (worker_steps_batch l q a called (S (S (S (fuel - length l - 3))))) as (a' & ->).
  cbn [worker_steps]. change (worker_step (mkWorker q (W_Batch []) a' (called ++ l))) with (Some (mkWorker q W_Loop a' (called ++ l))).
  destruct (loop_steps q a' (called ++ l) (fuel - length l - 3)) as (a2 & E). cbn [worker_steps] in E |- *. rewrite E.
  rewrite worker_steps_blocked by done. split; [done|]. by apply worker_blocks.
Qed.

Lemma worker_drains_pop q a called fuel :
  (length (q_contents q) + 4 <= fuel)%nat ->
  let w' := worker_steps fuel (mkWorker q W_Pop a called) in
  wk_called w' = called ++ q_contents q /\ worker_step w' = None.
Proof.
  intros Hf. destruct (decide (q_contents q = [])) as [Hq|Hq].
  { rewrite worker_steps_blocked, Hq, app_nil_r by done. split; [done|]. by apply worker_blocks. }
  destruct fuel as [|fuel]; [lia|]. cbn [worker_steps]. destruct (popAll_spec q) as [H1 H2].
  assert (worker_step (mkWorker q W_Pop a called) =
    Some (mkWorker (CommandQueue_popAll q).2 (W_Batch (CommandQueue_popAll q).1) a called)) as ->.
  { unfold worker_step. cbn [wk_phase wk_queue wk_app wk_called]. destruct (CommandQueue_isEmpty q) eqn:He; [by apply isEmpty_contents in He|].
    by destruct (CommandQueue_popAll q). }
  rewrite H1. apply worker_drains_batch; [done|lia].
Qed.

Lemma worker_drains_loop q a called fuel :
  (length (q_contents q) + 6 <= fuel)%nat ->
  let w' := worker_steps fuel (mkWorker q W_Loop a called) in
  wk_called w' = called ++ q_contents q /\ worker_step w' = None.
Proof.
  intros Hf. destruct fuel as [|[|fuel]]; [lia|lia|]. destruct (loop_steps q a called fuel) as (a' & ->).
  apply worker_drains_pop. lia.
Qed.

Lemma worker_drains w fuel :
  running (wk_phase w) -> (length (waiting w) + 7 <= fuel)%nat ->
  wk_called (worker_steps fuel w) = wk_called w ++ waiting w /\ worker_step (worker_steps fuel w) = None.
Proof.
  destruct w as [q p a called]. unfold waiting. cbn [wk_phase wk_queue wk_called]. intros Hr Hf.
  destruct p as [| | |l| |]; try done; cbn [batch app] in *.
  - apply worker_drains_loop. lia.
  - destruct fuel as [|fuel]; [lia|]. cbn [worker_steps]. destruct (idle_step q a called) as (a' & ->). apply worker_drains_pop. lia.
  - apply worker_drains_pop. lia.
  - rewrite length_app in Hf. replace fuel with (length l + S (fuel - length l - 1))%nat by lia.
    destruct (worker_steps_batch l q a called (S (fuel - length l - 1))) as (a' & ->). cbn [worker_steps].
    change (worker_step (mkWorker q (W_Batch []) a' (called ++ l))) with (Some (mkWorker q W_Loop a' (called ++ l))).
    cbv beta iota. rewrite app_assoc. apply worker_drains_loop. lia.
Qed.

End quiet.

End worker.

(** ** Properties *)

(** C25: Workers call their commands once and in order.  However pushes by other
    threads and by the commands themselves interleave with the worker, the
    commands it has called are a prefix of the commands it was given, in order,
    so that none is skipped or called twice before the worker ends; and while it
    runs, as long as commands succeed and do not stop it, it calls all of them
    and then waits for more. *)
Theorem worker_calls_in_order {Q : Type -> Type} `{!MTQueue Q, !MTQueueOk Q} {C App : Type}
    (call : C -> App -> bool * App * list C) stopRunning notifyIdle a order w :
  worker_run call stopRunning notifyIdle a order (w : Worker (Q := Q)) ->
  wk_called w `prefix_of` order /\
  (running (wk_phase w) ->
   (forall c a, exists a', call c a = (true, a', [])) -> (forall a, stopRunning a = false) ->
   (forall a, (notifyIdle a).1 = false) ->
   let w' := worker_steps call stopRunning notifyIdle (length (waiting w) + 7) w in
   wk_called w' = order /\ worker_step call stopRunning notifyIdle w' = None).
Proof.
  intros Hrun. destruct (worker_run_order _ _ _ _ _ _ Hrun) as [Ho Hp]. split; [done|].
  intros Hr Hc Hs Hi. rewrite (Ho Hr). by apply worker_drains.
Qed.

(** Commands that add their number to a counter; the third one is pushed to the
    front while the first two are being called. *)
Definition count_call (c a : Z) : bool * Z * list Z := (true, a + c, []).
Definition count_worker : Worker (Q := list) :=
  mkWorker [3] (W_Batch [2]) 1 [1].

Lemma worker_calls_in_order_witness :
  worker_run (Q := list) count_call (fun _ => false) (fun a => (false, a)) 0 [1; 2; 3] count_worker /\
  wk_called (worker_steps count_call (fun _ => false) (fun a => (false, a)) 9 count_worker) = [1; 2; 3].
Proof.
  assert (worker_run (Q := list) count_call (fun _ => false) (fun a => (false, a)) 0 [1; 2; 3] count_worker) as Hrun.
  { pose proof (run_init (Q := list) count_call (fun _ => false) (fun a => (false, a)) 0) as H.
    eapply (run_push _ _ _ _ _ _ 1) in H; [|done]. eapply (run_push _ _ _ _ _ _ 2) in H; [|done].
    do 4 (eapply run_step in H; [|done]).
    eapply (run_pushFront _ _ _ _ _ _ 3) in H; [|done]. exact H. }
  split; [done|].
  pose proof (worker_calls_in_order (Q := list) count_call (fun _ => false) (fun a => (false, a)) 0
    [1; 2; 3] count_worker Hrun) as [_ H].
  apply H; [done| |done|done]. intros c a. by eexists.
Defined.
