(* ===== verification/Commands.v ===== *)
(** * Commands (co/oCommand.cpp, iCommand.cpp, objectOCommand.cpp, objectICommand.cpp,
    objectDataOCommand.cpp, objectDataICommand.cpp, commands.h)

    A command is a buffer that starts with its size, type and command number.
    [OCommand] writes one through a saving [DataOStream] and sends it when it is
    destroyed, padded to [COMMAND_MINSIZE]; with [sendHeader] further data
    follows the header on the locked connections.  [ICommand] is the input
    stream over a received buffer. *)

From S2P Require Import Prelude Bytes Lunchbox DataOStream DataIStream Serialize Transfer.

Definition COMMAND_MINSIZE : Z := 256.
Definition COMMANDTYPE_NODE : Z := 0.
Definition COMMANDTYPE_OBJECT : Z := 1.
Definition COMMANDTYPE_INVALID : Z := 0xFFFFFFFF.
Definition CMD_INVALID : Z := 0xFFFFFFFF.
Definition CMD_OBJECT_INSTANCE : Z := 0.
Definition CMD_OBJECT_DELTA : Z := 1.
Definition CMD_OBJECT_SLAVE_DELTA : Z := 2.
Definition CMD_OBJECT_MAX_VERSION : Z := 3.

(** ** Sending *)

(** [oc_wire] is what went out on each connection, [oc_dispatched] the buffer
    handed to the local dispatcher. *)
Record OCommand := mkOCommand {
  oc_stream : DataOStream;
  oc_isLocked : bool;
  oc_size : Z;
  oc_dispatcher : bool;
  oc_wire : bytes;
  oc_dispatched : option bytes
}.

Section sending.

Context `{!Pression, !Lunchbox} (be : bool).
Context (threshold objectBufferSize : Z).

(** The memory behind the data, which pads a short send. *)
Context (padding : nat -> bytes).

(** The buffer with the size field updated. *)
Definition patchSize (size : Z) (b : bytes) : bytes := enc be 8 size ++ drop 8 b.

Definition OCommand_sendData (o : OCommand) (c : SendCall) : OCommand :=
  let b := patchSize (oc_size o + sc_size c) (buffer (oc_stream o)) in
  let sent := take (Z.to_nat (sc_size c)) b ++
    (if oc_isLocked o then [] else padding (Z.to_nat (COMMAND_MINSIZE - sc_size c))) in
  mkOCommand (set_buffer b (oc_stream o)) (oc_isLocked o) (oc_size o) (oc_dispatcher o)
    (oc_wire o ++ sent) (oc_dispatched o).

(** Run a stream operation, sending what it hands over. *)
Definition on_stream (o : OCommand) (f : DataOStream -> DataOStream * list SendCall) : OCommand :=
  let '(s, out) := f (oc_stream o) in
  fold_left OCommand_sendData out
    (mkOCommand s (oc_isLocked o) (oc_size o) (oc_dispatcher o) (oc_wire o) (oc_dispatched o)).

Definition oc_writes (o : OCommand) (ws : list bytes) : OCommand :=
  on_stream o (fun s => writes threshold objectBufferSize s ws).

(** The constructors and [_init]; the command's stream has no compressor. *)
Definition OCommand_init (name : Z) (dispatcher : bool) (receivers : list Z) (cmd type : Z) : OCommand :=
  let s := setupConnections (DataOStream_init name false) receivers in
  let s := enable_ (enableSave s) in
  oc_writes (mkOCommand s false 0 dispatcher [] None)
    (write_item be 8 0 ++ write_item be 4 type ++ write_item be 4 cmd).

Definition sendHeader (o : OCommand) (additionalSize : Z) : OCommand :=
  on_stream (mkOCommand (oc_stream o) true additionalSize (oc_dispatcher o) (oc_wire o) (oc_dispatched o))
    (fun s => flush threshold s true).

(** More data on the locked connections, by the owner of the command. *)
Definition sendRaw (o : OCommand) (data : bytes) : OCommand :=
  mkOCommand (oc_stream o) (oc_isLocked o) (oc_size o) (oc_dispatcher o) (oc_wire o ++ data)
    (oc_dispatched o).

(** The destructor. *)
Definition OCommand_destroy (o : OCommand) : OCommand :=
  let o :=
    if oc_isLocked o then
      let size := oc_size o + size_of (buffer (oc_stream o)) in
      let o := if size <? COMMAND_MINSIZE
               then sendRaw o (padding (Z.to_nat (COMMAND_MINSIZE - size))) else o in
      mkOCommand (reset (oc_stream o)) false 0 (oc_dispatcher o) (oc_wire o) (oc_dispatched o)
    else on_stream o (fun s => disable threshold s) in
  if oc_dispatcher o then
    let b := buffer (oc_stream o) in
    mkOCommand (oc_stream o) (oc_isLocked o) (oc_size o) true (oc_wire o)
      (Some (patchSize (size_of b) b))
  else o.

(** A plain command with the given arguments, from construction to destruction. *)
Definition OCommand_send (name : Z) (dispatcher : bool) (receivers : list Z) (cmd type : Z)
    (args : list bytes) : OCommand :=
  OCommand_destroy (oc_writes (OCommand_init name dispatcher receivers cmd type) args).

Definition ObjectOCommand_init (name : Z) (receivers : list Z) (cmd type id instanceID : Z) : OCommand :=
  oc_writes (OCommand_init name false receivers cmd type)
    (write_u128 be id ++ write_item be 4 instanceID).

(** [ObjectDataOCommand] for a call [c] of its stream's [sendData]; the size it
    announces is that of the compressed data or, if there is none, the data's. *)
Definition ObjectDataOCommand_size (c : SendCall) : Z :=
  let size := if sc_compressor c =? EQ_COMPRESSOR_NONE then 0
              else chunksSize (sc_chunks c) + sc_nChunks c * 8 in
  if size =? 0 then sc_size c else size.

Definition ObjectDataOCommand_init (name : Z) (receivers : list Z)
    (cmd type id instanceID version sequence : Z) (c : SendCall) : OCommand :=
  oc_writes (ObjectOCommand_init name receivers cmd type id instanceID)
    (write_u128 be version ++ write_item be 8 (sc_size c) ++ write_item be 4 sequence ++
     write_bool be (sc_last c) ++
     write_item be 4 (sc_compressor c) ++ write_item be 4 (sc_nChunks c)).

(** Its destructor, after the caller streamed [args]. *)
Definition ObjectDataOCommand_destroy (o : OCommand) (c : SendCall) : OCommand :=
  let size := ObjectDataOCommand_size c in
  let o := if size >? 0 then sendRaw (sendHeader o size) (sendBody be c) else o in
  OCommand_destroy o.

Definition ObjectDataOCommand_send (name : Z) (receivers : list Z)
    (cmd type id instanceID version sequence : Z) (c : SendCall) (args : list bytes) : OCommand :=
  ObjectDataOCommand_destroy
    (oc_writes (ObjectDataOCommand_init name receivers cmd type id instanceID version sequence c) args) c.

End sending.

(** ** Receiving *)

Record CommandBuffer := mkCommandBuffer { cb_buffer : option bytes; cb_consumed : bool }.

Record ICommand := mkICommand {
  ic_stream : DataIStream CommandBuffer;
  ic_size : Z;
  ic_type : Z;
  ic_cmd : Z
}.

Record ObjectICommand := mkObjectICommand {
  oic_command : ICommand;
  oic_objectID : Z;
  oic_instanceID : Z
}.

Record ObjectDataICommand := mkObjectDataICommand {
  odc_command : ObjectICommand;
  odc_version : Z;
  odc_datasize : Z;
  odc_sequence : Z;
  odc_isLast : bool;
  odc_compressor : Z;
  odc_chunks : Z
}.

Section receiving.

Context `{!Pression, !Lunchbox} (ber : bool).

(** [ICommand::getNextBuffer]: the size is read in the host's byte order. *)
Definition ICommand_getNextBuffer (cb : CommandBuffer) : option NextBuffer * CommandBuffer :=
  let cb := if cb_consumed cb then mkCommandBuffer None (cb_consumed cb) else cb in
  match cb_buffer cb with
  | None => (None, cb)
  | Some b =>
      let size := dec ber (take 8 b) in
      (Some (mkNextBuffer EQ_COMPRESSOR_NONE 1 (take (Z.to_nat size) b) size None),
       mkCommandBuffer (Some b) true)
  end.

Definition CommandBuffer_source : BufferSource CommandBuffer := {|
  getNextBuffer := ICommand_getNextBuffer;
  buffersLeft cb :=
    match cb_buffer cb with Some _ => if cb_consumed cb then 0%nat else 1%nat | None => 0%nat end;
|}.
#[local] Existing Instance CommandBuffer_source.

(** [*this >> value] on the command's stream. *)
Definition read_field {T} (r : T -> DataIStream CommandBuffer -> T * DataIStream CommandBuffer)
    (old : T) (c : ICommand) : T * ICommand :=
  let '(v, st) := r old (ic_stream c) in (v, mkICommand st (ic_size c) (ic_type c) (ic_cmd c)).

Definition ICommand_new (b : option bytes) (swap_ : bool) : ICommand :=
  let st := DataIStream_init swap_ (mkCommandBuffer b false) in
  match b with
  | None => mkICommand st 0 COMMANDTYPE_INVALID CMD_INVALID
  | Some _ =>
      let '(size, st) := read_item ber 8 0 st in
      let '(type, st) := read_item ber 4 COMMANDTYPE_INVALID st in
      let '(cmd, st) := read_item ber 4 CMD_INVALID st in
      mkICommand st size type cmd
  end.

Definition isValid (c : ICommand) : bool :=
  match cb_buffer (source (ic_stream c)) with
  | Some (_ :: _) =>
      negb (ic_type c =? COMMANDTYPE_INVALID) && negb (ic_cmd c =? CMD_INVALID) && (ic_size c >? 0)
  | _ => false
  end.

Definition skipHeader (c : ICommand) : ICommand :=
  if isValid c then
    let '(n, st) := getRemainingBufferSize ber (ic_stream c) in
    let st := if n >=? 16 then (getRemainingBuffer ber 16 st).2 else st in
    mkICommand st (ic_size c) (ic_type c) (ic_cmd c)
  else c.

Definition ICommand_copy (rhs : ICommand) : ICommand :=
  skipHeader (mkICommand
    (DataIStream_init (swap (ic_stream rhs))
       (mkCommandBuffer (cb_buffer (source (ic_stream rhs))) false))
    (ic_size rhs) (ic_type rhs) (ic_cmd rhs)).

Definition setType (type : Z) (c : ICommand) : ICommand :=
  mkICommand (ic_stream c) (ic_size c) type (ic_cmd c).
Definition setCommand (cmd : Z) (c : ICommand) : ICommand :=
  mkICommand (ic_stream c) (ic_size c) (ic_type c) cmd.

Definition CO_INSTANCE_INVALID : Z := 0xfffffffe.

Definition ObjectICommand_of (command : ICommand) : ObjectICommand :=
  let c := ICommand_copy command in
  if isValid c then
    let '(objectID, c) := read_field (read_u128 ber) 0 c in
    let '(instanceID, c) := read_field (read_item ber 4) CO_INSTANCE_INVALID c in
    mkObjectICommand c objectID instanceID
  else mkObjectICommand c 0 CO_INSTANCE_INVALID.

Definition ObjectDataICommand_of (command : ICommand) : ObjectDataICommand :=
  let o := ObjectICommand_of command in
  let c := oic_command o in
  if isValid c then
    let '(version, c) := read_field (read_u128 ber) 0 c in
    let '(datasize, c) := read_field (read_item ber 8) 0 c in
    let '(sequence, c) := read_field (read_item ber 4) 0 c in
    let '(isLast, c) := read_field (read_bool ber) false c in
    let '(compressor, c) := read_field (read_item ber 4) EQ_COMPRESSOR_NONE c in
    let '(chunks, c) := read_field (read_item ber 4) 1 c in
    mkObjectDataICommand (mkObjectICommand c (oic_objectID o) (oic_instanceID o))
      version datasize sequence isLast compressor chunks
  else mkObjectDataICommand o 0 0 0 false EQ_COMPRESSOR_NONE 1.

End receiving.

(** ** Lemmas *)

Section lemmas.

Context `{!Pression, !Lunchbox, !LunchboxOk} (be : bool).
Context (threshold objectBufferSize : Z) (padding : nat -> bytes).
Context (length_padding : forall n, length (padding n) = n).

(** A command under construction that has been given the writes [ws]. *)
Record building (o : OCommand) (ws : list bytes) : Prop := {
  bd_state : state (oc_stream o) = STATE_UNCOMPRESSED;
  bd_buffer : buffer (oc_stream o) = concat ws;
  bd_start : bufferStart (oc_stream o) = 0;
  bd_good : isGood (oc_stream o) = false;
  bd_enabled : enabled (oc_stream o) = true;
  bd_save : save (oc_stream o) = true;
  bd_locked : oc_isLocked o = false;
  bd_size : oc_size o = 0;
  bd_wire : oc_wire o = [];
}.

Lemma writes_small s ws :
  bufferStart s = 0 -> size_of (buffer s ++ concat ws) <= objectBufferSize ->
  writes threshold objectBufferSize s ws = (set_buffer (buffer s ++ concat ws) s, []).
Proof.
  revert s. induction ws as [|w ws IH]; intros s Hs Hsz; cbn [writes concat].
  { rewrite app_nil_r. by destruct s. }
  cbn [concat] in Hsz. rewrite !size_of_app in Hsz.
  pose proof (size_of_nonneg w). pose proof (size_of_nonneg (concat ws)).
  unfold write_. rewrite Hs. destruct (Z.gtb_spec (size_of (buffer s) - 0) objectBufferSize); [lia|].
  rewrite IH; [|done|].
  - cbn. by rewrite <-app_assoc.
  - cbn. rewrite !size_of_app. lia.
Qed.

Lemma oc_writes_building o ws ws' :
  building o ws -> size_of (concat (ws ++ ws')) <= objectBufferSize ->
  building (oc_writes be threshold objectBufferSize padding o ws') (ws ++ ws') /\
  connections (oc_stream (oc_writes be threshold objectBufferSize padding o ws')) =
    connections (oc_stream o) /\
  oc_dispatcher (oc_writes be threshold objectBufferSize padding o ws') = oc_dispatcher o.
Proof.
  intros [] Hsz. rewrite concat_app in Hsz. unfold oc_writes, on_stream.
  rewrite writes_small by (rewrite ?bd_buffer0; done). cbn.
  split_and!; [constructor; cbn; try done|done|done]. by rewrite bd_buffer0, concat_app.
Qed.

(** The header of every command. *)
Definition header (cmd type : Z) : list bytes :=
  write_item be 8 0 ++ write_item be 4 type ++ write_item be 4 cmd.

Lemma OCommand_init_building name disp conns cmd type :
  16 <= objectBufferSize ->
  let o := OCommand_init be threshold objectBufferSize padding name disp conns cmd type in
  building o (header cmd type) /\ connections (oc_stream o) = conns /\ oc_dispatcher o = disp.
Proof.
  intros Ho. unfold OCommand_init.
  destruct (oc_writes_building (mkOCommand (enable_ (enableSave (setupConnections
    (DataOStream_init name false) conns))) false 0 disp [] None) [] (header cmd type))
    as (Hb & Hc & Hd); [by constructor| |by split_and!].
  unfold header, write_item. simpl. rewrite app_nil_r, !size_of_app. unfold size_of.
  rewrite !length_enc. lia.
Qed.

(** The first write of a command is its size field. *)
Lemma patchSize_header size cmd type ws :
  patchSize be size (concat (header cmd type ++ ws)) =
    concat (write_item be 8 size ++ write_item be 4 type ++ write_item be 4 cmd ++ ws).
Proof.
  unfold patchSize, header, write_item. simpl.
  rewrite drop_app_length' by (by rewrite length_enc). by rewrite <-?app_assoc.
Qed.

Lemma patchSize_size size b : 8 <= size_of b -> size_of (patchSize be size b) = size_of b.
Proof.
  intros Hb. unfold patchSize. rewrite size_of_app. unfold size_of in *.
  rewrite length_enc, length_drop. lia.
Qed.

(** Commands are never compressed. *)
Lemma compress_not_good s src r :
  isGood s = false -> state s = STATE_UNCOMPRESSED -> r <> STATE_UNCOMPRESSED ->
  compress_ threshold s src r = set_state STATE_UNCOMPRESSED s.
Proof.
  intros Hg Hs Hr. unfold compress_. rewrite Hs, Hg.
  by rewrite (bool_decide_eq_false_2 (_ = r)), bool_decide_eq_false_2.
Qed.

(** Sending a whole command. *)
Lemma destroy_wire o ws :
  building o ws -> concat ws <> [] -> connections (oc_stream o) <> [] -> oc_dispatcher o = false ->
  oc_wire (OCommand_destroy be threshold padding o) =
    take (Z.to_nat (size_of (concat ws))) (patchSize be (size_of (concat ws)) (concat ws)) ++
    padding (Z.to_nat (COMMAND_MINSIZE - size_of (concat ws))).
Proof.
  intros [] Hne Hc Hd. unfold OCommand_destroy. rewrite bd_locked0. unfold on_stream, disable.
  rewrite bd_enabled0. cbn -[size_of Z.gtb]. rewrite bd_buffer0.
  pose proof (size_of_pos _ Hne). rewrite (proj2 (Z.gtb_lt _ _)) by lia.
  destruct (connections (oc_stream o)) eqn:Hcs; [done|]. rewrite bd_start0, bd_state0.
  change (bool_decide (STATE_UNCOMPRESSED = STATE_PARTIAL)) with false. rewrite andb_false_r.
  rewrite Z.eqb_refl, compress_not_good by done. cbn -[size_of]. rewrite bd_save0. cbn -[size_of]. rewrite Hd. cbn -[size_of].
  rewrite bd_buffer0, bd_locked0, bd_size0, bd_wire0, Z.sub_0_r. done.
Qed.

(** Sending a header with more data behind it. *)
Lemma data_destroy_wire o ws c :
  building o ws -> connections (oc_stream o) <> [] -> oc_dispatcher o = false ->
  let size := ObjectDataOCommand_size c in
  0 < size -> 8 <= size_of (concat ws) ->
  oc_wire (ObjectDataOCommand_destroy be threshold padding o c) =
    take (Z.to_nat (size_of (concat ws)))
      (patchSize be (size + size_of (concat ws)) (concat ws)) ++ sendBody be c ++
    padding (Z.to_nat (COMMAND_MINSIZE - (size + size_of (concat ws)))).
Proof.
  intros [] Hc Hd size Hsz H8. unfold ObjectDataOCommand_destroy. fold size.
  rewrite (proj2 (Z.gtb_lt _ _)) by lia. unfold sendHeader, on_stream, flush. cbn -[size_of].
  destruct (connections (oc_stream o)) eqn:Hcs; [done|].
  rewrite compress_not_good by done. unfold window. cbn -[size_of]. rewrite bd_start0, bd_buffer0.
  unfold resetBuffer. cbn -[size_of]. rewrite bd_save0. unfold OCommand_destroy.
  cbn -[size_of Z.ltb]. rewrite bd_buffer0, bd_wire0. change (Z.to_nat 0) with 0%nat.
  cbn [drop]. rewrite patchSize_size by done.
  destruct (Z.ltb_spec (size + size_of (concat ws)) COMMAND_MINSIZE) as [|Hge];
    cbn -[size_of]; rewrite Hd, bd_buffer0; cbn -[size_of].
  - by rewrite app_nil_r, <-app_assoc.
  - rewrite app_nil_r. replace (Z.to_nat (COMMAND_MINSIZE - _)) with 0%nat by lia.
    by rewrite (nil_length_inv (padding 0)), app_nil_r.
Qed.

End lemmas.

Section receiving_lemmas.

Context `{!Pression, !Lunchbox, !LunchboxOk} (be : bool).

#[local] Hint Extern 0 (BufferSource CommandBuffer) => exact (CommandBuffer_source be) : typeclass_instances.

#[local] Instance command_sourceOk : BufferSourceOk CommandBuffer.
Proof.
  split. intros [[b|] []] nb cb'; simpl; unfold ICommand_getNextBuffer; simpl; try done.
  intros [= <- <-]. simpl. lia.
Qed.

Abbreviation cholds := (holds be false).

(** A stream inside the buffer [b] of a command with the contents [body]: the
    bytes [done] have been read. *)
Definition cursor (b body done : bytes) : DataIStream CommandBuffer :=
  mkDataIStream (Some body) (size_of body) (size_of done) false (mkCommandBuffer (Some b) true).

(** A buffer received for the contents [body]: its size field, and padding. *)
Definition buffer_of (b body : bytes) : Prop :=
  exists rest, b = body ++ rest /\ dec be (take 8 b) = size_of body /\
    8 <= size_of body /\ is_u64 (size_of body).

Abbreviation start b := (DataIStream_init false (mkCommandBuffer (Some b) false)).

Lemma checkBuffer_start b body :
  buffer_of b body -> checkBuffer be (start b) = (true, cursor b body []).
Proof.
  intros (rest & -> & Hd & H8 & H64). unfold checkBuffer.
  cbn -[take dec Z.ltb size_of decompress_]. rewrite Z.ltb_irrefl.
  rewrite Hd. replace (take (Z.to_nat (size_of body)) (body ++ rest)) with body
    by (unfold size_of; rewrite Nat2Z.id; by rewrite take_app_length).
  unfold decompress_. rewrite Z.eqb_refl. by rewrite (proj2 (Z.ltb_lt _ _)) by lia.
Qed.

Lemma checkBuffer_cursor b pre w post :
  w <> [] -> checkBuffer be (cursor b (pre ++ w ++ post) pre) = (true, cursor b (pre ++ w ++ post) pre).
Proof.
  intros Hw%size_of_pos. unfold checkBuffer. cbn [buffersLeft checkBuffer_loop].
  cbn [position inputSize cursor]. rewrite !size_of_app. pose proof (size_of_nonneg post).
  by rewrite (proj2 (Z.ltb_lt _ _)) by lia.
Qed.

(** Streams that behave as if they were at [done]: inside, or about to enter. *)
Definition at_ (b body done : bytes) (ist : DataIStream CommandBuffer) : Prop :=
  buffer_of b body /\ (ist = cursor b body done \/ ist = start b /\ done = []).

Lemma checkBuffer_at b pre w post ist :
  at_ b (pre ++ w ++ post) pre ist -> w <> [] ->
  checkBuffer be ist = (true, cursor b (pre ++ w ++ post) pre).
Proof.
  intros [Hb [-> | [-> ->]]] Hw; [by apply checkBuffer_cursor|by apply checkBuffer_start].
Qed.

Lemma read_at b body pre w post ist :
  at_ b body pre ist -> body = pre ++ w ++ post -> w <> [] ->
  read_ be (size_of w) ist = (Some w, cursor b body (pre ++ w)).
Proof.
  intros Ha -> Hw. unfold read_. rewrite (checkBuffer_at _ _ _ _ _ Ha Hw).
  cbn [inputSize position cursor]. rewrite !size_of_app. pose proof (size_of_nonneg post).
  destruct (Z.gtb_spec (size_of w) (size_of pre + (size_of w + size_of post) - size_of pre)); [lia|].
  unfold at_position, advance, cursor. cbn [input position inputSize swap source from_option id].
  rewrite !size_of_app. unfold size_of at 1 2. rewrite !Nat2Z.id.
  by rewrite drop_app_length, take_app_length.
Qed.

Lemma read_item_at n v old b body pre post ist :
  at_ b body pre ist -> body = pre ++ enc be n v ++ post -> (0 < n)%nat -> wf_uint n v ->
  read_item be n old ist = (v, cursor b body (pre ++ enc be n v)).
Proof.
  intros Ha Hb Hn Hv. unfold read_item. rewrite <-(size_of_enc be n v).
  rewrite (read_at _ _ _ _ _ _ Ha Hb) by (by apply enc_nonempty).
  cbn [from_option id isSwapping swap cursor]. by rewrite dec_enc.
Qed.

Lemma read_u128_at v old b body pre post ist :
  at_ b body pre ist -> body = pre ++ enc128 be v ++ post -> is_u128 v ->
  read_u128 be old ist = (v, cursor b body (pre ++ enc128 be v)).
Proof.
  intros Ha Hb Hv. unfold read_u128. rewrite <-(size_of_enc128 be v).
  rewrite (read_at _ _ _ _ _ _ Ha Hb) by apply enc128_nonempty.
  cbn [from_option id isSwapping swap cursor]. by rewrite dec128_enc128.
Qed.

Lemma read_bool_at (v : bool) old b body pre post ist :
  at_ b body pre ist -> body = pre ++ enc be 1 (if v then 1 else 0) ++ post ->
  read_bool be old ist = (v, cursor b body (pre ++ enc be 1 (if v then 1 else 0))).
Proof.
  intros Ha Hb. unfold read_bool. rewrite (read_item_at _ _ _ _ _ _ _ _ Ha Hb); [by destruct v|lia|].
  by destruct v.
Qed.

Lemma at_cursor b body done : buffer_of b body -> at_ b body done (cursor b body done).
Proof. intros Hb. split; auto. Qed.

(** What is left at a cursor can be read as the writes it consists of. *)
Lemma cursor_holds b pre ws :
  buffer_of b (pre ++ concat ws) -> holds be false (cursor b (pre ++ concat ws) pre) ws.
Proof.
  intros (rest & _ & _ & _ & H64). exists ws, []. cbn [concat]. rewrite app_nil_r.
  unfold cursor. cbn [swap position inputSize input source from_option id].
  pose proof (size_of_nonneg pre). pose proof (size_of_nonneg (concat ws)). rewrite size_of_app in *.
  split_and!; auto; try lia.
  - unfold size_of. rewrite Nat2Z.id. apply drop_app_length.
  - by eapply supplies_nil.
Qed.

(** The header of a received command of the given size. *)
Definition rheader (size type cmd : Z) : bytes := enc be 8 size ++ enc be 4 type ++ enc be 4 cmd.

Ltac next_field := first [eapply at_cursor; eassumption | by rewrite <-?app_assoc | lia | done].

Lemma ICommand_new_spec b body type cmd tail :
  buffer_of b body -> body = rheader (size_of body) type cmd ++ tail ->
  wf_uint 4 type -> wf_uint 4 cmd ->
  ICommand_new be (Some b) false =
    mkICommand (cursor b body (rheader (size_of body) type cmd)) (size_of body) type cmd.
Proof.
  intros Hb Hbody Ht Hc. pose proof Hb as (rest & _ & _ & H8 & H64). unfold ICommand_new.
  unfold rheader in *. set (size := size_of body) in *.
  erewrite (read_item_at 8 size 0 b body []); [|split; auto|simpl; by rewrite Hbody, <-app_assoc|lia|done].
  erewrite (read_item_at 4 type); [|next_field|rewrite Hbody; simpl; by rewrite <-!app_assoc|lia|done].
  erewrite (read_item_at 4 cmd); [|next_field|rewrite Hbody; simpl; by rewrite <-!app_assoc|lia|done].
  simpl. by rewrite <-!app_assoc.
Qed.

(** A command holds the buffer [b] and is valid. *)
Definition carries (c : ICommand) (b : bytes) : Prop :=
  cb_buffer (source (ic_stream c)) = Some b /\ swap (ic_stream c) = false /\ isValid c = true.

Lemma ICommand_copy_spec c b body type cmd tail :
  carries c b -> buffer_of b body -> body = rheader (size_of body) type cmd ++ tail ->
  ICommand_copy be c =
    mkICommand (cursor b body (rheader (size_of body) type cmd)) (ic_size c) (ic_type c) (ic_cmd c).
Proof.
  intros (Hcb & Hsw & Hv) Hb Hbody. unfold ICommand_copy, skipHeader. rewrite Hcb, Hsw.
  unfold isValid in *. cbn [ic_stream source DataIStream_init cb_buffer ic_type ic_cmd ic_size].
  rewrite Hcb in Hv. rewrite Hv. unfold getRemainingBufferSize.
  rewrite (checkBuffer_start b body Hb). cbn [inputSize position cursor].
  set (h := rheader _ _ _) in *.
  assert (size_of h = 16) as Hh
    by (unfold h, rheader; rewrite !size_of_app, !size_of_enc; lia).
  pose proof (size_of_nonneg tail). assert (size_of body = 16 + size_of tail) as Hsz
    by (rewrite Hbody at 1; by rewrite size_of_app, Hh).
  change (size_of []) with 0. destruct (Z.geb_spec (size_of body - 0) 16); [|lia].
  pose proof Hb as (rest & _ & _ & _ & H64).
  unfold getRemainingBuffer.
  assert (checkBuffer be (cursor b body []) = (true, cursor b body [])) as ->.
  { pose proof (checkBuffer_cursor b [] h tail) as Hcc. simpl app in Hcc. rewrite <-Hbody in Hcc.
    apply Hcc. intros E. by rewrite E in Hh. }
  cbn [position inputSize cursor]. change (size_of []) with 0.
  rewrite u64_small by (unfold is_u64 in *; lia).
  destruct (Z.gtb_spec (0 + 16) (size_of body)); [lia|].
  unfold advance, cursor. cbn [input inputSize position swap source cursor snd]. by rewrite Hh.
Qed.

Lemma carries_cursor b body done size type cmd :
  size > 0 -> buffer_of b body -> type <> COMMANDTYPE_INVALID -> cmd <> CMD_INVALID ->
  carries (mkICommand (cursor b body done) size type cmd) b.
Proof.
  intros Hs (rest & Hb & _ & H8 & _) Ht Hc. split_and!; try done.
  unfold isValid. cbn [ic_stream source cursor cb_buffer ic_type ic_cmd ic_size].
  destruct b as [|x b]; [destruct body; [by unfold size_of in H8; simpl in H8; lia|done]|].
  rewrite (proj2 (Z.eqb_neq _ _)), (proj2 (Z.eqb_neq _ _)), (proj2 (Z.gtb_lt _ _)) by (auto; lia).
  done.
Qed.

(** The fields of a data command. *)
Definition data_fields (id inst version size seq : Z) (last : bool) (comp chunks : Z) : bytes :=
  enc128 be id ++ enc be 4 inst ++ enc128 be version ++ enc be 8 size ++ enc be 4 seq ++
  enc be 1 (if last then 1 else 0) ++ enc be 4 comp ++ enc be 4 chunks.

Lemma ObjectDataICommand_spec c b body type cmd id inst version size seq last comp chunks tail :
  carries c b -> buffer_of b body ->
  body = rheader (size_of body) type cmd ++
         data_fields id inst version size seq last comp chunks ++ tail ->
  is_u128 id -> wf_uint 4 inst -> is_u128 version -> wf_uint 8 size -> wf_uint 4 seq ->
  wf_uint 4 comp -> wf_uint 4 chunks ->
  ObjectDataICommand_of be c =
    mkObjectDataICommand
      (mkObjectICommand
        (mkICommand (cursor b body (rheader (size_of body) type cmd ++
             data_fields id inst version size seq last comp chunks))
           (ic_size c) (ic_type c) (ic_cmd c)) id inst)
      version size seq last comp chunks.
Proof.
  intros Hc Hb Hbody Hid Hi Hv Hs Hq Hco Hch. unfold ObjectDataICommand_of, ObjectICommand_of.
  rewrite (ICommand_copy_spec _ _ _ _ _ _ Hc Hb Hbody).
  assert (forall done, isValid (mkICommand (cursor b body done) (ic_size c) (ic_type c) (ic_cmd c)) = true)
    as Hval.
  { intros done. destruct Hc as (Hcb & _ & Hval). unfold isValid in *.
    cbn [ic_stream source cursor cb_buffer ic_type ic_cmd ic_size]. by rewrite Hcb in Hval. }
  rewrite Hval. unfold read_field. cbn [ic_stream ic_size ic_type ic_cmd].
  set (h := rheader _ _ _) in *. unfold data_fields in *.
  erewrite (read_u128_at id); [|next_field|rewrite Hbody; by rewrite <-!app_assoc|done].
  erewrite (read_item_at 4 inst); [|next_field|rewrite Hbody; by rewrite <-!app_assoc|lia|done].
  cbn [oic_command oic_objectID oic_instanceID ic_stream ic_size ic_type ic_cmd]. rewrite Hval.
  erewrite (read_u128_at version); [|next_field|rewrite Hbody; by rewrite <-!app_assoc|done].
  erewrite (read_item_at 8 size); [|next_field|rewrite Hbody; by rewrite <-!app_assoc|lia|done].
  erewrite (read_item_at 4 seq); [|next_field|rewrite Hbody; by rewrite <-!app_assoc|lia|done].
  erewrite (read_bool_at last); [|next_field|rewrite Hbody; by rewrite <-!app_assoc].
  erewrite (read_item_at 4 comp); [|next_field|rewrite Hbody; by rewrite <-!app_assoc|lia|done].
  erewrite (read_item_at 4 chunks); [|next_field|rewrite Hbody; by rewrite <-!app_assoc|lia|done].
  by rewrite <-!app_assoc.
Qed.

End receiving_lemmas.

(** ** From command to command *)

Section commands.

Context `{!Pression, !Lunchbox, !LunchboxOk} (be : bool).
Context (threshold objectBufferSize : Z) (padding : nat -> bytes).
Context (length_padding : forall n, length (padding n) = n).

Abbreviation sendcmd := (OCommand_send be threshold objectBufferSize padding).

Lemma rheader_size size type cmd : size_of (rheader be size type cmd) = 16.
Proof. unfold rheader. rewrite !size_of_app, !size_of_enc. lia. Qed.

Lemma header_size type cmd ws : size_of (concat (header be cmd type ++ ws)) = 16 + size_of (concat ws).
Proof.
  rewrite concat_app, size_of_app. unfold header, write_item. simpl concat.
  rewrite app_nil_r, !size_of_app, !size_of_enc. lia.
Qed.

Lemma patched_header size type cmd ws :
  patchSize be size (concat (header be cmd type ++ ws)) = rheader be size type cmd ++ concat ws.
Proof.
  rewrite patchSize_header. unfold rheader, write_item. simpl. by rewrite <-!app_assoc.
Qed.

(** A patched buffer is a well-formed command buffer. *)
Lemma buffer_of_patched size type cmd tail rest :
  size = size_of (rheader be size type cmd ++ tail) -> is_u64 size ->
  buffer_of be ((rheader be size type cmd ++ tail) ++ rest) (rheader be size type cmd ++ tail).
Proof.
  intros Hs H64. exists rest. split_and!; [done| | |by rewrite <-Hs].
  - rewrite <-Hs. unfold rheader. rewrite <-!app_assoc.
    rewrite take_app_length' by (by rewrite length_enc). by apply dec_enc.
  - rewrite size_of_app, rheader_size. pose proof (size_of_nonneg tail). lia.
Qed.

Lemma OCommand_send_wire name conns cmd type args :
  conns <> [] -> 16 + size_of (concat args) <= objectBufferSize ->
  let size := 16 + size_of (concat args) in
  oc_wire (sendcmd name false conns cmd type args) =
    (rheader be size type cmd ++ concat args) ++ padding (Z.to_nat (COMMAND_MINSIZE - size)).
Proof.
  intros Hc Ho size. pose proof (size_of_nonneg (concat args)).
  destruct (OCommand_init_building be threshold objectBufferSize padding name false conns cmd type)
    as (Hb & Hcs & Hd); [lia|].
  destruct (oc_writes_building be threshold objectBufferSize padding _ _ args Hb) as (Hb' & Hcs' & Hd').
  { by rewrite header_size. }
  unfold OCommand_send. rewrite (destroy_wire be threshold padding _ _ Hb').
  - rewrite header_size, patched_header. fold size. f_equal. apply take_ge.
    assert (size_of (rheader be size type cmd ++ concat args) = size) as Hs
      by (rewrite size_of_app, rheader_size; lia).
    unfold size_of in Hs. lia.
  - intros E%(f_equal size_of). rewrite header_size in E. change (size_of []) with 0 in E. lia.
  - rewrite Hcs', Hcs. done.
  - rewrite Hd'. done.
Qed.

End commands.

(** Commands arrive as they were sent.  The bytes an [OCommand] puts on a
    connection are at least [COMMAND_MINSIZE] long, and the [ICommand] built
    from them has the command's size, type and number, is valid, and its stream
    yields the arguments that were streamed in, for arguments of any streamable
    type and any padding memory. *)
Theorem command_roundtrip `{!Pression, !PressionOk, !Lunchbox, !LunchboxOk}
    be it its threshold obs padding name conns cmd type t (x old : denote t) :
  (forall n, length (padding n) = n) ->
  (forall V (m : gmap Z V), it V m ≡ₚ map_to_list m) -> (forall s, its s ≡ₚ elements s) ->
  conns <> [] -> 0 <= cmd < CMD_INVALID -> 0 <= type < COMMANDTYPE_INVALID -> fits t x ->
  let args := stream (S := CommandBuffer) (BufferSource0 := CommandBuffer_source be) be be it its t in
  let size := 16 + size_of (concat (put args x)) in
  size <= obs -> is_u64 size ->
  let wire := oc_wire (OCommand_send be threshold obs padding name false conns cmd type (put args x)) in
  let c := ICommand_new be (Some wire) false in
  COMMAND_MINSIZE <= size_of wire /\
  ic_size c = size /\ ic_type c = type /\ ic_cmd c = cmd /\ isValid c = true /\
  (get args old (ic_stream c)).1 = x.
Proof.
  intros Hpad Hit Hits Hcs Hcmd Hty Hx args size Ho H64 wire c.
  unfold CMD_INVALID, COMMANDTYPE_INVALID in *.
  assert (wire = (rheader be size type cmd ++ concat (put args x)) ++
    padding (Z.to_nat (COMMAND_MINSIZE - size))) as Hw by (by apply OCommand_send_wire).
  set (body := rheader be size type cmd ++ concat (put args x)) in *.
  assert (size_of body = size) as Hs by (unfold body; rewrite size_of_app, rheader_size; lia).
  assert (buffer_of be wire body) as Hb by (rewrite Hw; by apply buffer_of_patched).
  assert (c = mkICommand (cursor wire body (rheader be size type cmd)) size type cmd) as Hc.
  { unfold c. rewrite <-Hs at 1 2. apply (ICommand_new_spec be _ _ _ _ (concat (put args x))); [done| | |].
    - rewrite Hs. done.
    - unfold wf_uint. lia.
    - unfold wf_uint. lia. }
  rewrite Hc. split_and!; try done.
  - rewrite Hw, size_of_app. unfold size_of at 2. rewrite Hpad. lia.
  - eapply (carries_cursor be); [unfold is_u64 in *; pose proof (size_of_nonneg (concat (put args x))); lia
      | done | unfold COMMANDTYPE_INVALID; lia | unfold CMD_INVALID; lia].
  - pose proof (@stream_ok _ _ _ CommandBuffer (CommandBuffer_source be) (command_sourceOk be)
      be be it its Hit Hits t x Hx) as (_ & _ & Hget).
    rewrite xorb_nilpotent in Hget.
    destruct (Hget old (cursor wire body (rheader be size type cmd)) []) as (ist & E & _).
    { rewrite app_nil_r. by apply cursor_holds. }
    cbn [ic_stream]. fold args in E. by rewrite E.
Qed.

Lemma command_roundtrip_witness :
  let args := @stream store_Pression native_Lunchbox CommandBuffer
    (@CommandBuffer_source store_Pression true) true true (fun V => map_to_list) elements
    (TPair TString TU128) in
  let wire := oc_wire (@OCommand_send store_Pression true 0 60000
    (fun n => replicate n 170) 0 false [1] 39 COMMANDTYPE_NODE (put args ([79; 107], 12))) in
  size_of wire = 256 /\
  (get args ([], 0) (ic_stream (@ICommand_new store_Pression native_Lunchbox true (Some wire) false))).1
    = ([79; 107], 12).
Proof.
  intros args wire. split; [by vm_compute|].
  refine (proj2 (proj2 (proj2 (proj2 (proj2 (@command_roundtrip store_Pression store_PressionOk
    native_Lunchbox native_LunchboxOk true (fun V => map_to_list) elements 0 60000
    (fun n => replicate n 170) 0 [1] 39 COMMANDTYPE_NODE (TPair TString TU128) ([79; 107], 12) ([], 0)
    (fun n => length_replicate n 170) (fun V m => Permutation_refl _) (fun s => Permutation_refl _)
    ltac:(done) _ _ _ _ _)))))).
  - unfold CMD_INVALID. lia.
  - unfold COMMANDTYPE_NODE, COMMANDTYPE_INVALID. lia.
  - split; [|by split]. unfold fits, wf_string, is_u64, size_of. simpl. lia.
  - by vm_compute.
  - by vm_compute.
Defined.
