(* ===== verification/CustomCommands.v ===== *)
(** * Custom commands (customOCommand.cpp, customICommand.cpp, localNode.cpp)

    An application sends its own commands under 128-bit identifiers: a
    [CustomOCommand] is a node command whose first argument is the identifier.
    The receiving [LocalNode] looks the identifier up in the table of registered
    handlers and calls the handler, or pushes the command to the queue it was
    registered with, whose thread calls it later.  Every hand-over copies the
    [ICommand], and a copy reads its buffer from the start again. *)

From S2P Require Import Prelude Bytes Lunchbox DataOStream DataIStream Serialize Transfer Commands.

Definition CMD_NODE_COMMAND : Z := 40.

(** ** Sending *)

Section sending.

Context `{!Pression, !Lunchbox} (be : bool).
Context (threshold objectBufferSize : Z) (padding : nat -> bytes).

Abbreviation writes_ := (oc_writes be threshold objectBufferSize padding).

Definition CustomOCommand_init (name : Z) (dispatcher : bool) (receivers : list Z) (commandID : Z) : OCommand :=
  writes_ (OCommand_init be threshold objectBufferSize padding name dispatcher receivers
    CMD_NODE_COMMAND COMMANDTYPE_NODE) (write_u128 be commandID).

(** The copy constructors of [DataOStream] and [OCommand]: the copy takes over the
    buffer and the connections, with a fresh compressor of the given name; the
    original is disabled. *)
Definition DataOStream_copy (name : Z) (rhs : DataOStream) : DataOStream :=
  mkDataOStream (state rhs) (buffer rhs) (bufferStart rhs) (dataSize rhs) (compressedDataSize rhs)
    (connections rhs) name false [] (enabled rhs) (dataSent rhs) (save rhs).
Definition DataOStream_moved (rhs : DataOStream) : DataOStream * list SendCall :=
  disable threshold (setupConnections (set_buffer [] rhs) []).

Definition OCommand_copy (name : Z) (rhs : OCommand) : OCommand * OCommand :=
  (mkOCommand (DataOStream_copy name (oc_stream rhs)) (oc_isLocked rhs) (oc_size rhs) (oc_dispatcher rhs) [] None,
   on_stream be padding rhs DataOStream_moved).

Definition ObjectOCommand_copy (name : Z) (rhs : OCommand) : OCommand := (OCommand_copy name rhs).1.

(** [CustomOCommand]'s copy constructor runs [_init] again. *)
Definition CustomOCommand_copy (name : Z) (commandID : Z) (rhs : OCommand) : OCommand :=
  writes_ (OCommand_copy name rhs).1 (write_u128 be commandID).

(** From construction to destruction, with the arguments streamed in between. *)
Definition CustomOCommand_send (name : Z) (dispatcher : bool) (receivers : list Z) (commandID : Z)
    (args : list bytes) : OCommand :=
  OCommand_destroy be threshold padding (writes_ (CustomOCommand_init name dispatcher receivers commandID) args).

Context `{!LunchboxOk} (length_padding : forall n, length (padding n) = n).

Lemma CustomOCommand_building name conns id :
  32 <= objectBufferSize ->
  let o := CustomOCommand_init name false conns id in
  building o (header be CMD_NODE_COMMAND COMMANDTYPE_NODE ++ write_u128 be id) /\
  connections (oc_stream o) = conns /\ oc_dispatcher o = false.
Proof.
  intros Ho. destruct (OCommand_init_building be threshold objectBufferSize padding name false conns
    CMD_NODE_COMMAND COMMANDTYPE_NODE) as (Hb & Hc & Hd); [lia|].
  destruct (oc_writes_building be threshold objectBufferSize padding _ _ (write_u128 be id) Hb) as (Hb' & Hc' & Hd').
  { rewrite header_size. unfold write_u128. simpl. rewrite app_nil_r, size_of_enc128. lia. }
  unfold CustomOCommand_init. split_and!; [done|by rewrite Hc'|by rewrite Hd'].
Qed.

(** What a command that was built with the given arguments puts on the wire. *)
Lemma building_wire o cmd type args :
  building o (header be cmd type ++ args) -> connections (oc_stream o) <> [] -> oc_dispatcher o = false ->
  let size := 16 + size_of (concat args) in
  oc_wire (OCommand_destroy be threshold padding o)
  = (rheader be size type cmd ++ concat args) ++ padding (Z.to_nat (COMMAND_MINSIZE - size)).
Proof.
  intros Hb Hc Hd size. pose proof (size_of_nonneg (concat args)).
  rewrite (destroy_wire be threshold padding _ _ Hb); [| |done|done].
  - rewrite header_size, patched_header. fold size. f_equal. apply take_ge.
    assert (size_of (rheader be size type cmd ++ concat args) = size) as Hs
      by (rewrite size_of_app, rheader_size; lia).
    unfold size_of in Hs. lia.
  - intros E%(f_equal size_of). rewrite header_size in E. change (size_of []) with 0 in E. lia.
Qed.

Lemma CustomOCommand_wire name conns id args :
  conns <> [] -> 32 + size_of (concat args) <= objectBufferSize ->
  let size := 16 + size_of (concat (write_u128 be id ++ args)) in
  oc_wire (CustomOCommand_send name false conns id args)
  = (rheader be size COMMANDTYPE_NODE CMD_NODE_COMMAND ++ concat (write_u128 be id ++ args)) ++
    padding (Z.to_nat (COMMAND_MINSIZE - size)).
Proof.
  intros Hcs Ho. pose proof (size_of_nonneg (concat args)).
  destruct (CustomOCommand_building name conns id) as (Hb & Hc & Hd); [lia|].
  destruct (oc_writes_building be threshold objectBufferSize padding _ _ args Hb) as (Hb' & Hc' & Hd').
  { rewrite <-app_assoc, header_size, concat_app, size_of_app. unfold write_u128. simpl.
    rewrite app_nil_r, size_of_enc128. lia. }
  rewrite <-app_assoc in Hb'. apply (building_wire _ _ _ _ Hb').
  - by rewrite Hc', Hc.
  - by rewrite Hd', Hd.
Qed.

(** A copy continues the command, but carries its identifier twice. *)
Lemma OCommand_copy_building name o ws :
  building o ws -> building (OCommand_copy name o).1 ws /\
    connections (oc_stream (OCommand_copy name o).1) = connections (oc_stream o) /\
    oc_dispatcher (OCommand_copy name o).1 = oc_dispatcher o /\
    oc_wire (OCommand_copy name o).2 = oc_wire o.
Proof.
  intros [B1 B2 B3 B4 B5 B6 B7 B8 B9]. unfold OCommand_copy. cbn [fst snd]. split_and!; [by constructor|done|done|].
  unfold on_stream, DataOStream_moved, disable. cbn. by rewrite B5.
Qed.

Lemma CustomOCommand_copy_wire name conns id args :
  conns <> [] -> 48 + size_of (concat args) <= objectBufferSize ->
  let size := 16 + size_of (concat (write_u128 be id ++ write_u128 be id ++ args)) in
  oc_wire (OCommand_destroy be threshold padding
    (writes_ (CustomOCommand_copy name id (CustomOCommand_init name false conns id)) args))
  = (rheader be size COMMANDTYPE_NODE CMD_NODE_COMMAND ++
       concat (write_u128 be id ++ write_u128 be id ++ args)) ++
    padding (Z.to_nat (COMMAND_MINSIZE - size)).
Proof.
  intros Hcs Ho. pose proof (size_of_nonneg (concat args)). unfold CustomOCommand_copy.
  destruct (CustomOCommand_building name conns id) as (Hb & Hc & Hd); [lia|].
  destruct (OCommand_copy_building name _ _ Hb) as (Hb1 & Hc1 & Hd1 & _).
  destruct (oc_writes_building be threshold objectBufferSize padding _ _ (write_u128 be id) Hb1) as (Hb2 & Hc2 & Hd2).
  { rewrite <-app_assoc, header_size. unfold write_u128. simpl.
    rewrite app_nil_r, size_of_app, !size_of_enc128. lia. }
  destruct (oc_writes_building be threshold objectBufferSize padding _ _ args Hb2) as (Hb3 & Hc3 & Hd3).
  { rewrite <-!app_assoc, header_size, !concat_app, !size_of_app. unfold write_u128. simpl.
    rewrite app_nil_r, !size_of_enc128. lia. }
  rewrite <-!app_assoc in Hb3. apply (building_wire _ _ _ _ Hb3).
  - rewrite Hc3, Hc2, Hc1, Hc. exact Hcs.
  - rewrite Hd3, Hd2, Hd1. exact Hd.
Qed.

End sending.

(** ** Receiving *)

Record CustomICommand := mkCustomICommand { cic_command : ICommand; cic_commandID : Z }.

Section receiving.

Context `{!Pression, !Lunchbox} (be : bool).
Context {F Queue App : Type} `{!EqDecision Queue}.

(** Calling a registered handler. *)
Context (run : F -> CustomICommand -> App -> bool * App).

#[local] Hint Extern 0 (BufferSource CommandBuffer) => exact (CommandBuffer_source be) : typeclass_instances.

(** Both constructors copy the command and read the identifier again. *)
Definition CustomICommand_of (command : ICommand) : CustomICommand :=
  let c := ICommand_copy be command in
  if isValid c then
    let '(commandID, c) := read_field (read_u128 be) 0 c in mkCustomICommand c commandID
  else mkCustomICommand c 0.

Definition getCommandID (c : CustomICommand) : Z := cic_commandID c.

(** The handlers and the contents of the queues they are registered with. *)
Record Handlers := mkHandlers {
  commandHandlers : gmap Z (F * option Queue);
  queues : Queue -> list ICommand;
  h_app : App;
}.

Definition registerCommandHandler (command : Z) (func : F) (queue : option Queue) (h : Handlers) :
    bool * Handlers :=
  match commandHandlers h !! command with
  | Some _ => (false, h)
  | None => (true, mkHandlers (<[command := (func, queue)]> (commandHandlers h)) (queues h) (h_app h))
  end.

Definition call_handler (func : F) (command : ICommand) (h : Handlers) : bool * Handlers :=
  let '(ok, a) := run func (CustomICommand_of command) (h_app h) in
  (ok, mkHandlers (commandHandlers h) (queues h) a).

(** A queue stores a copy of the command, and hands out a copy. *)
Definition push_queue (q : Queue) (command : ICommand) (h : Handlers) : Handlers :=
  mkHandlers (commandHandlers h)
    (fun q' => if decide (q' = q) then queues h q' ++ [ICommand_copy be command] else queues h q') (h_app h).

Definition pop_queue (q : Queue) (h : Handlers) : option ICommand * Handlers :=
  match queues h q with
  | [] => (None, h)
  | c :: l =>
      (Some (ICommand_copy be c),
       mkHandlers (commandHandlers h) (fun q' => if decide (q' = q) then l else queues h q') (h_app h))
  end.

Definition _cmdCommand (command : ICommand) (h : Handlers) : bool * Handlers :=
  let '(commandID, command) := read_field (read_u128 be) 0 command in
  match commandHandlers h !! commandID with
  | None => (false, h)
  | Some (_, Some queue) => (true, push_queue queue command h)
  | Some (func, None) => call_handler func command h
  end.

Definition _cmdCommandAsync (command : ICommand) (h : Handlers) : bool * Handlers :=
  let '(commandID, command) := read_field (read_u128 be) 0 command in
  match commandHandlers h !! commandID with
  | None => (true, h) (* deregistered between dispatch and now *)
  | Some (func, _) => call_handler func command h
  end.

(** The thread of a queue takes the next command and calls it. *)
Definition serve_queue (q : Queue) (h : Handlers) : bool * Handlers :=
  match pop_queue q h with
  | (None, h) => (true, h)
  | (Some command, h) => _cmdCommandAsync command h
  end.

(** *** Lemmas *)

Context `{!LunchboxOk}.

(** A command whose buffer holds a custom command with the given identifier. *)
Definition custom_buffer (b body : bytes) (id : Z) (args : list bytes) : Prop :=
  buffer_of be b body /\ is_u128 id /\ is_u64 (size_of body) /\
  body = rheader be (size_of body) COMMANDTYPE_NODE CMD_NODE_COMMAND ++ enc128 be id ++ concat args.

Definition is_custom (c : ICommand) (b body : bytes) : Prop :=
  carries c b /\ ic_size c = size_of body /\ ic_type c = COMMANDTYPE_NODE /\ ic_cmd c = CMD_NODE_COMMAND.

(** The command with its stream after the header, and after the identifier. *)
Definition after_header (b body : bytes) : ICommand :=
  mkICommand (cursor b body (rheader be (size_of body) COMMANDTYPE_NODE CMD_NODE_COMMAND))
    (size_of body) COMMANDTYPE_NODE CMD_NODE_COMMAND.
Definition after_id (b body : bytes) (id : Z) : ICommand :=
  mkICommand (cursor b body (rheader be (size_of body) COMMANDTYPE_NODE CMD_NODE_COMMAND ++ enc128 be id))
    (size_of body) COMMANDTYPE_NODE CMD_NODE_COMMAND.

Lemma custom_cursor b body done_ id args :
  custom_buffer b body id args ->
  is_custom (mkICommand (cursor b body done_) (size_of body) COMMANDTYPE_NODE CMD_NODE_COMMAND) b body.
Proof.
  intros (Hb & _ & _ & _). split; [|done]. apply (carries_cursor be); [|done|done|done].
  destruct Hb as (_ & _ & _ & H8 & _). lia.
Qed.

Lemma custom_copy c b body id args :
  custom_buffer b body id args -> is_custom c b body -> ICommand_copy be c = after_header b body.
Proof.
  intros (Hb & _ & _ & Hbody) (Hc & Hs & Ht & Hm).
  rewrite (ICommand_copy_spec be c b body COMMANDTYPE_NODE CMD_NODE_COMMAND (enc128 be id ++ concat args)) by done.
  by rewrite Hs, Ht, Hm.
Qed.

Lemma custom_read_id b body id args old :
  custom_buffer b body id args ->
  read_field (read_u128 be) old (after_header b body) = (id, after_id b body id).
Proof.
  intros (Hb & Hid & _ & Hbody). unfold read_field, after_header. cbn [ic_stream ic_size ic_type ic_cmd].
  by erewrite (read_u128_at be id old b body _ (concat args)) by (first [by apply at_cursor | done]).
Qed.

Lemma CustomICommand_spec c b body id args :
  custom_buffer b body id args -> is_custom c b body ->
  CustomICommand_of c = mkCustomICommand (after_id b body id) id.
Proof.
  intros Hcb Hc. unfold CustomICommand_of. rewrite (custom_copy c b body id args) by done.
  destruct (custom_cursor b body (rheader be (size_of body) COMMANDTYPE_NODE CMD_NODE_COMMAND) id args Hcb)
    as ((_ & _ & Hv) & _).
  unfold after_header at 1. rewrite Hv. by rewrite (custom_read_id b body id args).
Qed.

(** What a command does at the receiver, and when the queue's thread serves it. *)
Lemma cmdCommand_spec b body id args h :
  custom_buffer b body id args ->
  _cmdCommand (after_header b body) h =
    match commandHandlers h !! id with
    | None => (false, h)
    | Some (_, Some queue) => (true, push_queue queue (after_header b body) h)
    | Some (func, None) =>
        let '(ok, a) := run func (mkCustomICommand (after_id b body id) id) (h_app h) in
        (ok, mkHandlers (commandHandlers h) (queues h) a)
    end.
Proof.
  intros Hcb. unfold _cmdCommand. rewrite (custom_read_id b body id args) by done.
  destruct (commandHandlers h !! id) as [[func [q|]]|]; [|by unfold call_handler;
    rewrite (CustomICommand_spec _ b body id args) by (first [done | by eapply custom_cursor])|done].
  unfold push_queue.
  rewrite (custom_copy (after_id b body id) b body id args) by (first [done | by eapply custom_cursor]).
  by rewrite (custom_copy (after_header b body) b body id args) by (first [done | by eapply custom_cursor]).
Qed.

Lemma cmdCommandAsync_spec b body id args h :
  custom_buffer b body id args ->
  _cmdCommandAsync (after_header b body) h =
    match commandHandlers h !! id with
    | None => (true, h)
    | Some (func, _) =>
        let '(ok, a) := run func (mkCustomICommand (after_id b body id) id) (h_app h) in
        (ok, mkHandlers (commandHandlers h) (queues h) a)
    end.
Proof.
  intros Hcb. unfold _cmdCommandAsync. rewrite (custom_read_id b body id args) by done.
  destruct (commandHandlers h !! id) as [[func q]|]; [|done]. unfold call_handler.
  by rewrite (CustomICommand_spec _ b body id args) by (first [done | by eapply custom_cursor]).
Qed.

End receiving.

(** ** From the wire to the handler *)

Section delivery.

Context `{!Pression, !Lunchbox, !LunchboxOk} (be : bool).
Context (threshold obs : Z) (padding : nat -> bytes).

(** What was sent arrives as a command with the identifier and the arguments. *)
Lemma custom_received name conns id args :
  conns <> [] -> is_u128 id -> 32 + size_of (concat args) <= obs -> is_u64 obs ->
  let wire := oc_wire (CustomOCommand_send be threshold obs padding name false conns id args) in
  exists body, custom_buffer be wire body id args /\
    ICommand_new be (Some wire) false = after_header be wire body.
Proof.
  intros Hcs Hid Ho H64 wire. set (size := 16 + size_of (concat (write_u128 be id ++ args))).
  set (body := rheader be size COMMANDTYPE_NODE CMD_NODE_COMMAND ++ concat (write_u128 be id ++ args)).
  assert (wire = body ++ padding (Z.to_nat (COMMAND_MINSIZE - size))) as Hw by (by apply CustomOCommand_wire).
  assert (size_of body = size) as Hs by (unfold body; rewrite size_of_app, rheader_size; lia).
  assert (is_u64 size) as Hs64.
  { unfold size, write_u128. simpl concat. rewrite size_of_app, size_of_enc128.
    pose proof (size_of_nonneg (concat args)). unfold is_u64 in *. lia. }
  assert (buffer_of be wire body) as Hb by (rewrite Hw; by apply buffer_of_patched).
  exists body. split; [split_and!; [done|done|by rewrite Hs|by rewrite Hs]|].
  rewrite (ICommand_new_spec be wire body COMMANDTYPE_NODE CMD_NODE_COMMAND (concat (write_u128 be id ++ args)));
    [done|done|by rewrite Hs| |]; unfold wf_uint, COMMANDTYPE_NODE, CMD_NODE_COMMAND; lia.
Qed.

(** After the identifier the stream holds the arguments. *)
Lemma custom_args b body id args :
  custom_buffer be b body id args ->
  DataIStream.holds (BufferSource0 := CommandBuffer_source be) be false (ic_stream (after_id be b body id)) args.
Proof.
  intros (Hb & _ & _ & Hbody). cbn [after_id ic_stream].
  set (h := rheader be (size_of body) COMMANDTYPE_NODE CMD_NODE_COMMAND) in *.
  pose proof (cursor_holds be b (h ++ enc128 be id) args) as Hh. rewrite <-app_assoc, <-Hbody in Hh. by apply Hh.
Qed.

(** A [CustomOCommand] that was copied after its construction sends its identifier
    twice: the handler finds it in front of the arguments. *)
Lemma custom_copy_repeats_id name conns id args :
  conns <> [] -> 48 + size_of (concat args) <= obs ->
  oc_wire (OCommand_destroy be threshold padding (oc_writes be threshold obs padding
    (CustomOCommand_copy be threshold obs padding name id
       (CustomOCommand_init be threshold obs padding name false conns id)) args))
  = oc_wire (CustomOCommand_send be threshold obs padding name false conns id (write_u128 be id ++ args)).
Proof.
  intros Hcs Ho. rewrite CustomOCommand_copy_wire, CustomOCommand_wire by
    (first [done | rewrite concat_app, size_of_app; unfold write_u128; simpl; rewrite app_nil_r, size_of_enc128; lia]).
  done.
Qed.

End delivery.

(** ** Properties *)

(** C32: Custom commands reach their handler.  A custom command sent with any
    streamable argument is received as a command for which the node finds the
    handler registered for its identifier: it is refused if there is none, the
    handler is called at once if it was registered without a queue, and
    otherwise the command is appended to that queue, and whenever the queue's
    thread pops it and the handler is still registered, it calls it.  Either way
    the handler gets the identifier and a stream that yields the argument,
    although the command was copied and partly read on the way. *)
Theorem custom_command_delivered `{!Pression, !PressionOk, !Lunchbox, !LunchboxOk}
    {F Queue App : Type} `{!EqDecision Queue} (run : F -> CustomICommand -> App -> bool * App)
    be it its threshold obs padding name conns id t (x old : denote t) :
  (forall n, length (padding n) = n) ->
  (forall V (m : gmap Z V), it V m ≡ₚ map_to_list m) -> (forall s, its s ≡ₚ elements s) ->
  conns <> [] -> is_u128 id -> fits t x ->
  let args := stream (S := CommandBuffer) (BufferSource0 := CommandBuffer_source be) be be it its t in
  32 + size_of (concat (put args x)) <= obs -> is_u64 obs ->
  let wire := oc_wire (CustomOCommand_send be threshold obs padding name false conns id (put args x)) in
  let c := ICommand_new be (Some wire) false in
  exists cc, getCommandID cc = id /\ (get args old (ic_stream (cic_command cc))).1 = x /\
  forall h : Handlers (F := F) (Queue := Queue) (App := App),
    match commandHandlers h !! id with
    | None => _cmdCommand be run c h = (false, h)
    | Some (func, None) =>
        _cmdCommand be run c h =
          let '(ok, a) := run func cc (h_app h) in (ok, mkHandlers (commandHandlers h) (queues h) a)
    | Some (func, Some q) =>
        exists c', _cmdCommand be run c h = (true, mkHandlers (commandHandlers h)
            (fun q' => if decide (q' = q) then queues h q' ++ [c'] else queues h q') (h_app h)) /\
          forall h' l func' q', commandHandlers h' !! id = Some (func', q') -> queues h' q = c' :: l ->
            (serve_queue be run q h').1 = (run func' cc (h_app h')).1 /\
            h_app (serve_queue be run q h').2 = (run func' cc (h_app h')).2 /\
            queues (serve_queue be run q h').2 q = l
    end.
Proof.
  intros Hpad Hit Hits Hcs Hid Hx args Ho H64 wire c.
  destruct (custom_received be threshold obs padding name conns id (put args x) Hcs Hid Ho H64)
    as (body & Hcb & Hc). fold wire in Hcb, Hc. fold c in Hc.
  exists (mkCustomICommand (after_id be wire body id) id). split; [done|]. split.
  { pose proof (@stream_ok _ _ _ CommandBuffer (CommandBuffer_source be) (command_sourceOk be)
      be be it its Hit Hits t x Hx) as (_ & _ & Hget). rewrite xorb_nilpotent in Hget.
    destruct (Hget old (ic_stream (after_id be wire body id)) []) as (ist & E & _).
    { rewrite app_nil_r. by apply custom_args. }
    cbn [cic_command]. fold args in E. by rewrite E. }
  intros h. rewrite Hc, (cmdCommand_spec be run wire body id (put args x) h Hcb).
  destruct (commandHandlers h !! id) as [[func [q|]]|]; [|done|done].
  exists (after_header be wire body). split.
  { unfold push_queue. by rewrite (custom_copy be _ wire body id (put args x)) by (first [done | by eapply custom_cursor]). }
  intros h' l func' q' Hf Hq. unfold serve_queue, pop_queue. rewrite Hq.
  rewrite (custom_copy be _ wire body id (put args x)) by (first [done | by eapply custom_cursor]).
  rewrite (cmdCommandAsync_spec be run wire body id (put args x)) by done. cbn [commandHandlers]. rewrite Hf.
  cbn [h_app]. destruct (run func' _ _) as [ok a]. cbn. by rewrite decide_True.
Qed.

(** Command 7 with the argument 99, for a handler that logs the identifier and the
    argument, registered without a queue and with queue 1. *)
Definition sample_run (log : bool) (c : CustomICommand) (a : list Z) : bool * list Z :=
  (log, a ++ [cic_commandID c; (@read_u128 store_Pression native_Lunchbox CommandBuffer
     (@CommandBuffer_source store_Pression false) false 0 (ic_stream (cic_command c))).1]).

Definition sample_handlers (queue : option Z) : Handlers (F := bool) (Queue := Z) (App := list Z) :=
  (registerCommandHandler 7 true queue (mkHandlers ∅ (fun _ => []) [])).2.

Lemma custom_command_delivered_witness :
  let wire := oc_wire (@CustomOCommand_send store_Pression native_Lunchbox false 0 60000
    (fun n => replicate n 170) 0 false [1] 7 (@write_u128 native_Lunchbox false 99)) in
  let c := @ICommand_new store_Pression native_Lunchbox false (Some wire) false in
  h_app (@_cmdCommand store_Pression native_Lunchbox false _ _ _ _ sample_run c (sample_handlers None)).2 = [7; 99] /\
  h_app (@serve_queue store_Pression native_Lunchbox false _ _ _ _ sample_run 1
    (@_cmdCommand store_Pression native_Lunchbox false _ _ _ _ sample_run c (sample_handlers (Some 1))).2).2 = [7; 99].
Proof.
  intros wire c.
  destruct (@custom_command_delivered store_Pression store_PressionOk native_Lunchbox native_LunchboxOk
    bool Z (list Z) _ sample_run false (fun V => map_to_list) elements 0 60000 (fun n => replicate n 170) 0 [1] 7
    TU128 99 0 (fun n => length_replicate n 170) (fun V m => Permutation_refl _) (fun s => Permutation_refl _))
    as (cc & Hid & Hx & Hh); [done|by vm_compute|by vm_compute|by vm_compute|by vm_compute|].
  cbv zeta in Hx, Hh. change (put _ _) with (@write_u128 native_Lunchbox false 99) in Hh.
  fold wire in Hh. fold c in Hh.
  assert (forall a, sample_run true cc a = (true, a ++ [7; 99])) as Hrun.
  { intros a. unfold sample_run. unfold getCommandID in Hid. rewrite Hid. do 3 f_equal. by f_equal. }
  split.
  - specialize (Hh (sample_handlers None)).
    change (commandHandlers (sample_handlers None) !! 7) with (Some (true, @None Z)) in Hh. by rewrite Hh, Hrun.
  - specialize (Hh (sample_handlers (Some 1))).
    change (commandHandlers (sample_handlers (Some 1)) !! 7) with (Some (true, Some 1)) in Hh.
    destruct Hh as (c' & Hc & Hserve). rewrite Hc. cbn [snd].
    destruct (Hserve (mkHandlers (commandHandlers (sample_handlers (Some 1)))
      (fun q' => if decide (q' = 1) then [] ++ [c'] else []) []) [] true (Some 1)) as (_ & Ha & _); [done|done|].
    refine (eq_trans Ha _). by rewrite Hrun.
Defined.
