(* ===== verification/ObjectStreams.v ===== *)
(** * Object data streams (co/objectDataOStream.cpp, objectInstanceDataOStream.cpp,
    objectDeltaDataOStream.cpp, objectSlaveDataOStream.cpp, objectDataIStream.cpp,
    dataIStreamQueue.cpp)

    The output streams of an object turn each packet of their [DataOStream] into
    an [ObjectDataOCommand] carrying the version and a sequence number; the input
    stream of an object collects the data commands of one version and reads from
    them once the last one arrived.  [DataIStreamQueue] sorts interleaved slave
    commits into complete streams. *)

From S2P Require Import Prelude Bytes Lunchbox DataOStream DataIStream Serialize Transfer Commands.

Definition CO_INSTANCE_NONE : Z := 0xfffffffd.
Definition CO_INSTANCE_ALL : Z := 0xffffffff.

Definition CMD_NODE_OBJECT_INSTANCE : Z := 32.
Definition CMD_NODE_OBJECT_INSTANCE_MAP : Z := 33.
Definition CMD_NODE_OBJECT_INSTANCE_COMMIT : Z := 34.
Definition CMD_NODE_OBJECT_INSTANCE_PUSH : Z := 35.
Definition CMD_NODE_OBJECT_INSTANCE_SYNC : Z := 36.

(** The three subclasses of [ObjectDataOStream]. *)
Inductive stream_kind := KInstance | KDelta | KSlave.

#[export] Instance stream_kind_eq_dec : EqDecision stream_kind.
Proof. solve_decision. Defined.

Record ObjectDataOStream := mkObjectDataOStream {
  os_kind : stream_kind;
  os_base : DataOStream;
  os_version : Z;
  os_sequence : Z;
  os_nodeID : Z;
  os_instanceID : Z;
  os_command : Z;
  os_commit : Z
}.

(** The parameters of one [ObjectDataOCommand] and the arguments streamed after it. *)
Record DataCommand := mkDataCommand {
  dc_cmd : Z;
  dc_type : Z;
  dc_id : Z;
  dc_instanceID : Z;
  dc_version : Z;
  dc_sequence : Z;
  dc_call : SendCall;
  dc_args : list bytes
}.

Section output.

Context `{!Pression, !Lunchbox} (be : bool).
Context (threshold objectBufferSize : Z).

(** The object's identifier, its instance identifier and that of its master. *)
Context (objectID objInstanceID masterInstanceID : Z).

(** [lunchbox::make_UUID()]: a fresh identifier after the given one. *)
Context (make_UUID : Z -> Z).

Definition with_base (os : ObjectDataOStream) (s : DataOStream) : ObjectDataOStream :=
  mkObjectDataOStream (os_kind os) s (os_version os) (os_sequence os) (os_nodeID os)
    (os_instanceID os) (os_command os) (os_commit os).

Definition ObjectDataOStream_init (kind : stream_kind) (name : Z) (good : bool) (uuid : Z) :
    ObjectDataOStream :=
  mkObjectDataOStream kind (DataOStream_init name good) VERSION_INVALID 0 0 CO_INSTANCE_ALL 0 uuid.

(** [ObjectDataOStream::reset] and [ObjectInstanceDataOStream::reset]. *)
Definition os_reset (os : ObjectDataOStream) : ObjectDataOStream :=
  match os_kind os with
  | KInstance => mkObjectDataOStream KInstance (reset (os_base os)) VERSION_INVALID 0 0
                   CO_INSTANCE_NONE 0 (os_commit os)
  | k => mkObjectDataOStream k (reset (os_base os)) VERSION_INVALID 0 (os_nodeID os)
           (os_instanceID os) (os_command os) (os_commit os)
  end.

(** [ObjectDataOStream::send]: number the packet and hand it to a command. *)
Definition os_send (os : ObjectDataOStream) (cmd type instanceID : Z) (c : SendCall)
    (args : list bytes) : ObjectDataOStream * DataCommand :=
  let sequence := os_sequence os in
  let next := if sc_last c then 0 else u32 (sequence + 1) in
  (mkObjectDataOStream (os_kind os) (os_base os) (os_version os) next (os_nodeID os)
     (os_instanceID os) (os_command os) (os_commit os),
   mkDataCommand cmd type objectID instanceID (os_version os) sequence c args).

(** The [sendData] of the three subclasses. *)
Definition instance_sendData (os : ObjectDataOStream) (c : SendCall) : ObjectDataOStream * DataCommand :=
  os_send os (os_command os) COMMANDTYPE_NODE (os_instanceID os) c
    (write_u128 be (os_nodeID os) ++ write_item be 4 objInstanceID).

Definition delta_sendData (os : ObjectDataOStream) (c : SendCall) : ObjectDataOStream * DataCommand :=
  os_send os CMD_OBJECT_DELTA COMMANDTYPE_OBJECT CO_INSTANCE_ALL c [].

Definition slave_sendData (os : ObjectDataOStream) (c : SendCall) : ObjectDataOStream * DataCommand :=
  let '(os, dc) := os_send os CMD_OBJECT_SLAVE_DELTA COMMANDTYPE_OBJECT masterInstanceID c
                     (write_u128 be (os_commit os)) in
  (if sc_last c
   then mkObjectDataOStream (os_kind os) (os_base os) (os_version os) (os_sequence os)
          (os_nodeID os) (os_instanceID os) (os_command os) (make_UUID (os_commit os))
   else os, dc).

Definition os_sendData (os : ObjectDataOStream) (c : SendCall) : ObjectDataOStream * DataCommand :=
  match os_kind os with
  | KInstance => instance_sendData os c
  | KDelta => delta_sendData os c
  | KSlave => slave_sendData os c
  end.

Fixpoint os_sendAll (os : ObjectDataOStream) (calls : list SendCall) :
    ObjectDataOStream * list DataCommand :=
  match calls with
  | [] => (os, [])
  | c :: calls =>
      let '(os, dc) := os_sendData os c in
      let '(os, dcs) := os_sendAll os calls in
      (os, dc :: dcs)
  end.

(** An operation of the base stream with the commands it sends. *)
Definition os_do (os : ObjectDataOStream) (f : DataOStream -> DataOStream * list SendCall) :
    ObjectDataOStream * list DataCommand :=
  let '(s, calls) := f (os_base os) in os_sendAll (with_base os s) calls.

(** Set the fields of an instance stream; the others ignore them. *)
Definition os_target (os : ObjectDataOStream) (command nodeID instanceID : Z) : ObjectDataOStream :=
  mkObjectDataOStream (os_kind os) (os_base os) (os_version os) (os_sequence os) nodeID instanceID
    command (os_commit os).

Definition os_setVersion (version : Z) (os : ObjectDataOStream) : ObjectDataOStream :=
  mkObjectDataOStream (os_kind os) (os_base os) version (os_sequence os) (os_nodeID os)
    (os_instanceID os) (os_command os) (os_commit os).

Definition os_open (conns : list Z) (os : ObjectDataOStream) : ObjectDataOStream :=
  with_base os (enable_ (setupConnections (os_base os) conns)).

Definition enableCommit (os : ObjectDataOStream) (version : Z) (conns : list Z) : ObjectDataOStream :=
  let os := match os_kind os with
            | KInstance => os_target os CMD_NODE_OBJECT_INSTANCE_COMMIT 0 CO_INSTANCE_NONE
            | _ => os
            end in
  os_open conns (os_setVersion version os).

Definition enablePush (os : ObjectDataOStream) (version : Z) (conns : list Z) : ObjectDataOStream :=
  os_open conns (os_setVersion version
    (os_target os CMD_NODE_OBJECT_INSTANCE_PUSH 0 CO_INSTANCE_NONE)).

Definition enableSync (os : ObjectDataOStream) (version nodeID requestID : Z) (conns : list Z) :
    ObjectDataOStream :=
  os_open conns (os_setVersion version (os_target os CMD_NODE_OBJECT_INSTANCE_SYNC nodeID requestID)).

Definition enableMap (os : ObjectDataOStream) (version nodeID conn instanceID : Z) : ObjectDataOStream :=
  os_open [conn] (os_setVersion version
    (os_target os CMD_NODE_OBJECT_INSTANCE_MAP nodeID instanceID)).

Definition enableSlaveCommit (os : ObjectDataOStream) (conn : Z) : ObjectDataOStream :=
  os_open [conn] (os_setVersion (make_UUID (os_version os)) os).

(** [_setupConnections], [_resend] and [_clearConnections]. *)
Definition os_resend (os : ObjectDataOStream) (conns : list Z) : ObjectDataOStream * list DataCommand :=
  let os := with_base os (setupConnections (os_base os) conns) in
  let '(os, dcs) := os_do os (resend threshold) in
  (with_base os (clearConnections (os_base os)), dcs).

Definition os_push (os : ObjectDataOStream) (conns : list Z) : ObjectDataOStream * list DataCommand :=
  os_resend (os_target os CMD_NODE_OBJECT_INSTANCE_PUSH 0 CO_INSTANCE_NONE) conns.

Definition os_sync (os : ObjectDataOStream) (nodeID requestID : Z) (conns : list Z) :
    ObjectDataOStream * list DataCommand :=
  os_resend (os_target os CMD_NODE_OBJECT_INSTANCE_SYNC nodeID requestID) conns.

Definition sendInstanceData (os : ObjectDataOStream) (conns : list Z) :
    ObjectDataOStream * list DataCommand :=
  os_resend (os_target os CMD_NODE_OBJECT_INSTANCE 0 CO_INSTANCE_NONE) conns.

Definition sendMapData (os : ObjectDataOStream) (nodeID conn instanceID : Z) :
    ObjectDataOStream * list DataCommand :=
  os_resend (os_target os CMD_NODE_OBJECT_INSTANCE_MAP nodeID instanceID) [conn].

(** What the application's [getInstanceData] or [pack] does with an enabled
    stream, up to and including [disable]. *)
Definition os_session (os : ObjectDataOStream) (ws : list bytes) :
    ObjectDataOStream * list DataCommand :=
  let '(os, dcs) := os_do os (fun s => writes threshold objectBufferSize s ws) in
  let '(os, dcs') := os_do os (disable threshold) in
  (os, dcs ++ dcs').

(** The bytes of a data command on the wire. *)
Definition dc_wire (padding : nat -> bytes) (conns : list Z) (dc : DataCommand) : bytes :=
  oc_wire (ObjectDataOCommand_send be threshold objectBufferSize padding 0 conns (dc_cmd dc)
    (dc_type dc) (dc_id dc) (dc_instanceID dc) (dc_version dc) (dc_sequence dc) (dc_call dc)
    (dc_args dc)).

End output.

(** ** Input *)

Record ObjectDataIStream := mkObjectDataIStream {
  is_commands : list ICommand;
  is_used : option ICommand;
  is_version : Z
}.

Section input.

Context `{!Pression, !Lunchbox} (be : bool).

Definition ObjectDataIStream_init : ObjectDataIStream :=
  mkObjectDataIStream [] None VERSION_INVALID.

Definition is_reset (st : ObjectDataIStream) : ObjectDataIStream := ObjectDataIStream_init.

Definition isReady (st : ObjectDataIStream) : bool := negb (is_version st =? VERSION_INVALID).

Definition odc_icommand (c : ObjectDataICommand) : ICommand := oic_command (odc_command c).

Definition getPendingVersion (st : ObjectDataIStream) : Z :=
  match last (is_commands st) with
  | None => VERSION_INVALID
  | Some c => odc_version (ObjectDataICommand_of be c)
  end.

Definition addDataCommand (st : ObjectDataIStream) (command : ICommand) : ObjectDataIStream :=
  let command := ObjectDataICommand_of be command in
  let st := mkObjectDataIStream (is_commands st ++ [ICommand_copy be (odc_icommand command)])
              (is_used st) (is_version st) in
  if odc_isLast command
  then mkObjectDataIStream (is_commands st) (is_used st) (getPendingVersion st)
  else st.

Definition hasInstanceData (st : ObjectDataIStream) : bool :=
  match is_used st, is_commands st with
  | Some c, _ | None, c :: _ => ic_cmd c =? CMD_OBJECT_INSTANCE
  | None, [] => false
  end.

Definition getDataSize (st : ObjectDataIStream) : Z :=
  fold_left (fun size c => size + ic_size c) (is_commands st) 0.

#[local] Hint Extern 0 (BufferSource CommandBuffer) => exact (CommandBuffer_source be) : typeclass_instances.

(** The data behind the fields and arguments of a data command. *)
Definition data_buffer (command : ObjectDataICommand) : NextBuffer :=
  let c := odc_icommand command in
  let c := if ic_cmd c =? CMD_OBJECT_INSTANCE then
             let '(_, c) := read_field (read_u128 be) 0 c in
             let '(_, c) := read_field (read_item be 4) 0 c in c
           else if ic_cmd c =? CMD_OBJECT_SLAVE_DELTA then (read_field (read_u128 be) 0 c).2
           else c in
  let '(n, st) := getRemainingBufferSize be (ic_stream c) in
  let '(data, st) := getRemainingBuffer be n st in
  mkNextBuffer (odc_compressor command) (odc_chunks command) (default [] data)
    (odc_datasize command) (Some (isSwapping st)).

Fixpoint getNextBuffer_loop (commands : list ICommand) (used : option ICommand) (version : Z) :
    option NextBuffer * ObjectDataIStream :=
  match commands with
  | [] => (None, mkObjectDataIStream [] None version)
  | c :: commands =>
      let used := ICommand_copy be c in
      if negb (isValid used) then (None, mkObjectDataIStream commands (Some used) version)
      else
        let command := ObjectDataICommand_of be used in
        if odc_datasize command =? 0 then getNextBuffer_loop commands (Some used) version
        else (Some (data_buffer command), mkObjectDataIStream commands (Some used) version)
  end.

Definition ObjectDataIStream_getNextBuffer (st : ObjectDataIStream) :
    option NextBuffer * ObjectDataIStream :=
  getNextBuffer_loop (is_commands st) (is_used st) (is_version st).

Definition ObjectDataIStream_source : BufferSource ObjectDataIStream := {|
  getNextBuffer := ObjectDataIStream_getNextBuffer;
  buffersLeft st := length (is_commands st);
|}.

End input.

(** ** Queue of complete streams *)

Section queue.

Context `{!Pression, !Lunchbox} (be : bool).
Context {Q : Type -> Type} `{!MTQueue Q}.

Record DataIStreamQueue := mkDataIStreamQueue {
  pending : gmap Z ObjectDataIStream;
  queued : Q (Z * ObjectDataIStream)
}.

Definition DataIStreamQueue_init : DataIStreamQueue := mkDataIStreamQueue ∅ q_empty.

Definition tryPop (q : DataIStreamQueue) : option ObjectDataIStream * DataIStreamQueue :=
  match q_pop (queued q) with
  | None => (None, q)
  | Some (s, qd) => (Some s.2, mkDataIStreamQueue (pending q) qd)
  end.

(** The loop of [pull]; [None] where the code would block on an empty queue. *)
Fixpoint pull_loop (fuel : nat) (key : Z) (qd : Q (Z * ObjectDataIStream))
    (unused : list (Z * ObjectDataIStream)) :
    option (ObjectDataIStream * Q (Z * ObjectDataIStream) * list (Z * ObjectDataIStream)) :=
  match fuel with
  | O => None
  | Datatypes.S fuel =>
      match q_pop qd with
      | None => None
      | Some (candidate, qd) =>
          if candidate.1 =? key then Some (candidate.2, qd, unused)
          else pull_loop fuel key qd (unused ++ [candidate])
      end
  end.

Definition pull (q : DataIStreamQueue) (key : Z) : option (ObjectDataIStream * DataIStreamQueue) :=
  match pull_loop (Datatypes.S (length (q_contents (queued q)))) key (queued q) [] with
  | None => None
  | Some (st, qd, unused) => Some (st, mkDataIStreamQueue (pending q) (q_pushFrontAll qd unused))
  end.

Definition queue_addDataCommand (q : DataIStreamQueue) (key : Z) (command : ICommand) :
    bool * DataIStreamQueue :=
  let istream := default ObjectDataIStream_init (pending q !! key) in
  let istream := addDataCommand be istream command in
  if isReady istream
  then (true, mkDataIStreamQueue (delete key (pending q)) (q_push (queued q) (key, istream)))
  else (false, mkDataIStreamQueue (<[key := istream]> (pending q)) (queued q)).

End queue.

(** ** Lemmas: one data command *)

Section datacommand.

Context `{!Pression, !PressionOk, !Lunchbox, !LunchboxOk} (be : bool).
Context (threshold objectBufferSize : Z) (padding : nat -> bytes).
Context (length_padding : forall n, length (padding n) = n).

(** The fields of a data command fit their types. *)
Record dc_ok (dc : DataCommand) : Prop := {
  dco_cmd : 0 <= dc_cmd dc < CMD_INVALID;
  dco_type : 0 <= dc_type dc < COMMANDTYPE_INVALID;
  dco_id : is_u128 (dc_id dc);
  dco_inst : wf_uint 4 (dc_instanceID dc);
  dco_version : is_u128 (dc_version dc);
  dco_sequence : wf_uint 4 (dc_sequence dc);
  dco_comp : wf_uint 4 (sc_compressor (dc_call dc));
  dco_chunks : wf_uint 4 (sc_nChunks (dc_call dc));
  dco_call : exists comp, call_ok comp (dc_call dc);
  dco_size : 0 < sc_size (dc_call dc) < 2 ^ 64;
  dco_total : 73 + size_of (concat (dc_args dc)) <= objectBufferSize;
  dco_wire : is_u64 (73 + size_of (concat (dc_args dc)) + size_of (sendBody be (dc_call dc)));
}.

Definition dc_fields (dc : DataCommand) : bytes :=
  data_fields be (dc_id dc) (dc_instanceID dc) (dc_version dc) (sc_size (dc_call dc))
    (dc_sequence dc) (sc_last (dc_call dc)) (sc_compressor (dc_call dc)) (sc_nChunks (dc_call dc)).

Definition dc_size (dc : DataCommand) : Z :=
  73 + size_of (concat (dc_args dc)) + size_of (sendBody be (dc_call dc)).

(** The contents of the command's buffer at the receiver. *)
Definition dc_body (dc : DataCommand) : bytes :=
  rheader be (dc_size dc) (dc_type dc) (dc_cmd dc) ++
  (dc_fields dc ++ concat (dc_args dc) ++ sendBody be (dc_call dc)).

Lemma dc_fields_size dc : size_of (dc_fields dc) = 57.
Proof.
  unfold dc_fields, data_fields. rewrite !size_of_app, !size_of_enc, !size_of_enc128. lia.
Qed.

Lemma dc_body_size dc : size_of (dc_body dc) = dc_size dc.
Proof.
  unfold dc_body, dc_size. rewrite !size_of_app, rheader_size, dc_fields_size. lia.
Qed.

Lemma chunk_table_size l :
  chunksSize l + Z.of_nat (length l) * 8 =
    size_of (concat ((fun chunk => enc be 8 (size_of chunk) ++ chunk) <$> l)).
Proof.
  unfold chunksSize. induction l as [|ch l IH]; [done|].
  rewrite fmap_cons. cbn [concat length]. rewrite !size_of_app, size_of_enc, <-IH. lia.
Qed.

(** The announced size of the data is what [sendBody] sends. *)
Lemma announced_size comp c :
  call_ok comp c -> 0 < sc_size c -> ObjectDataOCommand_size c = size_of (sendBody be c).
Proof.
  intros (Hsz & _ & Hc) Hpos. unfold ObjectDataOCommand_size, sendBody. unfold payload in Hsz.
  destruct (Z.eqb_spec (sc_compressor c) EQ_COMPRESSOR_NONE) as [|Hne]; [done|].
  destruct (Hc Hne) as (_ & -> & _ & src & Hsrc).
  pose proof (compress_nonempty (sc_compressor c) src) as Hch. rewrite <-Hsrc in Hch.
  rewrite <-chunk_table_size. destruct (Z.eqb_spec (chunksSize (sc_chunks c) + Z.of_nat (length (sc_chunks c)) * 8) 0)
    as [Hz|]; [|done].
  exfalso. assert (0 <= chunksSize (sc_chunks c)) by apply size_of_nonneg.
  destruct (sc_chunks c); [done|]. simpl in Hz. lia.
Qed.

Lemma body_pos comp c : call_ok comp c -> 0 < sc_size c -> 0 < size_of (sendBody be c).
Proof.
  intros (Hsz & _ & Hc) Hpos. unfold sendBody. unfold payload in Hsz.
  destruct (Z.eqb_spec (sc_compressor c) EQ_COMPRESSOR_NONE) as [|Hne]; [lia|].
  destruct (Hc Hne) as (_ & _ & _ & src & Hsrc).
  pose proof (compress_nonempty (sc_compressor c) src) as Hch. rewrite <-Hsrc in Hch. destruct (sc_chunks c) as [|ch l]; [done|].
  rewrite fmap_cons. cbn [concat]. rewrite !size_of_app, size_of_enc.
  pose proof (size_of_nonneg ch). pose proof (size_of_nonneg (concat
    ((fun chunk => enc be 8 (size_of chunk) ++ chunk) <$> l))). lia.
Qed.

Lemma dc_wire_spec conns dc :
  conns <> [] -> dc_ok dc ->
  exists rest, dc_wire be threshold objectBufferSize padding conns dc = dc_body dc ++ rest.
Proof.
  intros Hc []. destruct dco_call0 as [comp Hcall]. pose proof (size_of_nonneg (concat (dc_args dc))).
  unfold dc_wire, ObjectDataOCommand_send.
  destruct (OCommand_init_building be threshold objectBufferSize padding 0 false conns (dc_cmd dc)
    (dc_type dc)) as (B0 & C0 & D0); [lia|].
  set (o0 := OCommand_init _ _ _ _ _ _ _ _ _) in *.
  set (w1 := write_u128 be (dc_id dc) ++ write_item be 4 (dc_instanceID dc)).
  set (w2 := write_u128 be (dc_version dc) ++ write_item be 8 (sc_size (dc_call dc)) ++
    write_item be 4 (dc_sequence dc) ++ write_bool be (sc_last (dc_call dc)) ++
    write_item be 4 (sc_compressor (dc_call dc)) ++ write_item be 4 (sc_nChunks (dc_call dc))).
  assert (concat (w1 ++ w2) = dc_fields dc) as Hw.
  { unfold w1, w2, dc_fields, data_fields, write_u128, write_item, write_bool, write_item. simpl.
    by rewrite app_nil_r. }
  assert (forall ws, size_of (concat (header be (dc_cmd dc) (dc_type dc) ++ ws)) <=
    16 + size_of (concat ws)) as Hh by (intros; rewrite header_size; lia).
  assert (size_of (concat w1) + size_of (concat w2) = 57) as Hsz
    by (rewrite <-size_of_app, <-concat_app, Hw; apply dc_fields_size).
  pose proof (size_of_nonneg (concat w1)). pose proof (size_of_nonneg (concat w2)).
  destruct (oc_writes_building be threshold objectBufferSize padding o0 _ w1 B0) as (B1 & C1 & D1).
  { rewrite header_size. lia. }
  set (o1 := oc_writes _ _ _ _ o0 w1) in *.
  destruct (oc_writes_building be threshold objectBufferSize padding o1 _ w2 B1) as (B2 & C2 & D2).
  { rewrite <-app_assoc, header_size, concat_app, size_of_app. lia. }
  set (o2 := oc_writes _ _ _ _ o1 w2) in *.
  destruct (oc_writes_building be threshold objectBufferSize padding o2 _ (dc_args dc) B2) as (B3 & C3 & D3).
  { rewrite <-!app_assoc, header_size, !concat_app, !size_of_app. lia. }
  change (ObjectDataOCommand_init _ _ _ _ _ _ _ _ _ _ _ _ _) with o2.
  set (o3 := oc_writes _ _ _ _ o2 (dc_args dc)) in *.
  pose proof (announced_size comp (dc_call dc) Hcall ltac:(lia)) as Han.
  assert (size_of (concat (((header be (dc_cmd dc) (dc_type dc) ++ w1) ++ w2) ++ dc_args dc)) =
    73 + size_of (concat (dc_args dc))) as Hlen.
  { rewrite <-!app_assoc, header_size, !concat_app, !size_of_app. lia. }
  rewrite (data_destroy_wire be threshold padding length_padding o3 _ (dc_call dc) B3).
  - rewrite Hlen, Han. eexists. rewrite app_assoc. f_equal. unfold dc_body.
    rewrite <-!app_assoc, patched_header.
    replace (size_of (sendBody be (dc_call dc)) + (73 + size_of (concat (dc_args dc)))) with (dc_size dc)
      by (unfold dc_size; lia).
    rewrite (app_assoc w1 w2), concat_app, Hw. rewrite take_ge; [by rewrite <-!app_assoc|].
    assert (size_of (rheader be (dc_size dc) (dc_type dc) (dc_cmd dc) ++ dc_fields dc ++
      concat (dc_args dc)) = 73 + size_of (concat (dc_args dc))) as Hs
      by (rewrite !size_of_app, rheader_size, dc_fields_size; lia).
    unfold size_of in Hs |- *. lia.
  - congruence.
  - congruence.
  - rewrite Han. by eapply body_pos; [|lia].
  - lia.
Qed.

(** *** Receiving it *)

#[local] Hint Extern 0 (BufferSource CommandBuffer) => exact (CommandBuffer_source be) : typeclass_instances.

(** The arguments between the fields and the data that the stream skips. *)
Definition args_match (cmd : Z) (dc : DataCommand) : Prop :=
  (cmd = CMD_OBJECT_INSTANCE /\ exists n i, is_u128 n /\ wf_uint 4 i /\
     dc_args dc = [enc128 be n; enc be 4 i]) \/
  (cmd = CMD_OBJECT_SLAVE_DELTA /\ exists u, is_u128 u /\ dc_args dc = [enc128 be u]) \/
  (cmd = CMD_OBJECT_DELTA /\ dc_args dc = []).

(** A received command that represents [dc]; its command number may have been
    rewritten on the way, as the object store does for instance data. *)
Definition represents (c : ICommand) (dc : DataCommand) : Prop :=
  dc_ok dc /\ args_match (ic_cmd c) dc /\
  exists b, carries c b /\ buffer_of be b (dc_body dc).

Lemma ICommand_new_dc dc rest :
  dc_ok dc ->
  ICommand_new be (Some (dc_body dc ++ rest)) false =
    mkICommand (cursor (dc_body dc ++ rest) (dc_body dc)
                  (rheader be (dc_size dc) (dc_type dc) (dc_cmd dc)))
      (dc_size dc) (dc_type dc) (dc_cmd dc) /\
  buffer_of be (dc_body dc ++ rest) (dc_body dc).
Proof.
  intros []. unfold CMD_INVALID, COMMANDTYPE_INVALID in *.
  assert (buffer_of be (dc_body dc ++ rest) (dc_body dc)) as Hb.
  { apply (buffer_of_patched be (dc_size dc) (dc_type dc) (dc_cmd dc)); [|exact dco_wire0].
    symmetry. apply dc_body_size. }
  split; [|done]. pose proof (dc_body_size dc) as Hs. rewrite <-Hs.
  eapply (ICommand_new_spec be); [done| | |]; unfold wf_uint; try lia.
  rewrite Hs. done.
Qed.

(** What the receiver makes of the wire image of a command. *)
Definition receive (retype : bool) (w : bytes) : ICommand :=
  let c := ICommand_new be (Some w) false in
  if retype then setCommand CMD_OBJECT_INSTANCE (setType COMMANDTYPE_OBJECT c) else c.

Lemma receive_represents conns dc (retype : bool) :
  conns <> [] -> dc_ok dc ->
  args_match (if retype then CMD_OBJECT_INSTANCE else dc_cmd dc) dc ->
  represents (receive retype (dc_wire be threshold objectBufferSize padding conns dc)) dc.
Proof.
  intros Hc Hok Hargs. destruct (dc_wire_spec conns dc Hc Hok) as [rest ->].
  destruct (ICommand_new_dc dc rest Hok) as [E Hb]. unfold receive. rewrite E.
  pose proof (size_of_nonneg (concat (dc_args dc))).
  pose proof (size_of_nonneg (sendBody be (dc_call dc))).
  split_and!; [done|by destruct retype|].
  exists (dc_body dc ++ rest). split; [|done]. destruct Hok.
  unfold CMD_INVALID, COMMANDTYPE_INVALID in *.
  destruct retype; cbn [setCommand setType ic_stream ic_size ic_type ic_cmd];
    eapply (carries_cursor be); try done;
    unfold CMD_INVALID, COMMANDTYPE_INVALID, CMD_OBJECT_INSTANCE, COMMANDTYPE_OBJECT, dc_size; cbn -[size_of]; lia.
Qed.

Lemma represents_copy c dc : represents c dc -> represents (ICommand_copy be c) dc.
Proof.
  intros (Hok & Ha & b & Hc & Hb).
  pose proof (ICommand_copy_spec be c b (dc_body dc) (dc_type dc) (dc_cmd dc)
    (dc_fields dc ++ concat (dc_args dc) ++ sendBody be (dc_call dc)) Hc Hb) as E.
  rewrite dc_body_size in E. rewrite E by done.
  split_and!; [done|done|]. exists b. split; [|done]. destruct Hc as (Hcb & Hsw & Hv).
  split_and!; [done|done|]. unfold isValid in *.
  cbn [ic_stream source cursor cb_buffer ic_type ic_cmd ic_size]. by rewrite Hcb in Hv.
Qed.

Lemma represents_valid c dc : represents c dc -> isValid c = true.
Proof. intros (_ & _ & b & (_ & _ & Hv) & _). done. Qed.

Lemma represents_parse c dc :
  represents c dc ->
  exists b, buffer_of be b (dc_body dc) /\
  ObjectDataICommand_of be c =
    mkObjectDataICommand
      (mkObjectICommand
        (mkICommand (cursor b (dc_body dc) (rheader be (dc_size dc) (dc_type dc) (dc_cmd dc) ++
             dc_fields dc))
           (ic_size c) (ic_type c) (ic_cmd c)) (dc_id dc) (dc_instanceID dc))
      (dc_version dc) (sc_size (dc_call dc)) (dc_sequence dc) (sc_last (dc_call dc))
      (sc_compressor (dc_call dc)) (sc_nChunks (dc_call dc)).
Proof.
  intros (Hok & Ha & b & Hc & Hb). exists b. split; [done|]. rewrite <-(dc_body_size dc).
  destruct Hok. eapply ObjectDataICommand_spec; eauto.
  - rewrite dc_body_size. done.
  - unfold wf_uint. simpl (256 ^ _). lia.
Qed.

(** At a cursor, the rest of the buffer is handed out whole. *)
Lemma remaining_at b pre w :
  buffer_of be b (pre ++ w) -> w <> [] ->
  exists n st st', getRemainingBufferSize be (cursor b (pre ++ w) pre) = (n, st) /\
    getRemainingBuffer be n st = (Some w, st') /\ isSwapping st' = false.
Proof.
  intros Hb Hw. pose proof Hb as (rest & _ & _ & _ & H64).
  unfold getRemainingBufferSize, getRemainingBuffer.
  pose proof (checkBuffer_cursor be b pre w [] Hw) as Hc. rewrite app_nil_r in Hc.
  rewrite Hc. eexists _, _, _. split; [done|]. rewrite Hc.
  cbn [position inputSize cursor]. rewrite size_of_app in *.
  pose proof (size_of_nonneg pre). pose proof (size_of_nonneg w).
  rewrite u64_small by (unfold is_u64 in *; lia).
  destruct (Z.gtb_spec (size_of pre + (size_of pre + size_of w - size_of pre)) (size_of pre + size_of w));
    [lia|].
  split; [f_equal|done]. unfold at_position. cbn [position input cursor from_option id].
  unfold size_of. rewrite Nat2Z.id, drop_app_length. f_equal. apply take_ge. lia.
Qed.

Lemma remaining_buffer b body pre w (f : bytes -> bool -> NextBuffer) :
  body = pre ++ w -> buffer_of be b body -> w <> [] ->
  (let '(n, st) := getRemainingBufferSize be (cursor b body pre) in
   let '(data, st) := getRemainingBuffer be n st in
   f (default [] data) (isSwapping st)) = f w false.
Proof.
  intros -> Hb Hw. destruct (remaining_at b pre w Hb Hw) as (n & st & st' & -> & -> & Hsw).
  by rewrite Hsw.
Qed.

Lemma data_buffer_spec c dc :
  represents c dc ->
  data_buffer be (ObjectDataICommand_of be c) =
    mkNextBuffer (sc_compressor (dc_call dc)) (sc_nChunks (dc_call dc)) (sendBody be (dc_call dc))
      (sc_size (dc_call dc)) (Some false).
Proof.
  intros Hr. destruct (represents_parse c dc Hr) as (b & Hb & ->).
  destruct Hr as (Hok & Ha & _). unfold data_buffer, odc_icommand.
  cbn [odc_command oic_command odc_compressor odc_chunks odc_datasize ic_cmd].
  destruct Hok. destruct dco_call0 as [comp Hcall].
  set (h := rheader be (dc_size dc) (dc_type dc) (dc_cmd dc)).
  assert (dc_body dc = h ++ dc_fields dc ++ concat (dc_args dc) ++ sendBody be (dc_call dc)) as Hbody
    by done.
  assert (sendBody be (dc_call dc) <> []) as Hne.
  { intros E. pose proof (body_pos comp _ Hcall ltac:(lia)) as Hp. rewrite E in Hp. done. }
  pose proof (fun pre Hpre => remaining_buffer b (dc_body dc) pre (sendBody be (dc_call dc))
    (fun data sw => mkNextBuffer (sc_compressor (dc_call dc)) (sc_nChunks (dc_call dc)) data
       (sc_size (dc_call dc)) (Some sw)) Hpre Hb Hne) as Hrem. cbv beta in Hrem.
  destruct Ha as [(-> & n & i & Hn & Hi & Ha)|[(-> & u & Hu & Ha)|[-> Ha]]]; rewrite Ha in Hbody;
    simpl concat in Hbody; cbv beta iota delta [Z.eqb CMD_OBJECT_INSTANCE CMD_OBJECT_SLAVE_DELTA
      CMD_OBJECT_DELTA Pos.eqb]; unfold read_field; cbn [ic_stream ic_size ic_type ic_cmd].
  - erewrite (read_u128_at be n); [|by apply at_cursor|rewrite Hbody; by rewrite <-!app_assoc|done].
    erewrite (read_item_at be 4 i); [|by apply at_cursor|rewrite Hbody; by rewrite <-!app_assoc|lia|done].
    cbn [ic_stream].
    apply Hrem. by rewrite Hbody, <-!app_assoc.
  - erewrite (read_u128_at be u); [|by apply at_cursor|rewrite Hbody; by rewrite <-!app_assoc|done].
    cbn [ic_stream snd]. apply Hrem. by rewrite Hbody, <-!app_assoc.
  - apply Hrem. by rewrite Hbody, <-!app_assoc.
Qed.

End datacommand.

(** ** Lemmas: a stream of data commands *)

Section instream.

Context `{!Pression, !PressionOk, !Lunchbox, !LunchboxOk} (be : bool).
Context (objectBufferSize : Z).

#[local] Hint Extern 0 (BufferSource ObjectDataIStream) =>
  exact (ObjectDataIStream_source be) : typeclass_instances.

Lemma ObjectDataIStream_sourceOk : BufferSourceOk ObjectDataIStream.
Proof.
  split. intros [cs used v] nb st'. simpl. unfold ObjectDataIStream_getNextBuffer. simpl.
  revert used. induction cs as [|c cs IH]; intros used; simpl; [done|].
  destruct (isValid _); simpl; [|done].
  destruct (_ =? 0); [intros Hn%IH; lia|]. intros [= <- <-]. simpl. lia.
Qed.
#[local] Existing Instance ObjectDataIStream_sourceOk.

Abbreviation represents := (represents be objectBufferSize).

(** Commands that represent data commands supply their payloads. *)
Lemma commands_supply cs dcs used v b :
  Forall2 represents cs dcs ->
  supplies be false b (mkObjectDataIStream cs used v) ((payload ∘ dc_call) <$> dcs).
Proof.
  intros Hcs. revert used b. induction Hcs as [|c dc cs dcs Hr _ IH]; intros used b.
  { by eapply supplies_nil. }
  pose proof (represents_copy be _ _ _ Hr) as Hr'. rewrite fmap_cons.
  pose proof (data_buffer_spec be _ _ _ Hr') as Hdb.
  destruct (represents_parse be _ _ _ Hr') as (bf & _ & Hp).
  destruct Hr' as (Hok & Hr'). pose proof Hok as []. destruct dco_call0 as [comp Hcall].
  assert (is_u64 (sc_size (dc_call dc))) as H64
    by (unfold is_u64; change (2 ^ 64) with 18446744073709551616 in *; lia).
  eapply supplies_cons with (nb := mkNextBuffer (sc_compressor (dc_call dc))
    (sc_nChunks (dc_call dc)) (sendBody be (dc_call dc)) (sc_size (dc_call dc)) (Some false)).
  - simpl. unfold ObjectDataIStream_getNextBuffer. simpl.
    rewrite (represents_valid be _ _ _ (conj Hok Hr')). simpl. rewrite <-Hdb. rewrite Hp at 1.
    cbn [odc_datasize]. rewrite (proj2 (Z.eqb_neq _ _)) by lia. done.
  - by apply (received_payload be be comp).
  - simpl. by destruct Hcall as [-> _].
  - done.
  - done.
  - apply IH.
Qed.

(** Feeding commands to a stream: it stores them all and is ready, with their
    version, once the last one arrived. *)
Definition feed (st : ObjectDataIStream) (cs : list ICommand) : ObjectDataIStream :=
  fold_left (addDataCommand be) cs st.

Lemma addDataCommand_spec c dc st stdcs :
  Forall2 represents (is_commands st) stdcs -> represents c dc ->
  let st' := addDataCommand be st c in
  Forall2 represents (is_commands st') (stdcs ++ [dc]) /\
  is_version st' = (if sc_last (dc_call dc) then dc_version dc else is_version st).
Proof.
  intros Hst Hr. unfold addDataCommand. destruct (represents_parse be _ _ _ Hr) as (bf & Hb & Hp).
  assert (represents (ICommand_copy be (odc_icommand (ObjectDataICommand_of be c))) dc) as Hr'.
  { apply represents_copy. pose proof Hr as (Hok & Ha & b & Hc & Hbb). rewrite Hp.
    unfold odc_icommand. cbn [odc_command oic_command].
    split_and!; [done|done|]. exists bf. split; [|done].
    destruct Hc as (Hcb & Hsw & Hv). split_and!; [done|done|].
    unfold isValid in *. cbn [ic_stream source cursor cb_buffer ic_type ic_cmd ic_size].
    rewrite Hcb in Hv. destruct Hb as (rest & -> & _ & H8 & _).
    destruct (dc_body be dc) as [|x l]; [unfold size_of in H8; simpl in H8; lia|]. simpl.
    by destruct b. }
  set (cc := ICommand_copy be _) in *. clearbody cc. rewrite Hp. cbn [odc_isLast].
  destruct (sc_last (dc_call dc)); cbn [is_commands is_version].
  - split; [by apply Forall2_app; [|constructor]|].
    unfold getPendingVersion. cbn [is_commands]. rewrite last_snoc.
    destruct (represents_parse be _ _ _ Hr') as (bf' & _ & ->). done.
  - split; [by apply Forall2_app; [|constructor]|done].
Qed.

Lemma feed_spec cs dcs st stdcs :
  Forall2 represents (is_commands st) stdcs -> Forall2 represents cs dcs ->
  Forall2 represents (is_commands (feed st cs)) (stdcs ++ dcs).
Proof.
  intros Hst Hcs. revert st stdcs Hst. induction Hcs as [|c dc cs dcs Hr _ IH]; intros st stdcs Hst.
  { by rewrite app_nil_r. }
  rewrite cons_middle, app_assoc. apply IH. by apply addDataCommand_spec.
Qed.

Lemma feed_version cs dcs st stdcs v n :
  Forall2 represents (is_commands st) stdcs -> Forall2 represents cs dcs ->
  Forall (fun dc => dc_version dc = v) dcs ->
  sc_last ∘ dc_call <$> dcs = replicate n false ++ [true] ->
  is_version (feed st cs) = v.
Proof.
  intros Hst Hcs. revert st stdcs n Hst. induction Hcs as [|c dc cs dcs Hr Hcs IH]; intros st stdcs n Hst Hv Hl.
  { by destruct n. }
  destruct (addDataCommand_spec c dc st stdcs Hst Hr) as [Hst' Hv'].
  apply Forall_cons in Hv as [Hdv Hv]. rewrite fmap_cons in Hl. change (feed st (c :: cs)) with (feed (addDataCommand be st c) cs).
  destruct n as [|n]; simpl in Hl; injection Hl as Hl0 Hl.
  - destruct dcs; [|done]. inv Hcs. simpl. by rewrite Hv', Hl0.
  - by eapply IH.
Qed.

(** Nothing is ready before the last command. *)
Lemma feed_not_ready cs dcs st stdcs :
  Forall2 represents (is_commands st) stdcs -> Forall2 represents cs dcs ->
  Forall (fun dc => sc_last (dc_call dc) = false) dcs ->
  is_version (feed st cs) = is_version st.
Proof.
  intros Hst Hcs. revert st stdcs Hst. induction Hcs as [|c dc cs dcs Hr Hcs IH]; intros st stdcs Hst Hl; [done|].
  destruct (addDataCommand_spec c dc st stdcs Hst Hr) as [Hst' Hv'].
  apply Forall_cons in Hl as [Hl0 Hl]. change (feed st (c :: cs)) with (feed (addDataCommand be st c) cs).
  rewrite (IH _ _ Hst' Hl), Hv', Hl0. done.
Qed.

Lemma feed_removelast_not_ready cs dcs n :
  Forall2 represents cs dcs -> sc_last ∘ dc_call <$> dcs = replicate n false ++ [true] ->
  is_version (feed ObjectDataIStream_init (removelast cs)) = VERSION_INVALID.
Proof.
  intros Hcs Hl. destruct dcs as [|dl dcs _] using rev_ind; [by destruct n|].
  rewrite fmap_app in Hl. simpl in Hl. apply app_inj_tail in Hl as [Hl _].
  apply Forall2_app_inv_r in Hcs as (cs1 & cs2 & Hcs1 & Hcs2 & ->).
  inv Hcs2. match goal with Hnil : Forall2 _ _ [] |- _ => inv Hnil end. rewrite removelast_last.
  rewrite (feed_not_ready cs1 dcs _ []); [done|constructor|done|].
  apply (proj1 (Forall_fmap (sc_last ∘ dc_call) (fun l => l = false) dcs)). rewrite Hl.
  apply Forall_replicate. done.
Qed.

End instream.

(** *** Sending a session *)

Lemma length_concat_nonempty {A} (gs : list (list A)) :
  Forall (.≠ []) gs -> (length gs <= length (concat gs))%nat.
Proof.
  induction 1 as [|g gs Hg _ IH]; [done|]. simpl. rewrite length_app.
  destruct g; [done|]. simpl. lia.
Qed.

Section outstream.

Context `{!Pression, !PressionOk, !Lunchbox, !LunchboxOk} (be : bool).
Context (threshold objectBufferSize objectID objInstanceID masterInstanceID : Z) (make_UUID : Z -> Z).

Abbreviation sendAll := (os_sendAll be objectID objInstanceID masterInstanceID make_UUID).
Abbreviation ossession :=
  (os_session be threshold objectBufferSize objectID objInstanceID masterInstanceID make_UUID).

Definition call_fields (os : ObjectDataOStream) (dc : DataCommand) : Prop :=
  dc_id dc = objectID /\ dc_version dc = os_version os /\
  match os_kind os with
  | KInstance => dc_cmd dc = os_command os /\ dc_type dc = COMMANDTYPE_NODE /\
                 dc_instanceID dc = os_instanceID os /\
                 dc_args dc = [enc128 be (os_nodeID os); enc be 4 objInstanceID]
  | KDelta => dc_cmd dc = CMD_OBJECT_DELTA /\ dc_type dc = COMMANDTYPE_OBJECT /\
              dc_instanceID dc = CO_INSTANCE_ALL /\ dc_args dc = []
  | KSlave => dc_cmd dc = CMD_OBJECT_SLAVE_DELTA /\ dc_type dc = COMMANDTYPE_OBJECT /\
              dc_instanceID dc = masterInstanceID /\ dc_args dc = [enc128 be (os_commit os)]
  end.

(** Packets before the last one are numbered consecutively. *)
Lemma os_sendAll_spec os calls :
  Forall (fun c => sc_last c = false) calls ->
  0 <= os_sequence os -> os_sequence os + Z.of_nat (length calls) < 2 ^ 32 ->
  exists os' dcs, sendAll os calls = (os', dcs) /\
    dc_call <$> dcs = calls /\ Forall (call_fields os) dcs /\
    dc_sequence <$> dcs = seqZ (os_sequence os) (Z.of_nat (length calls)) /\
    os' = mkObjectDataOStream (os_kind os) (os_base os) (os_version os)
            (os_sequence os + Z.of_nat (length calls)) (os_nodeID os) (os_instanceID os)
            (os_command os) (os_commit os).
Proof.
  intros Hl. revert os. induction Hl as [|c calls Hc _ IH]; intros os Hs Hb; cbn [os_sendAll].
  { eexists _, _. split_and!; try done. simpl. rewrite Z.add_0_r. by destruct os. }
  simpl length in Hb. change (2 ^ 32) with 4294967296 in *.
  assert (exists dc, os_sendData be objectID objInstanceID masterInstanceID make_UUID os c =
    (mkObjectDataOStream (os_kind os) (os_base os) (os_version os) (os_sequence os + 1)
       (os_nodeID os) (os_instanceID os) (os_command os) (os_commit os), dc) /\
    dc_call dc = c /\ call_fields os dc /\ dc_sequence dc = os_sequence os) as (dc & -> & Hcall & Hf & Hq).
  { unfold os_sendData, instance_sendData, delta_sendData, slave_sendData, os_send, call_fields. rewrite Hc, u32_small by (unfold is_u32; lia).
    destruct os as [[] ? ? ? ? ? ? ?]; eexists; split_and!; simpl; done. }
  destruct (IH (mkObjectDataOStream (os_kind os) (os_base os) (os_version os) (os_sequence os + 1)
       (os_nodeID os) (os_instanceID os) (os_command os) (os_commit os))) as (os' & dcs & -> & E1 & E2 & E3 & E4);
    cbn [os_sequence]; [lia|lia|].
  eexists _, _. split; [done|]. rewrite !fmap_cons, Hcall, E1, Hq, E3. split_and!; try done.
  - by constructor.
  - cbn [os_sequence length]. rewrite Nat2Z.inj_succ, (seqZ_cons (os_sequence os) (Z.succ _)) by lia.
    f_equal. f_equal; lia.
  - subst os'. cbn [os_sequence length os_kind os_base os_version os_nodeID os_instanceID os_command os_commit].
    f_equal. lia.
Qed.

(** Sending only numbers the packets. *)
Lemma os_sendAll_frame os calls :
  let os' := (sendAll os calls).1 in
  os_base os' = os_base os /\ os_kind os' = os_kind os /\ os_version os' = os_version os /\
  dc_call <$> (sendAll os calls).2 = calls.
Proof.
  revert os. induction calls as [|c calls IH]; intros os; cbn [os_sendAll]; [done|].
  destruct (os_sendData _ _ _ _ _ os c) as [os1 dc] eqn:Hs.
  assert (os_base os1 = os_base os /\ os_kind os1 = os_kind os /\ os_version os1 = os_version os /\
    dc_call dc = c) as (<- & <- & <- & <-).
  { unfold os_sendData, instance_sendData, delta_sendData, slave_sendData, os_send in Hs.
    destruct os as [[] ? ? ? ? ? ? ?], c as [? ? [] ? ? ?]; simpl in Hs; by injection Hs as <- <-. }
  specialize (IH os1). destruct (sendAll os1 calls) as [os2 dcs]. cbn [fst snd] in *.
  destruct IH as (-> & -> & -> & <-). done.
Qed.

Lemma os_session_frame os ws :
  let os' := (ossession os ws).1 in
  os_base os' = (session threshold objectBufferSize (os_base os) ws).1 /\
  os_kind os' = os_kind os /\ os_version os' = os_version os /\
  dc_call <$> (ossession os ws).2 = (session threshold objectBufferSize (os_base os) ws).2.
Proof.
  unfold os_session, os_do, session. destruct (writes _ _ (os_base os) ws) as [s1 c1].
  pose proof (os_sendAll_frame (with_base os s1) c1) as Hf.
  destruct (sendAll _ c1) as [os1 d1]. destruct Hf as (Hb & Hk & Hv & Hd). cbn [fst snd] in *.
  rewrite Hb. cbn [with_base os_base]. destruct (disable threshold s1) as [s2 c2].
  pose proof (os_sendAll_frame (with_base os1 s2) c2) as Hf.
  destruct (sendAll _ c2) as [os2 d2]. destruct Hf as (Hb2 & Hk2 & Hv2 & Hd2). cbn [fst snd] in *.
  rewrite fmap_app. split_and!; [done|by rewrite Hk2|by rewrite Hv2|by f_equal].
Qed.

(** The last packet resets the numbering. *)
Lemma os_sendAll_last os c :
  sc_last c = true ->
  exists os' dc, sendAll os [c] = (os', [dc]) /\ dc_call dc = c /\ call_fields os dc /\
    dc_sequence dc = os_sequence os /\ os_sequence os' = 0.
Proof.
  intros Hl. cbn [os_sendAll]. unfold os_sendData, instance_sendData, delta_sendData, slave_sendData, os_send, call_fields. rewrite Hl.
  destruct os as [[] ? ? ? ? ? ? ?]; eexists _, _; split_and!; simpl; done.
Qed.

Lemma os_session_spec os ws name good sv conns :
  fresh (os_base os) name good sv conns -> os_sequence os = 0 ->
  0 <= objectBufferSize -> name <> EQ_COMPRESSOR_NONE -> conns <> [] ->
  ws <> [] -> Forall (.≠ []) ws -> Z.of_nat (length ws) < 2 ^ 32 ->
  exists os' dcs, ossession os ws = (os', dcs) /\
    dc_call <$> dcs = (session threshold objectBufferSize (os_base os) ws).2 /\
    Forall (call_fields os) dcs /\
    dc_sequence <$> dcs = seqZ 0 (Z.of_nat (length dcs)) /\ os_sequence os' = 0.
Proof.
  intros Hbase Hseq Ho Hn Hc Hne Hws Hlen. unfold os_session, os_do, session.
  destruct (fresh_writing _ _ _ _ _ Hbase Hn Hc) as [Hwr _].
  destruct (writes_spec threshold objectBufferSize _ _ _ ws Ho Hwr)
    as (s1 & o1 & pend & gs & -> & Hpart & Hpay & Hgs & Hlast & Hp & Hwr1 & _).
  simpl in Hpart. subst ws. apply Forall_app in Hws as [_ Hpend].
  assert (length o1 = length gs) as Ho1
    by (rewrite <-(length_fmap payload), Hpay; apply length_fmap).
  pose proof (length_concat_nonempty gs Hgs) as Hgl.
  rewrite length_app in Hlen.
  destruct (os_sendAll_spec (with_base os s1) o1 Hlast) as (os1 & d1 & -> & E1 & E2 & E3 & ->);
    cbn [with_base os_sequence]; [lia|lia|].
  cbn [os_base with_base]. 
  destruct (disable_spec threshold s1 pend _ Hwr1) as (s2 & c & -> & _ & Hcl & _).
  { apply concat_nonempty; auto. }
  unfold with_base. cbn [os_kind os_base os_version os_sequence os_nodeID os_instanceID os_command os_commit].
  set (os2 := mkObjectDataOStream _ _ _ _ _ _ _ _).
  destruct (os_sendAll_last os2 c Hcl) as (os3 & dc & -> & F1 & F2 & F3 & F4).
  eexists _, _. split; [done|]. rewrite !fmap_app, !fmap_cons, E1, E3, F1, F3. split_and!; try done.
  - apply Forall_app. split; [exact E2|]. by constructor.
  - rewrite length_app. simpl length. rewrite Nat2Z.inj_add. simpl (Z.of_nat 1).
    assert (length d1 = length o1) as -> by (rewrite <-E1; by rewrite length_fmap).
    rewrite seqZ_app by lia. cbn [os_sequence os2 with_base]. rewrite Hseq. simpl. f_equal.
Qed.

(** Without receivers, or without data, there is nothing to number. *)
Lemma os_session_quiet os ws :
  (session threshold objectBufferSize (os_base os) ws).2 = [] ->
  (ossession os ws).2 = [] /\ os_sequence (ossession os ws).1 = os_sequence os.
Proof.
  unfold os_session, os_do, session. destruct (writes _ _ (os_base os) ws) as [s1 c1].
  pose proof (os_sendAll_frame (with_base os s1) c1) as Hf.
  destruct (sendAll (with_base os s1) c1) as [os1 d1] eqn:E1. destruct Hf as (Hb & _). cbn [fst] in Hb.
  rewrite Hb. cbn [with_base os_base]. destruct (disable threshold s1) as [s2 c2].
  cbn [snd]. intros [-> ->]%app_nil. cbn [os_sendAll] in *. by injection E1 as <- <-.
Qed.

(** Resending a saved stream: one final command with everything. *)
Lemma os_resend_spec os conns data :
  saved (os_base os) data ->
  exists os' dc, os_resend be threshold objectID objInstanceID masterInstanceID make_UUID os conns = (os', [dc]) /\
    call_fields os dc /\ payload (dc_call dc) = data /\ sc_last (dc_call dc) = true /\
    sc_size (dc_call dc) = size_of data /\ dc_sequence dc = os_sequence os /\
    saved (os_base os') data /\ comp_of (os_base os') = comp_of (os_base os) /\
    os_kind os' = os_kind os /\ os_version os' = os_version os /\ os_sequence os' = 0.
Proof.
  intros Hsv. unfold os_resend, os_do. cbn [with_base os_base].
  set (s0 := setupConnections (os_base os) conns).
  assert (saved s0 data) as Hs0 by (by destruct (os_base os)).
  pose proof (resend_comp threshold s0) as Hcomp.
  destruct (resend_spec threshold s0 data Hs0) as (s1 & c & E & Hs1 & Hp & Hl & Hsz).
  rewrite E in *. cbn [fst] in Hcomp.
  set (os1 := with_base (with_base os s0) s1).
  destruct (os_sendAll_last os1 c Hl) as (os2 & dc & E2 & Hc & Hf & Hq & Hq0).
  pose proof (os_sendAll_frame os1 [c]) as Hfr. rewrite E2 in *. cbn [fst snd] in Hfr.
  destruct Hfr as (Hb & Hk & Hv & _).
  eexists _, dc. split; [done|]. rewrite Hc. cbn [with_base os_base os_kind os_version os_sequence].
  split_and!; try done; [|].
  - rewrite Hb. unfold os1. cbn [with_base os_base]. by destruct s1.
  - rewrite Hb. exact Hcomp.
Qed.

End outstream.

(** *** The data commands of a session are well formed *)

Section session.

Context `{!Pression, !PressionOk, !Lunchbox, !LunchboxOk} (be : bool).
Context (obs objectID objInstanceID masterInstanceID name : Z) (good : bool).
Context (Hobs : 93 <= obs) (Hname : wf_uint 4 name) (Hnone : wf_uint 4 EQ_COMPRESSOR_NONE).
Context (Hchunks : forall b, Z.of_nat (length (compress name b)) < 2 ^ 32).
Context (Hid : is_u128 objectID) (Hinst : wf_uint 4 objInstanceID).

Lemma call_sizes c :
  call_ok (name, good) c -> 0 < sc_size c < 2 ^ 62 ->
  wf_uint 4 (sc_compressor c) /\ wf_uint 4 (sc_nChunks c) /\
  0 <= size_of (sendBody be c) < 2 ^ 62 + 2 ^ 35.
Proof.
  intros (Hsz & Hone & Hc) Hpos. pose proof (size_of_nonneg (sendBody be c)).
  unfold wf_uint in *. change (256 ^ Z.of_nat 4) with (2 ^ 32) in *.
  change (2 ^ 62) with 4611686018427387904 in *. change (2 ^ 35) with 34359738368.
  change (2 ^ 32) with 4294967296 in *. unfold sendBody, payload in *.
  destruct (Z.eqb_spec (sc_compressor c) EQ_COMPRESSOR_NONE) as [Hn|Hne].
  - rewrite (Hone Hn), Hn. lia.
  - destruct (Hc Hne) as ([= ->] & -> & Hlt & src & Hsrc).
    rewrite <-chunk_table_size in *. pose proof (Hchunks src) as Hcs. rewrite <-Hsrc in Hcs. lia.
Qed.

Lemma session_dc_ok os dc n :
  call_fields be objectID objInstanceID masterInstanceID os dc ->
  call_ok (name, good) (dc_call dc) -> 0 < sc_size (dc_call dc) < 2 ^ 62 ->
  0 <= dc_sequence dc < n -> n <= 2 ^ 32 -> os_kind os <> KSlave ->
  (os_kind os = KInstance -> 0 <= os_command os < CMD_INVALID /\ is_u128 (os_nodeID os) /\
     wf_uint 4 (os_instanceID os)) ->
  is_u128 (os_version os) ->
  dc_ok be obs dc /\
  args_match be (if bool_decide (os_kind os = KInstance) then CMD_OBJECT_INSTANCE else dc_cmd dc) dc.
Proof.
  intros (Fid & Fv & Fk) Hcall Hsz Hseq Hn Hk Hi Hv.
  destruct (call_sizes _ Hcall Hsz) as (Hcomp & Hnch & Hbody).
  change (2 ^ 62) with 4611686018427387904 in *. change (2 ^ 35) with 34359738368 in *.
  change (2 ^ 32) with 4294967296 in *.
  assert (size_of (concat (dc_args dc)) <= 20 /\ 0 <= dc_cmd dc < CMD_INVALID /\
    0 <= dc_type dc < COMMANDTYPE_INVALID /\ wf_uint 4 (dc_instanceID dc) /\
    args_match be (if bool_decide (os_kind os = KInstance) then CMD_OBJECT_INSTANCE else dc_cmd dc) dc)
    as (Hargs & Hcmd & Hty & Hin & Hm).
  { unfold args_match, CMD_INVALID, COMMANDTYPE_INVALID in *.
    destruct (os_kind os); [destruct Hi as (Hc & Hnid & Hii); [done|]| |done];
      destruct Fk as (-> & -> & -> & ->); split_and!; simpl;
      rewrite ?app_nil_r, ?size_of_app, ?size_of_enc, ?size_of_enc128; try done.
    - lia.
    - lia.
    - left. split; [done|]. eauto.
    - right; right. done. }
  pose proof (size_of_nonneg (concat (dc_args dc))).
  split; [|exact Hm].
  constructor; [exact Hcmd|exact Hty|by rewrite Fid|exact Hin|by rewrite Fv| |exact Hcomp|exact Hnch
    |by exists (name, good)| | |].
  - unfold wf_uint. change (256 ^ Z.of_nat 4) with 4294967296. lia.
  - change (2 ^ 64) with 18446744073709551616. lia.
  - lia.
  - unfold is_u64. lia.
Qed.

End session.

(** The sizes of the packets of a session. *)
Lemma session_sizes `{!Pression} comp dcs gs :
  payload ∘ dc_call <$> dcs = (@concat Z) <$> gs -> Forall (call_ok comp ∘ dc_call) dcs ->
  Forall (.≠ []) gs -> Forall (.≠ []) (concat gs) -> size_of (concat (concat gs)) < 2 ^ 62 ->
  Forall (fun dc => 0 < sc_size (dc_call dc) < 2 ^ 62) dcs.
Proof.
  intros Hpay Hok. revert gs Hpay. induction Hok as [|dc dcs [Hsz _] _ IH]; intros [|g gs] Hpay Hg Hw Hb;
    try done.
  rewrite !fmap_cons in Hpay. injection Hpay as Hp1 Hp2. simpl in Hw, Hb, Hsz.
  apply Forall_app in Hw as [Hw1 Hw2]. apply Forall_cons in Hg as [Hg1 Hg2].
  rewrite concat_app, size_of_app in Hb.
  pose proof (size_of_nonneg (concat (concat gs))).
  pose proof (size_of_pos _ (concat_nonempty g Hg1 Hw1)).
  constructor; [rewrite Hsz, Hp1; lia|]. apply (IH gs); auto. lia.
Qed.

(** *** A session at the receiver *)

Section arrives.

Context `{!Pression, !PressionOk, !Lunchbox, !LunchboxOk} (be : bool).
Context (threshold obs : Z) (padding : nat -> bytes) (objectID objInstanceID masterInstanceID : Z).
Context (make_UUID : Z -> Z).
Context (name : Z) (good : bool).
Context (length_padding : forall n, length (padding n) = n).
Context (Hobs : 93 <= obs) (Hnn : name <> EQ_COMPRESSOR_NONE) (Hname : wf_uint 4 name).
Context (Hnone : wf_uint 4 EQ_COMPRESSOR_NONE).
Context (Hchunks : forall b, Z.of_nat (length (compress name b)) < 2 ^ 32).
Context (Hid : is_u128 objectID) (Hinst : wf_uint 4 objInstanceID).

(** The object store turns instance data for a node into a command for the
    object. *)
Definition at_receiver (conns : list Z) (kind : stream_kind) (dc : DataCommand) : ICommand :=
  receive be (bool_decide (kind = KInstance)) (dc_wire be threshold obs padding conns dc).

Lemma session_arrives os sv conns ws :
  fresh (os_base os) name good sv conns -> os_sequence os = 0 -> os_kind os <> KSlave -> conns <> [] ->
  (os_kind os = KInstance -> 0 <= os_command os < CMD_INVALID /\ is_u128 (os_nodeID os) /\
     wf_uint 4 (os_instanceID os)) ->
  is_u128 (os_version os) -> ws <> [] -> Forall (.≠ []) ws ->
  size_of (concat ws) < 2 ^ 62 -> Z.of_nat (length ws) < 2 ^ 32 ->
  exists os' dcs gs,
    os_session be threshold obs objectID objInstanceID masterInstanceID make_UUID os ws = (os', dcs) /\
    dc_sequence <$> dcs = seqZ 0 (Z.of_nat (length dcs)) /\
    Forall2 (represents be obs) (at_receiver conns (os_kind os) <$> dcs) dcs /\
    concat gs = ws /\ payload ∘ dc_call <$> dcs = (@concat Z) <$> gs /\
    sc_last ∘ dc_call <$> dcs = replicate (length gs - 1) false ++ [true] /\
    Forall (fun dc => dc_version dc = os_version os) dcs /\
    Forall (call_fields be objectID objInstanceID masterInstanceID os) dcs.
Proof.
  intros Hbase Hseq Hk Hcs Hi Hv Hne Hws H62 Hlen.
  destruct (os_session_spec be threshold obs objectID objInstanceID masterInstanceID make_UUID os ws
    name good sv conns) as (os' & dcs & E & Ecalls & Efields & Eseq & _); auto; [lia|].
  pose proof (session_spec threshold obs _ name good sv conns ws Hbase
    ltac:(lia) Hnn Hcs Hne Hws) as Hs.
  destruct (session _ _ _ _) as [s out]. cbn [snd] in Ecalls. subst out.
  destruct Hs as (gs & Hgs & Hgne & Hpay & Hlast & _ & Hok). exists os', dcs, gs.
  rewrite <-Hgs in *. rewrite <-list_fmap_compose in Hpay, Hlast. apply (proj1 (Forall_fmap dc_call _ _)) in Hok.
  split_and!; try done.
  - pose proof (session_sizes (name, good) dcs gs Hpay Hok Hgne Hws H62) as Hsizes.
    assert (Z.of_nat (length dcs) <= 2 ^ 32) as Hn.
    { pose proof (f_equal length Hpay) as Hl. rewrite !length_fmap in Hl.
      pose proof (length_concat_nonempty gs Hgne). lia. }
    assert (Forall (fun dc => 0 <= dc_sequence dc < Z.of_nat (length dcs)) dcs) as Hsq.
    { apply (proj1 (Forall_fmap dc_sequence (fun q => 0 <= q < Z.of_nat (length dcs)) dcs)). rewrite Eseq.
      apply Forall_forall. intros q. rewrite elem_of_seqZ. lia. }
    apply Forall2_fmap_l, Forall_Forall2_diag, Forall_forall. intros dc Hin. unfold at_receiver.
    rewrite Forall_forall in Hsizes, Hsq, Hok, Efields.
    destruct (session_dc_ok be obs objectID objInstanceID masterInstanceID name good Hobs Hname Hnone Hchunks
      Hid Hinst os dc (Z.of_nat (length dcs))) as [Hdc Hm]; auto; [by apply Hok|].
    by apply receive_represents.
  - eapply Forall_impl; [exact Efields|]. intros dc (_ & -> & _). done.
Qed.

End arrives.

(** ** Properties *)

(** C4: Object data arrives.  A version committed on an instance or delta stream
    reaches the receiver's [ObjectDataIStream] through the data commands on the
    wire: the packets are numbered from 0, the stream is not ready before the
    final command and then carries the committed version, and reading it returns
    the value that was serialized, whatever the buffering and compression. *)
Theorem object_data_arrives `{!Pression, !PressionOk, !Lunchbox, !LunchboxOk}
    be it its threshold obs padding objectID objInstanceID masterInstanceID make_UUID
    kind name good uuid sv v conns t (x old : denote t) :
  (forall n, length (padding n) = n) ->
  (forall V (m : gmap Z V), it V m ≡ₚ map_to_list m) -> (forall s, its s ≡ₚ elements s) ->
  93 <= obs -> EQ_COMPRESSOR_NONE <> name -> wf_uint 4 name -> wf_uint 4 EQ_COMPRESSOR_NONE ->
  (forall b, Z.of_nat (length (compress name b)) < 2 ^ 32) ->
  kind <> KSlave -> conns <> [] ->
  is_u128 objectID -> wf_uint 4 objInstanceID -> is_u128 v -> v <> VERSION_INVALID -> fits t x ->
  let c := @stream _ _ _ (ObjectDataIStream_source be) be be it its t in
  size_of (concat (put c x)) < 2 ^ 62 -> Z.of_nat (length (put c x)) < 2 ^ 32 ->
  let os := ObjectDataOStream_init kind name good uuid in
  let os := enableCommit (with_base os (set_save sv (os_base os))) v conns in
  let dcs := (os_session be threshold obs objectID objInstanceID masterInstanceID make_UUID os (put c x)).2 in
  let cmds := (fun dc => receive be (bool_decide (kind = KInstance))
                           (dc_wire be threshold obs padding conns dc)) <$> dcs in
  dc_sequence <$> dcs = seqZ 0 (Z.of_nat (length dcs)) /\
  isReady (feed be ObjectDataIStream_init (removelast cmds)) = false /\
  is_version (feed be ObjectDataIStream_init cmds) = v /\
  (get c old (DataIStream_init false (feed be ObjectDataIStream_init cmds))).1 = x.
Proof.
  intros Hpad Hit Hits Hobs Hnn Hname Hnone Hchunks Hk Hcs Hid Hinst Hv Hvi Hx c H62 Hlen os0 os dcs cmds.
  pose proof (@stream_ok _ _ _ ObjectDataIStream (ObjectDataIStream_source be)
    (ObjectDataIStream_sourceOk be) be be it its Hit Hits t x Hx) as (Hne & Hws & Hget).
  fold c in Hne, Hws, Hget. rewrite xorb_nilpotent in Hget.
  assert (os_base os = opened name good sv conns /\ os_sequence os = 0 /\ os_kind os = kind /\
    os_version os = v) as (Hbase & Hseq & Hkind & Hver) by (by destruct kind).
  destruct (session_arrives be threshold obs padding objectID objInstanceID masterInstanceID make_UUID name good
    Hpad Hobs ltac:(auto) Hname Hnone Hchunks Hid Hinst os sv conns (put c x))
    as (os' & dcs' & gs & E & Eseq & Hrep & Hgs & Hpay & Hlast & Hvers & _); rewrite ?Hkind, ?Hver; auto.
  { rewrite Hbase. apply fresh_opened. }
  { intros ->. repeat split; by vm_compute. }
  assert (dcs = dcs') as Hdcs by (unfold dcs; by rewrite E). unfold cmds. clear cmds.
  rewrite Hdcs. clearbody dcs. clear dcs E Hdcs. rename dcs' into dcs.
  rewrite Hkind in Hrep. rewrite Hver in Hvers. fold (at_receiver be threshold obs padding conns kind).
  set (rcv := at_receiver be threshold obs padding conns kind) in *.
  assert (Forall2 (represents be obs) (is_commands ObjectDataIStream_init) []) as Hinit by constructor.
  split_and!; [done| | |].
  - unfold isReady. by rewrite (feed_removelast_not_ready be obs _ dcs (length gs - 1) Hrep Hlast).
  - by eapply (feed_version be obs _ dcs _ [] v).
  - pose proof (feed_spec be obs _ dcs _ [] Hinit Hrep) as Hfeed. simpl in Hfeed.
    set (st := feed _ _ _) in *.
    destruct st as [cs used vv].
    pose proof (commands_supply be obs cs dcs used vv false Hfeed) as Hsup. rewrite Hpay in Hsup.
    destruct (Hget old (DataIStream_init false (mkObjectDataIStream cs used vv)) []) as (ist & Eg & _);
      [|by rewrite Eg].
    rewrite app_nil_r, <-Hgs. by apply holds_init.
Qed.

Lemma object_data_arrives_witness :
  let c := @stream store_Pression native_Lunchbox _ (@ObjectDataIStream_source store_Pression native_Lunchbox false)
    false false (fun V => map_to_list) elements (TVector TString) in
  let x := [[1; 2; 3]; []; [4]] in
  let os := ObjectDataOStream_init KDelta 7 false 0 in
  let os := enableCommit (with_base os (set_save true (os_base os))) 5 [1] in
  let dcs := (@os_session store_Pression native_Lunchbox false 0 93 33 1 2 Z.succ os (put c x)).2 in
  let cmds := (fun dc => @receive store_Pression native_Lunchbox false false
    (@dc_wire store_Pression native_Lunchbox false 0 93 (fun n => replicate n 0) [1] dc)) <$> dcs in
  (get c [] (DataIStream_init false
     (@feed store_Pression native_Lunchbox false ObjectDataIStream_init cmds))).1 = x.
Proof.
  refine (proj2 (proj2 (proj2 (@object_data_arrives store_Pression store_PressionOk native_Lunchbox
    native_LunchboxOk false (fun V => map_to_list) elements 0 93 (fun n => replicate n 0) 33 1 2 Z.succ
    KDelta 7 false 0 true 5 [1] (TVector TString) [[1; 2; 3]; []; [4]] []
    (fun n => length_replicate n 0) (fun V m => Permutation_refl _) (fun s => Permutation_refl _)
    _ _ _ _ _ _ _ _ _ _ _ _ _ _)))); try done.
  repeat first [apply Forall_nil_2 | apply Forall_cons_2 | split]; done.
Defined.

Section queues.

Context `{!Pression, !Lunchbox} (be : bool).
Context {Q : Type -> Type} `{!MTQueue Q, !MTQueueOk Q}.

Lemma pull_loop_spec fuel key (qd : Q (Z * ObjectDataIStream)) unused l1 st l2 :
  q_contents qd = l1 ++ (key, st) :: l2 -> key ∉ l1.*1 -> (length l1 < fuel)%nat ->
  exists qd', pull_loop fuel key qd unused = Some (st, qd', unused ++ l1) /\ q_contents qd' = l2.
Proof.
  revert qd unused l1. induction fuel as [|fuel IH]; intros qd unused l1 Hq Hk Hf; [lia|].
  cbn [pull_loop]. pose proof (q_pop_spec qd) as Hp. destruct (q_pop qd) as [[cand qd']|].
  2: { rewrite Hp in Hq. by destruct l1. }
  rewrite Hp in Hq. destruct l1 as [|c l1]; simpl in Hq; injection Hq as -> Hq.
  - simpl. rewrite Z.eqb_refl, app_nil_r. eauto.
  - rewrite fmap_cons, not_elem_of_cons in Hk. destruct Hk as [Hk1 Hk2].
    rewrite (proj2 (Z.eqb_neq _ _)) by done.
    destruct (IH qd' (unused ++ [c]) l1 Hq Hk2) as (q2 & -> & Hq2); [simpl in Hf; lia|].
    exists q2. by rewrite <-app_assoc.
Qed.

(** What is stored of a received command. *)
Definition stored (c : ICommand) : ICommand :=
  ICommand_copy be (odc_icommand (ObjectDataICommand_of be c)).
Definition is_last (c : ICommand) : bool := odc_isLast (ObjectDataICommand_of be c).

Definition queue_run (q : DataIStreamQueue) (tr : list (Z * ICommand)) : DataIStreamQueue :=
  fold_left (fun q e => (queue_addDataCommand be q e.1 e.2).2) tr q.

(** The commands a queue holds for a key: those of its complete streams in queue
    order, then those of the incomplete one. *)
Definition complete (q : DataIStreamQueue) (k : Z) : list ObjectDataIStream :=
  snd <$> filter (fun s => s.1 = k) (q_contents (queued q)).
Definition held (q : DataIStreamQueue) (k : Z) : list ICommand :=
  concat (is_commands <$> complete q k) ++
  is_commands (default ObjectDataIStream_init (pending q !! k)).

Definition of_key {A} (k : Z) (tr : list (Z * A)) : list A := snd <$> filter (fun e => e.1 = k) tr.

(** Incomplete streams are not ready, complete ones are. *)
Definition queue_ok (q : DataIStreamQueue (Q := Q)) : Prop :=
  map_Forall (fun _ st => isReady st = false) (pending q) /\
  Forall (fun s => isReady s.2 = true) (q_contents (queued q)).

Definition valid_version (c : ICommand) : Prop :=
  odc_version (ObjectDataICommand_of be (stored c)) <> VERSION_INVALID.

Lemma addDataCommand_ready st c :
  isReady st = false -> valid_version c ->
  is_commands (addDataCommand be st c) = is_commands st ++ [stored c] /\
  isReady (addDataCommand be st c) = is_last c.
Proof.
  intros Hst Hv. unfold addDataCommand, is_last. fold (stored c).
  destruct (odc_isLast _); cbn [is_commands]; [|done]. split; [done|].
  unfold isReady, getPendingVersion. cbn [is_commands is_version]. rewrite last_snoc.
  rewrite (proj2 (Z.eqb_neq _ _)); [done|exact Hv].
Qed.

Lemma queue_step (q : DataIStreamQueue (Q := Q)) k c :
  queue_ok q -> valid_version c ->
  let q' := (queue_addDataCommand be q k c).2 in
  queue_ok q' /\ forall k',
    held q' k' = held q k' ++ (if decide (k' = k) then [stored c] else []) /\
    length (complete q' k') = (length (complete q k') +
      (if decide (k' = k) then if is_last c then 1 else 0 else 0))%nat.
Proof.
  intros [Hp Hq] Hv q'. unfold q', queue_addDataCommand.
  set (st := default ObjectDataIStream_init (pending q !! k)).
  assert (isReady st = false) as Hst.
  { unfold st. destruct (pending q !! k) as [st0|] eqn:E; [by apply (Hp k)|done]. }
  destruct (addDataCommand_ready st c Hst Hv) as [Hc Hr]. rewrite Hr.
  set (st' := addDataCommand be st c) in *.
  destruct (is_last c) eqn:Hl; cbn [snd].
  - split.
    { split; cbn [pending queued]; [by apply map_Forall_delete|]. rewrite q_contents_push.
      apply Forall_app. split; [done|]. by constructor. }
    intros k'. unfold held, complete. cbn [pending queued]. rewrite q_contents_push, filter_app.
    case_decide as Hk.
    + subst k'. rewrite (filter_cons_True _ (k, st') []) by done. rewrite filter_nil.
      rewrite !fmap_app, concat_app, lookup_delete_eq, length_app. simpl. rewrite !app_nil_r, Hc.
      split; [by rewrite app_assoc|lia].
    + rewrite (filter_cons_False _ (k, st') []) by (simpl; congruence). rewrite filter_nil, app_nil_r.
      rewrite lookup_delete_ne by done. rewrite app_nil_r. split; [done|lia].
  - split.
    { split; cbn [pending queued]; [|done]. by apply map_Forall_insert_2. }
    intros k'. unfold held, complete. cbn [pending queued]. case_decide as Hk.
    + subst k'. rewrite lookup_insert_eq. cbn [from_option id]. rewrite Hc, app_assoc. split; [done|lia].
    + rewrite lookup_insert_ne by done. rewrite app_nil_r. split; [done|lia].
Qed.

(** Interleaved commits are sorted into complete streams.  Data commands of
    any number of commits arriving interleaved are kept apart by key: for every
    key the commands held are exactly those received for it, in order, none is
    lost or duplicated, the number of complete streams is the number of final
    commands received, and only complete streams are handed out. *)
Theorem queue_assembles tr :
  Forall (fun e => valid_version e.2) tr ->
  let q := queue_run DataIStreamQueue_init tr in
  queue_ok q /\ forall k,
    held q k = stored <$> of_key k tr /\
    length (complete q k) = length (filter (fun c => is_last c = true) (of_key k tr)).
Proof.
  induction tr as [|[k0 c0] tr IH] using rev_ind; intros Htr q.
  { unfold q, queue_run. cbn [fold_left]. unfold DataIStreamQueue_init.
    split; [split; cbn [pending queued]; [apply map_Forall_empty|by rewrite q_contents_empty; constructor]|].
    intros k. unfold held, complete. cbn [pending queued]. rewrite q_contents_empty, lookup_empty. done. }
  apply Forall_app in Htr as [Htr [Hv _]%Forall_cons].
  destruct (IH Htr) as [Hok Hk]. unfold q, queue_run. rewrite fold_left_app. simpl.
  destruct (queue_step _ k0 c0 Hok Hv) as [Hok' Hk']. split; [exact Hok'|].
  intros k. destruct (Hk' k) as [E1 E2], (Hk k) as [F1 F2].
  unfold queue_run in E1, E2, F1, F2. rewrite E1, E2, F1, F2. unfold of_key. rewrite !filter_app, !fmap_app.
  case_decide as Hd.
  - rewrite (filter_cons_True _ (k0, c0) []), filter_nil by (by subst). simpl. split; [done|].
    rewrite filter_app, length_app. rewrite filter_cons. by destruct (is_last c0).
  - rewrite (filter_cons_False _ (k0, c0) []), filter_nil by (simpl; congruence). simpl.
    rewrite !app_nil_r. split; [done|lia].
Qed.

(** [pull] returns the stream of the given key and keeps the others.  When a
    stream with the key is queued, [pull] returns the first one, and the
    remaining streams stay queued in their order. *)
Theorem pull_keeps_order (q : DataIStreamQueue (Q := Q)) key l1 st l2 :
  q_contents (queued q) = l1 ++ (key, st) :: l2 -> key ∉ l1.*1 ->
  exists q', pull q key = Some (st, q') /\ q_contents (queued q') = l1 ++ l2 /\
    pending q' = pending q.
Proof.
  intros Hq Hk. unfold pull.
  destruct (pull_loop_spec (Datatypes.S (length (q_contents (queued q)))) key (queued q) [] l1 st l2)
    as (qd & -> & Hqd); auto.
  { rewrite Hq, length_app. simpl. lia. }
  eexists. split; [done|]. cbn [queued pending]. by rewrite q_contents_pushFrontAll, Hqd.
Qed.

End queues.

Lemma queue_assembles_witness :
  let wire v last := @dc_wire store_Pression native_Lunchbox false 0 300 (fun n => replicate n 0) [1]
    (mkDataCommand CMD_OBJECT_SLAVE_DELTA COMMANDTYPE_OBJECT 33 1 v 0
       (mkSendCall [9] 1 last 0 1 []) [enc false 16 v]) in
  let cmd v last := @receive store_Pression native_Lunchbox false false (wire v last) in
  let tr := [(1, cmd 1 false); (2, cmd 2 false); (2, cmd 2 true); (1, cmd 1 true)] in
  length (complete (@queue_run store_Pression native_Lunchbox false list _ DataIStreamQueue_init tr) 1) = 1%nat.
Proof.
  intros wire cmd tr.
  pose proof (@queue_assembles store_Pression native_Lunchbox false list _ _ tr) as H.
  destruct H as [_ H].
  - repeat first [apply Forall_nil_2 | apply Forall_cons_2]; by vm_compute.
  - destruct (H 1) as [_ ->]. by vm_compute.
Defined.

Lemma pull_keeps_order_witness :
  exists q', pull (mkDataIStreamQueue (Q := list) ∅
    [(1, ObjectDataIStream_init); (2, mkObjectDataIStream [] None 9)]) 2 =
    Some (mkObjectDataIStream [] None 9, q') /\ q_contents (queued q') = [(1, ObjectDataIStream_init)].
Proof.
  destruct (@pull_keeps_order list _ _ (mkDataIStreamQueue (Q := list) ∅
    [(1, ObjectDataIStream_init); (2, mkObjectDataIStream [] None 9)]) 2 [(1, ObjectDataIStream_init)]
    (mkObjectDataIStream [] None 9) []) as (q' & ? & ? & _).
  - done.
  - simpl. set_solver.
  - by exists q'.
Defined.
