(* ===== verification/InstanceCache.v ===== *)
(** * Instance cache (co/instanceCache.h, instanceCache.cpp)

    The cache of object instance data a node keeps to map objects without asking
    their master again.  Items are keyed by object identifier; each holds the
    streams of consecutive versions.  The hash map's iteration order is a
    parameter [it] of the operations that iterate. *)

From S2P Require Import Prelude Bytes Lunchbox DataOStream DataIStream Serialize Transfer Commands ObjectStreams.

(** [InstanceCache::Item] with its [Data]. *)
Record Item := mkItem {
  masterInstanceID : Z;
  versions : list ObjectDataIStream;
  used : Z;
  access : Z;
  from : Z;
  times : list Z
}.

Record InstanceCache := mkInstanceCache {
  items : gmap Z Item;
  maxSize : Z;
  cacheSize : Z
}.

Definition set_item (c : InstanceCache) (id : Z) (item : Item) : InstanceCache :=
  mkInstanceCache (<[id := item]> (items c)) (maxSize c) (cacheSize c).
Definition set_size (c : InstanceCache) (sz : Z) : InstanceCache :=
  mkInstanceCache (items c) (maxSize c) sz.
Definition drop_item (c : InstanceCache) (id : Z) : InstanceCache :=
  mkInstanceCache (delete id (items c)) (maxSize c) (cacheSize c).

(** ** The low-water mark [uint64_t( float( _maxSize ) * 0.8f )]

    Single-precision values are [m * 2 ^ e] with [m] below [2 ^ 24];
    [round24] rounds to nearest, ties to even.  [0.8f] is 13421773 * 2 ^ -24. *)

Definition round24 (m e : Z) : Z * Z :=
  if m <? 2 ^ 24 then (m, e)
  else
    let k := Z.log2 m - 23 in
    let q := Z.shiftr m k in
    let r := m - Z.shiftl q k in
    let half := Z.shiftl 1 (k - 1) in
    let q := if (r >? half) || ((r =? half) && Z.odd q) then q + 1 else q in
    (q, e + k).

Definition lowWater (max : Z) : Z :=
  let '(m, e) := round24 max 0 in
  let '(p, f) := round24 (m * 13421773) (e - 24) in
  if 0 <=? f then Z.shiftl p f else Z.shiftr p (- f).

Section cache.

Context `{!Pression, !Lunchbox} (be : bool).

(** The order in which the hash map is iterated. *)
Context (it : gmap Z Item -> list Z).

Definition InstanceCache_init (max : Z) : InstanceCache := mkInstanceCache ∅ max 0.

Definition Item_init : Item := mkItem CO_INSTANCE_INVALID [] 0 0 0 [].

(** [_deleteStream]: the effect on the size. *)
Definition deleteStream (sz : Z) (stream : ObjectDataIStream) : Z := u64 (sz - getDataSize stream).

(** [_releaseFirstStream] *)
Definition releaseFirstStream (item : Item) (sz : Z) : Item * Z :=
  match versions item with
  | [] => (item, sz)
  | stream :: vs =>
      (mkItem (masterInstanceID item) vs (used item) (access item) (from item) (tail (times item)),
       deleteStream sz stream)
  end.

(** [_releaseStreams( item )]: all of them, from the back. *)
Definition releaseStreams (item : Item) (sz : Z) : Item * Z :=
  (mkItem (masterInstanceID item) [] (used item) (access item) (from item) [],
   fold_left deleteStream (rev (versions item)) sz).

(** [_releaseStreams( item, minTime )]; every round removes a stream. *)
Fixpoint releaseOldStreams_loop (fuel : nat) (minTime : Z) (item : Item) (sz : Z) : Item * Z :=
  match fuel with
  | O => (item, sz)
  | Datatypes.S fuel =>
      match versions item, times item with
      | stream :: _, t :: _ =>
          if (t <=? minTime) && isReady stream
          then let '(item, sz) := releaseFirstStream item sz in
               releaseOldStreams_loop fuel minTime item sz
          else (item, sz)
      | _, _ => (item, sz)
      end
  end.

Definition releaseOldStreams (minTime : Z) (item : Item) (sz : Z) : Item * Z :=
  releaseOldStreams_loop (Datatypes.S (length (versions item))) minTime item sz.

(** *** [_releaseItems] *)

Definition releasable (minUsage : Z) (item : Item) : bool :=
  (access item =? 0) && (used item >=? minUsage).

Definition is_nil {A} (l : list A) : bool := match l with [] => true | _ => false end.

(** The first loop, over the items. *)
Fixpoint releaseItems_first (target minUsage : Z) (ids : list Z) (c : InstanceCache)
    (keys : list Z) (more : bool) : InstanceCache * list Z * bool :=
  match ids with
  | [] => (c, keys, more)
  | id :: ids =>
      if cacheSize c >? target then
        match items c !! id with
        | Some item =>
            if releasable minUsage item then
              let '(item, sz) := releaseFirstStream item (cacheSize c) in
              releaseItems_first target minUsage ids (set_size (set_item c id item) sz)
                (keys ++ [id]) (if is_nil (versions item) then more else true)
            else releaseItems_first target minUsage ids c keys more
        | None => releaseItems_first target minUsage ids c keys more
        end
      else (c, keys, more)
  end.

(** One round of the second loop, over the collected keys. *)
Fixpoint releaseItems_round (target minUsage : Z) (keys : list Z) (c : InstanceCache) (more : bool) :
    InstanceCache * bool :=
  match keys with
  | [] => (c, more)
  | id :: keys =>
      if cacheSize c >? target then
        match items c !! id with
        | Some item =>
            if negb (is_nil (versions item)) && releasable minUsage item then
              let '(item, sz) := releaseFirstStream item (cacheSize c) in
              releaseItems_round target minUsage keys (set_size (set_item c id item) sz)
                (if is_nil (versions item) then more else true)
            else releaseItems_round target minUsage keys c more
        | None => releaseItems_round target minUsage keys c more
        end
      else (c, more)
  end.

(** The second loop; a round that leaves streams has removed one. *)
Fixpoint releaseItems_rest (fuel : nat) (target minUsage : Z) (keys : list Z) (c : InstanceCache)
    (more : bool) : InstanceCache :=
  if more && (cacheSize c >? target) then
    match fuel with
    | O => c
    | Datatypes.S fuel =>
        let '(c, more) := releaseItems_round target minUsage keys c false in
        releaseItems_rest fuel target minUsage keys c more
    end
  else c.

(** The last loop: drop emptied items. *)
Fixpoint eraseEmpty (keys : list Z) (c : InstanceCache) : InstanceCache :=
  match keys with
  | [] => c
  | id :: keys =>
      match items c !! id with
      | Some item => eraseEmpty keys (if is_nil (versions item) then drop_item c id else c)
      | None => eraseEmpty keys c
      end
  end.

(** The number of streams in the cache bounds the rounds. *)
Definition nStreams (c : InstanceCache) : nat :=
  Z.to_nat (msum (fun item => Z.of_nat (length (versions item))) (items c)).

Definition releaseItems (minUsage : Z) (c : InstanceCache) : InstanceCache :=
  if cacheSize c <=? maxSize c then c
  else
    let target := lowWater (maxSize c) in
    let '(c, keys, more) := releaseItems_first target minUsage (it (items c)) c [] false in
    eraseEmpty keys (releaseItems_rest (Datatypes.S (nStreams c)) target minUsage keys c more).

(** *** The operations *)

(** The item for [rev], with the data of another master trashed; [None] when it
    is in use. *)
Definition add_item (c : InstanceCache) (id instanceID nodeID usage : Z) : option (Item * Z) :=
  let item := match items c !! id with
              | Some item => item
              | None => mkItem instanceID [] 0 0 nodeID []
              end in
  if negb (masterInstanceID item =? instanceID) || negb (from item =? nodeID) then
    if negb (access item =? 0) then None
    else
      let '(item, sz) := releaseStreams item (cacheSize c) in
      Some (mkItem instanceID (versions item) usage (access item) nodeID (times item), sz)
  else Some (mkItem (masterInstanceID item) (versions item) (Z.max (used item) usage) (access item)
               (from item) (times item), cacheSize c).

(** Make room for a stream of [version] at the back; [None] when the version is
    not added. *)
Definition add_stream (item : Item) (sz now version : Z) : option (Item * Z) :=
  let push item :=
    mkItem (masterInstanceID item) (versions item ++ [ObjectDataIStream_init]) (used item) (access item)
      (from item) (times item ++ [now]) in
  match last (versions item) with
  | None => Some (push item, sz)
  | Some previous =>
      if getPendingVersion be previous =? version then
        if isReady previous then None else Some (item, sz)
      else
        let previousVersion := getPendingVersion be previous in
        if previousVersion >? version then None
        else if negb (u128 (previousVersion + 1) =? version) then
          if negb (access item =? 0) then None
          else let '(item, sz) := releaseStreams item sz in Some (push item, sz)
        else Some (push item, sz)
  end.

(** Append the command to the last stream. *)
Definition add_command (item : Item) (sz : Z) (command : ICommand) : Item * Z :=
  match last (versions item) with
  | None => (item, sz)
  | Some stream =>
      let stream := addDataCommand be stream command in
      (mkItem (masterInstanceID item) (removelast (versions item) ++ [stream]) (used item)
         (access item) (from item) (times item),
       if isReady stream then u64 (sz + getDataSize stream) else sz)
  end.

Definition add (c : InstanceCache) (rev : ObjectVersion) (instanceID nodeID now : Z) (command : ICommand)
    (usage : Z) : bool * InstanceCache :=
  let id := identifier rev in
  match add_item c id instanceID nodeID usage with
  | None => (false, c)
  | Some (item, sz) =>
      match add_stream item sz now (version rev) with
      | None => (false, set_size (set_item c id item) sz)
      | Some (item, sz) =>
          let '(item, sz) := add_command item sz command in
          let c := set_size (set_item c id item) sz in
          (true, releaseItems 0 (releaseItems 1 c))
      end
  end.

(** [remove]: all items of a node. *)
Fixpoint remove_loop (nodeID : Z) (ids : list Z) (c : InstanceCache) : InstanceCache :=
  match ids with
  | [] => c
  | id :: ids =>
      match items c !! id with
      | Some item =>
          if (from item =? nodeID) && (access item =? 0)
          then let '(_, sz) := releaseStreams item (cacheSize c) in
               remove_loop nodeID ids (drop_item (set_size c sz) id)
          else remove_loop nodeID ids c
      | None => remove_loop nodeID ids c
      end
  end.

Definition remove (c : InstanceCache) (nodeID : Z) : InstanceCache :=
  remove_loop nodeID (it (items c)) c.

(** [operator[]]: pins the item. *)
Definition cache_get (c : InstanceCache) (id : Z) : option (Z * list ObjectDataIStream) * InstanceCache :=
  match items c !! id with
  | None => (None, c)
  | Some item =>
      (Some (masterInstanceID item, versions item),
       set_item c id (mkItem (masterInstanceID item) (versions item) (u32 (used item + 1))
                        (u32 (access item + 1)) (from item) (times item)))
  end.

Definition release (c : InstanceCache) (id count : Z) : bool * InstanceCache :=
  match items c !! id with
  | None => (false, c)
  | Some item =>
      (true, releaseItems 1 (set_item c id
         (mkItem (masterInstanceID item) (versions item) (used item) (u32 (access item - count))
            (from item) (times item))))
  end.

Definition erase (c : InstanceCache) (id : Z) : bool * InstanceCache :=
  match items c !! id with
  | None => (false, c)
  | Some item =>
      if negb (access item =? 0) then (false, c)
      else let '(_, sz) := releaseStreams item (cacheSize c) in (true, drop_item (set_size c sz) id)
  end.

Fixpoint expire_loop (time : Z) (ids : list Z) (c : InstanceCache) : InstanceCache :=
  match ids with
  | [] => c
  | id :: ids =>
      match items c !! id with
      | Some item =>
          if negb (access item =? 0) then expire_loop time ids c
          else
            let '(item, sz) := releaseOldStreams time item (cacheSize c) in
            let c := set_size c sz in
            expire_loop time ids
              (if is_nil (versions item) then drop_item c id else set_item c id item)
      | None => expire_loop time ids c
      end
  end.

Definition expire (c : InstanceCache) (now timeout : Z) : InstanceCache :=
  let time := now - timeout in
  if time <=? 0 then c else expire_loop time (it (items c)) c.

End cache.

(** ** The size of the cache *)

Section sizes.

Context `{!Pression, !Lunchbox} (be : bool).
Context (it : gmap Z Item -> list Z).

(** The bytes counted for a stream: those of a complete one. *)
Definition readySize (st : ObjectDataIStream) : Z := if isReady st then getDataSize st else 0.

Definition sum_list (l : list Z) : Z := foldr Z.add 0 l.

Definition itemSize (item : Item) : Z := sum_list (readySize <$> versions item).

Definition total (m : gmap Z Item) : Z := msum itemSize m.

Record item_ok (item : Item) : Prop := {
  io_times : length (times item) = length (versions item);
  io_sizes : Forall (fun st => 0 <= getDataSize st) (versions item);
}.

(** The size field is the number of bytes of the complete streams. *)
Record cache_ok (c : InstanceCache) : Prop := {
  co_size : cacheSize c = total (items c);
  co_u64 : cacheSize c < 2 ^ 64;
  co_items : map_Forall (fun _ item => item_ok item) (items c);
}.

Definition item_ready (item : Item) : Prop := Forall (fun st => isReady st = true) (versions item).

Lemma sum_list_app l1 l2 : sum_list (l1 ++ l2) = sum_list l1 + sum_list l2.
Proof. induction l1 as [|x l1 IH]; simpl; [done|]. rewrite IH. lia. Qed.

Lemma readySize_nonneg st : 0 <= getDataSize st -> 0 <= readySize st.
Proof. unfold readySize. destruct (isReady st); lia. Qed.

Lemma itemSize_nonneg item : item_ok item -> 0 <= itemSize item.
Proof.
  intros [_ Hs]. unfold itemSize. induction Hs as [|st vs Hst _ IH]; [done|].
  rewrite fmap_cons. simpl. pose proof (readySize_nonneg st Hst). lia.
Qed.

Lemma total_nonneg m : map_Forall (fun _ item => item_ok item) m -> 0 <= total m.
Proof.
  intros Hm. apply msum_nonneg. eapply map_Forall_impl; [exact Hm|]. intros ? ? ?.
  by apply itemSize_nonneg.
Qed.

Lemma rest_bounds c id item :
  cache_ok c -> items c !! id = Some item ->
  cacheSize c = itemSize item + total (delete id (items c)) /\ 0 <= total (delete id (items c)) /\
  item_ok item /\ 0 <= itemSize item.
Proof.
  intros [Hs _ Hi] Hl. assert (item_ok item) by (by apply (Hi id)). split_and!; auto.
  - rewrite Hs. by apply msum_delete.
  - apply total_nonneg. by apply map_Forall_delete.
  - by apply itemSize_nonneg.
Qed.

(** Replacing an item and accounting for it keeps the size exact. *)
Lemma cache_ok_set c id item sz :
  cache_ok c -> item_ok item -> sz = itemSize item + total (delete id (items c)) -> sz < 2 ^ 64 ->
  cache_ok (set_size (set_item c id item) sz).
Proof.
  intros [Hs _ Hi] Hok Hsz Hlt. constructor; simpl; [|done|].
  - unfold total. by rewrite msum_insert.
  - by apply map_Forall_insert_2.
Qed.

(** *** What an operation throws away *)

Definition vsum (f : ObjectDataIStream -> Z) (vs : list ObjectDataIStream) : Z := sum_list (f <$> vs).
Definition csum (f : ObjectDataIStream -> Z) (m : gmap Z Item) : Z := msum (fun item => vsum f (versions item)) m.

(** The number of incomplete streams in the cache. *)
Definition incomplete (st : ObjectDataIStream) : Z := if isReady st then 0 else 1.
Definition nIncomplete (c : InstanceCache) : Z := csum incomplete (items c).

(** From [c] to [c'] the streams [gone] were deleted, and nothing else was done to
    the streams and the size. *)
Record discarded (gone : list ObjectDataIStream) (c c' : InstanceCache) : Prop := {
  di_size : cacheSize c' = fold_left deleteStream gone (cacheSize c);
  di_streams f : csum f (items c) = vsum f gone + csum f (items c');
  di_items : map_Forall (fun _ item => item_ok item) (items c) ->
    map_Forall (fun _ item => item_ok item) (items c') /\ Forall (fun st => 0 <= getDataSize st) gone;
}.

Definition discards (c c' : InstanceCache) : Prop := exists gone, discarded gone c c'.

Lemma vsum_app f l1 l2 : vsum f (l1 ++ l2) = vsum f l1 + vsum f l2.
Proof. unfold vsum. by rewrite fmap_app, sum_list_app. Qed.

Lemma vsum_rev f l : vsum f (rev l) = vsum f l.
Proof.
  induction l as [|x l IH]; [done|]. simpl rev. rewrite vsum_app, IH.
  assert (vsum f (x :: l) = f x + vsum f l /\ vsum f [x] = f x + 0) as [-> ->] by done. lia.
Qed.

Lemma discards_refl c : discards c c.
Proof. exists []. split; [done|done|by split]. Qed.

Lemma discards_trans c1 c2 c3 : discards c1 c2 -> discards c2 c3 -> discards c1 c3.
Proof.
  intros [g1 [A1 B1 C1]] [g2 [A2 B2 C2]]. exists (g1 ++ g2). split.
  - by rewrite fold_left_app, <-A1.
  - intros f. rewrite vsum_app, B1, B2. lia.
  - intros Hm. destruct (C1 Hm) as [H1 ?]. destruct (C2 H1) as [? ?]. split; [done|]. by apply Forall_app.
Qed.

(** An item that lost its first streams. *)
Lemma discards_item c id item item' gone :
  items c !! id = Some item -> versions item = gone ++ versions item' ->
  (item_ok item -> length (times item') = length (versions item')) ->
  discards c (set_size (set_item c id item') (fold_left deleteStream gone (cacheSize c))).
Proof.
  intros Hl Hv Ht. exists gone. split; [done|..].
  - intros f. unfold csum. simpl. rewrite msum_insert, (msum_delete _ _ _ _ Hl), Hv, vsum_app. lia.
  - intros Hi. pose proof (Hi id item Hl) as Hio. pose proof (io_sizes item Hio) as Hs. rewrite Hv in Hs.
    apply Forall_app in Hs as [Hg Hs]. split; [|done]. apply map_Forall_insert_2; [split; auto|done].
Qed.

Lemma discards_drop c id item gone :
  items c !! id = Some item -> versions item = gone \/ versions item = rev gone ->
  discards c (drop_item (set_size c (fold_left deleteStream gone (cacheSize c))) id).
Proof.
  intros Hl Hv. exists gone. split; [done|..].
  - intros f. unfold csum. simpl. rewrite (msum_delete _ _ _ _ Hl). destruct Hv as [-> | ->]; [done|by rewrite vsum_rev].
  - intros Hi. split; [by apply map_Forall_delete|]. pose proof (io_sizes item (Hi id item Hl)) as Hs.
    destruct Hv as [E|E]; rewrite E in Hs; [done|]. apply List.Forall_rev in Hs. by rewrite rev_involutive in Hs.
Qed.

(** Deleting complete streams gives back their bytes. *)
Lemma delete_ready gone sz rest :
  Forall (fun st => isReady st = true) gone -> Forall (fun st => 0 <= getDataSize st) gone ->
  sz = vsum readySize gone + rest -> 0 <= rest -> sz < 2 ^ 64 -> fold_left deleteStream gone sz = rest.
Proof.
  intros Hr. revert sz. induction Hr as [|st gone Hst _ IH]; intros sz Hs Hsz Hrest H64; [unfold vsum in Hsz; simpl in *; lia|].
  apply Forall_cons in Hs as [Hs1 Hs]. cbn [fold_left].
  assert (vsum readySize (st :: gone) = getDataSize st + vsum readySize gone) as E.
  { unfold vsum. rewrite fmap_cons. simpl. unfold readySize at 1. by rewrite Hst. }
  assert (0 <= vsum readySize gone) as Hn.
  { unfold vsum. clear -Hs. induction Hs as [|x l Hx _ IH]; [done|]. rewrite fmap_cons. simpl. pose proof (readySize_nonneg x Hx). lia. }
  assert (deleteStream sz st = sz - getDataSize st) as ->.
  { unfold deleteStream. apply u64_small. unfold is_u64. change (2 ^ 64) with 18446744073709551616 in H64. lia. }
  apply IH; auto; lia.
Qed.

Lemma none_incomplete gone : vsum incomplete gone <= 0 -> Forall (fun st => isReady st = true) gone.
Proof.
  induction gone as [|st gone IH]; [done|]. unfold vsum in *. rewrite fmap_cons. simpl.
  assert (0 <= sum_list (incomplete <$> gone)).
  { clear. induction gone as [|x l IH]; [done|]. rewrite fmap_cons. simpl. unfold incomplete at 1. destruct (isReady x); lia. }
  unfold incomplete at 1. intros Hle. destruct (isReady st) eqn:E; [|lia]. constructor; [done|]. apply IH. lia.
Qed.

(** The size stays exact if as many streams are incomplete as before. *)
Lemma discards_ok c c' : cache_ok c -> discards c c' -> nIncomplete c <= nIncomplete c' -> cache_ok c'.
Proof.
  intros [Hs H64 Hi] [gone [A B C]] Hn. destruct (C Hi) as [Hi' Hg]. unfold nIncomplete in Hn. rewrite (B incomplete) in Hn.
  pose proof (none_incomplete gone ltac:(lia)) as Hr. pose proof (total_nonneg (items c') Hi') as Ht.
  assert (cacheSize c' = total (items c')) as E.
  { rewrite A. apply delete_ready; auto. rewrite Hs. apply (B readySize). }
  constructor; [done| |done]. rewrite E. rewrite Hs in H64. change (total (items c)) with (csum readySize (items c)) in H64.
  rewrite (B readySize) in H64. change (total (items c')) with (csum readySize (items c')).
  assert (0 <= vsum readySize gone); [|lia]. clear -Hg. unfold vsum. induction Hg as [|x l Hx _ IH]; [done|].
  rewrite fmap_cons. simpl. pose proof (readySize_nonneg x Hx). lia.
Qed.

(** *** The operations that only delete streams *)

Lemma releaseFirst_gone item sz :
  exists gone item', releaseFirstStream item sz = (item', fold_left deleteStream gone sz) /\ versions item = gone ++ versions item' /\
    (item_ok item -> length (times item') = length (versions item')).
Proof.
  unfold releaseFirstStream. destruct (versions item) as [|st vs] eqn:Hv.
  - exists [], item. rewrite Hv. split_and!; [done|done|]. intros [Ht _]. by rewrite Ht, Hv.
  - exists [st]. eexists. split_and!; [done|done|]. simpl. intros [Ht _]. rewrite Hv in Ht. destruct (times item); simpl in *; lia.
Qed.

Lemma release_step c id item item' sz :
  items c !! id = Some item -> releaseFirstStream item (cacheSize c) = (item', sz) -> discards c (set_size (set_item c id item') sz).
Proof.
  intros Hl E. destruct (releaseFirst_gone item (cacheSize c)) as (gone & item1 & E1 & Hv & Ht). rewrite E1 in E. injection E as <- <-.
  by eapply discards_item.
Qed.

Lemma releaseItems_first_discards target mu ids c keys more : discards c (releaseItems_first target mu ids c keys more).1.1.
Proof.
  revert c keys more. induction ids as [|id ids IH]; intros c keys more; cbn [releaseItems_first]; [apply discards_refl|].
  destruct (_ >? target); [|apply discards_refl].
  destruct (items c !! id) as [item|] eqn:Hl; [|apply IH]. destruct (releasable mu item); [|apply IH].
  destruct (releaseFirstStream item (cacheSize c)) as [item' sz] eqn:E.
  eapply discards_trans; [by eapply release_step|apply IH].
Qed.

Lemma releaseItems_round_discards target mu keys c more : discards c (releaseItems_round target mu keys c more).1.
Proof.
  revert c more. induction keys as [|id keys IH]; intros c more; cbn [releaseItems_round]; [apply discards_refl|].
  destruct (_ >? target); [|apply discards_refl].
  destruct (items c !! id) as [item|] eqn:Hl; [|apply IH]. destruct (negb _ && _); [|apply IH].
  destruct (releaseFirstStream item (cacheSize c)) as [item' sz] eqn:E.
  eapply discards_trans; [by eapply release_step|apply IH].
Qed.

Lemma releaseItems_rest_discards fuel target mu keys c more : discards c (releaseItems_rest fuel target mu keys c more).
Proof.
  revert c more. induction fuel as [|fuel IH]; intros c more; cbn [releaseItems_rest]; destruct (more && _); try apply discards_refl.
  pose proof (releaseItems_round_discards target mu keys c false) as Hr. destruct (releaseItems_round _ _ _ _ _) as [c1 m1].
  eapply discards_trans; [exact Hr|apply IH].
Qed.

Lemma eraseEmpty_discards keys c : discards c (eraseEmpty keys c).
Proof.
  revert c. induction keys as [|id keys IH]; intros c; cbn [eraseEmpty]; [apply discards_refl|].
  destruct (items c !! id) as [item|] eqn:Hl; [|apply IH]. destruct (versions item) as [|st vs] eqn:Hv; cbn [is_nil]; [|apply IH].
  eapply discards_trans; [|apply IH]. apply (discards_drop c id item []); [done|by left].
Qed.

Lemma releaseItems_discards mu c : discards c (releaseItems it mu c).
Proof.
  unfold releaseItems. destruct (_ <=? _); [apply discards_refl|].
  pose proof (releaseItems_first_discards (lowWater (maxSize c)) mu (it (items c)) c [] false) as Hf.
  destruct (releaseItems_first _ _ _ _ _ _) as [[c1 keys] more].
  eapply discards_trans; [exact Hf|]. eapply discards_trans; [apply releaseItems_rest_discards|apply eraseEmpty_discards].
Qed.

Lemma remove_discards nodeID ids c : discards c (remove_loop nodeID ids c).
Proof.
  revert c. induction ids as [|id ids IH]; intros c; cbn [remove_loop]; [apply discards_refl|].
  destruct (items c !! id) as [item|] eqn:Hl; [|apply IH]. destruct (_ && _); [|apply IH]. unfold releaseStreams.
  eapply discards_trans; [|apply IH]. apply (discards_drop c id item); [done|right; by rewrite rev_involutive].
Qed.

Lemma erase_discards c id : discards c (erase c id).2.
Proof.
  unfold erase. destruct (items c !! id) as [item|] eqn:Hl; [|apply discards_refl]. destruct (negb _); [apply discards_refl|].
  unfold releaseStreams. cbn [snd]. apply (discards_drop c id item); [done|right; by rewrite rev_involutive].
Qed.

Lemma releaseOld_gone fuel time item sz :
  exists gone item', releaseOldStreams_loop fuel time item sz = (item', fold_left deleteStream gone sz) /\ versions item = gone ++ versions item' /\
    (item_ok item -> length (times item') = length (versions item')).
Proof.
  revert item sz. induction fuel as [|fuel IH]; intros item sz; cbn [releaseOldStreams_loop].
  { exists [], item. split_and!; [done|done|by intros []]. }
  destruct (versions item) as [|st vs] eqn:Hv; [exists [], item; split_and!; [done|by rewrite Hv|by intros []]|].
  destruct (times item) as [|t ts] eqn:Ht; [exists [], item; split_and!; [done|by rewrite Hv|by intros []]|].
  destruct (_ && _); [|exists [], item; split_and!; [done|by rewrite Hv|by intros []]].
  destruct (releaseFirst_gone item sz) as (g1 & item1 & -> & Hv1 & Ht1).
  destruct (IH item1 (fold_left deleteStream g1 sz)) as (g2 & item2 & -> & Hv2 & Ht2).
  exists (g1 ++ g2), item2. rewrite fold_left_app. split_and!; [done|by rewrite <-app_assoc, <-Hv2, <-Hv|].
  intros Hio. apply Ht2. split; [by apply Ht1|]. pose proof (io_sizes item Hio) as Hs. rewrite Hv1 in Hs. by apply Forall_app in Hs as [_ ?].
Qed.

Lemma expire_discards time ids c : discards c (expire_loop time ids c).
Proof.
  revert c. induction ids as [|id ids IH]; intros c; cbn [expire_loop]; [apply discards_refl|].
  destruct (items c !! id) as [item|] eqn:Hl; [|apply IH]. destruct (negb _); [apply IH|]. unfold releaseOldStreams.
  destruct (releaseOld_gone (Datatypes.S (length (versions item))) time item (cacheSize c)) as (gone & item' & -> & Hv & Ht).
  eapply discards_trans; [|apply IH]. destruct (versions item') as [|st vs] eqn:Hv'; cbn [is_nil].
  - apply (discards_drop c id item); [done|left; by rewrite Hv, app_nil_r].
  - change (set_item (set_size c ?s) id item') with (set_size (set_item c id item') s). apply (discards_item c id item item' gone Hl); [by rewrite Hv, Hv'|by rewrite Hv'].
Qed.

(** *** [add] *)

Lemma getDataSize_add st command :
  getDataSize (addDataCommand be st command) = getDataSize st + ic_size (stored be command).
Proof.
  assert (is_commands (addDataCommand be st command) = is_commands st ++ [stored be command]) as Hc.
  { unfold addDataCommand, stored. by destruct (odc_isLast _). }
  unfold getDataSize. by rewrite Hc, fold_left_app.
Qed.

(** The cache before [add] makes room. *)
Definition add_filled (c : InstanceCache) (rev : ObjectVersion) (instanceID nodeID now : Z) (command : ICommand)
    (usage : Z) : InstanceCache :=
  match add_item c (identifier rev) instanceID nodeID usage with
  | None => c
  | Some (item, sz) =>
      match add_stream be item sz now (version rev) with
      | None => set_size (set_item c (identifier rev) item) sz
      | Some (item, sz) =>
          let '(item, sz) := add_command be item sz command in set_size (set_item c (identifier rev) item) sz
      end
  end.

Lemma add_discards_filled c rev inst node now command usage :
  discards (add_filled c rev inst node now command usage) (add be it c rev inst node now command usage).2.
Proof.
  unfold add_filled, add. destruct (add_item _ _ _ _ _) as [[item sz]|]; [|apply discards_refl].
  destruct (add_stream _ _ _ _ _) as [[item1 sz1]|]; [|apply discards_refl]. destruct (add_command _ _ _ _) as [item2 sz2].
  cbn [snd]. eapply discards_trans; apply releaseItems_discards.
Qed.

(** Whether [add] drops the streams of an unused object before it adds one: they
    are of another master, or of versions before a gap. *)
Definition add_drops (item : Item) (instanceID nodeID version : Z) : bool :=
  negb (masterInstanceID item =? instanceID) || negb (from item =? nodeID) ||
  match last (versions item) with
  | Some previous =>
      (getPendingVersion be previous <? version) && negb (u128 (getPendingVersion be previous + 1) =? version)
  | None => false
  end.

Lemma releaseStreams_spec item sz rest :
  item_ok item -> sz = itemSize item + rest -> 0 <= rest -> sz < 2 ^ 64 -> item_ready item ->
  (releaseStreams item sz).2 = rest.
Proof.
  intros [_ Hs] Hsz Hr H64 Hrd. unfold releaseStreams. cbn [snd].
  apply delete_ready; auto; [by apply List.Forall_rev|by apply List.Forall_rev|].
  by rewrite vsum_rev.
Qed.

Lemma add_item_spec c id inst node usage item sz :
  cache_ok c ->
  (forall item0, items c !! id = Some item0 -> access item0 = 0 ->
     negb (masterInstanceID item0 =? inst) || negb (from item0 =? node) = true -> item_ready item0) ->
  add_item c id inst node usage = Some (item, sz) ->
  item_ok item /\ sz = itemSize item + total (delete id (items c)) /\ sz < 2 ^ 64 /\
  (versions item = [] \/
   exists item0, items c !! id = Some item0 /\ versions item = versions item0 /\ access item = access item0).
Proof.
  intros Hok Hcond. unfold add_item. pose proof (co_u64 c Hok) as H64. destruct (items c !! id) as [item0|] eqn:Hl.
  - destruct (rest_bounds c id item0 Hok Hl) as (Hsz & Hrest & Hio & Hin). specialize (Hcond item0 eq_refl).
    destruct (negb (masterInstanceID item0 =? inst) || _).
    + destruct (Z.eqb_spec (access item0) 0) as [Ha|]; cbn [negb]; [|done].
      pose proof (releaseStreams_spec item0 _ _ Hio Hsz Hrest (co_u64 c Hok) (Hcond Ha eq_refl)) as E.
      unfold releaseStreams in *. simpl in E. intros [= <- <-]. rewrite E.
      split_and!; [done|unfold itemSize; simpl; lia|lia|by left].
    + intros [= <- <-]. split_and!; [by destruct Hio|done|done|]. right. by exists item0.
  - simpl. rewrite !Z.eqb_refl. simpl. intros [= <- <-].
    assert (total (items c) = total (delete id (items c))) as Ht by (by rewrite delete_id).
    pose proof (co_size c Hok). split_and!; [done|unfold itemSize; simpl; lia|lia|by left].
Qed.

(** The last stream, to which the command is added, is incomplete. *)
Lemma add_stream_spec item sz rest now ver item' sz' :
  item_ok item -> sz = itemSize item + rest -> 0 <= rest -> sz < 2 ^ 64 ->
  (access item = 0 -> forall previous, last (versions item) = Some previous ->
     (getPendingVersion be previous <? ver) && negb (u128 (getPendingVersion be previous + 1) =? ver) = true -> item_ready item) ->
  add_stream be item sz now ver = Some (item', sz') ->
  item_ok item' /\ sz' = itemSize item' + rest /\ exists vs st, versions item' = vs ++ [st] /\ isReady st = false.
Proof.
  intros Hok Hsz Hr H64 Hcond. unfold add_stream.
  assert (forall it0, item_ok it0 ->
    let it1 := mkItem (masterInstanceID it0) (versions it0 ++ [ObjectDataIStream_init]) (used it0)
      (access it0) (from it0) (times it0 ++ [now]) in
    item_ok it1 /\ itemSize it1 = itemSize it0 /\ exists vs st, versions it1 = vs ++ [st] /\ isReady st = false) as Hpush.
  { intros it0 [Ht Hs] it1. split_and!.
    - split; simpl; [rewrite !length_app; simpl; lia|]. apply Forall_app. by split; [|constructor].
    - unfold itemSize, it1. simpl. rewrite fmap_app, sum_list_app. simpl. change (readySize ObjectDataIStream_init) with 0. lia.
    - by exists (versions it0), ObjectDataIStream_init. }
  destruct (last (versions item)) as [prev|] eqn:Hl.
  2: { intros [= <- <-]. destruct (Hpush item Hok) as (? & E1 & ?). rewrite E1. by split_and!. }
  pose proof Hl as Hl'. apply last_Some in Hl' as [vs0 Hv].
  destruct (Z.eqb_spec (getPendingVersion be prev) ver) as [Hpv|Hpv].
  { destruct (isReady prev) eqn:Hp; [done|]. intros [= <- <-]. split_and!; eauto. }
  rewrite Z.gtb_ltb. destruct (Z.ltb_spec ver (getPendingVersion be prev)); [done|]. destruct (negb (_ =? ver)) eqn:Hgap.
  - destruct (Z.eqb_spec (access item) 0) as [Ha|]; cbn [negb]; [|done].
    assert (item_ready item) as Hrd.
    { apply (Hcond Ha prev eq_refl). rewrite (proj2 (Z.ltb_lt _ _)) by lia. done. }
    pose proof (releaseStreams_spec item sz rest Hok Hsz Hr H64 Hrd) as E.
    destruct (releaseStreams item sz) as [item0 sz0] eqn:Hrs. simpl in E. subst sz0. injection Hrs as <- Hrs2.
    intros [= <- <-].
    destruct (Hpush (mkItem (masterInstanceID item) [] (used item) (access item) (from item) []))
      as (? & E1 & ?); [by split; simpl|]. simpl in E1 |- *. unfold itemSize in E1 at 2. simpl in E1. rewrite E1. by split_and!.
  - intros [= <- <-]. destruct (Hpush item Hok) as (? & E1 & ?). rewrite E1. by split_and!.
Qed.

Lemma add_command_spec item sz rest command :
  item_ok item -> sz = itemSize item + rest -> 0 <= rest ->
  (exists vs st, versions item = vs ++ [st] /\ isReady st = false) -> 0 <= ic_size (stored be command) ->
  let '(item', sz') := add_command be item sz command in
  item_ok item' /\ (itemSize item' + rest < 2 ^ 64 -> sz' = itemSize item' + rest).
Proof.
  intros [Ht Hs] Hsz Hr (vs & st & Hv & Hst) Hc. unfold add_command. rewrite Hv in *. rewrite last_snoc, removelast_last.
  apply Forall_app in Hs as [Hs1 [Hs2 _]%Forall_cons]. pose proof (getDataSize_add st command) as Hg.
  set (st' := addDataCommand be st command) in *. set (item' := mkItem _ _ _ _ _ _).
  assert (item_ok item') as Hok'.
  { split; simpl; [rewrite Ht, !length_app; done|]. apply Forall_app. split; [done|]. constructor; [lia|done]. }
  split; [done|].
  assert (itemSize item = sum_list (readySize <$> vs)) as Hi.
  { unfold itemSize. rewrite Hv, fmap_app, sum_list_app. simpl. unfold readySize at 2. rewrite Hst. lia. }
  assert (itemSize item' = sum_list (readySize <$> vs) + readySize st') as Hi'.
  { unfold itemSize. simpl. rewrite fmap_app, sum_list_app. simpl. lia. }
  pose proof (itemSize_nonneg item' Hok') as Hn. intros H64. unfold readySize in Hi' at 2. destruct (isReady st'); [|lia].
  rewrite u64_small; [lia|]. unfold is_u64. change (2 ^ 64) with 18446744073709551616 in H64. lia.
Qed.

(** When [add] keeps the size exact: the sizes do not wrap, and no incomplete stream
    is thrown away, neither with the old streams of the object nor to make room. *)
Definition add_safe (c : InstanceCache) (rev : ObjectVersion) (inst node now : Z) (command : ICommand) (usage : Z) : Prop :=
  let filled := add_filled c rev inst node now command usage in
  0 <= ic_size (stored be command) /\ total (items filled) < 2 ^ 64 /\
  (forall item, items c !! identifier rev = Some item -> access item = 0 ->
     add_drops item inst node (version rev) = true -> item_ready item) /\
  nIncomplete filled <= nIncomplete (add be it c rev inst node now command usage).2.

Lemma add_filled_ok c rev inst node now command usage :
  cache_ok c -> add_safe c rev inst node now command usage -> cache_ok (add_filled c rev inst node now command usage).
Proof.
  intros Hok (Hsz & H64 & Hdrop & _). revert H64. unfold add_filled.
  destruct (add_item c (identifier rev) inst node usage) as [[item sz]|] eqn:Ei; [|done].
  destruct (add_item_spec c _ _ _ _ _ _ Hok (fun item0 Hl Ha E => Hdrop item0 Hl Ha ltac:(unfold add_drops; by rewrite E)) Ei)
    as (Hio & Esz & Hlt & Hc).
  assert (0 <= total (delete (identifier rev) (items c))) as Hrest.
  { apply total_nonneg. apply map_Forall_delete. apply Hok. }
  destruct (add_stream be item sz now (version rev)) as [[item1 sz1]|] eqn:Es; [|intros _; by apply cache_ok_set].
  destruct (add_stream_spec item sz _ now (version rev) item1 sz1 Hio Esz Hrest Hlt) as (Hio1 & Esz1 & Hvs); [|done|].
  { intros Ha prev Hl Hgap. destruct Hc as [Hc|(item0 & Hl0 & Hv & Ha0)]; [by rewrite Hc in Hl|].
    unfold item_ready. rewrite Hv. apply (Hdrop item0 Hl0); [congruence|].
    unfold add_drops. rewrite <-Hv, Hl, Hgap. by rewrite !orb_true_r. }
  pose proof (add_command_spec item1 sz1 _ command Hio1 Esz1 Hrest Hvs Hsz) as Hcmd.
  destruct (add_command be item1 sz1 command) as [item2 sz2]. destruct Hcmd as [Hio2 Esz2].
  simpl. unfold total. rewrite msum_insert. intros H64. apply cache_ok_set; [done|done|by apply Esz2|rewrite Esz2; done].
Qed.

Lemma add_ok c rev inst node now command usage :
  cache_ok c -> add_safe c rev inst node now command usage -> cache_ok (add be it c rev inst node now command usage).2.
Proof.
  intros Hok Hs. eapply discards_ok; [by apply add_filled_ok|apply add_discards_filled|apply Hs].
Qed.

End sizes.

(** ** Making room *)

Section room.

Context `{!Pression, !Lunchbox} (it : gmap Z Item -> list Z).
Context (target mu : Z).

(** The state between the rounds of [_releaseItems]: every releasable item is
    among the keys, the keys are releasable items, and [more] is set if one of
    them still has streams. *)
Record round_inv (c : InstanceCache) (keys : list Z) (more : bool) : Prop := {
  ri_all : forall id item, items c !! id = Some item -> releasable mu item = true -> id ∈ keys;
  ri_keys : forall id, id ∈ keys -> exists item, items c !! id = Some item /\ releasable mu item = true;
  ri_more : forall id item, id ∈ keys -> items c !! id = Some item -> versions item <> [] -> more = true;
}.

Lemma releaseFirst_fields item sz :
  let item' := (releaseFirstStream item sz).1 in
  versions item' = tail (versions item) /\ releasable mu item' = releasable mu item.
Proof. unfold releaseFirstStream. by destruct item as [? [|? ?] ? ? ? ?]. Qed.

(** What the first loop has established for the items it passed. *)
Record first_inv (seen : list Z) (c : InstanceCache) (keys : list Z) (more : bool) : Prop := {
  fi_all : forall id item, id ∈ seen -> items c !! id = Some item -> releasable mu item = true -> id ∈ keys;
  fi_keys : forall id, id ∈ keys -> exists item, items c !! id = Some item /\ releasable mu item = true;
  fi_more : forall id item, id ∈ keys -> items c !! id = Some item -> versions item <> [] -> more = true;
}.

Lemma releaseItems_first_inv ids seen c keys more :
  first_inv seen c keys more ->
  let '(c', keys', more') := releaseItems_first target mu ids c keys more in
  cacheSize c' <= target \/ first_inv (seen ++ ids) c' keys' more'.
Proof.
  revert seen c keys more. induction ids as [|id ids IH]; intros seen c keys more Hi;
    cbn [releaseItems_first].
  { right. by rewrite app_nil_r. }
  destruct (Z.gtb_spec (cacheSize c) target) as [Hgt|]; [|by left].
  replace (seen ++ id :: ids) with ((seen ++ [id]) ++ ids) by (by rewrite <-app_assoc).
  destruct (items c !! id) as [item|] eqn:Hl.
  2: { apply IH. destruct Hi. constructor; auto. intros id' item'. rewrite elem_of_app.
       intros [?|Hin%list_elem_of_singleton] ? ?; [eauto|subst; congruence]. }
  destruct (releasable mu item) eqn:Hr.
  2: { apply IH. destruct Hi. constructor; auto. intros id' item'. rewrite elem_of_app.
       intros [?|Hin%list_elem_of_singleton] ? ?; [eauto|subst; congruence]. }
  pose proof (releaseFirst_fields item (cacheSize c)) as [Hv Hr'].
  destruct (releaseFirstStream item (cacheSize c)) as [item' sz']. simpl in Hv, Hr'.
  apply IH. destruct Hi. constructor; simpl.
  - intros id' it' Hs. destruct (decide (id' = id)) as [->|Hne]; [set_solver|].
    rewrite lookup_insert_ne by done. rewrite elem_of_app in Hs. destruct Hs as [Hs|Hs]; [|set_solver].
    intros. apply elem_of_app. left. eauto.
  - intros id' Hk. destruct (decide (id' = id)) as [->|Hne].
    + exists item'. rewrite lookup_insert_eq. split; [done|congruence].
    + rewrite lookup_insert_ne by done. apply fi_keys0. set_solver.
  - intros id' it' Hk. destruct (decide (id' = id)) as [->|Hne].
    + rewrite lookup_insert_eq. intros [= <-] Hvne. by destruct (versions item').
    + rewrite lookup_insert_ne by done. intros Hl' Hvne.
      assert (more = true) as -> by (eapply fi_more0; eauto; set_solver). by destruct (is_nil _).
Qed.

Abbreviation streams c := (msum (fun item => Z.of_nat (length (versions item))) (items c)).

Lemma streams_set c id item item' sz :
  items c !! id = Some item -> versions item' = tail (versions item) -> versions item <> [] ->
  streams (set_size (set_item c id item') sz) = streams c - 1.
Proof.
  intros Hl Hv Hne. simpl. rewrite msum_insert, (msum_delete _ (items c) id item Hl), Hv.
  destruct (versions item); [done|]. simpl length. lia.
Qed.

Lemma streams_nonneg c : 0 <= streams c.
Proof. apply msum_nonneg. intros ? ? ?. lia. Qed.

(** A round either reaches the target or goes through all keys; [more] tells
    whether streams are left, and a round over a key with streams removes one. *)
Lemma releaseItems_round_inv keys0 todo done_ c more :
  keys0 = done_ ++ todo ->
  (forall id item, items c !! id = Some item -> releasable mu item = true -> id ∈ keys0) ->
  (forall id, id ∈ keys0 -> exists item, items c !! id = Some item /\ releasable mu item = true) ->
  (forall id item, id ∈ done_ -> items c !! id = Some item -> versions item <> [] -> more = true) ->
  let '(c', more') := releaseItems_round target mu todo c more in
  streams c' <= streams c /\
  (more' = true -> more = true \/ streams c' < streams c) /\
  (cacheSize c' <= target \/ round_inv c' keys0 more').
Proof.
  revert done_ c more. induction todo as [|id todo IH]; intros done_ c more Hk Hall Hkeys Hmore;
    cbn [releaseItems_round].
  { split_and!; [lia|by left|]. right. rewrite app_nil_r in Hk. subst done_. by constructor. }
  destruct (Z.gtb_spec (cacheSize c) target) as [Hgt|Hle]; [|split_and!; [lia|by left|by left]].
  destruct (Hkeys id) as (item & Hl & Hr); [rewrite Hk; set_solver|]. rewrite Hl, Hr, andb_true_r.
  assert (keys0 = (done_ ++ [id]) ++ todo) as Hk' by (by rewrite <-app_assoc).
  destruct (versions item) as [|st vs] eqn:Hv; cbn [is_nil negb].
  - specialize (IH (done_ ++ [id]) c more Hk' Hall Hkeys).
    apply IH.
    intros id' it' Hin Hl' Hvne. apply elem_of_app in Hin as [?|Hin%list_elem_of_singleton]; [eauto|].
    subst. congruence.
  - pose proof (releaseFirst_fields item (cacheSize c)) as [Hv' Hr'].
    destruct (releaseFirstStream item (cacheSize c)) as [item' sz']. simpl in Hv', Hr'.
    set (c1 := set_size (set_item c id item') sz').
    assert (streams c1 = streams c - 1) as Hs1 by (apply (streams_set c id item); auto; congruence).
    specialize (IH (done_ ++ [id]) c1 (if is_nil (versions item') then more else true) Hk').
    destruct (releaseItems_round _ _ _ _ _) as [c' m']. destruct IH as (Hs & _ & Hd).
    { intros id' it'. unfold c1. simpl. destruct (decide (id' = id)) as [->|Hne].
      - rewrite lookup_insert_eq. intros. rewrite Hk. set_solver.
      - rewrite lookup_insert_ne by done. eauto. }
    { intros id' Hin. unfold c1. simpl. destruct (decide (id' = id)) as [->|Hne].
      - exists item'. rewrite lookup_insert_eq. split; [done|congruence].
      - rewrite lookup_insert_ne by done. by apply Hkeys. }
    { intros id' it' Hin. unfold c1. simpl. destruct (decide (id' = id)) as [->|Hne].
      - rewrite lookup_insert_eq. intros [= <-] Hvne. by destruct (versions item').
      - rewrite lookup_insert_ne by done. intros Hl' Hvne.
        assert (more = true) as -> by (eapply Hmore; eauto; set_solver). by destruct (is_nil _). }
    split_and!; [lia|right; lia|done].
Qed.

(** The second loop ends at the target or with all keys empty. *)
Lemma releaseItems_rest_inv fuel keys c more :
  streams c < Z.of_nat fuel -> round_inv c keys more ->
  let c' := releaseItems_rest fuel target mu keys c more in
  cacheSize c' <= target \/ round_inv c' keys false.
Proof.
  revert c more. induction fuel as [|fuel IH]; intros c more Hf Hi; cbn [releaseItems_rest].
  { pose proof (streams_nonneg c). lia. }
  destruct more; cbn [andb]; [|by right].
  destruct (Z.gtb_spec (cacheSize c) target) as [Hgt|Hle]; [|by left].
  pose proof Hi as [Hall Hkeys Hm].
  pose proof (releaseItems_round_inv keys keys [] c false eq_refl Hall Hkeys) as Hr.
  destruct (releaseItems_round target mu keys c false) as [c1 m1].
  destruct Hr as (Hs & Hdec & Hd); [intros ? ? ?%elem_of_nil; done|].
  destruct Hd as [Hle|Hi1].
  { assert (releaseItems_rest fuel target mu keys c1 m1 = c1) as ->; [|by left].
    destruct fuel; cbn [releaseItems_rest];
      rewrite gtb_false, andb_false_r by lia; done. }
  destruct m1; [|destruct fuel; cbn [releaseItems_rest andb]; by right].
  destruct (Hdec eq_refl) as [|Hlt]; [done|]. apply IH; [lia|done].
Qed.

(** The items left are old items, used as before. *)
Definition derived (c c' : InstanceCache) : Prop :=
  forall id item', items c' !! id = Some item' ->
    exists item, items c !! id = Some item /\ used item' = used item.

#[local] Instance derived_refl : Reflexive derived.
Proof. intros c id item. eauto. Qed.
#[local] Instance derived_trans : Transitive derived.
Proof.
  intros c1 c2 c3 H12 H23 id item3 Hl3. destruct (H23 _ _ Hl3) as (item2 & Hl2 & ->). eauto.
Qed.

Lemma derived_set c id item sz :
  items c !! id = Some item -> derived c (set_size (set_item c id (releaseFirstStream item sz).1)
    (releaseFirstStream item sz).2).
Proof.
  intros Hl id' item' Hl'. simpl in Hl'. destruct (decide (id' = id)) as [->|Hne].
  - rewrite lookup_insert_eq in Hl'. injection Hl' as <-. exists item. split; [done|].
    unfold releaseFirstStream. by destruct (versions item).
  - rewrite lookup_insert_ne in Hl' by done. eauto.
Qed.

Lemma releaseItems_first_derived ids c keys more :
  let '(c', _, _) := releaseItems_first target mu ids c keys more in derived c c'.
Proof.
  revert c keys more. induction ids as [|id ids IH]; intros c keys more; cbn [releaseItems_first]; [done|].
  destruct (_ >? target); [|done].
  destruct (items c !! id) as [item|] eqn:Hl; [|by apply IH].
  destruct (releasable mu item); [|by apply IH].
  pose proof (derived_set c id item (cacheSize c) Hl) as Hd.
  destruct (releaseFirstStream item (cacheSize c)) as [item' sz']. simpl in Hd.
  specialize (IH (set_size (set_item c id item') sz') (keys ++ [id])
    (if is_nil (versions item') then more else true)).
  destruct (releaseItems_first _ _ _ _ _ _) as [[c' k'] m']. by etrans.
Qed.

Lemma releaseItems_round_derived keys c more :
  let '(c', _) := releaseItems_round target mu keys c more in derived c c'.
Proof.
  revert c more. induction keys as [|id keys IH]; intros c more; cbn [releaseItems_round]; [done|].
  destruct (_ >? target); [|done].
  destruct (items c !! id) as [item|] eqn:Hl; [|by apply IH].
  destruct (negb _ && _); [|by apply IH].
  pose proof (derived_set c id item (cacheSize c) Hl) as Hd.
  destruct (releaseFirstStream item (cacheSize c)) as [item' sz']. simpl in Hd.
  specialize (IH (set_size (set_item c id item') sz') (if is_nil (versions item') then more else true)).
  destruct (releaseItems_round _ _ _ _ _) as [c' m']. by etrans.
Qed.

Lemma releaseItems_rest_derived fuel keys c more :
  derived c (releaseItems_rest fuel target mu keys c more).
Proof.
  revert c more. induction fuel as [|fuel IH]; intros c more; cbn [releaseItems_rest];
    destruct (more && _); try done.
  pose proof (releaseItems_round_derived keys c false) as Hd.
  destruct (releaseItems_round _ _ _ _ _) as [c1 m1]. by etrans.
Qed.

(** Erasing empty items drops every key whose streams are gone. *)
Lemma eraseEmpty_spec keys c id item :
  items (eraseEmpty keys c) !! id = Some item ->
  items c !! id = Some item /\ (id ∈ keys -> versions item <> []).
Proof.
  revert c. induction keys as [|k keys IH]; intros c; cbn [eraseEmpty].
  { intros Hl. split; [done|]. by intros ?%elem_of_nil. }
  destruct (items c !! k) as [itk|] eqn:Hk.
  - destruct (versions itk) as [|st vs] eqn:Hv; cbn [is_nil]; intros [Hl Hn]%IH.
    + simpl in Hl. apply lookup_delete_Some in Hl as [Hne Hl]. split; [done|].
      rewrite elem_of_cons. intros [->|]; [done|auto].
    + split; [done|]. rewrite elem_of_cons. intros [->|]; [|auto]. rewrite Hk in Hl.
      injection Hl as <-. by rewrite Hv.
  - intros [Hl Hn]%IH. split; [done|]. rewrite elem_of_cons. intros [->|]; [|auto]. congruence.
Qed.

Lemma eraseEmpty_size keys c : cacheSize (eraseEmpty keys c) = cacheSize c.
Proof.
  revert c. induction keys as [|k keys IH]; intros c; cbn [eraseEmpty]; [done|].
  destruct (items c !! k) as [itk|]; [|done]. by destruct (is_nil _); rewrite IH.
Qed.

End room.

(** ** Properties *)

(** C36: Eviction makes room.  When the cache exceeds its maximum size,
    [_releaseItems( 0 )] terminates with the size at or below the low-water mark,
    unless every object left in the cache is pinned by a reader. *)
Theorem eviction_makes_room (it : gmap Z Item -> list Z) c :
  (forall m, it m ≡ₚ (map_to_list m).*1) -> maxSize c < cacheSize c ->
  map_Forall (fun _ item => 0 <= used item) (items c) ->
  let c' := releaseItems it 0 c in
  cacheSize c' <= lowWater (maxSize c) \/ map_Forall (fun _ item => access item <> 0) (items c').
Proof.
  intros Hit Hmax Hused. unfold releaseItems. rewrite (proj2 (Z.leb_gt _ _)) by lia.
  set (target := lowWater (maxSize c)).
  assert (first_inv 0 [] c [] false) as Hi0 by (constructor; intros ? *; by intros ?%elem_of_nil).
  pose proof (releaseItems_first_inv target 0 (it (items c)) [] c [] false Hi0) as Hf.
  pose proof (releaseItems_first_derived target 0 (it (items c)) c [] false) as Hd1.
  destruct (releaseItems_first _ _ _ _ _ _) as [[c1 keys] more].
  assert (cacheSize c1 <= target \/ round_inv 0 c1 keys more) as [Hle|Hri].
  { destruct Hf as [|[Ha Hk Hm]]; [by left|right]. constructor; auto. intros id item Hl Hr.
    apply (Ha id item); auto. simpl. rewrite Hit. apply list_elem_of_fmap.
    destruct (Hd1 id item Hl) as (item0 & Hl0 & _). exists (id, item0). split; [done|].
    by apply elem_of_map_to_list. }
  - left. rewrite eraseEmpty_size. cbn [releaseItems_rest].
    by rewrite gtb_false, andb_false_r by lia.
  - destruct (releaseItems_rest_inv target 0 (Datatypes.S (nStreams c1)) keys c1 more) as [Hle|Hri'];
      [|done| |].
    + unfold nStreams. pose proof (streams_nonneg c1). lia.
    + left. by rewrite eraseEmpty_size.
    + right. intros id item Hl Hz. apply eraseEmpty_spec in Hl as [Hl Hne].
      destruct (releaseItems_rest_derived _ _ _ _ _ _ _ _ Hl) as (item1 & Hl1 & Hu1).
      destruct (Hd1 id item1 Hl1) as (item0 & Hl0 & Hu0). pose proof (Hused id item0 Hl0) as Hu. simpl in Hu.
      assert (releasable 0 item = true) as Hr.
      { unfold releasable. rewrite Hz, Z.eqb_refl. simpl. apply Z.geb_le. lia. }
      pose proof (ri_all _ _ _ _ Hri' id item Hl Hr) as Hk.
      by discriminate (ri_more _ _ _ _ Hri' id item Hk Hl (Hne Hk)).
Qed.

(** *** Pinned items *)

Section pinned.

Context `{!Pression, !Lunchbox} (be : bool) (it : gmap Z Item -> list Z).

(** An object a reader has looked up and not yet released. *)
Definition pinned (c : InstanceCache) (id : Z) (item : Item) : Prop :=
  items c !! id = Some item /\ access item <> 0.

Lemma pinned_releasable mu item : access item <> 0 -> releasable mu item = false.
Proof. intros Ha. unfold releasable. by rewrite (proj2 (Z.eqb_neq _ _) Ha). Qed.

Lemma pinned_other c id item k it' sz :
  pinned c id item -> k <> id -> pinned (set_size (set_item c k it') sz) id item.
Proof. intros [Hl Ha] Hne. split; [|done]. simpl. by rewrite lookup_insert_ne. Qed.

Lemma pinned_drop c id item k sz :
  pinned c id item -> k <> id -> pinned (drop_item (set_size c sz) k) id item.
Proof. intros [Hl Ha] Hne. split; [|done]. simpl. by rewrite lookup_delete_ne. Qed.

Lemma releaseItems_first_pinned target mu ids c keys more id item :
  pinned c id item ->
  let '(c', _, _) := releaseItems_first target mu ids c keys more in pinned c' id item.
Proof.
  revert c keys more. induction ids as [|k ids IH]; intros c keys more Hp; cbn [releaseItems_first]; [done|].
  destruct (_ >? target); [|done]. destruct (items c !! k) as [itk|] eqn:Hk; [|by apply IH].
  destruct (releasable mu itk) eqn:Hr; [|by apply IH].
  assert (k <> id).
  { intros ->. destruct Hp as [Hl Ha]. rewrite Hl in Hk. injection Hk as ->.
    by rewrite pinned_releasable in Hr. }
  destruct (releaseFirstStream itk (cacheSize c)) as [it1 sz1]. apply IH. by apply pinned_other.
Qed.

Lemma releaseItems_round_pinned target mu keys c more id item :
  pinned c id item -> pinned (releaseItems_round target mu keys c more).1 id item.
Proof.
  revert c more. induction keys as [|k keys IH]; intros c more Hp; cbn [releaseItems_round]; [done|].
  destruct (_ >? target); [|done]. destruct (items c !! k) as [itk|] eqn:Hk; [|by apply IH].
  destruct (negb _ && releasable mu itk) eqn:Hr; [|by apply IH].
  assert (k <> id).
  { intros ->. destruct Hp as [Hl Ha]. rewrite Hl in Hk. injection Hk as ->.
    by rewrite pinned_releasable, andb_false_r in Hr. }
  destruct (releaseFirstStream itk (cacheSize c)) as [it1 sz1]. apply IH. by apply pinned_other.
Qed.

Lemma releaseItems_rest_pinned fuel target mu keys c more id item :
  pinned c id item -> pinned (releaseItems_rest fuel target mu keys c more) id item.
Proof.
  revert c more. induction fuel as [|fuel IH]; intros c more Hp; cbn [releaseItems_rest];
    destruct (more && _); try done.
  pose proof (releaseItems_round_pinned target mu keys c false id item Hp) as Hr.
  destruct (releaseItems_round _ _ _ _ _) as [c1 m1]. by apply IH.
Qed.

Lemma eraseEmpty_pinned keys c id item :
  pinned c id item -> versions item <> [] -> pinned (eraseEmpty keys c) id item.
Proof.
  revert c. induction keys as [|k keys IH]; intros c Hp Hv; cbn [eraseEmpty]; [done|].
  destruct (items c !! k) as [itk|] eqn:Hk; [|by apply IH].
  destruct (versions itk) eqn:Hvk; cbn [is_nil]; [|by apply IH].
  apply IH; [|done]. change (drop_item c k) with (drop_item (set_size c (cacheSize c)) k).
  apply pinned_drop; [done|]. intros ->. destruct Hp as [Hl _]. rewrite Hl in Hk. by simplify_eq.
Qed.

Lemma releaseItems_pinned mu c id item :
  pinned c id item -> versions item <> [] -> pinned (releaseItems it mu c) id item.
Proof.
  intros Hp Hv. unfold releaseItems. destruct (_ <=? _); [done|].
  pose proof (releaseItems_first_pinned (lowWater (maxSize c)) mu (it (items c)) c [] false id item Hp) as Hf.
  destruct (releaseItems_first _ _ _ _ _ _) as [[c1 keys] more].
  apply eraseEmpty_pinned; [|done]. by apply releaseItems_rest_pinned.
Qed.

Lemma remove_loop_pinned node ids c id item :
  pinned c id item -> pinned (remove_loop node ids c) id item.
Proof.
  revert c. induction ids as [|k ids IH]; intros c Hp; cbn [remove_loop]; [done|].
  destruct (items c !! k) as [itk|] eqn:Hk; [|by apply IH].
  destruct ((_ =? node) && (access itk =? 0)) eqn:Hr; [|by apply IH].
  apply IH. apply pinned_drop; [done|]. intros ->. destruct Hp as [Hl Ha]. rewrite Hl in Hk.
  injection Hk as ->. by rewrite (proj2 (Z.eqb_neq _ _) Ha), andb_false_r in Hr.
Qed.

Lemma expire_loop_pinned time ids c id item :
  pinned c id item -> pinned (expire_loop time ids c) id item.
Proof.
  revert c. induction ids as [|k ids IH]; intros c Hp; cbn [expire_loop]; [done|].
  destruct (items c !! k) as [itk|] eqn:Hk; [|by apply IH].
  destruct (negb (access itk =? 0)) eqn:Hr; [by apply IH|].
  assert (k <> id).
  { intros ->. destruct Hp as [Hl Ha]. rewrite Hl in Hk. injection Hk as ->.
    by rewrite (proj2 (Z.eqb_neq _ _) Ha) in Hr. }
  destruct (releaseOldStreams time itk (cacheSize c)) as [it1 sz1]. apply IH.
  destruct (is_nil _); [by apply pinned_drop|].
  change (set_item (set_size c sz1) k it1) with (set_size (set_item c k it1) sz1). by apply pinned_other.
Qed.

(** [add] for a pinned object: it may be marked as used, a stream may be
    appended, or the command may extend an incomplete last stream. *)
Definition extends (item item' : Item) : Prop :=
  access item' = access item /\ masterInstanceID item' = masterInstanceID item /\
  exists vs, versions item' = versions item \/ versions item' = versions item ++ vs \/
    exists st, last (versions item) = Some st /\ isReady st = false /\
      versions item' = removelast (versions item) ++ vs /\ length vs = 1%nat.

Lemma add_pinned c rev inst node now command usage id item :
  pinned c id item -> versions item <> [] ->
  exists item', pinned (add be it c rev inst node now command usage).2 id item' /\ extends item item'.
Proof.
  intros Hp Hv. pose proof Hp as [Hl Ha].
  assert (extends item item) as Hsame by (split_and!; [done|done|exists []; auto]).
  unfold add. destruct (add_item c (identifier rev) inst node usage) as [[item1 sz1]|] eqn:Ei;
    [|by exists item].
  destruct (decide (identifier rev = id)) as [Hid|Hid].
  2: { destruct (add_stream _ _ _ _ _) as [[item2 sz2]|]; [|exists item; split; [|done]; by apply pinned_other].
       destruct (add_command be item2 sz2 command) as [item3 sz3]. exists item. split; [|done].
       repeat apply releaseItems_pinned; auto. by apply pinned_other. }
  assert (access item1 = access item /\ masterInstanceID item1 = masterInstanceID item /\
    versions item1 = versions item) as (E1 & E2 & E3).
  { unfold add_item in Ei. rewrite Hid, Hl in Ei. rewrite (proj2 (Z.eqb_neq _ _) Ha) in Ei. simpl in Ei.
    destruct (negb _ || negb _); simplify_eq. done. }
  assert (forall it' sz, access it' = access item -> versions it' <> [] ->
    pinned (releaseItems it 0 (releaseItems it 1 (set_size (set_item c id it') sz))) id it') as Hrel.
  { intros it' sz Ha' Hv'. repeat apply releaseItems_pinned; auto. split; [|congruence].
    simpl. by rewrite lookup_insert_eq. }
  destruct (add_stream be item1 sz1 now (version rev)) as [[item2 sz2]|] eqn:Es.
  2: { exists item1. rewrite Hid. split; [split; [simpl; by rewrite lookup_insert_eq|congruence]|].
       split_and!; auto. exists []. by left. }
  unfold add_stream in Es. rewrite E3 in Es.
  destruct (last (versions item)) as [st|] eqn:Hla; [|apply last_None in Hla; congruence].
  pose proof Hla as Hla'. apply last_Some in Hla' as [vs0 Hvs0]. rewrite Hid.
  rewrite E1, (proj2 (Z.eqb_neq _ _) Ha) in Es. simpl in Es.
  destruct (getPendingVersion be st =? version rev).
  - destruct (isReady st) eqn:Hst; simplify_eq. unfold add_command. rewrite E3, Hla. cbn [snd].
    eexists. split; [apply Hrel; [done|by destruct (removelast _)]|].
    split_and!; auto. eexists. right. right. exists st. by split_and!.
  - destruct (_ >? _); [done|]. destruct (negb _); [done|]. simplify_eq.
    unfold add_command. simpl. rewrite last_snoc, removelast_last. cbn [snd].
    eexists. split; [apply Hrel; [done|by destruct (versions item)]|].
    split_and!; auto. eexists. right. left. done.
Qed.

End pinned.

(** *** The cache as a state machine *)

Inductive cache_op :=
  | OpAdd (rev : ObjectVersion) (inst node now : Z) (command : ICommand) (usage : Z)
  | OpRemove (node : Z)
  | OpGet (id : Z)
  | OpRelease (id count : Z)
  | OpErase (id : Z)
  | OpExpire (now timeout : Z).

Section machine.

Context `{!Pression, !Lunchbox} (be : bool) (it : gmap Z Item -> list Z).

Definition cache_step (c : InstanceCache) (op : cache_op) : InstanceCache :=
  match op with
  | OpAdd rev inst node now command usage => (add be it c rev inst node now command usage).2
  | OpRemove node => remove it c node
  | OpGet id => (cache_get c id).2
  | OpRelease id count => (release it c id count).2
  | OpErase id => (erase c id).2
  | OpExpire now timeout => expire it c now timeout
  end.

(** Nothing incomplete is thrown away: as many streams are incomplete after the
    operation as before. *)
Definition cache_safe (c : InstanceCache) (op : cache_op) : Prop :=
  match op with
  | OpAdd rev inst node now command usage => add_safe be it c rev inst node now command usage
  | _ => nIncomplete c <= nIncomplete (cache_step c op)
  end.

Inductive cache_reachable (max : Z) : InstanceCache -> Prop :=
  | cr_init : cache_reachable max (InstanceCache_init max)
  | cr_step c op : cache_reachable max c -> cache_safe c op -> cache_reachable max (cache_step c op).

Lemma cache_ok_item c id item item' :
  cache_ok c -> items c !! id = Some item ->
  versions item' = versions item -> times item' = times item -> cache_ok (set_item c id item').
Proof.
  intros Hok Hl Hv Ht. destruct (rest_bounds c id item Hok Hl) as (Hsz & Hrest & [Hio1 Hio2] & Hin).
  change (set_item c id item') with (set_size (set_item c id item') (cacheSize c)).
  apply cache_ok_set; [done| | |apply (co_u64 c Hok)].
  - split; rewrite Hv, ?Ht; done.
  - rewrite Hsz. f_equal. unfold itemSize. by rewrite Hv.
Qed.

Lemma cache_step_ok c op : cache_ok c -> cache_safe c op -> cache_ok (cache_step c op).
Proof.
  intros Hok Hs. destruct op; simpl in *.
  - by apply add_ok.
  - eapply discards_ok; [done|apply remove_discards|done].
  - unfold cache_get. destruct (items c !! id) as [item|] eqn:Hl; [|done]. simpl. by eapply cache_ok_item.
  - revert Hs. unfold release. destruct (items c !! id) as [item|] eqn:Hl; [|done]. cbn [snd]. set (c1 := set_item c id _).
    assert (nIncomplete c1 = nIncomplete c) as Hn.
    { unfold nIncomplete, csum, c1. simpl. rewrite msum_insert. simpl. symmetry.
      apply (msum_delete (fun item => vsum incomplete (versions item)) _ _ _ Hl). }
    rewrite <-Hn. intros Hs. apply (discards_ok c1); [by apply (cache_ok_item c id item)|apply releaseItems_discards|done].
  - eapply discards_ok; [done|apply erase_discards|done].
  - revert Hs. unfold expire. destruct (_ <=? 0); [done|]. intros Hs. eapply discards_ok; [done|apply expire_discards|done].
Qed.

End machine.

(** C34: The cache accounts for its bytes exactly.  In every state reached from
    the empty cache by additions, look-ups, releases, erasures, removals of a
    node and expirations, [getSize()] is the number of bytes of the complete
    streams held, and never wraps around, as long as these bytes fit 64 bits and no
    operation deletes an incomplete stream, which is what [_deleteStream] asserts:
    a deletion may not reduce the number of incomplete streams, and when [add] drops
    the streams of another master or of versions before a gap they are complete. *)
Theorem cache_size_exact `{!Pression, !Lunchbox} be it max c :
  cache_reachable be it max c -> cacheSize c = total (items c) /\ 0 <= cacheSize c < 2 ^ 64.
Proof.
  intros Hr. assert (cache_ok c) as [Hs H64 Hi].
  { induction Hr as [|c op _ Hok Hsafe]; [|by apply cache_step_ok].
    constructor; simpl; [done|lia|apply map_Forall_empty]. }
  split; [done|]. pose proof (total_nonneg (items c) Hi). lia.
Qed.

(** What happens to a pinned object in one step. *)
Lemma cache_step_pinned `{!Pression, !Lunchbox} be it c op id item :
  pinned c id item -> versions item <> [] -> access item < 2 ^ 32 - 1 ->
  0 < access item -> (forall count, op <> OpRelease id count) ->
  exists item', items (cache_step be it c op) !! id = Some item' /\ access item' <> 0 /\
    extends (mkItem (masterInstanceID item) (versions item) (used item) (access item') (from item)
               (times item)) item'.
Proof.
  intros Hp Hv H32 Hpos Hop.
  assert (forall c', pinned c' id item -> exists item', items c' !! id = Some item' /\ access item' <> 0 /\
    extends (mkItem (masterInstanceID item) (versions item) (used item) (access item') (from item)
               (times item)) item') as Hkeep.
  { intros c' [Hl Ha]. exists item. split_and!; auto. split_and!; auto. exists []. by left. }
  destruct op as [rev inst node now command usage|node|k|k count|k|now timeout]; cbn [cache_step].
  - destruct (add_pinned be it c rev inst node now command usage id item Hp Hv) as (item' & [Hl Ha] & He).
    exists item'. split_and!; auto. destruct He as (E1 & E2 & E3). split_and!; auto.
  - apply Hkeep. by apply remove_loop_pinned.
  - destruct (decide (k = id)) as [->|Hne].
    + destruct Hp as [Hl Ha]. unfold cache_get. rewrite Hl. simpl. eexists. rewrite lookup_insert_eq.
      split; [done|]. simpl. change (2 ^ 32) with 4294967296 in H32.
      rewrite u32_small by (unfold is_u32; lia). split; [lia|]. split_and!; auto. exists []. by left.
    + apply Hkeep. unfold cache_get. destruct (items c !! k) as [itk|] eqn:Hk; [|done].
      by apply (pinned_other c id item k _ (cacheSize c)).
  - apply Hkeep. assert (k <> id) by (intros ->; by apply (Hop count)).
    unfold release. destruct (items c !! k) as [itk|]; [|done].
    apply releaseItems_pinned; [|done]. by apply (pinned_other c id item k _ (cacheSize c)).
  - apply Hkeep. unfold erase. destruct (items c !! k) as [itk|] eqn:Hk; [|done].
    destruct (negb (access itk =? 0)) eqn:Hz; [done|]. apply pinned_drop; [done|].
    intros ->. destruct Hp as [Hl Ha]. rewrite Hl in Hk. injection Hk as ->.
    by rewrite (proj2 (Z.eqb_neq _ _) Ha) in Hz.
  - apply Hkeep. unfold expire. destruct (_ <=? 0); [done|]. by apply expire_loop_pinned.
Qed.

(** Pinned objects stay.  Data a reader has looked up and not released is
    never evicted, erased, expired or removed, whatever happens to the cache in
    between; a concurrent [add] can only append to it or extend a stream that is
    still incomplete. *)
Theorem pinned_objects_stay `{!Pression, !Lunchbox} be it c op id item :
  pinned c id item -> versions item <> [] -> access item < 2 ^ 32 - 1 ->
  0 < access item -> (forall count, op <> OpRelease id count) ->
  exists item', items (cache_step be it c op) !! id = Some item' /\ access item' <> 0 /\
    extends (mkItem (masterInstanceID item) (versions item) (used item) (access item') (from item)
               (times item)) item'.
Proof. apply cache_step_pinned. Qed.

(** Throwing away an incomplete stream corrupts the size.  [_deleteStream]
    subtracts the bytes of the stream although only complete streams were added
    to [_size]: erasing an object whose only stream is incomplete and larger
    than the rest of the cache makes [_size] wrap to nearly [2 ^ 64]. *)
Theorem incomplete_erase_wraps c id item st :
  items c !! id = Some item -> versions item = [st] -> isReady st = false -> access item = 0 ->
  cache_ok c -> cacheSize c < getDataSize st < 2 ^ 63 ->
  2 ^ 63 <= cacheSize (erase c id).2.
Proof.
  intros Hl Hv Hr Ha Hok Hsz. unfold erase. rewrite Hl, Ha. simpl. unfold releaseStreams. rewrite Hv. simpl.
  destruct (rest_bounds c id item Hok Hl) as (Hs & Hrest & _ & Hin).
  change (2 ^ 63) with 9223372036854775808 in *. unfold deleteStream. solve_wrap.
Qed.

(** *** Witnesses *)

(** A stream of one command of [n] bytes, complete if [v] is a version. *)
Definition sample_stream (n v : Z) : ObjectDataIStream :=
  mkObjectDataIStream [mkICommand (DataIStream_init false (mkCommandBuffer None false)) n 1 1] None v.
Definition sample_cache (acc : Z) : InstanceCache :=
  mkInstanceCache {[ 5 := mkItem 1 [sample_stream 8 1; sample_stream 8 2] 1 acc 7 [3; 4] ]} 10 16.
Definition sample_order (m : gmap Z Item) : list Z := (map_to_list m).*1.

Lemma eviction_makes_room_witness :
  let c' := releaseItems sample_order 0 (sample_cache 0) in
  cacheSize c' <= lowWater 10 \/ map_Forall (fun _ item => access item <> 0) (items c').
Proof.
  apply (eviction_makes_room sample_order (sample_cache 0)).
  - done.
  - by vm_compute.
  - apply map_Forall_singleton. simpl. lia.
Defined.

Lemma pinned_objects_stay_witness :
  exists item', items (@cache_step store_Pression native_Lunchbox false sample_order (sample_cache 2)
    (OpErase 5)) !! 5 = Some item' /\ access item' <> 0.
Proof.
  destruct (@pinned_objects_stay store_Pression native_Lunchbox false sample_order (sample_cache 2)
    (OpErase 5) 5 (mkItem 1 [sample_stream 8 1; sample_stream 8 2] 1 2 7 [3; 4])) as (item' & ? & ? & _);
    [done|done|simpl; lia|simpl; lia|done|eauto].
Defined.

Lemma incomplete_erase_wraps_witness :
  2 ^ 63 <= cacheSize (erase (mkInstanceCache
    {[ 5 := mkItem 1 [sample_stream 8 VERSION_INVALID] 1 0 7 [3] ]} 10 0) 5).2.
Proof.
  apply (incomplete_erase_wraps _ 5 (mkItem 1 [sample_stream 8 VERSION_INVALID] 1 0 7 [3])
    (sample_stream 8 VERSION_INVALID)); try done.
  constructor; [done|done|]. apply map_Forall_singleton. split; [done|]. by repeat constructor.
Defined.

Lemma cache_size_exact_witness :
  let wire := @dc_wire store_Pression native_Lunchbox false 0 300 (fun n => replicate n 0) [1]
    (mkDataCommand CMD_OBJECT_SLAVE_DELTA COMMANDTYPE_OBJECT 33 1 2 0
       (mkSendCall [9] 1 true 0 1 []) [enc false 16 4]) in
  let cmd := @receive store_Pression native_Lunchbox false false wire in
  let c := @cache_step store_Pression native_Lunchbox false sample_order (InstanceCache_init 1000)
    (OpAdd (mkObjectVersion 33 2) 1 7 10 cmd 0) in
  cacheSize c = 90 /\ cacheSize c = total (items c).
Proof.
  intros wire cmd c. split; [by vm_compute|].
  apply (@cache_size_exact store_Pression native_Lunchbox false sample_order 1000 c).
  apply cr_step; [constructor|]. split_and!.
  - by vm_compute.
  - by vm_compute.
  - intros item. simpl. by rewrite lookup_empty.
  - by vm_compute.
Defined.
