(* ===== verification/Connections.v ===== *)
(** * Choosing connections for a set of nodes (co/connections.h)

    [gatherConnections] picks the connections on which a command reaches a set of
    nodes: one multicast connection for all nodes that share it, a unicast
    connection for a node that is alone on its multicast group. *)

From S2P Require Import Prelude.

(** What a node promises about its connections; [0] is the null pointer. *)
Class Network := {
  getConnection : Z -> bool -> Z;
  isMulticast : Z -> bool;
  getDescription : Z -> Z;
  getNodeID : Z -> Z;
}.

Section gather.

Context `{!Network}.

(** The order in which the hash map of single multicast nodes is iterated. *)
Context (it : gmap Z Z -> list (Z * Z)).

Record Gather := mkGather {
  g_result : list Z;
  g_mcNodes : gmap Z Z;
  g_mcSet : gset Z
}.

Definition gather_node (g : Gather) (node : Z) : Gather :=
  let connection := getConnection node true in
  if connection =? 0 then g
  else if isMulticast connection then
    let desc := getDescription connection in
    if decide (desc ∈ g_mcSet g) then g
    else match g_mcNodes g !! desc with
         | None => mkGather (g_result g) (<[desc := node]> (g_mcNodes g)) (g_mcSet g)
         | Some _ => mkGather (g_result g ++ [connection]) (delete desc (g_mcNodes g))
                       ({[desc]} ∪ g_mcSet g)
         end
  else mkGather (g_result g ++ [connection]) (g_mcNodes g) (g_mcSet g).

Definition gather_single (result : list Z) (e : Z * Z) : list Z :=
  let connection := getConnection e.2 false in
  if connection =? 0 then result else result ++ [connection].

Definition gatherConnections (nodes : list Z) : list Z :=
  let g := fold_left gather_node nodes (mkGather [] ∅ ∅) in
  fold_left gather_single (it (g_mcNodes g)) (g_result g).

(** ** Lemmas *)

(** A node gets the data: on its own unicast connection, or on a multicast
    connection of its group. *)
Definition reached (result : list Z) (node : Z) : Prop :=
  let c := getConnection node true in
  if isMulticast c
  then (exists c', c' ∈ result /\ isMulticast c' = true /\ getDescription c' = getDescription c) \/
       getConnection node false ∈ result
  else c ∈ result.

(** The multicast groups served by a list of connections. *)
Definition groups (result : list Z) : list Z :=
  getDescription <$> filter (fun c => isMulticast c = true) result.

Record gather_inv (nodes : list Z) (g : Gather) : Prop := {
  gi_reach : forall n, n ∈ nodes -> getConnection n true <> 0 ->
    if isMulticast (getConnection n true)
    then getDescription (getConnection n true) ∈ g_mcSet g \/
         g_mcNodes g !! getDescription (getConnection n true) = Some n
    else getConnection n true ∈ g_result g;
  gi_set : forall d, d ∈ g_mcSet g -> d ∈ groups (g_result g) /\ g_mcNodes g !! d = None;
  gi_once : NoDup (groups (g_result g));
  gi_known : forall d, d ∈ groups (g_result g) -> d ∈ g_mcSet g;
  gi_nodes : forall d n, g_mcNodes g !! d = Some n -> n ∈ nodes;
}.

Lemma groups_app l1 l2 : groups (l1 ++ l2) = groups l1 ++ groups l2.
Proof. unfold groups. by rewrite filter_app, fmap_app. Qed.

Lemma groups_mc c : isMulticast c = true -> groups [c] = [getDescription c].
Proof. intros Hc. unfold groups. by rewrite filter_cons_True. Qed.

Lemma groups_uni c : isMulticast c = false -> groups [c] = [].
Proof. intros Hc. unfold groups. by rewrite filter_cons_False by congruence. Qed.

Lemma elem_of_groups d l :
  d ∈ groups l <-> exists c, c ∈ l /\ isMulticast c = true /\ getDescription c = d.
Proof.
  unfold groups. rewrite list_elem_of_fmap. split.
  - intros (c & -> & [Hm Hc]%list_elem_of_filter). eauto.
  - intros (c & Hc & Hm & <-). exists c. split; [done|]. by apply list_elem_of_filter.
Qed.

Lemma gather_node_inv nodes g n : gather_inv nodes g -> gather_inv (nodes ++ [n]) (gather_node g n).
Proof.
  intros [Hr Hs Ho Hk Hnd].
  assert (forall d m, g_mcNodes g !! d = Some m -> m ∈ nodes ++ [n]) as Hnd' by set_solver.
  unfold gather_node. set (c := getConnection n true).
  destruct (Z.eqb_spec c 0) as [Hc|Hc].
  { split; [|done..]. intros m [Hm| ->%list_elem_of_singleton]%elem_of_app Hne; [by apply Hr|done]. }
  destruct (isMulticast c) eqn:Hmc.
  2: { split; cbn [g_result g_mcNodes g_mcSet].
       - intros m [Hm| ->%list_elem_of_singleton]%elem_of_app Hne; [|fold c; rewrite Hmc; set_solver].
         specialize (Hr m Hm Hne). destruct (isMulticast _); [done|set_solver].
       - intros d Hd. rewrite groups_app, groups_uni, app_nil_r by done. by apply Hs.
       - by rewrite groups_app, groups_uni, app_nil_r.
       - intros d. rewrite groups_app, groups_uni, app_nil_r by done. apply Hk.
       - done. }
  set (desc := getDescription c). case_decide as Hd.
  { split; [|done..]. intros m [Hm| ->%list_elem_of_singleton]%elem_of_app Hne; [by apply Hr|].
    fold c. rewrite Hmc. by left. }
  destruct (g_mcNodes g !! desc) as [n0|] eqn:Hn; split; cbn [g_result g_mcNodes g_mcSet].
  - intros m [Hm| ->%list_elem_of_singleton]%elem_of_app Hne; [|fold c; rewrite Hmc; set_solver].
    specialize (Hr m Hm Hne). destruct (isMulticast _); [|set_solver].
    destruct Hr as [Hr|Hr]; [set_solver|].
    destruct (decide (getDescription (getConnection m true) = desc)) as [->|Hdm]; [set_solver|].
    right. by rewrite lookup_delete_ne.
  - intros d. rewrite groups_app, groups_mc by done. fold desc. intros [->%elem_of_singleton|Hin]%elem_of_union.
    + rewrite lookup_delete_eq. set_solver.
    + destruct (Hs d Hin) as [? ?]. split; [set_solver|].
      destruct (decide (d = desc)) as [->|]; [apply lookup_delete_eq|by rewrite lookup_delete_ne].
  - rewrite groups_app, groups_mc by done. apply NoDup_app. split_and!; [done| |apply NoDup_singleton].
    intros d Hin%Hk ->%list_elem_of_singleton. done.
  - intros d. rewrite groups_app, groups_mc by done. set_solver.
  - intros d m Hm. apply lookup_delete_Some in Hm as [_ Hm]. by eapply Hnd'.
  - intros m [Hm| ->%list_elem_of_singleton]%elem_of_app Hne.
    + specialize (Hr m Hm Hne). destruct (isMulticast _); [|done].
      destruct Hr as [Hr|Hr]; [by left|]. right.
      destruct (decide (getDescription (getConnection m true) = desc)) as [E|Hdm]; [congruence|].
      by rewrite lookup_insert_ne.
    + fold c. rewrite Hmc. right. apply lookup_insert_eq.
  - intros d Hin. destruct (Hs d Hin) as [? ?]. split; [done|]. rewrite lookup_insert_ne; [done|].
    intros ->. done.
  - done.
  - done.
  - intros d m [[_ <-]|[_ Hm]]%lookup_insert_Some; [set_solver|by eapply Hnd'].
Qed.

Lemma gather_nodes_inv nodes : gather_inv nodes (fold_left gather_node nodes (mkGather [] ∅ ∅)).
Proof.
  induction nodes as [|n nodes IH] using rev_ind.
  { split; cbn [fold_left g_result g_mcNodes g_mcSet].
    - by intros n ?%not_elem_of_nil.
    - by intros d ?%elem_of_empty.
    - constructor.
    - by intros d ?%not_elem_of_nil.
    - intros d n. by rewrite lookup_empty. }
  rewrite fold_left_app. by apply gather_node_inv.
Qed.

Lemma gather_singles l result :
  fold_left gather_single l result =
    result ++ filter (fun c => c <> 0) ((fun e => getConnection e.2 false) <$> l).
Proof.
  revert result. induction l as [|e l IH]; intros result; cbn [fold_left]; [by rewrite app_nil_r|].
  rewrite IH, fmap_cons. unfold gather_single. destruct (Z.eqb_spec (getConnection e.2 false) 0).
  - by rewrite filter_cons_False by (intros ?; contradiction).
  - rewrite filter_cons_True by done. by rewrite <-app_assoc.
Qed.

End gather.

(** ** Property *)

(** Every node is served and multicast groups once.  For nodes with a
    unicast connection, the connections gathered reach every node that has a
    connection at all, and no multicast group is served twice.  The hypotheses
    are that asking a node for a unicast connection gives one, and that the hash
    map iterates over its entries. *)
Theorem gather_reaches_all `{!Network} it nodes :
  (forall m, it m ≡ₚ map_to_list m) ->
  (forall n, n ∈ nodes -> getConnection n false <> 0 /\ isMulticast (getConnection n false) = false) ->
  let result := gatherConnections it nodes in
  (forall n, n ∈ nodes -> getConnection n true <> 0 -> reached result n) /\
  NoDup (groups result).
Proof.
  intros Hit Huni result. unfold result, gatherConnections.
  destruct (gather_nodes_inv nodes) as [Hr Hs Ho Hk Hnd].
  set (g := fold_left gather_node nodes (mkGather [] ∅ ∅)) in *. rewrite gather_singles.
  set (singles := filter _ _).
  assert (forall n, n ∈ (it (g_mcNodes g)).*2 -> n ∈ nodes) as Hit'.
  { intros n. rewrite Hit, list_elem_of_fmap. intros ([d m] & -> & Hm%elem_of_map_to_list). by eapply Hnd. }
  assert (groups singles = []) as Hg.
  { unfold singles. clear -Hit' Huni. induction (it (g_mcNodes g)) as [|e l IH]; [done|].
    rewrite !fmap_cons in *. destruct (Huni e.2) as [Hne Hmc]; [set_solver|].
    rewrite filter_cons_True by done. unfold groups. rewrite filter_cons_False by congruence.
    apply IH. set_solver. }
  split; [|by rewrite groups_app, Hg, app_nil_r].
  intros n Hn Hc. specialize (Hr n Hn Hc). unfold reached. destruct (isMulticast _); [|set_solver].
  destruct Hr as [Hd|Hd].
  - left. destruct (Hs _ Hd) as [(c & ? & ? & ?)%elem_of_groups _]. exists c. set_solver.
  - right. apply elem_of_app. right. apply list_elem_of_filter. split; [by apply Huni|].
    apply list_elem_of_fmap. exists (getDescription (getConnection n true), n). split; [done|].
    rewrite Hit. by apply elem_of_map_to_list.
Qed.

(** Nodes 1 and 2 share the multicast connection 100, node 3 is alone on 101. *)
Definition sample_Network : Network := {|
  getConnection n mc := if mc then (if n =? 3 then 101 else 100) else n;
  isMulticast c := 100 <=? c;
  getDescription c := c;
  getNodeID n := n;
|}.

Lemma gather_reaches_all_witness :
  @reached sample_Network (@gatherConnections sample_Network map_to_list [1; 2; 3]) 3 /\
  NoDup (@groups sample_Network (@gatherConnections sample_Network map_to_list [1; 2; 3])).
Proof.
  destruct (@gather_reaches_all sample_Network map_to_list [1; 2; 3]) as [Hr Hg].
  - done.
  - intros m Hm. simpl. repeat (apply elem_of_cons in Hm as [->|Hm]; [done|]). by apply not_elem_of_nil in Hm.
  - split; [|exact Hg]. apply Hr; [set_solver|done].
Defined.
