(* ===== verification/CachePins.v ===== *)
(** * Pins of the instance cache

    A look-up of the instance cache pins an object until it is released.  How the
    operations of the cache change the number of pins of an object: only its own
    look-ups and releases do. *)

From S2P Require Import Prelude Bytes Lunchbox DataOStream DataIStream Serialize Transfer Commands ObjectStreams InstanceCache.

(** The number of pins of an object. *)
Definition pins (c : InstanceCache) (id : Z) : Z := match items c !! id with Some item => access item | None => 0 end.

(** Every cached object has streams. *)
Definition filled (c : InstanceCache) : Prop := map_Forall (fun _ item => versions item <> []) (items c).

(** What is left after streams of some objects were dropped; only objects among
    [keys] may have lost all. *)
Definition shrunk (keys : list Z) (c c' : InstanceCache) : Prop :=
  forall id item', items c' !! id = Some item' ->
    exists item, items c !! id = Some item /\ access item' = access item /\
      (id ∈ keys \/ versions item = [] \/ versions item' <> []).

Lemma shrunk_refl keys c : shrunk keys c c.
Proof. intros id item Hl. exists item. split_and!; try done. destruct (versions item); [right; by left|right; by right]. Qed.

Lemma shrunk_trans keys c1 c2 c3 : shrunk keys c1 c2 -> shrunk keys c2 c3 -> shrunk keys c1 c3.
Proof.
  intros H12 H23 id item3 Hl3. destruct (H23 _ _ Hl3) as (item2 & Hl2 & Ha & Hv).
  destruct (H12 _ _ Hl2) as (item1 & Hl1 & Ha1 & Hv1). exists item1. split_and!; try done; [congruence|]. tauto.
Qed.

Lemma shrunk_mono keys keys' c c' : (forall id, id ∈ keys -> id ∈ keys') -> shrunk keys c c' -> shrunk keys' c c'.
Proof. intros Hk Hs id item' Hl. destruct (Hs _ _ Hl) as (item & ? & ? & ?). exists item. naive_solver. Qed.

Lemma shrunk_first keys c id item sz :
  items c !! id = Some item -> id ∈ keys ->
  shrunk keys c (set_size (set_item c id (releaseFirstStream item sz).1) (releaseFirstStream item sz).2).
Proof.
  intros Hl Hk id' item' Hl'. cbn in Hl'. destruct (decide (id' = id)) as [->|Hne].
  - rewrite lookup_insert_eq in Hl'. injection Hl' as <-. exists item. split_and!; [done| |by left].
    unfold releaseFirstStream. by destruct (versions item).
  - rewrite lookup_insert_ne in Hl' by done. by apply (shrunk_refl keys c).
Qed.

Section release.

Context (target mu : Z).

Lemma releaseItems_first_shrunk ids c keys more c' keys' more' :
  releaseItems_first target mu ids c keys more = (c', keys', more') ->
  shrunk keys' c c' /\ forall id, id ∈ keys -> id ∈ keys'.
Proof.
  revert c keys more. induction ids as [|id ids IH]; intros c keys more; cbn [releaseItems_first].
  { intros [= <- <- <-]. split; [apply shrunk_refl|done]. }
  destruct (_ >? target); [|intros [= <- <- <-]; split; [apply shrunk_refl|done]].
  destruct (items c !! id) as [item|] eqn:Hl; [|by apply IH].
  destruct (releasable mu item); [|by apply IH].
  destruct (releaseFirstStream item (cacheSize c)) as [item1 sz1] eqn:E. intros H. apply IH in H as [Hs Hk].
  split; [|intros id' Hid; apply Hk, elem_of_app; by left].
  eapply shrunk_trans; [|exact Hs].
  pose proof (shrunk_first keys' c id item (cacheSize c) Hl) as Hf. rewrite E in Hf. apply Hf.
  apply Hk, elem_of_app. right. by apply list_elem_of_singleton.
Qed.

Lemma releaseItems_round_shrunk keys l c more c' more' :
  (forall id, id ∈ l -> id ∈ keys) -> releaseItems_round target mu l c more = (c', more') -> shrunk keys c c'.
Proof.
  intros Hin. revert c more. induction l as [|id l IH]; intros c more; cbn [releaseItems_round].
  { intros [= <- <-]. apply shrunk_refl. }
  assert (forall id, id ∈ l -> id ∈ keys) as Hl' by (intros id' Hid; apply Hin; by right).
  destruct (_ >? target); [|intros [= <- <-]; apply shrunk_refl].
  destruct (items c !! id) as [item|] eqn:Hl; [|by apply IH].
  destruct (negb _ && _); [|by apply IH].
  destruct (releaseFirstStream item (cacheSize c)) as [item1 sz1] eqn:E. intros H. apply (IH Hl') in H.
  eapply shrunk_trans; [|exact H].
  pose proof (shrunk_first keys c id item (cacheSize c) Hl) as Hf. rewrite E in Hf. apply Hf. apply Hin. by left.
Qed.

Lemma releaseItems_rest_shrunk fuel keys c more : shrunk keys c (releaseItems_rest fuel target mu keys c more).
Proof.
  revert c more. induction fuel as [|fuel IH]; intros c more; cbn [releaseItems_rest]; destruct (more && _);
    try apply shrunk_refl.
  destruct (releaseItems_round target mu keys c false) as [c1 m1] eqn:E.
  eapply shrunk_trans; [by eapply releaseItems_round_shrunk|apply IH].
Qed.

End release.

Lemma releaseItems_shrunk it mu c : shrunk [] c (releaseItems it mu c).
Proof.
  unfold releaseItems. destruct (_ <=? _); [apply shrunk_refl|].
  destruct (releaseItems_first _ _ _ _ _ _) as [[c1 keys] more] eqn:E.
  apply releaseItems_first_shrunk in E as [H1 _].
  intros id item' Hl. apply eraseEmpty_spec in Hl as [Hl Hv].
  destruct (shrunk_trans keys c c1 _ H1 (releaseItems_rest_shrunk _ _ _ keys c1 more) _ _ Hl) as (item & Hi & Ha & Hk).
  exists item. split_and!; try done. destruct Hk as [Hk|[|]]; [|by right; left|by right; right].
  right. right. by apply Hv.
Qed.

Lemma filled_shrunk c c' : filled c -> shrunk [] c c' -> filled c'.
Proof.
  intros Hf Hs id item' Hl. destruct (Hs _ _ Hl) as (item & Hi & _ & [Hk|[Hk|Hk]]);
    [by apply elem_of_nil in Hk|by destruct (Hf id item Hi)|done].
Qed.

(** A step from [c] to [c'] that leaves the pins of all objects but those of [l]. *)
Definition keeps_pins (l : list Z) (c c' : InstanceCache) : Prop := forall id, id ∉ l -> pins c' id = pins c id.

Section pins.

Context `{!Pression, !Lunchbox} (be : bool) (it : gmap Z Item -> list Z).

Lemma releaseItems_pins mu c id : filled c -> pins (releaseItems it mu c) id = pins c id.
Proof.
  intros Hf. unfold pins. destruct (items c !! id) as [item|] eqn:Hl.
  - destruct (decide (access item = 0)) as [Hz|Hp].
    + destruct (items (releaseItems it mu c) !! id) as [item'|] eqn:Hl'; [|done].
      destruct (releaseItems_shrunk it mu c id item' Hl') as (item1 & Hl1 & -> & _). congruence.
    + destruct (releaseItems_pinned it mu c id item) as [-> _]; [done|by apply (Hf id)|done].
  - destruct (items (releaseItems it mu c) !! id) as [item'|] eqn:Hl'; [|done].
    destruct (releaseItems_shrunk it mu c id item' Hl') as (item1 & Hl1 & _). congruence.
Qed.

Lemma filled_set c id item sz : filled c -> versions item <> [] -> filled (set_size (set_item c id item) sz).
Proof. intros Hf Hv. unfold filled. cbn. by apply map_Forall_insert_2. Qed.

Lemma filled_drop c id sz : filled c -> filled (drop_item (set_size c sz) id).
Proof. intros Hf. unfold filled. cbn. by apply map_Forall_delete. Qed.

Lemma pins_set c id item sz id' :
  pins (set_size (set_item c id item) sz) id' = if decide (id' = id) then access item else pins c id'.
Proof.
  unfold pins. cbn. case_decide as Hd; [subst; by rewrite lookup_insert_eq|by rewrite lookup_insert_ne].
Qed.

Lemma pins_drop c id sz id' :
  pins c id = 0 -> pins (drop_item (set_size c sz) id) id' = pins c id'.
Proof.
  unfold pins. cbn. intros Hz. destruct (decide (id' = id)) as [->|Hne]; [by rewrite lookup_delete_eq|by rewrite lookup_delete_ne].
Qed.

Lemma cache_get_pins c id :
  filled c ->
  let c' := (cache_get c id).2 in
  filled c' /\ keeps_pins [id] c c' /\
  match (cache_get c id).1 with
  | Some (inst, vs) => vs <> [] /\ pins c' id = u32 (pins c id + 1) /\
      (exists item, items c' !! id = Some item /\ masterInstanceID item = inst /\ versions item = vs)
  | None => c' = c
  end.
Proof.
  intros Hf. unfold cache_get. destruct (items c !! id) as [item|] eqn:Hl; cbn [fst snd].
  - change (set_item c id ?x) with (set_size (set_item c id x) (cacheSize c)).
    split; [apply filled_set; [done|exact (Hf id item Hl)]|]. split.
    + intros id' Hn%not_elem_of_cons. rewrite pins_set. case_decide; [naive_solver|done].
    + split; [by apply (Hf id)|]. split.
      * rewrite pins_set, decide_True by done. cbn. unfold pins. by rewrite Hl.
      * eexists. cbn. rewrite lookup_insert_eq. done.
  - split; [done|]. split; [by intros ??|done].
Qed.

Lemma release_pins c id count :
  filled c ->
  let c' := (release it c id count).2 in
  filled c' /\ keeps_pins [id] c c' /\
  (is_Some (items c !! id) -> pins c' id = u32 (pins c id - count)).
Proof.
  intros Hf. unfold release. destruct (items c !! id) as [item|] eqn:Hl; cbn [snd].
  - change (set_item c id ?x) with (set_size (set_item c id x) (cacheSize c)).
    set (c1 := set_size _ _). assert (filled c1) as Hf1 by (apply filled_set; [done|exact (Hf id item Hl)]).
    split; [eapply filled_shrunk; [done|apply releaseItems_shrunk]|]. split.
    + intros id' Hn%not_elem_of_cons. rewrite releaseItems_pins by done. unfold c1. rewrite pins_set.
      case_decide; [naive_solver|done].
    + intros _. rewrite releaseItems_pins by done. unfold c1. rewrite pins_set, decide_True by done. cbn.
      unfold pins. by rewrite Hl.
  - split; [done|]. split; [by intros ??|]. intros [? ?]. done.
Qed.

Lemma erase_pins c id : filled c -> filled (erase c id).2 /\ keeps_pins [] c (erase c id).2.
Proof.
  intros Hf. unfold erase. destruct (items c !! id) as [item|] eqn:Hl; [|by split].
  destruct (Z.eqb_spec (access item) 0) as [Hz|]; cbn [negb]; [|by split].
  destruct (releaseStreams _ _) as [item1 sz]. cbn [snd]. split; [by apply filled_drop|].
  intros id' _. apply pins_drop. unfold pins. by rewrite Hl.
Qed.

Lemma remove_loop_pins node ids c : filled c -> filled (remove_loop node ids c) /\ keeps_pins [] c (remove_loop node ids c).
Proof.
  revert c. induction ids as [|k ids IH]; intros c Hf; cbn [remove_loop]; [by split|].
  destruct (items c !! k) as [item|] eqn:Hl; [|by apply IH].
  destruct (_ && (access item =? 0)) eqn:E; [|by apply IH].
  apply andb_true_iff in E as [_ E%Z.eqb_eq].
  destruct (releaseStreams _ _) as [item1 sz]. destruct (IH (drop_item (set_size c sz) k)) as [H1 H2]; [by apply filled_drop|].
  split; [done|]. intros id Hid. rewrite H2 by done. apply pins_drop. unfold pins. by rewrite Hl.
Qed.

Lemma releaseOldStreams_access minTime item sz : access (releaseOldStreams minTime item sz).1 = access item.
Proof.
  unfold releaseOldStreams. generalize (S (length (versions item))) as fuel. intros fuel. revert item sz.
  induction fuel as [|fuel IH]; intros item sz; cbn [releaseOldStreams_loop]; [done|].
  destruct (versions item) eqn:Hv, (times item); try done. destruct (_ && _); [|done].
  unfold releaseFirstStream at 1. rewrite Hv. by rewrite IH.
Qed.

Lemma expire_loop_pins time ids c : filled c -> filled (expire_loop time ids c) /\ keeps_pins [] c (expire_loop time ids c).
Proof.
  revert c. induction ids as [|k ids IH]; intros c Hf; cbn [expire_loop]; [by split|].
  destruct (items c !! k) as [item|] eqn:Hl; [|by apply IH].
  destruct (Z.eqb_spec (access item) 0) as [Hz|]; cbn [negb]; [|by apply IH].
  pose proof (releaseOldStreams_access time item (cacheSize c)) as Ha.
  destruct (releaseOldStreams time item (cacheSize c)) as [item1 sz]. cbn [fst] in Ha.
  assert (pins c k = 0) as Hp by (unfold pins; by rewrite Hl).
  destruct (versions item1) eqn:Hv; cbn [is_nil].
  - destruct (IH (drop_item (set_size c sz) k)) as [H1 H2]; [by apply filled_drop|].
    split; [done|]. intros id Hid. rewrite H2 by done. by apply pins_drop.
  - change (set_item (set_size c sz) k item1) with (set_size (set_item c k item1) sz).
    destruct (IH (set_size (set_item c k item1) sz)) as [H1 H2]; [apply filled_set; [done|by rewrite Hv]|].
    split; [done|]. intros id Hid. rewrite H2, pins_set by done. case_decide; [subst; lia|done].
Qed.

Lemma add_pins c rev inst node now command usage :
  filled c ->
  let c' := (add be it c rev inst node now command usage).2 in filled c' /\ keeps_pins [] c c'.
Proof.
  intros Hf. unfold add. set (id := identifier rev).
  destruct (add_item c id inst node usage) as [[item1 sz1]|] eqn:Ei; [|by split].
  assert (access item1 = pins c id /\ (versions item1 <> [] \/ versions item1 = [])) as [Ha _].
  { split; [|destruct (versions item1); [by right|by left]]. unfold add_item in Ei. unfold pins.
    destruct (items c !! id) as [item|]; cbn in Ei.
    - destruct (_ || _); [|by injection Ei as <- _].
      destruct (negb _); [done|]. by injection Ei as <- _.
    - destruct (_ || _); by injection Ei as <- _. }
  destruct (add_stream be item1 sz1 now (version rev)) as [[item2 sz2]|] eqn:Es; cbn [snd].
  - assert (access item2 = pins c id /\ versions item2 <> []) as [Ha2 Hv2].
    { unfold add_stream in Es. destruct (last (versions item1)) as [st|] eqn:Hla.
      - assert (versions item1 <> []) by (intros Hz; by rewrite Hz in Hla).
        destruct (_ =? _); [destruct (isReady st); by simplify_eq|].
        destruct (_ >? _); [done|]. destruct (negb _); [|simplify_eq; cbn; by destruct (versions item1)].
        destruct (negb _); [done|]. cbn in Es. injection Es as <- _. by split.
      - simplify_eq. cbn. split; [done|]. by destruct (versions item1). }
    destruct (add_command be item2 sz2 command) as [item3 sz3] eqn:Ec.
    assert (access item3 = pins c id /\ versions item3 <> []) as [Ha3 Hv3].
    { unfold add_command in Ec. destruct (last (versions item2)) as [st|]; simplify_eq; [|done].
      cbn. split; [done|]. by destruct (removelast _). }
    cbn [snd]. set (c1 := set_size _ _). assert (filled c1) as Hf1 by by apply filled_set.
    assert (filled (releaseItems it 1 c1)) as Hf2 by (eapply filled_shrunk; [done|apply releaseItems_shrunk]).
    split; [eapply filled_shrunk; [done|apply releaseItems_shrunk]|].
    intros id' _. rewrite !releaseItems_pins by done. unfold c1. rewrite pins_set. case_decide; [by subst|done].
  - assert (versions item1 <> []) as Hv1.
    { intros Hz. unfold add_stream in Es. by rewrite Hz in Es. }
    split; [by apply filled_set|]. intros id' _. rewrite pins_set. case_decide; [by subst|done].
Qed.

(** ** What a pinned object holds *)

(** The complete streams of [vs] are still there, at their places. *)
Definition keeps (vs vs' : list ObjectDataIStream) : Prop :=
  (length vs <= length vs')%nat /\ forall i st, vs !! i = Some st -> isReady st = true -> vs' !! i = Some st.

Definition holds_data (c : InstanceCache) (id inst : Z) (vs : list ObjectDataIStream) : Prop :=
  exists item, items c !! id = Some item /\ masterInstanceID item = inst /\ keeps vs (versions item).

Lemma keeps_refl vs : keeps vs vs.
Proof. split; [lia|done]. Qed.

Lemma keeps_trans vs1 vs2 vs3 : keeps vs1 vs2 -> keeps vs2 vs3 -> keeps vs1 vs3.
Proof. intros [Hl1 H1] [Hl2 H2]. split; [lia|]. intros i st Hi Hr. apply H2; [by apply H1|done]. Qed.

Lemma extends_keeps item item' : extends item item' -> keeps (versions item) (versions item').
Proof.
  intros (_ & _ & vs & [->|[->|(st & Hla & Hr & -> & Hlen)]]); [apply keeps_refl| |].
  - split; [rewrite length_app; lia|]. intros i s Hi _. by apply lookup_app_l_Some.
  - apply last_Some in Hla as [l Hl]. rewrite Hl, removelast_last. split; [rewrite !length_app; cbn; lia|].
    intros i s Hi Hs. apply lookup_app_Some in Hi as [Hi|[Hge Hi]]; [by apply lookup_app_l_Some|].
    destruct (i - length l)%nat; cbn in Hi; [|by destruct n]. congruence.
Qed.

Lemma cache_step_holds c op id inst vs :
  filled c -> 0 < pins c id < 2 ^ 32 - 1 -> (forall count, op <> OpRelease id count) ->
  holds_data c id inst vs -> holds_data (cache_step be it c op) id inst vs.
Proof.
  intros Hf Hp Hop (item & Hl & Hi & Hk). unfold pins in Hp. rewrite Hl in Hp.
  destruct (cache_step_pinned be it c op id item) as (item' & Hl' & _ & He);
    [split; [done|lia]|exact (Hf id item Hl)|lia|lia|done|].
  exists item'. split; [done|]. split; [destruct He as (_ & He & _); by rewrite He|].
  eapply keeps_trans; [exact Hk|]. exact (extends_keeps _ _ He).
Qed.

Lemma release_holds c id count inst vs :
  filled c -> u32 (pins c id - count) <> 0 -> holds_data c id inst vs -> holds_data (release it c id count).2 id inst vs.
Proof.
  intros Hf Hp (item & Hl & Hi & Hk). unfold release. unfold pins in Hp. rewrite Hl in *. cbn [snd].
  eexists. split; [apply releaseItems_pinned; [split; [cbn; apply lookup_insert_eq|done]|exact (Hf id item Hl)]|done].
Qed.

Lemma get_holds c id inst vs : (cache_get c id).1 = Some (inst, vs) -> holds_data (cache_get c id).2 id inst vs.
Proof.
  unfold cache_get. destruct (items c !! id) as [item|] eqn:Hl; [|done]. cbn. intros [= <- <-].
  eexists. cbn. rewrite lookup_insert_eq. split; [done|]. split; [done|apply keeps_refl].
Qed.

(** Other objects do not matter to the release of one. *)
Lemma release_other_holds c id id' count inst vs :
  id' <> id -> filled c -> 0 < pins c id < 2 ^ 32 - 1 -> holds_data c id inst vs ->
  holds_data (release it c id' count).2 id inst vs.
Proof. intros Hne Hf Hp Hh. apply (cache_step_holds c (OpRelease id' count) id inst vs Hf Hp); [congruence|done]. Qed.

End pins.
