(* ===== verification/ObjectCM.v ===== *)
(** * Change managers: common part (co/objectCM.cpp, co/masterCMCommand.cpp)

    What all change managers share: the environment of a distributed object, the
    messages they send, the command a mapping slave sends to its master, and the
    default ways to push, synchronise and initialise a slave, which stream the
    object's instance data at the moment of the request. *)

From S2P Require Import Prelude Bytes Lunchbox DataOStream DataIStream Serialize Transfer Commands ObjectStreams Connections.

Definition CMD_NODE_MAP_OBJECT_SUCCESS : Z := 28.
Definition CMD_NODE_MAP_OBJECT_REPLY : Z := 29.
Definition CMD_NODE_OBJECT_PUSH : Z := 39.
Definition CMD_NODE_SYNC_OBJECT_REPLY : Z := 45.

(** What a change manager reads of its object and of the process: the byte
    order, [IATTR_OBJECT_COMPRESSION] and [getObjectBufferSize], the object's
    identifier, instance and change type, the compressor chosen for it and
    whether it is usable, [CO_AGGRESSIVE_CACHING], fresh identifiers, and the
    order of [gatherConnections]'s hash map. *)
Record Env := mkEnv {
  e_be : bool;
  e_threshold : Z;
  e_bufferSize : Z;
  e_id : Z;
  e_instanceID : Z;
  e_changeType : Z;
  e_compressor : Z;
  e_good : bool;
  e_aggressive : bool;
  e_uuid : Z -> Z;
  e_order : gmap Z Z -> list (Z * Z)
}.

(** The application's object at the time of a call: [isDirty] and the writes its
    [getInstanceData] and [pack] make. *)
Record AppObject := mkAppObject {
  isDirty : bool;
  getInstanceData : list bytes;
  pack : list bytes
}.

(** What goes out on connections: a data command, a node command with its
    arguments, an object command to an instance. *)
Inductive Message :=
| MData (conns : list Z) (dc : DataCommand)
| MNode (conns : list Z) (cmd : Z) (args : list bytes)
| MObject (conns : list Z) (cmd instanceID : Z) (args : list bytes).

Record MasterCMCommand := mkMasterCMCommand {
  mc_node : Z;
  mc_requestedVersion : Z;
  mc_minCachedVersion : Z;
  mc_maxCachedVersion : Z;
  mc_objectID : Z;
  mc_maxVersion : Z;
  mc_requestID : Z;
  mc_instanceID : Z;
  mc_masterInstanceID : Z;
  mc_useCache : bool
}.

(** [MasterCMCommand::_init] on a copy of a received command; [node] is the node
    it came from. *)
Definition MasterCMCommand_of `{!Pression, !Lunchbox} (be : bool) (node : Z) (command : ICommand) :
    MasterCMCommand :=
  let source := CommandBuffer_source be in
  let c := ICommand_copy be command in
  if isValid c then
    let '(requestedVersion, c) := read_field (read_u128 be) 0 c in
    let '(minCachedVersion, c) := read_field (read_u128 be) 0 c in
    let '(maxCachedVersion, c) := read_field (read_u128 be) 0 c in
    let '(objectID, c) := read_field (read_u128 be) 0 c in
    let '(maxVersion, c) := read_field (read_item be 8) 0 c in
    let '(requestID, c) := read_field (read_item be 4) 0 c in
    let '(instanceID, c) := read_field (read_item be 4) CO_INSTANCE_INVALID c in
    let '(masterInstanceID, c) := read_field (read_item be 4) CO_INSTANCE_INVALID c in
    let '(useCache, c) := read_field (read_bool be) false c in
    mkMasterCMCommand node requestedVersion minCachedVersion maxCachedVersion objectID maxVersion
      requestID instanceID masterInstanceID useCache
  else mkMasterCMCommand node 0 0 0 0 0 0 CO_INSTANCE_INVALID CO_INSTANCE_INVALID false.

Section objectcm.

Context `{!Pression, !Lunchbox, !Network} (E : Env).

Definition connections_of (nodes : list Z) : list Z := gatherConnections (e_order E) nodes.

Definition new_stream (kind : stream_kind) : ObjectDataOStream :=
  ObjectDataOStream_init kind (e_compressor E) (e_good E) 0.

(** The stream operations with the object's parameters. *)
Definition do_stream (os : ObjectDataOStream) (f : DataOStream -> DataOStream * list SendCall) :
    ObjectDataOStream * list DataCommand :=
  os_do (e_be E) (e_id E) (e_instanceID E) CO_INSTANCE_INVALID (e_uuid E) os f.

Definition run_stream (os : ObjectDataOStream) (ws : list bytes) :
    ObjectDataOStream * list DataCommand :=
  os_session (e_be E) (e_threshold E) (e_bufferSize E) (e_id E) (e_instanceID E) CO_INSTANCE_INVALID
    (e_uuid E) os ws.

(** [node->send( cmd, multicast )] followed by its arguments. *)
Definition node_send (node cmd : Z) (multicast : bool) (args : list bytes) : Message :=
  MNode [getConnection node multicast] cmd args.

Definition push_notification (conns : list Z) (groupID typeID : Z) : Message :=
  MNode conns CMD_NODE_OBJECT_PUSH
    (write_u128 (e_be E) (e_id E) ++ write_u128 (e_be E) groupID ++ write_u128 (e_be E) typeID).

Definition ObjectCM_push (version : Z) (object : AppObject) (groupID typeID : Z) (nodes : list Z) :
    list Message :=
  match nodes with
  | [] => []
  | _ =>
      let conns := connections_of nodes in
      let os := enablePush (new_stream KInstance) version conns in
      let '(os, dcs) := do_stream os (fun s => writes (e_threshold E) (e_bufferSize E) s (getInstanceData object)) in
      let '(os, dcs') := do_stream os (disable (e_threshold E)) in
      (MData conns <$> dcs) ++ [push_notification conns groupID typeID] ++ (MData conns <$> dcs')
  end.

Definition _sendSyncReply (command : MasterCMCommand) (useCache : bool) : Message :=
  node_send (mc_node command) CMD_NODE_SYNC_OBJECT_REPLY useCache
    (write_u128 (e_be E) (getNodeID (mc_node command)) ++ write_u128 (e_be E) (mc_objectID command) ++
     write_item (e_be E) 4 (mc_requestID command) ++ write_bool (e_be E) true ++
     write_bool (e_be E) (mc_useCache command) ++ write_bool (e_be E) useCache).

(** Whether the requester's cache already holds the given version of this
    object instance. *)
Definition sync_useCache (command : MasterCMCommand) (version : Z) : bool :=
  mc_useCache command && (mc_masterInstanceID command =? e_instanceID E) &&
  (mc_maxCachedVersion command =? version).

(** [object] is [None] after the object was detached. *)
Definition ObjectCM_sendSync (command : MasterCMCommand) (version : Z) (object : option AppObject) :
    bool * list Message :=
  match object with
  | None => (false, [])
  | Some object =>
      let useCache := sync_useCache command version in
      let data :=
        if useCache then []
        else
          let conns := connections_of [mc_node command] in
          let os := enableSync (new_stream KInstance) version (getNodeID (mc_node command))
                      (mc_requestID command) conns in
          MData conns <$> (run_stream os (getInstanceData object)).2 in
      (true, data ++ [_sendSyncReply command useCache])
  end.

Definition _sendMapSuccess (command : MasterCMCommand) (multicast : bool) : Message :=
  node_send (mc_node command) CMD_NODE_MAP_OBJECT_SUCCESS multicast
    (write_u128 (e_be E) (getNodeID (mc_node command)) ++ write_u128 (e_be E) (mc_objectID command) ++
     write_item (e_be E) 4 (mc_requestID command) ++ write_item (e_be E) 4 (mc_instanceID command) ++
     write_item (e_be E) 4 (e_changeType E) ++ write_item (e_be E) 4 (e_instanceID E)).

Definition _sendMapReply (command : MasterCMCommand) (version : Z) (result useCache multicast : bool) :
    Message :=
  node_send (mc_node command) CMD_NODE_MAP_OBJECT_REPLY multicast
    (write_u128 (e_be E) (getNodeID (mc_node command)) ++ write_u128 (e_be E) (mc_objectID command) ++
     write_u128 (e_be E) version ++ write_item (e_be E) 4 (mc_requestID command) ++
     write_bool (e_be E) result ++ write_bool (e_be E) (mc_useCache command) ++
     write_bool (e_be E) useCache).

(** A data command without data that carries a version. *)
Definition _sendEmptyVersion (command : MasterCMCommand) (version : Z) (multicast : bool) : Message :=
  MData [getConnection (mc_node command) multicast]
    (mkDataCommand CMD_OBJECT_INSTANCE COMMANDTYPE_OBJECT (e_id E) (mc_instanceID command) version 0
       (mkSendCall [] 0 true EQ_COMPRESSOR_NONE 0 [])
       (write_u128 (e_be E) 0 ++ write_item (e_be E) 4 (e_instanceID E))).

Definition ObjectCM_initSlave (object : option AppObject) (command : MasterCMCommand)
    (replyVersion : Z) (replyUseCache : bool) : bool * list Message :=
  if replyUseCache && (mc_minCachedVersion command <=? replyVersion) &&
     (mc_maxCachedVersion command >=? replyVersion)
  then (true, [_sendMapSuccess command false;
               _sendMapReply command replyVersion true replyUseCache false])
  else
    match object with
    | None => (false, [])
    | Some object =>
        let conn := getConnection (mc_node command) true in
        let os := enableMap (new_stream KInstance) replyVersion (getNodeID (mc_node command)) conn
                    (mc_instanceID command) in
        let '(os, dcs) := run_stream os (getInstanceData object) in
        (true, [_sendMapSuccess command true] ++ (MData [conn] <$> dcs) ++
               (if hasSentData (os_base os) then []
                else [_sendEmptyVersion command replyVersion true]) ++
               [_sendMapReply command replyVersion true false true])
    end.

(** [_addSlave]; [initSlave] is the manager's own [_initSlave], with the state
    it may change. *)
Definition _addSlave {M} (m : M) (initSlave : M -> MasterCMCommand -> bool -> bool * M * list Message)
    (command : MasterCMCommand) : bool * M * list Message :=
  if mc_requestedVersion command =? VERSION_NONE
  then (true, m, [_sendMapSuccess command false; _sendEmptyVersion command VERSION_NONE false;
                  _sendMapReply command VERSION_NONE true false false])
  else initSlave m command (mc_useCache command && (mc_masterInstanceID command =? e_instanceID E)).

End objectcm.
