(* ===== verification/MasterCM.v ===== *)
(** * Master change managers (co/versionedMasterCM.cpp, co/fullMasterCM.cpp,
    co/deltaMasterCM.cpp, co/unbufferedMasterCM.cpp)

    The master instance of a versioned object numbers its commits, sends them to
    the subscribed slaves and, unless it is unbuffered, keeps the instance data
    of past versions so that a slave can map any version not yet obsolete.  A
    [FullMasterCM] commits instance data, a [DeltaMasterCM] commits deltas and
    saves the instance data without sending it.  Slaves may bound how far the
    master runs ahead ([_maxVersion]); a commit beyond that bound waits. *)

From S2P Require Import Prelude Bytes Lunchbox DataOStream DataIStream Serialize Transfer Commands ObjectStreams Connections ObjectCM.

Definition CO_COMMIT_NEXT : Z := 0xffffffff.

Record SlaveData := mkSlaveData {
  sd_node : Z;
  sd_maxVersion : Z;
  sd_instanceID : Z
}.

Definition set_sd_node (v : Z) (s : SlaveData) : SlaveData :=
  mkSlaveData v (sd_maxVersion s) (sd_instanceID s).
Definition set_sd_maxVersion (v : Z) (s : SlaveData) : SlaveData :=
  mkSlaveData (sd_node s) v (sd_instanceID s).
Definition set_sd_instanceID (v : Z) (s : SlaveData) : SlaveData :=
  mkSlaveData (sd_node s) (sd_maxVersion s) v.

(** [SlaveData::operator ==] *)
Definition same_slave (a b : SlaveData) : bool :=
  (sd_node a =? sd_node b) && (sd_instanceID a =? sd_instanceID b).

(** [lunchbox::usort]: sort and drop duplicates. *)
Definition usort (l : list Z) : list Z := merge_sort Z.le (remove_dups l).

Section versioned.

Context `{!Pression, !Lunchbox, !Network} (E : Env).
Context {Q : Type -> Type} `{!MTQueue Q}.

Record VersionedMasterCM := mkVersionedMasterCM {
  m_version : Z;
  m_maxVersion : Z;
  m_slaves : list Z;
  m_slaveData : list SlaveData;
  m_slaveCommits : DataIStreamQueue (Q := Q)
}.

Definition set_m_version (v : Z) (s : VersionedMasterCM) : VersionedMasterCM :=
  mkVersionedMasterCM v (m_maxVersion s) (m_slaves s) (m_slaveData s) (m_slaveCommits s).
Definition set_m_maxVersion (v : Z) (s : VersionedMasterCM) : VersionedMasterCM :=
  mkVersionedMasterCM (m_version s) v (m_slaves s) (m_slaveData s) (m_slaveCommits s).
Definition set_m_slaves (v : list Z) (s : VersionedMasterCM) : VersionedMasterCM :=
  mkVersionedMasterCM (m_version s) (m_maxVersion s) v (m_slaveData s) (m_slaveCommits s).
Definition set_m_slaveData (v : list SlaveData) (s : VersionedMasterCM) : VersionedMasterCM :=
  mkVersionedMasterCM (m_version s) (m_maxVersion s) (m_slaves s) v (m_slaveCommits s).
Definition set_m_slaveCommits (v : DataIStreamQueue (Q := Q)) (s : VersionedMasterCM) : VersionedMasterCM :=
  mkVersionedMasterCM (m_version s) (m_maxVersion s) (m_slaves s) (m_slaveData s) v.

Definition VersionedMasterCM_init (version : Z) : VersionedMasterCM :=
  mkVersionedMasterCM version max_u64 [] [] DataIStreamQueue_init.

Definition _updateMaxVersion (m : VersionedMasterCM) : VersionedMasterCM :=
  let maxVersion :=
    fold_left (fun v sd => if negb (sd_maxVersion sd =? max_u64) && (v >? sd_maxVersion sd)
                           then sd_maxVersion sd else v) (m_slaveData m) max_u64 in
  if m_maxVersion m =? maxVersion then m else set_m_maxVersion maxVersion m.

(** The bound a new slave puts on the master, from the number of versions it
    allows to queue. *)
Definition slave_maxVersion (maxVersion version : Z) : Z :=
  if maxVersion =? 0 then max_u64
  else if maxVersion <? max_u64 then u64 (maxVersion + u64 version)
  else maxVersion.

(** [addSlave] after [_addSlave] succeeded. *)
Definition subscribe (command : MasterCMCommand) (m : VersionedMasterCM) : VersionedMasterCM :=
  let data := mkSlaveData (mc_node command) (slave_maxVersion (mc_maxVersion command) (m_version m))
                (mc_instanceID command) in
  let m := _updateMaxVersion (set_m_slaveData (m_slaveData m ++ [data]) m) in
  set_m_slaves (usort (m_slaves m ++ [sd_node data])) m.

Fixpoint erase_slave (data : SlaveData) (l : list SlaveData) : option (list SlaveData) :=
  match l with
  | [] => None
  | sd :: l => if same_slave sd data then Some l
               else match erase_slave data l with None => None | Some l' => Some (sd :: l') end
  end.

Definition removeSlave (m : VersionedMasterCM) (node instanceID : Z) : VersionedMasterCM :=
  match erase_slave (mkSlaveData node max_u64 instanceID) (m_slaveData m) with
  | None => m
  | Some l =>
      _updateMaxVersion (set_m_slaves (usort (sd_node <$> l)) (set_m_slaveData l m))
  end.

Definition removeSlaves (m : VersionedMasterCM) (node : Z) : VersionedMasterCM :=
  if decide (node ∈ m_slaves m) then
    let slaves := match list_find (fun n => n = node) (m_slaves m) with
                  | Some (i, _) => delete i (m_slaves m)
                  | None => m_slaves m
                  end in
    _updateMaxVersion (set_m_slaveData (filter (fun sd => sd_node sd <> node) (m_slaveData m))
      (set_m_slaves slaves m))
  else m.

(** The command handlers; a notification is the flag returned. *)
Definition _cmdSlaveDelta (m : VersionedMasterCM) (cmd : ICommand) : bool * VersionedMasterCM :=
  let source := CommandBuffer_source (e_be E) in
  let command := ObjectDataICommand_of (e_be E) cmd in
  let '(key, c) := read_field (read_u128 (e_be E)) 0 (odc_icommand command) in
  let '(ready, q) := queue_addDataCommand (e_be E) (m_slaveCommits m) key c in
  (ready, set_m_slaveCommits q m).

Fixpoint update_slave (data : SlaveData) (version : Z) (l : list SlaveData) : option (list SlaveData) :=
  match l with
  | [] => None
  | sd :: l => if same_slave sd data then Some (set_sd_maxVersion version sd :: l)
               else match update_slave data version l with None => None | Some l' => Some (sd :: l') end
  end.

(** What [_cmdMaxVersion] does with the values it reads from the command. *)
Definition setMaxVersion (m : VersionedMasterCM) (node version slaveID : Z) : VersionedMasterCM :=
  match update_slave (mkSlaveData node max_u64 slaveID) version (m_slaveData m) with
  | None => m
  | Some l => _updateMaxVersion (set_m_slaveData l m)
  end.

Definition _cmdMaxVersion (m : VersionedMasterCM) (node : Z) (cmd : ICommand) : VersionedMasterCM :=
  let source := CommandBuffer_source (e_be E) in
  let command := ObjectICommand_of (e_be E) cmd in
  let '(version, c) := read_field (read_item (e_be E) 8) 0 (oic_command command) in
  let '(slaveID, c) := read_field (read_item (e_be E) 4) 0 c in
  setMaxVersion m node version slaveID.

(** [sync]: apply queued slave commits to the application's object. *)
Section sync.

Context {App : Type} (unpack : App -> ObjectDataIStream -> App).

Definition _apply (app : App) (stream : ObjectDataIStream) : Z * App :=
  (is_version stream, unpack app stream).

Fixpoint sync_head (fuel : nat) (version : Z) (app : App) (q : DataIStreamQueue (Q := Q)) :
    Z * App * DataIStreamQueue (Q := Q) :=
  match fuel with
  | O => (version, app, q)
  | Datatypes.S fuel =>
      match tryPop q with
      | (None, q) => (version, app, q)
      | (Some stream, q) => let '(version, app) := _apply app stream in sync_head fuel version app q
      end
  end.

(** [None] where the code waits for a commit to arrive. *)
Definition master_sync (m : VersionedMasterCM) (app : App) (inVersion : Z) :
    option (Z * App * VersionedMasterCM) :=
  if inVersion =? VERSION_NEXT then
    match tryPop (m_slaveCommits m) with
    | (None, _) => None
    | (Some stream, q) =>
        let '(version, app) := _apply app stream in Some (version, app, set_m_slaveCommits q m)
    end
  else if inVersion =? VERSION_HEAD then
    let '(version, app, q) :=
      sync_head (length (q_contents (queued (m_slaveCommits m)))) VERSION_NONE app (m_slaveCommits m) in
    Some (version, app, set_m_slaveCommits q m)
  else
    match pull (m_slaveCommits m) inVersion with
    | None => None
    | Some (stream, q) =>
        let '(version, app) := _apply app stream in Some (version, app, set_m_slaveCommits q m)
    end.

End sync.

(** [_maxVersion.waitGE( _version.low() + 1 )] returns at once. *)
Definition may_commit (m : VersionedMasterCM) : bool :=
  m_maxVersion m >=? u64 (u64 (m_version m) + 1).

(** ** UnbufferedMasterCM *)

Definition UnbufferedMasterCM_init : VersionedMasterCM := VersionedMasterCM_init VERSION_FIRST.

(** [None] where the commit waits for a slave; otherwise the version returned. *)
Definition unbuffered_commit (m : VersionedMasterCM) (object : AppObject) :
    option (Z * VersionedMasterCM * list Message) :=
  if negb (isDirty object) then Some (m_version m, m, [])
  else if negb (may_commit m) then None
  else match m_slaves m with
       | [] => Some (m_version m, m, [])
       | _ =>
           let conns := connections_of E (m_slaves m) in
           let os := enableCommit (new_stream E KDelta) (u128 (m_version m + 1)) conns in
           let '(os, dcs) := run_stream E os (pack object) in
           let m := if hasSentData (os_base os) then set_m_version (u128 (m_version m + 1)) m else m in
           Some (m_version m, m, MData conns <$> dcs)
       end.

Definition unbuffered_addSlave (m : VersionedMasterCM) (object : option AppObject)
    (command : MasterCMCommand) : bool * VersionedMasterCM * list Message :=
  let initSlave m command useCache :=
    let '(ok, out) := ObjectCM_initSlave E object command (m_version m) useCache in (ok, m, out) in
  let '(ok, m, out) := _addSlave E m initSlave command in
  (ok, if ok then subscribe command m else m, out).

(** ** FullMasterCM and DeltaMasterCM *)

Record InstanceData := mkInstanceData {
  id_os : ObjectDataOStream;
  id_commitCount : Z
}.

Definition set_id_os (v : ObjectDataOStream) (s : InstanceData) : InstanceData :=
  mkInstanceData v (id_commitCount s).
Definition set_id_commitCount (v : Z) (s : InstanceData) : InstanceData :=
  mkInstanceData (id_os s) v.

(** [f_deltaData] is the delta stream of a [DeltaMasterCM], absent in a
    [FullMasterCM]. *)
Record FullMasterCM := mkFullMasterCM {
  f_base : VersionedMasterCM;
  f_commitCount : Z;
  f_nVersions : Z;
  f_instanceDatas : list InstanceData;
  f_instanceDataCache : list InstanceData;
  f_deltaData : option ObjectDataOStream
}.

Definition set_f_base (v : VersionedMasterCM) (s : FullMasterCM) : FullMasterCM :=
  mkFullMasterCM v (f_commitCount s) (f_nVersions s) (f_instanceDatas s) (f_instanceDataCache s) (f_deltaData s).
Definition set_f_commitCount (v : Z) (s : FullMasterCM) : FullMasterCM :=
  mkFullMasterCM (f_base s) v (f_nVersions s) (f_instanceDatas s) (f_instanceDataCache s) (f_deltaData s).
Definition set_f_nVersions (v : Z) (s : FullMasterCM) : FullMasterCM :=
  mkFullMasterCM (f_base s) (f_commitCount s) v (f_instanceDatas s) (f_instanceDataCache s) (f_deltaData s).
Definition set_f_instanceDatas (v : list InstanceData) (s : FullMasterCM) : FullMasterCM :=
  mkFullMasterCM (f_base s) (f_commitCount s) (f_nVersions s) v (f_instanceDataCache s) (f_deltaData s).
Definition set_f_instanceDataCache (v : list InstanceData) (s : FullMasterCM) : FullMasterCM :=
  mkFullMasterCM (f_base s) (f_commitCount s) (f_nVersions s) (f_instanceDatas s) v (f_deltaData s).
Definition set_f_deltaData (v : option ObjectDataOStream) (s : FullMasterCM) : FullMasterCM :=
  mkFullMasterCM (f_base s) (f_commitCount s) (f_nVersions s) (f_instanceDatas s) (f_instanceDataCache s) v.

Definition f_version (m : FullMasterCM) : Z := m_version (f_base m).
Definition f_slaves (m : FullMasterCM) : list Z := m_slaves (f_base m).
Definition set_f_version (v : Z) (m : FullMasterCM) : FullMasterCM :=
  set_f_base (set_m_version v (f_base m)) m.

Definition FullMasterCM_new (delta : bool) : FullMasterCM :=
  mkFullMasterCM (VersionedMasterCM_init VERSION_NONE) 0 0 [] []
    (if delta then Some (new_stream E KDelta) else None).

Definition _newInstanceData (m : FullMasterCM) : InstanceData * FullMasterCM :=
  let '(data, m) :=
    match last (f_instanceDataCache m) with
    | None => (mkInstanceData (new_stream E KInstance) 0, m)
    | Some data => (data, set_f_instanceDataCache (removelast (f_instanceDataCache m)) m)
    end in
  let os := os_reset (id_os data) in
  (mkInstanceData (with_base os (enableSave (os_base os))) (f_commitCount m), m).

Definition _addInstanceData (data : InstanceData) (m : FullMasterCM) : FullMasterCM :=
  set_f_instanceDatas (f_instanceDatas m ++ [data]) m.

Definition released (data : InstanceData) (cache : list InstanceData) : list InstanceData :=
  if e_aggressive E then cache ++ [data] else cache.

Definition _releaseInstanceData (data : InstanceData) (m : FullMasterCM) : FullMasterCM :=
  set_f_instanceDataCache (released data (f_instanceDataCache m)) m.

(** Stream the object's instance data into a data item. *)
Definition fill (data : InstanceData) (version : Z) (conns : list Z) (ws : list bytes) :
    InstanceData * list Message :=
  let '(os, dcs) := run_stream E (enableCommit (id_os data) version conns) ws in
  (set_id_os os data, MData conns <$> dcs).

Definition full_init (m : FullMasterCM) (object : AppObject) : FullMasterCM * list Message :=
  let '(data, m) := _newInstanceData m in
  let '(data, out) := fill data VERSION_FIRST (connections_of E (f_slaves m)) (getInstanceData object) in
  let m := _addInstanceData data m in
  let m := set_f_version (u128 (f_version m + 1)) m in
  (set_f_commitCount (u32 (f_commitCount m + 1)) m, out).

(** The loop of [_obsolete]: drop the oldest data, always keeping one. *)
Fixpoint obsolete_loop (commitCount nVersions : Z) (l cache : list InstanceData) :
    list InstanceData * list InstanceData :=
  match l with
  | data :: ((_ :: _) as rest) =>
      if (commitCount >? nVersions) && negb (id_commitCount data >=? u32 (commitCount - nVersions))
      then obsolete_loop commitCount nVersions rest (released data cache)
      else (l, cache)
  | _ => (l, cache)
  end.

Definition _obsolete (m : FullMasterCM) : FullMasterCM :=
  let '(l, cache) := obsolete_loop (f_commitCount m) (f_nVersions m) (f_instanceDatas m)
                       (f_instanceDataCache m) in
  set_f_instanceDatas l (set_f_instanceDataCache cache m).

Definition setAutoObsolete (m : FullMasterCM) (count : Z) : FullMasterCM :=
  _obsolete (set_f_nVersions count m).

(** The loop of [_updateCommitCount] over the data items, newest first. *)
Fixpoint drop_future (commitCount : Z) (l cache : list InstanceData) :
    list InstanceData * list InstanceData :=
  match l with
  | data :: ((_ :: _) as rest) =>
      if id_commitCount data <=? commitCount then (l, cache)
      else drop_future commitCount rest (released data cache)
  | _ => (l, cache)
  end.

Definition _updateCommitCount (m : FullMasterCM) (incarnation : Z) : FullMasterCM :=
  if incarnation =? CO_COMMIT_NEXT then set_f_commitCount (u32 (f_commitCount m + 1)) m
  else if incarnation >=? f_commitCount m then set_f_commitCount incarnation m
  else
    let m := set_f_commitCount incarnation m in
    let '(l, cache) := drop_future incarnation (reverse (f_instanceDatas m)) (f_instanceDataCache m) in
    let m := set_f_instanceDataCache cache m in
    match l with
    | data :: l =>
        if id_commitCount data >? incarnation
        then set_f_version (os_version (id_os data))
               (set_f_instanceDatas (reverse (set_id_commitCount 0 data :: l)) m)
        else set_f_instanceDatas (reverse (data :: l)) m
    | [] => m
    end.

(** [FullMasterCM::_commit] *)
Definition full_commit (m : FullMasterCM) (object : AppObject) : FullMasterCM * list Message :=
  let '(data, m) := _newInstanceData m in
  let '(data, out) := fill data (u128 (f_version m + 1)) (connections_of E (f_slaves m))
                        (getInstanceData object) in
  if hasSentData (os_base (id_os data))
  then (_addInstanceData data (set_f_version (u128 (f_version m + 1)) m), out)
  else (set_f_instanceDataCache (f_instanceDataCache m ++ [data]) m, out).

(** [DeltaMasterCM::_commit] *)
Definition delta_commit (m : FullMasterCM) (delta : ObjectDataOStream) (object : AppObject) :
    FullMasterCM * list Message :=
  let '(delta, out) :=
    match f_slaves m with
    | [] => (delta, [])
    | slaves =>
        let conns := connections_of E slaves in
        let '(os, dcs) := run_stream E (enableCommit (os_reset delta) (u128 (f_version m + 1)) conns)
                            (pack object) in
        (os, MData conns <$> dcs)
    end in
  let m := set_f_deltaData (Some delta) m in
  let sent := hasSentData (os_base delta) in
  if match f_slaves m with [] => true | _ => sent end then
    let '(data, m) := _newInstanceData m in
    let '(data, _) := fill data (u128 (f_version m + 1)) [] (getInstanceData object) in
    if sent || hasSentData (os_base (id_os data))
    then (_addInstanceData data (set_f_version (u128 (f_version m + 1)) m), out)
    else (_releaseInstanceData data m, out)
  else (m, out).

Definition _commit (m : FullMasterCM) (object : AppObject) : FullMasterCM * list Message :=
  match f_deltaData m with
  | None => full_commit m object
  | Some delta => delta_commit m delta object
  end.

(** [None] where the commit waits for a slave; otherwise the version returned. *)
Definition commit (m : FullMasterCM) (object : AppObject) (incarnation : Z) :
    option (Z * FullMasterCM * list Message) :=
  if negb (isDirty object) then
    let m := _obsolete (_updateCommitCount m incarnation) in Some (f_version m, m, [])
  else if negb (may_commit (f_base m)) then None
  else
    let '(m, out) := _commit (_updateCommitCount m incarnation) object in
    let m := _obsolete m in
    Some (f_version m, m, out).

(** Use of [_instanceDatas.back()]. *)
Definition with_back (m : FullMasterCM)
    (f : ObjectDataOStream -> ObjectDataOStream * list Message) : FullMasterCM * list Message :=
  match reverse (f_instanceDatas m) with
  | [] => (m, [])
  | data :: l =>
      let '(os, out) := f (id_os data) in
      (set_f_instanceDatas (reverse (set_id_os os data :: l)) m, out)
  end.

Definition resend_with (f : ObjectDataOStream -> ObjectDataOStream * list DataCommand)
    (conns : list Z) (os : ObjectDataOStream) : ObjectDataOStream * list Message :=
  let '(os, dcs) := f os in (os, MData conns <$> dcs).

Definition full_sendInstanceData (m : FullMasterCM) (nodes : list Z) : FullMasterCM * list Message :=
  match f_slaves m with
  | [] =>
      let conns := connections_of E nodes in
      with_back m (resend_with (fun os => sendInstanceData (e_be E) (e_threshold E) (e_id E)
        (e_instanceID E) CO_INSTANCE_INVALID (e_uuid E) os conns) conns)
  | _ => (m, [])
  end.

Definition full_push (m : FullMasterCM) (groupID typeID : Z) (nodes : list Z) :
    FullMasterCM * list Message :=
  let conns := connections_of E nodes in
  with_back m (fun os =>
    let '(os, out) := resend_with (fun os => os_push (e_be E) (e_threshold E) (e_id E) (e_instanceID E)
                        CO_INSTANCE_INVALID (e_uuid E) os conns) conns os in
    (os, out ++ [push_notification E conns groupID typeID])).

Definition full_sendSync (m : FullMasterCM) (command : MasterCMCommand) :
    bool * FullMasterCM * list Message :=
  let useCache := sync_useCache E command (f_version m) in
  let '(m, out) :=
    if useCache then (m, [])
    else
      let conns := connections_of E [mc_node command] in
      with_back m (resend_with (fun os => os_sync (e_be E) (e_threshold E) (e_id E) (e_instanceID E)
        CO_INSTANCE_INVALID (e_uuid E) os (getNodeID (mc_node command)) (mc_requestID command) conns)
        conns) in
  (true, m, out ++ [_sendSyncReply E command useCache]).

(** The two loops over the data items in [_initSlave]. *)
Fixpoint send_datas (command : MasterCMCommand) (last_ : Z) (l : list InstanceData) :
    list InstanceData * list Message :=
  match l with
  | data :: l =>
      if os_version (id_os data) <=? last_ then
        let conn := getConnection (mc_node command) true in
        let '(os, out) := resend_with (fun os => sendMapData (e_be E) (e_threshold E) (e_id E)
          (e_instanceID E) CO_INSTANCE_INVALID (e_uuid E) os (getNodeID (mc_node command)) conn
          (mc_instanceID command)) [conn] (id_os data) in
        let '(l, out') := send_datas command last_ l in
        (set_id_os os data :: l, out ++ out')
      else (data :: l, [])
  | [] => ([], [])
  end.

Fixpoint skip_datas (command : MasterCMCommand) (first last_ : Z) (l : list InstanceData) :
    list InstanceData * list Message :=
  match l with
  | data :: l' =>
      if os_version (id_os data) <? first
      then let '(l', out) := skip_datas command first last_ l' in (data :: l', out)
      else send_datas command last_ l
  | [] => ([], [])
  end.

(** The first version the slave gets, and the range that is sent because the
    slave's cache does not hold it. *)
Definition map_start (m : FullMasterCM) (requested : Z) : Z :=
  let oldest := match f_instanceDatas m with data :: _ => os_version (id_os data) | [] => 0 end in
  if (requested =? VERSION_OLDEST) || (requested <? oldest) then oldest else requested.

Definition map_range (m : FullMasterCM) (command : MasterCMCommand) (replyUseCache : bool) : Z * Z :=
  let start := map_start m (mc_requestedVersion command) in
  let end_ := f_version m in
  if replyUseCache then
    if (mc_minCachedVersion command <=? start) && (mc_maxCachedVersion command >=? start)
    then (u128 (mc_maxCachedVersion command + 1), end_)
    else if mc_maxCachedVersion command =? end_
    then (start, Z.max start (u128 (mc_minCachedVersion command - 1)))
    else (start, end_)
  else (start, end_).

Definition full_initSlave (m : FullMasterCM) (command : MasterCMCommand) (replyUseCache : bool) :
    bool * FullMasterCM * list Message :=
  let replyVersion := map_start m (mc_requestedVersion command) in
  let '(first, last_) := map_range m command replyUseCache in
  let '(l, out) := skip_datas command first last_ (f_instanceDatas m) in
  let m := set_f_instanceDatas l m in
  match out with
  | [] => (true, m, [_sendMapSuccess E command false;
                     _sendMapReply E command replyVersion true replyUseCache false])
  | _ => (true, m, [_sendMapSuccess E command true] ++ out ++
                   [_sendMapReply E command replyVersion true replyUseCache true])
  end.

Definition full_addSlave (m : FullMasterCM) (command : MasterCMCommand) :
    bool * FullMasterCM * list Message :=
  let '(ok, m, out) := _addSlave E m full_initSlave command in
  (ok, if ok then set_f_base (subscribe command (f_base m)) m else m, out).

(** The assertions of [_checkConsistency], newest item first; the last item of
    the list is [_instanceDatas.front()]. *)
Fixpoint check_items (commitCount nVersions version : Z) (l : list InstanceData) : bool :=
  match l with
  | [] => true
  | data :: l =>
      negb (os_version (id_os data) =? VERSION_NONE) && (os_version (id_os data) =? version) &&
      match l with
      | [] => true
      | _ => u32 (id_commitCount data + nVersions) >=? commitCount
      end && check_items commitCount nVersions (u128 (version - 1)) l
  end.

Definition _checkConsistency (m : FullMasterCM) : bool :=
  match f_instanceDatas m with
  | [] => false
  | _ => (f_version m =? VERSION_NONE) ||
         check_items (f_commitCount m) (f_nVersions m) (f_version m) (reverse (f_instanceDatas m))
  end.

End versioned.

(** ** Lemmas: data items *)

Section items.

Context `{!Pression, !PressionOk, !Lunchbox, !Network} (E : Env).
Context {Q : Type -> Type} `{!MTQueue Q}.
Context (Hbuf : 0 <= e_bufferSize E) (Hname : e_compressor E <> EQ_COMPRESSOR_NONE).

Abbreviation master := (FullMasterCM (Q := Q)).

(** A stream of the object, of the given kind, between two uses. *)
Definition idle (kind : stream_kind) (os : ObjectDataOStream) : Prop :=
  os_kind os = kind /\ os_sequence os = 0 /\ comp_of (os_base os) = (e_compressor E, e_good E).

(** A data item that holds the instance data of a version. *)
Definition item_ok (d : InstanceData) (v : Z) (data : bytes) : Prop :=
  idle KInstance (id_os d) /\ os_version (id_os d) = v /\ saved (os_base (id_os d)) data.

(** Items holding consecutive versions. *)
Fixpoint items_ok (v : Z) (l : list InstanceData) (kept : list bytes) : Prop :=
  match l, kept with
  | [], [] => True
  | d :: l, data :: kept => item_ok d v data /\ items_ok (v + 1) l kept
  | _, _ => False
  end.

Lemma items_ok_length v l kept : items_ok v l kept -> length l = length kept.
Proof.
  revert v kept. induction l as [|d l IH]; intros v [|x kept]; simpl; try done. intros [_ H']. f_equal. eauto.
Qed.

Lemma items_ok_app v l1 l2 kept :
  items_ok v (l1 ++ l2) kept <->
  exists k1 k2, kept = k1 ++ k2 /\ items_ok v l1 k1 /\ items_ok (v + Z.of_nat (length k1)) l2 k2.
Proof.
  revert v kept. induction l1 as [|d l1 IH]; intros v kept; simpl.
  { split.
    - intros Hk. exists [], kept. simpl. by rewrite Z.add_0_r.
    - intros ([|] & k2 & -> & Hk & Hl); [|done]. simpl in *. by rewrite Z.add_0_r in Hl. }
  split.
  - destruct kept as [|x kept]; [done|]. intros [Hd (k1 & k2 & -> & H1' & H2')%IH].
    exists (x :: k1), k2. simpl. split_and!; try done.
    replace (v + Z.of_nat (Datatypes.S (length k1))) with (v + 1 + Z.of_nat (length k1)) by lia. done.
  - intros ([|x k1] & k2 & -> & H1' & H2'); [done|]. destruct H1' as [Hd H1']. simpl. split; [done|].
    apply IH. exists k1, k2. split_and!; try done. simpl length in H2'.
    replace (v + 1 + Z.of_nat (length k1)) with (v + Z.of_nat (Datatypes.S (length k1))) by lia. done.
Qed.

Lemma items_ok_snoc v l kept d data :
  items_ok v l kept -> item_ok d (v + Z.of_nat (length kept)) data ->
  items_ok v (l ++ [d]) (kept ++ [data]).
Proof. intros Hl Hd. apply items_ok_app. exists kept, [data]. simpl. done. Qed.

(** Rewriting an item in place. *)
Lemma items_ok_replace v l1 d d' l2 kept :
  items_ok v (l1 ++ d :: l2) kept ->
  (forall w data, item_ok d w data -> item_ok d' w data) ->
  items_ok v (l1 ++ d' :: l2) kept.
Proof.
  intros (k1 & k2 & -> & H1' & H2')%items_ok_app Hd. apply items_ok_app. exists k1, k2.
  split_and!; try done. destruct k2 as [|x k2]; [done|]. destruct H2' as [Hi H2']. split; auto.
Qed.

Lemma idle_open kind os v conns sv :
  idle kind os -> save (os_base os) = sv ->
  let os' := enableCommit os v conns in
  os_kind os' = kind /\ os_sequence os' = 0 /\ os_version os' = v /\
  fresh (os_base os') (e_compressor E) (e_good E) sv conns.
Proof.
  intros (Hk & Hs & Hc) Hsv. unfold enableCommit. injection Hc as Hc1 Hc2. subst kind.
  rewrite <-Hc1, <-Hc2, <-Hsv. destruct os as [k b vv sq nid iid cmd cm]; cbn in *. subst sq.
  destruct k, b; cbn; done.
Qed.

(** A stream's use does not change whether it saves. *)
Lemma run_stream_save os ws :
  save (os_base (run_stream E os ws).1) = save (os_base os).
Proof.
  pose proof (os_session_frame (e_be E) (e_threshold E) (e_bufferSize E) (e_id E) (e_instanceID E)
    CO_INSTANCE_INVALID (e_uuid E) os ws) as (Fb & _). unfold run_stream. rewrite Fb. apply session_save.
Qed.

(** What a use of a stream leaves and sends. *)
Lemma run_stream_spec kind os v conns sv ws :
  idle kind os -> save (os_base os) = sv -> (conns = [] -> sv = true) ->
  Forall (.≠ []) ws -> Z.of_nat (length ws) < 2 ^ 32 ->
  let '(os', dcs) := run_stream E (enableCommit os v conns) ws in
  idle kind os' /\ os_version os' = v /\
  hasSentData (os_base os') = negb (bool_decide (ws = [])) /\
  (sv = true -> saved (os_base os') (concat ws)).
Proof.
  intros Hi Hsv Hcs Hws Hlen. destruct (idle_open kind os v conns sv Hi Hsv) as (Hk & Hq & Hv & Hfr).
  set (os0 := enableCommit os v conns) in *.
  pose proof (os_session_frame (e_be E) (e_threshold E) (e_bufferSize E) (e_id E) (e_instanceID E)
    CO_INSTANCE_INVALID (e_uuid E) os0 ws) as (Fb & Fk & Fv & _).
  fold (run_stream E os0 ws) in Fb, Fk, Fv.
  pose proof (session_comp (e_threshold E) (e_bufferSize E) _ _ _ _ _ ws Hfr Hname) as Hcomp.
  pose proof (session_hasSent (e_threshold E) (e_bufferSize E) _ _ _ _ _ ws Hfr Hbuf Hname Hws Hcs) as Hh.
  assert (os_sequence (run_stream E os0 ws).1 = 0) as Hq'.
  { destruct (decide (conns = [] \/ ws = [])) as [Hno|[Hc Hw]%Decidable.not_or].
    - unfold run_stream. rewrite <-Hq. apply os_session_quiet.
      eapply session_quiet; [exact Hfr|exact Hname|]. destruct Hno; auto.
    - destruct (os_session_spec (e_be E) (e_threshold E) (e_bufferSize E) (e_id E) (e_instanceID E)
        CO_INSTANCE_INVALID (e_uuid E) os0 ws _ _ _ _ Hfr Hq Hbuf Hname Hc Hw Hws Hlen)
        as (os' & dcs & E1 & _ & _ & _ & Hs). unfold run_stream. by rewrite E1. }
  destruct (run_stream E os0 ws) as [os' dcs]. cbn [fst] in *.
  split_and!; [split_and!|..]; try congruence.
  intros ->. rewrite Fb. by eapply session_saved.
Qed.

End items.

(** ** The log a master keeps *)

Section log.

Context `{!Pression, !PressionOk, !Lunchbox, !Network} (E : Env).
Context {Q : Type -> Type} `{!MTQueue Q}.
Context (Hbuf : 0 <= e_bufferSize E) (Hname : e_compressor E <> EQ_COMPRESSOR_NONE).

Abbreviation master := (FullMasterCM (Q := Q)).
Abbreviation item_ok := (item_ok E).
Abbreviation items_ok := (items_ok E).

Definition counts (l : list InstanceData) : list Z := id_commitCount <$> l.

(** The master [m] has committed the instance data [log], version 1 first, and
    still holds a suffix of it. *)
Record logged (m : master) (log : list bytes) : Prop := {
  lg_version : f_version m = Z.of_nat (length log);
  lg_items : exists old kept, log = old ++ kept /\ kept <> [] /\
    items_ok (Z.of_nat (length old) + 1) (f_instanceDatas m) kept;
  lg_sorted : StronglySorted Z.le (counts (f_instanceDatas m));
  lg_counts : Forall (fun c => 0 <= c <= f_commitCount m) (counts (f_instanceDatas m));
  lg_commitCount : is_u32 (f_commitCount m);
  lg_nVersions : is_u32 (f_nVersions m);
  lg_cache : Forall (fun d => idle E KInstance (id_os d)) (f_instanceDataCache m);
  lg_delta : forall os, f_deltaData m = Some os -> idle E KDelta os /\ save (os_base os) = false;
}.

(** All but the oldest item are recent enough. *)
Definition recent (m : master) : Prop :=
  Forall (fun d => f_commitCount m <= id_commitCount d + f_nVersions m) (tail (f_instanceDatas m)).

Lemma logged_nonempty m log : logged m log -> f_instanceDatas m <> [].
Proof.
  intros [_ (old & kept & _ & Hne & Hi) _ _ _ _ _ _]. apply items_ok_length in Hi. intros E'.
  rewrite E' in Hi. by destruct kept.
Qed.

Lemma released_idle d cache :
  idle E KInstance (id_os d) -> Forall (fun d => idle E KInstance (id_os d)) cache ->
  Forall (fun d => idle E KInstance (id_os d)) (released E d cache).
Proof.
  intros Hd Hc. unfold released. destruct (e_aggressive E); [|done].
  apply Forall_app. split; [done|]. by constructor.
Qed.

Lemma items_idle v l kept : items_ok v l kept -> Forall (fun d => idle E KInstance (id_os d)) l.
Proof.
  revert v kept. induction l as [|d l IH]; intros v [|x kept]; simpl; try done.
  intros [[Hd _] Hl]. constructor; [done|]. by eapply IH.
Qed.

Lemma obsolete_loop_spec cc nv l cache :
  is_u32 cc -> is_u32 nv -> Forall (fun d => idle E KInstance (id_os d)) l ->
  Forall (fun d => idle E KInstance (id_os d)) cache ->
  let '(l', cache') := obsolete_loop E cc nv l cache in
  exists dropped, l = dropped ++ l' /\ (l <> [] -> l' <> []) /\
    Forall (fun d => idle E KInstance (id_os d)) cache' /\
    Forall (fun d => id_commitCount d + nv < cc) dropped /\
    match l' with d :: _ :: _ => cc <= nv \/ cc <= id_commitCount d + nv | _ => True end.
Proof.
  intros Hcc Hnv. revert cache. induction l as [|d l IH]; intros cache Hl Hc; cbn [obsolete_loop].
  { exists []. split_and!; try done; try by constructor. }
  destruct l as [|d2 l].
  { exists []. split_and!; try done; try by constructor. }
  apply Forall_cons in Hl as [Hd Hl].
  destruct (Z.gtb_spec cc nv) as [Hgt|Hle]; cbn [andb].
  - rewrite u32_small by (unfold is_u32 in *; lia).
    destruct (Z.geb_spec (id_commitCount d) (cc - nv)) as [Hge|Hlt]; cbn [negb].
    + exists []. split_and!; try done; try by constructor. right. lia.
    + specialize (IH (released E d cache) Hl (released_idle _ _ Hd Hc)).
      destruct (obsolete_loop E cc nv (d2 :: l) _) as [l' cache'].
      destruct IH as (dropped & El & Hne & Hc' & Hdr & Hhd).
      exists (d :: dropped). split_and!; try done; [by rewrite El|intros _; by apply Hne|by constructor; [lia|]].
  - exists []. split_and!; try done; try by constructor.
Qed.

Lemma counts_app l1 l2 : counts (l1 ++ l2) = counts l1 ++ counts l2.
Proof. apply fmap_app. Qed.

(** [_obsolete] drops old items until the rest is recent. *)
Lemma obsolete_ok m log :
  logged m log -> logged (_obsolete E m) log /\ recent (_obsolete E m).
Proof.
  intros Hlg. pose proof (logged_nonempty _ _ Hlg) as Hne.
  destruct Hlg as [Hv (old & kept & -> & Hk & Hi) Hs Hct Hcc Hnv Hca Hdl].
  unfold _obsolete.
  pose proof (obsolete_loop_spec (f_commitCount m) (f_nVersions m) (f_instanceDatas m)
    (f_instanceDataCache m) Hcc Hnv (items_idle _ _ _ Hi) Hca) as Hloop.
  destruct (obsolete_loop _ _ _ _ _) as [l' cache'].
  destruct Hloop as (dropped & El & Hne' & Hca' & _ & Hhd).
  rewrite El in Hi, Hs, Hct. rewrite counts_app in Hs, Hct.
  apply items_ok_app in Hi as (k1 & k2 & -> & Hi1 & Hi2).
  apply StronglySorted_app in Hs as (_ & _ & Hs2). apply Forall_app in Hct as [_ Hct].
  split; [split; cbn -[Z.of_nat]|].
  - done.
  - exists (old ++ k1), k2. split_and!.
    + by rewrite app_assoc.
    + intros ->. apply items_ok_length in Hi2. by destruct l'; [apply Hne'|].
    + rewrite length_app, Nat2Z.inj_add.
      replace (Z.of_nat (length old) + Z.of_nat (length k1) + 1)
        with (Z.of_nat (length old) + 1 + Z.of_nat (length k1)) by lia. done.
  - done.
  - done.
  - done.
  - done.
  - done.
  - done.
  - unfold recent. cbn. destruct l' as [|d [|d2 l2]]; simpl; try by constructor.
    apply StronglySorted_inv in Hs2 as [_ Hall]. apply (proj1 (Forall_fmap id_commitCount (Z.le (id_commitCount d)) (d2 :: l2))) in Hall.
    apply Forall_cons in Hct as [Hd0 Hct]. apply (proj1 (Forall_fmap id_commitCount _ (d2 :: l2))) in Hct.
    rewrite Forall_forall in Hall, Hct |- *. intros d3 Hd3. specialize (Hall d3 Hd3). specialize (Hct d3 Hd3).
    unfold compose, is_u32 in *. cbn [id_commitCount] in *. destruct Hhd; lia.
Qed.

(** An incarnation that does not decrease. *)
Definition advancing (m : master) (incarnation : Z) : Prop :=
  incarnation = CO_COMMIT_NEXT /\ f_commitCount m + 1 < CO_COMMIT_NEXT \/
  f_commitCount m <= incarnation < CO_COMMIT_NEXT.

Lemma logged_count m log c :
  logged m log -> f_commitCount m <= c -> is_u32 c -> logged (set_f_commitCount c m) log.
Proof.
  intros [] Hle Hc. split; try done. cbn. eapply Forall_impl; [exact lg_counts0|]. simpl. lia.
Qed.

Lemma updateCommitCount_ok m log incarnation :
  logged m log -> advancing m incarnation ->
  logged (_updateCommitCount E m incarnation) log /\
  f_instanceDatas (_updateCommitCount E m incarnation) = f_instanceDatas m /\
  f_base (_updateCommitCount E m incarnation) = f_base m /\
  f_deltaData (_updateCommitCount E m incarnation) = f_deltaData m.
Proof.
  intros Hlg Ha. unfold _updateCommitCount, advancing, CO_COMMIT_NEXT in *.
  pose proof (lg_commitCount _ _ Hlg) as Hcc. unfold is_u32 in Hcc.
  destruct (Z.eqb_spec incarnation 0xffffffff) as [->|Hne].
  - rewrite u32_small by (unfold is_u32; lia). split_and!; try done.
    apply logged_count; [done|lia|unfold is_u32; lia].
  - destruct (Z.geb_spec incarnation (f_commitCount m)); [|lia]. split_and!; try done.
    apply logged_count; [done|lia|unfold is_u32; lia].
Qed.

(** A new data item: clean, saving, counted at the current commit. *)
Lemma newInstanceData_idle (m : master) :
  Forall (fun d => idle E KInstance (id_os d)) (f_instanceDataCache m) ->
  exists d cache, _newInstanceData E m = (d, set_f_instanceDataCache cache m) /\
  Forall (fun d => idle E KInstance (id_os d)) cache /\
  idle E KInstance (id_os d) /\ save (os_base (id_os d)) = true /\ id_commitCount d = f_commitCount m.
Proof.
  intros Hca. unfold _newInstanceData.
  assert (forall os, idle E KInstance os ->
    idle E KInstance (with_base (os_reset os) (enableSave (os_base (os_reset os)))) /\
    save (os_base (with_base (os_reset os) (enableSave (os_base (os_reset os))))) = true) as Hidle.
  { intros os (Hk & _ & Hc). destruct os as [k b ? ? ? ? ? ?]. cbn in *. subst k. cbn.
    unfold idle, resetBuffer. cbn. by destruct b as [? ? ? ? ? ? ? ? ? ? ? []]. }
  destruct (last (f_instanceDataCache m)) as [d|] eqn:Hl.
  - apply last_Some in Hl as [l Hl]. rewrite Hl, removelast_last. rewrite Hl in Hca.
    apply Forall_app in Hca as [Hca [Hd _]%Forall_cons].
    destruct (Hidle _ Hd) as [Hi Hs]. by eexists _, l.
  - destruct (Hidle (new_stream E KInstance)) as [Hi Hs]; [done|].
    eexists _, (f_instanceDataCache m). split; [by destruct m|done].
Qed.

Lemma newInstanceData_ok m log :
  logged m log ->
  let '(d, m') := _newInstanceData E m in
  logged m' log /\ idle E KInstance (id_os d) /\ save (os_base (id_os d)) = true /\
  id_commitCount d = f_commitCount m /\
  f_instanceDatas m' = f_instanceDatas m /\ f_base m' = f_base m /\ f_commitCount m' = f_commitCount m /\
  f_deltaData m' = f_deltaData m.
Proof.
  intros Hlg. destruct (newInstanceData_idle m (lg_cache _ _ Hlg)) as (d & cache & -> & Hca & Hi & Hs & Hc).
  split_and!; try done; [|apply Hi..]. destruct Hlg. by split.
Qed.

Lemma fill_ok d v conns ws :
  idle E KInstance (id_os d) -> save (os_base (id_os d)) = true ->
  Forall (.≠ []) ws -> Z.of_nat (length ws) < 2 ^ 32 ->
  let '(d', out) := fill E d v conns ws in
  item_ok d' v (concat ws) /\ id_commitCount d' = id_commitCount d /\
  hasSentData (os_base (id_os d')) = negb (bool_decide (ws = [])) /\
  out = MData conns <$> (run_stream E (enableCommit (id_os d) v conns) ws).2.
Proof.
  intros Hi Hs Hws Hlen. unfold fill.
  pose proof (run_stream_spec E Hbuf Hname KInstance (id_os d) v conns true ws Hi Hs
    ltac:(done) Hws Hlen) as Hr.
  destruct (run_stream E _ ws) as [os dcs]. destruct Hr as (Hi' & Hv & Hh & Hsv).
  cbn [set_id_os id_os id_commitCount snd]. split_and!; try done. split_and!; try done. by apply Hsv.
Qed.

Lemma logged_add m log d data :
  logged m log -> item_ok d (f_version m + 1) data -> id_commitCount d = f_commitCount m ->
  logged (_addInstanceData d (set_f_version (f_version m + 1) m)) (log ++ [data]).
Proof.
  intros [Hv (old & kept & -> & Hk & Hi) Hs Hct Hcc Hnv Hca Hdl] Hd Hc. split; cbn; try done.
  - unfold f_version in *. rewrite Hv, !length_app. simpl. lia.
  - exists old, (kept ++ [data]). split_and!; [by rewrite app_assoc|by destruct kept|].
    apply items_ok_snoc; [done|]. unfold f_version in *. rewrite Hv, length_app in Hd.
    replace (Z.of_nat (length old) + 1 + Z.of_nat (length kept))
      with (Z.of_nat (length old + length kept) + 1) by lia. done.
  - rewrite counts_app. apply StronglySorted_app. split_and!; [|done|by repeat constructor].
    intros c1 c2 H1' ->%list_elem_of_singleton. rewrite Forall_forall in Hct. specialize (Hct c1 H1').
    simpl in *. lia.
  - rewrite counts_app. apply Forall_app. split; [done|]. constructor; [|done].
    unfold is_u32 in *. simpl in *. lia.
Qed.

Lemma logged_nVersions (m : master) log n : logged m log -> is_u32 n -> logged (set_f_nVersions n m) log.
Proof. intros [] Hn. by split. Qed.

(** *** Committing *)

Definition writes_ok (ws : list bytes) : Prop := Forall (.≠ []) ws /\ Z.of_nat (length ws) < 2 ^ 32.

Record object_ok (object : AppObject) : Prop := {
  ob_instance : writes_ok (getInstanceData object);
  ob_pack : writes_ok (pack object);
}.

(** Whether a commit of a dirty object makes a new version. *)
Definition commits (m : master) (object : AppObject) : bool :=
  match f_deltaData m, f_slaves m with
  | None, _ => negb (bool_decide (getInstanceData object = []))
  | Some delta, [] => hasSentData (os_base delta) || negb (bool_decide (getInstanceData object = []))
  | Some _, _ => negb (bool_decide (pack object = []))
  end.

(** Subscribed nodes have a connection. *)
Definition connected (m : master) : Prop := f_slaves m <> [] -> connections_of E (f_slaves m) <> [].

Definition log_room (log : list bytes) : Prop := Z.of_nat (length log) + 1 < VERSION_NEWEST.

Lemma next_version m log : logged m log -> log_room log -> u128 (f_version m + 1) = f_version m + 1.
Proof.
  intros [] Hr. unfold log_room, VERSION_NEWEST in Hr. rewrite lg_version0. unfold u128. apply Z.mod_small. lia.
Qed.

Lemma logged_set_delta m log os :
  logged m log -> idle E KDelta os -> save (os_base os) = false ->
  logged (set_f_deltaData (Some os) m) log.
Proof. intros [] Hi Hs. split; try done. cbn. by intros ? [= <-]. Qed.

Lemma full_commit_ok m log object :
  logged m log -> object_ok object -> log_room log ->
  logged (full_commit E m object).1
    (if negb (bool_decide (getInstanceData object = [])) then log ++ [concat (getInstanceData object)] else log).
Proof.
  intros Hlg [[Hw Hl] _] Hr. unfold full_commit.
  pose proof (newInstanceData_ok m log Hlg) as Hn.
  destruct (_newInstanceData E m) as [d m1]. destruct Hn as (Hlg1 & Hi & Hs & Hc & Hids & Hb & Hcc & _).
  rewrite (next_version m1 log) by done.
  pose proof (fill_ok d (f_version m1 + 1) (connections_of E (f_slaves m1)) (getInstanceData object)
    Hi Hs Hw Hl) as Hf.
  destruct (fill _ _ _ _ _) as [d' out]. destruct Hf as (Hd & Hc' & -> & _).
  case_bool_decide; cbn [negb fst].
  - destruct Hlg1. split; try done. cbn. apply Forall_app. split; [done|]. constructor; [|done]. apply Hd.
  - apply logged_add; [done|done|congruence].
Qed.

Lemma reset_delta os : idle E KDelta os -> save (os_base os) = false ->
  idle E KDelta (os_reset os) /\ save (os_base (os_reset os)) = false.
Proof.
  intros (Hk & Hq & Hc) Hs. destruct os as [k b ? ? ? ? ? ?]. cbn in *. subst k. cbn.
  unfold idle, resetBuffer. cbn. rewrite Hs. destruct b; cbn in *. split_and!; try done. by subst.
Qed.

Lemma delta_commit_ok m log delta object :
  logged m log -> f_deltaData m = Some delta -> object_ok object -> connected m -> log_room log ->
  logged (delta_commit E m delta object).1
    (if commits m object then log ++ [concat (getInstanceData object)] else log).
Proof.
  intros Hlg Hdl [[Hw Hl] [Hpw Hpl]] Hcn Hr. unfold delta_commit, commits. rewrite Hdl.
  destruct (lg_delta _ _ Hlg _ Hdl) as [Hdi Hds]. destruct (reset_delta _ Hdi Hds) as [Hri Hrs].
  set (r := match f_slaves m with [] => _ | _ => _ end).
  assert (exists os out, r = (os, out) /\ idle E KDelta os /\ save (os_base os) = false /\
    hasSentData (os_base os) = match f_slaves m with [] => hasSentData (os_base delta)
      | _ => negb (bool_decide (pack object = [])) end) as (os & out & -> & Hi & Hs & Hh).
  { unfold r. destruct (f_slaves m) as [|n ns] eqn:Hsl; [by exists delta, []|].
    pose proof (run_stream_spec E Hbuf Hname KDelta (os_reset delta) (u128 (f_version m + 1))
      (connections_of E (n :: ns)) false (pack object) Hri Hrs) as Hrun.
    pose proof (run_stream_save E (enableCommit (os_reset delta) (u128 (f_version m + 1)) (connections_of E (n :: ns)))
      (pack object)) as Hsave.
    destruct (run_stream E _ _) as [os dcs]. exists os, (MData (connections_of E (n :: ns)) <$> dcs).
    destruct Hrun as (Hi' & _ & Hh' & _); try done.
    { intros Hnil. exfalso. rewrite <-Hsl in Hnil. apply Hcn; [congruence|done]. }
    split_and!; try done. cbn [fst] in Hsave. rewrite Hsave. by destruct delta as [[] [] ? ? ? ? ? ?]. }
  pose proof (logged_set_delta m log os Hlg Hi Hs) as Hlg1.
  set (m1 := set_f_deltaData (Some os) m) in *. change (f_slaves m1) with (f_slaves m).
  pose proof (newInstanceData_ok m1 log Hlg1) as Hn.
  destruct (_newInstanceData E m1) as [d m2]. destruct Hn as (Hlg2 & Hdi2 & Hds2 & Hc & Hids & Hb & Hcc & _).
  rewrite (next_version m2 log) by done.
  pose proof (fill_ok d (f_version m2 + 1) [] (getInstanceData object) Hdi2 Hds2 Hw Hl) as Hf.
  destruct (fill _ _ _ _ _) as [d' out']. destruct Hf as (Hd & Hc' & Hh' & _).
  assert (logged (_releaseInstanceData E d' m2) log) as Hrel.
  { destruct Hlg2. split; try done. cbn. apply released_idle; [apply Hd|done]. }
  assert (logged (_addInstanceData d' (set_f_version (f_version m2 + 1) m2))
    (log ++ [concat (getInstanceData object)])) as Hadd by (apply logged_add; [done|done|congruence]).
  rewrite Hh, Hh'. destruct (f_slaves m) as [|n ns].
  - destruct (hasSentData (os_base delta)); [exact Hadd|].
    destruct (negb (bool_decide (getInstanceData object = []))); [exact Hadd|exact Hrel].
  - destruct (negb (bool_decide (pack object = []))); [exact Hadd|exact Hlg1].
Qed.

Lemma commit_ok m log object :
  logged m log -> object_ok object -> connected m -> log_room log ->
  logged (_commit E m object).1 (if commits m object then log ++ [concat (getInstanceData object)] else log).
Proof.
  intros Hlg Ho Hc Hr. unfold _commit. destruct (f_deltaData m) as [delta|] eqn:Hdl.
  - by apply delta_commit_ok.
  - unfold commits. rewrite Hdl. by apply full_commit_ok.
Qed.

(** *** Resending kept items *)

(** A command that brings a version's instance data to a mapping slave. *)
Record map_item (command : MasterCMCommand) (dc : DataCommand) (v : Z) (data : bytes) : Prop := {
  mi_version : dc_version dc = v;
  mi_payload : payload (dc_call dc) = data;
  mi_last : sc_last (dc_call dc) = true;
  mi_sequence : dc_sequence dc = 0;
  mi_fields : dc_cmd dc = CMD_NODE_OBJECT_INSTANCE_MAP /\ dc_id dc = e_id E /\
              dc_instanceID dc = mc_instanceID command;
}.

Fixpoint numbered (v : Z) (kept : list bytes) : list (Z * bytes) :=
  match kept with
  | [] => []
  | data :: kept => (v, data) :: numbered (v + 1) kept
  end.

Lemma numbered_ge v kept : Forall (fun e => v <= e.1) (numbered v kept).
Proof.
  revert v. induction kept as [|x kept IH]; intros v; simpl; constructor; [simpl; lia|].
  eapply Forall_impl; [apply IH|]. simpl. lia.
Qed.

(** Resending keeps an item. *)
Lemma resend_item os conns target nodeID inst v data :
  idle E KInstance os -> os_version os = v -> saved (os_base os) data ->
  exists os' dc,
    os_resend (e_be E) (e_threshold E) (e_id E) (e_instanceID E) CO_INSTANCE_INVALID (e_uuid E)
      (os_target os target nodeID inst) conns = (os', [dc]) /\
    idle E KInstance os' /\ os_version os' = v /\ saved (os_base os') data /\
    dc_version dc = v /\ payload (dc_call dc) = data /\ sc_last (dc_call dc) = true /\
    dc_sequence dc = 0 /\ dc_cmd dc = target /\ dc_id dc = e_id E /\ dc_instanceID dc = inst.
Proof.
  intros (Hk & Hq & Hc) Hv Hs.
  destruct (os_resend_spec (e_be E) (e_threshold E) (e_id E) (e_instanceID E) CO_INSTANCE_INVALID
    (e_uuid E) (os_target os target nodeID inst) conns data Hs)
    as (os' & dc & -> & Hf & Hp & Hl & _ & Hq1 & Hs' & Hc' & Hk' & Hv' & Hq').
  exists os', dc. split; [done|]. destruct Hf as (Hid & Hver & Hkf). cbn in Hver, Hk', Hkf, Hq1, Hv'.
  rewrite Hk in Hkf. destruct Hkf as (Hcmd & _ & Hin & _). split_and!; try congruence.
  split_and!; [congruence|done|]. by rewrite Hc'.
Qed.

Lemma send_datas_ok command last_ v l kept :
  items_ok v l kept ->
  let '(l', out) := send_datas E command last_ l in
  items_ok v l' kept /\ counts l' = counts l /\
  exists dcs, out = MData [getConnection (mc_node command) true] <$> dcs /\
    Forall2 (fun dc e => map_item command dc e.1 e.2) dcs (filter (fun e => e.1 <= last_) (numbered v kept)).
Proof.
  revert v kept. induction l as [|d l IH]; intros v [|x kept] Hi; cbn [send_datas]; try done.
  { split_and!; try done. exists []. by split. }
  destruct Hi as [(Hd & Hv & Hs) Hi]. cbn [numbered]. rewrite Hv.
  destruct (Z.leb_spec v last_) as [Hle|Hgt].
  - unfold resend_with, sendMapData.
    destruct (resend_item (id_os d) [getConnection (mc_node command) true] CMD_NODE_OBJECT_INSTANCE_MAP
      (getNodeID (mc_node command)) (mc_instanceID command) v x Hd Hv Hs)
      as (os' & dc & -> & Hd' & Hv' & Hs' & R1 & R2 & R3 & R4 & R5 & R6 & R7).
    specialize (IH (v + 1) kept Hi). destruct (send_datas E command last_ l) as [l' out].
    destruct IH as (Hi' & Hc' & dcs & -> & Hf). split_and!.
    + done.
    + unfold counts in *. rewrite !fmap_cons. by rewrite Hc'.
    + exists (dc :: dcs). split; [done|]. rewrite filter_cons_True by done. constructor; [|done].
      by constructor.
  - split_and!; try done. exists []. split; [done|].
    rewrite filter_cons_False by (simpl; lia). rewrite filter_none; [done|].
    eapply Forall_impl; [apply numbered_ge|]. simpl. lia.
Qed.

Lemma skip_datas_ok command first last_ v l kept :
  items_ok v l kept ->
  let '(l', out) := skip_datas E command first last_ l in
  items_ok v l' kept /\ counts l' = counts l /\
  exists dcs, out = MData [getConnection (mc_node command) true] <$> dcs /\
    Forall2 (fun dc e => map_item command dc e.1 e.2) dcs
      (filter (fun e => first <= e.1 <= last_) (numbered v kept)).
Proof.
  revert v kept. induction l as [|d l IH]; intros v [|x kept] Hi; cbn [skip_datas]; try done.
  { split_and!; try done. exists []. by split. }
  pose proof Hi as [(Hd & Hv & Hs) Hi']. rewrite Hv.
  destruct (Z.ltb_spec v first) as [Hlt|Hge].
  - specialize (IH (v + 1) kept Hi'). destruct (skip_datas E command first last_ l) as [l' out].
    destruct IH as (Hi2 & Hc' & dcs & -> & Hf). split_and!; [done|unfold counts in *; by rewrite !fmap_cons, Hc'|].
    exists dcs. split; [done|]. cbn [numbered]. by rewrite filter_cons_False by (simpl; lia).
  - pose proof (send_datas_ok command last_ v (d :: l) (x :: kept) Hi) as Hsd.
    destruct (send_datas E command last_ (d :: l)) as [l' out].
    destruct Hsd as (Hi2 & Hc' & dcs & -> & Hf). split_and!; try done. exists dcs. split; [done|].
    erewrite filter_ext_Forall; [exact Hf|].
    eapply Forall_impl; [apply numbered_ge|]. simpl. intros e He. split; lia.
Qed.

End log.

(** ** Lemmas: slaves *)

Section slaves.

Context {Q : Type -> Type} `{!MTQueue Q}.

Abbreviation versioned := (VersionedMasterCM (Q := Q)).

(** The smallest bound any slave puts on the master. *)
Definition min_bound (l : list SlaveData) : Z := foldr Z.min max_u64 (sd_maxVersion <$> l).

Record slaves_ok (m : versioned) : Prop := {
  so_max : m_maxVersion m = min_bound (m_slaveData m);
  so_range : Forall (fun sd => is_u64 (sd_maxVersion sd)) (m_slaveData m);
  so_nodes : forall n, n ∈ m_slaves m <-> n ∈ sd_node <$> m_slaveData m;
  so_nodup : NoDup (m_slaves m);
}.

Lemma min_bound_le l v : v <= min_bound l <-> v <= max_u64 /\ Forall (fun sd => v <= sd_maxVersion sd) l.
Proof.
  unfold min_bound. induction l as [|sd l IH]; simpl.
  { split; [intros ?; split; [done|constructor]|tauto]. }
  rewrite Forall_cons, Z.min_glb_iff, IH. tauto.
Qed.

Lemma updateMaxVersion_spec (m : versioned) :
  Forall (fun sd => is_u64 (sd_maxVersion sd)) (m_slaveData m) ->
  _updateMaxVersion m = set_m_maxVersion (min_bound (m_slaveData m)) m.
Proof.
  intros Hr. unfold _updateMaxVersion.
  assert (forall v, v <= max_u64 ->
    fold_left (fun v sd => if negb (sd_maxVersion sd =? max_u64) && (v >? sd_maxVersion sd)
      then sd_maxVersion sd else v) (m_slaveData m) v = Z.min v (min_bound (m_slaveData m))) as Hf.
  { clear -Hr. unfold min_bound. induction Hr as [|sd l Hsd _ IH]; intros v Hv;
      rewrite ?fmap_cons; cbn [foldr fold_left].
    { simpl. lia. }
    pose proof (proj1 (min_bound_le l _) (Z.le_refl _)) as [Hle _]. unfold min_bound in Hle.
    rewrite IH; unfold is_u64, max_u64 in *;
      destruct (Z.eqb_spec (sd_maxVersion sd) 18446744073709551615), (Z.gtb_spec v (sd_maxVersion sd));
      cbn [negb andb]; lia. }
  rewrite Hf by (unfold max_u64; lia).
  pose proof (proj1 (min_bound_le (m_slaveData m) _) (Z.le_refl _)) as [Hle _].
  rewrite Z.min_r by done. destruct (Z.eqb_spec (m_maxVersion m) (min_bound (m_slaveData m))) as [E|]; [|done].
  destruct m; cbn in *. by subst.
Qed.

Lemma elem_of_usort n l : n ∈ usort l <-> n ∈ l.
Proof. unfold usort. rewrite merge_sort_Permutation. apply elem_of_remove_dups. Qed.

Lemma NoDup_usort l : NoDup (usort l).
Proof. unfold usort. rewrite merge_sort_Permutation. apply NoDup_remove_dups. Qed.

Lemma slave_maxVersion_range mv v : is_u64 mv -> is_u64 (slave_maxVersion mv v).
Proof.
  intros Hm. unfold slave_maxVersion, u64, is_u64, max_u64 in *.
  destruct (mv =? 0); [lia|]. destruct (mv <? 18446744073709551615); [|lia]. apply Z.mod_pos_bound. lia.
Qed.

Lemma subscribe_ok (m : versioned) command :
  slaves_ok m -> is_u64 (mc_maxVersion command) -> slaves_ok (subscribe command m).
Proof.
  intros [Hm Hr Hn Hd] Hc. unfold subscribe.
  set (sd := mkSlaveData _ _ _).
  assert (Forall (fun sd => is_u64 (sd_maxVersion sd)) (m_slaveData m ++ [sd])) as Hr'.
  { apply Forall_app. split; [done|]. constructor; [|done]. by apply slave_maxVersion_range. }
  rewrite updateMaxVersion_spec by done. split; cbn -[usort]; try done.
  - intros n. rewrite elem_of_usort, fmap_app, !elem_of_app, Hn. done.
  - apply NoDup_usort.
Qed.

Lemma erase_slave_spec sd l l' :
  erase_slave sd l = Some l' -> exists l1 x l2, l = l1 ++ x :: l2 /\ l' = l1 ++ l2.
Proof.
  revert l'. induction l as [|x l IH]; intros l'; simpl; [done|].
  destruct (same_slave x sd); [intros [= <-]; by exists [], x, l|].
  destruct (erase_slave sd l) as [l1|]; [|done]. intros [= <-].
  destruct (IH l1 eq_refl) as (a & y & b & -> & ->). by exists (x :: a), y, b.
Qed.

Lemma removeSlave_ok (m : versioned) node inst : slaves_ok m -> slaves_ok (removeSlave m node inst).
Proof.
  intros Hok. unfold removeSlave. destruct (erase_slave _ _) as [l|] eqn:He; [|done].
  destruct Hok as [Hm Hr Hn Hd]. apply erase_slave_spec in He as (l1 & x & l2 & E & ->).
  rewrite E in Hr. apply Forall_app in Hr as [Hr1 [_ Hr2]%Forall_cons].
  assert (Forall (fun sd => is_u64 (sd_maxVersion sd)) (l1 ++ l2)) as Hr by (by apply Forall_app).
  rewrite updateMaxVersion_spec by done. split; cbn -[usort]; try done.
  - intros n. by rewrite elem_of_usort.
  - apply NoDup_usort.
Qed.

Lemma removeSlaves_ok (m : versioned) node : slaves_ok m -> slaves_ok (removeSlaves m node).
Proof.
  intros Hok. unfold removeSlaves. case_decide as Hin; [|done].
  destruct Hok as [Hm Hr Hn Hd].
  assert (exists l1 l2, m_slaves m = l1 ++ node :: l2 /\
    match list_find (fun n => n = node) (m_slaves m) with
    | Some (i, _) => delete i (m_slaves m) | None => m_slaves m end = l1 ++ l2) as (l1 & l2 & E & ->).
  { destruct (list_find _ (m_slaves m)) as [[i n]|] eqn:Hf.
    - apply list_find_Some in Hf as (Hl & -> & _). exists (take i (m_slaves m)), (drop (Datatypes.S i) (m_slaves m)).
      split; [by rewrite take_drop_middle|]. by rewrite delete_take_drop.
    - apply list_find_None in Hf. rewrite Forall_forall in Hf. by destruct (Hf node Hin). }
  assert (Forall (fun sd => is_u64 (sd_maxVersion sd)) (filter (fun sd => sd_node sd <> node) (m_slaveData m))) as Hr'
    by (rewrite Forall_forall in Hr |- *; intros sd [_ Hsd]%list_elem_of_filter; by apply Hr).
  rewrite E in Hd. apply NoDup_app in Hd as (Hd1 & Hdis & [Hni Hd2]%NoDup_cons).
  rewrite updateMaxVersion_spec by done. split; cbn -[usort]; try done.
  - intros n. rewrite list_elem_of_fmap. split.
    + intros Hn'. assert (n ∈ m_slaves m) as [sd [-> Hsd]]%Hn%list_elem_of_fmap by (rewrite E; set_solver).
      exists sd. split; [done|]. apply list_elem_of_filter. split; [|done]. intros Es. rewrite Es in Hn'.
      apply elem_of_app in Hn' as [Hn'|Hn']; [|done]. apply (Hdis node Hn'). set_solver.
    + intros (sd & -> & [Hne Hsd]%list_elem_of_filter).
      assert (sd_node sd ∈ m_slaves m) as Hs by (apply Hn, list_elem_of_fmap; eauto). rewrite E in Hs. set_solver.
  - apply NoDup_app. split_and!; [done| |done]. set_solver.
Qed.

Lemma update_slave_spec sd v l l' :
  update_slave sd v l = Some l' ->
  exists l1 x l2, l = l1 ++ x :: l2 /\ l' = l1 ++ set_sd_maxVersion v x :: l2.
Proof.
  revert l'. induction l as [|x l IH]; intros l'; simpl; [done|].
  destruct (same_slave x sd); [intros [= <-]; by exists [], x, l|].
  destruct (update_slave sd v l) as [l1|]; [|done]. intros [= <-].
  destruct (IH l1 eq_refl) as (a & y & b & -> & ->). by exists (x :: a), y, b.
Qed.

Lemma setMaxVersion_ok (m : versioned) node v inst : slaves_ok m -> is_u64 v -> slaves_ok (setMaxVersion m node v inst).
Proof.
  intros Hok Hv. unfold setMaxVersion. destruct (update_slave _ _ _) as [l|] eqn:He; [|done].
  destruct Hok as [Hm Hr Hn Hd]. apply update_slave_spec in He as (l1 & x & l2 & E & ->).
  rewrite E in Hr. apply Forall_app in Hr as [Hr1 [_ Hr2]%Forall_cons].
  assert (Forall (fun sd => is_u64 (sd_maxVersion sd)) (l1 ++ set_sd_maxVersion v x :: l2)) as Hr
    by (apply Forall_app; split; [done|by constructor]).
  rewrite updateMaxVersion_spec by done. split; cbn -[usort]; try done.
  intros n. rewrite Hn, E, !fmap_app, !fmap_cons. done.
Qed.

End slaves.

(** ** The master as a state machine *)

Inductive master_op :=
| OpCommit (object : AppObject) (incarnation : Z)
| OpSetAutoObsolete (count : Z)
| OpAddSlave (command : MasterCMCommand)
| OpRemoveSlave (node instanceID : Z)
| OpRemoveSlaves (node : Z)
| OpMaxVersion (node version slaveID : Z)
| OpSlaveDelta (cmd : ICommand)
| OpPush (groupID typeID : Z) (nodes : list Z)
| OpSendSync (command : MasterCMCommand)
| OpSendInstanceData (nodes : list Z).

Section machine.

Context `{!Pression, !Lunchbox, !Network} (E : Env).
Context {Q : Type -> Type} `{!MTQueue Q}.

Abbreviation master := (FullMasterCM (Q := Q)).

(** One operation; [None] where it waits. *)
Definition master_step (m : master) (op : master_op) : option (master * list Message) :=
  match op with
  | OpCommit object incarnation =>
      match commit E m object incarnation with
      | None => None
      | Some (_, m, out) => Some (m, out)
      end
  | OpSetAutoObsolete count => Some (setAutoObsolete E m count, [])
  | OpAddSlave command => let '(_, m, out) := full_addSlave E m command in Some (m, out)
  | OpRemoveSlave node instanceID => Some (set_f_base (removeSlave (f_base m) node instanceID) m, [])
  | OpRemoveSlaves node => Some (set_f_base (removeSlaves (f_base m) node) m, [])
  | OpMaxVersion node version slaveID =>
      Some (set_f_base (setMaxVersion (f_base m) node version slaveID) m, [])
  | OpSlaveDelta cmd => Some (set_f_base (_cmdSlaveDelta E (f_base m) cmd).2 m, [])
  | OpPush groupID typeID nodes => Some (full_push E m groupID typeID nodes)
  | OpSendSync command => let '(_, m, out) := full_sendSync E m command in Some (m, out)
  | OpSendInstanceData nodes => Some (full_sendInstanceData E m nodes)
  end.

(** What the callers of an operation respect. *)
Definition op_ok (m : master) (log : list bytes) (op : master_op) : Prop :=
  match op with
  | OpCommit object incarnation =>
      object_ok object /\ advancing m incarnation /\ connected E m /\ log_room log
  | OpSetAutoObsolete count => is_u32 count
  | OpAddSlave command => is_u64 (mc_maxVersion command)
  | OpMaxVersion _ version _ => is_u64 version
  | _ => True
  end.

(** The specification: a log of the instance data of all versions, which only a
    commit of changed data extends. *)
Definition log_step (m : master) (log : list bytes) (op : master_op) : list bytes :=
  match op with
  | OpCommit object _ =>
      if isDirty object && commits m object then log ++ [concat (getInstanceData object)] else log
  | _ => log
  end.

Inductive master_run (delta : bool) : master -> list bytes -> Prop :=
| run_init object :
    object_ok object ->
    master_run delta (full_init E (FullMasterCM_new E delta) object).1 [concat (getInstanceData object)]
| run_step m log op m' out :
    master_run delta m log -> op_ok m log op -> master_step m op = Some (m', out) ->
    master_run delta m' (log_step m log op).

End machine.

Section reachable.

Context `{!Pression, !PressionOk, !Lunchbox, !Network} (E : Env).
Context {Q : Type -> Type} `{!MTQueue Q}.
Context (Hbuf : 0 <= e_bufferSize E) (Hname : e_compressor E <> EQ_COMPRESSOR_NONE).

Abbreviation master := (FullMasterCM (Q := Q)).

(** Everything a reachable master satisfies. *)
Record master_ok (m : master) (log : list bytes) : Prop := {
  mo_logged : logged E m log;
  mo_recent : recent m;
  mo_slaves : slaves_ok (f_base m);
}.

Lemma init_ok delta object :
  object_ok object ->
  master_ok (full_init E (FullMasterCM_new E delta : master) object).1 [concat (getInstanceData object)].
Proof.
  intros [[Hw Hl] _]. unfold full_init, _newInstanceData. cbn [f_instanceDataCache FullMasterCM_new last].
  set (d := mkInstanceData _ _).
  pose proof (fill_ok E Hbuf Hname d VERSION_FIRST (connections_of E []) (getInstanceData object)
    ltac:(done) ltac:(done) Hw Hl) as Hf.
  change (f_slaves _) with (@nil Z).
  destruct (fill E d VERSION_FIRST _ _) as [d' out]. destruct Hf as (Hd & Hc & _).
  split; [split|..].
  - done.
  - exists [], [concat (getInstanceData object)]. split_and!; done.
  - by repeat constructor.
  - constructor; [|done]. cbn. rewrite Hc. cbn. unfold u32. rewrite Z.mod_small; lia.
  - done.
  - done.
  - constructor.
  - cbn. intros os. destruct delta; [|done]. intros [= <-]. done.
  - constructor.
  - split; cbn; try done; constructor.
Qed.

Lemma logged_base (m : master) log b :
  logged E m log -> m_version b = m_version (f_base m) -> logged E (set_f_base b m) log.
Proof. intros [] Hb. split; try done. unfold f_version in *. cbn. congruence. Qed.

Lemma with_back_ok (m : master) log f :
  logged E m log -> recent m ->
  (forall os, os_kind os = KInstance -> let '(os', _) := f os in forall v data,
     idle E KInstance os -> os_version os = v -> saved (os_base os) data ->
     idle E KInstance os' /\ os_version os' = v /\ saved (os_base os') data) ->
  logged E (with_back m f).1 log /\ recent (with_back m f).1 /\ f_base (with_back m f).1 = f_base m.
Proof.
  intros Hlg Hr Hf. unfold with_back. destruct (reverse (f_instanceDatas m)) as [|d l] eqn:Hrev; [done|].
  assert (f_instanceDatas m = reverse l ++ [d]) as El.
  { rewrite <-(reverse_involutive (f_instanceDatas m)), Hrev, reverse_cons. done. }
  destruct Hlg as [Hv (old & kept & -> & Hk & Hi) Hs Hct Hcc Hnv Hca Hdl].
  rewrite El in Hi, Hs, Hct. pose proof (items_idle E _ _ _ Hi) as Hid.
  apply Forall_app in Hid as [_ [Hdi _]%Forall_cons].
  specialize (Hf (id_os d) (proj1 Hdi)). destruct (f (id_os d)) as [os' out]. cbn [fst].
  assert (counts (reverse l ++ [set_id_os os' d]) = counts (reverse l ++ [d])) as Hcts
    by (unfold counts; by rewrite !fmap_app).

  split_and!; [split|..]; cbn -[reverse counts]; try done.
  - exists old, kept. split_and!; try done. rewrite reverse_cons.
    eapply items_ok_replace; [exact Hi|]. intros v data (H1' & H2' & H3'). by apply Hf.
  - by rewrite reverse_cons, Hcts.
  - by rewrite reverse_cons, Hcts.
  - unfold recent in *. cbn -[reverse]. rewrite reverse_cons. rewrite El in Hr.
    destruct (reverse l) as [|d0 l0]; [constructor|]. simpl in *. apply Forall_app in Hr as [Hr1 Hr2].
    apply Forall_app. split; [done|]. apply Forall_cons in Hr2 as [Hr2 _]. by constructor.
Qed.

Lemma resend_with_ok conns g :
  (forall os, exists target nodeID inst, g os = os_resend (e_be E) (e_threshold E) (e_id E) (e_instanceID E)
     CO_INSTANCE_INVALID (e_uuid E) (os_target os target nodeID inst) conns) ->
  forall os, let '(os', _) := resend_with g conns os in forall v data,
     idle E KInstance os -> os_version os = v -> saved (os_base os) data ->
     idle E KInstance os' /\ os_version os' = v /\ saved (os_base os') data.
Proof.
  intros Hg os. unfold resend_with. destruct (g os) as [os' dcs] eqn:Eg. intros v data Hi Hv Hs.
  destruct (Hg os) as (t & n & i & E'). rewrite E' in Eg.
  destruct (resend_item E os conns t n i v data Hi Hv Hs) as (os2 & dc & E2 & ? & ? & ? & _).
  rewrite E2 in Eg. by injection Eg as <- <-.
Qed.

Lemma slaves_ok_version (b : VersionedMasterCM (Q := Q)) v : slaves_ok b -> slaves_ok (set_m_version v b).
Proof. intros []. by split. Qed.

Lemma newInstanceData_base (m : master) : f_base (_newInstanceData E m).2 = f_base m.
Proof. unfold _newInstanceData. by destruct (last _). Qed.

(** A commit changes nothing about the slaves. *)
Lemma commit_base (m : master) object :
  exists v, f_base (_commit E m object).1 = set_m_version v (f_base m).
Proof.
  assert (forall b : VersionedMasterCM (Q := Q), exists v, b = set_m_version v b) as Heta
    by (intros b; exists (m_version b); by destruct b).
  unfold _commit, full_commit, delta_commit. destruct (f_deltaData m) as [delta|].
  - set (r := match f_slaves m with [] => _ | _ => _ end). destruct r as [os out].
    set (m1 := set_f_deltaData (Some os) m).
    pose proof (newInstanceData_base m1) as Hb. destruct (match f_slaves m1 with [] => _ | _ => _ end); [|apply Heta].
    destruct (_newInstanceData E m1) as [d m2]. destruct (fill _ _ _ _ _) as [d' out']. cbn [snd] in Hb.
    destruct (_ || _); cbn; rewrite Hb; [by eexists|apply Heta].
  - pose proof (newInstanceData_base m) as Hb. destruct (_newInstanceData E m) as [d m2].
    destruct (fill _ _ _ _ _) as [d' out']. cbn [snd] in Hb.
    destruct (hasSentData _); cbn; rewrite Hb; [by eexists|apply Heta].
Qed.

Lemma newInstanceData_count (m : master) : f_commitCount (_newInstanceData E m).2 = f_commitCount m.
Proof. unfold _newInstanceData. by destruct (last _). Qed.

Lemma commit_count (m : master) object : f_commitCount (_commit E m object).1 = f_commitCount m.
Proof.
  unfold _commit, full_commit, delta_commit. destruct (f_deltaData m) as [delta|].
  - set (r := match f_slaves m with [] => _ | _ => _ end). destruct r as [os out].
    set (m1 := set_f_deltaData (Some os) m). pose proof (newInstanceData_count m1) as Hb.
    destruct (match f_slaves m1 with [] => _ | _ => _ end); [|done].
    destruct (_newInstanceData E m1) as [d m2]. destruct (fill _ _ _ _ _) as [d' out']. cbn [snd] in Hb.
    by destruct (_ || _).
  - pose proof (newInstanceData_count m) as Hb. destruct (_newInstanceData E m) as [d m2].
    destruct (fill _ _ _ _ _) as [d' out']. cbn [snd] in Hb. by destruct (hasSentData _).
Qed.

Lemma obsolete_count (m : master) : f_commitCount (_obsolete E m) = f_commitCount m.
Proof. unfold _obsolete. by destruct (obsolete_loop _ _ _ _ _). Qed.

Lemma commit_slaves (m : master) object :
  slaves_ok (f_base m) -> slaves_ok (f_base (_commit E m object).1).
Proof. intros Hs. destruct (commit_base m object) as [v ->]. by apply slaves_ok_version. Qed.

(** What a commit with subscribers sends: one use of the instance or delta
    stream, with the next version. *)
Lemma commit_sends (m : master) log object :
  logged E m log -> object_ok object -> log_room log -> f_slaves m <> [] ->
  let '(kind, ws) := match f_deltaData m with
                     | None => (KInstance, getInstanceData object)
                     | Some _ => (KDelta, pack object) end in
  let conns := connections_of E (f_slaves m) in
  exists os, idle E kind os /\ save (os_base os) = bool_decide (kind = KInstance) /\
    (_commit E m object).2 = MData conns <$> (run_stream E (enableCommit os (f_version m + 1) conns) ws).2.
Proof.
  intros Hlg [[Hw Hl] _] Hr Hne. unfold _commit. pose proof (next_version E m log Hlg Hr) as Hnext.
  destruct (f_deltaData m) as [delta|] eqn:Hdl.
  - destruct (lg_delta _ _ _ Hlg _ Hdl) as [Hdi Hds]. destruct (reset_delta E _ Hdi Hds) as [Hri Hrs].
    exists (os_reset delta). split_and!; [done|done|]. unfold delta_commit.
    destruct (f_slaves m) as [|n ns] eqn:Hs; [done|]. rewrite Hnext.
    destruct (run_stream E _ _) as [os dcs]. cbn [snd].
    destruct (match f_slaves _ with [] => _ | _ => _ end); [|done].
    destruct (_newInstanceData E _) as [d m2], (fill _ _ _ _ _) as [d' out']. by destruct (_ || _).
  - unfold full_commit. pose proof (newInstanceData_ok E m log Hlg) as Hn.
    destruct (_newInstanceData E m) as [d m1]. destruct Hn as (_ & Hi & Hs & _ & _ & Hb & _).
    unfold f_version, f_slaves in *. rewrite Hb, Hnext.
    exists (id_os d). split_and!; [done|done|].
    pose proof (fill_ok E Hbuf Hname d (m_version (f_base m) + 1) (connections_of E (m_slaves (f_base m)))
      (getInstanceData object) Hi Hs Hw Hl) as Hf.
    destruct (fill _ _ _ _ _) as [d' out]. destruct Hf as (_ & _ & _ & ->). by destruct (hasSentData _).
Qed.

Lemma obsolete_base (m : master) : f_base (_obsolete E m) = f_base m.
Proof. unfold _obsolete. by destruct (obsolete_loop _ _ _ _ _). Qed.

Lemma commit_step_ok (m : master) log object incarnation v m' out :
  master_ok m log -> object_ok object -> advancing m incarnation -> connected E m -> log_room log ->
  commit E m object incarnation = Some (v, m', out) ->
  master_ok m' (if isDirty object && commits m object then log ++ [concat (getInstanceData object)] else log) /\
  v = f_version m'.
Proof.
  intros [Hlg Hr Hs] Ho Ha Hc Hlr. unfold commit.
  destruct (updateCommitCount_ok E m log incarnation Hlg Ha) as (Hlg1 & _ & Hb1 & Hd1).
  set (m1 := _updateCommitCount E m incarnation) in *.
  destruct (isDirty object); cbn [negb andb].
  - destruct (may_commit (f_base m)); cbn [negb]; [|done].
    assert (connected E m1) as Hc1 by (unfold connected, f_slaves in *; by rewrite Hb1).
    pose proof (commit_ok E Hbuf Hname m1 log object Hlg1 Ho Hc1 Hlr) as Hlg2.
    pose proof (commit_slaves m1 object) as Hs2. rewrite Hb1 in Hs2. specialize (Hs2 Hs).
    assert (commits m1 object = commits m object) as Ecm by (unfold commits, f_slaves; by rewrite Hb1, Hd1).
    rewrite Ecm in Hlg2.
    destruct (_commit E m1 object) as [m2 out2]. cbn [fst] in *. intros [= <- <- <-].
    destruct (obsolete_ok E m2 _ Hlg2) as [Hlg3 Hr3]. split; [|done]. split; try done.
    by rewrite obsolete_base.
  - intros [= <- <- <-]. destruct (obsolete_ok E m1 _ Hlg1) as [Hlg3 Hr3]. split; [|done]. split; try done.
    by rewrite obsolete_base, Hb1.
Qed.

Lemma addSlave_ok (m : master) log command :
  master_ok m log -> is_u64 (mc_maxVersion command) ->
  master_ok (full_addSlave E m command).1.2 log.
Proof.
  intros [Hlg Hr Hs] Hmv.
  assert (forall m1 : master, logged E m1 log -> recent m1 -> f_base m1 = f_base m ->
    master_ok (set_f_base (subscribe command (f_base m1)) m1) log) as Hsub.
  { intros m1 Hlg1 Hr1 Hb1. split; [|done|].
    - apply logged_base; [done|]. unfold subscribe, _updateMaxVersion. by case_match.
    - cbn. rewrite Hb1. by apply subscribe_ok. }
  unfold full_addSlave, _addSlave. destruct (_ =? VERSION_NONE); [by apply Hsub|].
  unfold full_initSlave. destruct (map_range _ _ _) as [first last_].
  destruct Hlg as [Hv (old & kept & -> & Hk & Hi) Hss Hct Hcc Hnv Hca Hdl].
  pose proof (skip_datas_ok E command first last_ _ _ _ Hi) as Hsk.
  destruct (skip_datas E command first last_ (f_instanceDatas m)) as [l' out]. destruct Hsk as (Hi' & Hcts & _).
  assert (logged E (set_f_instanceDatas l' m) (old ++ kept)) as Hlg1.
  { split; cbn -[counts]; try done; [eauto|by rewrite Hcts..]. }
  assert (recent (set_f_instanceDatas l' m)) as Hr1.
  { unfold recent in *. cbn. clear -Hr Hcts. unfold counts in Hcts. revert Hcts Hr.
    destruct (f_instanceDatas m) as [|d l], l' as [|d' l']; try done. rewrite !fmap_cons. intros [= _ Hcts].
    simpl. intros Hr. apply (proj2 (Forall_fmap id_commitCount (fun c => f_commitCount m <= c + f_nVersions m) l)) in Hr.
    rewrite <-Hcts in Hr. by apply (proj1 (Forall_fmap id_commitCount _ l')) in Hr. }
  destruct out; apply Hsub; done.
Qed.

Lemma master_step_ok (m : master) log op m' out :
  master_ok m log -> op_ok E m log op -> master_step E m op = Some (m', out) ->
  master_ok m' (log_step m log op).
Proof.
  intros Hok Hop. pose proof Hok as [Hlg Hr Hs]. destruct op; cbn [master_step op_ok log_step] in *.
  - destruct Hop as (Ho & Ha & Hc & Hlr). destruct (commit E m object incarnation) as [[[v m1] o1]|] eqn:Ec; [|done].
    intros [= <- <-]. by eapply commit_step_ok.
  - intros [= <- <-]. pose proof (logged_nVersions E m log count Hlg Hop) as Hlg1.
    destruct (obsolete_ok E _ _ Hlg1) as [Hlg2 Hr2]. split; try done. unfold setAutoObsolete. by rewrite obsolete_base.
  - pose proof (addSlave_ok m log command Hok Hop) as Ha.
    destruct (full_addSlave E m command) as [[ok m1] o1]. by intros [= <- <-].
  - intros [= <- <-]. split; [|done|by apply removeSlave_ok]. apply logged_base; [done|].
    unfold removeSlave, _updateMaxVersion. repeat case_match; done.
  - intros [= <- <-]. split; [|done|by apply removeSlaves_ok]. apply logged_base; [done|].
    unfold removeSlaves, _updateMaxVersion. repeat case_match; done.
  - intros [= <- <-]. split; [|done|by apply setMaxVersion_ok]. apply logged_base; [done|].
    unfold setMaxVersion, _updateMaxVersion. repeat case_match; done.
  - intros [= <- <-]. unfold _cmdSlaveDelta. repeat case_match. cbn [snd]. split; [|done|by destruct Hs; split].
    by apply logged_base.
  - intros [= Eq]. unfold full_push in Eq.
    match type of Eq with with_back m ?f = _ => pose proof (with_back_ok m log f Hlg Hr) as Hw end.
    destruct Hw as (Hl & Hr' & Hb).
    { intros os _. pose proof (resend_with_ok (connections_of E nodes) (fun os => os_push (e_be E) (e_threshold E)
        (e_id E) (e_instanceID E) CO_INSTANCE_INVALID (e_uuid E) os (connections_of E nodes))) as Hrw.
      specialize (Hrw ltac:(intros; unfold os_push; eauto) os).
      destruct (resend_with _ _ os) as [os' o']. exact Hrw. }
    rewrite Eq in *. split; try done. cbn [fst] in Hb. by rewrite Hb.
  - unfold full_sendSync. destruct (sync_useCache _ _ _); [by intros [= <- <-]|].
    destruct (with_back_ok m log (resend_with (fun os => os_sync (e_be E) (e_threshold E) (e_id E) (e_instanceID E)
        CO_INSTANCE_INVALID (e_uuid E) os (getNodeID (mc_node command)) (mc_requestID command)
        (connections_of E [mc_node command])) (connections_of E [mc_node command])) Hlg Hr) as (Hl & Hr' & Hb).
    { intros os _. apply resend_with_ok. intros; unfold os_sync; eauto. }
    destruct (with_back m _) as [m1 o1]. cbn [fst] in *. intros [= <- <-]. split; try done. by rewrite Hb.
  - intros [= Eq]. unfold full_sendInstanceData in Eq. destruct (f_slaves m); [|by injection Eq as <- <-].
    match type of Eq with with_back m ?f = _ => pose proof (with_back_ok m log f Hlg Hr) as Hw end.
    destruct Hw as (Hl & Hr' & Hb).
    { intros os _. apply resend_with_ok. intros; unfold sendInstanceData; eauto. }
    rewrite Eq in *. split; try done. cbn [fst] in Hb. by rewrite Hb.
Qed.

Lemma may_commit_spec (m : master) log :
  master_ok m log -> log_room log ->
  may_commit (f_base m) = true <->
  Forall (fun sd => f_version m + 1 <= sd_maxVersion sd) (m_slaveData (f_base m)).
Proof.
  intros [[Hv _ _ _ _ _ _ _] _ [Hmax _ _ _]] Hlr. unfold may_commit. rewrite Hmax.
  unfold f_version in *. rewrite Hv. unfold log_room, VERSION_NEWEST in Hlr.
  rewrite !u64_small by (unfold is_u64; rewrite ?u64_small; unfold is_u64; lia).
  rewrite Z.geb_le, min_bound_le. unfold max_u64.
  split; [by intros [_ ?]|]. intros ?. split; [lia|done].
Qed.

Lemma master_run_ok delta (m : master) log : master_run E delta m log -> master_ok m log.
Proof.
  induction 1 as [object Ho|m log op m' out _ IH Hop Hst]; [by apply init_ok|by eapply master_step_ok].
Qed.

End reachable.

(** ** Properties *)

Section properties.

Context `{!Pression, !PressionOk, !Lunchbox, !Network} (E : Env).
Context {Q : Type -> Type} `{!MTQueue Q}.

Abbreviation master := (FullMasterCM (Q := Q)).

Lemma check_items_ok cc nv v l kept :
  items_ok E v l kept -> 0 < v -> v + Z.of_nat (length kept) <= VERSION_NEWEST ->
  Forall (fun d => 0 <= id_commitCount d <= cc) l -> 0 <= nv -> cc + nv < 2 ^ 32 ->
  Forall (fun d => cc <= id_commitCount d + nv) (tail l) ->
  check_items cc nv (v + Z.of_nat (length kept) - 1) (reverse l) = true.
Proof.
  revert kept. induction l as [|d l IH] using rev_ind; intros kept Hi Hv Hb Hct Hnv Hcc Hr; [done|].
  apply items_ok_app in Hi as (k1 & [|x [|]] & -> & Hi & Hd); simpl in Hd; try naive_solver.
  destruct Hd as [(_ & Hver & _) _]. apply Forall_app in Hct as [Hct [Hcd _]%Forall_cons].
  rewrite reverse_snoc, length_app. cbn [check_items length]. rewrite Hver.
  replace (v + Z.of_nat (length k1 + 1) - 1) with (v + Z.of_nat (length k1)) by lia.
  rewrite (proj2 (Z.eqb_neq _ VERSION_NONE)) by (unfold VERSION_NONE; lia). rewrite Z.eqb_refl.
  rewrite length_app in Hb. cbn [length] in Hb. cbn [negb andb].
  apply andb_true_intro. split.
  - destruct (reverse l) eqn:Er; [done|]. destruct l as [|d0 l]; [done|]. simpl in Hr.
    apply Forall_app in Hr as [_ [Hr _]%Forall_cons].
    change (2 ^ 32) with 4294967296 in Hcc. rewrite u32_small by (unfold is_u32; lia). lia.
  - destruct k1 as [|x1 k1]; [destruct l; [done|by destruct Hi]|].
    unfold u128. rewrite Z.mod_small by (cbn [length] in *; unfold VERSION_NEWEST in *; lia).
    apply IH; try done; [cbn [length] in *; lia|]. destruct l; [done|]. simpl in *. by apply Forall_app in Hr as [? _].
Qed.

(** C2: The master keeps the log of its versions.  Through commits, auto-obsoletion,
    subscriptions, pushes and syncs in any order, with incarnations that do not
    decrease, the head version is the number of versions made; the data items hold
    the instance data of the newest versions, consecutively numbered up to the
    head, at least one of them; and the conditions [_checkConsistency] asserts
    hold.  This is a refinement of an append-only log of instance data. *)
Theorem master_keeps_log delta (m : master) log :
  0 <= e_bufferSize E -> e_compressor E <> EQ_COMPRESSOR_NONE ->
  master_run E delta m log ->
  f_version m = Z.of_nat (length log) /\
  (exists old kept, log = old ++ kept /\ kept <> [] /\
     items_ok E (Z.of_nat (length old) + 1) (f_instanceDatas m) kept) /\
  (Z.of_nat (length log) < VERSION_NEWEST -> f_commitCount m + f_nVersions m < 2 ^ 32 ->
     _checkConsistency m = true).
Proof.
  intros Hbuf Hname Hrun. destruct (master_run_ok E Hbuf Hname delta m log Hrun) as [Hlg Hr _].
  pose proof (logged_nonempty E m log Hlg) as Hne.
  destruct Hlg as [Hv (old & kept & -> & Hk & Hi) Hs Hct Hcc Hnv Hca Hdl].
  split_and!; [done|by exists old, kept|]. intros Hb Hw. unfold _checkConsistency.
  destruct (f_instanceDatas m) as [|d l] eqn:El; [done|]. rewrite <-El in *.
  apply orb_true_intro. right. rewrite Hv, length_app in *.
  replace (Z.of_nat (length old + length kept)) with (Z.of_nat (length old) + 1 + Z.of_nat (length kept) - 1) by lia.
  apply (check_items_ok _ _ _ _ kept); try done; try lia.
  - by apply (proj1 (Forall_fmap id_commitCount (fun c => 0 <= c <= f_commitCount m) _)) in Hct.
  - unfold is_u32 in Hnv. lia.
Qed.

(** Auto-obsoletion keeps what it should.  [_obsolete] drops exactly the items
    committed more than [_nVersions] commits before the current one, except that
    the newest item always stays. *)
Theorem obsolete_exact (m : master) log :
  logged E m log ->
  f_instanceDatas (_obsolete E m) =
    match filter (fun d => f_commitCount m <= id_commitCount d + f_nVersions m) (f_instanceDatas m) with
    | [] => option_list (last (f_instanceDatas m))
    | l => l
    end.
Proof.
  intros Hlg. pose proof (logged_nonempty E m log Hlg) as Hne.
  destruct Hlg as [Hv (old & kept & -> & Hk & Hi) Hs Hct Hcc Hnv Hca Hdl]. unfold _obsolete.
  pose proof (obsolete_loop_spec E (f_commitCount m) (f_nVersions m) (f_instanceDatas m)
    (f_instanceDataCache m) Hcc Hnv (items_idle E _ _ _ Hi) Hca) as Hloop.
  destruct (obsolete_loop _ _ _ _ _) as [l' cache']. destruct Hloop as (dropped & El & Hne' & _ & Hdr & Hhd).
  cbn [f_instanceDatas set_f_instanceDatas]. rewrite El in Hs, Hct |- *. rewrite counts_app in Hs, Hct.
  apply StronglySorted_app in Hs as (_ & _ & Hs2). apply Forall_app in Hct as [_ Hct].
  rewrite filter_app, (filter_none _ dropped) by (eapply Forall_impl; [exact Hdr|]; simpl; lia).
  rewrite app_nil_l. specialize (Hne' Hne). destruct l' as [|d [|d2 l2]]; [done| |].
  - rewrite last_snoc. rewrite filter_cons, filter_nil. by case_decide.
  - rewrite filter_all; [done|]. apply StronglySorted_inv in Hs2 as [_ Hall].
    apply Forall_cons in Hct as [Hd0 Hct].
    apply (proj1 (Forall_fmap id_commitCount (Z.le (id_commitCount d)) (d2 :: l2))) in Hall.
    unfold is_u32 in *. constructor; [lia|]. eapply Forall_impl; [exact Hall|]. simpl. lia.
Qed.

(** C29: Auto-obsoletion keeps what it should.  In every reachable state of a master
    [setAutoObsolete] drops exactly the items committed more than [count] commits
    before the current one, except that the newest item always stays, so that there
    is data for new slaves; the head version stays the same. *)
Theorem auto_obsolete_exact delta (m : master) log count :
  0 <= e_bufferSize E -> e_compressor E <> EQ_COMPRESSOR_NONE ->
  master_run E delta m log -> is_u32 count ->
  let m' := setAutoObsolete E m count in
  f_version m' = f_version m /\ f_instanceDatas m' <> [] /\
  f_instanceDatas m' =
    match filter (fun d => f_commitCount m <= id_commitCount d + count) (f_instanceDatas m) with
    | [] => option_list (last (f_instanceDatas m))
    | l => l
    end.
Proof.
  intros Hbuf Hname Hrun Hc. destruct (master_run_ok E Hbuf Hname delta m log Hrun) as [Hlg _ _].
  pose proof (logged_nVersions E m log count Hlg Hc) as Hlg1. destruct (obsolete_ok E _ _ Hlg1) as [Hlg2 _].
  cbn zeta. split_and!; [unfold setAutoObsolete, f_version; by rewrite obsolete_base|apply (logged_nonempty E _ _ Hlg2)|apply (obsolete_exact _ _ Hlg1)].
Qed.

(** A commit that is not dirty, or that the bound allows, returns. *)
Lemma commit_blocks (m : master) object incarnation :
  commit E m object incarnation = None <-> isDirty object = true /\ may_commit (f_base m) = false.
Proof.
  unfold commit. destruct (isDirty object); cbn [negb]; [|split; [done|by intros []]].
  destruct (may_commit (f_base m)); cbn [negb]; [|done]. destruct (_commit _ _ _). split; [done|by intros []].
Qed.

(** C28: A commit waits exactly for its slaves.  In every reachable state a commit
    blocks if and only if the object is dirty and some slave's bound lies below
    the next version.  A commit that returns gives the master's new version, the
    current one or the next, and if the object is dirty the next version is within
    the bound of every slave. *)
Theorem commit_waits delta (m : master) log object incarnation :
  0 <= e_bufferSize E -> e_compressor E <> EQ_COMPRESSOR_NONE ->
  master_run E delta m log -> object_ok object -> advancing m incarnation -> connected E m -> log_room log ->
  (commit E m object incarnation = None <->
     isDirty object = true /\
     Exists (fun sd => sd_maxVersion sd < f_version m + 1) (m_slaveData (f_base m))) /\
  (forall v m' out, commit E m object incarnation = Some (v, m', out) ->
     v = f_version m' /\
     v = (if isDirty object && commits m object then f_version m + 1 else f_version m) /\
     (isDirty object = true ->
        Forall (fun sd => f_version m + 1 <= sd_maxVersion sd) (m_slaveData (f_base m)))).
Proof.
  intros Hbuf Hname Hrun Ho Ha Hc Hlr. pose proof (master_run_ok E Hbuf Hname delta m log Hrun) as Hok.
  pose proof (may_commit_spec E m log Hok Hlr) as Hmay. split.
  - rewrite commit_blocks. apply and_iff_compat_l.
    rewrite <-not_true_iff_false, Hmay. split.
    + intros Hn%not_Forall_Exists; [|solve_decision]. eapply Exists_impl; [exact Hn|]. simpl. lia.
    + intros He Hf. apply Exists_exists in He as (sd & Hin & Hlt).
      pose proof (proj1 (Forall_forall _ _) Hf sd Hin). simpl in *. lia.
  - intros v m' out Ec.
    destruct (commit_step_ok E Hbuf Hname m log object incarnation v m' out Hok Ho Ha Hc Hlr Ec)
      as [[[Hv' _ _ _ _ _ _ _] _ _] ->].
    split; [done|]. split.
    + destruct Hok as [[Hv _ _ _ _ _ _ _] _ _]. rewrite Hv', Hv.
      destruct (isDirty object && commits m object); rewrite ?length_app; simpl; lia.
    + intros Hd. apply Hmay. destruct (may_commit (f_base m)) eqn:Hm; [done|].
      assert (commit E m object incarnation = None) as Hn by (by apply commit_blocks). congruence.
Qed.

Lemma numbered_app v l1 l2 : numbered v (l1 ++ l2) = numbered v l1 ++ numbered (v + Z.of_nat (length l1)) l2.
Proof.
  revert v. induction l1 as [|x l1 IH]; intros v; simpl; [by rewrite Z.add_0_r|]. rewrite IH. do 2 f_equal.
  f_equal. lia.
Qed.

Lemma numbered_lt v l : Forall (fun e => e.1 < v + Z.of_nat (length l)) (numbered v l).
Proof.
  revert v. induction l as [|x l IH]; intros v; cbn [numbered length]; constructor; [simpl; lia|].
  eapply Forall_impl; [apply IH|]. simpl. lia.
Qed.

(** The versions a request covers: what is sent starts no earlier than the oldest
    item, and together with the slave's cache reaches the head. *)
Lemma map_range_covers (m : master) log command useCache :
  logged E m log -> Z.of_nat (length log) < VERSION_NEWEST ->
  0 < mc_requestedVersion command ->
  mc_requestedVersion command = VERSION_OLDEST \/ mc_requestedVersion command <= f_version m ->
  is_u64 (mc_minCachedVersion command) -> is_u64 (mc_maxCachedVersion command) ->
  exists old kept, log = old ++ kept /\ kept <> [] /\
    items_ok E (Z.of_nat (length old) + 1) (f_instanceDatas m) kept /\
    let start := map_start m (mc_requestedVersion command) in
    let '(first, last_) := map_range m command useCache in
    Z.of_nat (length old) < start <= first /\ start <= f_version m /\
    (mc_requestedVersion command <> VERSION_OLDEST -> mc_requestedVersion command <= start) /\
    forall v, start <= v <= f_version m -> first <= v <= last_ \/
      useCache = true /\ mc_minCachedVersion command <= v <= mc_maxCachedVersion command.
Proof.
  intros Hlg Hb Hpos Hreq Hmin Hmax. pose proof (logged_nonempty E m log Hlg) as Hne.
  destruct Hlg as [Hv (old & kept & -> & Hk & Hi) Hs Hct Hcc Hnv Hca Hdl].
  exists old, kept. split_and!; try done.
  assert (map_start m (mc_requestedVersion command) =
    if (mc_requestedVersion command =? VERSION_OLDEST) || (mc_requestedVersion command <? Z.of_nat (length old) + 1)
    then Z.of_nat (length old) + 1 else mc_requestedVersion command) as Hst.
  { unfold map_start. destruct (f_instanceDatas m) as [|d l]; [done|]. destruct kept as [|x kept]; [done|].
    destruct Hi as [(_ & -> & _) _]. done. }
  unfold map_range. revert Hst. generalize (map_start m (mc_requestedVersion command)). intros start Hst.
  assert (Z.of_nat (length old) < start <= f_version m /\
    (mc_requestedVersion command <> VERSION_OLDEST -> mc_requestedVersion command <= start)) as [Hbd Hle].
  { rewrite Hst, Hv, length_app. destruct kept; [done|]. cbn [length].
    destruct (Z.eqb_spec (mc_requestedVersion command) VERSION_OLDEST); cbn [orb]; [split; [lia|done]|].
    destruct (Z.ltb_spec (mc_requestedVersion command) (Z.of_nat (length old) + 1)); [lia|].
    destruct Hreq; [done|]. rewrite Hv, length_app in *. cbn [length] in *. lia. }
  clear Hst. unfold is_u64, VERSION_NEWEST in *. destruct useCache; cbv zeta; [|split_and!; try done; lia].
  assert (start <= f_version m) as Hsv by lia.
  destruct (Z.leb_spec (mc_minCachedVersion command) start) as [Hlo|Hlo]; cbn [andb];
    [destruct (Z.geb_spec (mc_maxCachedVersion command) start) as [Hhi|Hhi]|].
  - unfold u128. rewrite Z.mod_small by lia. split_and!; try done; lia.
  - destruct (Z.eqb_spec (mc_maxCachedVersion command) (f_version m)) as [He|He]; [lia|].
    split_and!; try done; try lia.
  - destruct (Z.eqb_spec (mc_maxCachedVersion command) (f_version m)) as [He|He];
      [|split_and!; try done; lia].
    unfold u128. rewrite Z.mod_small by lia. split_and!; try done; lia.
Qed.

(** C27: Mapping brings a slave up to date.  A slave that maps an object at the
    oldest or any existing version is told the version [start] it gets, the oldest
    one still held if the requested one is gone; between the success message and
    the reply it receives, in order and one command each, the instance data
    committed for the versions [first .. last]; every version from [start] to the
    head is among them or in the range the slave announced to have cached.  The
    slave's node is subscribed afterwards. *)
Theorem mapping_completes delta (m : master) log command :
  0 <= e_bufferSize E -> e_compressor E <> EQ_COMPRESSOR_NONE ->
  master_run E delta m log -> Z.of_nat (length log) < VERSION_NEWEST ->
  0 < mc_requestedVersion command ->
  mc_requestedVersion command = VERSION_OLDEST \/ mc_requestedVersion command <= f_version m ->
  is_u64 (mc_minCachedVersion command) -> is_u64 (mc_maxCachedVersion command) ->
  let useCache := mc_useCache command && (mc_masterInstanceID command =? e_instanceID E) in
  let start := map_start m (mc_requestedVersion command) in
  let '(first, last_) := map_range m command useCache in
  let '(ok, m', out) := full_addSlave E m command in
  ok = true /\ mc_node command ∈ f_slaves m' /\
  (exists dcs mc, out = [_sendMapSuccess E command mc] ++
       (MData [getConnection (mc_node command) true] <$> dcs) ++
       [_sendMapReply E command start true useCache mc] /\
     Forall2 (fun dc e => map_item E command dc e.1 e.2) dcs
       (filter (fun e => first <= e.1 <= last_) (numbered 1 log))) /\
  (mc_requestedVersion command <> VERSION_OLDEST -> mc_requestedVersion command <= start) /\
  forall v, start <= v <= f_version m -> first <= v <= last_ \/
    useCache = true /\ mc_minCachedVersion command <= v <= mc_maxCachedVersion command.
Proof.
  intros Hbuf Hname Hrun Hb Hpos Hreq Hmin Hmax useCache start.
  destruct (master_run_ok E Hbuf Hname delta m log Hrun) as [Hlg _ _].
  destruct (map_range_covers m log command useCache Hlg Hb Hpos Hreq Hmin Hmax)
    as (old & kept & -> & Hk & Hi & Hcov). fold start in Hcov.
  unfold full_addSlave, _addSlave. rewrite (proj2 (Z.eqb_neq _ _)) by (unfold VERSION_NONE; lia).
  fold useCache. unfold full_initSlave. fold start.
  destruct (map_range m command useCache) as [first last_]. destruct Hcov as ([Hold Hst] & _ & Hle & Hcov).
  pose proof (skip_datas_ok E command first last_ _ _ _ Hi) as Hsk.
  destruct (skip_datas E command first last_ (f_instanceDatas m)) as [l' out].
  destruct Hsk as (_ & _ & dcs & -> & Hf).
  assert (forall b : VersionedMasterCM (Q := Q), mc_node command ∈ m_slaves (subscribe command b)) as Hsub.
  { intros b. unfold subscribe. cbn -[usort]. apply elem_of_usort. set_solver. }
  assert (filter (fun e => first <= e.1 <= last_) (numbered 1 (old ++ kept)) =
    filter (fun e => first <= e.1 <= last_) (numbered (Z.of_nat (length old) + 1) kept)) as Hfil.
  { rewrite numbered_app, filter_app, filter_none; [simpl; by rewrite Z.add_comm|].
    eapply Forall_impl; [apply numbered_lt|]. simpl. lia. }
  rewrite <-Hfil in Hf. destruct dcs as [|dc dcs]; cbn [fmap list_fmap]; (split_and!; [done|apply Hsub| |done|done]).
  - by exists [], false.
  - by exists (dc :: dcs), true.
Qed.

Lemma items_tail (m : master) log l d1 d2 :
  logged E m log -> f_instanceDatas m = l ++ [d1; d2] ->
  os_version (id_os d1) = f_version m - 1 /\ os_version (id_os d2) = f_version m.
Proof.
  intros [Hv (old & kept & -> & _ & Hi) _ _ _ _ _ _] El. rewrite El in Hi.
  apply items_ok_app in Hi as (k1 & [|x1 [|x2 [|]]] & -> & _ & Hi); simpl in Hi; try naive_solver.
  destruct Hi as ((_ & Hv1 & _) & (_ & Hv2 & _) & _). rewrite Hv, Hv1, Hv2, !length_app. simpl. lia.
Qed.

Lemma update_decreasing (m : master) l d1 d2 incarnation :
  f_instanceDatas m = l ++ [d1; d2] -> incarnation < f_commitCount m -> incarnation <> CO_COMMIT_NEXT ->
  id_commitCount d1 <= incarnation -> incarnation < id_commitCount d2 ->
  _updateCommitCount E m incarnation =
    set_f_instanceDatas (l ++ [d1]) (set_f_instanceDataCache (released E d2 (f_instanceDataCache m))
      (set_f_commitCount incarnation m)).
Proof.
  intros El Hlt Hnx H1' H2'. unfold _updateCommitCount.
  rewrite (proj2 (Z.eqb_neq _ _)) by done. destruct (Z.geb_spec incarnation (f_commitCount m)); [lia|].
  cbn [f_instanceDatas set_f_commitCount f_instanceDataCache]. rewrite El, reverse_app.
  change (reverse [d1; d2]) with [d2; d1]. cbn [app].
  assert (forall cache, drop_future E incarnation (d2 :: d1 :: reverse l) cache =
    (d1 :: reverse l, released E d2 cache)) as ->.
  { intros cache. cbn [drop_future]. rewrite (proj2 (Z.leb_gt _ _)) by done.
    destruct (reverse l); [done|]. by rewrite (proj2 (Z.leb_le _ _)). }
  destruct (Z.gtb_spec (id_commitCount d1) incarnation); [lia|]. by rewrite reverse_cons, reverse_involutive.
Qed.

(** Obsoletion keeps a recent item and what follows it. *)
Lemma obsolete_keeps cc nv l d d' cache :
  is_u32 cc -> is_u32 nv -> Forall (fun d => idle E KInstance (id_os d)) (l ++ [d; d']) ->
  Forall (fun d => idle E KInstance (id_os d)) cache -> cc <= id_commitCount d + nv ->
  exists l2 cache', obsolete_loop E cc nv (l ++ [d; d']) cache = (l2 ++ [d; d'], cache').
Proof.
  intros Hcc Hnv Hl Hca Hd. pose proof (obsolete_loop_spec E cc nv (l ++ [d; d']) cache Hcc Hnv Hl Hca) as Hloop.
  destruct (obsolete_loop _ _ _ _ _) as [l' cache']. destruct Hloop as (dropped & Ed & _ & _ & Hdr & _).
  apply app_eq_app in Ed as (l2 & [[-> ->]|[-> E2]]); [by exists l2, cache'|].
  destruct l2 as [|x l2]; [by exists [], cache'; simpl in *; subst|]. exfalso. injection E2 as -> _.
  apply Forall_app in Hdr as [_ [Hd1 _]%Forall_cons]. lia.
Qed.

(** A gap before the newest item violates the consistency conditions. *)
Lemma gap_inconsistent (m : master) l d d' :
  f_instanceDatas m = l ++ [d; d'] -> os_version (id_os d) = f_version m - 2 ->
  0 < f_version m < VERSION_NEWEST -> _checkConsistency m = false.
Proof.
  intros El Hd Hv. unfold _checkConsistency. rewrite El. destruct (l ++ [d; d']) eqn:E3; [by destruct l|].
  rewrite <-E3. clear E3. unfold VERSION_NONE, VERSION_NEWEST in *.
  rewrite (proj2 (Z.eqb_neq (f_version m) 0)) by lia. cbn [orb].
  rewrite reverse_app. change (reverse [d; d']) with [d'; d]. cbn [app check_items].
  rewrite Hd. unfold u128. rewrite (Z.mod_small (f_version m - 1)) by lia.
  rewrite (proj2 (Z.eqb_neq (f_version m - 2) (f_version m - 1))) by lia.
  by rewrite !andb_false_r.
Qed.

(** A decreasing incarnation leaves a gap.  When a commit passes an incarnation
    below the current commit count, [_updateCommitCount] drops the items committed
    after it but resets [_version] only if the remaining newest item was also
    committed later.  If it was not, the next version still follows the dropped
    one: the new item's version is two above its predecessor's and the conditions
    of [_checkConsistency] no longer hold. *)
Theorem decreasing_incarnation_gap (m : master) log l d1 d2 object incarnation v m' out :
  0 <= e_bufferSize E -> e_compressor E <> EQ_COMPRESSOR_NONE ->
  logged E m log -> log_room log -> f_instanceDatas m = l ++ [d1; d2] -> f_deltaData m = None ->
  0 <= incarnation < f_commitCount m -> id_commitCount d1 <= incarnation < id_commitCount d2 ->
  incarnation <= id_commitCount d1 + f_nVersions m ->
  object_ok object -> getInstanceData object <> [] -> isDirty object = true ->
  commit E m object incarnation = Some (v, m', out) ->
  v = f_version m + 1 /\
  (exists l' d, f_instanceDatas m' = l' ++ [d1; d] /\ os_version (id_os d) = v /\
     os_version (id_os d1) = v - 2) /\
  _checkConsistency m' = false.
Proof.
  intros Hbuf Hname Hlg Hlr El Hdl Hinc Hcts Hnv [[Hw Hl] _] Hne Hdirty.
  pose proof (items_tail m log l d1 d2 Hlg El) as [Hv1 Hv2].
  pose proof (next_version E m log Hlg Hlr) as Hnext. pose proof (lg_version _ _ _ Hlg) as Hver.
  pose proof (lg_commitCount _ _ _ Hlg) as Hcc. pose proof (lg_nVersions _ _ _ Hlg) as Hnvr.
  assert (Forall (fun d => idle E KInstance (id_os d)) (l ++ [d1; d2])) as Hids.
  { rewrite <-El. destruct (lg_items _ _ _ Hlg) as (? & ? & _ & _ & Hi). by eapply items_idle. }
  pose proof (lg_cache _ _ _ Hlg) as Hca. unfold commit. rewrite Hdirty. cbn [negb].
  destruct (may_commit (f_base m)); cbn [negb]; [|done].
  rewrite (update_decreasing m l d1 d2 incarnation El) by (unfold is_u32, CO_COMMIT_NEXT in *; lia).
  set (m1 := set_f_instanceDatas _ _).
  assert (Forall (fun d => idle E KInstance (id_os d)) (f_instanceDataCache m1)) as Hca1.
  { apply released_idle; [|done]. apply Forall_app in Hids as [_ Hids].
    by apply Forall_cons in Hids as [_ [? _]%Forall_cons]. }
  unfold _commit. change (f_deltaData m1) with (f_deltaData m). rewrite Hdl. unfold full_commit.
  destruct (newInstanceData_idle E m1 Hca1) as (d & cache & -> & Hcc2 & Hi & Hs & Hcd).
  set (m2 := set_f_instanceDataCache cache m1). change (f_version m2) with (f_version m). rewrite Hnext.
  pose proof (fill_ok E Hbuf Hname d (f_version m + 1) (connections_of E (f_slaves m2)) (getInstanceData object)
    Hi Hs Hw Hl) as Hf.
  destruct (fill _ _ _ _ _) as [d' out']. destruct Hf as ((Hdi & Hdv & _) & Hdc & -> & _).
  rewrite bool_decide_eq_false_2 by done. cbn [negb].
  set (m3 := _addInstanceData d' _). unfold _obsolete.
  change (f_commitCount m3) with incarnation. change (f_nVersions m3) with (f_nVersions m).
  change (f_instanceDatas m3) with ((l ++ [d1]) ++ [d']). change (f_instanceDataCache m3) with cache.
  destruct (obsolete_keeps incarnation (f_nVersions m) l d1 d' cache) as (l2 & cache' & Eo); try done.
  { unfold is_u32 in *. lia. }
  { apply Forall_app in Hids as [Hids [Hid1 _]%Forall_cons]. apply Forall_app. split; [done|]. by apply Forall_cons_2, Forall_cons_2. }
  rewrite <-app_assoc. cbn [app]. rewrite Eo. intros [= <- <- <-].
  set (m4 := set_f_instanceDatas _ _). assert (f_version m4 = f_version m + 1) as Hv4 by done.
  split_and!; [done|exists l2, d'; split_and!; [done|done|lia]|].
  apply (gap_inconsistent m4 l2 d1 d'); [done|lia|]. unfold log_room in Hlr. lia.
Qed.

End properties.

(** ** Witnesses *)

Definition sample_env : Env := mkEnv false 0 100 33 1 2 7 true true Z.succ map_to_list.

Definition sample_object (data : bytes) : AppObject := mkAppObject true [data] [data].

#[local] Existing Instances store_Pression store_PressionOk native_Lunchbox sample_Network.

(** A master with versions 1 and 2, retaining fifty commits. *)
Definition sample_first : FullMasterCM (Q := list) :=
  (full_init sample_env (FullMasterCM_new sample_env false) (sample_object [1; 2])).1.

Definition sample_step (m : FullMasterCM (Q := list)) (op : master_op) : FullMasterCM (Q := list) :=
  match master_step sample_env m op with Some (m, _) => m | None => m end.

Definition sample_ops : list master_op :=
  [OpSetAutoObsolete 50; OpCommit (sample_object [3; 4; 5]) 7].

Definition sample_master : FullMasterCM (Q := list) := fold_left sample_step sample_ops sample_first.

Lemma sample_object_ok data : data <> [] -> object_ok (sample_object data).
Proof. intros Hd. repeat split; by repeat constructor. Qed.

Lemma sample_step_run m log op :
  master_run sample_env false m log -> op_ok sample_env m log op -> master_step sample_env m op <> None ->
  master_run sample_env false (sample_step m op) (log_step m log op).
Proof.
  intros Hrun Hop Hne. unfold sample_step. destruct (master_step sample_env m op) as [[m' out]|] eqn:E; [|done].
  by eapply run_step.
Qed.

Lemma sample_first_run :
  master_run sample_env false sample_first [concat (getInstanceData (sample_object [1; 2]))].
Proof. unfold sample_first. apply run_init. by apply sample_object_ok. Qed.

Lemma sample_run : master_run sample_env false sample_master [[1; 2]; [3; 4; 5]].
Proof.
  assert (log_step (sample_step sample_first (OpSetAutoObsolete 50))
    (log_step sample_first [concat (getInstanceData (sample_object [1; 2]))] (OpSetAutoObsolete 50))
    (OpCommit (sample_object [3; 4; 5]) 7) = [[1; 2]; [3; 4; 5]]) as <- by (by vm_compute).
  unfold sample_master, sample_ops. cbn [fold_left].
  apply sample_step_run; [apply sample_step_run; [apply sample_first_run|done|by vm_compute]| |by vm_compute].
  split_and!; [by apply sample_object_ok|by right; vm_compute|intros Hs; by vm_compute in Hs|by vm_compute].
Qed.

Lemma sample_logged : logged sample_env sample_master [[1; 2]; [3; 4; 5]].
Proof.
  apply (mo_logged _ _ _ (master_run_ok sample_env ltac:(done) ltac:(done) false _ _ sample_run)).
Qed.

Lemma master_keeps_log_witness : f_version sample_master = 2 /\ _checkConsistency sample_master = true.
Proof.
  destruct (master_keeps_log sample_env false sample_master [[1; 2]; [3; 4; 5]]) as (Hv & _ & Hc).
  - done.
  - done.
  - apply sample_run.
  - split; [exact Hv|]. by apply Hc.
Defined.

Lemma auto_obsolete_exact_witness :
  length (f_instanceDatas (setAutoObsolete sample_env sample_master 0)) = 1%nat /\
  length (f_instanceDatas (setAutoObsolete sample_env sample_master 7)) = 2%nat.
Proof.
  split.
  - destruct (auto_obsolete_exact sample_env false sample_master [[1; 2]; [3; 4; 5]] 0) as (_ & _ & ->);
      [done|done|apply sample_run|by vm_compute|by vm_compute].
  - destruct (auto_obsolete_exact sample_env false sample_master [[1; 2]; [3; 4; 5]] 7) as (_ & _ & ->);
      [done|done|apply sample_run|by vm_compute|by vm_compute].
Defined.

Lemma obsolete_exact_witness :
  length (f_instanceDatas (_obsolete sample_env (set_f_nVersions 0 sample_master))) = 1%nat.
Proof.
  rewrite (obsolete_exact sample_env (set_f_nVersions 0 sample_master) [[1; 2]; [3; 4; 5]]).
  - by vm_compute.
  - apply logged_nVersions; [apply sample_logged|by vm_compute].
Defined.

(** The same master with a slave that allows no version after the current one. *)
Definition sample_full : FullMasterCM (Q := list) :=
  fold_left sample_step
    [OpAddSlave (mkMasterCMCommand 3 VERSION_OLDEST VERSION_HEAD 0 33 1 9 4 CO_INSTANCE_INVALID false);
     OpMaxVersion 3 2 4] sample_master.

Lemma sample_full_run : master_run sample_env false sample_full [[1; 2]; [3; 4; 5]].
Proof.
  apply (sample_step_run _ [[1; 2]; [3; 4; 5]] (OpMaxVersion 3 2 4)); [|by vm_compute|by vm_compute].
  apply (sample_step_run _ [[1; 2]; [3; 4; 5]] (OpAddSlave _)); [|by vm_compute|by vm_compute].
  apply sample_run.
Qed.

(** A commit that waits: the bound of slave 3 is the current version. *)
Lemma commit_waits_witness :
  commit sample_env sample_full (sample_object [6]) CO_COMMIT_NEXT = None.
Proof.
  apply (commit_waits sample_env false sample_full [[1; 2]; [3; 4; 5]] (sample_object [6]) CO_COMMIT_NEXT
    ltac:(done) ltac:(done) sample_full_run (sample_object_ok [6] ltac:(done)) ltac:(by left; vm_compute)
    ltac:(intros _ Hs; by vm_compute in Hs) ltac:(by vm_compute)).
  split; [done|]. apply Exists_exists. exists (mkSlaveData 3 2 4). split; [|by vm_compute].
  replace (m_slaveData (f_base sample_full)) with [mkSlaveData 3 2 4] by (by vm_compute). by apply list_elem_of_singleton.
Defined.

Definition sample_map : MasterCMCommand :=
  mkMasterCMCommand 3 VERSION_OLDEST VERSION_HEAD 0 33 0 9 4 CO_INSTANCE_INVALID false.

Lemma mapping_completes_witness : 3 ∈ f_slaves (full_addSlave sample_env sample_master sample_map).1.2.
Proof.
  pose proof (mapping_completes sample_env false sample_master [[1; 2]; [3; 4; 5]] sample_map
    ltac:(done) ltac:(done) sample_run ltac:(done) ltac:(done) ltac:(by left) ltac:(done) ltac:(done)) as Hm.
  cbv zeta in Hm. destruct (map_range _ _ _) as [first last_].
  destruct (full_addSlave sample_env sample_master sample_map) as [[ok m'] out].
  apply Hm.
Defined.

Lemma decreasing_incarnation_gap_witness :
  match commit sample_env sample_master (sample_object [6]) 5 with
  | Some (v, m', _) => v = f_version sample_master + 1 /\ _checkConsistency m' = false
  | None => False
  end.
Proof.
  destruct (commit sample_env sample_master (sample_object [6]) 5) as [[[v m'] out]|] eqn:E; [|by vm_compute in E].
  assert (counts (f_instanceDatas sample_master) = [0; 7]) as Hcounts by (by vm_compute).
  destruct (f_instanceDatas sample_master) as [|d1 [|d2 [|]]] eqn:Ed; try done. injection Hcounts as Hc1 Hc2.
  destruct (decreasing_incarnation_gap sample_env sample_master [[1; 2]; [3; 4; 5]] [] d1 d2 (sample_object [6]) 5
    v m' out) as (Hv & _ & Hc).
  - done.
  - done.
  - apply sample_logged.
  - by vm_compute.
  - exact Ed.
  - by vm_compute.
  - by vm_compute.
  - rewrite Hc1, Hc2. lia.
  - rewrite Hc1. by vm_compute.
  - by apply sample_object_ok.
  - done.
  - done.
  - exact E.
  - by split.
Defined.
