(* ===== verification/SlaveCM.v ===== *)
(** * Slave change managers (co/versionedSlaveCM.cpp, co/staticSlaveCM.cpp)

    A slave instance collects the data commands of one version at a time, queues
    complete versions and applies them to the application's object when it is
    synchronised.  After applying a version it may acknowledge it to the master,
    which bounds how far the master runs ahead.  Slave commits are streamed to
    the master. *)

From S2P Require Import Prelude Bytes Lunchbox DataOStream DataIStream Serialize Transfer Commands ObjectStreams Connections ObjectCM.

Section slave.

Context `{!Pression, !Lunchbox, !Network} (E : Env).
Context {Q : Type -> Type} `{!MTQueue Q}.

#[local] Hint Extern 0 (BufferSource ObjectDataIStream) =>
  exact (ObjectDataIStream_source (e_be E)) : typeclass_instances.

(** The application's object: its state and what [applyInstanceData], [unpack]
    and [getMaxVersions] do. *)
Context {App : Type} (applyInstanceData unpack : App -> DataIStream ObjectDataIStream -> App).
Context (getMaxVersions : Z).

(** [Node::isReachable]. *)
Context (isReachable : Z -> bool).

Record VersionedSlaveCM := mkVersionedSlaveCM {
  s_version : Z;
  s_currentIStream : option ObjectDataIStream;
  s_queuedVersions : Q ObjectDataIStream;
  s_ostream : ObjectDataOStream;
  s_master : Z;
  s_masterInstanceID : Z
}.

Definition set_s_version (v : Z) (s : VersionedSlaveCM) : VersionedSlaveCM :=
  mkVersionedSlaveCM v (s_currentIStream s) (s_queuedVersions s) (s_ostream s) (s_master s) (s_masterInstanceID s).
Definition set_s_currentIStream (v : option ObjectDataIStream) (s : VersionedSlaveCM) : VersionedSlaveCM :=
  mkVersionedSlaveCM (s_version s) v (s_queuedVersions s) (s_ostream s) (s_master s) (s_masterInstanceID s).
Definition set_s_queuedVersions (v : Q ObjectDataIStream) (s : VersionedSlaveCM) : VersionedSlaveCM :=
  mkVersionedSlaveCM (s_version s) (s_currentIStream s) v (s_ostream s) (s_master s) (s_masterInstanceID s).
Definition set_s_ostream (v : ObjectDataOStream) (s : VersionedSlaveCM) : VersionedSlaveCM :=
  mkVersionedSlaveCM (s_version s) (s_currentIStream s) (s_queuedVersions s) v (s_master s) (s_masterInstanceID s).
Definition set_s_master (v : Z) (s : VersionedSlaveCM) : VersionedSlaveCM :=
  mkVersionedSlaveCM (s_version s) (s_currentIStream s) (s_queuedVersions s) (s_ostream s) v (s_masterInstanceID s).
Definition set_s_masterInstanceID (v : Z) (s : VersionedSlaveCM) : VersionedSlaveCM :=
  mkVersionedSlaveCM (s_version s) (s_currentIStream s) (s_queuedVersions s) (s_ostream s) (s_master s) v.

Definition VersionedSlaveCM_init (masterInstanceID : Z) : VersionedSlaveCM :=
  mkVersionedSlaveCM VERSION_NONE None q_empty (new_stream E KSlave) 0 masterInstanceID.

Definition setMasterNode (node : Z) (sl : VersionedSlaveCM) : VersionedSlaveCM := set_s_master node sl.

(** Returns the identifier of the commit, [VERSION_NONE] if nothing was sent. *)
Definition slave_commit (sl : VersionedSlaveCM) (object : AppObject) :
    Z * VersionedSlaveCM * list Message :=
  if negb (isDirty object) || (s_master sl =? 0) || negb (isReachable (s_master sl))
  then (VERSION_NONE, sl, [])
  else
    let conn := getConnection (s_master sl) false in
    let os := enableSlaveCommit (e_uuid E) (s_ostream sl) conn in
    let '(os, dcs) := os_session (e_be E) (e_threshold E) (e_bufferSize E) (e_id E) (e_instanceID E)
                        (s_masterInstanceID sl) (e_uuid E) os (pack object) in
    (if hasSentData (os_base os) then os_version os else VERSION_NONE,
     set_s_ostream os sl, MData [conn] <$> dcs).

Definition _sendAck (sl : VersionedSlaveCM) : list Message :=
  let maxVersion := u64 (u64 (s_version sl) + getMaxVersions) in
  if maxVersion <=? u64 (s_version sl) then []
  else [MObject [getConnection (s_master sl) false] CMD_OBJECT_MAX_VERSION (s_masterInstanceID sl)
          (write_item (e_be E) 8 maxVersion ++ write_item (e_be E) 4 (e_instanceID E))].

Definition _unpackOneVersion (sl : VersionedSlaveCM) (app : App) (stream : ObjectDataIStream) :
    VersionedSlaveCM * App * list Message :=
  let ist := DataIStream_init false stream in
  let app := if hasInstanceData stream then applyInstanceData app ist else unpack app ist in
  let sl := set_s_version (is_version stream) sl in
  (sl, app, _sendAck sl).

(** The loop of [_syncToHead]. *)
Fixpoint syncToHead_loop (fuel : nat) (sl : VersionedSlaveCM) (app : App) :
    VersionedSlaveCM * App * list Message :=
  match fuel with
  | O => (sl, app, [])
  | Datatypes.S fuel =>
      match q_pop (s_queuedVersions sl) with
      | None => (sl, app, [])
      | Some (stream, q) =>
          let '(sl, app, out) := _unpackOneVersion (set_s_queuedVersions q sl) app stream in
          let '(sl, app, out') := syncToHead_loop fuel sl app in
          (sl, app, out ++ out')
      end
  end.

Definition _syncToHead (sl : VersionedSlaveCM) (app : App) : VersionedSlaveCM * App * list Message :=
  syncToHead_loop (length (q_contents (s_queuedVersions sl))) sl app.

(** The loop of [sync] to a version: the flag is false where it waits for more
    data, with the versions applied so far. *)
Fixpoint sync_loop (fuel : nat) (version : Z) (sl : VersionedSlaveCM) (app : App) :
    bool * VersionedSlaveCM * App * list Message :=
  if s_version sl <? version then
    match fuel with
    | O => (false, sl, app, [])
    | Datatypes.S fuel =>
        match q_pop (s_queuedVersions sl) with
        | None => (false, sl, app, [])
        | Some (stream, q) =>
            let '(sl, app, out) := _unpackOneVersion (set_s_queuedVersions q sl) app stream in
            let '(ok, sl, app, out') := sync_loop fuel version sl app in
            (ok, sl, app, out ++ out')
        end
    end
  else (true, sl, app, []).

Definition slave_sync (sl : VersionedSlaveCM) (app : App) (v : Z) :
    bool * VersionedSlaveCM * App * list Message :=
  if s_version sl =? v then (true, sl, app, [])
  else if v =? VERSION_HEAD then
    let '(sl, app, out) := _syncToHead sl app in (true, sl, app, out)
  else
    let version := if v =? VERSION_NEXT then u128 (s_version sl + 1) else v in
    sync_loop (length (q_contents (s_queuedVersions sl))) version sl app.

Definition slave_getHeadVersion (sl : VersionedSlaveCM) : Z :=
  match q_getBack (s_queuedVersions sl) with
  | Some stream => is_version stream
  | None => s_version sl
  end.

(** [applyMapData]: drop newer versions until the mapped one arrives; [None]
    where the code waits. *)
Fixpoint applyMapData_loop (fuel : nat) (version : Z) (sl : VersionedSlaveCM) (app : App) :
    option (VersionedSlaveCM * App) :=
  match fuel with
  | O => None
  | Datatypes.S fuel =>
      match q_pop (s_queuedVersions sl) with
      | None => None
      | Some (stream, q) =>
          let sl := set_s_queuedVersions q sl in
          if is_version stream =? version then
            let '(has, ist) := hasData (e_be E) (DataIStream_init false stream) in
            Some (set_s_version (is_version stream) sl, if has then applyInstanceData app ist else app)
          else applyMapData_loop fuel version sl app
      end
  end.

Definition applyMapData (version : Z) (sl : VersionedSlaveCM) (app : App) :
    option (VersionedSlaveCM * App) :=
  applyMapData_loop (length (q_contents (s_queuedVersions sl))) version sl app.

(** Split a cache into the streams to queue before (newest first) and after. *)
Fixpoint split_cache (startVersion oldest newest : Z) (cache head_ tail_ : list ObjectDataIStream) :
    list ObjectDataIStream * list ObjectDataIStream :=
  match cache with
  | [] => (head_, tail_)
  | stream :: cache =>
      let version := is_version stream in
      if version <? startVersion then split_cache startVersion oldest newest cache head_ tail_
      else if negb (isReady stream) then (head_, tail_)
      else if version <? oldest then split_cache startVersion oldest newest cache (stream :: head_) tail_
      else if version >? newest then split_cache startVersion oldest newest cache head_ (tail_ ++ [stream])
      else split_cache startVersion oldest newest cache head_ tail_
  end.

(** [ObjectDataIStream]'s copy: the commands and version, nothing read yet. *)
Definition copy_stream (stream : ObjectDataIStream) : ObjectDataIStream :=
  mkObjectDataIStream (is_commands stream) None (is_version stream).

Definition addInstanceDatas (cache : list ObjectDataIStream) (startVersion : Z) (sl : VersionedSlaveCM) :
    VersionedSlaveCM :=
  let version_of o := match o with Some stream => is_version stream | None => VERSION_NONE end in
  let oldest := version_of (q_getFront (s_queuedVersions sl)) in
  let newest := version_of (q_getBack (s_queuedVersions sl)) in
  let '(head_, tail_) := split_cache startVersion oldest newest cache [] [] in
  let q := fold_left (fun q stream => q_pushFront q (copy_stream stream)) head_ (s_queuedVersions sl) in
  let q := fold_left (fun q stream => q_push q (copy_stream stream)) tail_ q in
  set_s_queuedVersions q sl.

(** [_cmdData]; the version returned is the one the object is notified of. *)
Definition slave_cmdData (sl : VersionedSlaveCM) (command : ICommand) : option Z * VersionedSlaveCM :=
  let stream := default ObjectDataIStream_init (s_currentIStream sl) in
  let stream := addDataCommand (e_be E) stream command in
  if isReady stream
  then (Some (is_version stream),
        set_s_currentIStream None (set_s_queuedVersions (q_push (s_queuedVersions sl) stream) sl))
  else (None, set_s_currentIStream (Some stream) sl).

(** ** StaticSlaveCM *)

(** Its only state is the stream for the initial data, gone once it was applied. *)
Definition static_cmdInstance (current : ObjectDataIStream) (command : ICommand) : ObjectDataIStream :=
  addDataCommand (e_be E) current command.

(** [None] while [waitReady] waits. *)
Definition static_applyMapData (current : ObjectDataIStream) (app : App) : option App :=
  if isReady current then
    let '(has, ist) := hasData (e_be E) (DataIStream_init false current) in
    Some (if has then applyInstanceData app ist else app)
  else None.

Definition static_addInstanceDatas (cache : list ObjectDataIStream) (current : ObjectDataIStream) :
    ObjectDataIStream :=
  match cache with
  | [] => current
  | stream :: _ =>
      if negb (isReady stream) || negb (is_version stream =? VERSION_FIRST) then current
      else copy_stream stream
  end.

End slave.

(** ** Lemmas and properties *)

Section properties.

Context `{!Pression, !Lunchbox, !Network} (E : Env).
Context {Q : Type -> Type} `{!MTQueue Q, !MTQueueOk Q}.
Context {App : Type} (applyInstanceData unpack : App -> DataIStream ObjectDataIStream -> App).
Context (getMaxVersions : Z).

Abbreviation slave := (VersionedSlaveCM (Q := Q)).

(** What applying one queued version does to the object. *)
Definition apply_one (app : App) (stream : ObjectDataIStream) : App :=
  if hasInstanceData stream then applyInstanceData app (DataIStream_init false stream)
  else unpack app (DataIStream_init false stream).

(** The acknowledgement of a version. *)
Definition ack_of (sl : slave) (version : Z) : list Message :=
  _sendAck E getMaxVersions (set_s_version version sl).

Definition queue_of (sl : slave) : list ObjectDataIStream := q_contents (s_queuedVersions sl).

(** The queue holds the versions after the current one, without gaps. *)
Definition in_step (sl : slave) : Prop :=
  is_version <$> queue_of sl = seqZ (s_version sl + 1) (Z.of_nat (length (queue_of sl))).

(** The slave after applying the first [k] queued versions. *)
Definition advanced (sl sl' : slave) (k : nat) : Prop :=
  s_version sl' = s_version sl + Z.of_nat k /\ queue_of sl' = drop k (queue_of sl) /\
  s_currentIStream sl' = s_currentIStream sl /\ s_master sl' = s_master sl /\
  s_masterInstanceID sl' = s_masterInstanceID sl /\ s_ostream sl' = s_ostream sl.

Lemma pop_in_step (sl : slave) st sts :
  in_step sl -> queue_of sl = st :: sts ->
  exists q, q_pop (s_queuedVersions sl) = Some (st, q) /\
    let sl' := set_s_version (is_version st) (set_s_queuedVersions q sl) in
    is_version st = s_version sl + 1 /\ queue_of sl' = sts /\ in_step sl'.
Proof.
  intros Hin Hq. destruct (q_pop_cons _ _ _ _ Hq) as (q & Hp & Hc). exists q. split; [done|].
  unfold in_step in Hin. rewrite Hq in Hin. cbn [length] in Hin.
  rewrite fmap_cons, Nat2Z.inj_succ, seqZ_cons in Hin by lia. injection Hin as Hv Hvs.
  split_and!; [done|done|]. unfold in_step, queue_of. cbn. rewrite Hc, Hv, Hvs. f_equal; lia.
Qed.

Ltac solve_leb := cbn [length]; symmetry; first [apply Z.leb_gt; lia | apply Z.leb_le; lia].

(** The loop of [sync] applies the queued versions up to the target, and waits
    if they do not suffice. *)
Lemma sync_loop_spec fuel version (sl : slave) app :
  in_step sl -> (length (queue_of sl) <= fuel)%nat -> s_version sl <= version ->
  let k := Nat.min (Z.to_nat (version - s_version sl)) (length (queue_of sl)) in
  let '(ok, sl', app', out) :=
    sync_loop E applyInstanceData unpack getMaxVersions fuel version sl app in
  ok = (version <=? s_version sl + Z.of_nat (length (queue_of sl))) /\ advanced sl sl' k /\
  app' = fold_left apply_one (take k (queue_of sl)) app /\
  out = concat (ack_of sl <$> seqZ (s_version sl + 1) (Z.of_nat k)).
Proof.
  revert sl app. induction fuel as [|fuel IH]; intros sl app Hin Hf Hle k;
    cbn [sync_loop]; destruct (Z.ltb_spec (s_version sl) version) as [Hlt|Hge].
  - assert (queue_of sl = []) as Hq by (by destruct (queue_of sl); [|simpl in Hf; lia]).
    unfold k. rewrite Hq. cbn [length]. rewrite Nat.min_0_r. split_and!; try done; [solve_leb|].
    split_and!; try done; lia.
  - assert (k = 0%nat) as -> by lia. split_and!; try done; [solve_leb|]. split_and!; try done. lia.
  - destruct (queue_of sl) as [|st sts] eqn:Hq.
    + rewrite q_pop_nil by done. unfold k. cbn [length]. rewrite Nat.min_0_r.
      split_and!; try done; [solve_leb|]. split_and!; try done; lia.
    + destruct (pop_in_step sl st sts Hin Hq) as (q & -> & Hv & Hq' & Hin').
      unfold _unpackOneVersion. cbv zeta. set (sl1 := set_s_version (is_version st) _) in *.
      set (app1 := if hasInstanceData st then _ else _).
      cbn [length] in Hf.
      specialize (IH sl1 app1 Hin'). rewrite Hq' in IH.
      assert (s_version sl1 = s_version sl + 1) as Hv1 by done. rewrite Hv1 in IH.
      specialize (IH ltac:(lia) ltac:(lia)).
      destruct (sync_loop _ _ _ _ _ _ sl1 app1) as [[[ok sl2] app2] out2].
      destruct IH as (Hok & (A1 & A2 & A3 & A4 & A5 & A6) & Happ & Hout).
      assert (k = Datatypes.S (Nat.min (Z.to_nat (version - (s_version sl + 1))) (length sts))) as ->
        by (unfold k; rewrite ?Hq; cbn [length]; lia).
      set (k' := Nat.min _ _) in *. cbn [length]. split_and!.
      * rewrite Hok. f_equal. lia.
      * rewrite Hv1 in A1. split_and!; try done; [lia|]. rewrite A2, Hq', Hq. done.
      * rewrite Happ. done.
      * rewrite Hout, Nat2Z.inj_succ, (seqZ_cons (s_version sl + 1) (Z.succ (Z.of_nat k'))) by lia.
        rewrite fmap_cons, Z.pred_succ. unfold Z.succ. cbn [concat]. f_equal.
        unfold ack_of. by rewrite <-Hv.
  - assert (k = 0%nat) as -> by lia. split_and!; try done; [solve_leb|]. split_and!; try done. lia.
Qed.

(** Synchronising to the head is synchronising to the last queued version. *)
Lemma syncToHead_loop_sync fuel (sl : slave) app :
  in_step sl -> (length (queue_of sl) <= fuel)%nat ->
  syncToHead_loop E applyInstanceData unpack getMaxVersions fuel sl app =
    let '(_, sl', app', out) := sync_loop E applyInstanceData unpack getMaxVersions fuel
      (s_version sl + Z.of_nat (length (queue_of sl))) sl app in (sl', app', out).
Proof.
  revert sl app. induction fuel as [|fuel IH]; intros sl app Hin Hf; cbn [sync_loop syncToHead_loop].
  { by destruct (_ <? _). }
  destruct (queue_of sl) as [|st sts] eqn:Hq.
  - rewrite q_pop_nil by done. cbn [length]. by destruct (_ <? _).
  - destruct (pop_in_step sl st sts Hin Hq) as (q & -> & Hv & Hq' & Hin').
    rewrite (proj2 (Z.ltb_lt _ _)) by (cbn [length]; lia).
    unfold _unpackOneVersion. cbv zeta. set (sl1 := set_s_version (is_version st) _) in *.
    cbn [length] in Hf. rewrite (IH sl1) by (rewrite ?Hq'; first [done|lia]).
    rewrite Hq'. assert (s_version sl1 = s_version sl + 1) as -> by done. cbn [length].
    replace (s_version sl + 1 + Z.of_nat (length sts)) with (s_version sl + Z.of_nat (Datatypes.S (length sts))) by lia.
    by destruct (sync_loop _ _ _ _ _ _ _ _) as [[[ok sl2] app2] out2].
Qed.

Lemma sync_spec (sl : slave) app v :
  in_step sl -> v = VERSION_HEAD \/ v = VERSION_NEXT \/ s_version sl <= v ->
  0 <= s_version sl -> s_version sl + Z.of_nat (length (queue_of sl)) < VERSION_NEWEST ->
  let target := if v =? VERSION_HEAD then s_version sl + Z.of_nat (length (queue_of sl))
                else if v =? VERSION_NEXT then s_version sl + 1 else v in
  let k := Nat.min (Z.to_nat (target - s_version sl)) (length (queue_of sl)) in
  exists ok sl' app' out, slave_sync E applyInstanceData unpack getMaxVersions sl app v = (ok, sl', app', out) /\
  ok = (target <=? s_version sl + Z.of_nat (length (queue_of sl))) /\ advanced sl sl' k /\
  app' = fold_left apply_one (take k (queue_of sl)) app /\
  out = concat (ack_of sl <$> seqZ (s_version sl + 1) (Z.of_nat k)).
Proof.
  intros Hin Hv H0' Hb target.
  cut (let k := Nat.min (Z.to_nat (target - s_version sl)) (length (queue_of sl)) in
    let '(ok, sl', app', out) := slave_sync E applyInstanceData unpack getMaxVersions sl app v in
    ok = (target <=? s_version sl + Z.of_nat (length (queue_of sl))) /\ advanced sl sl' k /\
    app' = fold_left apply_one (take k (queue_of sl)) app /\
    out = concat (ack_of sl <$> seqZ (s_version sl + 1) (Z.of_nat k))).
  { intros Hc. destruct (slave_sync _ _ _ _ sl app v) as [[[ok sl'] app'] out]. eauto 10. }
  unfold slave_sync. unfold VERSION_HEAD, VERSION_NEXT, VERSION_NEWEST in *.
  destruct (Z.eqb_spec (s_version sl) v) as [He|Hne].
  { assert (target = v) as -> by (unfold target; repeat case_match; lia).
    rewrite <-He, Z.sub_diag. cbn [Z.to_nat Nat.min take fold_left drop Z.of_nat].
    split_and!; try done; [solve_leb|]. split_and!; try done. lia. }
  destruct (Z.eqb_spec v 18446744073709551615) as [->|Hh].
  - pose proof (sync_loop_spec (length (q_contents (s_queuedVersions sl))) target sl app Hin (Nat.le_refl _)
      ltac:(unfold target; lia)) as Hs. unfold _syncToHead.
    change (q_contents (s_queuedVersions sl)) with (queue_of sl) in *.
    rewrite (syncToHead_loop_sync _ sl app Hin (Nat.le_refl _)).
    change target with (s_version sl + Z.of_nat (length (queue_of sl))) in *.
    destruct (sync_loop _ _ _ _ _ _ sl app) as [[[ok sl'] app'] out]. destruct Hs as [_ Hs].
    split; [solve_leb|exact Hs].
  - destruct (Z.eqb_spec v 18446744073709551613) as [->|Hnx].
    + unfold u128. rewrite Z.mod_small by lia.
      apply (sync_loop_spec (length (q_contents (s_queuedVersions sl))) (s_version sl + 1) sl app Hin (Nat.le_refl _)); lia.
    + apply (sync_loop_spec (length (q_contents (s_queuedVersions sl))) v sl app Hin (Nat.le_refl _)).
      destruct Hv as [?|[?|?]]; lia.
Qed.

(** A slave applies versions in order, once each.  With a gap-free queue of
    versions after the current one, synchronising to a later version, to the next
    one or to the head applies exactly the versions up to it, oldest first, and
    acknowledges each; the remaining ones stay queued.  If the requested version
    has not arrived, everything available is applied and the call waits; a
    synchronisation to the head never waits. *)
Theorem sync_applies_in_order (sl : slave) app v :
  in_step sl -> v = VERSION_HEAD \/ v = VERSION_NEXT \/ s_version sl <= v ->
  0 <= s_version sl -> s_version sl + Z.of_nat (length (queue_of sl)) < VERSION_NEWEST ->
  let target := if v =? VERSION_HEAD then s_version sl + Z.of_nat (length (queue_of sl))
                else if v =? VERSION_NEXT then s_version sl + 1 else v in
  let k := Nat.min (Z.to_nat (target - s_version sl)) (length (queue_of sl)) in
  let '(ok, sl', app', out) := slave_sync E applyInstanceData unpack getMaxVersions sl app v in
  ok = (target <=? s_version sl + Z.of_nat (length (queue_of sl))) /\ advanced sl sl' k /\
  app' = fold_left apply_one (take k (queue_of sl)) app /\
  out = concat (ack_of sl <$> seqZ (s_version sl + 1) (Z.of_nat k)).
Proof.
  intros Hin Hv H0' Hb target k.
  destruct (sync_spec sl app v Hin Hv H0' Hb) as (ok & sl' & app' & out & -> & Hs). exact Hs.
Qed.


(** The mapped version is applied.  [applyMapData] discards versions that
    arrived before the mapped one and applies the instance data of the mapped
    version, if it has any; the slave is then at that version, and what is queued
    behind it stays. *)
Theorem map_data_applied (sl : slave) app v l1 st l2 :
  queue_of sl = l1 ++ st :: l2 -> is_version st = v -> v ∉ is_version <$> l1 ->
  exists sl', applyMapData E applyInstanceData v sl app =
    Some (sl', let '(has, ist) := @hasData _ _ (ObjectDataIStream_source (e_be E)) (e_be E)
                                   (DataIStream_init false st) in
               if has then applyInstanceData app ist else app) /\
    s_version sl' = v /\ queue_of sl' = l2.
Proof.
  intros Hq Hv Hl. unfold applyMapData. change (q_contents (s_queuedVersions sl)) with (queue_of sl).
  assert (exists fuel, length (queue_of sl) = fuel /\ (length l1 < fuel)%nat) as (fuel & -> & Hf)
    by (eexists; split; [done|]; rewrite Hq, length_app; simpl; lia).
  revert sl fuel Hq Hf. induction l1 as [|s1 l1 IH]; intros sl fuel Hq Hf; (destruct fuel as [|fuel]; [simpl in Hf; lia|]);
    cbn [applyMapData_loop]; destruct (q_pop_cons _ _ _ _ Hq) as (q & -> & Hc).
  - rewrite Hv, Z.eqb_refl. destruct (hasData _ _) as [has ist]. by eexists.
  - rewrite fmap_cons, not_elem_of_cons in Hl. destruct Hl as [Hl1 Hl]. rewrite (proj2 (Z.eqb_neq _ _)) by congruence.
    apply (IH Hl); [done|simpl in Hf; lia].
Qed.

(** *** Cached instance data *)

Lemma split_cache_spec start oldest newest cache h t :
  Forall (fun st => isReady st = true) cache -> oldest <= newest ->
  split_cache start oldest newest cache h t =
    (reverse (filter (fun st => start <= is_version st < oldest) cache) ++ h,
     t ++ filter (fun st => start <= is_version st /\ newest < is_version st) cache).
Proof.
  intros Hr Hon. revert h t. induction Hr as [|st cache Hst _ IH]; intros h t; cbn [split_cache].
  { by rewrite !filter_nil, app_nil_r. }
  rewrite Hst. cbn [negb]. rewrite !filter_cons.
  destruct (Z.ltb_spec (is_version st) start) as [Hs|Hs]; [|destruct (Z.ltb_spec (is_version st) oldest) as [Ho|Ho];
    [|destruct (Z.gtb_spec (is_version st) newest) as [Hn|Hn]]];
    rewrite IH; repeat case_decide; try lia; try done.
  - by rewrite reverse_cons, <-app_assoc.
  - by rewrite <-app_assoc.
Qed.

Lemma pushFront_all {A B} (f : A -> B) l (q : Q B) :
  q_contents (fold_left (fun q x => q_pushFront q (f x)) l q) = (f <$> reverse l) ++ q_contents q.
Proof.
  revert q. induction l as [|x l IH]; intros q; cbn [fold_left]; [done|].
  rewrite IH, q_contents_pushFront, reverse_cons, fmap_app, <-app_assoc. done.
Qed.

Lemma push_all {A B} (f : A -> B) l (q : Q B) :
  q_contents (fold_left (fun q x => q_push q (f x)) l q) = q_contents q ++ (f <$> l).
Proof.
  revert q. induction l as [|x l IH]; intros q; cbn [fold_left]; [by rewrite app_nil_r|].
  rewrite IH, q_contents_push, <-app_assoc. done.
Qed.

Lemma seqZ_max m n : seqZ m n = seqZ m (Z.max 0 n).
Proof. destruct (decide (n <= 0)); [by rewrite !seqZ_nil by lia|f_equal; lia]. Qed.

Lemma filter_range {A} (f : A -> Z) (l : list A) s n lo hi :
  f <$> l = seqZ s n ->
  f <$> filter (fun x => lo <= f x < hi) l = seqZ (Z.max s lo) (Z.min (s + n) hi - Z.max s lo).
Proof.
  revert s n. induction l as [|x l IH]; intros s n Hl.
  { destruct (decide (n <= 0)); [|rewrite seqZ_cons in Hl by lia; done].
    rewrite filter_nil. symmetry. apply seqZ_nil. lia. }
  destruct (decide (n <= 0)); [by rewrite seqZ_nil in Hl by done|].
  rewrite fmap_cons, seqZ_cons in Hl by lia. injection Hl as Hx Hl. specialize (IH _ _ Hl).
  rewrite filter_cons. case_decide as Hd.
  - rewrite fmap_cons, IH, Hx. rewrite (seqZ_cons (Z.max s lo)) by lia. f_equal; [lia|f_equal; lia].
  - rewrite IH. destruct (decide (Z.min (s + n) hi <= Z.max s lo)).
    + rewrite !seqZ_nil by lia. done.
    + f_equal; lia.
Qed.

(** Cached versions complete the queue.  Given a cache of ready, consecutive
    versions that overlaps or adjoins the queue, [addInstanceDatas] puts copies of
    the cached versions from [startVersion] on that are older than the queue in
    front of it and those that are newer behind it, so that the queue has no gaps
    and ends at the newest version of both. *)
Theorem cache_completes_queue (sl : slave) cache start c n q k :
  Forall (fun st => isReady st = true) cache ->
  is_version <$> cache = seqZ c n -> is_version <$> queue_of sl = seqZ q k ->
  0 < k -> 0 < n -> 0 < q -> q <= c + n -> Z.max start c <= q + k ->
  let sl' := addInstanceDatas cache start sl in
  let lo := Z.min (Z.max start c) q in
  queue_of sl' =
    (copy_stream <$> filter (fun st => start <= is_version st < q) cache) ++ queue_of sl ++
    (copy_stream <$> filter (fun st => start <= is_version st /\ q + k - 1 < is_version st) cache) /\
  is_version <$> queue_of sl' = seqZ lo (Z.max (c + n) (q + k) - lo) /\ s_version sl' = s_version sl.
Proof.
  intros Hr Hc Hq Hk Hn Hq0 Hadj1 Hadj2 sl' lo. unfold sl', addInstanceDatas, q_getFront, q_getBack.
  change (q_contents (s_queuedVersions sl)) with (queue_of sl).
  assert (match head (queue_of sl) with Some st => is_version st | None => VERSION_NONE end = q) as ->.
  { destruct (queue_of sl) as [|st l]; [by rewrite seqZ_cons in Hq by lia|].
    rewrite fmap_cons, seqZ_cons in Hq by lia. by injection Hq. }
  assert (match last (queue_of sl) with Some st => is_version st | None => VERSION_NONE end = q + k - 1) as ->.
  { destruct (queue_of sl) as [|st l _] using rev_ind; [by rewrite seqZ_cons in Hq by lia|]. rewrite last_snoc.
    rewrite fmap_app in Hq. replace k with ((k - 1) + 1) in Hq by lia. rewrite seqZ_app in Hq by lia.
    apply app_inj_tail in Hq as [_ Hq]. rewrite Hq. lia. }
  rewrite split_cache_spec by (done || lia). cbn [app]. rewrite app_nil_r.
  assert (forall q', queue_of (set_s_queuedVersions q' sl) = q_contents q') as Hqq by done.
  rewrite Hqq, push_all, pushFront_all, reverse_involutive, <-app_assoc.
  change (q_contents (s_queuedVersions sl)) with (queue_of sl). split_and!; [done| |done].
  rewrite !fmap_app, Hq, <-!list_fmap_compose.
  change (is_version ∘ copy_stream) with is_version.
  rewrite (filter_range is_version cache c n start q Hc).
  rewrite (filter_ext_Forall (fun st => start <= is_version st /\ q + k - 1 < is_version st)
    (fun st => Z.max start (q + k) <= is_version st < c + n) cache).
  2: { apply Forall_forall. intros st Hst. assert (is_version st ∈ seqZ c n) as Hin%elem_of_seqZ; [|lia].
       rewrite <-Hc. apply list_elem_of_fmap. eauto. }
  rewrite (filter_range is_version cache c n (Z.max start (q + k)) (c + n) Hc).
  assert (Z.max c (Z.max start (q + k)) = q + k) as -> by lia.
  assert (seqZ (Z.max c start) (Z.min (c + n) q - Z.max c start) = seqZ lo (q - lo)) as ->.
  { unfold lo. destruct (decide (q <= Z.max c start)); [rewrite !seqZ_nil by lia; done|f_equal; lia]. }
  rewrite (seqZ_max (q + k)). rewrite <-seqZ_app by lia.
  replace (seqZ q) with (seqZ (lo + (q - lo))) by (f_equal; lia). rewrite <-seqZ_app by (unfold lo; lia). f_equal. lia.
Qed.

(** *** Receiving a version *)

Context `{!PressionOk, !LunchboxOk}.

(** The data commands of one version, delivered in order, queue one stream. *)
Lemma cmdData_version obs (sl : slave) cs dcs v n :
  s_currentIStream sl = None -> v <> VERSION_INVALID ->
  Forall2 (represents (e_be E) obs) cs dcs -> Forall (fun dc => dc_version dc = v) dcs ->
  sc_last ∘ dc_call <$> dcs = replicate n false ++ [true] ->
  exists st q, fold_left (fun sl c => (slave_cmdData E sl c).2) cs sl =
      set_s_currentIStream None (set_s_queuedVersions q sl) /\
    q_contents q = queue_of sl ++ [st] /\
    is_version st = v /\ is_used st = None /\ Forall2 (represents (e_be E) obs) (is_commands st) dcs.
Proof.
  intros Hcur Hv Hrep Hver Hl.
  cut (forall d0, Forall2 (represents (e_be E) obs) (is_commands (default ObjectDataIStream_init (s_currentIStream sl))) d0 ->
    is_version (default ObjectDataIStream_init (s_currentIStream sl)) = VERSION_INVALID ->
    is_used (default ObjectDataIStream_init (s_currentIStream sl)) = None ->
    exists st q, fold_left (fun sl c => (slave_cmdData E sl c).2) cs sl =
      set_s_currentIStream None (set_s_queuedVersions q sl) /\ q_contents q = queue_of sl ++ [st] /\
    is_version st = v /\ is_used st = None /\ Forall2 (represents (e_be E) obs) (is_commands st) (d0 ++ dcs)).
  { intros Hc. apply (Hc []); rewrite Hcur; done. }
  clear Hcur. revert sl n Hl. induction Hrep as [|c dc cs dcs Hr Hrep IH]; intros sl n Hl d0 Hst Hiv Hu.
  { by destruct n. }
  set (st0 := default _ _) in *. rewrite fmap_cons in Hl. apply Forall_cons in Hver as [Hv1 Hver].
  destruct (addDataCommand_spec (e_be E) obs c dc st0 d0 Hst Hr) as [Hst1 Hv'].
  assert (is_used (addDataCommand (e_be E) st0 c) = None) as Hu1
    by (unfold addDataCommand; by destruct (odc_isLast _)).
  assert (slave_cmdData E sl c = let st := addDataCommand (e_be E) st0 c in
    if isReady st then (Some (is_version st),
        set_s_currentIStream None (set_s_queuedVersions (q_push (s_queuedVersions sl) st) sl))
    else (None, set_s_currentIStream (Some st) sl)) as Ec by done.
  cbn [fold_left]. rewrite Ec. clear Ec. cbv zeta.
  set (st1 := addDataCommand (e_be E) st0 c) in *. clearbody st1. unfold isReady. rewrite Hv'.
  destruct n as [|n]; simpl in Hl; injection Hl as Hl0 Hl.
  - destruct dcs; [|done]. inv Hrep. rewrite Hl0, (proj2 (Z.eqb_neq _ _)) by done. cbn [negb snd fold_left].
    eexists st1, _. split; [done|]. rewrite q_contents_push. split_and!; try done. by rewrite Hv', Hl0.
  - rewrite Hl0, Hiv, Z.eqb_refl. cbn [negb snd].
    destruct (IH Hver (set_s_currentIStream (Some st1) sl) n Hl (d0 ++ [dc])) as (st & q & -> & Hq & Hv2 & Hu2 & Hr2);
      [done|cbn [s_currentIStream set_s_currentIStream default from_option id]; rewrite Hv', Hl0; done|done|].
    exists st, q. split_and!; try done. by rewrite (cons_middle dc d0 dcs), app_assoc.
Qed.

End properties.

(** ** Witnesses *)

Definition sample_version (v : Z) : ObjectDataIStream := mkObjectDataIStream [] None v.

Definition sample_slave (version : Z) (queue : list Z) : VersionedSlaveCM (Q := list) :=
  mkVersionedSlaveCM version None (sample_version <$> queue)
    (ObjectDataOStream_init KSlave 7 true 0) 3 1.

Definition slave_env : Env := mkEnv false 0 100 33 2 2 7 true true Z.succ map_to_list.

#[local] Existing Instances store_Pression native_Lunchbox sample_Network.

(** The object counts the versions applied to it. *)
Definition count_one (n : Z) (_ : DataIStream ObjectDataIStream) : Z := n + 1.

Lemma sync_applies_in_order_witness :
  let '(ok, sl, n, _) := slave_sync slave_env count_one count_one 5 (sample_slave 4 [5; 6; 7]) 0 6 in
  ok = true /\ s_version sl = 6 /\ n = 2.
Proof.
  pose proof (sync_applies_in_order slave_env count_one count_one 5 (sample_slave 4 [5; 6; 7]) 0 6
    ltac:(done) ltac:(right; right; done) ltac:(done) ltac:(done)) as Hs.
  cbv zeta in Hs. destruct (slave_sync _ _ _ _ _ _ _) as [[[ok sl] n] out].
  destruct Hs as (-> & (-> & _) & -> & _). done.
Defined.

Lemma map_data_applied_witness :
  exists sl, applyMapData slave_env count_one 5 (sample_slave 0 [6; 5; 7]) 0 = Some (sl, 0) /\
    s_version sl = 5 /\ is_version <$> queue_of sl = [7].
Proof.
  destruct (map_data_applied slave_env count_one (sample_slave 0 [6; 5; 7]) 0 5 [sample_version 6]
    (sample_version 5) [sample_version 7]) as (sl & Hm & Hv & Hq).
  - done.
  - done.
  - simpl. set_solver.
  - exists sl. rewrite Hm, Hq. done.
Defined.

Lemma cache_completes_queue_witness :
  is_version <$> queue_of (addInstanceDatas (sample_version <$> [2; 3; 4; 5; 6; 7]) 3 (sample_slave 2 [5; 6])) =
    [3; 4; 5; 6; 7].
Proof.
  destruct (cache_completes_queue (sample_slave 2 [5; 6]) (sample_version <$> [2; 3; 4; 5; 6; 7]) 3 2 6 5 2)
    as (_ & Hv & _).
  - by repeat constructor.
  - done.
  - done.
  - done.
  - done.
  - done.
  - done.
  - done.
  - rewrite Hv. done.
Defined.
