(* ===== verification/Replication.v ===== *)
(** * Replication of an object

    The change managers of a master and of a slave instance put together: the
    data commands of the master's commits travel over the wire, the receiving
    node hands them to the slave, and the slave synchronises.  The object's data
    is any value of the stream types, serialised with the operators of
    [DataOStream] and read back with those of [DataIStream], as the default
    [pack] and [unpack] of co/object.h do. *)

From S2P Require Import Prelude Bytes Lunchbox DataOStream DataIStream Serialize Transfer Commands ObjectStreams Connections ObjectCM MasterCM SlaveCM.

Section replication.

Context `{!Pression, !PressionOk, !Lunchbox, !LunchboxOk, !Network}.
Context {Q : Type -> Type} `{!MTQueue Q, !MTQueueOk Q}.

(** The master's and the slave's side, on nodes of the same byte order. *)
Context (ME SE : Env) (padding : nat -> bytes).
Context (it : forall V, gmap Z V -> list (Z * V)) (its : gset Z -> list Z).
Context (t : ty) (getMaxVersions : Z).

Abbreviation master := (FullMasterCM (Q := Q)).
Abbreviation slave := (VersionedSlaveCM (Q := Q)).

Definition value_codec : codec ObjectDataIStream (denote t) :=
  @stream _ _ _ (ObjectDataIStream_source (e_be SE)) (e_be SE) (e_be SE) it its t.

(** The object with a value: dirty, and both full data and delta are the value. *)
Definition object_of (x : denote t) : AppObject := mkAppObject true (put value_codec x) (put value_codec x).

Definition applyData (x : denote t) (ist : DataIStream ObjectDataIStream) : denote t :=
  (get value_codec x ist).1.

(** A message at the slave's node: data commands reach the slave; instance data
    is a node command there, which the object store turns into an object's. *)
Definition deliver (sl : slave) (msg : Message) : slave :=
  match msg with
  | MData conns dc =>
      let w := dc_wire (e_be ME) (e_threshold ME) (e_bufferSize ME) padding conns dc in
      (slave_cmdData SE sl (receive (e_be SE) (bool_decide (dc_type dc = COMMANDTYPE_NODE)) w)).2
  | _ => sl
  end.

(** The master commits the values one after the other. *)
Fixpoint commit_all (m : master) (xs : list (denote t)) : option (master * list Message) :=
  match xs with
  | [] => Some (m, [])
  | x :: xs =>
      match commit ME m (object_of x) CO_COMMIT_NEXT with
      | None => None
      | Some (_, m, out) =>
          match commit_all m xs with
          | None => None
          | Some (m, out') => Some (m, out ++ out')
          end
      end
  end.

Definition sync_to (sl : slave) (x : denote t) (v : Z) : bool * slave * denote t * list Message :=
  slave_sync SE applyData applyData getMaxVersions sl x v.

(** ** Assumptions *)

(** The parameters fit the fields of the protocol. *)
Record env_ok : Prop := {
  eo_be : e_be ME = e_be SE;
  eo_padding : forall n, length (padding n) = n;
  eo_it : forall V (m : gmap Z V), it V m ≡ₚ map_to_list m;
  eo_its : forall s, its s ≡ₚ elements s;
  eo_buffer : 93 <= e_bufferSize ME;
  eo_name : e_compressor ME <> EQ_COMPRESSOR_NONE;
  eo_name4 : wf_uint 4 (e_compressor ME);
  eo_none4 : wf_uint 4 EQ_COMPRESSOR_NONE;
  eo_chunks : forall b, Z.of_nat (length (compress (e_compressor ME) b)) < 2 ^ 32;
  eo_id : is_u128 (e_id ME);
  eo_inst : wf_uint 4 (e_instanceID ME);
}.

Definition value_ok (x : denote t) : Prop :=
  fits t x /\ size_of (concat (put value_codec x)) < 2 ^ 62 /\
  Z.of_nat (length (put value_codec x)) < 2 ^ 32.

Context (Hok : env_ok).

(** ** Lemmas *)

(** A queued stream that holds a value. *)
Definition holds_value (st : ObjectDataIStream) (x : denote t) : Prop :=
  forall old, apply_one applyData applyData old st = x.

Lemma value_put x : fits t x -> put value_codec x <> [] /\ Forall (.≠ []) (put value_codec x).
Proof.
  intros Hx. pose proof (@stream_ok _ _ _ ObjectDataIStream (ObjectDataIStream_source (e_be SE))
    (ObjectDataIStream_sourceOk (e_be SE)) (e_be SE) (e_be SE) it its (eo_it Hok) (eo_its Hok) t x Hx)
    as (Hne & Hws & _). done.
Qed.

Lemma object_of_ok x : value_ok x -> object_ok (object_of x).
Proof. intros (Hx & _ & Hl). destruct (value_put x Hx) as [_ Hws]. by split; split. Qed.

(** A stream whose commands represent a session of [put x] holds [x]. *)
Lemma represents_value x cs dcs gs v :
  fits t x -> Forall2 (represents (e_be SE) (e_bufferSize ME)) cs dcs ->
  payload ∘ dc_call <$> dcs = (@concat Z) <$> gs -> concat gs = put value_codec x ->
  holds_value (mkObjectDataIStream cs None v) x.
Proof.
  intros Hx Hcs Hpay Hgs old.
  pose proof (@stream_ok _ _ _ ObjectDataIStream (ObjectDataIStream_source (e_be SE))
    (ObjectDataIStream_sourceOk (e_be SE)) (e_be SE) (e_be SE) it its (eo_it Hok) (eo_its Hok) t x Hx)
    as (_ & _ & Hget). fold value_codec in Hget. rewrite xorb_nilpotent in Hget.
  pose proof (commands_supply (e_be SE) (e_bufferSize ME) cs dcs None v false Hcs) as Hsup. rewrite Hpay in Hsup.
  destruct (Hget old (DataIStream_init false (mkObjectDataIStream cs None v)) []) as (ist & Eg & _).
  { rewrite app_nil_r, <-Hgs. by apply holds_init. }
  unfold apply_one, applyData. rewrite Eg. by destruct (hasInstanceData _).
Qed.

(** One stream use by the master queues one version at the slave. *)
Lemma deliver_session kind os v conns x (sl : slave) :
  idle ME kind os -> save (os_base os) = bool_decide (kind = KInstance) -> kind <> KSlave ->
  conns <> [] -> 0 <= v < VERSION_NEWEST -> value_ok x -> s_currentIStream sl = None ->
  exists st q,
    fold_left deliver (MData conns <$> (run_stream ME (enableCommit os v conns) (put value_codec x)).2) sl =
      set_s_currentIStream None (set_s_queuedVersions q sl) /\
    q_contents q = queue_of sl ++ [st] /\ is_version st = v /\ holds_value st x.
Proof.
  intros Hi Hs Hk Hc Hv (Hx & H62 & Hlen) Hcur. destruct (value_put x Hx) as [Hne Hws].
  destruct (idle_open ME kind os v conns _ Hi Hs) as (Ok & Oq & Ov & Ofr).
  set (os0 := enableCommit os v conns) in *.
  destruct (session_arrives (e_be SE) (e_threshold ME) (e_bufferSize ME) padding (e_id ME) (e_instanceID ME)
    CO_INSTANCE_INVALID (e_uuid ME) (e_compressor ME) (e_good ME) (eo_padding Hok) (eo_buffer Hok) (eo_name Hok)
    (eo_name4 Hok) (eo_none4 Hok) (eo_chunks Hok) (eo_id Hok) (eo_inst Hok) os0 _ conns (put value_codec x) Ofr Oq)
    as (os' & dcs & gs & Er & _ & Hrep & Hgs & Hpay & Hlast & Hvers & Hfields); rewrite ?Ok, ?Ov; try done.
  { intros ->. unfold os0, enableCommit. destruct Hi as (-> & _). repeat split; by vm_compute. }
  { unfold VERSION_NEWEST in Hv. unfold is_u128. lia. }
  unfold run_stream. rewrite (eo_be Hok), Er. cbn [snd].
  rewrite Ok in Hrep. rewrite Ov in Hvers.
  assert (fold_left deliver (MData conns <$> dcs) sl =
    fold_left (fun sl c => (slave_cmdData SE sl c).2)
      (at_receiver (e_be SE) (e_threshold ME) (e_bufferSize ME) padding conns kind <$> dcs) sl) as ->.
  { clear -Hfields Ok Hk Hok. revert sl. induction Hfields as [|dc dcs (_ & _ & Hf) _ IH]; intros sl; [done|].
    rewrite !fmap_cons. cbn [fold_left deliver]. rewrite IH. do 2 f_equal. unfold at_receiver.
    rewrite (eo_be Hok). do 2 f_equal. rewrite Ok in Hf. destruct kind; [| |done];
      destruct Hf as (_ & -> & _); done. }
  destruct (cmdData_version SE (e_bufferSize ME) sl _ dcs v (length gs - 1) Hcur
    ltac:(unfold VERSION_NEWEST, VERSION_INVALID in *; lia) Hrep Hvers Hlast) as (st & q & -> & Hq & Hsv & Hu & Hr).
  exists st, q. split_and!; try done. destruct st as [cs used vv]. cbn in *. subst used.
  by eapply represents_value.
Qed.

(** One commit: the master succeeds and the slave queues the next version. *)
Lemma commit_delivers (m : master) log x (sl : slave) :
  master_ok ME m log -> value_ok x -> f_slaves m <> [] -> connections_of ME (f_slaves m) <> [] -> log_room log ->
  f_commitCount m + 1 < CO_COMMIT_NEXT ->
  Forall (fun sd => f_version m + 1 <= sd_maxVersion sd) (m_slaveData (f_base m)) ->
  s_currentIStream sl = None ->
  exists m' out log', commit ME m (object_of x) CO_COMMIT_NEXT = Some (f_version m', m', out) /\
    master_ok ME m' log' /\ length log' = Datatypes.S (length log) /\
    f_base m' = set_m_version (f_version m + 1) (f_base m) /\ f_commitCount m' = f_commitCount m + 1 /\
    exists st q, fold_left deliver out sl = set_s_currentIStream None (set_s_queuedVersions q sl) /\
      q_contents q = queue_of sl ++ [st] /\ is_version st = f_version m + 1 /\ holds_value st x.
Proof.
  intros Hm Hx Hs Hc Hr Hcc Hsl Hcur. pose proof Hm as [Hlg _ _].
  pose proof (object_of_ok x Hx) as Ho. pose proof Hx as (Hf & _). destruct (value_put x Hf) as [Hne _].
  assert (advancing m CO_COMMIT_NEXT) as Ha by (by left).
  pose proof (eo_buffer Hok) as Hb. assert (0 <= e_bufferSize ME) as Hb0 by lia. pose proof (eo_name Hok) as Hn.
  pose proof (commit_step_ok ME Hb0 Hn m log (object_of x) CO_COMMIT_NEXT) as Hstep.
  destruct (updateCommitCount_ok ME m log CO_COMMIT_NEXT Hlg Ha) as (Hlg1 & _ & Hb1 & Hd1).
  pose proof (lg_commitCount _ _ _ Hlg) as Hc32.
  unfold commit in *. cbn [isDirty object_of negb] in *.
  rewrite (proj2 (may_commit_spec ME m log Hm Hr) Hsl) in *. cbn [negb] in *.
  set (m1 := _updateCommitCount ME m CO_COMMIT_NEXT) in *.
  assert (f_commitCount m1 = f_commitCount m + 1) as Hcc1.
  { unfold m1, _updateCommitCount. rewrite Z.eqb_refl. cbn. unfold CO_COMMIT_NEXT in Hcc.
    apply u32_small. unfold is_u32 in *. lia. }
  pose proof (commit_sends ME Hb0 Hn m1 log (object_of x) Hlg1 Ho Hr) as Hsend.
  destruct (commit_base ME m1 (object_of x)) as [vv Hbase]. pose proof (commit_count ME m1 (object_of x)) as Hcount.
  destruct (_commit ME m1 (object_of x)) as [m2 out] eqn:Ec. cbn [fst snd] in *.
  destruct (Hstep _ _ _ Hm Ho Ha (fun _ => Hc) Hr eq_refl) as [Hm' _].
  assert (commits m (object_of x) = true) as Hcm.
  { unfold commits. cbn [getInstanceData pack object_of]. rewrite bool_decide_eq_false_2 by done. cbn [negb].
    destruct (f_deltaData m); [destruct (f_slaves m)|]; by rewrite ?orb_true_r. }
  rewrite Hcm in Hm'. cbn [andb] in Hm'.
  assert (f_version (_obsolete ME m2) = f_version m + 1) as Hv2.
  { rewrite (lg_version _ _ _ (mo_logged _ _ _ Hm')), (lg_version _ _ _ Hlg), length_app. simpl. lia. }
  eexists _, out, _. split; [done|]. split; [exact Hm'|]. split_and!.
  - rewrite length_app. simpl. lia.
  - unfold f_version in Hv2. rewrite obsolete_base, Hbase, Hb1 in *. cbn in Hv2. unfold f_version. by rewrite Hv2.
  - by rewrite obsolete_count, Hcount.
  - unfold f_slaves, f_version in Hsend. rewrite Hb1, Hd1 in Hsend. specialize (Hsend Hs).
    assert (exists kind os, kind <> KSlave /\ idle ME kind os /\ save (os_base os) = bool_decide (kind = KInstance) /\
      out = MData (connections_of ME (f_slaves m)) <$> (run_stream ME (enableCommit os (f_version m + 1)
        (connections_of ME (f_slaves m))) (put value_codec x)).2) as (kind & os & Hk & Hi & Hsv & ->).
    { destruct (f_deltaData m); destruct Hsend as (os & ? & ? & ->); [exists KDelta, os|exists KInstance, os]; done. }
    apply (deliver_session kind); try done. rewrite (lg_version _ _ _ Hlg). unfold log_room in Hr. lia.
Qed.

(** Any number of commits. *)
Lemma commit_all_delivers xs (m : master) log (sl : slave) :
  master_ok ME m log -> Forall value_ok xs -> f_slaves m <> [] -> connections_of ME (f_slaves m) <> [] ->
  Z.of_nat (length log + length xs) + 1 < VERSION_NEWEST ->
  f_commitCount m + Z.of_nat (length xs) + 1 < CO_COMMIT_NEXT ->
  Forall (fun sd => f_version m + Z.of_nat (length xs) <= sd_maxVersion sd) (m_slaveData (f_base m)) ->
  s_currentIStream sl = None ->
  exists m' out sts q, commit_all m xs = Some (m', out) /\ f_version m' = f_version m + Z.of_nat (length xs) /\
    fold_left deliver out sl = set_s_currentIStream None (set_s_queuedVersions q sl) /\
    q_contents q = queue_of sl ++ sts /\ is_version <$> sts = seqZ (f_version m + 1) (Z.of_nat (length xs)) /\
    Forall2 holds_value sts xs.
Proof.
  revert m log sl. induction xs as [|x xs IH]; intros m log sl Hm Hxs Hs Hc Hr Hcc Hsl Hcur.
  { exists m, [], [], (s_queuedVersions sl). split_and!; try done; [simpl; lia|by destruct sl; cbn in *; subst|by rewrite app_nil_r]. }
  apply Forall_cons in Hxs as [Hx Hxs]. cbn [length] in *.
  pose proof (lg_version _ _ _ (mo_logged _ _ _ Hm)) as Hv.
  destruct (commit_delivers m log x sl) as (m1 & o1 & log1 & Ec & Hm1 & Hl1 & Hb1 & Hcc1 & st & q1 & Ed & Hq1 & Hsv & Hst);
    try done; try lia.
  { unfold log_room. lia. }
  { eapply Forall_impl; [exact Hsl|]. simpl. lia. }
  assert (f_version m1 = f_version m + 1) as Hv1 by (unfold f_version; by rewrite Hb1).
  destruct (IH m1 log1 (set_s_currentIStream None (set_s_queuedVersions q1 sl)))
    as (m' & out & sts & q & Eall & Hv' & Edl & Hq & Hvs & Hsts); try done.
  { unfold f_slaves. by rewrite Hb1. }
  { unfold f_slaves. by rewrite Hb1. }
  { lia. }
  { lia. }
  { rewrite Hv1, Hb1. eapply Forall_impl; [exact Hsl|]. simpl. lia. }
  exists m', (o1 ++ out), (st :: sts), q. cbn [commit_all]. rewrite Ec, Eall. split_and!; try done.
  - lia.
  - rewrite fold_left_app, Ed, Edl. done.
  - rewrite Hq. unfold queue_of at 1. cbn. rewrite Hq1, <-app_assoc. done.
  - rewrite fmap_cons, Hsv, Hvs, Hv1, Nat2Z.inj_succ. rewrite (seqZ_cons (f_version m + 1)) by lia. f_equal. f_equal; lia.
  - by constructor.
Qed.

Lemma apply_values sts xs x0 k :
  Forall2 holds_value sts xs -> (k <= length xs)%nat ->
  fold_left (apply_one applyData applyData) (take k sts) x0 = default x0 (last (take k xs)).
Proof.
  intros Hst. revert x0 k. induction Hst as [|st x sts xs Hx _ IH]; intros x0 k Hk; [by destruct k|].
  destruct k as [|k]; [done|]. cbn [take fold_left]. rewrite Hx, IH by (simpl in Hk; lia).
  rewrite last_cons. by destruct (last (take k xs)).
Qed.

(** C1: A slave reproduces the master's versions.  Take a reachable master, of
    the full or the delta kind, with subscribed slaves, and a slave synchronised
    to its head version.  The master commits any values one after the other, as
    far ahead as its slaves allow: no commit waits, each makes one version, and
    when the messages have been delivered the slave can be synchronised to any of
    the new versions, whereupon its object has exactly the value committed for
    that version; synchronising to the head gives the last one. *)
Theorem replication_converges delta (m : master) log xs (sl : slave) x0 :
  master_run ME delta m log -> Forall value_ok xs ->
  f_slaves m <> [] -> connections_of ME (f_slaves m) <> [] ->
  Z.of_nat (length log + length xs) + 1 < VERSION_NEWEST ->
  f_commitCount m + Z.of_nat (length xs) + 1 < CO_COMMIT_NEXT ->
  Forall (fun sd => f_version m + Z.of_nat (length xs) <= sd_maxVersion sd) (m_slaveData (f_base m)) ->
  s_version sl = f_version m -> s_currentIStream sl = None -> queue_of sl = [] ->
  exists m' out, commit_all m xs = Some (m', out) /\
    f_version m' = f_version m + Z.of_nat (length xs) /\
    let sl1 := fold_left deliver out sl in
    (forall k, (k <= length xs)%nat -> exists sl2 acks,
       sync_to sl1 x0 (f_version m + Z.of_nat k) = (true, sl2, default x0 (last (take k xs)), acks) /\
       s_version sl2 = f_version m + Z.of_nat k) /\
    exists sl2 acks, sync_to sl1 x0 VERSION_HEAD = (true, sl2, default x0 (last xs), acks) /\
      s_version sl2 = f_version m'.
Proof.
  intros Hrun Hxs Hs Hc Hr Hcc Hsl Hv Hcur Hq.
  pose proof (eo_buffer Hok) as Hb.
  pose proof (master_run_ok ME ltac:(lia) (eo_name Hok) delta m log Hrun) as Hm.
  pose proof (lg_version _ _ _ (mo_logged _ _ _ Hm)) as Hver.
  destruct (commit_all_delivers xs m log sl Hm Hxs Hs Hc Hr Hcc Hsl Hcur)
    as (m' & out & sts & q & Eall & Hv' & Ed & Hq' & Hvs & Hsts).
  exists m', out. split; [done|]. split; [done|]. intros sl1.
  assert (queue_of sl1 = sts) as Hq1 by (unfold sl1; rewrite Ed; unfold queue_of at 1; cbn; by rewrite Hq', Hq).
  assert (s_version sl1 = f_version m) as Hv1 by (unfold sl1; by rewrite Ed).
  pose proof (Forall2_length _ _ _ Hsts) as Hl.
  assert (in_step sl1) as Hin by (unfold in_step; by rewrite Hq1, Hv1, Hvs, Hl).
  assert (forall v k, v = VERSION_HEAD /\ k = length xs \/ v = f_version m + Z.of_nat k /\ v < VERSION_NEWEST ->
    (k <= length xs)%nat -> exists sl2 acks,
    sync_to sl1 x0 v = (true, sl2, default x0 (last (take k xs)), acks) /\ s_version sl2 = f_version m + Z.of_nat k)
    as Hsync.
  { intros v k Hvk Hk. pose proof (sync_spec SE applyData applyData getMaxVersions sl1 x0 v Hin) as Hsp.
    rewrite Hq1, Hv1, Hl in Hsp. unfold sync_to.
    destruct Hsp as (ok & sl2 & app & acks & Es & Eok & (Ev & _) & Eapp & _); [|lia|lia|].
    { destruct Hvk as [[-> _]|[-> _]]; [by left|right; right; lia]. }
    rewrite Es. exists sl2, acks.
    assert (Nat.min (Z.to_nat ((if v =? VERSION_HEAD then f_version m + Z.of_nat (length xs)
      else if v =? VERSION_NEXT then f_version m + 1 else v) - f_version m)) (length xs) = k) as Ek.
    { unfold VERSION_HEAD, VERSION_NEXT, VERSION_NEWEST in *. destruct Hvk as [[-> ->]|[-> ?]].
      - rewrite Z.eqb_refl. lia.
      - rewrite !(proj2 (Z.eqb_neq _ _)) by lia. lia. }
    rewrite Ek in *. rewrite Eapp, (apply_values sts xs x0 k Hsts Hk), Ev, Hv1. split; [|done].
    rewrite Eok. unfold VERSION_HEAD, VERSION_NEXT, VERSION_NEWEST in *.
    destruct Hvk as [[-> ->]|[-> ?]].
    - rewrite Z.eqb_refl. by rewrite (proj2 (Z.leb_le _ _)) by lia.
    - rewrite !(proj2 (Z.eqb_neq _ _)) by lia. by rewrite (proj2 (Z.leb_le _ _)) by lia. }
  split.
  - intros k Hk. apply Hsync; [right; split; [done|lia]|done].
  - destruct (Hsync VERSION_HEAD (length xs)) as (sl2 & acks & Es & Ev); [by left|done|].
    rewrite firstn_all in Es. exists sl2, acks. split; [exact Es|]. by rewrite Hv'.
Qed.

End replication.

(** ** Witness *)

#[local] Existing Instances store_Pression store_PressionOk native_Lunchbox native_LunchboxOk sample_Network.

(** The sample master after node 3 mapped the object, and that slave. *)
Definition subscribed_master : FullMasterCM (Q := list) := sample_step sample_master (OpAddSlave sample_map).

Lemma subscribed_run : master_run sample_env false subscribed_master [[1; 2]; [3; 4; 5]].
Proof.
  apply (sample_step_run sample_master [[1; 2]; [3; 4; 5]] (OpAddSlave sample_map)); [apply sample_run|done|].
  by vm_compute.
Qed.

Lemma replication_converges_witness :
  exists m' out, commit_all sample_env slave_env (fun V => map_to_list) elements (TVector TString)
      subscribed_master [[[1]; [2; 3]]; [[4]]] = Some (m', out) /\
    exists sl2 acks, sync_to slave_env (fun V => map_to_list) elements (TVector TString) 5
      (fold_left (deliver sample_env slave_env (fun n => replicate n 0)) out (sample_slave 2 [])) []
      VERSION_HEAD = (true, sl2, [[4]], acks) /\ s_version sl2 = 4.
Proof.
  destruct (replication_converges sample_env slave_env (fun n => replicate n 0) (fun V => map_to_list) elements
    (TVector TString) 5) with (delta := false) (m := subscribed_master) (log := [[1; 2]; [3; 4; 5]])
    (xs := [[[1]; [2; 3]]; [[4]]] : list (denote (TVector TString))) (sl := sample_slave 2 []) (x0 := [] : denote (TVector TString))
    as (m' & out & Hc & Hv & _ & Hh).
  - constructor; try done; intros; apply length_replicate.
  - apply subscribed_run.
  - repeat first [apply Forall_nil_2 | apply Forall_cons_2]; (split_and!; [|by vm_compute|by vm_compute]);
      repeat first [apply Forall_nil_2 | apply Forall_cons_2 | split]; done.
  - by vm_compute.
  - by vm_compute.
  - by vm_compute.
  - by vm_compute.
  - replace (m_slaveData (f_base subscribed_master)) with [mkSlaveData 3 max_u64 4] by (by vm_compute).
    repeat constructor. by vm_compute.
  - by vm_compute.
  - done.
  - done.
  - exists m', out. split; [exact Hc|]. destruct Hh as (sl2 & acks & Hs & Hsv). exists sl2, acks. split; [exact Hs|].
    rewrite Hsv, Hv. by vm_compute.
Defined.
