(* ===== verification/ObjectStore.v ===== *)
(** * Object store (co/objectStore.cpp, objectStore.h, and co/object.cpp)

    What a node knows of distributed objects: the table of attached objects, the
    requests under way, the instance cache and the queue of objects to send when
    idle.  Application threads register, map, synchronise and unmap objects; the
    receiver and the command thread handle the commands of other nodes and of the
    node itself.

    Objects are referred to by pointer; the table holds pointers, the heap the
    objects.  A method that waits for a request is split there: the part up to the
    wait returns the commands sent, the part behind it is a function of its own
    (or the result [None] while the request has no result).  Commands are their
    decoded arguments; their encoding is the subject of Commands.v.  A node handle
    stands for a [NodePtr], 0 is none. *)

From S2P Require Import Prelude Bytes Lunchbox DataOStream DataIStream Serialize Transfer Commands ObjectStreams InstanceCache Connections ObjectCM.

Definition LB_UNDEFINED_UINT32 : Z := 0xffffffff.

(** [Object::ChangeType] *)
Definition CHANGE_NONE : Z := 0.
Definition CHANGE_STATIC : Z := 1.
Definition CHANGE_UNBUFFERED : Z := 4.

(** ** Interfaces *)

(** The virtual methods of [ObjectCM] the object and the object store call.  The
    change manager and the application's part of the object are passed together. *)
Class ChangeManager (CM App : Type) := {
  cm_ZERO : CM;
  cm_new : forall (type : Z) (master : bool) (masterInstanceID : Z), App -> CM;
  cm_isMaster : CM -> bool;
  cm_getMasterInstanceID : CM -> Z;
  cm_setMasterNode : Z -> CM -> CM;
  cm_getMasterNode : CM -> Z;
  cm_addSlave : CM -> App -> MasterCMCommand -> bool * CM * list Message;
  cm_sendSync : CM -> App -> MasterCMCommand -> bool * CM * list Message;
  cm_removeSlave : Z -> Z -> CM -> CM;
  cm_removeSlaves : Z -> CM -> CM;
  cm_getSlaveNodes : CM -> list Z;
  cm_applyMapData : Z -> CM -> App -> option (CM * App * list Message);
  cm_applyInstanceData : ObjectDataIStream -> App -> App;
  cm_addInstanceDatas : list ObjectDataIStream -> Z -> CM -> CM;
  cm_sendInstanceData : CM -> App -> list Z -> CM * list Message;
  cm_dispatch : CM -> App -> ICommand -> bool * CM * App * list Message;
}.

(** What the store relies on: who is a master never changes. *)
Class ChangeManagerOk (CM App : Type) `{ChangeManager CM App} : Prop := {
  zero_master : cm_isMaster cm_ZERO = false;
  new_master type master inst (app : App) : cm_isMaster (cm_new type master inst app) = master;
  setMasterNode_master node (cm : CM) : cm_isMaster (cm_setMasterNode node cm) = cm_isMaster cm;
  addSlave_master (cm : CM) app command : cm_isMaster (cm_addSlave cm app command).1.2 = cm_isMaster cm;
  removeSlave_master node inst (cm : CM) : cm_isMaster (cm_removeSlave node inst cm) = cm_isMaster cm;
  removeSlaves_master node (cm : CM) : cm_isMaster (cm_removeSlaves node cm) = cm_isMaster cm;
}.

(** The arguments of a request ([lunchbox::RequestHandler]) and its result. *)
Inductive RequestData := DNone | DObject (p : Z) | DStream (st : ObjectDataIStream).
Inductive RequestResult := RVoid | RVersion (v : Z) | RBool (b : bool) | RNode (id : Z).

Record Request := mkRequest { rq_data : RequestData; rq_result : option RequestResult }.

(** The node commands of the object store with their arguments. *)
Inductive NodeCommand :=
| CFindMasterNodeID (id requestID : Z)
| CFindMasterNodeIDReply (masterNodeID requestID : Z)
| CAttach (id instanceID requestID : Z)
| CDetach (id instanceID requestID : Z)
| CRegister (p : Z)
| CDeregister (requestID : Z)
| CMap (command : MasterCMCommand)
| CMapReply (nodeID id version requestID : Z) (result releaseCache useCache : bool)
| CUnmap (id : Z)
| CUnsubscribe (id requestID masterInstanceID slaveInstanceID : Z)
| CSync (command : MasterCMCommand)
| CSyncReply (nodeID id requestID : Z) (result releaseCache useCache : bool)
| CDisableSendOnRegister (requestID : Z)
| CRemoveNode (node requestID : Z).

(** What the store sends: to a node (its own included), or by a change manager. *)
Inductive Sent := SNode (node : Z) (command : NodeCommand) | SMessage (message : Message).

Section store.

Context `{!Pression, !Lunchbox, !Network} (be : bool).
Context {CM App : Type} `{!ChangeManager CM App}.
Context {Q : Type -> Type} `{!MTQueue Q}.

(** The iteration order of the instance cache, [registerRequest]'s next identifier,
    [uint128_t::isUUID], [Node::isReachable], [CO_INSTANCE_MAX] and the attributes
    [IATTR_NODE_SEND_QUEUE_SIZE] and [IATTR_NODE_SEND_QUEUE_AGE]. *)
Context (it : gmap Z Item -> list Z) (newRequest : gmap Z Request -> Z).
Context (isUUID isReachable : Z -> bool).
Context (CO_INSTANCE_MAX sendQueueSize sendQueueAge : Z).

Record Obj := mkObj {
  ob_id : Z;
  ob_instanceID : Z;
  ob_localNode : bool;
  ob_cm : CM;
  ob_app : App;
  ob_changeType : Z;
  ob_maxVersions : Z
}.

Definition set_ob_id (v : Z) (s : Obj) : Obj :=
  mkObj v (ob_instanceID s) (ob_localNode s) (ob_cm s) (ob_app s) (ob_changeType s) (ob_maxVersions s).
Definition set_ob_instanceID (v : Z) (s : Obj) : Obj :=
  mkObj (ob_id s) v (ob_localNode s) (ob_cm s) (ob_app s) (ob_changeType s) (ob_maxVersions s).
Definition set_ob_localNode (v : bool) (s : Obj) : Obj :=
  mkObj (ob_id s) (ob_instanceID s) v (ob_cm s) (ob_app s) (ob_changeType s) (ob_maxVersions s).
Definition set_ob_cm (v : CM) (s : Obj) : Obj :=
  mkObj (ob_id s) (ob_instanceID s) (ob_localNode s) v (ob_app s) (ob_changeType s) (ob_maxVersions s).
Definition set_ob_app (v : App) (s : Obj) : Obj :=
  mkObj (ob_id s) (ob_instanceID s) (ob_localNode s) (ob_cm s) v (ob_changeType s) (ob_maxVersions s).
Definition set_ob_changeType (v : Z) (s : Obj) : Obj :=
  mkObj (ob_id s) (ob_instanceID s) (ob_localNode s) (ob_cm s) (ob_app s) v (ob_maxVersions s).
Definition set_ob_maxVersions (v : Z) (s : Obj) : Obj :=
  mkObj (ob_id s) (ob_instanceID s) (ob_localNode s) (ob_cm s) (ob_app s) (ob_changeType s) v.

Record ObjectStore := mkObjectStore {
  st_node : Z;
  st_instanceIDs : Z;
  st_objects : gmap Z (list Z);
  st_heap : gmap Z Obj;
  st_cache : option InstanceCache;
  st_requests : gmap Z Request;
  st_sendOnRegister : Z;
  st_sendQueue : list (Z * Z);
  st_pushData : DataIStreamQueue (Q := Q)
}.

Definition set_st_node (v : Z) (s : ObjectStore) : ObjectStore :=
  mkObjectStore v (st_instanceIDs s) (st_objects s) (st_heap s) (st_cache s) (st_requests s) (st_sendOnRegister s) (st_sendQueue s) (st_pushData s).
Definition set_st_instanceIDs (v : Z) (s : ObjectStore) : ObjectStore :=
  mkObjectStore (st_node s) v (st_objects s) (st_heap s) (st_cache s) (st_requests s) (st_sendOnRegister s) (st_sendQueue s) (st_pushData s).
Definition set_st_objects (v : gmap Z (list Z)) (s : ObjectStore) : ObjectStore :=
  mkObjectStore (st_node s) (st_instanceIDs s) v (st_heap s) (st_cache s) (st_requests s) (st_sendOnRegister s) (st_sendQueue s) (st_pushData s).
Definition set_st_heap (v : gmap Z Obj) (s : ObjectStore) : ObjectStore :=
  mkObjectStore (st_node s) (st_instanceIDs s) (st_objects s) v (st_cache s) (st_requests s) (st_sendOnRegister s) (st_sendQueue s) (st_pushData s).
Definition set_st_cache (v : option InstanceCache) (s : ObjectStore) : ObjectStore :=
  mkObjectStore (st_node s) (st_instanceIDs s) (st_objects s) (st_heap s) v (st_requests s) (st_sendOnRegister s) (st_sendQueue s) (st_pushData s).
Definition set_st_requests (v : gmap Z Request) (s : ObjectStore) : ObjectStore :=
  mkObjectStore (st_node s) (st_instanceIDs s) (st_objects s) (st_heap s) (st_cache s) v (st_sendOnRegister s) (st_sendQueue s) (st_pushData s).
Definition set_st_sendOnRegister (v : Z) (s : ObjectStore) : ObjectStore :=
  mkObjectStore (st_node s) (st_instanceIDs s) (st_objects s) (st_heap s) (st_cache s) (st_requests s) v (st_sendQueue s) (st_pushData s).
Definition set_st_sendQueue (v : list (Z * Z)) (s : ObjectStore) : ObjectStore :=
  mkObjectStore (st_node s) (st_instanceIDs s) (st_objects s) (st_heap s) (st_cache s) (st_requests s) (st_sendOnRegister s) v (st_pushData s).
Definition set_st_pushData (v : DataIStreamQueue (Q := Q)) (s : ObjectStore) : ObjectStore :=
  mkObjectStore (st_node s) (st_instanceIDs s) (st_objects s) (st_heap s) (st_cache s) (st_requests s) (st_sendOnRegister s) (st_sendQueue s) v.

Definition ObjectStore_init (node : Z) (heap : gmap Z Obj) (cacheSize : Z) : ObjectStore :=
  mkObjectStore node (- 0x7FFFFFFF) ∅ heap (Some (InstanceCache_init cacheSize)) ∅ 0 [] DataIStreamQueue_init.

(** ** Requests *)

Definition registerRequest (data : RequestData) (st : ObjectStore) : Z * ObjectStore :=
  let id := newRequest (st_requests st) in
  (id, set_st_requests (<[id := mkRequest data None]> (st_requests st)) st).

Definition getRequestData (id : Z) (st : ObjectStore) : RequestData :=
  match st_requests st !! id with Some r => rq_data r | None => DNone end.

Definition serveRequest (id : Z) (result : RequestResult) (st : ObjectStore) : ObjectStore :=
  match st_requests st !! id with
  | Some r => set_st_requests (<[id := mkRequest (rq_data r) (Some result)]> (st_requests st)) st
  | None => st
  end.

(** [waitRequest]: [None] while there is no result. *)
Definition waitRequest (id : Z) (st : ObjectStore) : option (RequestResult * ObjectStore) :=
  match st_requests st !! id with
  | Some (mkRequest _ (Some result)) => Some (result, set_st_requests (delete id (st_requests st)) st)
  | _ => None
  end.

(** ** Objects (co/object.cpp) *)

Definition isAttached (o : Obj) : bool := negb (ob_instanceID o =? CO_INSTANCE_INVALID).
Definition isMaster (o : Obj) : bool := cm_isMaster (ob_cm o).

Definition Object_attach (id instanceID : Z) (o : Obj) : Obj := set_ob_instanceID instanceID (set_ob_id id o).
Definition Object_detach (o : Obj) : Obj := set_ob_localNode false (set_ob_instanceID CO_INSTANCE_INVALID o).

Definition setupChangeManager (type : Z) (master localNode : bool) (masterInstanceID : Z) (o : Obj) : Obj :=
  let o := set_ob_localNode localNode o in
  if type =? CHANGE_NONE then set_ob_cm cm_ZERO o
  else if (CHANGE_STATIC <=? type) && (type <=? CHANGE_UNBUFFERED)
  then set_ob_cm (cm_new type master masterInstanceID (ob_app o)) o
  else o.

(** [notifyDetach]: a master unmaps its slaves. *)
Definition notifyDetach (o : Obj) : list Sent :=
  if isMaster o then (fun node => SNode node (CUnmap (ob_id o))) <$> cm_getSlaveNodes (ob_cm o) else [].

(** [transfer] on the new object and the old one. *)
Definition transfer (from o : Obj) : Obj * Obj :=
  (set_ob_localNode (ob_localNode from) (set_ob_cm (ob_cm from)
     (set_ob_instanceID (ob_instanceID from) (set_ob_id (ob_id from) o))),
   set_ob_instanceID CO_INSTANCE_INVALID (set_ob_localNode false (set_ob_cm cm_ZERO from))).

Definition put_obj (p : Z) (o : Obj) (st : ObjectStore) : ObjectStore :=
  set_st_heap (<[p := o]> (st_heap st)) st.

Definition update_obj (p : Z) (f : Obj -> Obj) (st : ObjectStore) : ObjectStore :=
  match st_heap st !! p with Some o => put_obj p (f o) st | None => st end.

(** The object the code finds among those of an identifier. *)
Fixpoint find_obj (f : Obj -> bool) (heap : gmap Z Obj) (l : list Z) : option (Z * Obj) :=
  match l with
  | [] => None
  | p :: l => match heap !! p with
              | Some o => if f o then Some (p, o) else find_obj f heap l
              | None => find_obj f heap l
              end
  end.

Definition objects_of (id : Z) (st : ObjectStore) : list Z := default [] (st_objects st !! id).

(** ** Attaching *)

(** [_genNextID]: the loop skips identifiers above the maximum. *)
Fixpoint genNextID_loop (fuel : nat) (val : Z) : Z * Z :=
  let val := i32 (val + 1) in
  let result := u32 (val + 0x7FFFFFFF) in
  match fuel with
  | O => (result, val)
  | S fuel => if result >? CO_INSTANCE_MAX then genNextID_loop fuel val else (result, val)
  end.

Definition genNextID (val : Z) : Z * Z := genNextID_loop (Z.to_nat (0x100000000 - CO_INSTANCE_MAX)) val.

Definition nextInstanceID (st : ObjectStore) : Z * ObjectStore :=
  let '(id, val) := genNextID (st_instanceIDs st) in (id, set_st_instanceIDs val st).

Definition _attach (p id inInstanceID : Z) (st : ObjectStore) : ObjectStore :=
  let '(instanceID, st) :=
    if inInstanceID =? CO_INSTANCE_INVALID then nextInstanceID st else (inInstanceID, st) in
  let st := update_obj p (Object_attach id instanceID) st in
  set_st_objects (<[id := objects_of id st ++ [p]]> (st_objects st)) st.

Definition erase_first (p : Z) (l : list Z) : list Z :=
  match list_find (eq p) l with Some (i, _) => delete i l | None => l end.

Definition _detach (p : Z) (st : ObjectStore) : ObjectStore :=
  match st_heap st !! p with
  | None => st
  | Some o =>
      if negb (isAttached o) then st
      else
        let id := ob_id o in
        let objects := erase_first p (objects_of id st) in
        let st := set_st_objects (match objects with
                                  | [] => delete id (st_objects st)
                                  | _ => <[id := objects]> (st_objects st)
                                  end) st in
        update_obj p Object_detach st
  end.

(** The application's side: the request and the command to the node itself. *)
Definition attach (p id instanceID : Z) (st : ObjectStore) : ObjectStore * list Sent :=
  let '(request, st) := registerRequest (DObject p) st in
  (st, [SNode (st_node st) (CAttach id instanceID request)]).

Definition detach (p : Z) (st : ObjectStore) : ObjectStore * list Sent :=
  let '(request, st) := registerRequest DNone st in
  match st_heap st !! p with
  | Some o => (st, [SNode (st_node st) (CDetach (ob_id o) (ob_instanceID o) request)])
  | None => (st, [])
  end.

Definition swap (old new : Z) (st : ObjectStore) : ObjectStore :=
  match st_heap st !! old, st_heap st !! new with
  | Some oldObject, Some newObject =>
      if negb (isAttached oldObject) then st
      else
        match st_objects st !! ob_id oldObject with
        | None => st
        | Some objects =>
            match list_find (eq old) objects with
            | None => st
            | Some (j, _) =>
                let '(newObject, oldObject') := transfer oldObject newObject in
                put_obj new newObject (put_obj old oldObject'
                  (set_st_objects (<[ob_id oldObject := <[j := new]> objects]> (st_objects st)) st))
            end
        end
  | _, _ => st
  end.

(** [_cmdAttach] and [_cmdDetach] *)
Definition cmdAttach (id instanceID requestID : Z) (st : ObjectStore) : ObjectStore :=
  match getRequestData requestID st with
  | DObject p => serveRequest requestID RVoid (_attach p id instanceID st)
  | _ => st
  end.

Definition cmdDetach (id instanceID requestID : Z) (st : ObjectStore) : ObjectStore :=
  let st := match find_obj (fun o => ob_instanceID o =? instanceID) (st_heap st) (objects_of id st) with
            | Some (p, _) => _detach p st
            | None => st
            end in
  serveRequest requestID RVoid st.

(** ** Masters *)

(** [register_] up to the wait in [attach], and behind it. *)
Definition register_ (p : Z) (st : ObjectStore) : ObjectStore * list Sent :=
  match st_heap st !! p with
  | None => (st, [])
  | Some o =>
      attach p (ob_id o) CO_INSTANCE_INVALID
        (put_obj p (setupChangeManager (ob_changeType o) true true CO_INSTANCE_INVALID o) st)
  end.

Definition register_finish (p : Z) (st : ObjectStore) : list Sent :=
  if sendQueueSize >? 0 then [SNode (st_node st) (CRegister p)] else [].

(** [deregister] up to the wait in [detach], and behind it. *)
Definition deregister (p : Z) (st : ObjectStore) : ObjectStore * list Sent :=
  match st_heap st !! p with
  | None => (st, [])
  | Some o =>
      if negb (isAttached o) then (st, [])
      else
        let out := notifyDetach o in
        let '(st, out') :=
          if sendQueueSize >? 0 then
            let '(request, st) := registerRequest DNone st in (st, [SNode (st_node st) (CDeregister request)])
          else (st, []) in
        let '(st, out'') := detach p st in
        (st, out ++ out' ++ out'')
  end.

Definition erase_cached (id : Z) (st : ObjectStore) : ObjectStore :=
  match st_cache st with
  | Some c => set_st_cache (Some (erase c id).2) st
  | None => st
  end.

Definition deregister_finish (p id : Z) (st : ObjectStore) : ObjectStore :=
  erase_cached id (update_obj p (setupChangeManager CHANGE_NONE true false CO_INSTANCE_INVALID) st).

(** *** The send queue *)

(** [_cmdRegister]; [now] is the node's clock. *)
Definition cmdRegister (p now : Z) (st : ObjectStore) : ObjectStore :=
  if st_sendOnRegister st <=? 0 then st
  else
    let age := if sendQueueAge =? 0 then 2 ^ 63 - 1 else sendQueueAge + now in
    let q := st_sendQueue st ++ [(age, p)] in
    set_st_sendQueue (drop (length q - Z.to_nat sendQueueSize) q) st.

Fixpoint erase_item (p : Z) (q : list (Z * Z)) : list (Z * Z) :=
  match q with
  | [] => []
  | item :: q => if item.2 =? p then q else item :: erase_item p q
  end.

(** [_cmdDeregister] *)
Definition cmdDeregister (requestID : Z) (st : ObjectStore) : ObjectStore :=
  let st := match getRequestData requestID st with
            | DObject p => set_st_sendQueue (erase_item p (st_sendQueue st)) st
            | _ => st
            end in
  serveRequest requestID RVoid st.

(** [notifyCommandThreadIdle]; [nodes] are the other nodes. *)
Definition notifyCommandThreadIdle (now : Z) (nodes : list Z) (st : ObjectStore) : bool * ObjectStore * list Sent :=
  match st_sendQueue st with
  | [] => (false, st, [])
  | (age, p) :: q =>
      let pop st out := (negb (is_nil q), set_st_sendQueue q st, out) in
      if age >? now then
        if is_nil nodes then (true, st, [])
        else
          match st_heap st !! p with
          | Some o =>
              let '(cm, out) := cm_sendInstanceData (ob_cm o) (ob_app o) nodes in
              pop (put_obj p (set_ob_cm cm o) st) (SMessage <$> out)
          | None => pop st []
          end
      else pop st []
  end.

Definition enableSendOnRegister (st : ObjectStore) : ObjectStore :=
  set_st_sendOnRegister (i32 (st_sendOnRegister st + 1)) st.

Definition disableSendOnRegister (st : ObjectStore) : ObjectStore * list Sent :=
  if sendQueueSize >? 0 then
    let '(request, st) := registerRequest DNone st in (st, [SNode (st_node st) (CDisableSendOnRegister request)])
  else (set_st_sendOnRegister (i32 (st_sendOnRegister st - 1)) st, []).

(** [_cmdDisableSendOnRegister] without the [finish] of the connections. *)
Definition cmdDisableSendOnRegister (requestID : Z) (st : ObjectStore) : ObjectStore :=
  let st := set_st_sendOnRegister (i32 (st_sendOnRegister st - 1)) st in
  let st := if st_sendOnRegister st =? 0 then set_st_sendQueue [] st else st in
  serveRequest requestID RVoid st.

(** ** Slaves *)

(** [_checkInstanceCache]: what the cache holds of an object, which is pinned: the
    master's instance, the oldest and the newest version.  The asserted condition
    that there are versions is the second case. *)
Definition checkInstanceCache (id : Z) (st : ObjectStore) : option (Z * Z * Z) * ObjectStore :=
  match st_cache st with
  | None => (None, st)
  | Some c =>
      let '(cached, c) := cache_get c id in
      (match cached with
       | Some (inst, versions) =>
           Some (inst, match head versions with Some s => is_version s | None => 0 end,
                 match last versions with Some s => is_version s | None => 0 end)
       | None => None
       end, set_st_cache (Some c) st)
  end.

(** The object may be mapped: the guards of [mapNB]. *)
Definition may_map (p id master : Z) (st : ObjectStore) : option Obj :=
  if (master =? 0) || negb (isReachable master) then None
  else if negb (isUUID id) then None
  else match st_heap st !! p with
       | Some o => if isAttached o || isMaster o then None else Some o
       | None => None
       end.

(** [mapNB]; [master] is the node given or found by [connectObjectMaster]. *)
Definition mapNB (p id version master : Z) (st : ObjectStore) : Z * ObjectStore * list Sent :=
  match may_map p id master st with
  | None => (LB_UNDEFINED_UINT32, st, [])
  | Some o =>
      let '(request, st) := registerRequest (DObject p) st in
      let '(cached, st) := checkInstanceCache id st in
      let '(instanceID, st) := nextInstanceID st in
      let command :=
        match cached with
        | Some (masterInstanceID, from, to) =>
            mkMasterCMCommand (st_node st) version from to id (ob_maxVersions o) request instanceID
              masterInstanceID true
        | None =>
            mkMasterCMCommand (st_node st) version VERSION_HEAD VERSION_NONE id (ob_maxVersions o) request
              instanceID 0 false
        end in
      (request, st, [SNode master (CMap command)])
  end.

(** [mapSync]; [None] while it waits for the reply or for the data. *)
Definition mapSync (requestID : Z) (st : ObjectStore) : option (bool * ObjectStore * list Sent) :=
  if requestID =? LB_UNDEFINED_UINT32 then Some (false, st, [])
  else
    match getRequestData requestID st with
    | DObject p =>
        match waitRequest requestID st with
        | Some (RVersion version, st) =>
            match st_heap st !! p with
            | Some o =>
                if isAttached o then
                  match cm_applyMapData version (ob_cm o) (ob_app o) with
                  | Some (cm, app, out) =>
                      Some (true, put_obj p (set_ob_app app (set_ob_cm cm o)) st, SMessage <$> out)
                  | None => None
                  end
                else Some (false, st, [])
            | None => None
            end
        | _ => None
        end
    | _ => Some (false, st, [])
    end.

Definition release_cached (id count : Z) (st : ObjectStore) : ObjectStore :=
  match st_cache st with
  | Some c => set_st_cache (Some (release it c id count).2) st
  | None => st
  end.

(** [_startSync] and [_finishSync] *)
Definition startSync (id instanceID master : Z) (st : ObjectStore) : Z * ObjectStore * list Sent :=
  if negb (isUUID id) || (master =? 0) || negb (isReachable master) then (LB_UNDEFINED_UINT32, st, [])
  else
    let '(request, st) := registerRequest (DStream ObjectDataIStream_init) st in
    let '(cached, st) := checkInstanceCache id st in
    let '(masterInstanceID, from, to) := default (0, VERSION_HEAD, VERSION_NONE) cached in
    let '(useCache, st) :=
      match cached with
      | Some _ =>
          if (instanceID =? CO_INSTANCE_ALL) || (instanceID =? masterInstanceID) then (true, st)
          else (false, release_cached id 1 st)
      | None => (false, st)
      end in
    (request, st, [SNode master (CSync (mkMasterCMCommand (st_node st) VERSION_NEWEST from to id 0 request
                                          instanceID masterInstanceID useCache))]).

Definition finishSync (requestID p : Z) (st : ObjectStore) : option (bool * ObjectStore) :=
  if requestID =? LB_UNDEFINED_UINT32 then Some (false, st)
  else
    match getRequestData requestID st with
    | DStream istream =>
        match waitRequest requestID st with
        | Some (RBool true, st) =>
            if isReady istream then
              Some (true, update_obj p (fun o => set_ob_app (cm_applyInstanceData istream (ob_app o)) o) st)
            else None
        | Some (RBool false, st) => Some (false, st)
        | _ => None
        end
    | _ => Some (false, st)
    end.

(** [unmap] up to the first wait: whether the object is detached directly, which
    [unmap_finish] completes. *)
Definition unmap (p : Z) (st : ObjectStore) : bool * ObjectStore * list Sent :=
  match st_heap st !! p with
  | None => (false, st, [])
  | Some o =>
      if negb (isAttached o) then (false, st, [])
      else
        let out := notifyDetach o in
        let masterInstanceID := cm_getMasterInstanceID (ob_cm o) in
        let master := cm_getMasterNode (ob_cm o) in
        if negb (masterInstanceID =? CO_INSTANCE_INVALID) && negb (master =? 0) && isReachable master then
          let '(request, st) := registerRequest DNone st in
          (false, st, out ++ [SNode master (CUnsubscribe (ob_id o) request masterInstanceID (ob_instanceID o))])
        else let '(st, out') := detach p st in (true, st, out ++ out')
  end.

Definition unmap_finish (p : Z) (st : ObjectStore) : ObjectStore :=
  update_obj p (setupChangeManager CHANGE_NONE false false CO_INSTANCE_INVALID) st.

(** [_cmdMapSuccess] and [_cmdMapReply], with the arguments in the order read. *)
Definition cmdMapSuccess (nodeID id requestID instanceID changeType masterInstanceID : Z) (st : ObjectStore) :
    ObjectStore :=
  if negb (nodeID =? getNodeID (st_node st)) then st
  else
    match getRequestData requestID st with
    | DObject p =>
        _attach p id instanceID (update_obj p (setupChangeManager changeType false true masterInstanceID) st)
    | _ => st
    end.

Definition cmdMapReply (sender nodeID id version requestID : Z) (result releaseCache useCache : bool)
    (st : ObjectStore) : ObjectStore :=
  if negb (nodeID =? getNodeID (st_node st)) then st
  else
    let st :=
      if result then
        match getRequestData requestID st with
        | DObject p =>
            let st := update_obj p (fun o => set_ob_cm (cm_setMasterNode sender (ob_cm o)) o) st in
            if useCache then
              match st_cache st with
              | Some c =>
                  let '(cached, c) := cache_get c id in
                  let versions := match cached with Some (_, versions) => versions | None => [] end in
                  release_cached id 2
                    (update_obj p (fun o => set_ob_cm (cm_addInstanceDatas versions version (ob_cm o)) o)
                      (set_st_cache (Some c) st))
              | None => st
              end
            else if releaseCache then release_cached id 1 st
            else st
        | _ => st
        end
      else if releaseCache then release_cached id 1 st
      else st in
    serveRequest requestID (RVersion version) st.

(** [_cmdSyncReply] *)
Definition cmdSyncReply (nodeID id requestID : Z) (result releaseCache useCache : bool) (st : ObjectStore) :
    ObjectStore :=
  if negb (nodeID =? getNodeID (st_node st)) then st
  else
    let st :=
      if result then
        if useCache then
          match st_cache st with
          | Some c =>
              let '(cached, c) := cache_get c id in
              let st := set_st_cache (Some c) st in
              let st := match cached, st_requests st !! requestID with
                        | Some (_, versions), Some r =>
                            match last versions with
                            | Some istream => set_st_requests (<[requestID := mkRequest (DStream istream) (rq_result r)]> (st_requests st)) st
                            | None => st
                            end
                        | _, _ => st
                        end in
              release_cached id 2 st
          | None => st
          end
        else if releaseCache then release_cached id 1 st
        else st
      else if releaseCache then release_cached id 1 st
      else st in
    serveRequest requestID (RBool result) st.

(** [_cmdUnmap] *)
Definition cmdUnmap (id : Z) (st : ObjectStore) : ObjectStore :=
  let st := erase_cached id st in
  match st_objects st !! id with
  | None => st
  | Some objects =>
      fold_left (fun st p => update_obj p Object_detach st) objects
        (set_st_objects (delete id (st_objects st)) st)
  end.

(** ** Commands of other nodes *)

(** A command dispatched to one object. *)
Definition dispatch_to (command : ICommand) (p : Z) (st : ObjectStore) : ObjectStore * list Sent :=
  match st_heap st !! p with
  | Some o =>
      let '(_, cm, app, out) := cm_dispatch (ob_cm o) (ob_app o) command in
      (put_obj p (set_ob_app app (set_ob_cm cm o)) st, SMessage <$> out)
  | None => (st, [])
  end.

Fixpoint dispatch_all (command : ICommand) (l : list Z) (st : ObjectStore) : ObjectStore * list Sent :=
  match l with
  | [] => (st, [])
  | p :: l =>
      let '(st, out) := dispatch_to command p st in
      let '(st, out') := dispatch_all command l st in
      (st, out ++ out')
  end.

Definition dispatchObjectCommand (cmd : ICommand) (st : ObjectStore) : bool * ObjectStore * list Sent :=
  let command := ObjectICommand_of be cmd in
  let instanceID := oic_instanceID command in
  match st_objects st !! oic_objectID command with
  | None => (instanceID =? CO_INSTANCE_NONE, st, [])
  | Some objects =>
      if instanceID <=? CO_INSTANCE_MAX then
        match find_obj (fun o => instanceID =? ob_instanceID o) (st_heap st) objects with
        | Some (p, _) => let '(st, out) := dispatch_to cmd p st in (true, st, out)
        | None => (false, st, [])
        end
      else let '(st, out) := dispatch_all cmd objects st in (true, st, out)
  end.

(** [_cmdFindMasterNodeID]: the master of the first object that knows it. *)
Fixpoint master_of (node : Z) (heap : gmap Z Obj) (l : list Z) : Z :=
  match l with
  | [] => 0
  | p :: l =>
      let id := match heap !! p with
                | Some o => if isMaster o then getNodeID node
                            else let master := cm_getMasterNode (ob_cm o) in
                                 if master =? 0 then 0 else getNodeID master
                | None => 0
                end in
      if negb (id =? 0) then id else master_of node heap l
  end.

Definition cmdFindMasterNodeID (sender id requestID : Z) (st : ObjectStore) : list Sent :=
  [SNode sender (CFindMasterNodeIDReply (master_of (st_node st) (st_heap st) (objects_of id st)) requestID)].

Definition cmdFindMasterNodeIDReply (masterNodeID requestID : Z) (st : ObjectStore) : ObjectStore :=
  serveRequest requestID (RNode masterNodeID) st.

(** [_cmdMap] *)
Definition cmdMap (command : MasterCMCommand) (st : ObjectStore) : ObjectStore * list Sent :=
  let id := mc_objectID command in
  let node := mc_node command in
  let fail := SNode node (CMapReply (getNodeID node) id (mc_requestedVersion command) (mc_requestID command)
                            false (mc_useCache command) false) in
  match find_obj isMaster (st_heap st) (objects_of id st) with
  | None => (st, [fail])
  | Some (p, o) =>
      let '(ok, cm, out) := cm_addSlave (ob_cm o) (ob_app o) command in
      (put_obj p (set_ob_cm cm o) st, (SMessage <$> out) ++ (if ok then [] else [fail]))
  end.

(** [_cmdUnsubscribe] *)
Definition cmdUnsubscribe (sender id requestID masterInstanceID slaveInstanceID : Z) (st : ObjectStore) :
    ObjectStore * list Sent :=
  let st :=
    match find_obj (fun o => isMaster o && (ob_instanceID o =? masterInstanceID)) (st_heap st) (objects_of id st) with
    | Some (p, o) => put_obj p (set_ob_cm (cm_removeSlave sender slaveInstanceID (ob_cm o)) o) st
    | None => st
    end in
  (st, [SNode sender (CDetach id slaveInstanceID requestID)]).

(** [_cmdSync]: the instance asked for, or, if any will do, the one the requester
    has cached, or else the last one. *)
Fixpoint sync_object (instanceID cacheInstanceID : Z) (heap : gmap Z Obj) (l : list Z) (found : option (Z * Obj)) :
    option (Z * Obj) :=
  match l with
  | [] => found
  | p :: l =>
      match heap !! p with
      | None => sync_object instanceID cacheInstanceID heap l found
      | Some o =>
          if instanceID =? ob_instanceID o then Some (p, o)
          else if negb (instanceID =? CO_INSTANCE_ALL) then sync_object instanceID cacheInstanceID heap l found
          else if cacheInstanceID =? ob_instanceID o then Some (p, o)
          else sync_object instanceID cacheInstanceID heap l (Some (p, o))
      end
  end.

Definition cmdSync (command : MasterCMCommand) (st : ObjectStore) : ObjectStore * list Sent :=
  let id := mc_objectID command in
  let node := mc_node command in
  let fail := SNode node (CSyncReply (getNodeID node) id (mc_requestID command) false (mc_useCache command) false) in
  match sync_object (mc_instanceID command) (mc_masterInstanceID command) (st_heap st) (objects_of id st) None with
  | None => (st, [fail])
  | Some (p, o) =>
      let '(ok, cm, out) := cm_sendSync (ob_cm o) (ob_app o) command in
      (put_obj p (set_ob_cm cm o) st, (SMessage <$> out) ++ (if ok then [] else [fail]))
  end.

(** [_cmdRemoveNode]; the objects are visited in any order. *)
Definition cmdRemoveNode (node requestID : Z) (st : ObjectStore) : ObjectStore :=
  let st := fold_left (fun st p => update_obj p (fun o => set_ob_cm (cm_removeSlaves node (ob_cm o)) o) st)
              (concat (map_to_list (st_objects st)).*2) st in
  if negb (requestID =? LB_UNDEFINED_UINT32) then serveRequest requestID RVoid st else st.

Definition removeNode (node : Z) (st : ObjectStore) : ObjectStore * list Sent :=
  let '(request, st) := registerRequest DNone st in (st, [SNode (st_node st) (CRemoveNode node request)]).

(** [_cmdInstance]: cache the data, then hand it to whom it is for.  [sender] is the
    identifier of the node it came from, [now] the time. *)
Definition cmdInstance (sender now : Z) (inCommand : ICommand) (st : ObjectStore) : bool * ObjectStore * list Sent :=
  let source := CommandBuffer_source be in
  let command := ObjectDataICommand_of be inCommand in
  let '(nodeID, c) := read_field (read_u128 be) 0 (odc_icommand command) in
  let '(masterInstanceID, c) := read_field (read_item be 4) 0 c in
  let cmd := ic_cmd c in
  let c := setCommand CMD_OBJECT_INSTANCE (setType COMMANDTYPE_OBJECT c) in
  let id := oic_objectID (odc_command command) in
  let instanceID := oic_instanceID (odc_command command) in
  let version := odc_version command in
  let st :=
    match st_cache st with
    | Some ca =>
        if (version <? 2 ^ 64) && negb (cmd =? CMD_NODE_OBJECT_INSTANCE_PUSH)
        then set_st_cache (Some (add be it ca (mkObjectVersion id version) masterInstanceID sender now c 0).2) st
        else st
    | None => st
    end in
  if cmd =? CMD_NODE_OBJECT_INSTANCE then (true, st, [])
  else if cmd =? CMD_NODE_OBJECT_INSTANCE_MAP then
    if negb (nodeID =? getNodeID (st_node st)) then (true, st, []) else dispatchObjectCommand c st
  else if cmd =? CMD_NODE_OBJECT_INSTANCE_COMMIT then dispatchObjectCommand c st
  else if cmd =? CMD_NODE_OBJECT_INSTANCE_PUSH then
    (true, set_st_pushData (queue_addDataCommand be (st_pushData st) id c).2 st, [])
  else if cmd =? CMD_NODE_OBJECT_INSTANCE_SYNC then
    if negb (nodeID =? getNodeID (st_node st)) then (true, st, [])
    else
      match st_requests st !! instanceID with
      | Some (mkRequest (DStream istream) result) =>
          (true, set_st_requests (<[instanceID := mkRequest (DStream (addDataCommand be istream c)) result]>
                                   (st_requests st)) st, [])
      | _ => (true, st, [])
      end
  else (false, st, []).

(** [_cmdPush]: the stream handed to the push handler. *)
Definition cmdPush (id : Z) (st : ObjectStore) : option (ObjectDataIStream * ObjectStore) :=
  match pull (st_pushData st) id with
  | Some (istream, q) => Some (istream, set_st_pushData q st)
  | None => None
  end.

(** ** The instance cache *)

Definition expireInstanceData (now age : Z) (st : ObjectStore) : ObjectStore :=
  match st_cache st with Some c => set_st_cache (Some (expire it c now age)) st | None => st end.

Definition removeInstanceData (nodeID : Z) (st : ObjectStore) : ObjectStore :=
  match st_cache st with Some c => set_st_cache (Some (remove it c nodeID)) st | None => st end.

Definition disableInstanceCache (st : ObjectStore) : ObjectStore := set_st_cache None st.

Definition clear (now : Z) (st : ObjectStore) : ObjectStore :=
  set_st_sendQueue [] (set_st_objects ∅ (expireInstanceData now 0 st)).

End store.
