(* ===== verification/StoreTable.v ===== *)
(** * The table of attached objects (co/objectStore.cpp)

    The object store of a node as a state machine: application threads register,
    map, synchronise, swap and release objects, requests are answered, other nodes
    send commands.  Invariant: the table lists exactly the attached objects, under
    their identifier, with instance identifiers of their own. *)

From S2P Require Import Prelude Bytes Lunchbox DataOStream DataIStream Serialize Transfer Commands ObjectStreams InstanceCache CachePins Connections ObjectCM ObjectStore.

(** What a node waits for, by request: an attach command to itself, a mapping
    (the object, its identifier, the instance generated for it, what the cache
    held of it, whether the master confirmed it) or a synchronisation. *)
Inductive Pending :=
| PAttach (p id : Z)
| PMap (p id instanceID : Z) (cached : option (Z * list ObjectDataIStream)) (confirmed : bool)
| PSync (id : Z) (cached : option (Z * list ObjectDataIStream)).

(** The object about to be attached, that of the request, and the instance reserved
    for it. *)
Definition flight (pd : Pending) : option Z :=
  match pd with PAttach p _ | PMap p _ _ _ false => Some p | _ => None end.
Definition waiting (pd : Pending) : option Z :=
  match pd with PAttach p _ | PMap p _ _ _ _ => Some p | _ => None end.
Definition flight_instance (pd : Pending) : option Z :=
  match pd with PMap _ _ i _ false => Some i | _ => None end.

Section system.

Context {HP : Pression} {HL : Lunchbox} {HN : Network} (be : bool).
Context {CM App : Type} `{!ChangeManager CM App}.
Context {Q : Type -> Type} `{!MTQueue Q}.
Context (it : gmap Z Item -> list Z) (newRequest : gmap Z Request -> Z).
Context (isUUID isReachable : Z -> bool).
Context (CO_INSTANCE_MAX sendQueueSize sendQueueAge : Z).

Abbreviation obj := (Obj (CM := CM) (App := App)).
Abbreviation store := (ObjectStore (CM := CM) (App := App) (Q := Q)).

(** Operations that neither answer nor create a request of an object. *)
Inductive store_op :=
| OpDetach (id instanceID requestID : Z)
| OpUnmap (p : Z) | OpUnmapFinish (p : Z)
| OpDeregister (p : Z) | OpDeregisterFinish (p id : Z)
| OpCmdUnmap (id : Z)
| OpInstance (sender now : Z) (c : ICommand)
| OpObject (c : ICommand)
| OpMap (command : MasterCMCommand) | OpSync (command : MasterCMCommand)
| OpUnsubscribe (sender id requestID masterInstanceID slaveInstanceID : Z)
| OpRemoveNode (node requestID : Z)
| OpRegister (p now : Z) | OpCmdDeregister (requestID : Z) | OpIdle (now : Z) (nodes : list Z)
| OpEnableSend | OpDisableSend | OpCmdDisableSend (requestID : Z)
| OpFindReply (masterNodeID requestID : Z)
| OpExpireData (now age : Z) | OpRemoveData (nodeID : Z).

Definition store_do (op : store_op) (st : store) : store :=
  match op with
  | OpDetach id instanceID requestID => cmdDetach id instanceID requestID st
  | OpUnmap p => (unmap newRequest isReachable p st).1.2
  | OpUnmapFinish p => unmap_finish p st
  | OpDeregister p => (deregister newRequest sendQueueSize p st).1
  | OpDeregisterFinish p id => deregister_finish p id st
  | OpCmdUnmap id => cmdUnmap id st
  | OpInstance sender now c => (cmdInstance be it CO_INSTANCE_MAX sender now c st).1.2
  | OpObject c => (dispatchObjectCommand be CO_INSTANCE_MAX c st).1.2
  | OpMap command => (cmdMap command st).1
  | OpSync command => (cmdSync command st).1
  | OpUnsubscribe sender id requestID masterInstanceID slaveInstanceID =>
      (cmdUnsubscribe sender id requestID masterInstanceID slaveInstanceID st).1
  | OpRemoveNode node requestID => cmdRemoveNode node requestID st
  | OpRegister p now => cmdRegister sendQueueSize sendQueueAge p now st
  | OpCmdDeregister requestID => cmdDeregister requestID st
  | OpIdle now nodes => (notifyCommandThreadIdle now nodes st).1.2
  | OpEnableSend => enableSendOnRegister st
  | OpDisableSend => (disableSendOnRegister newRequest sendQueueSize st).1
  | OpCmdDisableSend requestID => cmdDisableSendOnRegister requestID st
  | OpFindReply masterNodeID requestID => cmdFindMasterNodeIDReply masterNodeID requestID st
  | OpExpireData now age => expireInstanceData it now age st
  | OpRemoveData nodeID => removeInstanceData it nodeID st
  end.

Record StoreSystem := mkStoreSystem { sy_store : store; sy_pending : gmap Z Pending }.

(** The number of instance identifiers generated so far. *)
Definition generated (st : store) : Z := st_instanceIDs st + 0x7FFFFFFF.

Definition idle (p : Z) (pe : gmap Z Pending) : Prop := map_Forall (fun _ pd => flight pd <> Some p) pe.

(** What the cache holds when a request is sent. *)
Definition announced (id : Z) (st : store) : option (Z * list ObjectDataIStream) :=
  match st_cache st with Some c => (cache_get c id).1 | None => None end.

(** A synchronisation uses the cache only for the instance asked for. *)
Definition sync_cached (instanceID : Z) (cached : option (Z * list ObjectDataIStream)) :
    option (Z * list ObjectDataIStream) :=
  match cached with
  | Some (masterInstanceID, _) =>
      if (instanceID =? CO_INSTANCE_ALL) || (instanceID =? masterInstanceID) then cached else None
  | None => None
  end.

Definition pinning (cached : option (Z * list ObjectDataIStream)) : bool :=
  match cached with Some _ => true | None => false end.

(** The steps.  Guards: applications attach an object only when it is not attached
    nor about to be; instance identifiers are not used up; a master confirms a
    mapping before it reports success, and uses cached data only where some was
    announced; fewer than 2^32 - 2 requests are open. *)
Inductive store_step : StoreSystem -> StoreSystem -> Prop :=
| y_register st pe p o :
    st_heap st !! p = Some o -> isAttached o = false -> idle p pe ->
    store_step (mkStoreSystem st pe)
      (mkStoreSystem (register_ newRequest p st).1 (<[newRequest (st_requests st) := PAttach p (ob_id o)]> pe))
| y_attach st pe r p id :
    pe !! r = Some (PAttach p id) -> generated st < CO_INSTANCE_MAX ->
    store_step (mkStoreSystem st pe)
      (mkStoreSystem (cmdAttach CO_INSTANCE_MAX id CO_INSTANCE_INVALID r st) (delete r pe))
| y_map st pe p id version master o :
    may_map isUUID isReachable p id master st = Some o -> idle p pe -> generated st < CO_INSTANCE_MAX ->
    Z.of_nat (size pe) < 2 ^ 32 - 3 ->
    store_step (mkStoreSystem st pe)
      (mkStoreSystem (mapNB newRequest isUUID isReachable CO_INSTANCE_MAX p id version master st).1.2
        (<[newRequest (st_requests st) := PMap p id (generated st + 1) (announced id st) false]> pe))
| y_success st pe r p id i cached type masterInstanceID :
    pe !! r = Some (PMap p id i cached false) ->
    store_step (mkStoreSystem st pe)
      (mkStoreSystem (cmdMapSuccess CO_INSTANCE_MAX (getNodeID (st_node st)) id r i type masterInstanceID st)
        (<[r := PMap p id i cached true]> pe))
| y_map_reply st pe r p id i cached sender version useCache :
    pe !! r = Some (PMap p id i cached true) -> (useCache = true -> pinning cached = true) ->
    store_step (mkStoreSystem st pe)
      (mkStoreSystem (cmdMapReply it sender (getNodeID (st_node st)) id version r true (pinning cached) useCache st)
        (delete r pe))
| y_map_fail st pe r p id i cached sender version :
    pe !! r = Some (PMap p id i cached false) ->
    store_step (mkStoreSystem st pe)
      (mkStoreSystem (cmdMapReply it sender (getNodeID (st_node st)) id version r false (pinning cached) false st)
        (delete r pe))
| y_sync st pe id instanceID master :
    isUUID id = true -> master <> 0 -> isReachable master = true -> Z.of_nat (size pe) < 2 ^ 32 - 3 ->
    store_step (mkStoreSystem st pe)
      (mkStoreSystem (startSync it newRequest isUUID isReachable id instanceID master st).1.2
        (<[newRequest (st_requests st) := PSync id (sync_cached instanceID (announced id st))]> pe))
| y_sync_reply st pe r id cached result useCache :
    pe !! r = Some (PSync id cached) -> (useCache = true -> result = true /\ pinning cached = true) ->
    store_step (mkStoreSystem st pe)
      (mkStoreSystem (cmdSyncReply it (getNodeID (st_node st)) id r result (pinning cached) useCache st) (delete r pe))
(** The application's side of a request that was answered. *)
| y_map_done st pe r ok st' out :
    pe !! r = None -> mapSync r st = Some (ok, st', out) ->
    store_step (mkStoreSystem st pe) (mkStoreSystem st' pe)
| y_sync_done st pe r p ok st' :
    pe !! r = None -> finishSync r p st = Some (ok, st') ->
    store_step (mkStoreSystem st pe) (mkStoreSystem st' pe)
| y_swap st pe old new o :
    st_heap st !! new = Some o -> isAttached o = false -> idle new pe ->
    store_step (mkStoreSystem st pe) (mkStoreSystem (swap old new st) pe)
| y_op st pe op :
    store_step (mkStoreSystem st pe) (mkStoreSystem (store_do op st) pe).

(** A new store, with objects that are not attached. *)
Definition store_start (s : StoreSystem) : Prop :=
  exists node heap cacheSize, s = mkStoreSystem (ObjectStore_init node heap cacheSize) ∅ /\
    map_Forall (fun _ o => isAttached o = false) heap.

Inductive store_reachable : StoreSystem -> Prop :=
| y_reach_start s : store_start s -> store_reachable s
| y_reach_step s s' : store_reachable s -> store_step s s' -> store_reachable s'.


(** ** The invariant *)

Record table_ok (st : store) (pe : gmap Z Pending) : Prop := {
  to_listed : forall id l p, st_objects st !! id = Some l -> p ∈ l ->
    exists o, st_heap st !! p = Some o /\ ob_id o = id /\ isAttached o = true;
  to_list : forall id l, st_objects st !! id = Some l -> l <> [] /\ NoDup l;
  to_attached : forall p o, st_heap st !! p = Some o -> isAttached o = true ->
    p ∈ objects_of (ob_id o) st /\ 1 <= ob_instanceID o <= generated st;
  to_unique : forall p q o o', st_heap st !! p = Some o -> st_heap st !! q = Some o' ->
    isAttached o = true -> isAttached o' = true -> ob_instanceID o = ob_instanceID o' -> p = q;
  to_generated : 0 <= generated st <= CO_INSTANCE_MAX;
  to_known : forall r pd, pe !! r = Some pd -> is_Some (st_requests st !! r);
  to_request : forall r pd p, pe !! r = Some pd -> flight pd = Some p ->
    getRequestData r st = DObject p /\ exists o, st_heap st !! p = Some o /\ isAttached o = false;
  to_flight : forall r r' pd pd' p, pe !! r = Some pd -> pe !! r' = Some pd' ->
    flight pd = Some p -> flight pd' = Some p -> r = r';
  to_instance : forall r pd i, pe !! r = Some pd -> flight_instance pd = Some i ->
    1 <= i <= generated st /\ forall p o, st_heap st !! p = Some o -> isAttached o = true -> ob_instanceID o <> i;
  to_instances : forall r r' pd pd' i, pe !! r = Some pd -> pe !! r' = Some pd' ->
    flight_instance pd = Some i -> flight_instance pd' = Some i -> r = r';
  to_data : forall r pd p, pe !! r = Some pd -> waiting pd = Some p -> getRequestData r st = DObject p;
}.

(** Two heaps with the same identities. *)
Definition ident (o : obj) : Z * Z := (ob_id o, ob_instanceID o).

Definition same_idents (h h' : gmap Z obj) : Prop := forall p, ident <$> h' !! p = ident <$> h !! p.

Lemma same_idents_refl h : same_idents h h.
Proof. done. Qed.

Lemma same_idents_trans h1 h2 h3 : same_idents h1 h2 -> same_idents h2 h3 -> same_idents h1 h3.
Proof. intros H12 H23 p. by rewrite H23, H12. Qed.

Lemma same_idents_insert h p o o' : h !! p = Some o -> ident o' = ident o -> same_idents h (<[p := o']> h).
Proof.
  intros Hl Hi q. destruct (decide (q = p)) as [->|Hne]; [|by rewrite lookup_insert_ne].
  rewrite lookup_insert_eq, Hl. cbn. by rewrite Hi.
Qed.

Lemma same_idents_at h h' p o' : same_idents h h' -> h' !! p = Some o' -> exists o, h !! p = Some o /\ ident o = ident o'.
Proof. intros Hs Hl. specialize (Hs p). rewrite Hl in Hs. destruct (h !! p) as [o|]; [|done]. apply (inj Some) in Hs. exists o. auto. Qed.

Lemma isAttached_ident o o' : ident o = ident o' -> isAttached o = isAttached o'.
Proof. intros [= Hi Hj]. unfold isAttached. by rewrite Hj. Qed.

(** Everything the invariant of the table depends on. *)
Record same_table (pe : gmap Z Pending) (st st' : store) : Prop := {
  sb_objects : st_objects st' = st_objects st;
  sb_heap : same_idents (st_heap st) (st_heap st');
  sb_ids : st_instanceIDs st' = st_instanceIDs st;
  sb_known : forall r pd, pe !! r = Some pd -> is_Some (st_requests st !! r) -> is_Some (st_requests st' !! r);
  sb_requests : forall r pd p, pe !! r = Some pd -> getRequestData r st = DObject p -> getRequestData r st' = DObject p;
}.

Lemma same_table_refl pe st : same_table pe st st.
Proof. by split. Qed.

Lemma same_table_trans pe st1 st2 st3 : same_table pe st1 st2 -> same_table pe st2 st3 -> same_table pe st1 st3.
Proof.
  intros [H1 H2 H3 H4 H5] [K1 K2 K3 K4 K5]. split; [congruence|exact (same_idents_trans _ _ _ H2 K2)|congruence|eauto..].
Qed.

Lemma table_ok_same st st' pe : same_table pe st st' -> table_ok st pe -> table_ok st' pe.
Proof.
  intros [Hobj Hheap Hids Hkn Hreq] Hok.
  assert (generated st' = generated st) as Hg by (unfold generated; by rewrite Hids).
  assert (forall p o', st_heap st' !! p = Some o' -> exists o, st_heap st !! p = Some o /\ ob_id o = ob_id o' /\
    ob_instanceID o = ob_instanceID o' /\ isAttached o = isAttached o') as Hback.
  { intros p o' Hl. destruct (same_idents_at _ _ _ _ Hheap Hl) as (o & Ho & Hi).
    exists o. pose proof (isAttached_ident _ _ Hi). by injection Hi as -> ->. }
  assert (forall p o, st_heap st !! p = Some o -> exists o', st_heap st' !! p = Some o' /\ ob_id o' = ob_id o /\
    isAttached o' = isAttached o) as Hfwd.
  { intros p o Hl. pose proof (Hheap p) as Hp. rewrite Hl in Hp. destruct (st_heap st' !! p) as [o'|]; [|done].
    cbn in Hp. injection Hp as Hi Hj. exists o'. split_and!; [done|done|apply isAttached_ident; unfold ident; congruence]. }
  split; rewrite ?Hg, ?Hobj; try apply Hok.
  - intros id l p Hl Hp. destruct (to_listed _ _ Hok _ _ _ Hl Hp) as (o & Ho & <- & Ha).
    destruct (Hfwd p o Ho) as (o' & Ho' & Hid & Ha'). exists o'. split_and!; congruence.
  - intros p o' Hl Ha. destruct (Hback p o' Hl) as (o & Ho & <- & <- & Hat). unfold objects_of. rewrite Hobj.
    apply (to_attached _ _ Hok p); [done|congruence].
  - intros p q o1 o2 H1 H2 A1 A2 Hi. destruct (Hback _ _ H1) as (o & Ho & _ & Ei & Ea), (Hback _ _ H2) as (o' & Ho' & _ & Ei' & Ea').
    eapply (to_unique _ _ Hok); eauto; congruence.
  - intros r pd Hr. eapply Hkn; [done|]. by eapply (to_known _ _ Hok).
  - intros r pd p Hr Hf. destruct (to_request _ _ Hok r pd p Hr Hf) as [Hd (o & Ho & Ha)].
    split; [by eapply Hreq|]. destruct (Hfwd p o Ho) as (o' & Ho' & _ & Ha'). exists o'. split; congruence.
  - intros r pd i Hr Hf. destruct (to_instance _ _ Hok r pd i Hr Hf) as [Hi Hne]. split; [done|].
    intros p o' Hl Ha. destruct (Hback _ _ Hl) as (o & Ho & _ & <- & Ea). apply (Hne p); congruence.
  - intros r pd p Hr Hw. eapply Hreq; [done|]. by eapply (to_data _ _ Hok).
Qed.

(** *** Requests that end or begin *)

(** The request [r] ends, or its object is attached. *)
Definition lands (r : Z) (pe pe' : gmap Z Pending) : Prop :=
  is_Some (pe !! r) /\ forall r' pd, pe' !! r' = Some pd ->
    (r' = r /\ flight pd = None /\ flight_instance pd = None /\
       exists pd0, pe !! r = Some pd0 /\ waiting pd = waiting pd0) \/ (r' <> r /\ pe !! r' = Some pd).

Lemma lands_delete r pe pd : pe !! r = Some pd -> lands r pe (delete r pe).
Proof. intros Hr. split; [done|]. intros r' x [Hne Hl]%lookup_delete_Some. right. split; congruence. Qed.

Lemma lands_insert r pe pd pd' :
  pe !! r = Some pd -> flight pd' = None -> flight_instance pd' = None -> waiting pd' = waiting pd ->
  lands r pe (<[r := pd']> pe).
Proof.
  intros Hr Hf Hi Hw. split; [done|]. intros r' x Hl. apply lookup_insert_Some in Hl as [[<- <-]|[Hne Hl]]; [left; eauto 10|].
  right. split; [congruence|done].
Qed.

(** The parts of the invariant that are about requests. *)
Lemma table_ok_lands st pe pe' r : lands r pe pe' -> table_ok st pe -> table_ok st pe'.
Proof.
  intros [[pd0 Hr] Hl] [H1 H2 H3 H4 H5 H6 H7 H8 H9 H10 H11]. split; try done.
  - intros r' pd [(-> & _)|[_ Hp]]%Hl; eauto.
  - intros r' pd p [(-> & Hf & _)|[_ Hp]]%Hl; [congruence|eauto].
  - intros r1 r2 x y p [(-> & Hf & _)|[_ Hp]]%Hl [(-> & Hf' & _)|[_ Hp']]%Hl Hx Hy; try congruence. eauto.
  - intros r' pd i [(-> & _ & Hf & _)|[_ Hp]]%Hl; [congruence|eauto].
  - intros r1 r2 x y p [(-> & _ & Hf & _)|[_ Hp]]%Hl [(-> & _ & Hf' & _)|[_ Hp']]%Hl Hx Hy; try congruence. eauto.
  - intros r' pd p [(-> & _ & _ & pd1 & Hp & ->)|[_ Hp]]%Hl; eauto.
Qed.

(** A new request, for an object that is neither attached nor about to be, with a
    new instance if any. *)
Lemma table_ok_request st pe r pd p o :
  table_ok st pe -> pe !! r = None -> flight pd = Some p -> waiting pd = Some p -> getRequestData r st = DObject p ->
  st_heap st !! p = Some o -> isAttached o = false -> idle p pe ->
  (forall i, flight_instance pd = Some i -> 1 <= i <= generated st /\
     (forall q oq, st_heap st !! q = Some oq -> isAttached oq = true -> ob_instanceID oq <> i) /\
     (forall r' pd', pe !! r' = Some pd' -> flight_instance pd' <> Some i)) ->
  table_ok st (<[r := pd]> pe).
Proof.
  intros [H1 H2 H3 H4 H5 H6 H7 H8 H9 H10 H11] Hr Hf Hw Hd Ho Ha Hidle Hinst.
  assert (forall r' x, <[r := pd]> pe !! r' = Some x -> (r' = r /\ x = pd) \/ (r' <> r /\ pe !! r' = Some x)) as Hl.
  { intros r' x Hx. apply lookup_insert_Some in Hx as [[<- <-]|[Hne Hx]]; [by left|right; split; congruence]. }
  split; try done.
  - intros r' x [(-> & ->)|[_ Hp]]%Hl; [|eauto]. unfold getRequestData in Hd. destruct (st_requests st !! r); done.
  - intros r' x q [(-> & ->)|[_ Hp]]%Hl Hq; [|eauto]. rewrite Hf in Hq. injection Hq as <-. eauto.
  - intros r1 r2 x y q [(-> & ->)|[_ Hp]]%Hl [(-> & ->)|[_ Hp']]%Hl Hx Hy; [done| | |eauto].
    + rewrite Hf in Hx. injection Hx as <-. by destruct (Hidle _ _ Hp').
    + rewrite Hf in Hy. injection Hy as <-. by destruct (Hidle _ _ Hp).
  - intros r' x i [(-> & ->)|[_ Hp]]%Hl Hi; [|eauto]. destruct (Hinst i Hi) as (? & ? & _). done.
  - intros r1 r2 x y i [(-> & ->)|[_ Hp]]%Hl [(-> & ->)|[_ Hp']]%Hl Hx Hy; [done| | |eauto].
    + destruct (Hinst i Hx) as (_ & _ & Hn). by destruct (Hn _ _ Hp').
    + destruct (Hinst i Hy) as (_ & _ & Hn). by destruct (Hn _ _ Hp).
  - intros r' x q [(-> & ->)|[_ Hp]]%Hl Hq; [congruence|eauto].
Qed.

(** *** Instance identifiers *)

Context (Hmax : 0 < CO_INSTANCE_MAX < CO_INSTANCE_NONE).

Lemma genNextID_spec n : 0 <= n < CO_INSTANCE_MAX -> genNextID CO_INSTANCE_MAX (n - 0x7FFFFFFF) = (n + 1, n + 1 - 0x7FFFFFFF).
Proof.
  intros Hn. unfold CO_INSTANCE_NONE in Hmax. unfold genNextID.
  destruct (Z.to_nat (0x100000000 - CO_INSTANCE_MAX)) as [|fuel] eqn:E; [lia|]. cbn [genNextID_loop].
  replace (n - 0x7FFFFFFF + 1) with (n + 1 - 0x7FFFFFFF) by lia. rewrite i32_small by (unfold is_i32; lia).
  replace (n + 1 - 0x7FFFFFFF + 0x7FFFFFFF) with (n + 1) by lia. rewrite u32_small by (unfold is_u32; lia).
  rewrite gtb_false by lia. done.
Qed.

Lemma nextInstanceID_spec st :
  0 <= generated st < CO_INSTANCE_MAX ->
  nextInstanceID CO_INSTANCE_MAX st = (generated st + 1, set_st_instanceIDs (st_instanceIDs st + 1) st).
Proof.
  intros Hg. unfold nextInstanceID. replace (st_instanceIDs st) with (generated st - 0x7FFFFFFF) at 1 by (unfold generated; lia).
  rewrite genNextID_spec by done. f_equal. f_equal. unfold generated. lia.
Qed.

Lemma table_ok_bump st pe :
  generated st < CO_INSTANCE_MAX -> table_ok st pe -> table_ok (set_st_instanceIDs (st_instanceIDs st + 1) st) pe.
Proof.
  intros Hg [H1 H2 H3 H4 H5 H6 H7 H8 H9 H10 H11]. set (st' := set_st_instanceIDs _ st).
  assert (generated st' = generated st + 1) as Hg' by (unfold generated, st'; cbn; lia).
  split; rewrite ?Hg'; try done.
  - intros p o Ho Ha. destruct (H3 p o Ho Ha) as [? ?]. split; [done|lia].
  - lia.
  - intros r pd i Hr Hi. destruct (H9 r pd i Hr Hi) as [? ?]. split; [lia|done].
Qed.

(** *** Attaching *)

Lemma attached_inst i id (o : obj) : 0 <= i <= CO_INSTANCE_MAX -> isAttached (Object_attach id i o) = true.
Proof. intros Hi. unfold isAttached. cbn. rewrite (proj2 (Z.eqb_neq _ _)); [done|]. unfold CO_INSTANCE_INVALID, CO_INSTANCE_NONE in *. lia. Qed.

Lemma objects_of_insert id l st id' :
  objects_of id' (set_st_objects (<[id := l]> (st_objects st)) st : store) = if decide (id' = id) then l else objects_of id' st.
Proof.
  unfold objects_of. cbn. case_decide as Hd; [subst; by rewrite lookup_insert_eq|by rewrite lookup_insert_ne].
Qed.

Lemma attach_ok st pe pe' r pd p id i :
  table_ok st pe -> pe !! r = Some pd -> flight pd = Some p -> lands r pe pe' ->
  1 <= i <= generated st ->
  (forall q o, st_heap st !! q = Some o -> isAttached o = true -> ob_instanceID o <> i) ->
  (forall r' pd', r' <> r -> pe !! r' = Some pd' -> flight_instance pd' <> Some i) ->
  table_ok (set_st_objects (<[id := objects_of id st ++ [p]]> (st_objects st)) (update_obj p (Object_attach id i) st)) pe'.
Proof.
  intros Hok Hr Hf [_ Hl] Hi Hfresh Hpend. destruct (to_request _ _ Hok r pd p Hr Hf) as [Hreq (o & Ho & Ha)].
  pose proof (to_generated _ _ Hok) as Hgen.
  unfold update_obj. rewrite Ho. set (o' := Object_attach id i o). set (st' := set_st_objects _ _).
  assert (isAttached o' = true) as Ha' by (apply attached_inst; lia).
  assert (forall q oq, st_heap st' !! q = Some oq -> (q = p /\ oq = o') \/ (q <> p /\ st_heap st !! q = Some oq)) as Hh.
  { intros q oq Hq. cbn in Hq. apply lookup_insert_Some in Hq as [[<- <-]|[Hne Hq]]; [by left|right; split; congruence]. }
  assert (forall q, q <> p -> st_heap st' !! q = st_heap st !! q) as Hne by (intros q Hq; cbn; by rewrite lookup_insert_ne).
  assert (st_heap st' !! p = Some o') as Hp' by (cbn; by rewrite lookup_insert_eq).
  assert (forall q oq, st_heap st !! q = Some oq -> isAttached oq = true -> q <> p) as Hother by (intros q oq Hq Hat ->; congruence).
  assert (forall id', p ∉ objects_of id' st) as Hnot.
  { intros id' Hin. unfold objects_of in Hin. destruct (st_objects st !! id') as [l|] eqn:E; [|by apply elem_of_nil in Hin].
    destruct (to_listed _ _ Hok _ _ _ E Hin) as (o1 & Ho1 & _ & Ha1). congruence. }
  change (generated st') with (generated st) in *.
  split.
  - intros id' l q Hlk Hq. cbn in Hlk. apply lookup_insert_Some in Hlk as [[<- <-]|[Hid Hlk]].
    + apply elem_of_app in Hq as [Hq|Hq%list_elem_of_singleton]; [|subst q; exists o'; done].
      unfold objects_of in Hq. destruct (st_objects st !! id) as [l|] eqn:E; [|by apply elem_of_nil in Hq].
      destruct (to_listed _ _ Hok _ _ _ E Hq) as (oq & Hoq & ? & Haq). exists oq. split; [|done].
      rewrite Hne; [done|by eapply Hother].
    + destruct (to_listed _ _ Hok _ _ _ Hlk Hq) as (oq & Hoq & ? & Haq). exists oq. split; [|done].
      rewrite Hne; [done|by eapply Hother].
  - intros id' l Hlk. cbn in Hlk. apply lookup_insert_Some in Hlk as [[<- <-]|[Hid Hlk]]; [|by apply (to_list _ _ Hok id')].
    split; [by destruct (objects_of id st)|]. apply NoDup_app. split; [|split; [|apply NoDup_singleton]].
    + unfold objects_of. destruct (st_objects st !! id) as [l|] eqn:E; [by apply (to_list _ _ Hok id)|constructor].
    + intros q Hq ->%list_elem_of_singleton. by apply (Hnot id).
  - intros q oq Hq Haq. change (objects_of (ob_id oq) st') with
      (objects_of (ob_id oq) (set_st_objects (<[id := objects_of id st ++ [p]]> (st_objects st)) st)).
    rewrite objects_of_insert. apply Hh in Hq as [[-> ->]|[Hqp Hq]].
    + cbn. rewrite decide_True by done. split; [|exact Hi]. apply elem_of_app. right. by apply list_elem_of_singleton.
    + destruct (to_attached _ _ Hok q oq Hq Haq) as [Hin ?]. split; [|done].
      case_decide as Hd; [rewrite <-Hd; apply elem_of_app; by left|done].
  - intros q q' oq oq' [[-> ->]|[Hqp Hq]]%Hh [[-> ->]|[Hqp' Hq']]%Hh A1 A2 Hi'; [done| | |by eapply (to_unique _ _ Hok)].
    + by destruct (Hfresh q' oq').
    + by destruct (Hfresh q oq).
  - done.
  - intros r' x [(-> & _)|[_ Hp]]%Hl; by eapply (to_known _ _ Hok).
  - intros r' x q [(-> & Hx & _)|[Hrr Hp]]%Hl Hq; [congruence|].
    destruct (to_request _ _ Hok r' x q Hp Hq) as [Hd (oq & Hoq & Haq)]. split; [done|]. exists oq. split; [|done].
    rewrite Hne; [done|]. intros ->. apply Hrr. by eapply (to_flight _ _ Hok).
  - intros r1 r2 x y q [(-> & Hx & _)|[_ Hp]]%Hl [(-> & Hy & _)|[_ Hp2]]%Hl Hx' Hy'; try congruence. by eapply (to_flight _ _ Hok).
  - intros r' x j [(-> & _ & Hx & _)|[Hrr Hp]]%Hl Hj; [congruence|]. destruct (to_instance _ _ Hok r' x j Hp Hj) as [Hj1 Hj2].
    split; [done|]. intros q oq [[-> ->]|[Hqp Hq]]%Hh Haq; [|by apply (Hj2 q)]. cbn. intros ->. by destruct (Hpend r' x).
  - intros r1 r2 x y q [(-> & _ & Hx & _)|[_ Hp]]%Hl [(-> & _ & Hy & _)|[_ Hp2]]%Hl Hx' Hy'; try congruence.
    by eapply (to_instances _ _ Hok).
  - intros r' x q [(-> & _ & _ & pd1 & Hp & ->)|[_ Hp]]%Hl Hq; by eapply (to_data _ _ Hok).
Qed.

(** *** Detaching *)

(** The objects of [S] are detached. *)
Record detaches (S : list Z) (st st' : store) : Prop := {
  de_heap : forall p, st_heap st' !! p = if decide (p ∈ S) then Object_detach <$> st_heap st !! p else st_heap st !! p;
  de_objects : forall id l, st_objects st' !! id = Some l -> l <> [] /\ NoDup l;
  de_listed : forall id p, p ∈ objects_of id st' <-> p ∈ objects_of id st /\ p ∉ S;
  de_ids : st_instanceIDs st' = st_instanceIDs st;
  de_requests : st_requests st' = st_requests st;
}.

Lemma listed_of st pe id p : table_ok st pe -> p ∈ objects_of id st ->
  exists o, st_heap st !! p = Some o /\ ob_id o = id /\ isAttached o = true.
Proof.
  intros Hok Hp. unfold objects_of in Hp. destruct (st_objects st !! id) as [l|] eqn:E; [|by apply elem_of_nil in Hp].
  by eapply (to_listed _ _ Hok).
Qed.

Lemma detaches_ok S st st' pe : detaches S st st' -> table_ok st pe -> table_ok st' pe.
Proof.
  intros [Hh Ho Hl Hids Hreq] Hok.
  assert (generated st' = generated st) as Hg by (unfold generated; by rewrite Hids).
  assert (forall p o, st_heap st' !! p = Some o -> isAttached o = true -> (p ∉ S) /\ st_heap st !! p = Some o) as Hatt.
  { intros p o Hp Ha. rewrite Hh in Hp. case_decide; [|done]. apply fmap_Some in Hp as (o0 & _ & ->). done. }
  split; rewrite ?Hg.
  - intros id l p Hid Hp.
    assert (p ∈ objects_of id st') as Hin by (unfold objects_of; by rewrite Hid).
    apply Hl in Hin as [Hin Hn]. destruct (listed_of _ _ _ _ Hok Hin) as (o & Hp' & ? & ?). exists o. split; [|done].
    rewrite Hh, decide_False by done. done.
  - done.
  - intros p o Hp Ha. destruct (Hatt p o Hp Ha) as [Hn Hp']. destruct (to_attached _ _ Hok p o Hp' Ha) as [Hin ?].
    split; [|done]. by apply Hl.
  - intros p q o o' Hp Hq A1 A2. destruct (Hatt _ _ Hp A1) as [_ Hp'], (Hatt _ _ Hq A2) as [_ Hq'].
    by apply (to_unique _ _ Hok).
  - apply (to_generated _ _ Hok).
  - rewrite Hreq. apply (to_known _ _ Hok).
  - intros r pd p Hr Hf. destruct (to_request _ _ Hok r pd p Hr Hf) as [Hd (o & Hp & Ha)].
    split; [unfold getRequestData; by rewrite Hreq|]. rewrite Hh. case_decide; [|by exists o].
    rewrite Hp. cbn. eexists. split; [done|]. done.
  - apply (to_flight _ _ Hok).
  - intros r pd i Hr Hf. destruct (to_instance _ _ Hok r pd i Hr Hf) as [Hi Hne]. split; [done|].
    intros p o Hp Ha. destruct (Hatt _ _ Hp Ha) as [_ Hp']. by apply (Hne p).
  - apply (to_instances _ _ Hok).
  - unfold getRequestData. rewrite Hreq. apply (to_data _ _ Hok).
Qed.

Lemma erase_first_spec p l : NoDup l -> NoDup (erase_first p l) /\ forall q, q ∈ erase_first p l <-> q ∈ l /\ q <> p.
Proof.
  intros Hnd. unfold erase_first. destruct (list_find (eq p) l) as [[i x]|] eqn:E.
  - apply list_find_Some in E as (Hi & <- & _). apply take_drop_middle in Hi. rewrite delete_take_drop.
    rewrite <-Hi in Hnd. apply NoDup_app in Hnd as (N1 & N2 & N3). apply NoDup_cons in N3 as [N3 N4].
    split; [apply NoDup_app; split_and!; [done| |done]; intros q Hq Hq'; apply (N2 q Hq); by right|].
    intros q. rewrite <-Hi at 3. rewrite !elem_of_app, elem_of_cons.
    assert (p ∉ take i l) by (intros Hp; apply (N2 p Hp); by left). naive_solver.
  - apply list_find_None in E. split; [done|]. intros q. split; [|tauto]. intros Hq. split; [done|].
    rewrite Forall_forall in E. intros ->. by apply (E p).
Qed.

Lemma detach_detaches p st pe o :
  table_ok st pe -> st_heap st !! p = Some o -> isAttached o = true -> detaches [p] st (_detach p st).
Proof.
  intros Hok Ho Ha. unfold _detach. rewrite Ho, Ha. cbn [negb].
  assert (NoDup (objects_of (ob_id o) st)) as Hnd.
  { unfold objects_of. destruct (st_objects st !! ob_id o) as [l|] eqn:E; [by apply (to_list _ _ Hok _ _ E)|constructor]. }
  destruct (erase_first_spec p _ Hnd) as [He1 He2].
  assert (forall id q, q ∈ objects_of id st -> q = p -> id = ob_id o) as Hid.
  { intros id q Hq ->. destruct (listed_of _ _ _ _ Hok Hq) as (o' & Ho' & <- & _). congruence. }
  set (l := erase_first p (objects_of (ob_id o) st)) in *.
  unfold update_obj. cbn [st_heap set_st_objects]. rewrite Ho. split; cbn.
  - intros q. destruct (decide (q = p)) as [->|Hne].
    + rewrite lookup_insert_eq, decide_True by (by apply list_elem_of_singleton). by rewrite Ho.
    + rewrite lookup_insert_ne, decide_False by (rewrite ?list_elem_of_singleton; congruence). done.
  - intros id k Hk. assert (st_objects st !! id = Some k \/ (k = l /\ l <> [])) as [Hk'|[-> Hl]].
    { destruct l; [apply lookup_delete_Some in Hk as [_ Hk]; by left|].
      apply lookup_insert_Some in Hk as [[_ <-]|[_ Hk]]; [by right|by left]. }
    + by apply (to_list _ _ Hok id).
    + done.
  - intros id q. rewrite list_elem_of_singleton. unfold objects_of at 1. cbn.
    assert (default [] (match l with [] => delete (ob_id o) (st_objects st) | _ => <[ob_id o := l]> (st_objects st) end !! id) =
      if decide (id = ob_id o) then l else objects_of id st) as ->.
    { destruct l; case_decide as Hd; unfold objects_of; subst;
        rewrite ?lookup_delete_eq, ?lookup_insert_eq, ?lookup_delete_ne, ?lookup_insert_ne by done; done. }
    case_decide as Hd; [subst id; apply He2|]. split; [|tauto]. intros Hq. split; [done|]. intros ->. by apply Hd, (Hid _ p).
  - done.
  - done.
Qed.

Lemma detach_ok p st pe : table_ok st pe -> table_ok (_detach p st) pe.
Proof.
  intros Hok. destruct (st_heap st !! p) as [o|] eqn:Ho; [|unfold _detach; by rewrite Ho].
  destruct (isAttached o) eqn:Ha; [|unfold _detach; by rewrite Ho, Ha].
  eapply detaches_ok; [|done]. by eapply detach_detaches.
Qed.

Lemma fold_detach S st :
  st_objects (fold_left (fun st p => update_obj p Object_detach st) S st) = st_objects st /\
  st_instanceIDs (fold_left (fun st p => update_obj p Object_detach st) S st) = st_instanceIDs st /\
  st_requests (fold_left (fun st p => update_obj p Object_detach st) S st) = st_requests st /\
  forall p, st_heap (fold_left (fun st p => update_obj p Object_detach st) S st : store) !! p =
    if decide (p ∈ S) then Object_detach <$> st_heap st !! p else st_heap st !! p.
Proof.
  revert st. induction S as [|q S IH]; intros st; cbn [fold_left].
  { split_and!; try done. }
  destruct (IH (update_obj q Object_detach st)) as (-> & -> & -> & Hh).
  assert (forall p, st_heap (update_obj q Object_detach st) !! p =
    if decide (p = q) then Object_detach <$> st_heap st !! p else st_heap st !! p) as Hq.
  { intros p. unfold update_obj. destruct (st_heap st !! q) as [o|] eqn:Ho; cbn.
    - case_decide as Hd; [subst; by rewrite lookup_insert_eq, Ho|by rewrite lookup_insert_ne].
    - case_decide as Hd; [subst; by rewrite Ho|done]. }
  assert (st_objects (update_obj q Object_detach st) = st_objects st /\
    st_instanceIDs (update_obj q Object_detach st) = st_instanceIDs st /\
    st_requests (update_obj q Object_detach st) = st_requests st) as (-> & -> & ->)
    by (unfold update_obj; destruct (st_heap st !! q); done).
  split_and!; try done. intros p. rewrite Hh, Hq.
  destruct (decide (p ∈ S)) as [Hin|Hn].
  - rewrite (decide_True (P := p ∈ q :: S)) by (by right). case_decide; [|done].
    destruct (st_heap st !! p); done.
  - case_decide as Hd; [subst; by rewrite decide_True by (by left)|].
    rewrite decide_False; [done|]. intros [->|]%elem_of_cons; done.
Qed.

Lemma erase_cached_table pe id st : same_table pe st (erase_cached id st).
Proof. unfold erase_cached. destruct (st_cache st); [by split|apply same_table_refl]. Qed.

Lemma cmdUnmap_ok id st pe : table_ok st pe -> table_ok (cmdUnmap id st) pe.
Proof.
  intros Hok0. unfold cmdUnmap. set (st1 := erase_cached id st).
  assert (table_ok st1 pe) as Hok by (eapply table_ok_same; [apply erase_cached_table|done]).
  destruct (st_objects st1 !! id) as [l|] eqn:El; [|done].
  destruct (fold_detach l (set_st_objects (delete id (st_objects st1)) st1)) as (Ho & Hi & Hr & Hh).
  eapply (detaches_ok l st1); [|done]. split; try done.
  - intros id' k. rewrite Ho. cbn. intros [_ Hk]%lookup_delete_Some. by apply (to_list _ _ Hok id').
  - intros id' p. unfold objects_of at 1. rewrite Ho. cbn.
    destruct (decide (id' = id)) as [->|Hne].
    + rewrite lookup_delete_eq. cbn. unfold objects_of. rewrite El. cbn. rewrite elem_of_nil. tauto.
    + rewrite lookup_delete_ne by done. fold (objects_of id' st1). split; [|tauto]. intros Hp. split; [done|].
      intros Hin. destruct (listed_of _ _ _ _ Hok Hp) as (o & Ho' & <- & _).
      destruct (to_listed _ _ Hok _ _ _ El Hin) as (o' & Ho'' & <- & _). congruence.
Qed.

(** *** Swapping *)

Lemma swap_ok old new o st pe :
  table_ok st pe -> st_heap st !! new = Some o -> isAttached o = false -> idle new pe -> table_ok (swap old new st) pe.
Proof.
  intros Hok Hnew Han Hidle. unfold swap. rewrite Hnew.
  destruct (st_heap st !! old) as [oo|] eqn:Hold; [|done].
  destruct (isAttached oo) eqn:Hao; cbn [negb]; [|done].
  destruct (st_objects st !! ob_id oo) as [objects|] eqn:El; [|done].
  destruct (list_find (eq old) objects) as [[j x]|] eqn:Ef; [|done].
  apply list_find_Some in Ef as (Hj & <- & _).
  assert (old <> new) as Hne by (intros ->; congruence).
  set (on := (transfer oo o).1). set (oo' := (transfer oo o).2).
  change (let '(newObject, oldObject') := transfer oo o in _) with
    (put_obj new on (put_obj old oo' (set_st_objects (<[ob_id oo := <[j := new]> objects]> (st_objects st)) st))).
  set (st' := put_obj new on _).
  assert (isAttached on = true /\ ob_id on = ob_id oo /\ ob_instanceID on = ob_instanceID oo) as (A1 & A2 & A3) by done.
  assert (isAttached oo' = false) as A4 by done.
  assert (forall p, st_heap st' !! p = if decide (p = new) then Some on else if decide (p = old) then Some oo' else st_heap st !! p) as Hh.
  { intros p. cbn. destruct (decide (p = new)) as [->|]; [by rewrite lookup_insert_eq|]. rewrite lookup_insert_ne by done.
    destruct (decide (p = old)) as [->|]; [by rewrite lookup_insert_eq|]. by rewrite lookup_insert_ne. }
  assert (forall p q, st_heap st' !! p = Some q -> isAttached q = true ->
    (p = new /\ q = on) \/ (p <> new /\ p <> old /\ st_heap st !! p = Some q)) as Hatt.
  { intros p q. rewrite Hh. repeat case_decide; [intros [= <-]; by left|intros [= <-]; congruence|by right]. }
  destruct (to_list _ _ Hok _ _ El) as [Hnn Hnd].
  assert (new ∉ objects) as Hnin.
  { intros Hin. destruct (to_listed _ _ Hok _ _ _ El Hin) as (o1 & Ho1 & _ & Ha1). congruence. }
  assert (forall p, p ∈ <[j := new]> objects <-> p = new \/ (p ∈ objects /\ p <> old)) as Hins.
  { intros p. rewrite (insert_take_drop objects j new) by (by apply lookup_lt_Some in Hj).
    pose proof (take_drop_middle _ _ _ Hj) as Hmid. rewrite <-Hmid in Hnd.
    apply NoDup_app in Hnd as (N1 & N2 & N3). apply NoDup_cons in N3 as [N3 N4].
    assert (old ∉ take j objects) by (intros Hp; apply (N2 old Hp); by left).
    rewrite <-Hmid at 3. rewrite !elem_of_app, !elem_of_cons. naive_solver. }
  assert (forall id p, p ∈ objects_of id st' <-> (p = new /\ id = ob_id oo) \/ (p ∈ objects_of id st /\ p <> old)) as Hof.
  { intros id p. change (objects_of id st') with
      (objects_of id (set_st_objects (<[ob_id oo := <[j := new]> objects]> (st_objects st)) st)).
    rewrite objects_of_insert. case_decide as Hd.
    - rewrite Hins. subst id. unfold objects_of. rewrite El. cbn. naive_solver.
    - split; [|naive_solver]. intros Hp. right. split; [done|]. intros ->.
      destruct (listed_of _ _ _ _ Hok Hp) as (o1 & Ho1 & Hi & _). congruence. }
  split; change (generated st') with (generated st).
  - intros id l p Hl Hp. assert (p ∈ objects_of id st') as Hin by (unfold objects_of; by rewrite Hl).
    apply Hof in Hin as [[-> ->]|[Hin Hpo]]; [exists on; by rewrite Hh, decide_True|].
    destruct (listed_of _ _ _ _ Hok Hin) as (o1 & Ho1 & Hi & Ha1). exists o1. split; [|done].
    rewrite Hh, decide_False by (intros ->; congruence). by rewrite decide_False.
  - intros id l Hl. cbn in Hl. apply lookup_insert_Some in Hl as [[<- <-]|[_ Hl]]; [|by apply (to_list _ _ Hok id)].
    split; [by destruct objects, j|]. rewrite (insert_take_drop objects j new) by (by apply lookup_lt_Some in Hj).
    pose proof (take_drop_middle _ _ _ Hj) as Hmid. rewrite <-Hmid in Hnd.
    apply NoDup_app in Hnd as (N1 & N2 & N3). apply NoDup_cons in N3 as [N3 N4].
    rewrite <-Hmid in Hnin. rewrite elem_of_app, elem_of_cons in Hnin.
    apply NoDup_app. split; [done|]. split.
    + intros p Hp [->|Hp']%elem_of_cons; [tauto|]. apply (N2 p Hp). by right.
    + apply NoDup_cons. split; [tauto|done].
  - intros p q Hp Ha. apply Hatt in Hp as [[-> ->]|(P1 & P2 & Hp)]; [|..|done].
    + destruct (to_attached _ _ Hok old oo Hold Hao) as [_ Hi]. rewrite A2, A3. split; [|done]. apply Hof. by left.
    + destruct (to_attached _ _ Hok p q Hp Ha) as [Hi ?]. split; [|done]. apply Hof. by right.
  - intros p q a b Hp Hq B1 B2 Hi. apply Hatt in Hp as [[-> ->]|(P1 & P2 & Hp)]; [..|done];
      (apply Hatt in Hq as [[-> ->]|(Q1 & Q2 & Hq)]; [..|done]); [done| | |by eapply (to_unique _ _ Hok)].
    + rewrite A3 in Hi. destruct Q2. symmetry. by eapply (to_unique _ _ Hok old q).
    + rewrite A3 in Hi. destruct P2. by eapply (to_unique _ _ Hok p old).
  - apply (to_generated _ _ Hok).
  - apply (to_known _ _ Hok).
  - intros r pd p Hr Hf. destruct (to_request _ _ Hok r pd p Hr Hf) as [Hd (o1 & Ho1 & Ha1)]. split; [done|].
    rewrite Hh. repeat case_decide; [|by exists oo'|by exists o1]. subst. by destruct (Hidle r pd Hr).
  - apply (to_flight _ _ Hok).
  - intros r pd i Hr Hf. destruct (to_instance _ _ Hok r pd i Hr Hf) as [Hi Hn]. split; [done|].
    intros p q Hp Ha. apply Hatt in Hp as [[-> ->]|(P1 & P2 & Hp)]; [..|done]; [rewrite A3; by apply (Hn old)|by apply (Hn p)].
  - apply (to_instances _ _ Hok).
  - apply (to_data _ _ Hok).
Qed.

(** *** Operations that leave the table alone *)

Context (Hnew : forall m : gmap Z Request, m !! newRequest m = None).

Lemma update_obj_table pe p f st : (forall o, ident (f o) = ident o) -> same_table pe st (update_obj p f st).
Proof.
  intros Hf. unfold update_obj. destruct (st_heap st !! p) as [o|] eqn:Ho; [|apply same_table_refl].
  split; try done. cbn. by eapply same_idents_insert.
Qed.

Lemma put_obj_table pe p o o' st : st_heap st !! p = Some o -> ident o' = ident o -> same_table pe st (put_obj p o' st).
Proof. intros Ho Hi. split; try done. cbn. by eapply same_idents_insert. Qed.

Lemma serveRequest_table pe r x st : same_table pe st (serveRequest r x st).
Proof.
  unfold serveRequest. destruct (st_requests st !! r) as [q|] eqn:E; [|apply same_table_refl].
  split; try done; unfold getRequestData; cbn; intros r'.
  - intros pd _ Hs. destruct (decide (r' = r)) as [->|]; [rewrite lookup_insert_eq; eauto|by rewrite lookup_insert_ne].
  - intros pd p _ Hd. destruct (decide (r' = r)) as [->|]; [by rewrite lookup_insert_eq; rewrite E in Hd|by rewrite lookup_insert_ne].
Qed.

Lemma registerRequest_table pe d st : same_table pe st (registerRequest newRequest d st).2.
Proof.
  split; try done; unfold getRequestData; cbn; intros r.
  - intros pd _ Hs. destruct (decide (r = newRequest (st_requests st))) as [->|]; [rewrite lookup_insert_eq; eauto|by rewrite lookup_insert_ne].
  - intros pd p _ Hd. destruct (decide (r = newRequest (st_requests st))) as [->|]; [by rewrite Hnew in Hd|by rewrite lookup_insert_ne].
Qed.

(** A request that no object waits for is dropped or replaced. *)
Lemma requests_table pe r st m :
  pe !! r = None -> (forall r', r' <> r -> m !! r' = st_requests st !! r') -> same_table pe st (set_st_requests m st).
Proof.
  intros Hr Hm. split; try done; unfold getRequestData; cbn; intros r' pd.
  - intros Hp. rewrite Hm; [done|]. congruence.
  - intros p Hp. rewrite Hm; [done|]. congruence.
Qed.

Lemma release_cached_table pe id n st : same_table pe st (release_cached it id n st).
Proof. unfold release_cached. destruct (st_cache st); [by split|apply same_table_refl]. Qed.

Lemma set_cache_table pe c st : same_table pe st (set_st_cache c st).
Proof. by split. Qed.

Lemma checkInstanceCache_table pe id st : same_table pe st (checkInstanceCache id st).2.
Proof.
  unfold checkInstanceCache. destruct (st_cache st) as [c|]; [|apply same_table_refl].
  destruct (cache_get c id). apply set_cache_table.
Qed.

Lemma detach_request_table pe p st : same_table pe st (detach newRequest p st).1.
Proof.
  unfold detach. pose proof (registerRequest_table pe DNone st) as Ht.
  destruct (registerRequest newRequest DNone st) as [r st1]. cbn in Ht. by destruct (st_heap st1 !! p).
Qed.

Lemma dispatch_to_table pe c p st : same_table pe st (dispatch_to c p st).1.
Proof.
  unfold dispatch_to. destruct (st_heap st !! p) as [o|] eqn:Ho; [|apply same_table_refl].
  destruct (cm_dispatch _ _ _) as [[[ok cm] app] out]. cbn. by eapply put_obj_table.
Qed.

Lemma dispatch_all_table pe c l st : same_table pe st (dispatch_all c l st).1.
Proof.
  revert st. induction l as [|p l IH]; intros st; cbn [dispatch_all]; [apply same_table_refl|].
  pose proof (dispatch_to_table pe c p st) as Ht. destruct (dispatch_to c p st) as [st1 out].
  specialize (IH st1). destruct (dispatch_all c l st1) as [st2 out']. cbn in *. by eapply same_table_trans.
Qed.

Lemma dispatchObjectCommand_table pe c st : same_table pe st (dispatchObjectCommand be CO_INSTANCE_MAX c st).1.2.
Proof.
  unfold dispatchObjectCommand. destruct (st_objects st !! _) as [l|]; [|apply same_table_refl].
  destruct (_ <=? _).
  - destruct (find_obj _ _ _) as [[p o]|]; [|apply same_table_refl].
    pose proof (dispatch_to_table pe c p st) as Ht. by destruct (dispatch_to c p st).
  - pose proof (dispatch_all_table pe c l st) as Ht. by destruct (dispatch_all c l st).
Qed.

Lemma cmdInstance_table pe sender now c st : same_table pe st (cmdInstance be it CO_INSTANCE_MAX sender now c st).1.2.
Proof.
  unfold cmdInstance. destruct (read_field _ _ _) as [nodeID c1], (read_field _ _ _) as [mi c2].
  set (c3 := setCommand _ _). set (id := oic_objectID _). set (inst := oic_instanceID _). set (ver := odc_version _).
  set (st1 := match st_cache st with Some _ => _ | None => _ end).
  assert (same_table pe st st1) as H1.
  { unfold st1. destruct (st_cache st); [|apply same_table_refl]. destruct (_ && _); [apply set_cache_table|apply same_table_refl]. }
  repeat match goal with |- context [if ?b then _ else _] => destruct b end; try done.
  - eapply same_table_trans; [done|apply dispatchObjectCommand_table].
  - eapply same_table_trans; [done|apply dispatchObjectCommand_table].
  - eapply same_table_trans; [done|]. by split.
  - eapply same_table_trans; [done|]. destruct (st_requests st1 !! inst) as [[[| |istream] res]|] eqn:E; try apply same_table_refl.
    split; try done; unfold getRequestData; cbn; intros r.
    + intros pd _ Hs. destruct (decide (r = inst)) as [->|]; [rewrite lookup_insert_eq; eauto|by rewrite lookup_insert_ne].
    + intros pd p _ Hd. destruct (decide (r = inst)) as [->|]; [by rewrite E in Hd|by rewrite lookup_insert_ne].
Qed.

Lemma find_obj_heap f h l p (o : obj) : find_obj f h l = Some (p, o) -> h !! p = Some o /\ p ∈ l /\ f o = true.
Proof.
  induction l as [|q l IH]; cbn; [done|]. destruct (h !! q) as [oq|] eqn:Hq.
  - destruct (f oq) eqn:Hf; [intros [= <- <-]; split_and!; try done; by left|].
    intros (? & ? & ?)%IH. split_and!; try done. by right.
  - intros (? & ? & ?)%IH. split_and!; try done. by right.
Qed.

Lemma sync_object_heap i ci h l found p (o : obj) :
  (forall q oq, found = Some (q, oq) -> h !! q = Some oq) -> sync_object i ci h l found = Some (p, o) -> h !! p = Some o.
Proof.
  revert found. induction l as [|q l IH]; intros found Hf; cbn; [by apply Hf|].
  destruct (h !! q) as [oq|] eqn:Hq; [|by apply IH].
  destruct (_ =? _); [by intros [= <- <-]|]. destruct (negb _); [by apply IH|].
  destruct (_ =? _); [by intros [= <- <-]|]. apply IH. by intros q' oq' [= <- <-].
Qed.

Lemma fold_update_table pe f l st :
  (forall o, ident (f o) = ident o) -> same_table pe st (fold_left (fun st p => update_obj p f st) l st).
Proof.
  intros Hf. revert st. induction l as [|p l IH]; intros st; cbn; [apply same_table_refl|].
  eapply same_table_trans; [by apply update_obj_table|apply IH].
Qed.

Lemma store_do_ok op st pe : table_ok st pe -> table_ok (store_do op st) pe.
Proof.
  intros Hok. destruct op; cbn [store_do].
  - unfold cmdDetach. eapply table_ok_same; [apply serveRequest_table|].
    destruct (find_obj _ _ _) as [[p o]|]; [by apply detach_ok|done].
  - eapply table_ok_same; [|done]. unfold unmap. destruct (st_heap st !! p) as [o|]; [|apply same_table_refl].
    destruct (negb _); [apply same_table_refl|]. destruct (_ && _ && _).
    + pose proof (registerRequest_table pe DNone st) as Ht. by destruct (registerRequest newRequest DNone st).
    + pose proof (detach_request_table pe p st) as Ht. by destruct (detach newRequest p st).
  - eapply table_ok_same; [|done]. by apply update_obj_table.
  - eapply table_ok_same; [|done]. unfold deregister. destruct (st_heap st !! p) as [o|]; [|apply same_table_refl].
    destruct (negb _); [apply same_table_refl|].
    assert (forall st1 out, same_table pe st st1 ->
      same_table pe st (let '(st2, out'') := detach newRequest p st1 in (st2, notifyDetach o ++ out ++ out'')).1) as Hd.
    { intros st1 out H1. pose proof (detach_request_table pe p st1) as Ht. destruct (detach newRequest p st1) as [st2 out2].
      cbn in *. by eapply same_table_trans. }
    destruct (_ >? _); [|apply Hd, same_table_refl].
    pose proof (registerRequest_table pe DNone st) as Ht. destruct (registerRequest newRequest DNone st) as [r st1]. by apply Hd.
  - eapply table_ok_same; [|done]. eapply same_table_trans; [|apply erase_cached_table]. by apply update_obj_table.
  - by apply cmdUnmap_ok.
  - eapply table_ok_same; [apply cmdInstance_table|done].
  - eapply table_ok_same; [apply dispatchObjectCommand_table|done].
  - eapply table_ok_same; [|done]. unfold cmdMap. destruct (find_obj _ _ _) as [[p o]|] eqn:E; [|apply same_table_refl].
    apply find_obj_heap in E as [Ho _]. destruct (cm_addSlave _ _ _) as [[ok cm] out]. by eapply put_obj_table.
  - eapply table_ok_same; [|done]. unfold cmdSync. destruct (sync_object _ _ _ _ _) as [[p o]|] eqn:E; [|apply same_table_refl].
    apply sync_object_heap in E; [|done]. destruct (cm_sendSync _ _ _) as [[ok cm] out]. by eapply put_obj_table.
  - eapply table_ok_same; [|done]. unfold cmdUnsubscribe. destruct (find_obj _ _ _) as [[p o]|] eqn:E; [|apply same_table_refl].
    apply find_obj_heap in E as [Ho _]. by eapply put_obj_table.
  - eapply table_ok_same; [|done]. unfold cmdRemoveNode.
    set (f := fold_left _ _ _). assert (same_table pe st f) as Hf by (by apply fold_update_table).
    destruct (negb _); [eapply same_table_trans; [done|apply serveRequest_table]|done].
  - eapply table_ok_same; [|done]. unfold cmdRegister. destruct (_ <=? _); [apply same_table_refl|by split].
  - eapply table_ok_same; [|done]. unfold cmdDeregister. eapply same_table_trans; [|apply serveRequest_table].
    destruct (getRequestData _ _); [apply same_table_refl|by split|apply same_table_refl].
  - eapply table_ok_same; [|done]. unfold notifyCommandThreadIdle. destruct (st_sendQueue st) as [|[age p] q]; [apply same_table_refl|].
    destruct (_ >? _); [|by split]. destruct (is_nil nodes); [apply same_table_refl|].
    destruct (st_heap st !! p) as [o|] eqn:Ho; [|by split].
    destruct (cm_sendInstanceData _ _ _) as [cm out]. apply (same_table_trans pe st (put_obj p (set_ob_cm cm o) st)); [by eapply put_obj_table|by split].
  - eapply table_ok_same; [|done]. by split.
  - eapply table_ok_same; [|done]. unfold disableSendOnRegister. destruct (_ >? _); [|by split].
    pose proof (registerRequest_table pe DNone st) as Ht. by destruct (registerRequest newRequest DNone st).
  - eapply table_ok_same; [|done]. unfold cmdDisableSendOnRegister. eapply same_table_trans; [|apply serveRequest_table].
    destruct (_ =? _); by split.
  - eapply table_ok_same; [|done]. apply serveRequest_table.
  - eapply table_ok_same; [|done]. unfold expireInstanceData. destruct (st_cache st); [apply set_cache_table|apply same_table_refl].
  - eapply table_ok_same; [|done]. unfold removeInstanceData. destruct (st_cache st); [apply set_cache_table|apply same_table_refl].
Qed.

(** *** The steps *)

Lemma setup_ident type master loc mi (o : obj) : ident (setupChangeManager type master loc mi o) = ident o.
Proof. unfold setupChangeManager. repeat case_match; done. Qed.

Lemma cmdAttach_ok st pe r p id :
  table_ok st pe -> pe !! r = Some (PAttach p id) -> generated st < CO_INSTANCE_MAX ->
  table_ok (cmdAttach CO_INSTANCE_MAX id CO_INSTANCE_INVALID r st) (delete r pe).
Proof.
  intros Hok Hr Hg. destruct (to_request _ _ Hok r _ p Hr eq_refl) as [Hd _]. unfold cmdAttach. rewrite Hd.
  eapply table_ok_same; [apply serveRequest_table|]. unfold _attach. rewrite Z.eqb_refl.
  pose proof (to_generated _ _ Hok) as Hg0. rewrite nextInstanceID_spec by lia.
  set (st1 := set_st_instanceIDs _ st). pose proof (table_ok_bump st pe Hg Hok) as Hok1.
  assert (generated st1 = generated st + 1) as Hg1 by (unfold generated, st1; cbn; lia).
  assert (objects_of id (update_obj p (Object_attach id (generated st + 1)) st1) = objects_of id st1 /\
    st_objects (update_obj p (Object_attach id (generated st + 1)) st1) = st_objects st1) as [-> ->]
    by (unfold update_obj; destruct (st_heap st1 !! p); done).
  apply (attach_ok st1 pe _ r (PAttach p id)); try done; [by eapply lands_delete|lia| |].
  - intros q o Hq Ha. destruct (to_attached _ _ Hok q o Hq Ha). lia.
  - intros r' pd' _ Hp Hi. destruct (to_instance _ _ Hok r' pd' _ Hp Hi). lia.
Qed.

Lemma cmdMapSuccess_ok st pe r p id i cached type mi :
  table_ok st pe -> pe !! r = Some (PMap p id i cached false) ->
  table_ok (cmdMapSuccess CO_INSTANCE_MAX (getNodeID (st_node st)) id r i type mi st) (<[r := PMap p id i cached true]> pe).
Proof.
  intros Hok Hr. destruct (to_request _ _ Hok r _ p Hr eq_refl) as [Hd _].
  destruct (to_instance _ _ Hok r _ i Hr eq_refl) as [Hi Hfresh]. pose proof (to_generated _ _ Hok) as Hg0.
  unfold cmdMapSuccess. rewrite Z.eqb_refl, Hd. cbn [negb]. set (st1 := update_obj p _ st).
  assert (same_table pe st st1) as Hs by (apply update_obj_table; intros o; apply setup_ident).
  pose proof (table_ok_same _ _ _ Hs Hok) as Hok1. unfold _attach.
  rewrite (proj2 (Z.eqb_neq i CO_INSTANCE_INVALID)) by (unfold CO_INSTANCE_INVALID, CO_INSTANCE_NONE in *; lia).
  assert (objects_of id (update_obj p (Object_attach id i) st1) = objects_of id st1 /\
    st_objects (update_obj p (Object_attach id i) st1) = st_objects st1) as [-> ->]
    by (unfold update_obj; destruct (st_heap st1 !! p); done).
  destruct (to_instance _ _ Hok1 r _ i Hr eq_refl) as [Hi1 Hfresh1].
  apply (attach_ok st1 pe _ r (PMap p id i cached false)); try done; [by eapply lands_insert|].
  intros r' pd' Hne Hp Hi'. apply Hne. by eapply (to_instances _ _ Hok).
Qed.

Lemma cmdMapReply_table pe sender id v r result rel use st :
  same_table pe st (cmdMapReply it sender (getNodeID (st_node st)) id v r result rel use st).
Proof.
  unfold cmdMapReply. rewrite Z.eqb_refl. cbn [negb]. eapply same_table_trans; [|apply serveRequest_table].
  destruct result; [|destruct rel; [apply release_cached_table|apply same_table_refl]].
  destruct (getRequestData r st) as [|p|]; try apply same_table_refl.
  set (st1 := update_obj p _ st). assert (same_table pe st st1) as H1 by (by apply update_obj_table).
  eapply same_table_trans; [exact H1|]. clearbody st1. clear H1.
  destruct use.
  - destruct (st_cache st1) as [c|]; [|apply same_table_refl]. destruct (cache_get c id) as [cached c'].
    eapply same_table_trans; [|apply release_cached_table]. eapply same_table_trans; [apply set_cache_table|].
    by apply update_obj_table.
  - destruct rel; [apply release_cached_table|apply same_table_refl].
Qed.

Lemma cmdSyncReply_table pe id r result rel use st :
  pe !! r = None -> same_table pe st (cmdSyncReply it (getNodeID (st_node st)) id r result rel use st).
Proof.
  intros Hr. unfold cmdSyncReply. rewrite Z.eqb_refl. cbn [negb]. eapply same_table_trans; [|apply serveRequest_table].
  assert (same_table pe st (if rel then release_cached it id 1 st else st)) as Hrel
    by (destruct rel; [apply release_cached_table|apply same_table_refl]).
  destruct result; [|done]. destruct use; [|done].
  destruct (st_cache st) as [c|]; [|apply same_table_refl]. destruct (cache_get c id) as [cached c'].
  eapply same_table_trans; [|apply release_cached_table]. eapply same_table_trans; [apply (set_cache_table pe (Some c'))|].
  destruct cached as [[mi vs]|], (st_requests (set_st_cache (Some c') st) !! r) as [q|]; try apply same_table_refl.
  destruct (last vs); [|apply same_table_refl]. apply (requests_table pe r); [done|].
  intros r' Hne. by rewrite lookup_insert_ne.
Qed.

Lemma waitRequest_table pe r st x st' : pe !! r = None -> waitRequest r st = Some (x, st') -> same_table pe st st'.
Proof.
  intros Hr. unfold waitRequest. destruct (st_requests st !! r) as [[d [y|]]|]; try done. intros [= _ <-].
  apply (requests_table pe r); [done|]. intros r' Hne. by rewrite lookup_delete_ne.
Qed.

Lemma mapSync_table pe r st ok st' out : pe !! r = None -> mapSync r st = Some (ok, st', out) -> same_table pe st st'.
Proof.
  intros Hr. unfold mapSync. destruct (_ =? _); [intros [= _ <- _]; apply same_table_refl|].
  destruct (getRequestData r st) as [|p|]; try (intros [= _ <- _]; apply same_table_refl).
  destruct (waitRequest r st) as [[[] st1]|] eqn:Ew; try done. apply (waitRequest_table pe) in Ew; [|done].
  destruct (st_heap st1 !! p) as [o|] eqn:Ho; [|done].
  destruct (isAttached o); [|by intros [= _ <- _]].
  destruct (cm_applyMapData _ _ _) as [[[cm app] out1]|]; [|done]. intros [= _ <- _].
  eapply same_table_trans; [done|]. by eapply put_obj_table.
Qed.

Lemma finishSync_table pe r p st ok st' : pe !! r = None -> finishSync r p st = Some (ok, st') -> same_table pe st st'.
Proof.
  intros Hr. unfold finishSync. destruct (_ =? _); [intros [= _ <-]; apply same_table_refl|].
  destruct (getRequestData r st) as [| |istream]; try (intros [= _ <-]; apply same_table_refl).
  destruct (waitRequest r st) as [[[| |[]|] st1]|] eqn:Ew; try done; apply (waitRequest_table pe) in Ew; try done.
  - destruct (isReady istream); [|done]. intros [= _ <-]. eapply same_table_trans; [done|]. by apply update_obj_table.
  - by intros [= _ <-].
Qed.

Lemma startSync_table pe id inst master st :
  same_table pe st (startSync it newRequest isUUID isReachable id inst master st).1.2.
Proof.
  unfold startSync. destruct (_ || _ || _); [apply same_table_refl|].
  pose proof (registerRequest_table pe (DStream ObjectDataIStream_init) st) as H1.
  destruct (registerRequest newRequest _ st) as [r st1]. cbn in H1.
  pose proof (checkInstanceCache_table pe id st1) as H2. destruct (checkInstanceCache id st1) as [cached st2]. cbn in H2.
  assert (same_table pe st st2) as H3 by (by eapply same_table_trans).
  destruct cached as [[[mi a] b]|]; cbn -[Z.eqb release_cached]; [|done]. destruct ((inst =? _) || _); [done|].
  eapply same_table_trans; [done|apply release_cached_table].
Qed.

Lemma new_pending st pe : table_ok st pe -> pe !! newRequest (st_requests st) = None.
Proof.
  intros Hok. destruct (pe !! newRequest (st_requests st)) as [pd|] eqn:E; [|done].
  destruct (to_known _ _ Hok _ _ E) as [x Hx]. by rewrite Hnew in Hx.
Qed.

Lemma mapNB_ok st pe p id version master o cached :
  table_ok st pe -> may_map isUUID isReachable p id master st = Some o -> idle p pe -> generated st < CO_INSTANCE_MAX ->
  table_ok (mapNB newRequest isUUID isReachable CO_INSTANCE_MAX p id version master st).1.2
    (<[newRequest (st_requests st) := PMap p id (generated st + 1) cached false]> pe).
Proof.
  intros Hok Hmay Hidle Hg. unfold mapNB. rewrite Hmay. pose proof (to_generated _ _ Hok) as Hg0.
  set (r := newRequest (st_requests st)).
  assert (st_heap st !! p = Some o /\ isAttached o = false) as [Ho Ha].
  { unfold may_map in Hmay. destruct (_ || _); [done|]. destruct (negb _); [done|].
    destruct (st_heap st !! p) as [o'|]; [|done]. destruct (isAttached o') eqn:Ha; [done|]. cbn in Hmay.
    destruct (isMaster o'); by simplify_eq. }
  pose proof (registerRequest_table pe (DObject p) st) as H1. unfold registerRequest in *. fold r in H1 |- *.
  set (st1 := set_st_requests _ st) in *. cbn in H1.
  pose proof (checkInstanceCache_table pe id st1) as H2.
  assert (getRequestData r (checkInstanceCache id st1).2 = DObject p) as Hd.
  { unfold checkInstanceCache. unfold getRequestData.
    destruct (st_cache st1) as [c|]; [destruct (cache_get c id)|]; cbn; by rewrite lookup_insert_eq. }
  destruct (checkInstanceCache id st1) as [ca st2] eqn:E2. cbn in H2, Hd.
  pose proof (table_ok_same _ _ _ H2 (table_ok_same _ _ _ H1 Hok)) as Hok2.
  assert (generated st2 = generated st) as Hg2 by (unfold generated; by rewrite (sb_ids _ _ _ H2)).
  assert (st_heap st2 = st_heap st) as Hh2.
  { unfold checkInstanceCache in E2. destruct (st_cache st1) as [c|]; [destruct (cache_get c id)|]; by simplify_eq. }
  rewrite nextInstanceID_spec by lia. rewrite Hg2. cbn [fst snd].
  set (st3 := set_st_instanceIDs _ st2).
  assert (generated st3 = generated st + 1) as Hg3 by (unfold generated, st3 in *; cbn; lia).
  assert (table_ok st3 (<[r := PMap p id (generated st + 1) cached false]> pe)) as Hend; [|by destruct ca as [[[? ?] ?]|]].
  apply (table_ok_request st3 pe r _ p o); try done.
  - apply table_ok_bump; [lia|done].
  - by apply new_pending.
  - unfold st3. cbn. by rewrite Hh2.
  - intros i [= <-]. split; [lia|]. split.
    + intros q oq Hq Haq. unfold st3 in Hq. cbn in Hq. rewrite Hh2 in Hq. destruct (to_attached _ _ Hok q oq Hq Haq). lia.
    + intros r' pd' Hp Hi. destruct (to_instance _ _ Hok r' pd' _ Hp Hi). lia.
Qed.

Lemma register_ok st pe p o :
  table_ok st pe -> st_heap st !! p = Some o -> isAttached o = false -> idle p pe ->
  table_ok (register_ newRequest p st).1 (<[newRequest (st_requests st) := PAttach p (ob_id o)]> pe).
Proof.
  intros Hok Ho Ha Hidle. unfold register_. rewrite Ho. set (o1 := setupChangeManager _ _ _ _ o).
  set (st1 := put_obj p o1 st). assert (ident o1 = ident o) as Hi by apply setup_ident.
  assert (same_table pe st st1) as H1 by (by eapply put_obj_table).
  unfold attach. pose proof (registerRequest_table pe (DObject p) st1) as H2. unfold registerRequest in *.
  cbn [fst snd] in *. change (st_requests st1) with (st_requests st) in *. set (r := newRequest (st_requests st)) in *.
  apply (table_ok_request _ pe r _ p o1); try done.
  - eapply table_ok_same; [exact H2|]. by eapply table_ok_same.
  - by apply new_pending.
  - unfold getRequestData. cbn. by rewrite lookup_insert_eq.
  - cbn. by rewrite lookup_insert_eq.
  - rewrite <-Ha. by apply isAttached_ident.
Qed.

Lemma sync_request_ok st pe r id cached :
  table_ok st pe -> is_Some (st_requests st !! r) -> pe !! r = None -> table_ok st (<[r := PSync id cached]> pe).
Proof.
  intros [H1 H2 H3 H4 H5 H6 H7 H8 H9 H10 H11] Hs Hr.
  assert (forall r' x, <[r := PSync id cached]> pe !! r' = Some x ->
    (r' = r /\ flight x = None /\ flight_instance x = None /\ waiting x = None) \/ pe !! r' = Some x) as Hl.
  { intros r' x Hx. apply lookup_insert_Some in Hx as [[<- <-]|[Hne Hx]]; [by left|by right]. }
  split; try done.
  - intros r' x [(-> & _)|Hp]%Hl; eauto.
  - intros r' x p [(-> & Hf & _)|Hp]%Hl; [congruence|eauto].
  - intros r1 r2 x y p [(-> & Hf & _)|Hp]%Hl [(-> & Hf' & _)|Hp']%Hl Hx Hy; try congruence. eauto.
  - intros r' x i [(-> & _ & Hf & _)|Hp]%Hl; [congruence|eauto].
  - intros r1 r2 x y p [(-> & _ & Hf & _)|Hp]%Hl [(-> & _ & Hf' & _)|Hp']%Hl Hx Hy; try congruence. eauto.
  - intros r' x p [(-> & _ & _ & Hw)|Hp]%Hl; [congruence|eauto].
Qed.

Lemma startSync_known id inst master (st : store) :
  isUUID id = true -> master <> 0 -> isReachable master = true ->
  is_Some (st_requests (startSync it newRequest isUUID isReachable id inst master st).1.2 !! newRequest (st_requests st)).
Proof.
  intros Hu Hm Hr. unfold startSync. rewrite Hu, Hr, (proj2 (Z.eqb_neq _ _) Hm). cbn [negb orb registerRequest].
  unfold registerRequest. set (st1 := set_st_requests _ st).
  assert (is_Some (st_requests st1 !! newRequest (st_requests st))) as H1 by (unfold st1; cbn; rewrite lookup_insert_eq; eauto).
  assert (forall st2 n, st_requests (release_cached it id n st2 : store) = st_requests st2) as Hrel
    by (intros st2 n; unfold release_cached; by destruct (st_cache st2)).
  unfold checkInstanceCache. destruct (st_cache st1) as [c|]; [|done].
  destruct (cache_get c id) as [[[mi vs]|] c']; cbn -[Z.eqb release_cached]; [|done].
  destruct ((inst =? _) || _); [done|]. cbn -[release_cached]. by rewrite Hrel.
Qed.

Lemma store_step_ok s s' : store_step s s' -> table_ok (sy_store s) (sy_pending s) -> table_ok (sy_store s') (sy_pending s').
Proof.
  intros Hstep Hok. destruct Hstep; cbn [sy_store sy_pending] in *.
  - by apply register_ok.
  - by eapply cmdAttach_ok.
  - by eapply mapNB_ok.
  - by apply cmdMapSuccess_ok.
  - eapply table_ok_same; [apply cmdMapReply_table|]. eapply table_ok_lands; [by eapply lands_delete|done].
  - eapply table_ok_same; [apply cmdMapReply_table|]. eapply table_ok_lands; [by eapply lands_delete|done].
  - apply sync_request_ok; [|by apply startSync_known|by apply new_pending].
    eapply table_ok_same; [apply startSync_table|done].
  - eapply table_ok_same; [apply cmdSyncReply_table, lookup_delete_eq|]. eapply table_ok_lands; [by eapply lands_delete|done].
  - eapply table_ok_same; [by eapply mapSync_table|done].
  - eapply table_ok_same; [by eapply finishSync_table|done].
  - by eapply swap_ok.
  - by apply store_do_ok.
Qed.

Lemma store_reachable_ok s : store_reachable s -> table_ok (sy_store s) (sy_pending s).
Proof.
  induction 1 as [s (node & heap & size & -> & Hun)|s s' _ IH Hstep]; [|by eapply store_step_ok].
  cbn. split; cbn; try done.
  - intros p o Hp Ha. specialize (Hun p o Hp). cbn in Hun. congruence.
  - intros p q o o' Hp Hq Ha. specialize (Hun p o Hp). cbn in Hun. congruence.
  - unfold generated. cbn. lia.
Qed.

(** C8: The table of objects is exact.  Whatever applications and other nodes do,
    the table lists an object under an identifier if and only if the object is
    attached with it, no object twice; and all attached objects, and those whose
    mapping is under way, have instance identifiers of their own, which never are
    one of the special ones. *)
Theorem object_table_exact s :
  store_reachable s ->
  (forall id p, p ∈ objects_of id (sy_store s) <->
     exists o, st_heap (sy_store s) !! p = Some o /\ isAttached o = true /\ ob_id o = id) /\
  (forall id, NoDup (objects_of id (sy_store s))) /\
  (forall p o, st_heap (sy_store s) !! p = Some o -> isAttached o = true ->
     1 <= ob_instanceID o <= CO_INSTANCE_MAX /\
     (forall q o', st_heap (sy_store s) !! q = Some o' -> isAttached o' = true ->
        ob_instanceID o' = ob_instanceID o -> q = p) /\
     (forall r p' id i cached, sy_pending s !! r = Some (PMap p' id i cached false) -> i <> ob_instanceID o)).
Proof.
  intros Hr. pose proof (store_reachable_ok s Hr) as Hok. split; [|split].
  - intros id p. split.
    + intros Hp. destruct (listed_of _ _ _ _ Hok Hp) as (o & ? & ? & ?). by exists o.
    + intros (o & Ho & Ha & <-). by apply (to_attached _ _ Hok p o).
  - intros id. unfold objects_of. destruct (st_objects (sy_store s) !! id) as [l|] eqn:E; [by apply (to_list _ _ Hok id)|constructor].
  - intros p o Ho Ha. pose proof (to_generated _ _ Hok). destruct (to_attached _ _ Hok p o Ho Ha) as [_ Hi].
    split; [lia|]. split.
    + intros q o' Hq Ha' He. by eapply (to_unique _ _ Hok).
    + intros r p' id i cached Hp ->. destruct (to_instance _ _ Hok r _ _ Hp eq_refl) as [_ Hn]. by apply (Hn p o).
Qed.

(** ** Dispatching *)

(** The objects a command is for, and what it does to one. *)
Definition addressed (id instanceID : Z) (o : obj) : bool :=
  isAttached o && (ob_id o =? id) && ((instanceID >? CO_INSTANCE_MAX) || (instanceID =? ob_instanceID o)).

Definition dispatched (c : ICommand) (o : obj) : obj :=
  let '(_, cm, app, _) := cm_dispatch (ob_cm o) (ob_app o) c in set_ob_app app (set_ob_cm cm o).

Lemma dispatch_to_heap c p (st : store) q :
  st_heap (dispatch_to c p st).1 !! q = if decide (q = p) then dispatched c <$> st_heap st !! q else st_heap st !! q.
Proof.
  unfold dispatch_to, dispatched. destruct (st_heap st !! p) as [o|] eqn:Ho.
  - destruct (cm_dispatch _ _ _) as [[[ok cm] app] out] eqn:E. cbn. case_decide as Hd.
    + subst. rewrite lookup_insert_eq, Ho. cbn. by rewrite E.
    + by rewrite lookup_insert_ne.
  - cbn. case_decide as Hd; [subst; by rewrite Ho|done].
Qed.

Lemma dispatch_all_heap c l (st : store) q :
  NoDup l ->
  st_heap (dispatch_all c l st).1 !! q = if decide (q ∈ l) then dispatched c <$> st_heap st !! q else st_heap st !! q.
Proof.
  revert st. induction l as [|p l IH]; intros st Hnd; cbn [dispatch_all]; [done|].
  apply NoDup_cons in Hnd as [Hp Hnd]. pose proof (dispatch_to_heap c p st q) as H1.
  destruct (dispatch_to c p st) as [st1 out]. specialize (IH st1 Hnd).
  destruct (dispatch_all c l st1) as [st2 out']. cbn in *. rewrite IH, H1.
  destruct (decide (q ∈ l)) as [Hin|Hn].
  - rewrite (decide_True (P := q ∈ p :: l)) by (by right). rewrite decide_False; [done|]. by intros ->.
  - case_decide as Hd; [subst; by rewrite decide_True by (by left)|].
    rewrite decide_False; [done|]. by intros [->|]%elem_of_cons.
Qed.

Lemma find_obj_None f h l p (o : obj) : find_obj f h l = None -> p ∈ l -> h !! p = Some o -> f o = false.
Proof.
  induction l as [|q l IH]; cbn; intros Hf Hp Ho; [by apply elem_of_nil in Hp|].
  apply elem_of_cons in Hp as [->|Hp].
  - rewrite Ho in Hf. by destruct (f o).
  - destruct (h !! q) as [oq|]; [destruct (f oq); [done|]|]; by apply IH.
Qed.

(** What dispatching a command must do. *)
Definition dispatch_result (c : ICommand) (st : store) (ok : bool) (st' : store) : Prop :=
  let id := oic_objectID (ObjectICommand_of be c) in
  let instanceID := oic_instanceID (ObjectICommand_of be c) in
  (forall p, st_heap st' !! p =
     (fun o => if addressed id instanceID o then dispatched c o else o) <$> st_heap st !! p) /\
  (ok = true <-> (exists p o, st_heap st !! p = Some o /\ addressed id instanceID o = true) \/
     (instanceID = CO_INSTANCE_NONE /\
      forall p o, st_heap st !! p = Some o -> isAttached o = true -> ob_id o <> id)).

Lemma addressed_listed st pe id inst p o :
  table_ok st pe -> st_heap st !! p = Some o ->
  addressed id inst o = bool_decide (p ∈ objects_of id st) && ((inst >? CO_INSTANCE_MAX) || (inst =? ob_instanceID o)).
Proof.
  intros Hok Ho. unfold addressed. f_equal. apply eq_true_iff_eq. rewrite bool_decide_eq_true, andb_true_iff, Z.eqb_eq. split.
  - intros [Ha <-]. by apply (to_attached _ _ Hok p o).
  - intros Hp. destruct (listed_of _ _ _ _ Hok Hp) as (o' & Ho' & <- & Ha). rewrite Ho in Ho'. by injection Ho' as ->.
Qed.

(** No addressee. *)
Lemma dispatch_nobody c st ok :
  (forall p o, st_heap st !! p = Some o ->
     addressed (oic_objectID (ObjectICommand_of be c)) (oic_instanceID (ObjectICommand_of be c)) o = false) ->
  (ok = true <-> oic_instanceID (ObjectICommand_of be c) = CO_INSTANCE_NONE /\
     forall p o, st_heap st !! p = Some o -> isAttached o = true -> ob_id o <> oic_objectID (ObjectICommand_of be c)) ->
  dispatch_result c st ok st.
Proof.
  intros Hall Hok. split.
  - intros p. destruct (st_heap st !! p) as [o|] eqn:Ho; [|done]. cbn. by rewrite (Hall p o Ho).
  - rewrite Hok. split; [by right|]. intros [(p & o & Ho & Ha)|?]; [by rewrite (Hall p o Ho) in Ha|done].
Qed.

Lemma dispatch_one c st pe p o :
  table_ok st pe -> st_heap st !! p = Some o -> oic_instanceID (ObjectICommand_of be c) <= CO_INSTANCE_MAX ->
  addressed (oic_objectID (ObjectICommand_of be c)) (oic_instanceID (ObjectICommand_of be c)) o = true ->
  dispatch_result c st true (dispatch_to c p st).1.
Proof.
  intros Hok Ho Hle Had. split; [|split; [intros _; left; by exists p, o|done]].
  intros q. rewrite dispatch_to_heap. case_decide as Hd.
  { subst q. rewrite Ho. cbn. by rewrite Had. }
  destruct (st_heap st !! q) as [oq|] eqn:Hq; [|done]. cbn. destruct (addressed _ _ oq) eqn:Haq; [|done].
  exfalso. apply Hd. unfold addressed in Had, Haq. rewrite gtb_false in Had, Haq by lia.
  apply andb_true_iff in Had as [[A1 _]%andb_true_iff A2%Z.eqb_eq].
  apply andb_true_iff in Haq as [[B1 _]%andb_true_iff B2%Z.eqb_eq].
  eapply (to_unique _ _ Hok q p); [exact Hq|exact Ho|done|done|congruence].
Qed.

Lemma dispatch_every c st pe l :
  table_ok st pe -> st_objects st !! oic_objectID (ObjectICommand_of be c) = Some l ->
  CO_INSTANCE_MAX < oic_instanceID (ObjectICommand_of be c) -> dispatch_result c st true (dispatch_all c l st).1.
Proof.
  intros Hok El Hgt. destruct (to_list _ _ Hok _ _ El) as [Hne Hnd].
  assert (forall p o, st_heap st !! p = Some o ->
    addressed (oic_objectID (ObjectICommand_of be c)) (oic_instanceID (ObjectICommand_of be c)) o = bool_decide (p ∈ l)) as Had.
  { intros p o Ho. rewrite (addressed_listed _ _ _ _ _ _ Hok Ho), gtb_true, andb_true_r by lia.
    unfold objects_of. by rewrite El. }
  split.
  - intros p. rewrite dispatch_all_heap by done. destruct (st_heap st !! p) as [o|] eqn:Ho; [|by case_decide]. cbn.
    rewrite (Had p o Ho). by repeat case_decide; case_bool_decide.
  - split; [intros _; left|done]. destruct l as [|p l]; [done|].
    destruct (to_listed _ _ Hok _ _ p El) as (o & Ho & _); [by left|]. exists p, o. split; [done|].
    rewrite (Had p o Ho), bool_decide_eq_true. by left.
Qed.

(** C9: Commands reach exactly their addressees.  A command for one instance of an
    object changes that instance and nothing else; one for all or no instance in
    particular is dispatched once to every attached object with the identifier.
    The command is refused if there is no addressee, unless it is for none in
    particular and no object with the identifier is attached. *)
Theorem dispatch_exact s c :
  store_reachable s ->
  let '(ok, st', _) := dispatchObjectCommand be CO_INSTANCE_MAX c (sy_store s) in dispatch_result c (sy_store s) ok st'.
Proof.
  intros Hr. pose proof (store_reachable_ok s Hr) as Hok. set (st := sy_store s) in *.
  unfold dispatchObjectCommand. destruct (st_objects st !! _) as [l|] eqn:El.
  - destruct (Z.leb_spec (oic_instanceID (ObjectICommand_of be c)) CO_INSTANCE_MAX) as [Hle|Hgt].
    + destruct (find_obj _ _ _) as [[p o]|] eqn:Ef.
      * apply find_obj_heap in Ef as (Ho & Hp & Hi).
        assert (dispatch_result c st true (dispatch_to c p st).1) as Hd; [|by destruct (dispatch_to c p st)].
        eapply dispatch_one; try done. rewrite (addressed_listed _ _ _ _ _ _ Hok Ho), Hi, orb_true_r, andb_true_r.
        apply bool_decide_eq_true. unfold objects_of. by rewrite El.
      * apply dispatch_nobody.
        { intros p o Ho. rewrite (addressed_listed _ _ _ _ _ _ Hok Ho), gtb_false by lia.
          unfold objects_of. rewrite El. cbn. case_bool_decide as Hp; [|done]. exact (find_obj_None _ _ _ _ _ Ef Hp Ho). }
        split; [done|]. intros [Hn _]. unfold CO_INSTANCE_NONE in *. lia.
    + assert (dispatch_result c st true (dispatch_all c l st).1) as Hd; [by eapply dispatch_every|].
      by destruct (dispatch_all c l st).
  - assert (forall p o, st_heap st !! p = Some o -> isAttached o && (ob_id o =? oic_objectID (ObjectICommand_of be c)) = false) as Hno.
    { intros p o Ho. pose proof (addressed_listed _ _ (oic_objectID (ObjectICommand_of be c)) (CO_INSTANCE_MAX + 1) _ _ Hok Ho) as Ha.
      unfold addressed in Ha. rewrite gtb_true, !andb_true_r in Ha by lia. rewrite Ha. unfold objects_of. rewrite El.
      apply bool_decide_eq_false, not_elem_of_nil. }
    apply dispatch_nobody; [intros p o Ho; unfold addressed; by rewrite (Hno p o Ho)|].
    rewrite Z.eqb_eq. split; [|tauto]. intros Hn. split; [done|]. intros p o Ho Ha Hid.
    specialize (Hno p o Ho). by rewrite Ha, Hid, Z.eqb_refl in Hno.
Qed.

(** ** Runs *)

Inductive StoreEvent :=
| ERegister (p : Z) | EAttach (r : Z) | EMap (p id version master : Z) | ESuccess (r type masterInstanceID : Z)
| EReply (r sender version : Z) (useCache : bool) | ESync (id instanceID master : Z) | ESwap (old new : Z)
| EOp (op : store_op).

Definition store_exec (s : StoreSystem) (e : StoreEvent) : option StoreSystem :=
  let st := sy_store s in
  let pe := sy_pending s in
  match e with
  | ERegister p =>
      o ← st_heap st !! p;
      if decide (isAttached o = false /\ idle p pe)
      then Some (mkStoreSystem (register_ newRequest p st).1 (<[newRequest (st_requests st) := PAttach p (ob_id o)]> pe))
      else None
  | EAttach r =>
      match pe !! r with
      | Some (PAttach p id) =>
          if decide (generated st < CO_INSTANCE_MAX)
          then Some (mkStoreSystem (cmdAttach CO_INSTANCE_MAX id CO_INSTANCE_INVALID r st) (delete r pe)) else None
      | _ => None
      end
  | EMap p id version master =>
      o ← may_map isUUID isReachable p id master st;
      if decide (idle p pe /\ generated st < CO_INSTANCE_MAX /\ Z.of_nat (size pe) < 2 ^ 32 - 3)
      then Some (mkStoreSystem (mapNB newRequest isUUID isReachable CO_INSTANCE_MAX p id version master st).1.2
             (<[newRequest (st_requests st) := PMap p id (generated st + 1) (announced id st) false]> pe))
      else None
  | ESuccess r type masterInstanceID =>
      match pe !! r with
      | Some (PMap p id i cached false) =>
          Some (mkStoreSystem (cmdMapSuccess CO_INSTANCE_MAX (getNodeID (st_node st)) id r i type masterInstanceID st)
            (<[r := PMap p id i cached true]> pe))
      | _ => None
      end
  | EReply r sender version useCache =>
      match pe !! r with
      | Some (PMap p id i cached true) =>
          if decide (useCache = true -> pinning cached = true)
          then Some (mkStoreSystem (cmdMapReply it sender (getNodeID (st_node st)) id version r true (pinning cached) useCache st)
                 (delete r pe))
          else None
      | _ => None
      end
  | ESync id instanceID master =>
      if decide (isUUID id = true /\ master <> 0 /\ isReachable master = true /\ Z.of_nat (size pe) < 2 ^ 32 - 3)
      then Some (mkStoreSystem (startSync it newRequest isUUID isReachable id instanceID master st).1.2
             (<[newRequest (st_requests st) := PSync id (sync_cached instanceID (announced id st))]> pe))
      else None
  | ESwap old new =>
      o ← st_heap st !! new;
      if decide (isAttached o = false /\ idle new pe) then Some (mkStoreSystem (swap old new st) pe) else None
  | EOp op => Some (mkStoreSystem (store_do op st) pe)
  end.

Lemma store_exec_step s e s' : store_exec s e = Some s' -> store_step s s'.
Proof.
  destruct s as [st pe], e as [p|r|p id v m|r t mi|r sd v u|id i m|old new|op]; cbn [store_exec sy_store sy_pending]; intros H.
  - apply bind_Some in H as (o & Ho & H). destruct (decide _) as [[Ha Hi]|]; [|done]. injection H as <-. by apply y_register.
  - destruct (pe !! r) as [[p id| |]|] eqn:E; try done. destruct (decide _); [|done]. injection H as <-. by eapply y_attach.
  - apply bind_Some in H as (o & Ho & H). destruct (decide _) as [(Hi & Hg & Hs)|]; [|done]. injection H as <-. by eapply y_map.
  - destruct (pe !! r) as [[|p id i c []|]|] eqn:E; try done. injection H as <-. by apply y_success.
  - destruct (pe !! r) as [[|p id i c []|]|] eqn:E; try done. destruct (decide _); [|done]. injection H as <-. by eapply y_map_reply.
  - destruct (decide _) as [(Hu & Hm & Hr & Hs)|]; [|done]. injection H as <-. by apply y_sync.
  - apply bind_Some in H as (o & Ho & H). destruct (decide _) as [[Ha Hi]|]; [|done]. injection H as <-. by eapply y_swap.
  - injection H as <-. apply y_op.
Qed.

Lemma store_exec_reachable s0 es s :
  store_start s0 -> foldl (fun o e => s ← o; store_exec s e) (Some s0) es = Some s -> store_reachable s.
Proof.
  intros Hs. revert s. induction es as [|e es IH] using rev_ind; intros s; [intros [= <-]; by constructor|].
  rewrite foldl_app. cbn. intros (s1 & H1 & H2)%bind_Some. eapply y_reach_step; [by apply IH|by eapply store_exec_step].
Qed.

End system.

(** ** Samples *)

(** A change manager that counts commands and lists its slaves. *)
#[export] Instance counting_ChangeManager : ChangeManager (bool * list Z) Z := {
  cm_ZERO := (false, []);
  cm_new _ master _ _ := (master, []);
  cm_isMaster := fst;
  cm_getMasterInstanceID _ := 1;
  cm_setMasterNode node cm := (cm.1, [node]);
  cm_getMasterNode cm := if cm.1 then 0 else default 0 (head cm.2);
  cm_addSlave cm _ command := (true, (cm.1, mc_node command :: cm.2), []);
  cm_sendSync cm _ _ := (true, cm, []);
  cm_removeSlave node _ cm := (cm.1, filter (fun n => n <> node) cm.2);
  cm_removeSlaves node cm := (cm.1, filter (fun n => n <> node) cm.2);
  cm_getSlaveNodes cm := if cm.1 then cm.2 else [];
  cm_applyMapData version cm _ := Some (cm, version, []);
  cm_applyInstanceData _ app := app;
  cm_addInstanceDatas _ _ cm := cm;
  cm_sendInstanceData cm _ _ := (cm, []);
  cm_dispatch cm app _ := (true, cm, app + 1, []);
}.

Definition sample_network : Network := {|
  getConnection node _ := node; isMulticast _ := false; getDescription conn := conn; getNodeID node := 1000 + node;
|}.

(** The next request is one above all open ones. *)
Definition next_request (m : gmap Z Request) : Z := foldr Z.max 0 (map_to_list m).*1 + 1.

Lemma next_request_new (m : gmap Z Request) : m !! next_request m = None.
Proof.
  destruct (m !! next_request m) as [x|] eqn:E; [exfalso|done]. apply elem_of_map_to_list in E.
  apply (list_elem_of_fmap_2 fst) in E. cbn [fst] in E.
  assert (forall l k, k ∈ l -> k <= foldr Z.max 0 l) as Hmax.
  { induction l as [|y l IH]; intros k Hk; [by apply elem_of_nil in Hk|]. cbn.
    apply elem_of_cons in Hk as [->|Hk]; [lia|]. specialize (IH k Hk). lia. }
  apply Hmax in E. unfold next_request in E. lia.
Qed.

Definition sample_obj (id : Z) : Obj (CM := bool * list Z) (App := Z) := mkObj id CO_INSTANCE_INVALID false (false, []) 0 2 10.

(** Three objects, two with the same identifier in the end. *)
Definition sample_store : ObjectStore (CM := bool * list Z) (App := Z) (Q := list) :=
  ObjectStore_init 7 {[1 := sample_obj 33; 2 := sample_obj 44; 3 := sample_obj 55]} 1000.

Definition sample_store_events : list StoreEvent :=
  [ERegister 1; EMap 2 33 1 9; EAttach 1; ESuccess 2 2 5; ESwap 1 3].

Definition sample_store_exec := store_exec (HP := store_Pression) (HL := native_Lunchbox) (HN := sample_network) false
  (fun m => (map_to_list m).*1) next_request (fun _ => true) (fun _ => true) 0xfffffff0 0 0.

Definition sample_store_run : option StoreSystem :=
  foldl (fun o e => s ← o; sample_store_exec s e) (Some (mkStoreSystem sample_store ∅)) sample_store_events.

Abbreviation sample_reachable := (store_reachable (HP := store_Pression) (HL := native_Lunchbox) (HN := sample_network) false
  (fun m => (map_to_list m).*1) next_request (fun _ => true) (fun _ => true) 0xfffffff0 0 0).

Lemma sample_store_start : store_start (mkStoreSystem sample_store ∅).
Proof.
  eexists _, _, _. split; [reflexivity|]. repeat apply map_Forall_insert_2; try reflexivity.
  apply map_Forall_empty.
Qed.

Lemma sample_store_reachable s : sample_store_run = Some s -> sample_reachable s.
Proof. apply (store_exec_reachable (HP := store_Pression) (HL := native_Lunchbox) (HN := sample_network)), sample_store_start. Qed.

(** A command for all instances of object 33. *)
Definition sample_command : ICommand :=
  ICommand_new (H := store_Pression) (H0 := native_Lunchbox) false
    (Some (enc false 8 36 ++ enc false 4 COMMANDTYPE_OBJECT ++ enc false 4 CMD_OBJECT_DELTA ++ enc false 16 33 ++
           enc false 4 CO_INSTANCE_ALL)) false.

(** The state of the sample run: the objects attached under 33, after the first was
    swapped for the third. *)
Lemma sample_run_table :
  match sample_store_run with
  | Some s => objects_of 33 (sy_store s) = [3; 2] /\ (ob_instanceID <$> st_heap (sy_store s) !! 3) = Some 2
  | None => False
  end.
Proof. vm_compute. split; reflexivity. Qed.

Lemma object_table_exact_witness :
  exists s, sample_store_run = Some s /\ objects_of 33 (sy_store s) = [3; 2] /\ NoDup (objects_of 33 (sy_store s)).
Proof.
  pose proof sample_run_table as Ht. destruct sample_store_run as [s|] eqn:E; [|destruct Ht].
  exists s. split; [reflexivity|]. split; [exact (proj1 Ht)|].
  apply (object_table_exact (HP := store_Pression) (HL := native_Lunchbox) (HN := sample_network) false
    (fun m => (map_to_list m).*1) next_request (fun _ => true) (fun _ => true) 0xfffffff0 0 0
    ltac:(unfold CO_INSTANCE_NONE; lia) next_request_new s (sample_store_reachable s E)).
Defined.

(** The command changes both attached objects, not the one that was swapped out. *)
Lemma dispatch_exact_witness :
  exists s st' out, sample_store_run = Some s /\
    dispatchObjectCommand (H := store_Pression) (H0 := native_Lunchbox) false 0xfffffff0 sample_command (sy_store s) =
      (true, st', out) /\
    (ob_app <$> st_heap st' !! 2) = Some 1 /\ (ob_app <$> st_heap st' !! 3) = Some 1 /\ (ob_app <$> st_heap st' !! 1) = Some 0.
Proof.
  destruct sample_store_run as [s|] eqn:E; [|exfalso; revert E; by vm_compute].
  pose proof (dispatch_exact (HP := store_Pression) (HL := native_Lunchbox) (HN := sample_network) false
    (fun m => (map_to_list m).*1) next_request (fun _ => true) (fun _ => true) 0xfffffff0 0 0
    ltac:(unfold CO_INSTANCE_NONE; lia) next_request_new s sample_command (sample_store_reachable s E)) as Hd.
  destruct (dispatchObjectCommand _ _ _ _) as [[ok st'] out] eqn:Ed. destruct Hd as [Hh Hok]. exists s, st', out.
  split; [reflexivity|]. rewrite Ed, !Hh.
  assert (match sample_store_run with
    | Some s => (exists o2 o3 o1, st_heap (sy_store s) !! 2 = Some o2 /\ st_heap (sy_store s) !! 3 = Some o3 /\
        st_heap (sy_store s) !! 1 = Some o1 /\ ob_app o1 = 0 /\ ob_app o2 = 0 /\ ob_app o3 = 0 /\
        addressed 0xfffffff0 33 CO_INSTANCE_ALL o2 = true /\ addressed 0xfffffff0 33 CO_INSTANCE_ALL o3 = true /\
        addressed 0xfffffff0 33 CO_INSTANCE_ALL o1 = false)
    | None => False end) as Hs.
  { vm_compute. do 3 eexists. split; [reflexivity|]. split; [reflexivity|]. split; [reflexivity|]. repeat split. }
  rewrite E in Hs. destruct Hs as (o2 & o3 & o1 & L2 & L3 & L1 & V1 & V2 & V3 & A2 & A3 & A1).
  split.
  - f_equal. f_equal. apply Hok. left. exists 2, o2. split; [exact L2|exact A2].
  - rewrite L2, L3, L1. cbn [fmap option_fmap option_map].
    change (oic_objectID _) with 33. change (oic_instanceID _) with CO_INSTANCE_ALL. rewrite A2, A3, A1.
    cbn [ob_app dispatched]. split; [by cbn; rewrite V2|]. split; [by cbn; rewrite V3|by rewrite V1].
Defined.
