(* ===== verification/StoreCache.v ===== *)
(** * Cached data of mappings under way (co/objectStore.cpp, instanceCache.cpp)

    A node that maps or synchronises an object tells the master what its cache
    holds, and the master may then send nothing but the permission to use it.  The
    object store pins the data while the request is under way.  Shown here for the
    state machine of StoreTable.v: the pins of an object are the open requests that
    announced it, and what was announced is still there when the answer comes. *)

From S2P Require Import Prelude Bytes Lunchbox DataOStream DataIStream Serialize Transfer Commands ObjectStreams InstanceCache CachePins Connections ObjectCM ObjectStore StoreTable.

(** The object a request announced cached data of, its master instance and data. *)
Definition cached_of (pd : Pending) : option (Z * Z * list ObjectDataIStream) :=
  match pd with
  | PMap _ id _ (Some (inst, vs)) _ | PSync id (Some (inst, vs)) => Some (id, inst, vs)
  | _ => None
  end.

Definition pins_of (id : Z) (pd : Pending) : Z :=
  match cached_of pd with Some (id', _, _) => if decide (id' = id) then 1 else 0 | None => 0 end.

(** The number of open requests that announced an object. *)
Definition open_pins (id : Z) (pe : gmap Z Pending) : Z := msum (pins_of id) pe.

Lemma pins_of_range id pd : 0 <= pins_of id pd <= 1.
Proof. unfold pins_of. destruct (cached_of pd) as [[[? ?] ?]|]; [case_decide|]; lia. Qed.

Lemma open_pins_insert id r pd pe : pe !! r = None -> open_pins id (<[r := pd]> pe) = pins_of id pd + open_pins id pe.
Proof. intros Hr. unfold open_pins. by rewrite msum_insert, delete_id. Qed.

Lemma open_pins_delete id r pd pe : pe !! r = Some pd -> open_pins id (delete r pe) = open_pins id pe - pins_of id pd.
Proof. intros Hr. unfold open_pins. rewrite (msum_delete _ _ _ _ Hr). lia. Qed.

Lemma open_pins_replace id r pd pd' pe :
  pe !! r = Some pd -> cached_of pd' = cached_of pd -> open_pins id (<[r := pd']> pe) = open_pins id pe.
Proof.
  intros Hr Hc. unfold open_pins. rewrite msum_insert, (msum_delete _ _ _ _ Hr). unfold pins_of. rewrite Hc. lia.
Qed.

Lemma open_pins_size id pe : 0 <= open_pins id pe <= Z.of_nat (size pe).
Proof.
  unfold open_pins. induction pe as [|r pd pe Hr IH] using map_ind; [rewrite map_size_empty; cbn; rewrite msum_empty; lia|].
  rewrite msum_insert, delete_id, map_size_insert_None by done. pose proof (pins_of_range id pd). lia.
Qed.

Lemma open_pins_pos id r pd pe inst vs :
  pe !! r = Some pd -> cached_of pd = Some (id, inst, vs) -> 0 < open_pins id pe.
Proof.
  intros Hr Hc. pose proof (open_pins_size id (delete r pe)) as H1. rewrite (open_pins_delete id r pd pe Hr) in H1.
  unfold pins_of in H1. rewrite Hc, decide_True in H1 by done. lia.
Qed.

Section cache.

Context {HP : Pression} {HL : Lunchbox} {HN : Network} (be : bool).
Context (it : gmap Z Item -> list Z).

Record cache_inv (c : InstanceCache) (pe : gmap Z Pending) : Prop := {
  ci_filled : filled c;
  ci_pins : forall id, pins c id = open_pins id pe;
  ci_bound : forall id, open_pins id pe <= 2 ^ 32 - 3;
  ci_data : forall r pd id inst vs, pe !! r = Some pd -> cached_of pd = Some (id, inst, vs) -> holds_data c id inst vs;
}.

Lemma inv_pins c pe id : cache_inv c pe -> 0 <= pins c id < 2 ^ 32 - 2.
Proof. intros Hi. rewrite (ci_pins _ _ Hi). pose proof (open_pins_size id pe). pose proof (ci_bound _ _ Hi id). lia. Qed.

Lemma inv_pos c pe r pd id inst vs :
  cache_inv c pe -> pe !! r = Some pd -> cached_of pd = Some (id, inst, vs) -> 0 < pins c id < 2 ^ 32 - 1.
Proof.
  intros Hi Hr Hc. pose proof (inv_pins c pe id Hi). rewrite (ci_pins _ _ Hi) in *.
  pose proof (open_pins_pos _ _ _ _ _ _ Hr Hc). lia.
Qed.

(** *** Requests *)

Lemma inv_insert c pe r pd : cache_inv c pe -> pe !! r = None -> cached_of pd = None -> cache_inv c (<[r := pd]> pe).
Proof.
  intros [H1 H2 H3 H4] Hr Hc. assert (forall id, open_pins id (<[r := pd]> pe) = open_pins id pe) as Ho.
  { intros id. rewrite open_pins_insert by done. unfold pins_of. by rewrite Hc. }
  split; try done; [intros id; by rewrite Ho|intros id; by rewrite Ho|].
  intros r' x id inst vs Hx Hcx. apply lookup_insert_Some in Hx as [[<- <-]|[_ Hx]]; [congruence|eauto].
Qed.

Lemma inv_replace c pe r pd pd' :
  cache_inv c pe -> pe !! r = Some pd -> cached_of pd' = cached_of pd -> cache_inv c (<[r := pd']> pe).
Proof.
  intros [H1 H2 H3 H4] Hr Hc. assert (forall id, open_pins id (<[r := pd']> pe) = open_pins id pe) as Ho
    by (intros id; by eapply open_pins_replace).
  split; try done; [intros id; by rewrite Ho|intros id; by rewrite Ho|].
  intros r' x id inst vs Hx Hcx. apply lookup_insert_Some in Hx as [[<- <-]|[_ Hx]]; [rewrite Hc in Hcx; eauto|eauto].
Qed.

Lemma inv_delete c pe r pd : cache_inv c pe -> pe !! r = Some pd -> cached_of pd = None -> cache_inv c (delete r pe).
Proof.
  intros [H1 H2 H3 H4] Hr Hc. assert (forall id, open_pins id (delete r pe) = open_pins id pe) as Ho.
  { intros id. rewrite (open_pins_delete _ _ _ _ Hr). unfold pins_of. rewrite Hc. lia. }
  split; try done; [intros id; by rewrite Ho|intros id; by rewrite Ho|].
  intros r' x id inst vs [_ Hx]%lookup_delete_Some. eauto.
Qed.

(** *** Operations of the cache *)

(** An operation that pins and releases nothing. *)
Lemma inv_step c pe op :
  cache_inv c pe -> (match op with OpGet _ | OpRelease _ _ => False | _ => True end) ->
  cache_inv (cache_step be it c op) pe.
Proof.
  intros Hi Hop. pose proof (ci_filled _ _ Hi) as Hf.
  assert (filled (cache_step be it c op) /\ keeps_pins [] c (cache_step be it c op)) as [Hf' Hk].
  { destruct op; cbn [cache_step]; try done; [by apply add_pins|by apply remove_loop_pins|by apply erase_pins|].
    unfold expire. destruct (_ <=? 0); [by split|by apply expire_loop_pins]. }
  split; [done| |apply (ci_bound _ _ Hi)|].
  - intros id. rewrite Hk by apply not_elem_of_nil. apply (ci_pins _ _ Hi).
  - intros r pd id inst vs Hr Hc. apply cache_step_holds; [done|by eapply inv_pos| |by eapply (ci_data _ _ Hi)].
    intros count ->. done.
Qed.

(** A look-up by a new request. *)
Lemma inv_get c pe r pd id :
  cache_inv c pe -> pe !! r = None -> Z.of_nat (size pe) < 2 ^ 32 - 3 ->
  cached_of pd = match (cache_get c id).1 with Some (inst, vs) => Some (id, inst, vs) | None => None end ->
  cache_inv (cache_get c id).2 (<[r := pd]> pe).
Proof.
  intros Hi Hr Hsz Hc. destruct (cache_get_pins c id (ci_filled _ _ Hi)) as (Hf & Hk & Hg).
  assert (forall id' inst vs, holds_data c id' inst vs -> 0 < pins c id' < 2 ^ 32 - 1 -> holds_data (cache_get c id).2 id' inst vs) as Hh.
  { intros id' inst vs Hd Hp. by apply (cache_step_holds be it c (OpGet id) id' inst vs (ci_filled _ _ Hi) Hp). }
  pose proof (get_holds c id) as Hget.
  destruct (cache_get c id) as [[[inst vs]|] c'] eqn:E; cbn [fst snd] in *.
  - destruct Hg as (Hv & Hp & _). rewrite u32_small in Hp by (pose proof (inv_pins c pe id Hi); unfold is_u32; lia).
    assert (forall id', pins_of id' pd = if decide (id' = id) then 1 else 0) as Hpo.
    { intros id'. unfold pins_of. rewrite Hc. by repeat case_decide; subst. }
    split; [done| | |].
    + intros id'. rewrite open_pins_insert, Hpo by done. case_decide as Hd; [subst; rewrite Hp, (ci_pins _ _ Hi); lia|].
      rewrite Hk by (by rewrite list_elem_of_singleton). by rewrite (ci_pins _ _ Hi).
    + intros id'. rewrite open_pins_insert, Hpo by done. pose proof (open_pins_size id' pe). case_decide; lia.
    + intros r' x id' inst' vs' Hx Hcx. apply lookup_insert_Some in Hx as [[<- <-]|[_ Hx]].
      * rewrite Hc in Hcx. injection Hcx as <- <- <-. by apply Hget.
      * apply Hh; [by eapply (ci_data _ _ Hi)|by eapply inv_pos].
  - subst c'. by apply inv_insert.
Qed.

(** Fewer pins on [id], the answered request gone. *)
Lemma inv_released c c' pe r pd id inst vs :
  cache_inv c pe -> pe !! r = Some pd -> cached_of pd = Some (id, inst, vs) -> filled c' -> keeps_pins [id] c c' ->
  pins c' id = pins c id - 1 ->
  (forall id' inst' vs', holds_data c id' inst' vs' -> 0 < pins c id' < 2 ^ 32 - 1 -> pins c' id' <> 0 -> holds_data c' id' inst' vs') ->
  cache_inv c' (delete r pe).
Proof.
  intros Hi Hr Hc Hf Hk Hp Hh.
  assert (forall id', open_pins id' (delete r pe) = open_pins id' pe - if decide (id' = id) then 1 else 0) as Ho.
  { intros id'. rewrite (open_pins_delete _ _ _ _ Hr). f_equal. unfold pins_of. rewrite Hc. by repeat case_decide; subst. }
  assert (forall id', pins c' id' = open_pins id' (delete r pe)) as Hpins.
  { intros id'. rewrite Ho. case_decide as Hd; [subst; by rewrite Hp, (ci_pins _ _ Hi)|].
    rewrite Hk by (by rewrite list_elem_of_singleton). rewrite (ci_pins _ _ Hi). lia. }
  split; try done.
  - intros id'. pose proof (ci_bound _ _ Hi id'). rewrite Ho. case_decide; lia.
  - intros r' x id' inst' vs' Hx Hcx. pose proof (open_pins_pos _ _ _ _ _ _ Hx Hcx) as Hpos.
    apply lookup_delete_Some in Hx as [_ Hx].
    apply Hh; [by eapply (ci_data _ _ Hi)|by eapply inv_pos|rewrite Hpins; lia].
Qed.

Lemma inv_release c pe r pd id inst vs :
  cache_inv c pe -> pe !! r = Some pd -> cached_of pd = Some (id, inst, vs) ->
  cache_inv (release it c id 1).2 (delete r pe).
Proof.
  intros Hi Hr Hc. pose proof (inv_pos _ _ _ _ _ _ _ Hi Hr Hc) as Hpos.
  destruct (ci_data _ _ Hi _ _ _ _ _ Hr Hc) as (item & Hl & _).
  destruct (release_pins it c id 1 (ci_filled _ _ Hi)) as (Hf & Hk & Hp). rewrite Hl in Hp. specialize (Hp (ex_intro _ _ eq_refl)).
  rewrite u32_small in Hp by (unfold is_u32; lia).
  eapply inv_released; try done. intros id' inst' vs' Hd Hp' Hz. destruct (decide (id' = id)) as [->|Hne].
  - apply release_holds; [apply (ci_filled _ _ Hi)| |done]. rewrite u32_small by (unfold is_u32; lia). lia.
  - apply (release_other_holds be it c id' id 1); [congruence|apply (ci_filled _ _ Hi)|done|done].
Qed.

(** A second look-up and the release of both. *)
Lemma inv_use c pe r pd id inst vs :
  cache_inv c pe -> pe !! r = Some pd -> cached_of pd = Some (id, inst, vs) ->
  cache_inv (release it (cache_get c id).2 id 2).2 (delete r pe).
Proof.
  intros Hi Hr Hc. pose proof (inv_pos _ _ _ _ _ _ _ Hi Hr Hc) as Hpos. pose proof (inv_pins c pe id Hi) as Hb.
  destruct (ci_data _ _ Hi _ _ _ _ _ Hr Hc) as (item & Hl & _).
  destruct (cache_get_pins c id (ci_filled _ _ Hi)) as (Hf1 & Hk1 & Hg).
  assert (forall id' inst' vs', holds_data c id' inst' vs' -> 0 < pins c id' < 2 ^ 32 - 1 -> holds_data (cache_get c id).2 id' inst' vs') as Hh.
  { intros id' inst' vs' Hd Hp. by apply (cache_step_holds be it c (OpGet id) id' inst' vs' (ci_filled _ _ Hi) Hp). }
  assert (exists x y, (cache_get c id).1 = Some (x, y)) as (x & y & Eg) by (unfold cache_get; rewrite Hl; eauto).
  rewrite Eg in Hg. destruct Hg as (_ & Hp1 & (item1 & Hl1 & _)). set (c1 := (cache_get c id).2) in *.
  rewrite u32_small in Hp1 by (unfold is_u32; lia).
  destruct (release_pins it c1 id 2 Hf1) as (Hf & Hk & Hp). rewrite Hl1 in Hp. specialize (Hp (ex_intro _ _ eq_refl)).
  rewrite Hp1, u32_small in Hp by (unfold is_u32; lia).
  eapply (inv_released c); try done; [|lia|].
  - intros id' Hn. rewrite Hk, Hk1 by done. done.
  - intros id' inst' vs' Hd Hp' Hz. destruct (decide (id' = id)) as [->|Hne].
    + apply release_holds; [done| |by apply Hh]. rewrite Hp1, u32_small by (unfold is_u32; lia). lia.
    + apply (release_other_holds be it c1 id' id 2); [congruence|done| |by apply Hh].
      rewrite Hk1 by (by rewrite list_elem_of_singleton). done.
Qed.

End cache.

(** ** The object store *)

Section store.

Context {HP : Pression} {HL : Lunchbox} {HN : Network} (be : bool).
Context {CM App : Type} `{!ChangeManager CM App}.
Context {Q : Type -> Type} `{!MTQueue Q}.
Context (it : gmap Z Item -> list Z) (newRequest : gmap Z Request -> Z).
Context (isUUID isReachable : Z -> bool).
Context (CO_INSTANCE_MAX sendQueueSize sendQueueAge : Z).
Context (Hmax : 0 < CO_INSTANCE_MAX < CO_INSTANCE_NONE).
Context (Hnew : forall m : gmap Z Request, m !! newRequest m = None).

Abbreviation store := (ObjectStore (CM := CM) (App := App) (Q := Q)).

(** *** Operations that leave the cache alone *)

Lemma update_obj_cache p f (st : store) : st_cache (update_obj p f st) = st_cache st.
Proof. unfold update_obj. by destruct (st_heap st !! p). Qed.

Lemma serveRequest_cache r x (st : store) : st_cache (serveRequest r x st) = st_cache st.
Proof. unfold serveRequest. by destruct (st_requests st !! r). Qed.

Lemma attach_cache p id i (st : store) : st_cache (_attach CO_INSTANCE_MAX p id i st) = st_cache st.
Proof.
  unfold _attach, nextInstanceID. destruct (_ =? _); [destruct (genNextID _ _)|]; cbn; by rewrite update_obj_cache.
Qed.

Lemma detach_cache p (st : store) : st_cache (_detach p st) = st_cache st.
Proof.
  unfold _detach. destruct (st_heap st !! p); [|done]. destruct (negb _); [done|]. by rewrite update_obj_cache.
Qed.

Lemma dispatch_to_cache c p (st : store) : st_cache (dispatch_to c p st).1 = st_cache st.
Proof. unfold dispatch_to. destruct (st_heap st !! p); [|done]. by destruct (cm_dispatch _ _ _) as [[[? ?] ?] ?]. Qed.

Lemma dispatchObjectCommand_cache c (st : store) :
  st_cache (dispatchObjectCommand be CO_INSTANCE_MAX c st).1.2 = st_cache st.
Proof.
  assert (forall l st, st_cache (dispatch_all c l st : store * _).1 = st_cache st) as Hall.
  { induction l as [|p l IH]; intros st1; cbn [dispatch_all]; [done|].
    pose proof (dispatch_to_cache c p st1) as H1. destruct (dispatch_to c p st1) as [st2 out].
    specialize (IH st2). destruct (dispatch_all c l st2) as [st3 out']. cbn in *. congruence. }
  unfold dispatchObjectCommand. destruct (st_objects st !! _) as [l|]; [|done]. destruct (_ <=? _).
  - destruct (find_obj _ _ _) as [[p o]|]; [|done]. pose proof (dispatch_to_cache c p st) as H1. by destruct (dispatch_to c p st).
  - specialize (Hall l st). by destruct (dispatch_all c l st).
Qed.

Lemma fold_update_cache f l (st : store) : st_cache (fold_left (fun st p => update_obj p f st) l st) = st_cache st.
Proof. revert st. induction l as [|p l IH]; intros st; cbn; [done|]. by rewrite IH, update_obj_cache. Qed.

Lemma swap_cache old new (st : store) : st_cache (swap old new st) = st_cache st.
Proof.
  unfold swap. destruct (st_heap st !! old), (st_heap st !! new); try done. destruct (negb _); [done|].
  destruct (st_objects st !! _) as [l|]; [|done]. by destruct (list_find _ _) as [[? ?]|].
Qed.

Lemma mapSync_cache r (st : store) ok st' out : mapSync r st = Some (ok, st', out) -> st_cache st' = st_cache st.
Proof.
  unfold mapSync, waitRequest. destruct (_ =? _); [by intros [= _ <- _]|].
  destruct (getRequestData r st); try by intros [= _ <- _].
  destruct (st_requests st !! r) as [[d [[]|]]|]; try done. cbn. destruct (st_heap st !! p) as [o|]; [|done].
  destruct (isAttached o); [|by intros [= _ <- _]]. destruct (cm_applyMapData _ _ _) as [[[? ?] ?]|]; [|done]. by intros [= _ <- _].
Qed.

Lemma finishSync_cache r p (st : store) ok st' : finishSync r p st = Some (ok, st') -> st_cache st' = st_cache st.
Proof.
  unfold finishSync, waitRequest. destruct (_ =? _); [by intros [= _ <-]|].
  destruct (getRequestData r st); try by intros [= _ <-].
  destruct (st_requests st !! r) as [[d [[| |[]|]|]]|]; try done; [|by intros [= _ <-]].
  destruct (isReady st0); [|done]. intros [= _ <-]. by rewrite update_obj_cache.
Qed.

(** *** Operations on the cache *)

(** The operation leaves the cache [c] as it is. *)
Ltac same_cache := match goal with Hc : st_cache ?st = Some ?c |- _ => exists c; split; [rewrite <-Hc|done] end.

Lemma store_do_cache op (st : store) c pe :
  st_cache st = Some c -> cache_inv c pe ->
  exists c', st_cache (store_do be it newRequest isReachable CO_INSTANCE_MAX sendQueueSize sendQueueAge op st) = Some c' /\
    cache_inv c' pe.
Proof.
  intros Hc Hi.
  assert (forall op', (match op' with OpGet _ | OpRelease _ _ => False | _ => True end) ->
    exists c', Some (cache_step be it c op') = Some c' /\ cache_inv c' pe) as Hstep.
  { intros op' Hop. eexists. split; [done|]. by apply inv_step. }
  destruct op; cbn [store_do].
  - same_cache. unfold cmdDetach. rewrite serveRequest_cache. destruct (find_obj _ _ _) as [[p o]|]; [apply detach_cache|done].
  - same_cache. unfold unmap. destruct (st_heap st !! p); [|done]. destruct (negb _); [done|]. destruct (_ && _ && _); [done|].
    unfold detach. cbn. by destruct (st_heap st !! p).
  - same_cache. unfold unmap_finish. by rewrite update_obj_cache.
  - same_cache. unfold deregister. destruct (st_heap st !! p); [|done]. destruct (negb _); [done|].
    destruct (_ >? _); unfold detach; cbn; by destruct (st_heap st !! p).
  - unfold deregister_finish, erase_cached. rewrite update_obj_cache, Hc. exact (Hstep (OpErase id) I).
  - unfold cmdUnmap. destruct (Hstep (OpErase id) I) as (c' & Hc' & Hi'). exists c'. split; [|done]. rewrite <-Hc'.
    unfold erase_cached. rewrite Hc. cbn [st_objects set_st_cache]. destruct (st_objects st !! id); [|done].
    by rewrite fold_update_cache.
  - unfold cmdInstance. destruct (read_field _ _ _) as [nodeID c1], (read_field _ _ _) as [mi c2]. rewrite Hc.
    set (c3 := setCommand _ _). set (oid := oic_objectID _). set (inst := oic_instanceID _). set (ver := odc_version _).
    set (st1 := if _ && _ then _ else st).
    assert (exists c', st_cache st1 = Some c' /\ cache_inv c' pe) as (c' & Hc1 & Hi').
    { unfold st1. destruct (_ && _); [exact (Hstep (OpAdd (mkObjectVersion oid ver) mi sender now c3 0) I)|by exists c]. }
    exists c'. split; [|done]. rewrite <-Hc1. clearbody st1.
    repeat match goal with |- context [if ?b then _ else _] => destruct b end; try done; try apply dispatchObjectCommand_cache.
    by destruct (st_requests st1 !! inst) as [[[] ?]|].
  - same_cache. apply dispatchObjectCommand_cache.
  - same_cache. unfold cmdMap. destruct (find_obj _ _ _) as [[p o]|]; [|done]. by destruct (cm_addSlave _ _ _) as [[? ?] ?].
  - same_cache. unfold cmdSync. destruct (sync_object _ _ _ _ _) as [[p o]|]; [|done]. by destruct (cm_sendSync _ _ _) as [[? ?] ?].
  - same_cache. unfold cmdUnsubscribe. by destruct (find_obj _ _ _) as [[p o]|].
  - same_cache. unfold cmdRemoveNode. destruct (negb _); rewrite ?serveRequest_cache; apply fold_update_cache.
  - same_cache. unfold cmdRegister. by destruct (_ <=? _).
  - same_cache. unfold cmdDeregister. rewrite serveRequest_cache. by destruct (getRequestData _ _).
  - same_cache. unfold notifyCommandThreadIdle. destruct (st_sendQueue st) as [|[age p] q]; [done|]. destruct (_ >? _); [|done].
    destruct (is_nil nodes); [done|]. destruct (st_heap st !! p); [|done]. by destruct (cm_sendInstanceData _ _ _).
  - same_cache. done.
  - same_cache. unfold disableSendOnRegister. by destruct (_ >? _).
  - same_cache. unfold cmdDisableSendOnRegister. rewrite serveRequest_cache. by destruct (_ =? _).
  - same_cache. apply serveRequest_cache.
  - unfold expireInstanceData. rewrite Hc. exact (Hstep (OpExpire now age) I).
  - unfold removeInstanceData. rewrite Hc. exact (Hstep (OpRemove nodeID) I).
Qed.

(** What a request looks up when it is sent. *)
Lemma announced_get id (st : store) c : st_cache st = Some c -> announced id st = (cache_get c id).1.
Proof. intros Hc. unfold announced. by rewrite Hc. Qed.

Lemma mapNB_cache p id version master o (st : store) c :
  may_map isUUID isReachable p id master st = Some o -> st_cache st = Some c ->
  st_cache (mapNB newRequest isUUID isReachable CO_INSTANCE_MAX p id version master st).1.2 = Some (cache_get c id).2.
Proof.
  intros Hm Hc. unfold mapNB. rewrite Hm. unfold registerRequest, checkInstanceCache, nextInstanceID. cbn [st_cache set_st_requests].
  rewrite Hc. destruct (cache_get c id) as [cached c']. cbn [st_instanceIDs set_st_cache]. destruct (genNextID _ _) as [i val].
  by destruct cached as [[? ?]|].
Qed.

Lemma release_cached_some id n (st : store) c :
  st_cache st = Some c -> st_cache (release_cached it id n st) = Some (release it c id n).2.
Proof. intros Hc. unfold release_cached. by rewrite Hc. Qed.

(** The effect of an answer on the cache: nothing, a release, or a look-up and two
    releases. *)
Definition answered (c : InstanceCache) (id : Z) (release_ use : bool) : InstanceCache :=
  if use then (release it (cache_get c id).2 id 2).2 else if release_ then (release it c id 1).2 else c.

Lemma cmdMapReply_cache sender id version r result rel use (st : store) c p :
  st_cache st = Some c -> (result = true -> getRequestData r st = DObject p) -> (result = false -> use = false) ->
  st_cache (cmdMapReply it sender (getNodeID (st_node st)) id version r result rel use st) = Some (answered c id rel use).
Proof.
  intros Hc Hd Hu. unfold cmdMapReply, answered. rewrite Z.eqb_refl. cbn [negb]. rewrite serveRequest_cache.
  destruct result; [|rewrite (Hu eq_refl); destruct rel; [by apply release_cached_some|done]].
  rewrite (Hd eq_refl). set (st1 := update_obj p _ st).
  assert (st_cache st1 = Some c) as Hc1 by (unfold st1; by rewrite update_obj_cache).
  rewrite Hc1. destruct use; [|destruct rel; [by apply release_cached_some|done]].
  destruct (cache_get c id) as [cached c']. cbn [snd]. apply release_cached_some. by rewrite update_obj_cache.
Qed.

Lemma cmdSyncReply_cache id r result rel use (st : store) c :
  st_cache st = Some c -> (result = false -> use = false) ->
  st_cache (cmdSyncReply it (getNodeID (st_node st)) id r result rel use st) = Some (answered c id rel use).
Proof.
  intros Hc Hu. unfold cmdSyncReply, answered. rewrite Z.eqb_refl. cbn [negb]. rewrite serveRequest_cache.
  destruct result; [|rewrite (Hu eq_refl); destruct rel; [by apply release_cached_some|done]].
  destruct use; [|destruct rel; [by apply release_cached_some|done]].
  rewrite Hc. destruct (cache_get c id) as [[[inst vs]|] c']; cbn [snd]; apply release_cached_some; [|done].
  destruct (st_requests (set_st_cache (Some c') st) !! r); [|done]. by destruct (last vs).
Qed.

Lemma answered_inv c pe r pd id cached rel use :
  cache_inv c pe -> pe !! r = Some pd ->
  cached_of pd = (match cached with Some (inst, vs) => Some (id, inst, vs) | None => None end) ->
  rel = pinning cached -> (use = true -> pinning cached = true) -> cache_inv (answered c id rel use) (delete r pe).
Proof.
  intros Hi Hr Hc -> Hu. unfold answered. destruct cached as [[inst vs]|]; cbn [pinning] in *.
  - destruct use; [by eapply (inv_use be)|by eapply (inv_release be)].
  - destruct use; [by specialize (Hu eq_refl)|]. by eapply inv_delete.
Qed.

Lemma startSync_cache id inst master (st : store) c pe r :
  isUUID id = true -> master <> 0 -> isReachable master = true -> st_cache st = Some c -> cache_inv c pe ->
  pe !! r = None -> Z.of_nat (size pe) < 2 ^ 32 - 3 ->
  exists c', st_cache (startSync it newRequest isUUID isReachable id inst master st).1.2 = Some c' /\
    cache_inv c' (<[r := PSync id (sync_cached inst (announced id st))]> pe).
Proof.
  intros Hu Hm Hrc Hc Hi Hr Hsz. unfold startSync. rewrite Hu, Hrc, (proj2 (Z.eqb_neq _ _) Hm). cbn [negb orb].
  unfold registerRequest, checkInstanceCache. cbn [st_cache set_st_requests]. rewrite Hc, (announced_get id st c Hc).
  assert (cache_inv (cache_get c id).2 (<[r := PSync id (cache_get c id).1]> pe)) as Hget
    by (apply inv_get; try done; by destruct (cache_get c id).1 as [[? ?]|]).
  destruct (cache_get c id) as [[[mi vs]|] c'] eqn:E; cbn [fst snd] in *.
  - cbn -[Z.eqb release_cached]. destruct ((inst =? CO_INSTANCE_ALL) || (inst =? mi)); [by exists c'|].
    eexists. split; [by apply release_cached_some|]. apply inv_insert; try done.
    rewrite <-(delete_id pe r Hr), <-(delete_insert_eq pe r (PSync id (Some (mi, vs)))).
    eapply (inv_release be); [exact Hget|apply lookup_insert_eq|done].
  - cbn. by exists c'.
Qed.

Lemma cache_inv_step s s' c :
  store_step be it newRequest isUUID isReachable CO_INSTANCE_MAX sendQueueSize sendQueueAge s s' ->
  table_ok CO_INSTANCE_MAX (sy_store s) (sy_pending s) ->
  st_cache (sy_store s) = Some c -> cache_inv c (sy_pending s) ->
  exists c', st_cache (sy_store s') = Some c' /\ cache_inv c' (sy_pending s').
Proof.
  intros Hstep Hok Hc Hi. destruct Hstep; cbn [sy_store sy_pending] in *.
  - exists c. split; [unfold register_; by destruct (st_heap st !! p)|]. apply inv_insert; [done| |done].
    by eapply new_pending.
  - exists c. split; [|by eapply inv_delete]. unfold cmdAttach.
    destruct (getRequestData r st); [done| |done]. by rewrite serveRequest_cache, attach_cache.
  - eexists. split; [by eapply mapNB_cache|]. apply inv_get; try done; [by eapply new_pending|].
    rewrite (announced_get _ _ _ Hc). cbn. by destruct (cache_get c id).1 as [[? ?]|].
  - exists c. split; [|by eapply inv_replace]. unfold cmdMapSuccess. rewrite Z.eqb_refl. cbn [negb].
    destruct (getRequestData r st); [done| |done]. by rewrite attach_cache, update_obj_cache.
  - pose proof (to_data _ _ _ Hok r _ p H eq_refl) as Hq.
    eexists. split; [eapply cmdMapReply_cache; [done|intros _; exact Hq|done]|]. by eapply answered_inv.
  - eexists. split; [by eapply (cmdMapReply_cache _ _ _ _ _ _ _ _ _ 0)|]. by eapply answered_inv.
  - eapply startSync_cache; try done. by eapply new_pending.
  - eexists. split; [eapply cmdSyncReply_cache; [done|]; intros ->; destruct useCache; [by destruct H0|done]|].
    apply (answered_inv c pe r (PSync id cached) id cached); try done. intros Hu. by destruct (H0 Hu).
  - exists c. split; [|done]. rewrite <-Hc. by eapply mapSync_cache.
  - exists c. split; [|done]. rewrite <-Hc. by eapply finishSync_cache.
  - exists c. split; [|done]. rewrite <-Hc. apply swap_cache.
  - by eapply store_do_cache.
Qed.

Lemma cache_inv_reachable s :
  store_reachable be it newRequest isUUID isReachable CO_INSTANCE_MAX sendQueueSize sendQueueAge s ->
  exists c, st_cache (sy_store s) = Some c /\ cache_inv c (sy_pending s).
Proof.
  intros Hr. induction Hr as [s (node & heap & size & -> & Hun)|s s' Hr (c & Hc & Hi) Hstep].
  - eexists. split; [done|]. split; cbn.
    + apply map_Forall_empty.
    + intros id. unfold pins. cbn. unfold open_pins. by rewrite msum_empty.
    + intros id. unfold open_pins. rewrite msum_empty. lia.
    + done.
  - eapply cache_inv_step; try done. by eapply store_reachable_ok.
Qed.

(** C10: Cached data a master was told about is still there.  In every state the pins
    of an object are exactly the open map and sync requests that announced cached
    data of it; for each of them a look-up finds the object with the master
    instance announced, and every complete version announced at its place,
    whatever was added, evicted, expired, erased, mapped or answered meanwhile. *)
Theorem cache_promise_kept s :
  store_reachable be it newRequest isUUID isReachable CO_INSTANCE_MAX sendQueueSize sendQueueAge s ->
  exists c, st_cache (sy_store s) = Some c /\
    (forall id, pins c id = open_pins id (sy_pending s)) /\
    (forall r pd id inst vs, sy_pending s !! r = Some pd -> cached_of pd = Some (id, inst, vs) ->
       exists vs', (cache_get c id).1 = Some (inst, vs') /\ vs' <> [] /\ keeps vs vs').
Proof.
  intros Hr. destruct (cache_inv_reachable s Hr) as (c & Hc & Hi). exists c. split; [done|].
  split; [apply (ci_pins _ _ Hi)|]. intros r pd id inst vs Hp Hcd.
  destruct (ci_data _ _ Hi _ _ _ _ _ Hp Hcd) as (item & Hl & <- & Hk).
  exists (versions item). unfold cache_get. rewrite Hl. split; [done|]. split; [exact (ci_filled _ _ Hi id item Hl)|done].
Qed.

End store.

(** ** Sample *)

(** Version 1 of object 33, by the instance 5 of its master, in one command. *)
Definition sample_data : ICommand :=
  ICommand_new (H := store_Pression) (H0 := native_Lunchbox) false
    (Some (enc false 8 93 ++ enc false 4 COMMANDTYPE_NODE ++ enc false 4 CMD_NODE_OBJECT_INSTANCE ++ enc false 16 33 ++
           enc false 4 CO_INSTANCE_NONE ++ enc false 16 1 ++ enc false 8 0 ++ enc false 4 0 ++ enc false 1 1 ++
           enc false 4 0 ++ enc false 4 0 ++ enc false 16 0 ++ enc false 4 5)) false.

(** The data is cached, object 2 is mapped and object 3 synchronised with it, then
    everything expires that can. *)
Definition sample_cache_run : option StoreSystem :=
  foldl (fun o e => s ← o; sample_store_exec s e) (Some (mkStoreSystem sample_store ∅))
    [EOp (OpInstance 9 10 sample_data); EMap 2 33 1 9; ESync 33 CO_INSTANCE_ALL 9; EOp (OpExpireData 1000000 0);
     EOp (OpCmdUnmap 33)].

Lemma sample_cache_reachable s : sample_cache_run = Some s -> sample_reachable s.
Proof.
  unfold sample_cache_run.
  apply (store_exec_reachable (HP := store_Pression) (HL := native_Lunchbox) (HN := sample_network)), sample_store_start.
Qed.

Lemma sample_cache_run_pins :
  match sample_cache_run with
  | Some s => open_pins 33 (sy_pending s) = 2 /\
      (exists pd inst vs, sy_pending s !! 1 = Some pd /\ cached_of pd = Some (33, inst, vs) /\ inst = 5 /\
         is_version <$> vs = [1])
  | None => False
  end.
Proof. vm_compute. split; [reflexivity|]. do 3 eexists. split; [reflexivity|]. split; [reflexivity|]. split; reflexivity. Qed.

Lemma cache_promise_kept_witness :
  exists s c vs', sample_cache_run = Some s /\ st_cache (sy_store s) = Some c /\ pins c 33 = 2 /\
    (cache_get c 33).1 = Some (5, vs') /\ vs' <> [].
Proof.
  pose proof sample_cache_run_pins as Hp. destruct sample_cache_run as [s|] eqn:E; [|destruct Hp].
  destruct Hp as (Ho & pd & inst & vs & Hr & Hc & -> & Hvs).
  pose proof (sample_cache_reachable s E) as Hreach.
  destruct (cache_promise_kept (HP := store_Pression) (HL := native_Lunchbox) (HN := sample_network) false
    (fun m => (map_to_list m).*1) next_request (fun _ => true) (fun _ => true) 0xfffffff0 0 0
    ltac:(unfold CO_INSTANCE_NONE; lia) next_request_new s Hreach) as (c & Hca & Hpins & Hdata).
  destruct (Hdata 1 pd 33 5 vs Hr Hc) as (vs' & Hg & Hne & _).
  exists s, c, vs'. split; [reflexivity|]. split; [exact Hca|]. split; [rewrite Hpins; exact Ho|]. split; [exact Hg|exact Hne].
Defined.
