(* ===== verification/StoreFaults.v ===== *)
(** * Two faults of the object store

    What co/objectStore.cpp does in two situations it means to handle: a cached
    stream that is still incomplete when its object is mapped, and an object that
    is deregistered while it waits in the send queue. *)

From S2P Require Import Prelude Bytes Lunchbox DataOStream DataIStream Serialize Transfer Commands ObjectStreams InstanceCache Connections ObjectCM MasterCM SlaveCM ObjectStore StoreTable.

Section gap.

Context {HP : Pression} {HL : Lunchbox} {HN : Network}.
Context {CM App : Type} `{!ChangeManager CM App}.
Context {Q : Type -> Type} `{!MTQueue Q, !MTQueueOk Q}.
Context (ME : Env).

Abbreviation store := (ObjectStore (CM := CM) (App := App) (Q := Q)).
Abbreviation master := (FullMasterCM (Q := Q)).
Abbreviation slave := (VersionedSlaveCM (Q := Q)).

Lemma skip_all command first last_ l :
  Forall (fun d => os_version (id_os d) < first) l -> skip_datas ME command first last_ l = (l, []).
Proof.
  induction 1 as [|d l Hd _ IH]; cbn [skip_datas]; [done|]. rewrite (proj2 (Z.ltb_lt _ _) Hd). by rewrite IH.
Qed.

(** Only complete streams of the cache are queued. *)
Lemma split_cache_ready start oldest newest l opened head_ tail_ head' tail' :
  isReady opened = false -> split_cache start oldest newest (l ++ [opened]) head_ tail_ = (head', tail') ->
  forall st, st ∈ head' ++ tail' -> st ∈ head_ ++ tail_ \/ st ∈ l.
Proof.
  intros Ho. revert head_ tail_. induction l as [|x l IH]; intros head_ tail_; cbn [app split_cache].
  - rewrite Ho. destruct (_ <? _); cbn; intros [= <- <-]; auto.
  - assert (forall h t st, split_cache start oldest newest (l ++ [opened]) h t = (head', tail') ->
      st ∈ head' ++ tail' -> (st ∈ h ++ t -> st ∈ head_ ++ tail_ \/ st = x) -> st ∈ head_ ++ tail_ \/ st ∈ x :: l) as Hrec.
    { intros h t st E Hst Hh. destruct (IH h t E st Hst) as [Hin|Hin]; [|right; by right].
      destruct (Hh Hin) as [Hc| ->]; [by left|right; by left]. }
    intros E st Hst. repeat match type of E with context [if ?b then _ else _] => destruct b end;
      try (injection E as <- <-; by left);
      (eapply Hrec; [exact E|exact Hst|]); rewrite ?elem_of_app, ?elem_of_cons, ?elem_of_nil; tauto.
Qed.

Lemma fold_pushFront_elem l (q : Q ObjectDataIStream) x :
  x ∈ q_contents (fold_left (fun q st => q_pushFront q (copy_stream st)) l q) ->
  x ∈ q_contents q \/ exists st, st ∈ l /\ x = copy_stream st.
Proof.
  revert q. induction l as [|y l IH]; intros q; cbn; [auto|]. intros [Hx|(st & Hst & ->)]%IH.
  - rewrite q_contents_pushFront in Hx. apply elem_of_cons in Hx as [->|Hx]; [right|by left]. exists y. split; [by left|done].
  - right. exists st. split; [by right|done].
Qed.

Lemma fold_push_elem l (q : Q ObjectDataIStream) x :
  x ∈ q_contents (fold_left (fun q st => q_push q (copy_stream st)) l q) ->
  x ∈ q_contents q \/ exists st, st ∈ l /\ x = copy_stream st.
Proof.
  revert q. induction l as [|y l IH]; intros q; cbn; [auto|]. intros [Hx|(st & Hst & ->)]%IH.
  - rewrite q_contents_push in Hx. apply elem_of_app in Hx as [Hx|Hx%list_elem_of_singleton]; [by left|right].
    exists y. split; [by left|done].
  - right. exists st. split; [by right|done].
Qed.

(** A version that is being received when its object is mapped is lost.  If the
    last cached stream is incomplete, the store announces [VERSION_INVALID] as the
    newest cached version; the master takes that for everything up to its head,
    permits the use of the cache and sends no data; the slave queues the complete
    cached streams only.  The version of the incomplete stream never arrives. *)
Theorem incomplete_stream_lost (st : store) c id item vs opened first (m : master) command (sl : slave) :
  st_cache st = Some c -> items c !! id = Some item -> versions item = vs ++ [opened] -> isReady opened = false ->
  head vs = Some first -> Forall (fun s => is_version s < f_version m) vs ->
  Forall (fun d => os_version (id_os d) <= f_version m) (f_instanceDatas m) -> f_version m < VERSION_INVALID ->
  mc_minCachedVersion command = is_version first -> is_version first <= map_start m (mc_requestedVersion command) <= f_version m ->
  mc_maxCachedVersion command = VERSION_INVALID -> q_contents (s_queuedVersions sl) = [] ->
  (checkInstanceCache id st).1 = Some (masterInstanceID item, is_version first, VERSION_INVALID) /\
  full_initSlave ME m command true =
    (true, m, [_sendMapSuccess ME command false;
               _sendMapReply ME command (map_start m (mc_requestedVersion command)) true true false]) /\
  Forall (fun s => is_version s < f_version m)
    (q_contents (s_queuedVersions (addInstanceDatas (versions item) (map_start m (mc_requestedVersion command)) sl))).
Proof.
  intros Hc Hl Hv Ho Hfirst Hvs Hitems Hhead Hmin Hstart Hmaxc Hq. split; [|split].
  - unfold checkInstanceCache, cache_get. rewrite Hc, Hl. cbn. rewrite Hv, last_snoc. destruct vs; [done|]. cbn in *.
    injection Hfirst as ->. unfold isReady in Ho. apply negb_false_iff, Z.eqb_eq in Ho. by rewrite Ho.
  - unfold full_initSlave, map_range. rewrite Hmin, Hmaxc.
    rewrite (proj2 (Z.leb_le (is_version first) _)) by lia. rewrite Z.geb_leb, (proj2 (Z.leb_le _ VERSION_INVALID)) by lia. cbn [andb].
    change (u128 (VERSION_INVALID + 1)) with (VERSION_INVALID + 1).
    rewrite skip_all; [by destruct m|]. eapply Forall_impl; [exact Hitems|]. cbn. lia.
  - apply Forall_forall. intros s Hs. unfold addInstanceDatas in Hs. rewrite Hv in Hs.
    destruct (split_cache _ _ _ _ _ _) as [hd tl] eqn:E. cbn in Hs.
    pose proof (split_cache_ready _ _ _ _ _ _ _ _ _ Ho E) as Hin. rewrite Forall_forall in Hvs.
    assert (exists x, x ∈ hd ++ tl /\ s = copy_stream x) as (x & Hx & ->).
    { apply fold_push_elem in Hs as [Hs|(x & Hx & ->)]; [|exists x; split; [apply elem_of_app; by right|done]].
      apply fold_pushFront_elem in Hs as [Hs|(x & Hx & ->)]; [by rewrite Hq in Hs; apply elem_of_nil in Hs|].
      exists x. split; [apply elem_of_app; by left|done]. }
    destruct (Hin x Hx) as [Hn|Hn]; [by apply elem_of_nil in Hn|]. by apply (Hvs x).
Qed.

End gap.

Section deregister.

Context {CM App : Type} `{!ChangeManager CM App}.
Context {Q : Type -> Type}.
Context (newRequest : gmap Z Request -> Z) (sendQueueSize : Z).

Abbreviation store := (ObjectStore (CM := CM) (App := App) (Q := Q)).

(** A deregistered object stays in the send queue.  [deregister] asks the command
    thread to remove the object with a request that does not name it, so handling
    the command removes nothing; the command thread will send the data of an object
    the application may have deleted. *)
Theorem deregister_leaves_queue p (st : store) o :
  (forall m : gmap Z Request, m !! newRequest m = None) ->
  st_heap st !! p = Some o -> isAttached o = true -> 0 < sendQueueSize ->
  exists r st' out, deregister newRequest sendQueueSize p st = (st', out) /\
    SNode (st_node st) (CDeregister r) ∈ out /\ st_sendQueue (cmdDeregister r st') = st_sendQueue st.
Proof.
  intros Hnew Ho Ha Hs. unfold deregister, detach, registerRequest. rewrite Ho, Ha, gtb_true by lia. cbn [negb st_heap set_st_requests].
  rewrite Ho. set (r := newRequest (st_requests st)). exists r. do 2 eexists. split; [done|]. split.
  - apply elem_of_app. right. apply elem_of_app. left. by apply list_elem_of_singleton.
  - unfold cmdDeregister, getRequestData. cbn. rewrite lookup_insert_ne; [|intros He].
    + rewrite lookup_insert_eq. unfold serveRequest. cbn. rewrite lookup_insert_ne; [by rewrite lookup_insert_eq|].
      intros He. pose proof (Hnew (<[r := mkRequest DNone None]> (st_requests st))) as Hn. rewrite He in Hn.
      by rewrite lookup_insert_eq in Hn.
    + pose proof (Hnew (<[r := mkRequest DNone None]> (st_requests st))) as Hn. rewrite He in Hn.
      by rewrite lookup_insert_eq in Hn.
Qed.

End deregister.

(** ** Samples *)

(** A master whose head is the version after the one that is cached completely. *)
Definition fault_item : Item :=
  mkItem 1 [sample_version 1; ObjectDataIStream_init] 0 0 9 [5; 6].

Definition fault_store : ObjectStore (CM := bool * list Z) (App := Z) (Q := list) :=
  set_st_cache (Some (mkInstanceCache {[33 := fault_item]} 1000 0)) sample_store.

Definition fault_command : MasterCMCommand :=
  mkMasterCMCommand 7 2 1 VERSION_INVALID 33 10 1 2 1 true.

Lemma incomplete_stream_lost_witness :
  (checkInstanceCache 33 fault_store).1 = Some (masterInstanceID fault_item, is_version (sample_version 1), VERSION_INVALID) /\
  Forall (fun s => is_version s < f_version sample_master)
    (q_contents (s_queuedVersions (addInstanceDatas (versions fault_item)
       (map_start sample_master (mc_requestedVersion fault_command)) (sample_slave 0 [])))).
Proof.
  pose proof (incomplete_stream_lost (HP := store_Pression) (HL := native_Lunchbox) (HN := sample_network) sample_env fault_store
    (mkInstanceCache {[33 := fault_item]} 1000 0) 33 fault_item [sample_version 1] ObjectDataIStream_init (sample_version 1)
    sample_master fault_command (sample_slave 0 [])) as Hlost.
  edestruct Hlost as (H1 & _ & H3); cycle 12; [split; [exact H1|exact H3]|..].
  - reflexivity.
  - reflexivity.
  - reflexivity.
  - reflexivity.
  - reflexivity.
  - vm_compute. repeat constructor.
  - vm_compute. repeat constructor; discriminate.
  - reflexivity.
  - reflexivity.
  - vm_compute. split; discriminate.
  - reflexivity.
  - reflexivity.
Defined.

(** An attached object in the send queue. *)
Definition queued_store : ObjectStore (CM := bool * list Z) (App := Z) (Q := list) :=
  set_st_sendQueue [(100, 1)] (put_obj 1 (set_ob_instanceID 1 (sample_obj 33)) sample_store).

Lemma deregister_leaves_queue_witness :
  exists r st' out, deregister next_request 10 1 queued_store = (st', out) /\
    st_sendQueue (cmdDeregister r st') = [(100, 1)].
Proof.
  destruct (deregister_leaves_queue next_request 10 1 queued_store (set_ob_instanceID 1 (sample_obj 33))
    next_request_new eq_refl eq_refl ltac:(lia)) as (r & st' & out & H1 & _ & H2).
  exists r, st', out. split; [exact H1|exact H2].
Defined.
