(* ===== verification/BufferCache.v ===== *)
(** * Receive buffers (co/buffer.cpp, bufferCache.cpp)

    The receiver thread takes the buffers of commands from a cache and other
    threads give them back.  A buffer is returned in two steps, as in
    [Buffer::notifyFree]: the cache counts it, then it is marked free; the
    receiver thread may run in between.  The cache and its clients are a state
    machine: a buffer is never handed out while somebody holds it. *)

From S2P Require Import Prelude Bytes.

(** [bf_ptr] is the address of the buffer, [bf_data] and [bf_maxSize] its
    [lunchbox::Bufferb] part. *)
Record Buffer := mkBuffer { bf_ptr : Z; bf_free : bool; bf_maxSize : Z; bf_data : bytes }.

Definition Buffer_init (ptr : Z) : Buffer := mkBuffer ptr true 0 [].
Definition setUsed (b : Buffer) : Buffer := mkBuffer (bf_ptr b) false (bf_maxSize b) (bf_data b).
Definition setFree (b : Buffer) : Buffer := mkBuffer (bf_ptr b) true (bf_maxSize b) (bf_data b).

(** [lunchbox::Buffer::reserve] and [resize( 0 )] *)
Definition reserve (size : Z) (b : Buffer) : Buffer :=
  mkBuffer (bf_ptr b) (bf_free b) (Z.max size (bf_maxSize b)) (bf_data b).
Definition clear_data (b : Buffer) : Buffer := mkBuffer (bf_ptr b) (bf_free b) (bf_maxSize b) [].

(** [bc_position] is an index into [bc_cache]. *)
Record BufferCache := mkBufferCache {
  bc_cache : list Buffer;
  bc_position : nat;
  bc_free : Z;
  bc_minFree : Z;
  bc_maxFree : Z
}.

Section cache.

(** The addresses [new] returns. *)
Context (newPtr : list Z -> Z).

Definition ptrs (l : list Buffer) : list Z := bf_ptr <$> l.

(** [flush] *)
Definition BufferCache_flush (c : BufferCache) : BufferCache :=
  mkBufferCache [Buffer_init (newPtr [])] 0 1 (bc_minFree c) (bc_minFree c).

Definition BufferCache_init (minFree : Z) : BufferCache :=
  BufferCache_flush (mkBufferCache [] 0 0 minFree 0).

(** The search of [newBuffer], from the position after the last one and around the
    end.  [end_] is looked at only if it is the first buffer. *)
Inductive Search := SFound (i : nat) | SNone | SSpin.

Fixpoint search (fuel : nat) (cache : list Buffer) (end_ i : nat) : Search :=
  if (i =? end_)%nat then SNone
  else
    let i := if (i =? length cache)%nat then 0%nat else i in
    match fuel with
    | O => SSpin
    | S fuel =>
        if from_option bf_free false (cache !! i) then SFound i else search fuel cache end_ (S i)
    end.

(** [_cache.push_back( new co::Buffer( this ))], [add] times *)
Fixpoint add_buffers (add : nat) (cache : list Buffer) : list Buffer :=
  match add with
  | O => cache
  | S add => add_buffers add (cache ++ [Buffer_init (newPtr (ptrs cache))])
  end.

Definition grow (c : BufferCache) : Z * BufferCache :=
  let cacheSize := Z.of_nat (length (bc_cache c)) in
  let add := Z.to_nat (Z.shiftr cacheSize 3 + 1) in
  let cache := add_buffers add (bc_cache c) in
  let num := Z.shiftr (Z.of_nat (length cache)) 1 in
  let back := Nat.pred (length cache) in
  (from_option bf_ptr 0 (cache !! back),
   mkBufferCache (alter setUsed back cache) 0 (bc_free c + Z.of_nat add - 1) (bc_minFree c)
     (Z.max (bc_minFree c) num)).

(** [newBuffer]: [None] if the search does not end before a buffer is marked free. *)
Definition newBuffer (c : BufferCache) : option (Z * BufferCache) :=
  if bc_free c >? 0 then
    match search (length (bc_cache c)) (bc_cache c) (bc_position c) (S (bc_position c)) with
    | SFound i =>
        Some (from_option bf_ptr 0 (bc_cache c !! i),
              mkBufferCache (alter setUsed i (bc_cache c)) i (bc_free c - 1) (bc_minFree c) (bc_maxFree c))
    | SNone => Some (grow c)
    | SSpin => None
    end
  else Some (grow c).

Definition update_buffer (ptr : Z) (f : Buffer -> Buffer) (cache : list Buffer) : list Buffer :=
  (fun b => if bf_ptr b =? ptr then f b else b) <$> cache.

Definition alloc (size : Z) (c : BufferCache) : option (Z * BufferCache) :=
  '(ptr, c) ← newBuffer c;
  Some (ptr, mkBufferCache (update_buffer ptr (fun b => clear_data (reserve size b)) (bc_cache c)) (bc_position c)
               (bc_free c) (bc_minFree c) (bc_maxFree c)).

(** The loop of [compact]: the buffers left, the number still counted as free and
    the position reached. *)
Fixpoint compact_loop (target : Z) (cache : list Buffer) (free : Z) : list Buffer * Z * nat :=
  match cache with
  | [] => ([], free, 0%nat)
  | b :: cache =>
      if bf_free b then
        let free := free - 1 in
        if free <=? target then (cache, free, 0%nat) else compact_loop target cache free
      else
        let '(cache, free, i) := compact_loop target cache free in (b :: cache, free, S i)
  end.

Definition compact (c : BufferCache) : BufferCache :=
  if bc_free c <=? bc_maxFree c then c
  else
    let tgt := Z.shiftr (bc_maxFree c) 1 in
    let target := Z.max tgt (bc_minFree c) in
    let '(cache, free, i) := compact_loop target (bc_cache c) (bc_free c) in
    let num := Z.shiftr (Z.of_nat (length cache)) 1 in
    mkBufferCache cache (if (i =? length cache)%nat then 0%nat else i) free (bc_minFree c)
      (Z.max (bc_minFree c) num).

(** [Buffer::notifyFree]: the listener counts the buffer, then it is marked free. *)
Definition notifyFree (c : BufferCache) : BufferCache :=
  mkBufferCache (bc_cache c) (bc_position c) (bc_free c + 1) (bc_minFree c) (bc_maxFree c).

Definition mark_free (ptr : Z) (c : BufferCache) : BufferCache :=
  mkBufferCache (update_buffer ptr setFree (bc_cache c)) (bc_position c) (bc_free c) (bc_minFree c) (bc_maxFree c).

(** What a client does with a buffer it holds. *)
Definition put_data (data : bytes) (b : Buffer) : Buffer :=
  mkBuffer (bf_ptr b) (bf_free b) (Z.max (bf_maxSize b) (Z.of_nat (length data))) data.

Definition fill (ptr : Z) (data : bytes) (c : BufferCache) : BufferCache :=
  mkBufferCache (update_buffer ptr (put_data data) (bc_cache c)) (bc_position c) (bc_free c) (bc_minFree c) (bc_maxFree c).

(** ** The cache and its clients *)

(** [cs_held] maps the buffers somebody holds to what was put into them;
    [cs_freeing] are the buffers on their way back. *)
Record CacheSystem := mkCacheSystem {
  cs_cache : BufferCache;
  cs_held : gmap Z bytes;
  cs_freeing : gset Z
}.

Inductive buffer_step : CacheSystem -> CacheSystem -> Prop :=
| step_alloc c c' held freeing size ptr :
    alloc size c = Some (ptr, c') ->
    buffer_step (mkCacheSystem c held freeing) (mkCacheSystem c' (<[ptr := []]> held) freeing)
| step_fill c held freeing ptr data data' :
    held !! ptr = Some data ->
    buffer_step (mkCacheSystem c held freeing) (mkCacheSystem (fill ptr data' c) (<[ptr := data']> held) freeing)
| step_notify c held freeing ptr data :
    held !! ptr = Some data ->
    buffer_step (mkCacheSystem c held freeing) (mkCacheSystem (notifyFree c) (delete ptr held) ({[ptr]} ∪ freeing))
| step_mark c held freeing ptr :
    ptr ∈ freeing ->
    buffer_step (mkCacheSystem c held freeing) (mkCacheSystem (mark_free ptr c) held (freeing ∖ {[ptr]}))
| step_compact c held freeing :
    buffer_step (mkCacheSystem c held freeing) (mkCacheSystem (compact c) held freeing).

Inductive buffers_reachable (minFree : Z) : CacheSystem -> Prop :=
| buffers_start : buffers_reachable minFree (mkCacheSystem (BufferCache_init minFree) ∅ ∅)
| buffers_step s s' : buffers_reachable minFree s -> buffer_step s s' -> buffers_reachable minFree s'.


(** ** Lemmas *)

Definition count_free (l : list Buffer) : Z := Z.of_nat (length (filter (fun b => bf_free b = true) l)).

Definition used (l : list Buffer) : list Buffer := filter (fun b => bf_free b = false) l.

Lemma count_free_app l l' : count_free (l ++ l') = count_free l + count_free l'.
Proof. unfold count_free. rewrite filter_app, length_app. lia. Qed.

Lemma count_free_cons b l : count_free (b :: l) = (if bf_free b then 1 else 0) + count_free l.
Proof. unfold count_free. rewrite filter_cons. destruct (bf_free b); case_decide; simpl; try done; lia. Qed.

Lemma count_free_nonneg l : 0 <= count_free l.
Proof. unfold count_free. lia. Qed.

(** Changing one buffer in its place. *)
Lemma alter_middle {A} (f : A -> A) (l1 l2 : list A) x : alter f (length l1) (l1 ++ x :: l2) = l1 ++ f x :: l2.
Proof. rewrite alter_app_r_alt by lia. by rewrite Nat.sub_diag. Qed.

Lemma update_other ptr f l : ptr ∉ ptrs l -> update_buffer ptr f l = l.
Proof.
  intros Hp. unfold update_buffer. rewrite <-(list_fmap_id l) at 2. apply list_fmap_ext. intros i b Hb.
  destruct (Z.eqb_spec (bf_ptr b) ptr) as [He|]; [|done]. destruct Hp. apply list_elem_of_fmap. exists b.
  split; [done|]. by eapply list_elem_of_lookup_2.
Qed.

Lemma update_middle ptr f l1 b l2 :
  NoDup (ptrs (l1 ++ b :: l2)) -> bf_ptr b = ptr -> update_buffer ptr f (l1 ++ b :: l2) = l1 ++ f b :: l2.
Proof.
  intros Hnd Hb. unfold ptrs in Hnd. rewrite fmap_app, fmap_cons in Hnd.
  apply NoDup_app in Hnd as (_ & Hd & Hnd). apply NoDup_cons in Hnd as [Hn _].
  unfold update_buffer. rewrite fmap_app, fmap_cons. fold (update_buffer ptr f l1) (update_buffer ptr f l2).
  rewrite Hb, Z.eqb_refl, (update_other ptr f l1), (update_other ptr f l2); [done| |].
  - by rewrite <-Hb.
  - intros Hin. apply (Hd ptr Hin), elem_of_cons. by left.
Qed.

Lemma ptr_split ptr l : ptr ∈ ptrs l -> exists l1 b l2, l = l1 ++ b :: l2 /\ bf_ptr b = ptr.
Proof.
  intros (b & -> & Hb)%list_elem_of_fmap. apply list_elem_of_split in Hb as (l1 & l2 & ->). by exists l1, b, l2.
Qed.

(** ** The invariant *)

(** What the receiver thread and its clients agree on. *)
Record buffers_ok (s : CacheSystem) : Prop := {
  bo_ptrs : NoDup (ptrs (bc_cache (cs_cache s)));
  bo_used : forall b, b ∈ bc_cache (cs_cache s) ->
    bf_free b = false <-> is_Some (cs_held s !! bf_ptr b) \/ bf_ptr b ∈ cs_freeing s;
  bo_held : forall p data, cs_held s !! p = Some data ->
    exists b, b ∈ bc_cache (cs_cache s) /\ bf_ptr b = p /\ bf_data b = data;
  bo_freeing : forall p, p ∈ cs_freeing s -> p ∈ ptrs (bc_cache (cs_cache s));
  bo_disjoint : forall p, p ∈ cs_freeing s -> cs_held s !! p = None;
  bo_free : bc_free (cs_cache s) = count_free (bc_cache (cs_cache s)) + Z.of_nat (size (cs_freeing s));
  bo_position : (bc_position (cs_cache s) < length (bc_cache (cs_cache s)))%nat;
  bo_min : 0 < bc_minFree (cs_cache s) <= bc_maxFree (cs_cache s);
}.

Lemma elem_middle {A} (x y : A) l1 l2 : x ∈ l1 ++ y :: l2 <-> x = y \/ x ∈ l1 ++ l2.
Proof. rewrite !elem_of_app, elem_of_cons. tauto. Qed.

Lemma ptrs_middle l1 b l2 : ptrs (l1 ++ b :: l2) = ptrs l1 ++ bf_ptr b :: ptrs l2.
Proof. unfold ptrs. by rewrite fmap_app. Qed.

Lemma NoDup_middle {A} (x : A) l1 l2 : NoDup (l1 ++ x :: l2) <-> (x ∉ l1 ++ l2) /\ NoDup (l1 ++ l2).
Proof. by rewrite <-NoDup_cons, <-Permutation_middle. Qed.

(** One buffer is replaced by another with the same address, and the clients'
    view of that address changes accordingly. *)
Lemma replace_ok c c' held held' freeing freeing' l1 b b' l2 :
  buffers_ok (mkCacheSystem c held freeing) ->
  bc_cache c = l1 ++ b :: l2 -> bc_cache c' = l1 ++ b' :: l2 -> bf_ptr b' = bf_ptr b ->
  (forall p, p <> bf_ptr b -> held' !! p = held !! p /\ (p ∈ freeing' <-> p ∈ freeing)) ->
  (bf_free b' = false <-> is_Some (held' !! bf_ptr b) \/ bf_ptr b ∈ freeing') ->
  (forall data, held' !! bf_ptr b = Some data -> bf_data b' = data) ->
  (bf_ptr b ∈ freeing' -> held' !! bf_ptr b = None) ->
  bc_free c' = bc_free c + (if bf_free b' then 1 else 0) - (if bf_free b then 1 else 0)
               + Z.of_nat (size freeing') - Z.of_nat (size freeing) ->
  (bc_position c' < length (bc_cache c))%nat -> 0 < bc_minFree c' <= bc_maxFree c' ->
  buffers_ok (mkCacheSystem c' held' freeing').
Proof.
  intros [Hp Hu Hh Hf Hd Hc Hpos Hm] El El' Eb Hother Hused Hdata Hdis Hfree Hpos' Hm'. cbn in *.
  rewrite El in *. rewrite ptrs_middle in Hp. pose proof Hp as [Hn _]%NoDup_middle.
  assert (forall x, x ∈ l1 ++ l2 -> bf_ptr x <> bf_ptr b) as Hne.
  { intros x Hx He. apply Hn. unfold ptrs. rewrite <-fmap_app, <-He. by apply list_elem_of_fmap_2. }
  constructor; cbn; rewrite ?El'.
  - by rewrite ptrs_middle, Eb.
  - intros x [->|Hx]%elem_middle; [by rewrite Eb|]. destruct (Hother _ (Hne x Hx)) as [-> ->].
    apply Hu, elem_middle. by right.
  - intros p data Hpd. destruct (decide (p = bf_ptr b)) as [->|Hpne].
    { exists b'. split_and!; [apply elem_middle; by left|done|by apply Hdata]. }
    destruct (Hother p Hpne) as [Hh' _]. rewrite Hh' in Hpd. destruct (Hh p data Hpd) as (x & Hx & <- & ?).
    exists x. split_and!; try done. apply elem_middle in Hx as [->|Hx]; [done|]. apply elem_middle. by right.
  - intros p Hpf. rewrite ptrs_middle, Eb, <-ptrs_middle. destruct (decide (p = bf_ptr b)) as [->|Hpne].
    { rewrite ptrs_middle. apply elem_middle. by left. }
    apply Hf. by apply (Hother p Hpne).
  - intros p Hpf. destruct (decide (p = bf_ptr b)) as [->|Hpne]; [by apply Hdis|].
    destruct (Hother p Hpne) as [-> Hiff]. by apply Hd, Hiff.
  - rewrite Hfree, Hc, !count_free_app, !count_free_cons. lia.
  - rewrite length_app in *. cbn in *. lia.
  - done.
Qed.

(** ** Searching *)

Lemma search_found fuel cache e i j :
  search fuel cache e i = SFound j -> exists b, cache !! j = Some b /\ bf_free b = true.
Proof.
  revert i. induction fuel as [|fuel IH]; intros i; cbn [search]; destruct (i =? e)%nat; try done.
  cbv zeta. destruct (cache !! (if (i =? length cache)%nat then 0%nat else i)) as [b|] eqn:Eb; cbn [from_option].
  - destruct (bf_free b) eqn:Ef; [|apply IH]. intros [= <-]. by exists b.
  - apply IH.
Qed.

(** The search comes back to where it started unless that is the first buffer,
    and then it meets every buffer. *)
Lemma search_stops fuel cache e i :
  (0 < e < length cache)%nat -> (i <= length cache)%nat -> (length cache <= fuel + (if i <=? e then length cache - e + i else i - e))%nat ->
  search fuel cache e i <> SSpin.
Proof.
  revert i. induction fuel as [|fuel IH]; intros i He Hi Hf; cbn [search].
  { destruct (Nat.eqb_spec i e); [done|]. destruct (Nat.leb_spec i e); lia. }
  destruct (Nat.eqb_spec i e) as [|Hie]; [done|]. cbv zeta. destruct (from_option _ _ _); [done|].
  apply IH; [done| |].
  - destruct (Nat.eqb_spec i (length cache)); lia.
  - destruct (Nat.eqb_spec i (length cache)) as [Hl|Hl]; destruct (Nat.leb_spec i e);
      repeat match goal with |- context [(?x <=? ?y)%nat] => destruct (Nat.leb_spec x y) end; lia.
Qed.
Lemma search_all fuel cache i j b :
  (1 <= i <= length cache)%nat -> cache !! j = Some b -> bf_free b = true -> (i <= j \/ j = 0)%nat ->
  (length cache < fuel + i)%nat -> search fuel cache 0 i <> SSpin.
Proof.
  revert i. induction fuel as [|fuel IH]; intros i Hi Hj Hb Hij Hf; [lia|]. cbn [search].
  rewrite (proj2 (Nat.eqb_neq i 0)) by lia. cbv zeta. apply lookup_lt_Some in Hj as Hlt.
  destruct (Nat.eqb_spec i (length cache)) as [->|Hil].
  - assert (j = 0%nat) as -> by lia. by rewrite Hj; cbn; rewrite Hb.
  - destruct (from_option _ _ (cache !! i)) eqn:Ef; [done|]. apply IH; [lia|done|done| |lia].
    destruct (decide (i = j)) as [->|]; [by rewrite Hj in Ef; cbn in Ef; rewrite Hb in Ef|]. lia.
Qed.

(** ** New buffers *)

Context (newPtr_fresh : forall l, newPtr l ∉ l).

Lemma add_buffers_spec n cache :
  NoDup (ptrs cache) ->
  exists more, add_buffers n cache = cache ++ more /\ length more = n /\ NoDup (ptrs (cache ++ more)) /\
    Forall (fun b => bf_free b = true) more.
Proof.
  revert cache. induction n as [|n IH]; intros cache Hnd; cbn [add_buffers].
  { exists []. by rewrite app_nil_r. }
  destruct (IH (cache ++ [Buffer_init (newPtr (ptrs cache))])) as (more & -> & Hl & Hp & Hf).
  { unfold ptrs. rewrite fmap_app. apply NoDup_app. split; [done|]. split; [|apply NoDup_singleton].
    intros x Hx ->%list_elem_of_singleton. by apply (newPtr_fresh (ptrs cache)). }
  exists (Buffer_init (newPtr (ptrs cache)) :: more). rewrite <-app_assoc in *. cbn.
  split_and!; [done|by rewrite Hl|done|by constructor].
Qed.

Lemma count_free_all l : Forall (fun b => bf_free b = true) l -> count_free l = Z.of_nat (length l).
Proof. intros Hl. unfold count_free. by rewrite filter_all. Qed.

(** Fresh free buffers at the end change nothing else. *)
Lemma more_ok c held freeing more pos maxFree :
  buffers_ok (mkCacheSystem c held freeing) -> NoDup (ptrs (bc_cache c ++ more)) ->
  Forall (fun b => bf_free b = true) more -> (pos < length (bc_cache c))%nat -> bc_minFree c <= maxFree ->
  buffers_ok (mkCacheSystem (mkBufferCache (bc_cache c ++ more) pos (bc_free c + Z.of_nat (length more))
                               (bc_minFree c) maxFree) held freeing).
Proof.
  intros [Hp Hu Hh Hf Hd Hc Hpos Hm] Hnd Hfree Hlt Hmax. cbn in *.
  assert (forall x, x ∈ more -> bf_ptr x ∉ ptrs (bc_cache c)) as Hnew.
  { intros x Hx Hin. unfold ptrs in Hnd. rewrite fmap_app in Hnd. apply NoDup_app in Hnd as (_ & Hdj & _).
    apply (Hdj _ Hin). by apply list_elem_of_fmap_2. }
  constructor; cbn; try done.
  - intros b [Hb|Hb]%elem_of_app; [by apply Hu|]. rewrite Forall_forall in Hfree. rewrite (Hfree b Hb).
    split; [done|]. intros [[data Hdata]|Hb']; destruct (Hnew b Hb); [|by apply Hf].
    destruct (Hh _ _ Hdata) as (x & Hx & <- & _). by apply list_elem_of_fmap_2.
  - intros p data Hpd. destruct (Hh p data Hpd) as (b & ? & ? & ?). exists b. split_and!; try done.
    apply elem_of_app. by left.
  - intros p Hpf. unfold ptrs. rewrite fmap_app. apply elem_of_app. left. by apply Hf.
  - rewrite count_free_app, Hc, (count_free_all more) by done. lia.
  - rewrite length_app. lia.
  - lia.
Qed.
(** A new buffer comes from a cache in a good state, in which it is free. *)
Definition takes (c c' : BufferCache) (ptr : Z) (held : gmap Z bytes) (freeing : gset Z) : Prop :=
  exists c0 l1 b l2, buffers_ok (mkCacheSystem c0 held freeing) /\ bc_cache c0 = l1 ++ b :: l2 /\
    bf_free b = true /\ bf_ptr b = ptr /\ bc_cache c' = l1 ++ setUsed b :: l2 /\ bc_free c' = bc_free c0 - 1 /\
    (bc_position c' < length (bc_cache c0))%nat /\ 0 < bc_minFree c' <= bc_maxFree c'.

Lemma grow_takes c held freeing :
  buffers_ok (mkCacheSystem c held freeing) -> takes c (grow c).2 (grow c).1 held freeing.
Proof.
  intros Hok. destruct (add_buffers_spec (Z.to_nat (Z.shiftr (Z.of_nat (length (bc_cache c))) 3 + 1)) (bc_cache c))
    as (more & Hadd & Hlen & Hnd & Hfree); [apply (bo_ptrs _ Hok)|].
  pose proof (bo_position _ Hok) as Hpos. pose proof (bo_min _ Hok) as Hmin. cbn in Hpos, Hmin.
  set (n := Z.shiftr (Z.of_nat (length (bc_cache c))) 3) in *.
  assert (0 <= n) as Hn by (apply Z.shiftr_nonneg; lia).
  destruct more as [|x more] using rev_ind; [cbn in Hlen; lia|]. clear IHmore.
  unfold grow. fold n. rewrite Hadd.
  set (max := Z.max _ _). assert (bc_minFree c <= max) by (subst max; lia).
  exists (mkBufferCache (bc_cache c ++ (more ++ [x])) 0 (bc_free c + Z.of_nat (length (more ++ [x]))) (bc_minFree c) max).
  rewrite (app_assoc _ more [x]).
  assert (Nat.pred (length ((bc_cache c ++ more) ++ [x])) = length (bc_cache c ++ more)) as ->
    by (rewrite (length_app _ [x]); cbn; lia).
  exists (bc_cache c ++ more), x, []. cbn [fst snd bc_cache bc_position bc_free bc_minFree bc_maxFree].
  rewrite alter_middle, list_lookup_middle by done. cbn [from_option].
  pose proof Hfree as [_ [Hx _]%Forall_cons]%Forall_app.
  split_and!; try done; try lia.
  { rewrite <-app_assoc. apply more_ok; try done. lia. }
  rewrite length_app in *. cbn in *. lia.
Qed.

Lemma newBuffer_takes c c' ptr held freeing :
  buffers_ok (mkCacheSystem c held freeing) -> newBuffer c = Some (ptr, c') -> takes c c' ptr held freeing.
Proof.
  intros Hok. pose proof (grow_takes c held freeing Hok) as Hg. unfold newBuffer.
  destruct (bc_free c >? 0); [|intros E%(inj Some); by rewrite E in Hg].
  destruct (search _ _ _ _) as [i| |] eqn:Es; [|intros E%(inj Some); by rewrite E in Hg|done].
  intros [= <- <-]. apply search_found in Es as (b & Hb & Hf). rewrite Hb. cbn.
  apply list_elem_of_split_length in Hb as Hsplit. destruct Hsplit as (l1 & l2 & El & Hi).
  exists c, l1, b, l2. cbn. rewrite El, Hi, alter_middle. pose proof (bo_min _ Hok). split_and!; try done; try apply H.
  rewrite length_app. cbn. lia.
Qed.

Lemma alloc_ok c c' ptr size held freeing :
  buffers_ok (mkCacheSystem c held freeing) -> alloc size c = Some (ptr, c') ->
  held !! ptr = None /\ (ptr ∉ freeing) /\ buffers_ok (mkCacheSystem c' (<[ptr := []]> held) freeing).
Proof.
  intros Hok. unfold alloc. destruct (newBuffer c) as [[p c1]|] eqn:En; [|done]. cbn. intros [= <- <-].
  destruct (newBuffer_takes _ _ _ _ _ Hok En) as (c0 & l1 & b & l2 & Hok0 & El & Hf & <- & El1 & Hfree & Hpos & Hmin).
  assert (~ (is_Some (held !! bf_ptr b) \/ bf_ptr b ∈ freeing)) as Hnot.
  { rewrite <-(bo_used _ Hok0 b); [congruence|]. cbn. rewrite El. apply elem_middle. by left. }
  split_and!; [apply eq_None_not_Some; tauto|tauto|].
  assert (NoDup (ptrs (l1 ++ setUsed b :: l2))) as Hnd.
  { pose proof (bo_ptrs _ Hok0) as Hp. cbn in Hp. rewrite El in Hp. by rewrite ptrs_middle in *. }
  eapply (replace_ok c0 _ held _ freeing freeing l1 b (clear_data (reserve size (setUsed b))) l2); try exact Hok0; try done; cbn.
  - rewrite El1. by apply (update_middle _ (fun b => clear_data (reserve size b))).
  - intros p Hp. by rewrite lookup_insert_ne.
  - rewrite lookup_insert_eq. split; [intros _; left; eauto|done].
  - intros data. rewrite lookup_insert_eq. by intros [= <-].
  - intros Hin. tauto.
  - rewrite Hfree, Hf. lia.
Qed.

(** If no buffer is on its way back, there is a new buffer. *)
Lemma alloc_total c size held :
  buffers_ok (mkCacheSystem c held ∅) -> is_Some (alloc size c).
Proof.
  intros Hok. unfold alloc, newBuffer. pose proof (bo_free _ Hok) as Hfree. pose proof (bo_position _ Hok) as Hpos. cbn in *.
  destruct (Z.gtb_spec (bc_free c) 0) as [Hgt|]; [|cbn; by eauto].
  destruct (search _ _ _ _) as [i| |] eqn:Es; cbn; [eauto|eauto|]. exfalso.
  destruct (decide (bc_position c = 0%nat)) as [E0|Hne].
  - rewrite E0 in Es. unfold count_free in Hfree. rewrite size_empty in Hfree.
    destruct (filter (fun b => bf_free b = true) (bc_cache c)) as [|b rest] eqn:Ef; [cbn in Hfree; lia|].
    assert (b ∈ filter (fun b => bf_free b = true) (bc_cache c)) as Hb by (rewrite Ef; apply elem_of_cons; by left).
    apply list_elem_of_filter in Hb as [Hfb (j & Hj)%list_elem_of_lookup_1].
    eapply (search_all (length (bc_cache c)) (bc_cache c) 1 j b); try done; lia.
  - eapply (search_stops (length (bc_cache c)) (bc_cache c) (bc_position c) (S (bc_position c))); try done; try lia.
Qed.
(** ** Compaction *)

(** The loop drops free buffers only, until [target] are counted as free or no
    free one is left. *)
Lemma compact_loop_spec target cache free cache' free' i :
  target < free -> compact_loop target cache free = (cache', free', i) ->
  cache' `sublist_of` cache /\ used cache' = used cache /\
  free' - count_free cache' = free - count_free cache /\ target <= free' /\
  (free' = target \/ count_free cache' = 0) /\ (i <= length cache')%nat.
Proof.
  revert free cache' free' i. induction cache as [|b cache IH]; intros free cache' free' i Hlt; cbn [compact_loop].
  { intros [= <- <- <-]. split_and!; try done; [lia|by right]. }
  unfold used. rewrite filter_cons. fold (used cache). destruct (bf_free b) eqn:Ef; case_decide as Hd; try done.
  - cbv zeta. destruct (Z.leb_spec (free - 1) target) as [Hle|Hgt].
    + intros [= <- <- <-]. split_and!; [by apply sublist_cons|done|rewrite count_free_cons, Ef; lia|lia|left; lia|lia].
    + intros E. destruct (IH _ _ _ _ Hgt E) as (Hs & Hk & Hc & Ht & Hend & Hi).
      split_and!; try done; [by apply sublist_cons|rewrite count_free_cons, Ef; lia].
  - destruct (compact_loop target cache free) as [[cache1 free1] i1] eqn:E. intros [= <- <- <-].
    destruct (IH _ _ _ _ Hlt E) as (Hs & Hk & Hc & Ht & Hend & Hi). rewrite !count_free_cons, Ef, filter_cons_True by done.
    split_and!; [by apply sublist_skip|by f_equal|lia|lia|destruct Hend; [by left|right; lia]|cbn; lia].
Qed.

Lemma target_bounds c : 0 < bc_minFree c <= bc_maxFree c ->
  0 < Z.max (Z.shiftr (bc_maxFree c) 1) (bc_minFree c) <= bc_maxFree c.
Proof. intros Hm. rewrite Z.shiftr_div_pow2 by lia. change (2 ^ 1) with 2. Z.div_mod_to_equations. lia. Qed.

Lemma compact_ok c held freeing :
  buffers_ok (mkCacheSystem c held freeing) -> buffers_ok (mkCacheSystem (compact c) held freeing).
Proof.
  intros Hok. unfold compact. destruct (Z.leb_spec (bc_free c) (bc_maxFree c)) as [|Hgt]; [done|].
  pose proof Hok as [Hp Hu Hh Hf Hd Hc Hpos Hm]. cbn in *. pose proof (target_bounds c Hm) as Ht.
  destruct (compact_loop _ _ _) as [[cache free] i] eqn:E.
  apply compact_loop_spec in E as (Hs & Hk & Hcnt & Hle & _ & Hi); [|lia].
  assert (forall b, b ∈ cache -> b ∈ bc_cache c) as Hin by (intros b Hb; by eapply elem_of_sublist).
  assert (forall p, is_Some (held !! p) \/ p ∈ freeing -> forall b, b ∈ bc_cache c -> bf_ptr b = p -> b ∈ cache) as Hkeep.
  { intros p Hpu b Hb <-. apply (list_elem_of_filter (fun b => bf_free b = false)). unfold used in Hk. rewrite Hk.
    apply list_elem_of_filter. split; [by apply Hu|done]. }
  constructor; cbn; try done.
  - eapply sublist_NoDup; [exact Hp|by apply fmap_sublist].
  - intros b Hb. by apply Hu, Hin.
  - intros p data Hpd. destruct (Hh p data Hpd) as (b & Hb & Hbp & Hbd). exists b. split_and!; try done.
    apply (Hkeep p); eauto.
  - intros p Hpf. apply Hf in Hpf as Hpt. unfold ptrs in Hpt. apply list_elem_of_fmap in Hpt as (b & -> & Hb).
    apply list_elem_of_fmap_2, (Hkeep (bf_ptr b)); eauto.
  - lia.
  - destruct (Nat.eqb_spec i (length cache)); [|lia].
    destruct cache as [|b cache]; [|cbn; lia]. exfalso. unfold count_free at 1 in Hcnt. cbn in Hcnt.
    destruct (size_pos_elem_of freeing) as [p Hpf]; [lia|].
    pose proof (Hf p Hpf) as (b & -> & Hb)%list_elem_of_fmap.
    eapply elem_of_nil, (Hkeep (bf_ptr b)); eauto.
  - lia.
Qed.

(** ** Reachable states *)

(** A client's step on a buffer of the cache. *)
Lemma client_ok c c' held held' freeing freeing' ptr f :
  buffers_ok (mkCacheSystem c held freeing) -> ptr ∈ ptrs (bc_cache c) -> (forall b, bf_ptr (f b) = bf_ptr b) ->
  bc_cache c' = update_buffer ptr f (bc_cache c) ->
  (forall p, p <> ptr -> held' !! p = held !! p /\ (p ∈ freeing' <-> p ∈ freeing)) ->
  (forall b, b ∈ bc_cache c -> bf_ptr b = ptr ->
     (bf_free (f b) = false <-> is_Some (held' !! ptr) \/ ptr ∈ freeing') /\
     (forall data, held' !! ptr = Some data -> bf_data (f b) = data) /\
     bc_free c' = bc_free c + (if bf_free (f b) then 1 else 0) - (if bf_free b then 1 else 0)
                  + Z.of_nat (size freeing') - Z.of_nat (size freeing)) ->
  (ptr ∈ freeing' -> held' !! ptr = None) ->
  bc_position c' = bc_position c -> bc_minFree c' = bc_minFree c -> bc_maxFree c' = bc_maxFree c ->
  buffers_ok (mkCacheSystem c' held' freeing').
Proof.
  intros Hok (l1 & b & l2 & El & <-)%ptr_split Hf Hc Hother Hb Hdis Hpos Hmin Hmax.
  destruct (Hb b) as (H1 & H2 & H3); [rewrite El; apply elem_middle; by left|done|].
  eapply (replace_ok c c' held held' freeing freeing' l1 b (f b) l2); try done.
  - rewrite Hc, El. apply update_middle; [|done]. rewrite <-El. apply (bo_ptrs _ Hok).
  - rewrite Hpos. apply (bo_position _ Hok).
  - rewrite Hmin, Hmax. apply (bo_min _ Hok).
Qed.

Lemma update_id ptr l : update_buffer ptr id l = l.
Proof. unfold update_buffer. rewrite <-(list_fmap_id l) at 2. apply list_fmap_ext. intros i b _. by destruct (_ =? _). Qed.

Lemma held_listed c held freeing ptr data :
  buffers_ok (mkCacheSystem c held freeing) -> held !! ptr = Some data ->
  ptr ∈ ptrs (bc_cache c) /\ (ptr ∉ freeing) /\ forall b, b ∈ bc_cache c -> bf_ptr b = ptr -> bf_free b = false.
Proof.
  intros Hok Hp. destruct (bo_held _ Hok ptr data Hp) as (b & Hb & <- & _). cbn in *.
  split_and!; [by apply list_elem_of_fmap_2| |].
  - intros Hin. pose proof (bo_disjoint _ Hok _ Hin) as Hn. cbn in Hn. congruence.
  - intros x Hx He. apply (bo_used _ Hok x Hx). left. cbn. rewrite He. eauto.
Qed.

Lemma buffer_step_ok s s' : buffers_ok s -> buffer_step s s' -> buffers_ok s'.
Proof.
  intros Hok Hst. destruct Hst as [c c' held fr size ptr Ha|c held fr ptr data data' Hp|c held fr ptr data Hp|c held fr ptr Hp|c held fr].
  - by eapply alloc_ok.
  - destruct (held_listed _ _ _ _ _ Hok Hp) as (Hl & Hn & Hu).
    eapply (client_ok c _ held _ fr fr ptr (put_data data')); try done; cbn; [intros p Hne; by rewrite lookup_insert_ne|].
    intros b Hb Hbp. cbn. rewrite lookup_insert_eq, (Hu b Hb Hbp). split; [split; eauto|]. split; [by intros ? [= <-]|lia].
  - destruct (held_listed _ _ _ _ _ Hok Hp) as (Hl & Hn & Hu).
    eapply (client_ok c _ held _ fr _ ptr id); try done; cbn.
    + by rewrite update_id.
    + intros p Hne. rewrite lookup_delete_ne by done. split; [done|set_solver].
    + intros b Hb Hbp. rewrite lookup_delete_eq, (Hu b Hb Hbp). split; [split; [set_solver|done]|]. split; [done|].
      rewrite size_union by set_solver. rewrite size_singleton. lia.
    + by rewrite lookup_delete_eq.
  - eapply (client_ok c _ held _ fr _ ptr setFree); try done; cbn.
    + by apply (bo_freeing _ Hok).
    + set_solver.
    + intros b Hb Hbp. rewrite (proj2 (bo_used _ Hok b Hb)) by (rewrite Hbp; by right).
      pose proof (bo_disjoint _ Hok ptr Hp) as Hn. cbn in Hn. rewrite Hn. split; [|split; [done|]].
      * split; [done|]. intros [[? [=]]|]. set_solver.
      * rewrite size_difference by set_solver. rewrite size_singleton.
        assert (size fr <> 0%nat) by (intros E%size_empty_iff; set_solver). lia.
    + set_solver.
  - by apply compact_ok.
Qed.

Lemma buffers_start_ok minFree : 0 < minFree -> buffers_ok (mkCacheSystem (BufferCache_init minFree) ∅ ∅).
Proof.
  intros Hm. constructor; cbn; try done; try lia.
  - apply NoDup_singleton.
  - intros b ->%list_elem_of_singleton. cbn. split; [done|]. intros [[? [=]]|]; set_solver.
Qed.

Lemma buffers_reachable_ok minFree s : 0 < minFree -> buffers_reachable minFree s -> buffers_ok s.
Proof.
  intros Hm. induction 1 as [|s s' _ IH Hst]; [by apply buffers_start_ok|]. by eapply buffer_step_ok.
Qed.

(** C16: Buffers are never shared.  However allocation, use, return in its two steps
    and compaction interleave, a buffer somebody holds is in the cache, not marked
    free and has the contents its holder put there; the cache counts exactly the
    free buffers and those on their way back; a new buffer is nobody's; and unless
    a buffer is on its way back, there always is a new one. *)
Theorem buffers_exclusive minFree s :
  0 < minFree -> buffers_reachable minFree s ->
  (forall p data, cs_held s !! p = Some data -> exists b, b ∈ bc_cache (cs_cache s) /\ bf_ptr b = p /\
     bf_free b = false /\ bf_data b = data) /\
  NoDup (ptrs (bc_cache (cs_cache s))) /\
  bc_free (cs_cache s) = count_free (bc_cache (cs_cache s)) + Z.of_nat (size (cs_freeing s)) /\
  (forall size ptr c', alloc size (cs_cache s) = Some (ptr, c') -> cs_held s !! ptr = None /\ ptr ∉ cs_freeing s) /\
  (cs_freeing s = ∅ -> forall size, is_Some (alloc size (cs_cache s))).
Proof.
  intros Hm Hr. pose proof (buffers_reachable_ok minFree s Hm Hr) as Hok. destruct s as [c held fr]. cbn. split_and!.
  - intros p data Hp. destruct (bo_held _ Hok p data Hp) as (b & Hb & Hbp & Hd). exists b. split_and!; try done.
    destruct (held_listed _ _ _ _ _ Hok Hp) as (_ & _ & Hu). by apply Hu.
  - apply (bo_ptrs _ Hok).
  - apply (bo_free _ Hok).
  - intros size ptr c' Ha. destruct (alloc_ok _ _ _ _ _ _ Hok Ha) as (? & ? & _). done.
  - intros -> size. by eapply alloc_total.
Qed.

(** Compaction bounds the memory.  With no buffer on its way back, [compact]
    keeps the buffers in use as they are and leaves the cache as it is if no more
    than the maximum are free, and otherwise exactly half of that maximum, but not
    less than [minFree]. *)
Theorem compact_bounds minFree s :
  0 < minFree -> buffers_reachable minFree s -> cs_freeing s = ∅ ->
  let c := cs_cache s in
  used (bc_cache (compact c)) = used (bc_cache c) /\
  count_free (bc_cache (compact c)) =
    (if count_free (bc_cache c) <=? bc_maxFree c then count_free (bc_cache c)
     else Z.max (bc_maxFree c `div` 2) (bc_minFree c)).
Proof.
  intros Hm Hr Hfr c. pose proof (buffers_reachable_ok minFree s Hm Hr) as Hok.
  pose proof (bo_free _ Hok) as Hfree. rewrite Hfr, size_empty, Z.add_0_r in Hfree. fold c in Hfree. rewrite <-Hfree.
  unfold compact. destruct (Z.leb_spec (bc_free c) (bc_maxFree c)) as [|Hgt]; [done|].
  pose proof (target_bounds c (bo_min _ Hok)) as Ht. rewrite Z.shiftr_div_pow2 in * by lia. change (2 ^ 1) with 2 in *.
  destruct (compact_loop _ _ _) as [[cache free] i] eqn:E.
  apply compact_loop_spec in E as (_ & Hk & Hcnt & Hle & Hend & _); [|lia]. cbn [bc_cache].
  split; [done|]. destruct Hend; lia.
Qed.

End cache.

(** ** Samples *)

Definition sample_newPtr (l : list Z) : Z := foldr Z.max 0 l + 1.

Lemma sample_newPtr_max l x : x ∈ l -> x <= foldr Z.max 0 l.
Proof. induction l as [|y l IH]; [by intros ?%elem_of_nil|]. cbn. intros [->|Hx]%elem_of_cons; [|specialize (IH Hx)]; lia. Qed.

Lemma sample_newPtr_fresh l : sample_newPtr l ∉ l.
Proof. intros Hin%sample_newPtr_max. unfold sample_newPtr in Hin. lia. Qed.

(** The steps as functions. *)
Inductive BufferOp := OAlloc (size : Z) | OFill (ptr : Z) (data : bytes) | ONotify (ptr : Z) | OMark (ptr : Z) | OCompact.

Definition buffer_exec (newPtr : list Z -> Z) (s : CacheSystem) (op : BufferOp) : option CacheSystem :=
  let '(mkCacheSystem c held freeing) := s in
  match op with
  | OAlloc size => '(ptr, c') ← alloc newPtr size c; Some (mkCacheSystem c' (<[ptr := []]> held) freeing)
  | OFill ptr data => _ ← held !! ptr; Some (mkCacheSystem (fill ptr data c) (<[ptr := data]> held) freeing)
  | ONotify ptr => _ ← held !! ptr; Some (mkCacheSystem (notifyFree c) (delete ptr held) ({[ptr]} ∪ freeing))
  | OMark ptr =>
      if decide (ptr ∈ freeing) then Some (mkCacheSystem (mark_free ptr c) held (freeing ∖ {[ptr]})) else None
  | OCompact => Some (mkCacheSystem (compact c) held freeing)
  end.

Lemma buffer_exec_step newPtr s op s' : buffer_exec newPtr s op = Some s' -> buffer_step newPtr s s'.
Proof.
  destruct s as [c held fr], op as [size|ptr data|ptr|ptr|]; cbn.
  - destruct (alloc newPtr size c) as [[ptr c']|] eqn:E; [|done]. intros [= <-]. by econstructor.
  - destruct (held !! ptr) eqn:E; [|done]. intros [= <-]. by econstructor.
  - destruct (held !! ptr) eqn:E; [|done]. intros [= <-]. by econstructor.
  - case_decide; [|done]. intros [= <-]. by constructor.
  - intros [= <-]. constructor.
Qed.

Definition sample_buffer_run (ops : list BufferOp) : option CacheSystem :=
  foldl (fun s op => s ← s; buffer_exec sample_newPtr s op)
    (Some (mkCacheSystem (BufferCache_init sample_newPtr 2) ∅ ∅)) ops.

Lemma sample_buffer_reachable ops s : sample_buffer_run ops = Some s -> buffers_reachable sample_newPtr 2 s.
Proof.
  revert s. induction ops as [|op ops IH] using rev_ind; intros s; unfold sample_buffer_run.
  { intros [= <-]. constructor. }
  rewrite foldl_app. fold (sample_buffer_run ops). cbn. destruct (sample_buffer_run ops) as [s'|]; [|done]. cbn.
  intros E%buffer_exec_step. econstructor; [by apply IH|done].
Qed.

(** Eight buffers are taken, one is filled, and six are returned. *)
Definition sample_buffer_ops : list BufferOp :=
  replicate 8 (OAlloc 4096) ++ [OFill 3 [7; 8]] ++ concat ((fun p => [ONotify p; OMark p]) <$> [1; 2; 4; 5; 6; 7]).

Definition sample_buffers : CacheSystem :=
  default (mkCacheSystem (BufferCache_init sample_newPtr 2) ∅ ∅) (sample_buffer_run sample_buffer_ops).

Lemma sample_buffers_reachable : buffers_reachable sample_newPtr 2 sample_buffers.
Proof. apply (sample_buffer_reachable sample_buffer_ops). vm_compute. reflexivity. Qed.

Lemma buffers_exclusive_witness :
  exists b, b ∈ bc_cache (cs_cache sample_buffers) /\ bf_ptr b = 3 /\ bf_free b = false /\ bf_data b = [7; 8].
Proof.
  destruct (buffers_exclusive sample_newPtr sample_newPtr_fresh 2 sample_buffers) as (H1 & _).
  - lia.
  - exact sample_buffers_reachable.
  - apply (H1 3 [7; 8]). vm_compute. reflexivity.
Defined.

Lemma compact_bounds_witness :
  used (bc_cache (compact (cs_cache sample_buffers))) = used (bc_cache (cs_cache sample_buffers)) /\
  count_free (bc_cache (cs_cache sample_buffers)) = 6 /\
  count_free (bc_cache (compact (cs_cache sample_buffers))) = 2.
Proof.
  destruct (compact_bounds sample_newPtr sample_newPtr_fresh 2 sample_buffers) as (H1 & H2).
  - lia.
  - exact sample_buffers_reachable.
  - vm_compute. reflexivity.
  - split; [exact H1|]. split; [vm_compute; reflexivity|]. rewrite H2. vm_compute. reflexivity.
Defined.
