(* ===== verification/Connection.v ===== *)
(** * Connections (co/connection.cpp, connection.h, bufferConnection.cpp)

    The base class of all connections frames receives and sends: [recvNB] starts
    to read a number of bytes into a buffer, [recvSync] reads until they are
    there, and [send] writes until everything is written.  What a transport does
    (sockets, pipes, the reliable multicast protocol) is an interface; a read or
    write may move fewer bytes than asked for. *)

From S2P Require Import Prelude Bytes Lunchbox DataOStream BufferCache.

(** [Connection::State] *)
Inductive ConnState := STATE_CLOSED | STATE_CONNECTING | STATE_CONNECTED | STATE_LISTENING | STATE_CLOSING.

#[export] Instance ConnState_eq_dec : EqDecision ConnState.
Proof. solve_decision. Defined.

(** What [readSync] returns: the bytes it put at the pointer, [READ_TIMEOUT],
    [READ_ERROR] or an exception; and [write]: the number of bytes, [-1] or an
    exception. *)
Inductive ReadResult := RData (data : bytes) | RTimeout | RError | RThrow.
Inductive WriteResult := WWrote (n : Z) | WError | WThrow.

Class Transport (T : Type) := {
  getState : T -> ConnState;
  readNB : Z -> T -> T;
  readSync : Z -> bool -> T -> ReadResult * T;
  write : bytes -> T -> WriteResult * T;
  close : T -> T;
}.

(** The bytes that have been sent by the peer and not been read, and those that
    have been written. *)
Class TransportView (T : Type) := { unread : T -> bytes; written : T -> bytes }.

Class TransportOk (T : Type) `{Transport T, TransportView T} : Prop := {
  readNB_state n t : getState (readNB n t) = getState t;
  readNB_unread n t : unread (readNB n t) = unread t;
  readSync_state n block t data t' : readSync n block t = (RData data, t') -> getState t' = getState t;
  readSync_unread n block t data t' :
    readSync n block t = (RData data, t') -> unread t = data ++ unread t' /\ size_of data <= Z.max 0 n;
  write_written data t n t' :
    write data t = (WWrote n, t') ->
    0 <= n <= size_of data /\ written t' = written t ++ take (Z.to_nat n) data /\ getState t' = getState t;
  write_error data t t' : write data t = (WError, t') \/ write data t = (WThrow, t') -> written t' = written t;
  close_state t : getState (close t) = STATE_CLOSED;
  close_written t : written (close t) = written t;
}.

(** A transport that is connected and not interrupted: data that is there is
    read, some at a time. *)
Class TransportReliable (T : Type) `{Transport T, TransportView T} : Prop := {
  readSync_delivers n block t :
    getState t = STATE_CONNECTED -> 0 < n <= size_of (unread t) ->
    exists data t', readSync n block t = (RData data, t') /\ data <> [];
}.

Section connection.

Context {T : Type} `{!Transport T}.

Record Connection := mkConnection {
  cn_transport : T;
  cn_buffer : option Buffer;
  cn_bytes : Z
}.

(** [buffer] with [data] as its contents, [lunchbox::Buffer::resize] after the
    memory was written. *)
Definition append_data (data : bytes) (b : Buffer) : Buffer :=
  mkBuffer (bf_ptr b) (bf_free b) (Z.max (bf_maxSize b) (size_of (bf_data b ++ data))) (bf_data b ++ data).

Definition recvNB (buffer : Buffer) (nbytes : Z) (c : Connection) : Connection :=
  let buffer := reserve (size_of (bf_data buffer) + nbytes) buffer in
  mkConnection (readNB nbytes (cn_transport c)) (Some buffer) nbytes.

(** The result of [recvSync]: the value returned and [outBuffer], or an exception. *)
Inductive RecvResult := Received (ok : bool) (buffer : option Buffer) | RecvThrow.

(** The receive loop.  [got] is what the last read returned, [read] what was read
    before it. *)
Fixpoint recv_loop (fuel : nat) (nbytes : Z) (buffer : Buffer) (read : bytes) (got : ReadResult) (t : T) :
    option (RecvResult * T) :=
  let bytesLeft := nbytes - size_of read in
  match got with
  | RThrow => Some (RecvThrow, t)
  | RTimeout | RError => Some (Received false (Some (append_data read buffer)), t)
  | RData data =>
      if (size_of data =? 0) && (nbytes =? bytesLeft) then Some (Received false (Some buffer), t)
      else if bytesLeft >? size_of data then
        match fuel with
        | O => None
        | S fuel =>
            let t := readNB (bytesLeft - size_of data) t in
            let '(got, t) := readSync (bytesLeft - size_of data) true t in
            recv_loop fuel nbytes buffer (read ++ data) got t
        end
      else Some (Received true (Some (append_data (read ++ data) buffer)), t)
  end.

Definition recvSync (fuel : nat) (block : bool) (c : Connection) : option (RecvResult * Connection) :=
  let reset t := mkConnection t None 0 in
  match cn_buffer c with
  | None => Some (Received false None, reset (cn_transport c))
  | Some buffer =>
      if negb (bool_decide (getState (cn_transport c) = STATE_CONNECTED)) || (cn_bytes c =? 0) then
        Some (Received false (Some buffer), reset (cn_transport c))
      else
        let '(got, t) := readSync (cn_bytes c) block (cn_transport c) in
        match got with
        | RTimeout => Some (Received true None, mkConnection t (Some buffer) (cn_bytes c))
        | _ => '(r, t) ← recv_loop fuel (cn_bytes c) buffer [] got t; Some (r, reset t)
        end
  end.

Definition resetRecvData (c : Connection) : option Buffer * Connection :=
  (cn_buffer c, mkConnection (cn_transport c) None 0).

(** The loop of [send]. *)
Fixpoint send_loop (fuel : nat) (data : bytes) (t : T) : option (bool * T) :=
  match data with
  | [] => Some (true, t)
  | _ =>
      match fuel with
      | O => None
      | S fuel =>
          match write data t with
          | (WWrote n, t) => send_loop fuel (drop (Z.to_nat n) data) t
          | (WError, t) | (WThrow, t) => Some (false, close t)
          end
      end
  end.

Definition send (fuel : nat) (data : bytes) (c : Connection) : option (bool * Connection) :=
  '(ok, t) ← send_loop fuel data (cn_transport c); Some (ok, mkConnection t (cn_buffer c) (cn_bytes c)).

End connection.

Arguments Connection T : clear implicits.

(** ** Lemmas *)

Section lemmas.

Context {T : Type} `{!Transport T, !TransportView T, !TransportOk T}.

(** What the receive loop does once data has arrived. *)
Lemma recv_loop_reads `{!TransportReliable T} fuel nbytes b read data t :
  getState t = STATE_CONNECTED -> data <> [] -> size_of (read ++ data) <= nbytes ->
  nbytes - size_of (read ++ data) <= size_of (unread t) -> (Z.to_nat (nbytes - size_of (read ++ data)) <= fuel)%nat ->
  exists more t', recv_loop fuel nbytes b read (RData data) t =
      Some (Received true (Some (append_data (read ++ data ++ more) b)), t') /\
    size_of (read ++ data ++ more) = nbytes /\ unread t = more ++ unread t' /\ getState t' = STATE_CONNECTED.
Proof.
  revert read data t. induction fuel as [|fuel IH]; intros read data t Hst Hne Hle Hav Hf; cbn [recv_loop];
    rewrite (proj2 (Z.eqb_neq (size_of data) 0)) by (destruct data; [done|unfold size_of; cbn; lia]); cbn [andb];
    rewrite size_of_app in *; pose proof (size_of_nonneg read); pose proof (size_of_nonneg data);
    (destruct (Z.gtb_spec (nbytes - size_of read) (size_of data)) as [Hgt|Hdone];
      [|exists [], t; rewrite app_nil_r; split_and!; [done|rewrite size_of_app; lia|done|done]]); [lia|].
  set (left := nbytes - size_of read - size_of data) in *.
  destruct (readSync_delivers left true (readNB left t)) as (data' & t' & Hr & Hne').
  { by rewrite readNB_state. }
  { rewrite readNB_unread. unfold left. lia. }
  rewrite Hr. destruct (readSync_unread _ _ _ _ _ Hr) as [Hu Hs]. rewrite readNB_unread in Hu.
  assert (getState t' = STATE_CONNECTED) as Hst'. { by rewrite (readSync_state _ _ _ _ _ Hr), readNB_state. }
  assert (0 < size_of data') as Hpos by (destruct data'; [done|unfold size_of; cbn; lia]).
  rewrite Hu, size_of_app in Hav.
  destruct (IH (read ++ data) data' t') as (more & t'' & E & Hsz & Hu' & Hst''); try done;
    rewrite ?size_of_app; unfold left in *; try lia.
  exists (data' ++ more), t''. rewrite <-app_assoc in E, Hsz. split_and!; try done. by rewrite Hu, Hu', app_assoc.
Qed.

(** A receive of bytes that are there. *)
Lemma recvSync_reads `{!TransportReliable T} fuel block c b nbytes :
  cn_buffer c = Some b -> cn_bytes c = nbytes -> getState (cn_transport c) = STATE_CONNECTED ->
  0 < nbytes <= size_of (unread (cn_transport c)) -> (Z.to_nat nbytes <= fuel)%nat ->
  exists data t', recvSync fuel block c = Some (Received true (Some (append_data data b)), mkConnection t' None 0) /\
    size_of data = nbytes /\ unread (cn_transport c) = data ++ unread t' /\ getState t' = STATE_CONNECTED.
Proof.
  intros Hb Hn Hst Hle Hf. unfold recvSync. rewrite Hb, Hn, bool_decide_eq_true_2 by done.
  rewrite (proj2 (Z.eqb_neq nbytes 0)) by lia. cbn [negb orb].
  destruct (readSync_delivers nbytes block (cn_transport c)) as (data & t & Hr & Hne); [done..|].
  rewrite Hr. destruct (readSync_unread _ _ _ _ _ Hr) as [Hu Hs].
  assert (getState t = STATE_CONNECTED) as Hst' by (by rewrite (readSync_state _ _ _ _ _ Hr)).
  rewrite Hu, size_of_app in Hle. pose proof (size_of_nonneg data).
  destruct (recv_loop_reads fuel nbytes b [] data t) as (more & t' & E & Hsz & Hu' & Hst''); try done; cbn [app] in *; try lia.
  rewrite E. cbn. exists (data ++ more), t'. split_and!; try done. by rewrite Hu, Hu', app_assoc.
Qed.

Lemma send_loop_spec fuel data t ok t' :
  send_loop fuel data t = Some (ok, t') ->
  exists k, (k <= length data)%nat /\ written t' = written t ++ take k data /\
    (if ok then k = length data /\ getState t' = getState t else getState t' = STATE_CLOSED).
Proof.
  revert data t. induction fuel as [|fuel IH]; intros data t; (destruct data as [|x data];
    [intros [= <- <-]; exists 0%nat; cbn; rewrite app_nil_r; split_and!; [lia|done..]|]); cbn [send_loop]; [done|].
  destruct (write (x :: data) t) as [[n| |] t1] eqn:Ew.
  - apply write_written in Ew as (Hn & Hw & Hs). intros E. apply IH in E as (k & Hk & Hw' & Hr).
    rewrite length_drop in *. unfold size_of in Hn.
    exists (Z.to_nat n + k)%nat. split_and!; [lia| |].
    + rewrite Hw', Hw, <-app_assoc. f_equal. by rewrite take_take_drop.
    + destruct ok; [|done]. rewrite <-Hs. split; [lia|apply Hr].
  - intros [= <- <-]. exists 0%nat. cbn. rewrite app_nil_r, close_written, (write_error _ _ t1) by eauto.
    split_and!; [lia|done|apply close_state].
  - intros [= <- <-]. exists 0%nat. cbn. rewrite app_nil_r, close_written, (write_error _ _ t1) by eauto.
    split_and!; [lia|done|apply close_state].
Qed.

Lemma send_loop_total fuel data t :
  (forall data t t', data <> [] -> write data t <> (WWrote 0, t')) -> (length data <= fuel)%nat ->
  is_Some (send_loop fuel data t).
Proof.
  intros Hp. revert data t. induction fuel as [|fuel IH]; intros data t Hl; (destruct data as [|x data]; [cbn; by eauto|]);
    cbn [send_loop]; [cbn in Hl; lia|].
  destruct (write (x :: data) t) as [[n| |] t1] eqn:Ew; [|by eauto..].
  apply write_written in Ew as Ew'. apply IH. rewrite length_drop.
  assert (n <> 0) by (intros ->; by apply (Hp (x :: data) t t1)). lia.
Qed.

(** A send is all or nothing for the caller.  However the transport splits the
    writes, [send] returns and either everything was written, in order, and the
    connection is as before, or a prefix was written and the connection is
    closed, so that no later send can follow a partial one. *)
Theorem send_exact data (c : Connection T) :
  (forall data (t t' : T), data <> [] -> write data t <> (WWrote 0, t')) ->
  exists ok c', send (length data) data c = Some (ok, c') /\ cn_buffer c' = cn_buffer c /\ cn_bytes c' = cn_bytes c /\
    exists k, (k <= length data)%nat /\ written (cn_transport c') = written (cn_transport c) ++ take k data /\
      (if ok then k = length data /\ getState (cn_transport c') = getState (cn_transport c)
       else getState (cn_transport c') = STATE_CLOSED).
Proof.
  intros Hp. destruct (send_loop_total (length data) data (cn_transport c) Hp) as [[ok t] E]; [done|].
  unfold send. rewrite E. cbn. eexists _, _. split; [done|]. split_and!; [done|done|]. by apply (send_loop_spec _ _ _ _ _ E).
Qed.

End lemmas.

(** ** Buffered connections *)

Section buffered.

Context {T : Type} `{!Transport T}.

(** [BufferConnection::write] appends, [sendBuffer] sends everything at once. *)
Definition BufferConnection_write (data buffer : bytes) : Z * bytes := (size_of data, buffer ++ data).

Definition sendBuffer (fuel : nat) (buffer : bytes) (c : option (Connection T)) : option (bytes * option (Connection T)) :=
  match buffer, c with
  | [], _ => Some ([], c)
  | _, None => Some (buffer, None)
  | _, Some c => '(_, c) ← send fuel buffer c; Some ([], Some c)
  end.

End buffered.

(** ** A transport with scripted reads and writes *)

Record Script := mkScript {
  sp_state : ConnState;
  sp_unread : bytes;
  sp_written : bytes;
  sp_reads : list nat;
  sp_writes : list nat
}.

(** How much of [n] bytes an operation moves: one more than the script says, or
    everything at its end; with [zero], exactly what it says. *)
Definition moved (zero : bool) (script : list nat) (n : nat) : nat :=
  match script with [] => n | k :: _ => Nat.min n (if zero then k else S k) end.

#[export] Instance Script_Transport_ (zero : bool) : Transport Script := {
  getState := sp_state;
  readNB _ t := t;
  readSync n block t :=
    match sp_unread t with
    | [] => (if block then RError else RTimeout, t)
    | _ =>
        let k := moved zero (sp_reads t) (Nat.min (Z.to_nat n) (length (sp_unread t))) in
        (RData (take k (sp_unread t)),
         mkScript (sp_state t) (drop k (sp_unread t)) (sp_written t) (tl (sp_reads t)) (sp_writes t))
    end;
  write data t :=
    let k := moved zero (sp_writes t) (length data) in
    (WWrote (Z.of_nat k), mkScript (sp_state t) (sp_unread t) (sp_written t ++ take k data) (sp_reads t) (tl (sp_writes t)));
  close t := mkScript STATE_CLOSED (sp_unread t) (sp_written t) (sp_reads t) (sp_writes t);
}.

#[export] Instance Script_View : TransportView Script := { unread := sp_unread; written := sp_written }.

Lemma moved_le zero script n : (moved zero script n <= n)%nat.
Proof. unfold moved. destruct script; lia. Qed.

Lemma Script_Ok zero : TransportOk Script (H := Script_Transport_ zero).
Proof.
  split; cbn; try done.
  - intros n block t data t'. destruct (sp_unread t) as [|x u]; [by destruct block|]. by intros [= <- <-].
  - intros n block t data t'. destruct (sp_unread t) as [|x u] eqn:Eu; [by destruct block|]. intros [= <- <-]. cbn [sp_unread].
    split; [by rewrite take_drop|]. unfold size_of. rewrite length_take.
    match goal with |- context [moved ?z ?r ?k] => pose proof (moved_le z r k) end. cbn [length] in *. lia.
  - intros data t n t' [= <- <-]. pose proof (moved_le zero (sp_writes t) (length data)). unfold size_of. rewrite Nat2Z.id.
    cbn. split_and!; [lia|lia|done|done].
  - by intros data t t' [?|?].
Qed.

Lemma Script_Reliable : TransportReliable Script (H := Script_Transport_ false).
Proof.
  split. cbn. intros n block t _ Hn. destruct (sp_unread t) as [|x u] eqn:Eu; [unfold size_of in Hn; cbn in Hn; lia|].
  eexists _, _. split; [done|]. unfold moved. destruct (Nat.min (Z.to_nat n) (length (x :: u))) eqn:Em.
  - cbn in Em. lia.
  - by destruct (sp_reads t).
Qed.

Definition sample_script : Script := mkScript STATE_CONNECTED [] [] [] [1; 0; 2]%nat.

Lemma send_exact_witness :
  exists ok c', send (Transport0 := Script_Transport_ false) 6 [1; 2; 3; 4; 5; 6] (mkConnection sample_script None 0) = Some (ok, c') /\
    exists k, (k <= 6)%nat /\ written (cn_transport c') = take k [1; 2; 3; 4; 5; 6].
Proof.
  destruct (send_exact (T := Script) (Transport0 := Script_Transport_ false) (TransportOk0 := Script_Ok false) [1; 2; 3; 4; 5; 6]
    (mkConnection sample_script None 0)) as (ok & c' & H1 & _ & _ & k & H2 & H3 & _).
  - intros data t t' Hd. unfold write, Script_Transport_, moved. destruct data; [done|].
    intros [= E _]. destruct (sp_writes t); cbn in E; lia.
  - exists ok, c'. split; [exact H1|]. exists k. split; [exact H2|exact H3].
Defined.
