(* ===== verification/Receive.v ===== *)
(** * Receiving commands (co/localNode.cpp: _handleData, _readHead, _setupCommand, _readTail)

    The receiver thread reads the first [COMMAND_MINSIZE] bytes of a command,
    learns its size, and reads the rest into the same buffer, or into a bigger
    one if it does not fit.  The command is built over the buffer before the rest
    arrives and shares it.  Buffers come from pools, which are an interface the
    buffer caches implement. *)

From S2P Require Import Prelude Bytes Lunchbox DataOStream DataIStream Serialize Transfer Commands BufferCache Connection.

Definition COMMAND_ALLOCSIZE : Z := 4096.
Definition CMD_NODE_CONNECT : Z := 0.
Definition CMD_NODE_CONNECT_BE : Z := 1.
Definition CMD_NODE_CONNECT_REPLY : Z := 2.
Definition CMD_NODE_CONNECT_REPLY_BE : Z := 3.
Definition CMD_NODE_ID : Z := 4.
Definition CMD_NODE_ID_BE : Z := 5.

(** What the receiver thread asks of a buffer cache: a buffer of at least the size,
    empty; [None] if the cache waits for a buffer on its way back. *)
Class BufferPool (P : Type) := {
  pool_alloc : Z -> P -> option (Buffer * P);
  pool_compact : P -> P;
}.

Class BufferPoolOk (P : Type) `{BufferPool P} (ready : P -> Prop) : Prop := {
  pool_alloc_ready size p : ready p ->
    exists b p', pool_alloc size p = Some (b, p') /\ ready p' /\ bf_data b = [] /\ size <= bf_maxSize b;
  pool_compact_ready p : ready p -> ready (pool_compact p);
}.

Section receive.

Context {HP : Pression} {HL : Lunchbox} (be : bool).
Context {T : Type} `{!Transport T}.
Context {P : Type} `{!BufferPool P}.
Context (fuel : nat).

(** [rv_peer] is the byte order of the node of the connection, if it is known. *)
Record Receiver := mkReceiver {
  rv_smallBuffers : P;
  rv_bigBuffers : P;
  rv_connection : Connection T;
  rv_peer : option bool
}.

Definition set_connection (c : Connection T) (r : Receiver) : Receiver :=
  mkReceiver (rv_smallBuffers r) (rv_bigBuffers r) c (rv_peer r).

Inductive Head := HBuffer (b : Buffer) | HNone | HThrow.

Definition set_size_0 (b : Buffer) : Buffer := mkBuffer (bf_ptr b) (bf_free b) (bf_maxSize b) [].

Definition _readHead (c : Connection T) : option (Head * Connection T) :=
  '(r, c) ← recvSync fuel false c;
  match r with
  | RecvThrow => Some (HThrow, c)
  | Received _ None => Some (HNone, c)
  | Received true (Some buffer) => Some (HBuffer buffer, c)
  | Received false (Some buffer) => Some (HNone, recvNB (set_size_0 buffer) COMMAND_MINSIZE c)
  end.

(** [lunchbox::byteswap] of a 32-bit value *)
Definition byteswap32 (x : Z) : Z := dec be (byteswap (enc be 4 x)).

Definition _setupCommand (peer : option bool) (buffer : bytes) : ICommand :=
  let swapping := match peer with Some big => xorb be big | None => false end in
  let command := ICommand_new be (Some buffer) swapping in
  match peer with
  | Some _ => command
  | None =>
      let cmd := if be then byteswap32 (ic_cmd command) else ic_cmd command in
      if (cmd =? CMD_NODE_CONNECT) || (cmd =? CMD_NODE_CONNECT_REPLY) || (cmd =? CMD_NODE_ID) then
        setCommand cmd (if be then ICommand_new be (Some buffer) true else command)
      else if (cmd =? CMD_NODE_CONNECT_BE) || (cmd =? CMD_NODE_CONNECT_REPLY_BE) || (cmd =? CMD_NODE_ID_BE) then
        setCommand cmd (if be then command else ICommand_new be (Some buffer) true)
      else ICommand_new be None false
  end.

(** The command after its buffer received more data: the stream and the source
    are the same memory. *)
Definition refill_stream (full : bytes) (ist : DataIStream CommandBuffer) : DataIStream CommandBuffer :=
  mkDataIStream ((fun _ => take (Z.to_nat (inputSize ist)) full) <$> input ist) (inputSize ist) (position ist) (swap ist)
    (mkCommandBuffer ((fun _ => full) <$> cb_buffer (source ist)) (cb_consumed (source ist))).

Definition refill (full : bytes) (c : ICommand) : ICommand :=
  mkICommand (refill_stream full (ic_stream c)) (ic_size c) (ic_type c) (ic_cmd c).

(** [newBuffer->replace( *buffer )] *)
Definition replace_data (data : bytes) (b : Buffer) : Buffer :=
  mkBuffer (bf_ptr b) (bf_free b) (Z.max (bf_maxSize b) (size_of data)) data.

Inductive Tail := TDone (ok : bool) (command : ICommand) | TThrow.

Definition _readTail (command : ICommand) (buffer : Buffer) (big : P) (c : Connection T) :
    option (Tail * P * Connection T) :=
  let needed := ic_size command in
  if needed <=? size_of (bf_data buffer) then Some (TDone true command, big, c)
  else
    '(command, buffer, big) ←
      (if needed >? bf_maxSize buffer then
         '(newBuffer, big) ← pool_alloc needed big;
         let newBuffer := replace_data (bf_data buffer) newBuffer in
         Some (ICommand_new be (Some (bf_data newBuffer)) (swap (ic_stream command)), newBuffer, big)
       else Some (command, buffer, big));
    let c := recvNB buffer (ic_size command - size_of (bf_data buffer)) c in
    '(r, c) ← recvSync fuel true c;
    match r with
    | RecvThrow => Some (TThrow, big, c)
    | Received ok (Some buffer) => Some (TDone ok (refill (bf_data buffer) command), big, c)
    | Received ok None => Some (TDone ok command, big, c)
    end.

(** What [_handleData] does: a command is dispatched, a part of one is dropped,
    there was nothing to read, or an exception leaves the receiver thread. *)
Inductive Handled := HCommand (command : ICommand) | HIncomplete (command : ICommand) | HNothing | HThrown.

Definition _handleData (r : Receiver) : option (Handled * Receiver) :=
  let small := pool_compact (rv_smallBuffers r) in
  let big := pool_compact (rv_bigBuffers r) in
  '(head, c) ← _readHead (rv_connection r);
  match head with
  | HNone => Some (HNothing, mkReceiver small big c (rv_peer r))
  | HThrow => Some (HThrown, mkReceiver small big c (rv_peer r))
  | HBuffer buffer =>
      let command := _setupCommand (rv_peer r) (bf_data buffer) in
      '(tail, big, c) ← _readTail command buffer big c;
      match tail with
      | TThrow => Some (HThrown, mkReceiver small big c (rv_peer r))
      | TDone gotCommand command =>
          '(nextBuffer, small) ← pool_alloc COMMAND_ALLOCSIZE small;
          let c := recvNB nextBuffer COMMAND_MINSIZE c in
          Some (if gotCommand then HCommand command else HIncomplete command, mkReceiver small big c (rv_peer r))
      end
  end.

(** [_addConnection] in the receiver thread: the first receive. *)
Definition _addConnection (small big : P) (c : Connection T) (peer : option bool) : option Receiver :=
  '(buffer, small) ← pool_alloc COMMAND_ALLOCSIZE small;
  Some (mkReceiver small big (recvNB buffer COMMAND_MINSIZE c) peer).

(** [n] data events on the connection. *)
Fixpoint handle_events (n : nat) (r : Receiver) : option (list Handled * Receiver) :=
  match n with
  | O => Some ([], r)
  | S n => '(h, r) ← _handleData r; '(hs, r) ← handle_events n r; Some (h :: hs, r)
  end.

End receive.

Arguments Receiver T P : clear implicits.

(** ** Commands over a growing buffer *)

Section refill.

Context {HP : Pression} {HL : Lunchbox} (be : bool).
#[local] Hint Extern 0 (BufferSource CommandBuffer) => exact (CommandBuffer_source be) : typeclass_instances.

(** A stream over the first [k] bytes of [full]. *)
Record over (k : nat) (full : bytes) (ist : DataIStream CommandBuffer) : Prop := {
  ov_buffer : cb_buffer (source ist) = None \/ cb_buffer (source ist) = Some (take k full);
  ov_input : input ist = None /\ inputSize ist = 0 \/
             input ist = Some (take (Z.to_nat (inputSize ist)) (take k full));
  ov_position : 0 <= position ist;
}.
Lemma take_drop_take {A} (l : list A) n m k : (m + n <= k)%nat -> take n (drop m (take k l)) = take n (drop m l).
Proof. intros Hle. rewrite !take_drop_commute, take_take. by rewrite Nat.min_l. Qed.

Lemma loop_refill fuel k full (ist : DataIStream CommandBuffer) :
  (8 <= k)%nat -> over k full ist ->
  let r := checkBuffer_loop be fuel ist in
  checkBuffer_loop be fuel (refill_stream full ist) = (r.1, refill_stream full r.2) /\
  over k full r.2 /\ position r.2 <= position ist.
Proof.
  intros Hk. revert ist. induction fuel as [|fuel IH]; intros ist Hov; cbn [checkBuffer_loop];
    cbn [refill_stream position inputSize]; (destruct (position ist <? inputSize ist); [done|]); [done|].
  destruct ist as [inp isz pos sw [b consumed]], Hov as [Hb Hi Hp]. cbn in Hb, Hi, Hp |- *.
  unfold ICommand_getNextBuffer. destruct consumed; cbn.
  { split_and!; [done| |lia]. split; cbn; [by left|by left|lia]. }
  destruct Hb as [->| ->]; cbn.
  { split_and!; [done| |lia]. split; cbn; [by left|by left|lia]. }
  assert (take 8 (take k full) = take 8 full) as Ht by (rewrite take_take; f_equal; lia). rewrite Ht.
  destruct (IH (mkDataIStream (Some (decompress_ be (take (Z.to_nat (dec be (take 8 full))) (take k full)) EQ_COMPRESSOR_NONE 1
      (dec be (take 8 full)))) (dec be (take 8 full)) 0 sw (mkCommandBuffer (Some (take k full)) true))) as (E & Ho & Hpos).
  { unfold decompress_. rewrite Z.eqb_refl. split; cbn; [by right|by right|lia]. }
  unfold decompress_ in *. rewrite Z.eqb_refl in *. split_and!; [exact E|exact Ho|]. cbn in Hpos. lia.
Qed.

Lemma read_refill n k full ist :
  (8 <= k)%nat -> over k full ist -> 0 <= n -> (Z.to_nat (position ist + n) <= k)%nat ->
  let r := read_ be n ist in
  read_ be n (refill_stream full ist) = (r.1, refill_stream full r.2) /\ over k full r.2 /\
  position r.2 <= position ist + n /\ swap r.2 = swap (refill_stream full r.2).
Proof.
  intros Hk Hov Hn Hpn r. unfold r, read_.
  destruct (loop_refill (S (buffersLeft (source ist))) k full ist Hk Hov) as (E & Ho & Hp).
  assert (checkBuffer be (refill_stream full ist) = checkBuffer_loop be (S (buffersLeft (source ist))) (refill_stream full ist)) as ->.
  { unfold checkBuffer. cbn. by destruct (cb_buffer (source ist)). }
  fold (checkBuffer be ist) in E, Ho, Hp. rewrite E. destruct (checkBuffer be ist) as [[] ist'] eqn:Ec; cbn in *; [|by split_and!; try lia].
  destruct (Z.gtb_spec n (inputSize ist' - position ist')) as [Hgt|Hle]; cbn; [by split_and!; try lia|].
  destruct Ho as [Hb Hi Hpos]. split_and!; [|split; cbn; [done|done|lia]|lia|done].
  unfold at_position, refill_stream. cbn. do 2 f_equal. destruct Hi as [[Hi Hz]|Hi]; rewrite Hi; cbn.
  - assert (Z.to_nat n = 0%nat) as -> by lia. by rewrite !take_0.
  - rewrite (take_drop_take (take k full)), !take_drop_take; [done|lia..].
Qed.

Lemma read_item_refill n old k full ist :
  (8 <= k)%nat -> over k full ist -> (Z.to_nat (position ist + Z.of_nat n) <= k)%nat ->
  let r := read_item be n old ist in
  read_item be n old (refill_stream full ist) = (r.1, refill_stream full r.2) /\ over k full r.2 /\
  position r.2 <= position ist + Z.of_nat n.
Proof.
  intros Hk Hov Hp. unfold read_item. destruct (read_refill (Z.of_nat n) k full ist) as (E & Ho & Hle & _); try done; [lia|].
  rewrite E. destruct (read_ be (Z.of_nat n) ist) as [r ist']. cbn in *. done.
Qed.

(** The command over the whole buffer is the one over its start, refilled. *)
Lemma ICommand_new_refill k full sw :
  (16 <= k)%nat -> refill full (ICommand_new be (Some (take k full)) sw) = ICommand_new be (Some full) sw.
Proof.
  intros Hk. unfold ICommand_new.
  set (st0 := DataIStream_init sw (mkCommandBuffer (Some (take k full)) false)).
  change (DataIStream_init sw (mkCommandBuffer (Some full) false)) with (refill_stream full st0).
  assert (over k full st0) as H0 by (split; cbn; [by right|by left|lia]).
  destruct (read_item_refill 8 0 k full st0) as (E1 & H1 & P1); [lia|done|cbn; lia|]. rewrite E1.
  destruct (read_item be 8 0 st0) as [size st1]. cbn [fst snd] in *. change (position st0) with 0 in *.
  destruct (read_item_refill 4 COMMANDTYPE_INVALID k full st1) as (E2 & H2 & P2); [lia|done|lia|]. rewrite E2.
  destruct (read_item be 4 COMMANDTYPE_INVALID st1) as [type st2]. cbn [fst snd] in *.
  destruct (read_item_refill 4 CMD_INVALID k full st2) as (E3 & H3 & P3); [lia|done|lia|]. rewrite E3.
  by destruct (read_item be 4 CMD_INVALID st2).
Qed.

Lemma loop_swap fuel (ist : DataIStream CommandBuffer) : swap (checkBuffer_loop be fuel ist).2 = swap ist.
Proof.
  revert ist. induction fuel as [|fuel IH]; intros ist; cbn [checkBuffer_loop]; (destruct (_ <? _); [done|]); [done|].
  cbn. unfold ICommand_getNextBuffer. destruct (cb_consumed (source ist)); [done|].
  destruct (cb_buffer (source ist)); [|done]. by rewrite IH.
Qed.

Lemma read_item_swap n old (ist : DataIStream CommandBuffer) : swap (read_item be n old ist).2 = swap ist.
Proof.
  unfold read_item, read_, checkBuffer. pose proof (loop_swap (S (buffersLeft (source ist))) ist) as Hs.
  destruct (checkBuffer_loop _ _ _) as [[] ist']; cbn in *; [|done]. by destruct (_ >? _).
Qed.

Lemma ICommand_new_swap b sw : swap (ic_stream (ICommand_new be (Some b) sw)) = sw.
Proof.
  unfold ICommand_new. set (st := DataIStream_init _ _).
  pose proof (read_item_swap 8 0 st) as H1. destruct (read_item be 8 0 st) as [size st1].
  pose proof (read_item_swap 4 COMMANDTYPE_INVALID st1) as H2. destruct (read_item be 4 _ st1) as [type st2].
  pose proof (read_item_swap 4 CMD_INVALID st2) as H3. destruct (read_item be 4 _ st2) as [cmd st3]. cbn in *. congruence.
Qed.
End refill.

(** ** Framing *)

Section framing.

Context {HP : Pression} {HL : Lunchbox} (be : bool).
Context {T : Type} `{!Transport T, !TransportView T, !TransportOk T, !TransportReliable T}.
Context {P : Type} `{!BufferPool P} (ready : P -> Prop) `{!BufferPoolOk P ready}.
Context (fuel : nat).

(** The bytes of one command on the wire: as many as its header says, but at least
    [COMMAND_MINSIZE]. *)
Definition frame_ok (sw : bool) (f : bytes) : Prop :=
  size_of f = Z.max COMMAND_MINSIZE (ic_size (ICommand_new be (Some f) sw)).

(** A receiver that waits for the next command, with [rest] still to be read. *)
Record receiving (r : Receiver T P) (rest : bytes) : Prop := {
  rg_buffer : exists b, cn_buffer (rv_connection r) = Some b /\ bf_data b = [] /\ COMMAND_ALLOCSIZE <= bf_maxSize b;
  rg_bytes : cn_bytes (rv_connection r) = COMMAND_MINSIZE;
  rg_connected : getState (cn_transport (rv_connection r)) = STATE_CONNECTED;
  rg_unread : unread (cn_transport (rv_connection r)) = rest;
  rg_small : ready (rv_smallBuffers r);
  rg_big : ready (rv_bigBuffers r);
}.

Lemma addConnection_receiving small big t peer :
  ready small -> ready big -> getState t = STATE_CONNECTED ->
  exists r, _addConnection small big (mkConnection t None 0) peer = Some r /\ receiving r (unread t) /\ rv_peer r = peer.
Proof.
  intros Hs Hb Ht. destruct (pool_alloc_ready COMMAND_ALLOCSIZE small Hs) as (nb & small' & Ea & Hs' & Hnb & Hnm).
  unfold _addConnection. rewrite Ea. cbn. eexists. split; [done|]. split; [|done]. split; cbn; try done.
  - eexists. split; [done|]. cbn. split; [done|lia].
  - by rewrite readNB_state.
  - by rewrite readNB_unread.
Qed.

Lemma split_at {A} (l1 l2 l1' l2' : list A) : l1 ++ l2 = l1' ++ l2' -> (length l1' <= length l1)%nat ->
  l1' = take (length l1') l1 /\ l2' = drop (length l1') l1 ++ l2.
Proof.
  intros E Hl. split.
  - rewrite <-(take_app_le l1 l2) by lia. by rewrite E, take_app_length.
  - rewrite <-(drop_app_le l1 l2) by lia. by rewrite E, drop_app_length.
Qed.

(** Reading the head. *)
Lemma readHead_frame (r : Receiver T P) f rest :
  receiving r (f ++ rest) -> COMMAND_MINSIZE <= size_of f -> (Z.to_nat COMMAND_MINSIZE <= fuel)%nat ->
  exists b t, _readHead fuel (rv_connection r) = Some (HBuffer b, mkConnection t None 0) /\
    bf_data b = take 256 f /\ COMMAND_ALLOCSIZE <= bf_maxSize b /\
    unread t = drop 256 f ++ rest /\ getState t = STATE_CONNECTED.
Proof.
  intros [(b & Hb & Hd & Hm) Hn Hst Hu _ _] Hf Hfuel. unfold COMMAND_MINSIZE in *.
  destruct (recvSync_reads fuel false (rv_connection r) b 256) as (data & t & E & Hsz & Hun & Hst'); try done.
  { rewrite Hu, size_of_app. pose proof (size_of_nonneg rest). lia. }
  rewrite Hu in Hun. unfold size_of in *. apply split_at in Hun as [Hdata Hrest]; [|lia].
  assert (length data = 256%nat) as Hlen by lia. rewrite Hlen in *.
  unfold _readHead. rewrite E. cbn. eexists _, t. split; [done|]. cbn. rewrite Hd. cbn. split_and!; [done|lia|done|done].
Qed.

(** Reading the tail: the command is the one over the whole frame. *)
Lemma readTail_frame sw f rest b big t :
  frame_ok sw f -> bf_data b = take 256 f -> ready big -> unread t = drop 256 f ++ rest -> getState t = STATE_CONNECTED ->
  (Z.to_nat (size_of f) <= fuel)%nat ->
  exists big' t', _readTail be fuel (ICommand_new be (Some (take 256 f)) sw) b big (mkConnection t None 0) =
      Some (TDone true (ICommand_new be (Some f) sw), big', mkConnection t' None 0) /\
    ready big' /\ unread t' = rest /\ getState t' = STATE_CONNECTED.
Proof.
  intros Hf Hd Hready Hu Hst Hfuel. unfold frame_ok, COMMAND_MINSIZE in Hf.
  pose proof (ICommand_new_refill be 256 f sw ltac:(lia)) as Hre. pose proof (ICommand_new_swap be (take 256 f) sw) as Hsw.
  assert (length f = 256%nat -> ICommand_new be (Some (take 256 f)) sw = ICommand_new be (Some f) sw) as Hsame
    by (intros Hlen; by rewrite take_ge by lia).
  assert (ic_size (ICommand_new be (Some (take 256 f)) sw) = ic_size (ICommand_new be (Some f) sw)) as Hsize by (by rewrite <-Hre).
  remember (ICommand_new be (Some (take 256 f)) sw) as c eqn:Hc. remember (ICommand_new be (Some f) sw) as full eqn:Hfull.
  assert (size_of (take 256 f) = 256) as H256 by (unfold size_of in *; rewrite length_take; lia).
  unfold _readTail. rewrite Hd, H256, Hsize. destruct (Z.leb_spec (ic_size full) 256) as [Hle|Hgt].
  { assert (length f = 256%nat) as Hlen by (unfold size_of in Hf; lia).
    exists big, t. rewrite Hu, drop_ge by lia. by rewrite Hsame. }
  set (needed := ic_size full) in *.
  assert (forall b big', bf_data b = take 256 f -> ready big' -> exists big'' t',
    ('(r, c0) ← recvSync fuel true (recvNB b (ic_size c - size_of (bf_data b)) (mkConnection t None 0));
     match r with
     | RecvThrow => Some (TThrow, big', c0)
     | Received ok (Some buffer) => Some (TDone ok (refill (bf_data buffer) c), big', c0)
     | Received ok None => Some (TDone ok c, big', c0)
     end) = Some (TDone true full, big'', mkConnection t' None 0) /\
    ready big'' /\ unread t' = rest /\ getState t' = STATE_CONNECTED) as Hread.
  { intros b' big' Hd' Hr'. rewrite Hd', H256, Hsize. fold needed.
    destruct (recvSync_reads fuel true (recvNB b' (needed - 256) (mkConnection t None 0))
      (reserve (size_of (bf_data b') + (needed - 256)) b') (needed - 256)) as (data & t' & E & Hsz & Hun & Hst'); try done.
    - cbn. by rewrite readNB_state.
    - cbn. rewrite readNB_unread, Hu, size_of_app. pose proof (size_of_nonneg rest). unfold size_of in *. rewrite length_drop. lia.
    - lia.
    - cbn in Hun. rewrite readNB_unread, Hu in Hun.
      apply split_at in Hun as [Hdata Hrest]; [|unfold size_of in *; rewrite length_drop; lia].
      assert (length data = length (drop 256 f)) as Hlen by (rewrite length_drop; unfold size_of in *; lia).
      rewrite Hlen, take_ge in Hdata by lia. rewrite Hlen, drop_ge in Hrest by lia.
      rewrite E. cbn -[refill]. rewrite Hd', Hdata, take_drop, Hre. eexists _, _. split; [done|]. split_and!; [done|done|done]. }
  destruct (needed >? bf_maxSize b) eqn:Emax; cbn -[ICommand_new].
  - destruct (pool_alloc_ready needed big Hready) as (nb & big' & -> & Hr' & _ & _). cbn -[ICommand_new].
    rewrite Hsw, <-Hc. by apply (Hread (replace_data (take 256 f) nb) big').
  - by apply Hread.
Qed.

Lemma handleData_frame big f rest (r : Receiver T P) :
  receiving r (f ++ rest) -> rv_peer r = Some big -> frame_ok (xorb be big) f -> (Z.to_nat (size_of f) <= fuel)%nat ->
  exists r', _handleData be fuel r = Some (HCommand (ICommand_new be (Some f) (xorb be big)), r') /\
    receiving r' rest /\ rv_peer r' = Some big.
Proof.
  intros Hr Hp Hf Hfuel. assert (COMMAND_MINSIZE <= size_of f) as Hmin by (unfold frame_ok in Hf; lia).
  destruct (readHead_frame r f rest Hr Hmin) as (b & t & Eh & Hd & Hm & Hu & Hst); [lia|].
  destruct (readTail_frame (xorb be big) f rest b (pool_compact (rv_bigBuffers r)) t) as (big' & t' & Et & Hb' & Hu' & Hst'); try done.
  { apply pool_compact_ready, Hr. }
  destruct (pool_alloc_ready COMMAND_ALLOCSIZE (pool_compact (rv_smallBuffers r))) as (nb & small' & Ea & Hs' & Hnb & Hnm).
  { apply pool_compact_ready, Hr. }
  unfold _handleData. rewrite Eh. cbn. rewrite Hp. unfold _setupCommand. rewrite Hd, Et. cbn. rewrite Ea. cbn.
  eexists. split; [done|]. split; [|done]. split; cbn; try done.
  - eexists. split; [done|]. cbn. split; [done|lia].
  - by rewrite readNB_state.
  - by rewrite readNB_unread.
Qed.

(** C11: Commands are framed exactly.  Whatever sizes the transport reads at a time,
    and whether a command fits the small buffers or not, the receiver thread turns
    a stream of commands into exactly these commands, in order, each with its
    whole buffer, and is then ready for what follows. *)
Theorem commands_framed big frames rest (r : Receiver T P) :
  receiving r (concat frames ++ rest) -> rv_peer r = Some big -> Forall (frame_ok (xorb be big)) frames ->
  Forall (fun f => (Z.to_nat (size_of f) <= fuel)%nat) frames ->
  exists r', handle_events be fuel (length frames) r =
      Some ((fun f => HCommand (ICommand_new be (Some f) (xorb be big))) <$> frames, r') /\
    receiving r' rest /\ rv_peer r' = Some big.
Proof.
  revert r. induction frames as [|f frames IH]; intros r Hr Hp Hok Hfuel; [by exists r|].
  apply Forall_cons in Hok as [Hf Hok]. apply Forall_cons in Hfuel as [Hff Hfuel].
  cbn [concat] in Hr. rewrite <-app_assoc in Hr.
  destruct (handleData_frame big f (concat frames ++ rest) r) as (r1 & E1 & Hr1 & Hp1); try done.
  destruct (IH r1) as (r2 & E2 & Hr2 & Hp2); try done.
  exists r2. cbn. rewrite E1. cbn. rewrite E2. done.
Qed.

(** An interrupted read loses the rest of the stream.  If the first read of the
    tail of a command returns no bytes, which a system call interrupted by a signal
    does, [recvSync] gives up; the command is dropped, and the receiver thread
    takes what is left of it for the next command. *)
Theorem interrupted_tail_desyncs big f rest (r : Receiver T P) b t t' :
  receiving r (f ++ rest) -> rv_peer r = Some big -> frame_ok (xorb be big) f -> COMMAND_MINSIZE < size_of f ->
  let needed := size_of f - COMMAND_MINSIZE in
  recvSync fuel false (rv_connection r) = Some (Received true (Some b), mkConnection t None 0) ->
  bf_data b = take 256 f -> unread t = drop 256 f ++ rest -> getState t = STATE_CONNECTED ->
  readSync needed true (readNB needed t) = (RData [], t') ->
  exists r' c, _handleData be fuel r = Some (HIncomplete c, r') /\ receiving r' (drop 256 f ++ rest) /\ rv_peer r' = Some big.
Proof.
  intros Hr Hp Hf Hlong needed Hhead Hd Hu Hst Hread.
  assert (needed <> 0) as Hnz by lia. set (sw := xorb be big) in *.
  assert (size_of (take 256 f) = 256) as H256 by (unfold size_of, COMMAND_MINSIZE in *; rewrite length_take; lia).
  assert (ic_size (ICommand_new be (Some (take 256 f)) sw) = size_of f) as Hsize.
  { pose proof (ICommand_new_refill be 256 f sw ltac:(lia)) as Hre. unfold frame_ok in Hf. rewrite <-Hre in Hf.
    cbn [refill ic_size] in Hf. lia. }
  assert (forall b', recvSync fuel true (recvNB b' needed (mkConnection t None 0)) =
    Some (Received false (Some (reserve (size_of (bf_data b') + needed) b')), mkConnection t' None 0)) as Hzero.
  { intros b'. unfold recvSync. cbn [recvNB cn_buffer cn_transport cn_bytes].
    rewrite readNB_state, Hst, bool_decide_eq_true_2, (proj2 (Z.eqb_neq needed 0)) by done. cbn [negb orb].
    rewrite Hread. destruct fuel; cbn [recv_loop mbind option_bind]; change (size_of []) with 0; by rewrite Z.sub_0_r, !Z.eqb_refl. }
  assert (unread t' = drop 256 f ++ rest /\ getState t' = STATE_CONNECTED) as [Hu' Hst'].
  { rewrite (readSync_state _ _ _ _ _ Hread), readNB_state. apply readSync_unread in Hread as [Hun _].
    rewrite readNB_unread, Hu in Hun. done. }
  assert (exists c big', ready big' /\
    _readTail be fuel (ICommand_new be (Some (take 256 f)) sw) b (pool_compact (rv_bigBuffers r)) (mkConnection t None 0) =
      Some (TDone false c, big', mkConnection t' None 0)) as (c & big' & Hready & Htail).
  { unfold _readTail. rewrite Hd, H256, Hsize.
    rewrite (proj2 (Z.leb_gt (size_of f) 256)) by (unfold COMMAND_MINSIZE in *; lia).
    pose proof (pool_compact_ready _ (rg_big _ _ Hr)) as Hbig.
    change 256 with COMMAND_MINSIZE in Hsize, H256 |- *. destruct (_ >? _).
    - destruct (pool_alloc_ready (size_of f) _ Hbig) as (nb & big' & -> & Hr' & _ & _). cbn -[ICommand_new recvNB].
      rewrite ICommand_new_swap, Hsize, H256. fold needed. rewrite Hzero. cbn -[ICommand_new]. eauto.
    - cbn -[ICommand_new recvNB]. rewrite Hd, Hsize, H256. fold needed. rewrite Hzero. cbn -[ICommand_new]. eauto. }
  destruct (pool_alloc_ready COMMAND_ALLOCSIZE (pool_compact (rv_smallBuffers r))) as (nb & small' & Ea & Hs' & Hnb & Hnm).
  { apply pool_compact_ready, Hr. }
  unfold _handleData, _readHead. rewrite Hhead. cbn -[ICommand_new]. rewrite Hp, Hd. unfold _setupCommand. fold sw.
  rewrite Htail. cbn -[ICommand_new]. rewrite Ea. cbn. eexists _, c. split; [done|]. split; [|done]. split; cbn; try done.
  - eexists. split; [done|]. cbn. split; [done|lia].
  - by rewrite readNB_state.
  - by rewrite readNB_unread.
Qed.

End framing.

(** The bytes of a command are a frame. *)
Lemma OCommand_frame {HP : Pression} {HL : Lunchbox} {HLok : LunchboxOk} be threshold obs padding name conns cmd type args :
  (forall n, length (padding n) = n) -> conns <> [] -> 0 <= cmd < CMD_INVALID -> 0 <= type < COMMANDTYPE_INVALID ->
  16 + size_of (concat args) <= obs -> is_u64 (16 + size_of (concat args)) ->
  frame_ok be false (oc_wire (OCommand_send be threshold obs padding name false conns cmd type args)).
Proof.
  intros Hpad Hc Hcmd Hty Ho H64. unfold frame_ok, CMD_INVALID, COMMANDTYPE_INVALID in *.
  rewrite (OCommand_send_wire be threshold obs padding name conns cmd type args Hc Ho).
  set (size := 16 + size_of (concat args)) in *. set (body := rheader be size type cmd ++ concat args).
  assert (size_of body = size) as Hs by (unfold body; rewrite size_of_app, rheader_size; lia).
  rewrite (ICommand_new_spec be _ body type cmd (concat args)).
  - cbn. rewrite size_of_app, Hs. unfold size_of at 1. rewrite Hpad. lia.
  - by apply buffer_of_patched.
  - by rewrite Hs.
  - unfold wf_uint. lia.
  - unfold wf_uint. lia.
Qed.

(** ** The buffer caches as pools *)

Section pool.

Context (newPtr : list Z -> Z) (newPtr_fresh : forall l, newPtr l ∉ l).

Definition buffer_at (ptr : Z) (cache : list Buffer) : option Buffer := head (filter (fun b => bf_ptr b = ptr) cache).

Definition cache_Pool : BufferPool CacheSystem := {|
  pool_alloc size s :=
    '(ptr, c) ← alloc newPtr size (cs_cache s);
    b ← buffer_at ptr (bc_cache c);
    Some (b, mkCacheSystem c (<[ptr := []]> (cs_held s)) (cs_freeing s));
  pool_compact s := mkCacheSystem (compact (cs_cache s)) (cs_held s) (cs_freeing s);
|}.

Definition pool_ready (s : CacheSystem) : Prop := buffers_ok s /\ cs_freeing s = ∅.

Lemma updated_buffer ptr f l b : (forall b, bf_ptr (f b) = bf_ptr b) -> b ∈ update_buffer ptr f l -> bf_ptr b = ptr ->
  exists b0, b = f b0.
Proof.
  intros Hf (b0 & -> & Hb)%list_elem_of_fmap. destruct (Z.eqb_spec (bf_ptr b0) ptr); [by eexists|]. by intros.
Qed.

Lemma cache_PoolOk : BufferPoolOk CacheSystem (H := cache_Pool) pool_ready.
Proof.
  split.
  - intros size [c held fr] [Hok Hfr]. cbn in Hfr. subst fr.
    destruct (alloc_total newPtr c size held Hok) as [[ptr c'] Ha].
    destruct (alloc_ok newPtr newPtr_fresh _ _ _ _ _ _ Hok Ha) as (_ & _ & Hok').
    cbn. rewrite Ha. cbn. destruct (bo_held _ Hok' ptr []) as (b & Hb & Hbp & _); [apply lookup_insert_eq|]. cbn in Hb.
    destruct (buffer_at ptr (bc_cache c')) as [b'|] eqn:Eb.
    + cbn. eexists _, _. split; [done|]. split; [done|].
      assert (b' ∈ filter (fun b => bf_ptr b = ptr) (bc_cache c')) as Hb' by (by apply head_Some_elem_of).
      apply list_elem_of_filter in Hb' as [Hp' Hb'].
      unfold alloc in Ha. destruct (newBuffer newPtr c) as [[p1 c1]|]; [|done]. injection Ha as -> <-. cbn in Hb'.
      apply updated_buffer in Hb' as (b0 & ->); [|done|done]. cbn. split; [done|lia].
    + exfalso. apply head_None in Eb. apply (elem_of_nil b). rewrite <-Eb. by apply list_elem_of_filter.
  - intros s [Hok Hfr]. split; [|done]. apply compact_ok. by destruct s.
Qed.

End pool.

(** ** Samples *)

Definition sample_padding (n : nat) : bytes := replicate n 170.

(** Two commands, the second of which does not fit the first read. *)
Definition sample_frames : list bytes := Eval vm_compute in
  [oc_wire (OCommand_send (H := store_Pression) false 0 60000 sample_padding 0 false [1] 39 COMMANDTYPE_NODE [[1; 2]]);
   oc_wire (OCommand_send (H := store_Pression) false 0 60000 sample_padding 0 false [1] 10 COMMANDTYPE_NODE [replicate 300 7])].

Lemma sample_frames_ok : Forall (frame_ok (HP := store_Pression) (HL := native_Lunchbox) false false) sample_frames.
Proof.
  apply Forall_cons; split; [|apply Forall_cons; split; [|by apply Forall_nil]]; vm_compute; reflexivity.
Qed.

Definition sample_pool : CacheSystem := mkCacheSystem (BufferCache_init sample_newPtr 2) ∅ ∅.

Lemma sample_pool_ready : pool_ready sample_pool.
Proof. split; [|done]. apply (buffers_start_ok sample_newPtr sample_newPtr_fresh 2). lia. Qed.

Definition sample_transport (reads : list nat) (frames : list bytes) : Script :=
  mkScript STATE_CONNECTED (concat frames ++ [5]) [] reads [].

Lemma sample_unread reads frames : unread (sample_transport reads frames) = concat frames ++ [5].
Proof. done. Qed.

Definition sample_receiver (zero : bool) (reads : list nat) (frames : list bytes) : option (Receiver Script CacheSystem) :=
  _addConnection (Transport0 := Script_Transport_ zero) (BufferPool0 := cache_Pool sample_newPtr)
    sample_pool sample_pool (mkConnection (sample_transport reads frames) None 0) (Some false).

Lemma commands_framed_witness :
  exists r r', sample_receiver false [3; 100; 700; 2; 11; 200]%nat sample_frames = Some r /\
    handle_events (HP := store_Pression) (HL := native_Lunchbox) (Transport0 := Script_Transport_ false)
      (BufferPool0 := cache_Pool sample_newPtr) false 400 2 r =
      Some ((fun f => HCommand (ICommand_new (H := store_Pression) (H0 := native_Lunchbox) false (Some f) false)) <$> sample_frames, r').
Proof.
  destruct (addConnection_receiving (Transport0 := Script_Transport_ false) (TransportOk0 := Script_Ok false)
    (BufferPool0 := cache_Pool sample_newPtr) pool_ready (BufferPoolOk0 := cache_PoolOk sample_newPtr sample_newPtr_fresh)
    sample_pool sample_pool (sample_transport [3; 100; 700; 2; 11; 200]%nat sample_frames) (Some false)
    sample_pool_ready sample_pool_ready eq_refl) as (r & Hr & Hrec & Hp).
  rewrite sample_unread in Hrec.
  destruct (commands_framed (HP := store_Pression) (HL := native_Lunchbox) false (TransportOk0 := Script_Ok false)
    (TransportReliable0 := Script_Reliable) pool_ready
    (BufferPoolOk0 := cache_PoolOk sample_newPtr sample_newPtr_fresh) 400 false sample_frames [5] r) as (r' & E & _).
  - exact Hrec.
  - exact Hp.
  - exact sample_frames_ok.
  - vm_compute. repeat constructor; lia.
  - exists r, r'. split; [exact Hr|exact E].
Defined.

(** The second command alone, its second read interrupted. *)
Definition sample_long : bytes := Eval vm_compute in nth 1 sample_frames [].

Lemma sample_start zero reads frames r :
  sample_receiver zero reads frames = Some r -> cn_transport (rv_connection r) = sample_transport reads frames.
Proof. unfold sample_receiver, _addConnection. destruct (pool_alloc _ _) as [[b p]|]; [|done]. cbn. by intros [= <-]. Qed.

Definition sample_after (reads : list nat) : Script := mkScript STATE_CONNECTED (drop 256 sample_long ++ [5]) [] reads [].

Lemma sample_head (r : Receiver Script CacheSystem) b :
  cn_buffer (rv_connection r) = Some b -> cn_bytes (rv_connection r) = COMMAND_MINSIZE ->
  cn_transport (rv_connection r) = sample_transport [256; 0]%nat [sample_long] ->
  recvSync (Transport0 := Script_Transport_ true) 400 false (rv_connection r) =
    Some (Received true (Some (append_data (take 256 sample_long) b)), mkConnection (sample_after [0]%nat) None 0).
Proof. intros Hb Hn Ht. unfold recvSync. rewrite Hb, Hn, Ht. vm_compute. reflexivity. Qed.

Lemma sample_interrupted :
  frame_ok (HP := store_Pression) (HL := native_Lunchbox) false false sample_long /\ COMMAND_MINSIZE < size_of sample_long /\
  readSync (Transport := Script_Transport_ true) (size_of sample_long - COMMAND_MINSIZE) true (sample_after [0]%nat) =
    (RData [], sample_after []).
Proof. vm_compute. done. Qed.

Lemma interrupted_tail_desyncs_witness :
  exists r r' c, sample_receiver true [256; 0]%nat [sample_long] = Some r /\
    _handleData (HP := store_Pression) (HL := native_Lunchbox) (Transport0 := Script_Transport_ true)
      (BufferPool0 := cache_Pool sample_newPtr) false 400 r = Some (HIncomplete c, r') /\
    unread (cn_transport (rv_connection r')) = drop 256 sample_long ++ [5].
Proof.
  destruct (addConnection_receiving (Transport0 := Script_Transport_ true) (TransportOk0 := Script_Ok true)
    (BufferPool0 := cache_Pool sample_newPtr) pool_ready (BufferPoolOk0 := cache_PoolOk sample_newPtr sample_newPtr_fresh)
    sample_pool sample_pool (sample_transport [256; 0]%nat [sample_long]) (Some false)
    sample_pool_ready sample_pool_ready eq_refl) as (r & Hr & Hrec & Hp).
  rewrite sample_unread in Hrec.
  cbn [concat] in Hrec. rewrite app_nil_r in Hrec. pose proof Hrec as [(b & Hb & Hd & _) Hn Hst Hu _ _].
  destruct sample_interrupted as (Hf & Hlong & Hread).
  destruct (interrupted_tail_desyncs (HP := store_Pression) (HL := native_Lunchbox) false (TransportOk0 := Script_Ok true)
    pool_ready (BufferPoolOk0 := cache_PoolOk sample_newPtr sample_newPtr_fresh) 400 false sample_long [5] r
    (append_data (take 256 sample_long) b) (sample_after [0]%nat) (sample_after [])) as (r' & c & E & Hrec' & _).
  - exact Hrec.
  - exact Hp.
  - exact Hf.
  - exact Hlong.
  - apply sample_head; [exact Hb|exact Hn|exact (sample_start _ _ _ _ Hr)].
  - cbn. rewrite Hd. reflexivity.
  - reflexivity.
  - reflexivity.
  - exact Hread.
  - exists r, r', c. split; [exact Hr|]. split; [exact E|]. apply Hrec'.
Defined.
