(* ===== verification/Dispatch.v ===== *)
(** * Dispatching commands (co/dispatcher.cpp, commandQueue.cpp, worker.ipp, localNode.cpp)

    A dispatcher is a table of handlers and of queues to other threads.  The
    receiver thread of a node dispatches each command it reads; a command for an
    object that is not attached yet is kept in a list and tried again after every
    command that was dispatched. *)

From S2P Require Import Prelude Bytes Lunchbox DataOStream DataIStream Serialize Transfer Commands ObjectStreams InstanceCache Connections ObjectCM ObjectStore StoreTable.

(** ** Dispatcher *)

Section dispatcher.

Context {Func Queue : Type} (_cmdUnknown : Func).

Record Dispatcher := mkDispatcher { fTable : list Func; qTable : list (option Queue) }.

Definition Dispatcher_init : Dispatcher := mkDispatcher [] [].

(** [n] entries of the table without a handler *)
Definition pad_tables (n : nat) (d : Dispatcher) : Dispatcher :=
  mkDispatcher (fTable d ++ replicate n _cmdUnknown) (qTable d ++ replicate n None).

Definition _registerCommand (command : nat) (func : Func) (destinationQueue : option Queue) (d : Dispatcher) : Dispatcher :=
  if (length (fTable d) <=? command)%nat then
    let d := pad_tables (command - length (fTable d)) d in
    mkDispatcher (fTable d ++ [func]) (qTable d ++ [destinationQueue])
  else mkDispatcher (<[command := func]> (fTable d)) (<[command := destinationQueue]> (qTable d)).

(** What dispatching does with a command: it is pushed to a queue with its handler,
    or the handler is called; [None] if the table has no entry for it. *)
Inductive Dispatched := DQueued (queue : Queue) (func : Func) | DCalled (func : Func).

Definition Dispatcher_dispatch (which : nat) (d : Dispatcher) : option Dispatched :=
  queue ← qTable d !! which;
  func ← fTable d !! which;
  Some (match queue with Some q => DQueued q func | None => DCalled func end).

Definition register_all (regs : list (nat * (Func * option Queue))) : Dispatcher :=
  foldl (fun d r => _registerCommand r.1 r.2.1 r.2.2 d) Dispatcher_init regs.

(** ** The table as a map *)

Definition dispatched_of (e : Func * option Queue) : Dispatched :=
  match e.2 with Some q => DQueued q e.1 | None => DCalled e.1 end.

Definition registered (regs : list (nat * (Func * option Queue))) : gmap nat (Func * option Queue) :=
  foldl (fun m r => <[r.1 := r.2]> m) ∅ regs.

Definition dispatch_spec (regs : list (nat * (Func * option Queue))) (which : nat) : option Dispatched :=
  match registered regs !! which with
  | Some e => Some (dispatched_of e)
  | None => if bool_decide (Exists (fun r => (which < r.1)%nat) regs) then Some (DCalled _cmdUnknown) else None
  end.

Lemma registered_Some regs which : is_Some (registered regs !! which) <-> which ∈ regs.*1.
Proof.
  unfold registered. induction regs as [|[c e] regs IH] using rev_ind.
  { cbn. rewrite lookup_empty. split; [by intros [? ?]|by intros ?%elem_of_nil]. }
  rewrite foldl_app, fmap_app. cbn. rewrite elem_of_app, list_elem_of_singleton, <-IH.
  destruct (decide (c = which)) as [->|Hne]; [rewrite lookup_insert_eq; naive_solver|].
  rewrite lookup_insert_ne by done. naive_solver.
Qed.

Lemma registered_below regs which e :
  registered regs !! which = Some e -> Exists (fun r => (which <= r.1)%nat) regs.
Proof.
  intros He. assert (which ∈ regs.*1) as (r & -> & Hr)%list_elem_of_fmap by (apply registered_Some; eauto).
  apply Exists_exists. exists r. split; [done|lia].
Qed.

Lemma register_all_spec regs :
  length (fTable (register_all regs)) = length (qTable (register_all regs)) /\
  (forall which, (which < length (fTable (register_all regs)))%nat <-> Exists (fun r => (which <= r.1)%nat) regs) /\
  (forall which, (which < length (fTable (register_all regs)))%nat ->
     Dispatcher_dispatch which (register_all regs) =
       Some (default (DCalled _cmdUnknown) (dispatched_of <$> registered regs !! which))).
Proof.
  induction regs as [|[cmd [f q]] regs (Hl & Hr & Hd)] using rev_ind; unfold register_all, registered; rewrite ?foldl_app.
  { split; [done|]. split; [|intros which Hw; cbn in Hw; lia]. intros which. cbn. split; [lia|]. intros Hx. inversion Hx. }
  fold (register_all regs) (registered regs). cbn [foldl fst snd]. set (d := register_all regs) in *.
  assert (forall which, Exists (fun r => (which <= r.1)%nat) (regs ++ [(cmd, (f, q))]) <->
            (which < length (fTable d))%nat \/ (which <= cmd)%nat) as He.
  { intros which. rewrite Exists_app, <-Hr, Exists_cons, Exists_nil. cbn. tauto. }
  unfold _registerCommand. destruct (Nat.leb_spec (length (fTable d)) cmd) as [Hle|Hlt]; cbn [fTable qTable pad_tables].
  - rewrite !length_app, !length_replicate. cbn [length]. split; [lia|]. split.
    + intros which. rewrite He. lia.
    + intros which Hw. unfold Dispatcher_dispatch. cbn [fTable qTable].
      destruct (decide (which < length (fTable d))%nat) as [Hin|Hout].
      * rewrite <-!app_assoc, !lookup_app_l by lia. rewrite lookup_insert_ne by lia. by apply Hd.
      * assert (registered regs !! which = None) as Hnone.
        { destruct (registered regs !! which) eqn:E; [|done]. exfalso. by eapply Hout, Hr, registered_below. }
        destruct (decide (which = cmd)) as [->|Hne].
        -- rewrite lookup_insert_eq. cbn. rewrite !list_lookup_middle by (rewrite length_app, length_replicate; lia).
           cbn. by destruct q.
        -- rewrite lookup_insert_ne by done. rewrite Hnone. cbn.
           rewrite !(lookup_app_l (_ ++ _)) by (rewrite length_app, length_replicate; lia).
           rewrite !lookup_app_r, !lookup_replicate_2 by lia. done.
  - rewrite !length_insert. split; [done|]. split.
    + intros which. rewrite He. lia.
    + intros which Hw. unfold Dispatcher_dispatch. cbn [fTable qTable]. destruct (decide (which = cmd)) as [->|Hne].
      * rewrite !list_lookup_insert_eq, lookup_insert_eq by lia. cbn. by destruct q.
      * rewrite !list_lookup_insert_ne, lookup_insert_ne by done. by apply Hd.
Qed.

(** C24: The command tables are a finite map.  After any registrations, dispatching a
    command finds the handler and queue registered last for its number; numbers
    below a registered one that have no handler lead to [_cmdUnknown], and higher
    ones are outside the tables. *)
Theorem dispatcher_is_map regs which :
  Dispatcher_dispatch which (register_all regs) = dispatch_spec regs which.
Proof.
  destruct (register_all_spec regs) as (Hl & Hr & Hd). unfold dispatch_spec.
  destruct (decide (which < length (fTable (register_all regs)))%nat) as [Hin|Hout].
  - rewrite Hd by done. destruct (registered regs !! which) as [e|] eqn:E; [done|]. cbn.
    rewrite bool_decide_eq_true_2; [done|]. apply Hr, Exists_exists in Hin as (r & Hrin & Hle).
    apply Exists_exists. exists r. split; [done|]. destruct (decide (which = r.1)) as [->|]; [|lia]. exfalso.
    apply eq_None_not_Some in E. by apply E, registered_Some, list_elem_of_fmap_2.
  - assert (Dispatcher_dispatch which (register_all regs) = None) as ->.
    { unfold Dispatcher_dispatch. by rewrite (lookup_ge_None_2 (qTable _)) by lia. }
    destruct (registered regs !! which) as [e|] eqn:E.
    + exfalso. by eapply Hout, Hr, registered_below.
    + rewrite bool_decide_eq_false_2; [done|]. intros Hx. apply Hout, Hr. eapply Exists_impl; [exact Hx|]. cbn. lia.
Qed.

End dispatcher.

(** ** Pending commands *)

Section pending.

Context {St C : Type} (dispatchCommand : C -> St -> bool * St).

(** One pass of [_redispatchCommands] over the pending commands: the first one that
    is dispatched is removed. *)
Fixpoint redispatch_one (before pending : list C) (s : St) : option (C * list C) * St :=
  match pending with
  | [] => (None, s)
  | command :: pending =>
      let '(ok, s) := dispatchCommand command s in
      if ok then (Some (command, before ++ pending), s) else redispatch_one (before ++ [command]) pending s
  end.

(** [_redispatchCommands]: the commands dispatched, those still pending. *)
Fixpoint redispatch_loop (fuel : nat) (pending : list C) (s : St) : list C * list C * St :=
  match fuel, pending with
  | S fuel, _ :: _ =>
      match redispatch_one [] pending s with
      | (None, s) => ([], pending, s)
      | (Some (command, pending), s) =>
          let '(dispatched, pending, s) := redispatch_loop fuel pending s in (command :: dispatched, pending, s)
      end
  | _, _ => ([], pending, s)
  end.

Definition _redispatchCommands (pending : list C) (s : St) : list C * list C * St :=
  redispatch_loop (length pending) pending s.

Definition _dispatchCommand (command : C) (pending : list C) (s : St) : list C * list C * St :=
  let '(ok, s) := dispatchCommand command s in
  let '(dispatched, pending, s) := _redispatchCommands pending s in
  if ok then (command :: dispatched, pending, s) else (dispatched, pending ++ [command], s).

(** The receiver thread: commands arrive, [flushCommands] interrupts it, and other
    threads change the state. *)
Context (env : St -> St -> Prop).

Record ReceiverState := mkReceiverState {
  rs_state : St;
  rs_pending : list C;
  rs_arrived : list C;
  rs_dispatched : list C
}.

Inductive receiver_step : ReceiverState -> ReceiverState -> Prop :=
| step_arrive s pending arrived log command d p s' :
    _dispatchCommand command pending s = (d, p, s') ->
    receiver_step (mkReceiverState s pending arrived log) (mkReceiverState s' p (arrived ++ [command]) (log ++ d))
| step_interrupt s pending arrived log d p s' :
    _redispatchCommands pending s = (d, p, s') ->
    receiver_step (mkReceiverState s pending arrived log) (mkReceiverState s' p arrived (log ++ d))
| step_other s pending arrived log s' :
    env s s' -> receiver_step (mkReceiverState s pending arrived log) (mkReceiverState s' pending arrived log).

Inductive receiver_reachable (s0 : St) : ReceiverState -> Prop :=
| receiver_start : receiver_reachable s0 (mkReceiverState s0 [] [] [])
| receiver_next r r' : receiver_reachable s0 r -> receiver_step r r' -> receiver_reachable s0 r'.

(** Whether a command is accepted depends on its address only; a command that is
    refused changes nothing; and other threads do not make an address known. *)
Context {K : Type} `{EqDecision K} (key : C -> K) (accepts : St -> K -> bool).
Context (dispatch_accepts : forall c s, (dispatchCommand c s).1 = accepts s (key c)).
Context (dispatch_refused : forall c s, accepts s (key c) = false -> (dispatchCommand c s).2 = s).
Context (env_disables : forall s s' k, env s s' -> accepts s' k = true -> accepts s k = true).

Definition refused (s : St) (c : C) : Prop := accepts s (key c) = false.

Definition of_key (k : K) (l : list C) : list C := filter (fun c => key c = k) l.

Lemma of_key_app k l l' : of_key k (l ++ l') = of_key k l ++ of_key k l'.
Proof. apply filter_app. Qed.

Lemma of_key_cons k c l : of_key k (c :: l) = of_key k [c] ++ of_key k l.
Proof. apply (of_key_app k [c] l). Qed.

Lemma redispatch_one_spec before pending s r s' :
  redispatch_one before pending s = (r, s') ->
  match r with
  | None => s' = s /\ Forall (refused s) pending
  | Some (c, rest) => exists l1 l2, pending = l1 ++ c :: l2 /\ rest = before ++ l1 ++ l2 /\ Forall (refused s) l1 /\
      accepts s (key c) = true
  end.
Proof.
  revert before. induction pending as [|c pending IH]; intros before; cbn [redispatch_one]; [by intros [= <- <-]|].
  pose proof (dispatch_accepts c s) as Ha. pose proof (dispatch_refused c s) as Hr.
  destruct (dispatchCommand c s) as [[] s1]; cbn in *.
  - intros [= <- <-]. exists [], pending. by split_and!.
  - rewrite (Hr (eq_sym Ha)). intros E. specialize (IH _ E). destruct r as [[c' rest]|].
    + destruct IH as (l1 & l2 & -> & -> & Hf & Hc). exists (c :: l1), l2. rewrite <-app_assoc.
      split_and!; [done|done|by constructor|done].
    + destruct IH as [-> Hf]. split; [done|by constructor].
Qed.

(** The first pending command that is accepted is the first of its address. *)
Lemma of_key_first k s l1 c l2 : Forall (refused s) l1 -> accepts s (key c) = true ->
  of_key k (l1 ++ c :: l2) = of_key k [c] ++ of_key k (l1 ++ l2).
Proof.
  intros Hf Hc. rewrite !of_key_app. rewrite (of_key_cons k c l2), !app_assoc. f_equal.
  unfold of_key. rewrite filter_cons. case_decide as Hk; [|by rewrite app_nil_r].
  rewrite (filter_none _ l1); [done|]. eapply Forall_impl; [exact Hf|]. intros x Hx He. unfold refused in Hx. congruence.
Qed.

Lemma redispatch_loop_spec fuel pending s d p s' :
  (length pending <= fuel)%nat -> redispatch_loop fuel pending s = (d, p, s') ->
  (forall k, of_key k d ++ of_key k p = of_key k pending) /\ Forall (refused s') p.
Proof.
  revert pending s d. induction fuel as [|fuel IH]; intros pending s d Hf; cbn [redispatch_loop].
  { destruct pending; [|cbn in Hf; lia]. by intros [= <- <- <-]. }
  destruct pending as [|c0 pending]; [by intros [= <- <- <-]|].
  destruct (redispatch_one [] (c0 :: pending) s) as [[[c rest]|] s1] eqn:E1; apply redispatch_one_spec in E1.
  - destruct E1 as (l1 & l2 & El & -> & Hl1 & Hc). cbn [app].
    destruct (redispatch_loop fuel (l1 ++ l2) s1) as [[d1 p1] s2] eqn:E2. intros [= <- <- <-].
    destruct (IH (l1 ++ l2) s1 d1) as [Hk Hp]; [|done|].
    + apply (f_equal length) in El. rewrite length_app in *. cbn in *. lia.
    + split; [|done]. intros k. rewrite El, (of_key_first k s l1 c l2), <-Hk by done.
      by rewrite (of_key_cons k c d1), <-app_assoc.
  - destruct E1 as [-> Hr]. by intros [= <- <- <-].
Qed.

(** Everything pending is refused, and per address the commands dispatched and those
    pending are the commands that arrived, in order. *)
Record in_order (r : ReceiverState) : Prop := {
  io_refused : Forall (refused (rs_state r)) (rs_pending r);
  io_order : forall k, of_key k (rs_dispatched r) ++ of_key k (rs_pending r) = of_key k (rs_arrived r);
}.

(** Nothing changes while everything is refused. *)
Lemma redispatch_settled pending s : Forall (refused s) pending -> _redispatchCommands pending s = ([], pending, s).
Proof.
  intros Hf. unfold _redispatchCommands. destruct pending as [|c pending]; [done|]. cbn [length redispatch_loop].
  destruct (redispatch_one [] (c :: pending) s) as [[[c' rest]|] s1] eqn:E1; apply redispatch_one_spec in E1.
  - destruct E1 as (l1 & l2 & El & _ & _ & Hc). rewrite El in Hf. apply Forall_app in Hf as [_ Hf].
    apply Forall_cons in Hf as [Hx _]. unfold refused in Hx. congruence.
  - by destruct E1 as [-> _].
Qed.

Lemma of_key_refused k s l : Forall (refused s) l -> accepts s k = true -> of_key k l = [].
Proof.
  intros Hf Hk. apply filter_none. eapply Forall_impl; [exact Hf|]. intros x Hx He. unfold refused in Hx. congruence.
Qed.

Lemma receiver_step_order r r' : in_order r -> receiver_step r r' -> in_order r'.
Proof.
  intros [Hr Ho] Hst. destruct Hst as [s p a log c d p' s' E|s p a log d p' s' E|s p a log s' Henv];
    cbn [rs_state rs_dispatched rs_pending rs_arrived] in *.
  - unfold _dispatchCommand in E. pose proof (dispatch_accepts c s) as Hc. pose proof (dispatch_refused c s) as Hcr.
    destruct (dispatchCommand c s) as [[] s1]; cbn in *.
    + destruct (_redispatchCommands p s1) as [[d1 p1] s2] eqn:E1. injection E as <- <- <-.
      destruct (redispatch_loop_spec (length p) p s1 d1 p1 s2) as [Hk Hp]; [done|done|]. split; [done|]. cbn [rs_dispatched rs_pending rs_arrived].
      intros k. rewrite !of_key_app, <-Ho, (of_key_cons k c d1), <-!app_assoc, Hk. f_equal.
      destruct (decide (key c = k)) as [<-|Hne].
      * by rewrite (of_key_refused (key c) s p), app_nil_r by done.
      * unfold of_key at 1 4. rewrite !filter_cons_False by done. by rewrite app_nil_r.
    + rewrite (Hcr (eq_sym Hc)) in *. rewrite redispatch_settled in E by done. injection E as <- <- <-. rewrite app_nil_r.
      split; cbn [rs_state rs_dispatched rs_pending rs_arrived]; [apply Forall_app; split; [done|by constructor]|]. intros k. by rewrite !of_key_app, app_assoc, Ho.
  - destruct (redispatch_loop_spec (length p) p s d p' s') as [Hk Hp]; [done|done|]. split; [done|]. cbn [rs_dispatched rs_pending rs_arrived].
    intros k. by rewrite of_key_app, <-app_assoc, Hk.
  - split; cbn; [|done]. eapply Forall_impl; [exact Hr|]. intros c Hc. unfold refused in *.
    destruct (accepts s' (key c)) eqn:Ea; [|done]. by rewrite (env_disables _ _ _ Henv Ea) in Hc.
Qed.

Lemma receiver_reachable_order s0 r : receiver_reachable s0 r -> in_order r.
Proof. induction 1 as [|r r' _ IH Hst]; [by split|]. by eapply receiver_step_order. Qed.

End pending.

(** ** The node *)

Section node.

Context {HP : Pression} {HL : Lunchbox} {HN : Network} (be : bool).
Context {CM App : Type} `{!ChangeManager CM App}.
Context {Q : Type -> Type} (CO_INSTANCE_MAX : Z).

Abbreviation store := (ObjectStore (CM := CM) (App := App) (Q := Q)).

(** The handlers of node commands that run in the receiver thread. *)
Context (nodeCommand : ICommand -> store -> store).

Definition LocalNode_dispatchCommand (command : ICommand) (st : store) : bool * store :=
  if ic_type command =? COMMANDTYPE_NODE then (true, nodeCommand command st)
  else if ic_type command =? COMMANDTYPE_OBJECT then
    let '(ok, st, _) := dispatchObjectCommand be CO_INSTANCE_MAX command st in (ok, st)
  else (true, st).

(** The object and instance a command is for; [None] for commands of the node. *)
Definition address (command : ICommand) : option (Z * Z) :=
  if negb (ic_type command =? COMMANDTYPE_NODE) && (ic_type command =? COMMANDTYPE_OBJECT) then
    Some (oic_objectID (ObjectICommand_of be command), oic_instanceID (ObjectICommand_of be command))
  else None.

Definition known (st : store) (a : option (Z * Z)) : bool :=
  match a with
  | None => true
  | Some (id, instanceID) =>
      match st_objects st !! id with
      | None => instanceID =? CO_INSTANCE_NONE
      | Some objects =>
          negb (instanceID <=? CO_INSTANCE_MAX) ||
          bool_decide (is_Some (find_obj (fun o => instanceID =? ob_instanceID o) (st_heap st) objects))
      end
  end.

Lemma dispatch_known c st : (LocalNode_dispatchCommand c st).1 = known st (address c).
Proof.
  unfold LocalNode_dispatchCommand, address. destruct (ic_type c =? COMMANDTYPE_NODE); [done|]. cbn [negb andb].
  destruct (ic_type c =? COMMANDTYPE_OBJECT); [|done]. unfold known, dispatchObjectCommand.
  destruct (st_objects st !! _) as [l|]; [|done]. destruct (_ <=? CO_INSTANCE_MAX).
  - destruct (find_obj _ _ _) as [[p o]|]; [|done]. by destruct (dispatch_to _ _ _).
  - by destruct (dispatch_all _ _ _).
Qed.

Lemma dispatch_unknown c st : known st (address c) = false -> (LocalNode_dispatchCommand c st).2 = st.
Proof.
  intros Hk. rewrite <-dispatch_known in Hk. revert Hk. unfold LocalNode_dispatchCommand.
  destruct (ic_type c =? COMMANDTYPE_NODE); [done|]. destruct (ic_type c =? COMMANDTYPE_OBJECT); [|done].
  unfold dispatchObjectCommand. destruct (st_objects st !! _) as [l|]; [|done]. destruct (_ <=? CO_INSTANCE_MAX).
  - destruct (find_obj _ _ _) as [[p o]|]; [|done]. by destruct (dispatch_to _ _ _).
  - by destruct (dispatch_all _ _ _).
Qed.

(** C12: No command overtakes another one for the same object.  Whatever handlers of
    node commands and other threads do, as long as only handlers attach objects,
    the commands that were dispatched for an address, followed by those that are
    pending, are the commands that arrived for it, in order; and no command is
    pending that could be dispatched. *)
Theorem object_commands_in_order (env : store -> store -> Prop) st0 r :
  (forall st st' a, env st st' -> known st' a = true -> known st a = true) ->
  receiver_reachable LocalNode_dispatchCommand env st0 r ->
  (forall a, of_key address a (rs_dispatched r) ++ of_key address a (rs_pending r) = of_key address a (rs_arrived r)) /\
  Forall (fun c => (LocalNode_dispatchCommand c (rs_state r)).1 = false) (rs_pending r).
Proof.
  intros Henv Hr.
  destruct (receiver_reachable_order _ env address known dispatch_known dispatch_unknown Henv st0 r Hr) as [Hp Ho].
  split; [done|]. eapply Forall_impl; [exact Hp|]. intros c Hc. by rewrite dispatch_known.
Qed.

End node.

(** ** Samples *)

(** A node command that attaches the first object of the sample store. *)
Definition sample_node_command : ICommand :=
  ICommand_new (H := store_Pression) (H0 := native_Lunchbox) false
    (Some (enc false 8 16 ++ enc false 4 COMMANDTYPE_NODE ++ enc false 4 23)) false.

Definition sample_dispatch := LocalNode_dispatchCommand (HP := store_Pression) (HL := native_Lunchbox) false
  (Q := list) 0xfffffff0 (fun _ => _attach 0xfffffff0 1 33 CO_INSTANCE_INVALID).

(** The command for the object comes first. *)
Definition sample_receiver_run : ReceiverState (St := ObjectStore (CM := bool * list Z) (App := Z) (Q := list)) (C := ICommand) :=
  let '(d1, p1, s1) := _dispatchCommand sample_dispatch sample_command [] sample_store in
  let '(d2, p2, s2) := _dispatchCommand sample_dispatch sample_node_command p1 s1 in
  mkReceiverState s2 p2 (([] ++ [sample_command]) ++ [sample_node_command]) (([] ++ d1) ++ d2).

Lemma sample_receiver_reachable : receiver_reachable sample_dispatch eq sample_store sample_receiver_run.
Proof.
  unfold sample_receiver_run. destruct (_dispatchCommand _ _ [] _) as [[d1 p1] s1] eqn:E1.
  destruct (_dispatchCommand _ sample_node_command p1 s1) as [[d2 p2] s2] eqn:E2.
  eapply receiver_next; [eapply receiver_next; [apply receiver_start|by apply step_arrive]|by apply step_arrive].
Qed.

Lemma object_commands_in_order_witness :
  length (rs_dispatched sample_receiver_run) = 2%nat /\ rs_pending sample_receiver_run = [] /\
  of_key (address (HP := store_Pression) (HL := native_Lunchbox) false) None (rs_dispatched sample_receiver_run) ++
    of_key (address (HP := store_Pression) (HL := native_Lunchbox) false) None (rs_pending sample_receiver_run) =
  of_key (address (HP := store_Pression) (HL := native_Lunchbox) false) None (rs_arrived sample_receiver_run).
Proof.
  split; [vm_compute; reflexivity|]. split; [vm_compute; reflexivity|].
  apply (object_commands_in_order (HP := store_Pression) (HL := native_Lunchbox) false (Q := list) 0xfffffff0
    (fun _ => _attach 0xfffffff0 1 33 CO_INSTANCE_INVALID) eq sample_store sample_receiver_run).
  - intros st st' a ->. exact (fun H => H).
  - exact sample_receiver_reachable.
Defined.
