(* ===== verification/SendToken.v ===== *)
(** * Send tokens (co/localNode.cpp, sendToken.cpp)

    A node lends one send token; who holds it may send bulk data to the node.
    Requests that find the token taken are queued, and a release passes it on.
    With a finite timeout the node makes up for lost tokens by generating a new
    one, which is why it keeps the time of the last release. *)

From S2P Require Import Prelude Bytes.

Definition LB_TIMEOUT_INDEFINITE : Z := 0xffffffff.

(** A request: the node that asks and its request. *)
Abbreviation TokenRequest := (Z * Z)%type.

Record TokenState := mkTokenState {
  tk_sendToken : bool;
  tk_lastSendToken : Z;
  tk_sendTokenQueue : list TokenRequest
}.

Definition TokenState_init : TokenState := mkTokenState true 0 [].

Section token.

(** [Global::getTimeout] *)
Context (timeout : Z).

(** [_cmdAcquireSendToken]: the requests that are granted. *)
Definition _cmdAcquireSendToken (now : Z) (command : TokenRequest) (st : TokenState) : TokenState * list TokenRequest :=
  if negb (tk_sendToken st) &&
     ((timeout =? LB_TIMEOUT_INDEFINITE) || (u64 (now - tk_lastSendToken st) <=? timeout)) then
    (mkTokenState (tk_sendToken st) (tk_lastSendToken st) (tk_sendTokenQueue st ++ [command]), [])
  else
    (mkTokenState false (tk_lastSendToken st) (if tk_sendToken st then tk_sendTokenQueue st else []), [command]).

Definition _cmdReleaseSendToken (now : Z) (st : TokenState) : TokenState * list TokenRequest :=
  if tk_sendToken st then (mkTokenState true now (tk_sendTokenQueue st), [])
  else
    match tk_sendTokenQueue st with
    | [] => (mkTokenState true now [], [])
    | request :: queue => (mkTokenState false now queue, [request])
    end.

(** ** The node and those who ask for its token *)

(** Commands in flight, the holders of a token, and, for the specification, the
    requests in the order the node handled them and in the order it granted them. *)
Record TokenSystem := mkTokenSystem {
  ts_node : TokenState;
  ts_acquires : list TokenRequest;
  ts_grants : list TokenRequest;
  ts_holders : list TokenRequest;
  ts_releases : list TokenRequest;
  ts_handled : list TokenRequest;
  ts_granted : list TokenRequest
}.

Definition TokenSystem_init : TokenSystem := mkTokenSystem TokenState_init [] [] [] [] [] [].

Definition token_requests (s : TokenSystem) : list TokenRequest :=
  ts_acquires s ++ tk_sendTokenQueue (ts_node s) ++ ts_grants s ++ ts_holders s ++ ts_releases s.

Inductive token_step : TokenSystem -> TokenSystem -> Prop :=
| token_acquire s req :
    req ∉ token_requests s ->
    token_step s (mkTokenSystem (ts_node s) (req :: ts_acquires s) (ts_grants s) (ts_holders s) (ts_releases s)
                    (ts_handled s) (ts_granted s))
| token_handle_acquire s req l1 l2 now st out :
    ts_acquires s = l1 ++ req :: l2 -> _cmdAcquireSendToken now req (ts_node s) = (st, out) ->
    token_step s (mkTokenSystem st (l1 ++ l2) (ts_grants s ++ out) (ts_holders s) (ts_releases s)
                    (ts_handled s ++ [req]) (ts_granted s ++ out))
| token_grant s req l1 l2 :
    ts_grants s = l1 ++ req :: l2 ->
    token_step s (mkTokenSystem (ts_node s) (ts_acquires s) (l1 ++ l2) (req :: ts_holders s) (ts_releases s)
                    (ts_handled s) (ts_granted s))
| token_release s req l1 l2 :
    ts_holders s = l1 ++ req :: l2 ->
    token_step s (mkTokenSystem (ts_node s) (ts_acquires s) (ts_grants s) (l1 ++ l2) (req :: ts_releases s)
                    (ts_handled s) (ts_granted s))
| token_handle_release s req l1 l2 now st out :
    ts_releases s = l1 ++ req :: l2 -> _cmdReleaseSendToken now (ts_node s) = (st, out) ->
    token_step s (mkTokenSystem st (ts_acquires s) (ts_grants s ++ out) (ts_holders s) (l1 ++ l2)
                    (ts_handled s) (ts_granted s ++ out)).

Inductive token_reachable : TokenSystem -> Prop :=
| token_start : token_reachable TokenSystem_init
| token_next s s' : token_reachable s -> token_step s s' -> token_reachable s'.

(** ** The invariant *)

(** There is one token: at the node, on its way, held, or on its way back. *)
Definition tokens (s : TokenSystem) : nat :=
  (if tk_sendToken (ts_node s) then 1 else 0) + length (ts_grants s) + length (ts_holders s) + length (ts_releases s).

Record token_ok (s : TokenSystem) : Prop := {
  to_one : tokens s = 1%nat;
  to_queue : tk_sendToken (ts_node s) = true -> tk_sendTokenQueue (ts_node s) = [];
  to_fifo : ts_handled s = ts_granted s ++ tk_sendTokenQueue (ts_node s);
  to_NoDup : NoDup (token_requests s);
}.

Lemma NoDup_perm {A} (l l' : list A) : l ≡ₚ l' -> NoDup l -> NoDup l'.
Proof. by intros ->. Qed.

Lemma NoDup_drop {A} (x : A) l l' : l ≡ₚ x :: l' -> NoDup l -> NoDup l'.
Proof. intros ->. by intros [_ ?]%NoDup_cons. Qed.

Ltac token_case Hn :=
  split; unfold tokens, token_requests; cbn; rewrite ?app_nil_r, ?length_app in *; cbn in *; try lia; try done;
  try (eapply NoDup_perm; [|exact Hn]; rewrite <-?app_assoc; cbn; solve_Permutation).

Lemma token_step_ok s s' : timeout = LB_TIMEOUT_INDEFINITE -> token_ok s -> token_step s s' -> token_ok s'.
Proof.
  intros Ht [H1 Hq Hf Hn] Hst.
  destruct Hst as [s req Hnew|s req l1 l2 now st out El E|s req l1 l2 El|s req l1 l2 El|s req l1 l2 now st out El E];
    destruct s as [[tok last q] acq gr ho re ha gd]; unfold tokens, token_requests in *; cbn in *; subst.
  - split; cbn; try done. by constructor.
  - unfold _cmdAcquireSendToken in E. rewrite Ht, Z.eqb_refl in E. cbn in E.
    destruct tok; injection E as <- <-.
    + rewrite (Hq eq_refl) in *. token_case Hn.
    + token_case Hn. by rewrite app_assoc.
  - token_case Hn.
  - token_case Hn.
  - assert (tok = false) as -> by (destruct tok; [rewrite length_app in H1; cbn in H1; lia|done]).
    unfold _cmdReleaseSendToken in E. cbn in E. destruct q as [|r q]; injection E as <- <-; token_case Hn.
    + eapply (NoDup_drop req); [|exact Hn]. solve_Permutation.
    + by rewrite <-app_assoc.
    + eapply (NoDup_drop req); [|exact Hn]. rewrite <-?app_assoc. cbn. solve_Permutation.
Qed.

Lemma token_reachable_ok s : timeout = LB_TIMEOUT_INDEFINITE -> token_reachable s -> token_ok s.
Proof.
  intros Ht. induction 1 as [|s s' _ IH Hst]; [|by eapply token_step_ok]. split; try done. constructor.
Qed.

(** C17: The send token is exclusive and fair.  Without a timeout, whatever the order
    in which commands arrive, at most one node holds the token; requests are
    granted in the order the node handled them; no request is lost or granted
    twice; and while requests wait, the token is with somebody who will release
    it or on its way. *)
Theorem token_exclusive s :
  timeout = LB_TIMEOUT_INDEFINITE -> token_reachable s ->
  (length (ts_holders s) <= 1)%nat /\
  ts_handled s = ts_granted s ++ tk_sendTokenQueue (ts_node s) /\
  NoDup (token_requests s) /\
  (tk_sendTokenQueue (ts_node s) <> [] -> length (ts_grants s ++ ts_holders s ++ ts_releases s) = 1%nat).
Proof.
  intros Ht Hr. destruct (token_reachable_ok s Ht Hr) as [H1 Hq Hf Hn]. unfold tokens in H1. rewrite !length_app.
  split_and!; try done; [lia|]. intros Hne. destruct (tk_sendToken (ts_node s)); [by destruct Hne; apply Hq|lia].
Qed.

(** With a timeout, two nodes may hold the token at once.  The time kept is that
    of the last release, not of the last grant; so once nobody has released a token
    for longer than the timeout, every request is granted at once, even those that
    arrive right after the token was granted. *)
Theorem token_granted_twice now req1 req2 st :
  timeout <> LB_TIMEOUT_INDEFINITE -> tk_sendToken st = true -> timeout < u64 (now - tk_lastSendToken st) ->
  let '(st1, out1) := _cmdAcquireSendToken now req1 st in
  let '(st2, out2) := _cmdAcquireSendToken now req2 st1 in
  out1 = [req1] /\ out2 = [req2].
Proof.
  intros Ht Htok Hlate. unfold _cmdAcquireSendToken at 1. rewrite Htok. cbn [negb andb].
  unfold _cmdAcquireSendToken. cbn [tk_sendToken tk_lastSendToken negb].
  rewrite (proj2 (Z.eqb_neq _ _) Ht), (proj2 (Z.leb_gt _ _)) by lia. done.
Qed.

End token.

(** ** Samples *)

(** Two nodes ask, the first is granted the token and holds it. *)
Definition sample_tokens : TokenSystem :=
  mkTokenSystem (mkTokenState false 0 [(2, 7)]) [] [] [(1, 5)] [] [(1, 5); (2, 7)] [(1, 5)].

Lemma sample_tokens_reachable : token_reachable LB_TIMEOUT_INDEFINITE sample_tokens.
Proof.
  pose proof (token_start LB_TIMEOUT_INDEFINITE) as R.
  eapply token_next in R; [|apply (token_acquire _ _ (1, 5)), not_elem_of_nil].
  eapply token_next in R; [|eapply (token_handle_acquire _ _ (1, 5) [] [] 10); reflexivity].
  eapply token_next in R; [|apply (token_acquire _ _ (2, 7)); cbn; by intros [= ?]%list_elem_of_singleton].
  eapply token_next in R; [|eapply (token_handle_acquire _ _ (2, 7) [] [] 20); reflexivity].
  eapply token_next in R; [|apply (token_grant _ _ (1, 5) [] []); reflexivity].
  exact R.
Qed.

Lemma token_exclusive_witness :
  (length (ts_holders sample_tokens) <= 1)%nat /\ length (ts_grants sample_tokens ++ ts_holders sample_tokens ++ ts_releases sample_tokens) = 1%nat.
Proof.
  destruct (token_exclusive LB_TIMEOUT_INDEFINITE sample_tokens eq_refl sample_tokens_reachable) as (H1 & _ & _ & H4).
  split; [exact H1|]. apply H4. discriminate.
Defined.

Lemma token_granted_twice_witness :
  let '(st1, out1) := _cmdAcquireSendToken 300000 400000 (1, 5) TokenState_init in
  let '(st2, out2) := _cmdAcquireSendToken 300000 400000 (2, 7) st1 in
  out1 = [(1, 5)] /\ out2 = [(2, 7)].
Proof. apply (token_granted_twice 300000 400000 (1, 5) (2, 7) TokenState_init); [discriminate|reflexivity|reflexivity]. Defined.
