(* ===== verification/ConnectionDescription.v ===== *)
(** * Connection descriptions and node data (co/connectionDescription.cpp, connectionType.h, node.cpp)

    Nodes tell each other how they are reached as text: fields are separated by
    '#', and a list of descriptions is preceded by its length.  A description may
    also be written by hand as hostname[:port][:type]. *)

From S2P Require Import Prelude.
From Stdlib Require Import Ascii String.

#[local] Open Scope Z_scope.

(** ** Text *)

Definition SEPARATOR : ascii := "#"%char.
Definition COLON : ascii := ":"%char.

Definition digit (d : Z) : ascii := ascii_of_nat (48 + Z.to_nat d).
Definition isdigit (c : ascii) : bool := (48 <=? Z.of_nat (nat_of_ascii c)) && (Z.of_nat (nat_of_ascii c) <=? 57).
Definition digit_value (c : ascii) : Z := Z.of_nat (nat_of_ascii c) - 48.

(** [os << n] for a non-negative number; the fuel bounds the number of digits. *)
Fixpoint print_digits (fuel : nat) (n : Z) (acc : string) : string :=
  let acc := String (digit (n `mod` 10)) acc in
  match fuel with
  | O => acc
  | S fuel => if n <? 10 then acc else print_digits fuel (n `div` 10) acc
  end.

Definition print_Z (n : Z) : string :=
  if n <? 0 then String "-"%char (print_digits 40 (- n) "") else print_digits 40 n "".

(** [atoi] *)
Fixpoint parse_digits (acc : Z) (s : string) : Z :=
  match s with
  | String c s => if isdigit c then parse_digits (acc * 10 + digit_value c) s else acc
  | EmptyString => acc
  end.

Fixpoint skip_space (s : string) : string :=
  match s with
  | String c s' =>
      if (nat_of_ascii c =? 32)%nat || ((9 <=? nat_of_ascii c)%nat && (nat_of_ascii c <=? 13)%nat) then skip_space s' else s
  | EmptyString => s
  end.

Definition atoi (s : string) : Z :=
  i32 (match skip_space s with
       | String "-" s => - parse_digits 0 s
       | String "+" s => parse_digits 0 s
       | s => parse_digits 0 s
       end).

(** [nextPos = data.find( c )] with [data.substr( 0, nextPos )] and
    [data.substr( nextPos + 1 )]; [None] if there is none. *)
Fixpoint split_at_char (c : ascii) (s : string) : option (string * string) :=
  match s with
  | EmptyString => None
  | String c' s =>
      if Ascii.eqb c' c then Some (EmptyString, s)
      else '(token, rest) ← split_at_char c s; Some (String c' token, rest)
  end.

Definition is_empty (s : string) : bool := match s with EmptyString => true | _ => false end.

(** ** Connection types *)

Inductive ConnectionType :=
| CONNECTIONTYPE_NONE | CONNECTIONTYPE_TCPIP | CONNECTIONTYPE_SDP | CONNECTIONTYPE_PIPE | CONNECTIONTYPE_NAMEDPIPE
| CONNECTIONTYPE_IB | CONNECTIONTYPE_RDMA | CONNECTIONTYPE_UDT | CONNECTIONTYPE_MULTICAST | CONNECTIONTYPE_RSP.

#[export] Instance ConnectionType_eq_dec : EqDecision ConnectionType.
Proof. solve_decision. Defined.

(** [type >= CONNECTIONTYPE_MULTICAST] *)
Definition is_multicast (t : ConnectionType) : bool :=
  match t with CONNECTIONTYPE_MULTICAST | CONNECTIONTYPE_RSP => true | _ => false end.

Definition print_type (t : ConnectionType) : string :=
  match t with
  | CONNECTIONTYPE_TCPIP => "TCPIP"
  | CONNECTIONTYPE_SDP => "SDP"
  | CONNECTIONTYPE_PIPE => "ANON_PIPE"
  | CONNECTIONTYPE_NAMEDPIPE => "PIPE"
  | CONNECTIONTYPE_RSP => "RSP"
  | CONNECTIONTYPE_NONE => "NONE"
  | CONNECTIONTYPE_RDMA => "RDMA"
  | CONNECTIONTYPE_UDT => "UDT"
  | CONNECTIONTYPE_IB | CONNECTIONTYPE_MULTICAST => "ERROR"
  end.

Definition _getConnectionType (s : string) : ConnectionType :=
  if String.eqb s "TCPIP" then CONNECTIONTYPE_TCPIP
  else if String.eqb s "TCP" then CONNECTIONTYPE_TCPIP
  else if String.eqb s "SDP" then CONNECTIONTYPE_SDP
  else if String.eqb s "ANON_PIPE" then CONNECTIONTYPE_PIPE
  else if String.eqb s "PIPE" then CONNECTIONTYPE_NAMEDPIPE
  else if String.eqb s "RSP" then CONNECTIONTYPE_RSP
  else if String.eqb s "RDMA" then CONNECTIONTYPE_RDMA
  else if String.eqb s "UDT" then CONNECTIONTYPE_UDT
  else CONNECTIONTYPE_NONE.

(** ** Descriptions *)

Record ConnectionDescription := mkConnectionDescription {
  cd_type : ConnectionType;
  cd_bandwidth : Z;
  cd_port : Z;
  cd_hostname : string;
  cd_interfacename : string;
  cd_filename : string
}.

Definition ConnectionDescription_init : ConnectionDescription :=
  mkConnectionDescription CONNECTIONTYPE_TCPIP 0 0 "" "" "default".

Definition set_cd_hostname (h : string) (d : ConnectionDescription) : ConnectionDescription :=
  mkConnectionDescription (cd_type d) (cd_bandwidth d) (cd_port d) h (cd_interfacename d) (cd_filename d).
Definition set_cd_type (t : ConnectionType) (d : ConnectionDescription) : ConnectionDescription :=
  mkConnectionDescription t (cd_bandwidth d) (cd_port d) (cd_hostname d) (cd_interfacename d) (cd_filename d).
Definition set_cd_port (p : Z) (d : ConnectionDescription) : ConnectionDescription :=
  mkConnectionDescription (cd_type d) (cd_bandwidth d) p (cd_hostname d) (cd_interfacename d) (cd_filename d).
Definition set_cd_bandwidth (b : Z) (d : ConnectionDescription) : ConnectionDescription :=
  mkConnectionDescription (cd_type d) b (cd_port d) (cd_hostname d) (cd_interfacename d) (cd_filename d).
Definition set_cd_interfacename (i : string) (d : ConnectionDescription) : ConnectionDescription :=
  mkConnectionDescription (cd_type d) (cd_bandwidth d) (cd_port d) (cd_hostname d) i (cd_filename d).
Definition set_cd_filename (f : string) (d : ConnectionDescription) : ConnectionDescription :=
  mkConnectionDescription (cd_type d) (cd_bandwidth d) (cd_port d) (cd_hostname d) (cd_interfacename d) f.

(** A field and its separator *)
Definition field (s rest : string) : string := s +:+ String SEPARATOR rest.

Definition serialize_description (d : ConnectionDescription) (rest : string) : string :=
  field (print_type (cd_type d)) (field (print_Z (cd_bandwidth d)) (field (cd_hostname d)
    (field (cd_interfacename d) (field (print_Z (cd_port d)) (field (cd_filename d) rest))))).

Definition toString (d : ConnectionDescription) : string := serialize_description d "".

(** One token of the format hostname[:port][:type]. *)
Definition parse_token (token : string) (d : ConnectionDescription) : option ConnectionDescription :=
  match token with
  | String c _ =>
      if isdigit c then Some (set_cd_port (u16 (atoi token)) d)
      else
        let type := _getConnectionType token in
        let d := set_cd_type type d in
        if bool_decide (type = CONNECTIONTYPE_NAMEDPIPE) then Some (set_cd_hostname "" (set_cd_filename (cd_hostname d) d))
        else if bool_decide (type = CONNECTIONTYPE_NONE) then None
        else Some d
  | EmptyString => None
  end.

Fixpoint parse_tokens (fuel : nat) (data : string) (d : ConnectionDescription) : bool * ConnectionDescription * string :=
  let '(token, rest) := match split_at_char COLON data with Some (t, r) => (t, Some r) | None => (data, None) end in
  match parse_token token d with
  | None => (false, set_cd_type CONNECTIONTYPE_NONE d, default data rest)
  | Some d =>
      match rest, fuel with
      | Some rest, S fuel => parse_tokens fuel rest d
      | _, _ => (true, d, ""%string)
      end
  end.

(** [fromString]: the result, the description and what is left of the data. *)
Definition fromString (data : string) (d : ConnectionDescription) : bool * ConnectionDescription * string :=
  match split_at_char SEPARATOR data with
  | None =>
      let d := set_cd_type CONNECTIONTYPE_TCPIP d in
      match split_at_char COLON data with
      | None => (true, set_cd_hostname data d, ""%string)
      | Some (hostname, rest) => parse_tokens (String.length rest) rest (set_cd_hostname hostname d)
      end
  | Some (typeStr, data) =>
      let d := set_cd_type (_getConnectionType typeStr) d in
      match split_at_char SEPARATOR data with
      | None => (false, d, data)
      | Some (bandwidthStr, data) =>
          let d := set_cd_bandwidth (atoi bandwidthStr) d in
          match split_at_char SEPARATOR data with
          | None => (false, d, data)
          | Some (hostname, data) =>
              let d := set_cd_hostname hostname d in
              match split_at_char SEPARATOR data with
              | None => (false, d, data)
              | Some (interfacename, data) =>
                  let d := set_cd_interfacename interfacename d in
                  match split_at_char SEPARATOR data with
                  | None => (false, d, data)
                  | Some (portStr, data) =>
                      let d := set_cd_port (u16 (atoi portStr)) d in
                      match split_at_char SEPARATOR data with
                      | None => (false, d, data)
                      | Some (filename, data) => (true, set_cd_filename filename d, data)
                      end
                  end
              end
          end
      end
  end.

Definition isSameMulticastGroup (d rhs : ConnectionDescription) : bool :=
  is_multicast (cd_type d) && bool_decide (cd_type d = cd_type rhs) &&
  String.eqb (cd_hostname d) (cd_hostname rhs) && (cd_port d =? cd_port rhs).

(** ** Lists of descriptions *)

Definition serialize_descriptions (ds : list ConnectionDescription) (rest : string) : string :=
  field (print_Z (Z.of_nat (Datatypes.length ds))) (foldr serialize_description rest ds).

Fixpoint deserialize_loop (n : nat) (data : string) (ds : list ConnectionDescription) :
    bool * list ConnectionDescription * string :=
  match n with
  | O => (true, ds, data)
  | S n =>
      match fromString data ConnectionDescription_init with
      | (false, _, data) => (false, ds, data)
      | (true, d, data) => deserialize_loop n data (ds ++ [d])
      end
  end.

Definition deserialize_descriptions (data : string) (ds : list ConnectionDescription) :
    bool * list ConnectionDescription * string :=
  match split_at_char SEPARATOR data with
  | None | Some (EmptyString, _) => (false, ds, data)
  | Some (String c sizeStr, rest) =>
      if isdigit c then deserialize_loop (Z.to_nat (atoi (String c sizeStr))) rest ds else (false, ds, data)
  end.

(** ** Node data *)

(** The part of [detail::Node] that is sent to other nodes. *)
Record NodeData := mkNodeData {
  nd_id : Z;
  nd_bigEndian : bool;
  nd_descriptions : list ConnectionDescription
}.

Section node.

(** The text of a [NodeID] ([servus::uint128_t]), and the version of the library. *)
Context (print_id : Z -> string) (parse_id : string -> Z) (major minor : Z).

Definition Node_serialize (n : NodeData) : string :=
  field (print_Z major) (field (print_Z minor) (field (print_id (nd_id n))
    (field (print_Z (if nd_bigEndian n then 1 else 0)) (serialize_descriptions (nd_descriptions n) "")))).

(** A non-empty field *)
Definition next_field (data : string) : option (string * string) :=
  '(token, rest) ← split_at_char SEPARATOR data; if is_empty token then None else Some (token, rest).

(** [deserialize]: the result and the node; a version that differs is a warning. *)
Definition Node_deserialize (data : string) (n : NodeData) : bool * NodeData * string :=
  match next_field data with
  | None => (false, n, data)
  | Some (_, data) =>
      match next_field data with
      | None => (false, n, data)
      | Some (_, data) =>
          match next_field data with
          | None => (false, n, data)
          | Some (id, data) =>
              let n := mkNodeData (parse_id id) (nd_bigEndian n) (nd_descriptions n) in
              match next_field data with
              | None => (false, n, data)
              | Some (endian, data) =>
                  let bigEndian := negb (atoi endian =? 0) in
                  let '(ok, ds, data) := deserialize_descriptions data [] in
                  (ok, mkNodeData (nd_id n) bigEndian ds, data)
              end
          end
      end
  end.

End node.

(** ** Lemmas *)

(** A text without a character. *)
Fixpoint lacks (c : ascii) (s : string) : Prop :=
  match s with EmptyString => True | String c' s => c' <> c /\ lacks c s end.

Lemma split_field s rest : lacks SEPARATOR s -> split_at_char SEPARATOR (field s rest) = Some (s, rest).
Proof.
  induction s as [|c s IH]; [done|]. intros [Hc Hs]. change (field (String c s) rest) with (String c (field s rest)).
  cbn [split_at_char]. rewrite (proj2 (Ascii.eqb_neq c SEPARATOR)) by done. by rewrite IH.
Qed.

Lemma digit_cases d : 0 <= d < 10 -> isdigit (digit d) = true /\ digit_value (digit d) = d /\ digit d <> SEPARATOR /\ digit d <> COLON.
Proof.
  intros Hd. assert (d = 0 \/ d = 1 \/ d = 2 \/ d = 3 \/ d = 4 \/ d = 5 \/ d = 6 \/ d = 7 \/ d = 8 \/ d = 9) as Hc by lia.
  naive_solver.
Qed.

Lemma print_digits_parse fuel n acc :
  0 <= n < 10 ^ Z.of_nat (S fuel) -> parse_digits 0 (print_digits fuel n acc) = parse_digits n acc.
Proof.
  revert n acc. induction fuel as [|fuel IH]; intros n acc Hn; cbn [print_digits].
  - change (10 ^ Z.of_nat 1) with 10 in Hn. cbn [parse_digits].
    destruct (digit_cases (n `mod` 10)) as (-> & -> & _); [apply Z.mod_pos_bound; lia|]. f_equal. rewrite Z.mod_small; lia.
  - assert (0 <= n `mod` 10 < 10) as Hm by (apply Z.mod_pos_bound; lia). destruct (digit_cases (n `mod` 10) Hm) as (Hd & Hv & _).
    destruct (Z.ltb_spec n 10) as [Hlt|Hge].
    + cbn [parse_digits]. rewrite Hd, Hv. f_equal. rewrite Z.mod_small; lia.
    + rewrite IH.
      * cbn [parse_digits]. rewrite Hd, Hv. f_equal. pose proof (Z.div_mod n 10). lia.
      * rewrite (Nat2Z.inj_succ (S fuel)), Z.pow_succ_r in Hn by lia. split; [apply Z.div_pos; lia|].
        apply Z.div_lt_upper_bound; lia.
Qed.

Lemma print_digits_lacks c fuel n acc :
  c = SEPARATOR \/ c = COLON -> 0 <= n -> lacks c acc -> lacks c (print_digits fuel n acc).
Proof.
  intros Hc. revert n acc. induction fuel as [|fuel IH]; intros n acc Hn Ha; cbn [print_digits];
    (assert (0 <= n `mod` 10 < 10) as Hm by (apply Z.mod_pos_bound; lia));
    destruct (digit_cases (n `mod` 10) Hm) as (_ & _ & Hs & Hk);
    (assert (lacks c (String (digit (n `mod` 10)) acc)) as Hl by (split; [destruct Hc; by subst|done])); [done|].
  destruct (n <? 10); [done|]. apply IH; [apply Z.div_pos; lia|done].
Qed.

(** The first character printed is a digit. *)
Lemma print_digits_head fuel n acc : 0 <= n -> exists c s, print_digits fuel n acc = String c s /\ isdigit c = true.
Proof.
  revert n acc. induction fuel as [|fuel IH]; intros n acc Hn; cbn [print_digits];
    (assert (0 <= n `mod` 10 < 10) as Hm by (apply Z.mod_pos_bound; lia)); destruct (digit_cases (n `mod` 10) Hm) as (Hd & _).
  - by eexists _, _.
  - destruct (n <? 10); [by eexists _, _|]. apply IH. apply Z.div_pos; lia.
Qed.

Lemma isdigit_nat c : isdigit c = true -> (48 <= nat_of_ascii c <= 57)%nat.
Proof. unfold isdigit. rewrite andb_true_iff, !Z.leb_le. lia. Qed.

Lemma skip_digit c s : isdigit c = true -> skip_space (String c s) = String c s.
Proof.
  intros Hd%isdigit_nat. cbn [skip_space].
  destruct (Nat.eqb_spec (nat_of_ascii c) 32); [lia|]. destruct (Nat.leb_spec (nat_of_ascii c) 13); [lia|].
  by rewrite andb_false_r.
Qed.

Lemma atoi_digit c s : isdigit c = true -> atoi (String c s) = i32 (parse_digits 0 (String c s)).
Proof.
  intros Hd. unfold atoi. rewrite skip_digit by done. apply isdigit_nat in Hd.
  destruct c as [[] [] [] [] [] [] [] []]; try done; vm_compute in Hd; lia.
Qed.

Lemma atoi_minus s : atoi (String "-"%char s) = i32 (- parse_digits 0 s).
Proof. done. Qed.

Lemma i32_range n : is_i32 n -> - (10 ^ 41) < n < 10 ^ 41.
Proof. unfold is_i32. intros. assert (2147483648 < 10 ^ 41) by done. lia. Qed.

Lemma atoi_print n : is_i32 n -> atoi (print_Z n) = n.
Proof.
  intros Hn. pose proof (i32_range n Hn) as Hr. unfold print_Z. destruct (Z.ltb_spec n 0) as [Hneg|Hpos].
  - rewrite atoi_minus, print_digits_parse by (change (Z.of_nat 41) with 41; lia). cbn [parse_digits]. rewrite Z.opp_involutive. by apply i32_small.
  - destruct (print_digits_head 40 n "" Hpos) as (c & s & E & Hc). rewrite E, atoi_digit, <-E by done.
    rewrite print_digits_parse by (change (Z.of_nat 41) with 41; lia). by apply i32_small.
Qed.

Lemma print_Z_lacks c n : c = SEPARATOR \/ c = COLON -> lacks c (print_Z n).
Proof.
  intros Hc. unfold print_Z. destruct (Z.ltb_spec n 0); [|by apply print_digits_lacks].
  split; [destruct Hc; by subst|]. apply print_digits_lacks; [done|lia|done].
Qed.

(** ** Round trips *)

(** A description that can be sent as text. *)
Record description_ok (d : ConnectionDescription) : Prop := {
  do_type : cd_type d <> CONNECTIONTYPE_IB /\ cd_type d <> CONNECTIONTYPE_MULTICAST;
  do_bandwidth : is_i32 (cd_bandwidth d);
  do_port : is_u16 (cd_port d);
  do_hostname : lacks SEPARATOR (cd_hostname d);
  do_interface : lacks SEPARATOR (cd_interfacename d);
  do_filename : lacks SEPARATOR (cd_filename d);
}.

Lemma type_roundtrip t : t <> CONNECTIONTYPE_IB -> t <> CONNECTIONTYPE_MULTICAST -> _getConnectionType (print_type t) = t.
Proof. by destruct t. Qed.

Lemma print_type_lacks t : lacks SEPARATOR (print_type t).
Proof. by destruct t; repeat split. Qed.

Lemma port_i32 p : is_u16 p -> is_i32 p.
Proof. unfold is_u16, is_i32. lia. Qed.

Lemma fromString_serialize d rest d0 : description_ok d -> fromString (serialize_description d rest) d0 = (true, d, rest).
Proof.
  intros [[Ht1 Ht2] Hb Hp Hh Hi Hf]. unfold fromString, serialize_description.
  rewrite !split_field by (auto using print_type_lacks, print_Z_lacks).
  cbn [fst snd]. rewrite type_roundtrip, !atoi_print, u16_small by auto using port_i32. by destruct d.
Qed.

Lemma deserialize_loop_serialize ds rest acc :
  Forall description_ok ds -> deserialize_loop (Datatypes.length ds) (foldr serialize_description rest ds) acc = (true, acc ++ ds, rest).
Proof.
  intros Hds. revert acc. induction Hds as [|d ds Hd Hds IH]; intros acc; cbn [deserialize_loop foldr Datatypes.length].
  { by rewrite app_nil_r. }
  rewrite fromString_serialize by done. rewrite IH. by rewrite <-app_assoc.
Qed.

Lemma print_Z_digit n : 0 <= n -> exists c s, print_Z n = String c s /\ isdigit c = true.
Proof. intros Hn. unfold print_Z. destruct (Z.ltb_spec n 0); [lia|]. by apply print_digits_head. Qed.

Lemma deserialize_serialize ds rest acc :
  Forall description_ok ds -> is_i32 (Z.of_nat (Datatypes.length ds)) ->
  deserialize_descriptions (serialize_descriptions ds rest) acc = (true, acc ++ ds, rest).
Proof.
  intros Hds Hn. unfold deserialize_descriptions, serialize_descriptions.
  rewrite split_field by (apply print_Z_lacks; by left).
  destruct (print_Z_digit (Z.of_nat (Datatypes.length ds)) ltac:(lia)) as (c & s & E & Hc). rewrite E, Hc, <-E, atoi_print by done.
  rewrite Nat2Z.id. by apply deserialize_loop_serialize.
Qed.

Lemma print_Z_nonempty n : is_empty (print_Z n) = false.
Proof.
  unfold print_Z. destruct (Z.ltb_spec n 0); [done|]. by destruct (print_digits_head 40 n "") as (c & s & -> & _).
Qed.

Section roundtrip.

Context (print_id : Z -> string) (parse_id : string -> Z) (major minor : Z).

(** C20: Node data arrives as it was sent.  The text a node sends in the connection
    handshake, with its identifier, byte order and connection descriptions, is
    read back as exactly that, whatever was there before and whatever version the
    reader has, for names without the separator. *)
Theorem node_data_roundtrip n n0 :
  parse_id (print_id (nd_id n)) = nd_id n -> print_id (nd_id n) <> ""%string -> lacks SEPARATOR (print_id (nd_id n)) ->
  Forall description_ok (nd_descriptions n) -> is_i32 (Z.of_nat (Datatypes.length (nd_descriptions n))) ->
  Node_deserialize parse_id (Node_serialize print_id major minor n) n0 = (true, n, ""%string).
Proof.
  intros Hid Hne Hl Hds Hn. unfold Node_deserialize, Node_serialize, next_field.
  rewrite !split_field by (auto using print_Z_lacks). cbn [mbind option_bind].
  rewrite !print_Z_nonempty. cbn [fst snd].
  rewrite split_field by (auto using print_Z_lacks). cbn [mbind option_bind]. rewrite !print_Z_nonempty.
  rewrite split_field by done. cbn [mbind option_bind]. destruct (print_id (nd_id n)) as [|c s] eqn:E; [done|]. cbn [is_empty].
  rewrite split_field by (auto using print_Z_lacks). cbn [mbind option_bind]. rewrite print_Z_nonempty, Hid, deserialize_serialize by done.
  rewrite atoi_print by (by destruct (nd_bigEndian n)). by destruct n as [id [] ds].
Qed.

End roundtrip.

(** ** Descriptions written by hand *)

Definition by_hand (host : string) (port : Z) (t : ConnectionType) : string :=
  host +:+ String COLON (print_Z port +:+ String COLON (print_type t)).

Lemma lacks_append c s s' : lacks c s -> lacks c s' -> lacks c (s +:+ s').
Proof. induction s as [|x s IH]; [done|]. intros [Hx Hs] Hs'. split; [done|by apply IH]. Qed.

Lemma split_lacks c s : lacks c s -> split_at_char c s = None.
Proof.
  induction s as [|x s IH]; [done|]. intros [Hx Hs]. cbn [split_at_char].
  rewrite (proj2 (Ascii.eqb_neq x c)) by done. by rewrite IH.
Qed.

Lemma split_append c s s' : lacks c s -> split_at_char c (s +:+ String c s') = Some (s, s').
Proof.
  induction s as [|x s IH].
  - intros _. change (EmptyString +:+ String c s') with (String c s'). cbn [split_at_char]. by rewrite Ascii.eqb_refl.
  - intros [Hx Hs]. change (String x s +:+ String c s') with (String x (s +:+ String c s')). cbn [split_at_char].
    rewrite (proj2 (Ascii.eqb_neq x c)) by done. by rewrite IH.
Qed.

(** hostname:port:type is read as documented, for every type the parser knows; a
    named pipe takes its file name in place of the host name. *)
Theorem description_by_hand host port t :
  lacks SEPARATOR host -> lacks COLON host -> is_u16 port ->
  t <> CONNECTIONTYPE_NONE -> t <> CONNECTIONTYPE_IB -> t <> CONNECTIONTYPE_MULTICAST ->
  fromString (by_hand host port t) ConnectionDescription_init =
    (true, (if bool_decide (t = CONNECTIONTYPE_NAMEDPIPE) then mkConnectionDescription t 0 port "" "" host
            else mkConnectionDescription t 0 port host "" "default"), ""%string).
Proof.
  intros Hs Hc Hp Hn Hi Hm. unfold fromString.
  assert (lacks SEPARATOR (by_hand host port t)) as Hl.
  { apply lacks_append; [done|]. split; [done|]. apply lacks_append; [apply print_Z_lacks; by left|].
    split; [done|apply print_type_lacks]. }
  rewrite (split_lacks SEPARATOR) by done. unfold by_hand. rewrite split_append by done.
  assert (lacks COLON (print_type t)) as Hlt by (by destruct t; repeat split).
  set (rest := print_Z port +:+ String COLON (print_type t)).
  assert (exists k, String.length rest = S k) as [k ->].
  { unfold rest, is_u16 in *. destruct (print_Z_digit port) as (c & s & -> & _); [lia|]. by eexists. }
  unfold rest. cbn [parse_tokens]. rewrite split_append by (apply print_Z_lacks; by right).
  destruct (print_Z_digit port) as (c & s & E & Hd); [unfold is_u16 in Hp; lia|].
  unfold parse_token at 1. rewrite E, Hd, <-E, atoi_print, u16_small by auto using port_i32.
  assert (forall fuel d, parse_tokens fuel (print_type t) d =
    match parse_token (print_type t) d with None => (false, set_cd_type CONNECTIONTYPE_NONE d, print_type t) | Some d => (true, d, ""%string) end) as Hlast.
  { intros fuel d. destruct fuel; cbn [parse_tokens]; by rewrite (split_lacks COLON) by done. }
  rewrite Hlast. by destruct t.
Qed.

(** ** Samples *)

Definition sample_description : ConnectionDescription :=
  mkConnectionDescription CONNECTIONTYPE_RSP 10000 4242 "239.255.42.43" "eth0" "default".

Definition sample_node : NodeData := mkNodeData 77 true [sample_description; ConnectionDescription_init].

Lemma node_data_roundtrip_witness :
  Node_deserialize atoi (Node_serialize print_Z 1 2 sample_node) (mkNodeData 0 false []) = (true, sample_node, ""%string).
Proof.
  apply (node_data_roundtrip print_Z atoi 1 2 sample_node (mkNodeData 0 false [])).
  - reflexivity.
  - discriminate.
  - cbn. repeat split; discriminate.
  - apply Forall_cons. split; [|apply Forall_cons; split; [|apply Forall_nil; exact I]];
      (split; [split; discriminate|unfold is_i32; cbn; lia|unfold is_u16; cbn; lia|..]); cbn; repeat split; discriminate.
  - unfold is_i32. cbn. lia.
Defined.

Lemma description_by_hand_witness :
  fromString (by_hand "node7" 4242 CONNECTIONTYPE_RDMA) ConnectionDescription_init =
    (true, mkConnectionDescription CONNECTIONTYPE_RDMA 0 4242 "node7" "" "default", ""%string).
Proof.
  apply (description_by_hand "node7" 4242 CONNECTIONTYPE_RDMA);
    [cbn; repeat split; discriminate|cbn; repeat split; discriminate|unfold is_u16; lia|discriminate|discriminate|discriminate].
Defined.
