(* ===== verification/Global.v ===== *)
(** * Global attributes (global.cpp, global.h)

    A process has a fixed list of integer attributes.  An application passes them
    to the processes it launches as text, ##a0#a1#...#an##, which [fromString]
    applies if it is complete. *)

From S2P Require Import Prelude ConnectionDescription.
From Stdlib Require Import Ascii String.

#[local] Open Scope Z_scope.

(** ** The attributes *)

Definition IATTR_ROBUSTNESS : nat := 17.
Definition IATTR_TIMEOUT_DEFAULT : nat := 18.
Definition IATTR_CMD_QUEUE_LIMIT : nat := 20.
Definition IATTR_ALL : nat := 21.

Definition LB_TIMEOUT_INDEFINITE : Z := 0xffffffff.

(** What the environment variables say: [None] if one is not set. *)
Definition _getObjectBufferSize (env : option string) : Z :=
  match env with
  | None => 60000
  | Some s => let size := atoi s in if size >? 0 then u32 size else 60000
  end.

Definition _getTimeout (env : option string) : Z :=
  match env with
  | None => 300000
  | Some s => let size := atoi s in if size <=? 0 then 300000 else size
  end.

Record Global := mkGlobal {
  defaultPort : Z;
  objectBufferSize : Z;
  iAttributes : list Z;
}.

(** The initial values, with BIG_SEND. *)
Definition Global_init (envBuffer envTimeout : option string) : Global :=
  mkGlobal 0 (_getObjectBufferSize envBuffer)
    [100; 100; 100; 10; 1; 5; 20; 3; 64; 5; 65000; 524288; 1; 1; 8; 512; 5000; 1;
     _getTimeout envTimeout; 1023; 0].

Definition setIAttribute (attr : nat) (value : Z) (g : Global) : Global :=
  mkGlobal (defaultPort g) (objectBufferSize g) (<[attr := value]> (iAttributes g)).
Definition getIAttribute (attr : nat) (g : Global) : Z := default 0 (iAttributes g !! attr).
Definition setDefaultPort (port : Z) (g : Global) : Global :=
  mkGlobal port (objectBufferSize g) (iAttributes g).
Definition setObjectBufferSize (size : Z) (g : Global) : Global :=
  mkGlobal (defaultPort g) size (iAttributes g).

Definition Global_getTimeout (g : Global) : Z :=
  if negb (getIAttribute IATTR_ROBUSTNESS g =? 0) then u32 (getIAttribute IATTR_TIMEOUT_DEFAULT g)
  else LB_TIMEOUT_INDEFINITE.

Definition getKeepaliveTimeout (env : option string) : Z :=
  match env with
  | None => 2000
  | Some s => let size := atoi s in if size =? 0 then 2000 else u32 size
  end.

Definition getCommandQueueLimit (g : Global) : Z :=
  let limit := getIAttribute IATTR_CMD_QUEUE_LIMIT g in
  if limit >? 0 then u64 (Z.shiftl limit 10) else max_u64.

(** ** Text *)

(** [data] is the text from the end marker on; the loop leaves it at the separator
    that ends the last attribute. *)
Fixpoint fromString_loop (fuel : nat) (data : string) (newGlobals : list Z) : list Z :=
  match fuel with
  | O => newGlobals
  | S fuel =>
      match split_at_char SEPARATOR data with
      | None => newGlobals
      | Some (_, data) =>
          match split_at_char SEPARATOR data with
          | None => newGlobals
          | Some (sub, data) =>
              match sub with
              | String c _ =>
                  if isdigit c || Ascii.eqb c "-"%char then
                    fromString_loop fuel (String SEPARATOR data) (newGlobals ++ [u32 (atoi sub)])
                  else newGlobals
              | EmptyString => newGlobals
              end
          end
      end
  end.

Definition Global_fromString (data : string) (g : Global) : bool * Global :=
  match data with
  | String c data' =>
      if negb (Ascii.eqb c SEPARATOR) then (false, g)
      else
        let newGlobals := fromString_loop (String.length data) data' [] in
        if negb (Nat.eqb (Datatypes.length newGlobals) IATTR_ALL) then (false, g)
        else (true, mkGlobal (defaultPort g) (objectBufferSize g) (i32 <$> newGlobals))
  | EmptyString => (false, g)
  end.

Definition Global_toString (g : Global) : string :=
  String SEPARATOR (String SEPARATOR
    (foldr (fun v rest => field (print_Z v) rest) (String SEPARATOR EmptyString) (iAttributes g))).

(** ** Command line options: [LocalNode::initLocal] before it listens *)

Definition dash (s : string) : bool :=
  match s with String c _ => Ascii.eqb c "-"%char | EmptyString => false end.

(** The arguments after the program name. *)
Fixpoint initLocal_args (args : list string)
    (ds : list ConnectionDescription) (g : Global) : list ConnectionDescription * Global :=
  match args with
  | [] => (ds, g)
  | arg :: rest =>
      if String.eqb arg "--eq-listen" || String.eqb arg "--co-listen" then
        match rest with
        | data :: rest' =>
            if dash data then initLocal_args rest ds g
            else
              let '(ok, desc, _) := fromString data (set_cd_port (defaultPort g) ConnectionDescription_init) in
              initLocal_args rest' (if ok then ds ++ [desc] else ds) g
        | [] => (ds, g)
        end
      else if String.eqb arg "--co-globals" then
        match rest with
        | data :: rest' =>
            if dash data then initLocal_args rest ds g
            else initLocal_args rest' ds (Global_fromString data g).2
        | [] => (ds, g)
        end
      else initLocal_args rest ds g
  end.

(** ** Lemmas *)

Lemma print_Z_head v : exists c s, print_Z v = String c s /\ isdigit c || Ascii.eqb c "-"%char = true.
Proof.
  destruct (Z.ltb_spec v 0) as [Hv|Hv].
  - unfold print_Z. rewrite (proj2 (Z.ltb_lt v 0)) by lia. by eexists _, _.
  - destruct (print_Z_digit v Hv) as (c & s & -> & Hc). exists c, s. by rewrite Hc.
Qed.

Lemma i32_u32 v : is_i32 v -> i32 (u32 v) = v.
Proof. intros. solve_wrap. Qed.

(** Every attribute of the text is read, and reading ends at the empty one. *)
Lemma fromString_loop_spec l acc fuel :
  Forall is_i32 l -> (Datatypes.length l < fuel)%nat ->
  fromString_loop fuel (String SEPARATOR (foldr (fun v rest => field (print_Z v) rest)
    (String SEPARATOR EmptyString) l)) acc = acc ++ (u32 <$> l).
Proof.
  intros Hl. revert acc fuel. induction Hl as [|v l Hv Hl IH]; intros acc [|fuel] Hf; cbn [Datatypes.length] in Hf; try lia.
  { cbn. by rewrite app_nil_r. }
  cbn [fromString_loop foldr split_at_char]. rewrite Ascii.eqb_refl. cbv beta iota.
  rewrite split_field by (apply print_Z_lacks; by left).
  destruct (print_Z_head v) as (c & s & E & Hc). rewrite E, Hc, <-E, atoi_print by done.
  rewrite IH by lia. rewrite fmap_cons. by rewrite <-app_assoc.
Qed.

Lemma length_field s rest : (String.length (field s rest) = String.length s + S (String.length rest))%nat.
Proof.
  induction s as [|c s IH]; [done|]. change (field (String c s) rest) with (String c (field s rest)).
  cbn [String.length]. by rewrite IH.
Qed.

Lemma length_fields l rest :
  (Datatypes.length l <= String.length (foldr (fun v rest => field (print_Z v) rest) rest l))%nat.
Proof.
  induction l as [|v l IH]; [simpl; lia|]. cbn [foldr Datatypes.length]. rewrite length_field. lia.
Qed.

Lemma fromString_toString g g' :
  Datatypes.length (iAttributes g) = IATTR_ALL -> Forall is_i32 (iAttributes g) ->
  Global_fromString (Global_toString g) g'
  = (true, mkGlobal (defaultPort g') (objectBufferSize g') (iAttributes g)).
Proof.
  intros Hlen Hi. unfold Global_fromString, Global_toString. rewrite Ascii.eqb_refl. cbn [negb].
  rewrite fromString_loop_spec; [|done|].
  2: { cbn [String.length]. pose proof (length_fields (iAttributes g) (String SEPARATOR EmptyString)). lia. }
  cbn [app]. rewrite length_fmap, Hlen, Nat.eqb_refl. cbn [negb]. do 2 f_equal.
  rewrite <-list_fmap_compose. clear Hlen. induction Hi as [|v l Hv _ IH]; [done|].
  rewrite fmap_cons, IH. unfold compose. by rewrite i32_u32.
Qed.

(** Other arguments are skipped. *)
Lemma initLocal_other before after ds g :
  Forall (fun arg => arg <> "--eq-listen" /\ arg <> "--co-listen" /\ arg <> "--co-globals")%string before ->
  initLocal_args (before ++ after) ds g = initLocal_args after ds g.
Proof.
  induction 1 as [|arg before (H1 & H2 & H3) _ IH]; [done|]. cbn [app initLocal_args].
  by rewrite (proj2 (String.eqb_neq _ _) H1), (proj2 (String.eqb_neq _ _) H2), (proj2 (String.eqb_neq _ _) H3).
Qed.

(** A prefix before the attributes, numbers with a tail and a missing end are
    accepted. *)
Lemma fromString_lenient g :
  (Global_fromString "#x#1#2y#3#4#5#6#7#8#9#10#11#12#13#14#15#16#17#18#19#20#21#" g).1 = true.
Proof. by vm_compute. Qed.

(** ** Properties *)

(** Global attributes survive the command line.  Whatever the attributes of a
    process are, a process that is started with their text as its --co-globals
    option has the same attributes and keeps its own port and buffer size,
    wherever among other options the option is given; a text that does not have
    all of the attributes changes nothing. *)
Theorem globals_passed_on before after ds g g' :
  Datatypes.length (iAttributes g) = IATTR_ALL -> Forall is_i32 (iAttributes g) ->
  Forall (fun arg => arg <> "--eq-listen" /\ arg <> "--co-listen" /\ arg <> "--co-globals")%string (before ++ after) ->
  initLocal_args (before ++ ["--co-globals"%string; Global_toString g] ++ after) ds g'
  = (ds, mkGlobal (defaultPort g') (objectBufferSize g') (iAttributes g)) /\
  forall data, (Global_fromString data g').1 = false -> (Global_fromString data g').2 = g'.
Proof.
  intros Hlen Hi Hargs. apply Forall_app in Hargs as [Hb Ha]. split.
  - rewrite initLocal_other by done. cbn [app initLocal_args]. cbn [String.eqb Ascii.eqb Bool.eqb andb orb].
    change (dash (Global_toString g)) with false. cbv iota. rewrite fromString_toString by done. cbn [snd].
    rewrite <-(app_nil_r after). by rewrite initLocal_other.
  - intros data. unfold Global_fromString. destruct data as [|c data]; [done|].
    destruct (negb _); [done|]. by destruct (negb _).
Qed.

Definition sample_global : Global := setIAttribute IATTR_ROBUSTNESS 0 (setIAttribute 0 (-7) (Global_init None (Some "5000"%string))).

Lemma globals_passed_on_witness :
  Global_getTimeout (Global_init None None) = 300000 /\
  initLocal_args (["app"%string] ++ ["--co-globals"%string; Global_toString sample_global] ++ ["-v"%string])
    [] (Global_init None None) = ([], mkGlobal 0 60000 (iAttributes sample_global)).
Proof.
  split; [by vm_compute|].
  apply (globals_passed_on ["app"%string] ["-v"%string] []
    sample_global (Global_init None None)).
  - done.
  - assert (iAttributes sample_global = [-7; 100; 100; 10; 1; 5; 20; 3; 64; 5; 65000; 524288; 1; 1; 8; 512; 5000; 0;
      5000; 1023; 0]) as -> by (by vm_compute). unfold is_i32. repeat (apply Forall_cons_2; [lia|]). apply Forall_nil_2.
  - by repeat constructor.
Defined.
