(* ===== verification/Posix.v ===== *)
(** * The system calls of the connections on file descriptors

    The calls fdConnection.cpp and pipeConnection.cpp make, as an interface: the
    operations, a view of what they are about (which end of which pipe a
    descriptor is, what is in a pipe and what was ever put into it), and the
    documented behaviour of the calls on this view.  Every call may fail at any
    time, and reads and writes may move less than they are asked to.  A kernel
    with scripted transfers implements it. *)

From S2P Require Import Prelude Bytes DataOStream.

Inductive Errno := EINTR | EAGAIN | EWOULDBLOCK | EOTHER (code : Z).
Inductive Sys (A : Type) := SysOk (a : A) | SysErr (e : Errno).
Arguments SysOk {A} a.
Arguments SysErr {A} e.

Inductive PollEvent := POLLIN | POLLOUT.

(** An empty result of [sys_read] is the end of the file.  [sys_poll] returns the
    number of descriptors that are ready, 0 after a timeout, or -1. *)
Class Posix (K : Type) := {
  sys_read : Z -> Z -> K -> Sys bytes * K;
  sys_write : Z -> bytes -> K -> Sys Z * K;
  sys_poll : Z -> PollEvent -> Z -> K -> Z * K;
  sys_pipe : K -> option (Z * Z) * K;
  sys_close : Z -> K -> K;
}.

Inductive FdEnd := ReadEnd (p : nat) | WriteEnd (p : nat) | OtherFile.

#[export] Instance FdEnd_eq_dec : EqDecision FdEnd.
Proof. solve_decision. Defined.

(** What an open descriptor is, the bytes in a pipe, and all bytes that were ever
    written to it. *)
Class PosixView (K : Type) := {
  fd_end : K -> Z -> option FdEnd;
  pipe_data : K -> nat -> bytes;
  pipe_put : K -> nat -> bytes;
}.

(** [k'] differs from [k] at most in pipe [p]. *)
Definition same_but {K} `{PosixView K} (p : option nat) (k k' : K) : Prop :=
  (forall fd, fd_end k' fd = fd_end k fd) /\
  forall q, Some q <> p -> pipe_data k' q = pipe_data k q /\ pipe_put k' q = pipe_put k q.

Class PosixOk (K : Type) `{Posix K, PosixView K} : Prop := {
  read_ok fd n k data k' p :
    sys_read fd n k = (SysOk data, k') -> fd_end k fd = Some (ReadEnd p) ->
    pipe_data k p = data ++ pipe_data k' p /\ size_of data <= Z.max 0 n /\ pipe_put k' p = pipe_put k p /\
    same_but (Some p) k k';
  read_err fd n k e k' : sys_read fd n k = (SysErr e, k') -> same_but None k k';
  write_ok fd data k n k' p :
    sys_write fd data k = (SysOk n, k') -> fd_end k fd = Some (WriteEnd p) ->
    0 <= n <= size_of data /\ pipe_data k' p = pipe_data k p ++ take (Z.to_nat n) data /\
    pipe_put k' p = pipe_put k p ++ take (Z.to_nat n) data /\ same_but (Some p) k k';
  write_err fd data k e k' : sys_write fd data k = (SysErr e, k') -> same_but None k k';
  poll_same fd ev timeout k res k' : sys_poll fd ev timeout k = (res, k') -> same_but None k k';
  pipe_ok k r w k' :
    sys_pipe k = (Some (r, w), k') -> exists p,
    0 <= r /\ 0 <= w /\ r <> w /\ fd_end k r = None /\ fd_end k w = None /\
    (forall fd, fd_end k fd <> Some (ReadEnd p) /\ fd_end k fd <> Some (WriteEnd p)) /\
    (forall fd, fd_end k' fd =
       if fd =? r then Some (ReadEnd p) else if fd =? w then Some (WriteEnd p) else fd_end k fd) /\
    pipe_data k' p = [] /\ pipe_put k' p = [] /\
    forall q, q <> p -> pipe_data k' q = pipe_data k q /\ pipe_put k' q = pipe_put k q;
  pipe_err k k' : sys_pipe k = (None, k') -> same_but None k k';
  close_end fd k fd' : fd_end (sys_close fd k) fd' = if fd' =? fd then None else fd_end k fd';
  close_put fd k p : pipe_put (sys_close fd k) p = pipe_put k p;
  close_data fd k p : fd_end k fd <> Some (ReadEnd p) -> pipe_data (sys_close fd k) p = pipe_data k p;
}.

(** Reads of data that is there are not interrupted. *)
Class PosixReliable (K : Type) `{Posix K, PosixView K} : Prop := {
  read_delivers fd n k p :
    fd_end k fd = Some (ReadEnd p) -> 0 < n -> pipe_data k p <> [] ->
    exists data k', sys_read fd n k = (SysOk data, k') /\ data <> [];
}.

Section same.

Context {K} `{!PosixView K}.

#[export] Instance same_but_refl p : Reflexive (same_but (K := K) p).
Proof. by intros k. Qed.

#[export] Instance same_but_trans p : Transitive (same_but (K := K) p).
Proof.
  intros k1 k2 k3 [H1 H2] [H3 H4]. split; [intros; by rewrite H3|].
  intros q Hq. destruct (H2 q Hq), (H4 q Hq). by split; etrans.
Qed.

Lemma same_but_weaken p (k k' : K) : same_but None k k' -> same_but p k k'.
Proof. intros [H1 H2]. split; [done|]. intros q _. by apply H2. Qed.

Lemma same_none_data (k k' : K) p : same_but None k k' -> pipe_data k' p = pipe_data k p.
Proof. intros [_ H]. by apply H. Qed.
Lemma same_none_put (k k' : K) p : same_but None k k' -> pipe_put k' p = pipe_put k p.
Proof. intros [_ H]. by apply H. Qed.

End same.

(** ** A kernel *)

(** The descriptors that are in use, the pipes with what is in them and what was
    put into them, and for the next transfers what they do: move all but so many
    bytes, or fail, if the kernel is faulty. *)
Record Kernel := mkKernel {
  kn_fds : gmap Z FdEnd;
  kn_pipes : gmap nat (bytes * bytes);
  kn_script : list (nat + Errno);
  kn_maxFds : Z;
}.

Definition kn_pipe (k : Kernel) (p : nat) : bytes * bytes := default ([], []) (kn_pipes k !! p).
Definition kn_next (k : Kernel) : Kernel := mkKernel (kn_fds k) (kn_pipes k) (tl (kn_script k)) (kn_maxFds k).
Definition kn_set_pipe (p : nat) (v : bytes * bytes) (k : Kernel) : Kernel :=
  mkKernel (kn_fds k) (<[p := v]> (kn_pipes k)) (kn_script k) (kn_maxFds k).

(** How much of [n] the next transfer moves: at least one byte, if there is one. *)
Definition kn_moves (k : Kernel) (n : nat) : nat :=
  match kn_script k with inl less :: _ => Nat.max (Nat.min 1 n) (n - less) | _ => n end.
Definition kn_fails (faulty : bool) (k : Kernel) : option Errno :=
  match kn_script k with inr e :: _ => if faulty then Some e else None | _ => None end.

(** The lowest descriptor that is not in use. *)
Definition kn_free (fds : gmap Z FdEnd) : Z :=
  hd 0 (filter (fun fd => fds !! fd = None) (seqZ 0 (Z.of_nat (size fds) + 1))).

Definition kn_read (faulty : bool) (fd n : Z) (k : Kernel) : Sys bytes * Kernel :=
  match kn_fds k !! fd with
  | Some (ReadEnd p) =>
      match kn_fails faulty k with
      | Some e => (SysErr e, kn_next k)
      | None =>
          let '(data, put) := kn_pipe k p in
          let m := kn_moves k (Nat.min (Z.to_nat n) (length data)) in
          match data with
          | [] => (if bool_decide (map_Forall (fun _ e => e <> WriteEnd p) (kn_fds k)) then SysOk [] else SysErr EAGAIN, kn_next k)
          | _ => (SysOk (take m data), kn_set_pipe p (drop m data, put) (kn_next k))
          end
      end
  | _ => (SysErr (EOTHER 9), k)
  end.

Definition kn_write (faulty : bool) (fd : Z) (data : bytes) (k : Kernel) : Sys Z * Kernel :=
  match kn_fds k !! fd with
  | Some (WriteEnd p) =>
      match kn_fails faulty k with
      | Some e => (SysErr e, kn_next k)
      | None =>
          let m := kn_moves k (length data) in
          let '(old, put) := kn_pipe k p in
          (SysOk (Z.of_nat m), kn_set_pipe p (old ++ take m data, put ++ take m data) (kn_next k))
      end
  | _ => (SysErr (EOTHER 9), k)
  end.

Definition end_pipe (e : FdEnd) : nat := match e with ReadEnd p | WriteEnd p => p | OtherFile => 0 end.
Definition kn_fresh (k : Kernel) : nat :=
  base.fresh (dom (kn_pipes k) ∪ list_to_set ((end_pipe ∘ snd) <$> map_to_list (kn_fds k)) : gset nat).

Definition kn_sys_pipe (k : Kernel) : option (Z * Z) * Kernel :=
  let p := kn_fresh k in
  let r := kn_free (kn_fds k) in
  let fds := <[r := ReadEnd p]> (kn_fds k) in
  let w := kn_free fds in
  if kn_maxFds k <=? w then (None, k)
  else (Some (r, w), mkKernel (<[w := WriteEnd p]> fds) (<[p := ([], [])]> (kn_pipes k)) (kn_script k) (kn_maxFds k)).

(** A descriptor is ready if a transfer would not block; the timeout passes
    otherwise. *)
Definition kn_poll (fd : Z) (ev : PollEvent) (timeout : Z) (k : Kernel) : Z * Kernel :=
  match kn_fds k !! fd, ev with
  | Some (ReadEnd p), POLLIN => (if bool_decide ((kn_pipe k p).1 = []) then 0 else 1, k)
  | Some (WriteEnd p), POLLOUT => (1, k)
  | _, _ => (-1, k)
  end.

#[export] Instance Kernel_Posix_ (faulty : bool) : Posix Kernel := {
  sys_read := kn_read faulty;
  sys_write := kn_write faulty;
  sys_poll := kn_poll;
  sys_pipe := kn_sys_pipe;
  sys_close fd k := mkKernel (delete fd (kn_fds k)) (kn_pipes k) (kn_script k) (kn_maxFds k);
}.

#[export] Instance Kernel_View : PosixView Kernel := {
  fd_end k fd := kn_fds k !! fd;
  pipe_data k p := (kn_pipe k p).1;
  pipe_put k p := (kn_pipe k p).2;
}.

Lemma kn_free_spec fds : 0 <= kn_free fds /\ fds !! kn_free fds = None.
Proof.
  unfold kn_free. destruct (filter _ _) as [|fd l] eqn:E.
  - exfalso. assert ((list_to_set (seqZ 0 (Z.of_nat (size fds) + 1)) : gset Z) ⊆ dom fds) as Hsub.
    { intros fd Hfd%elem_of_list_to_set. apply elem_of_dom. destruct (fds !! fd) eqn:Efd; [by eexists|].
      exfalso. assert (fd ∈ filter (fun fd => fds !! fd = None) (seqZ 0 (Z.of_nat (size fds) + 1))) as Hin
        by (by apply list_elem_of_filter). rewrite E in Hin. set_solver. }
    apply subseteq_size in Hsub. rewrite size_list_to_set, size_dom, length_seqZ in Hsub by apply NoDup_seqZ. lia.
  - cbn. assert (fd ∈ filter (fun fd => fds !! fd = None) (seqZ 0 (Z.of_nat (size fds) + 1))) as Hin
      by (rewrite E; set_solver). apply list_elem_of_filter in Hin as [Hn Hin%elem_of_seqZ]. split; [lia|done].
Qed.

Lemma kn_fresh_spec k :
  kn_pipes k !! kn_fresh k = None /\
  forall fd, kn_fds k !! fd <> Some (ReadEnd (kn_fresh k)) /\ kn_fds k !! fd <> Some (WriteEnd (kn_fresh k)).
Proof.
  unfold kn_fresh. match goal with |- context [base.fresh ?X] => pose proof (is_fresh X) as Hf; set (p := base.fresh X) in * end.
  apply not_elem_of_union in Hf as [H1 H2]. split; [by apply not_elem_of_dom|].
  assert (forall fd e, kn_fds k !! fd = Some e -> end_pipe e <> p) as Hne.
  { intros fd e He Hp. apply H2, elem_of_list_to_set, list_elem_of_fmap. exists (fd, e). split; [done|].
    by apply elem_of_map_to_list. }
  intros fd. split; intros He; by apply (Hne _ _ He).
Qed.

Lemma kn_pipe_set p v k q : kn_pipe (kn_set_pipe p v k) q = if decide (q = p) then v else kn_pipe k q.
Proof. unfold kn_pipe, kn_set_pipe. cbn. case_decide; simplify_map_eq; done. Qed.

Lemma kn_set_same p v k : same_but (Some p) k (kn_set_pipe p v (kn_next k)).
Proof. split; [done|]. intros q Hq. cbn. rewrite kn_pipe_set, decide_False by congruence. done. Qed.

Lemma kn_moves_le k n : (kn_moves k n <= n)%nat.
Proof. unfold kn_moves. destruct (kn_script k) as [|[less|e] l]; lia. Qed.

Lemma kn_read_spec faulty fd n k p res k' :
  kn_read faulty fd n k = (res, k') -> kn_fds k !! fd = Some (ReadEnd p) ->
  match res with
  | SysOk data => exists rest put, kn_pipe k p = (data ++ rest, put) /\ size_of data <= Z.max 0 n /\
      (k' = kn_set_pipe p (rest, put) (kn_next k) \/ data = [] /\ k' = kn_next k)
  | SysErr _ => same_but None k k'
  end.
Proof.
  unfold kn_read. intros E Hfd. rewrite Hfd in E. destruct (kn_fails faulty k); [by simplify_eq/=|].
  destruct (kn_pipe k p) as [data put]. destruct data as [|x data].
  - injection E as <- <-. case_bool_decide; [|done]. exists [], put. split_and!; [done|unfold size_of; cbn; lia|by right].
  - injection E as <- <-. set (m := kn_moves _ _). pose proof (kn_moves_le k _ : (m <= _)%nat) as Hm. exists (drop m (x :: data)), put. rewrite take_drop. split_and!; [done| |by left].
    unfold size_of. rewrite length_take. lia.
Qed.

Lemma Kernel_Ok faulty : PosixOk Kernel (H := Kernel_Posix_ faulty).
Proof.
  split; cbn.
  - intros fd n k data k' p E Hfd. destruct (kn_read_spec _ _ _ _ _ _ _ E Hfd) as (rest & put & Hp & Hn & [->|[-> ->]]).
    + rewrite !kn_pipe_set, !decide_True, Hp by done. split_and!; [done|done|done|apply kn_set_same].
    + by split_and!.
  - intros fd n k e k' E. destruct (kn_fds k !! fd) as [[p|p|]|] eqn:Hfd;
      [by apply (kn_read_spec _ _ _ _ p _ _ E)|unfold kn_read in E; rewrite Hfd in E; by simplify_eq..].
  - intros fd data k n k' p E Hfd. unfold kn_write in E. rewrite Hfd in E. destruct (kn_fails faulty k); [done|].
    destruct (kn_pipe k p) as [old put] eqn:Ep. injection E as <- <-. pose proof (kn_moves_le k (length data)).
    rewrite !kn_pipe_set, !decide_True, Nat2Z.id by done. unfold size_of. split_and!; [lia|lia|done|done|apply kn_set_same].
  - intros fd data k e k' E. unfold kn_write in E. destruct (kn_fds k !! fd) as [[p|p|]|]; [by simplify_eq| |by simplify_eq..].
    destruct (kn_fails faulty k); [by simplify_eq|]. by destruct (kn_pipe k p).
  - intros fd ev timeout k res k'. unfold kn_poll. destruct (kn_fds k !! fd) as [[p|p|]|], ev; by intros [= <- <-].
  - intros k r w k'. unfold kn_sys_pipe. set (p := kn_fresh k). case_match; [done|]. intros [= Hr Hw <-].
    destruct (kn_free_spec (kn_fds k)) as [Hr0 Hrn]. destruct (kn_free_spec (<[kn_free (kn_fds k) := ReadEnd p]> (kn_fds k))) as [Hw0 Hwn].
    rewrite Hr in *. rewrite Hw in *. apply lookup_insert_None in Hwn as [Hwn Hne].
    destruct (kn_fresh_spec k) as [Hp1 Hp2]. exists p. split_and!; try done.
    + intros fd. cbn. destruct (Z.eqb_spec fd r) as [->|]; [by rewrite lookup_insert_ne, lookup_insert_eq|].
      destruct (Z.eqb_spec fd w) as [->|]; [by rewrite lookup_insert_eq|]. by rewrite !lookup_insert_ne.
    + unfold kn_pipe. cbn. by rewrite lookup_insert_eq.
    + unfold kn_pipe. cbn. by rewrite lookup_insert_eq.
    + intros q Hq. unfold kn_pipe. cbn. by rewrite lookup_insert_ne.
  - intros k k'. unfold kn_sys_pipe. case_match; [|done]. by intros [= <-].
  - intros fd k fd'. destruct (Z.eqb_spec fd' fd) as [->|]; [apply lookup_delete_eq|by apply lookup_delete_ne].
  - done.
  - done.
Qed.

Lemma Kernel_Reliable : PosixReliable Kernel (H := Kernel_Posix_ false).
Proof.
  split. intros fd n k p Hfd Hn Hd. cbn in *. unfold kn_read. rewrite Hfd.
  assert (kn_fails false k = None) as -> by (unfold kn_fails; by destruct (kn_script k) as [|[]]).
  destruct (kn_pipe k p) as [[|x data] put]; [done|]. eexists _, _. split; [done|].
  assert (1 <= kn_moves k (Nat.min (Z.to_nat n) (length (x :: data))))%nat as Hm.
  { unfold kn_moves. cbn [length]. destruct (kn_script k) as [|[less|e] l]; lia. }
  by destruct (kn_moves _ _); [lia|].
Qed.
