(* ===== verification/PipeConnection.v ===== *)
(** * Connections on pipes (fdConnection.cpp, pipeConnection.cpp, POSIX branch)

    A pipe connection is one of two siblings, which are connected by two pipes.
    Connections are objects that refer to each other, so the operations work on
    the objects of a process and its kernel.  A pair of siblings implements the
    interface of transports (Connection), by the laws of the system calls. *)

From S2P Require Import Prelude Bytes DataOStream BufferCache Connection Global Posix.

(** ** The objects *)

(** [Connection] and [FDConnection] members, then those of [PipeConnection];
    connections and listeners are named by their addresses. *)
Record PipeConnection := mkPipe {
  pc_state : ConnState;
  pc_listeners : list Z;
  pc_readFD : Z;
  pc_writeFD : Z;
  pc_sibling : option Z;
  pc_connected : bool;
}.

Definition PipeConnection_init : PipeConnection := mkPipe STATE_CLOSED [] 0 0 None false.

Definition set_pc_state (s : ConnState) (c : PipeConnection) : PipeConnection :=
  mkPipe s (pc_listeners c) (pc_readFD c) (pc_writeFD c) (pc_sibling c) (pc_connected c).
Definition set_pc_listeners (l : list Z) (c : PipeConnection) : PipeConnection :=
  mkPipe (pc_state c) l (pc_readFD c) (pc_writeFD c) (pc_sibling c) (pc_connected c).
Definition set_pc_readFD (fd : Z) (c : PipeConnection) : PipeConnection :=
  mkPipe (pc_state c) (pc_listeners c) fd (pc_writeFD c) (pc_sibling c) (pc_connected c).
Definition set_pc_writeFD (fd : Z) (c : PipeConnection) : PipeConnection :=
  mkPipe (pc_state c) (pc_listeners c) (pc_readFD c) fd (pc_sibling c) (pc_connected c).
Definition set_pc_sibling (s : option Z) (c : PipeConnection) : PipeConnection :=
  mkPipe (pc_state c) (pc_listeners c) (pc_readFD c) (pc_writeFD c) s (pc_connected c).
Definition set_pc_connected (b : bool) (c : PipeConnection) : PipeConnection :=
  mkPipe (pc_state c) (pc_listeners c) (pc_readFD c) (pc_writeFD c) (pc_sibling c) b.

(** [w_next] is the address [new] returns next; [w_fired] are the calls of
    [notifyStateChanged]: the listener, the connection and its state. *)
Record World (K : Type) := mkWorld {
  w_kernel : K;
  w_conns : gmap Z PipeConnection;
  w_next : Z;
  w_fired : list (Z * Z * ConnState);
}.
Arguments mkWorld {K}.
Arguments w_kernel {K}.
Arguments w_conns {K}.
Arguments w_next {K}.
Arguments w_fired {K}.

Section pipes.

Context {K : Type} `{!Posix K}.
Implicit Types w : World K.

Definition getc (c : Z) w : PipeConnection := default PipeConnection_init (w_conns w !! c).
Definition upd (c : Z) (f : PipeConnection -> PipeConnection) w : World K :=
  mkWorld (w_kernel w) (<[c := f (getc c w)]> (w_conns w)) (w_next w) (w_fired w).
Definition set_kernel (k : K) w : World K := mkWorld k (w_conns w) (w_next w) (w_fired w).

Definition stateOf (c : Z) w : ConnState := pc_state (getc c w).
Definition isClosed (c : Z) w : bool := bool_decide (stateOf c w = STATE_CLOSED).
Definition isConnected (c : Z) w : bool := bool_decide (stateOf c w = STATE_CONNECTED).

(** *** Listeners *)

Definition addListener (c l : Z) w : World K := upd c (fun pc => set_pc_listeners (pc_listeners pc ++ [l]) pc) w.

(** The first occurrence is erased. *)
Fixpoint erase_listener (l : Z) (ls : list Z) : list Z :=
  match ls with
  | [] => []
  | x :: ls => if x =? l then ls else x :: erase_listener l ls
  end.
Definition removeListener (c l : Z) w : World K := upd c (fun pc => set_pc_listeners (erase_listener l (pc_listeners pc)) pc) w.

Definition fireStateChanged (c : Z) w : World K :=
  mkWorld (w_kernel w) (w_conns w) (w_next w)
    (w_fired w ++ ((fun l => (l, c, stateOf c w)) <$> pc_listeners (getc c w))).

Definition _setState (c : Z) (s : ConnState) w : World K :=
  if bool_decide (stateOf c w = s) then w else fireStateChanged c (upd c (set_pc_state s) w).

(** *** PipeConnection *)

Definition close_writeFD (c : Z) w : World K :=
  if pc_writeFD (getc c w) >? 0 then
    upd c (set_pc_writeFD 0) (set_kernel (sys_close (pc_writeFD (getc c w)) (w_kernel w)) w)
  else w.
Definition close_readFD (c : Z) w : World K :=
  if pc_readFD (getc c w) >? 0 then
    upd c (set_pc_readFD 0) (set_kernel (sys_close (pc_readFD (getc c w)) (w_kernel w)) w)
  else w.

Definition _close (c : Z) w : World K :=
  if isClosed c w then w
  else
    let w := close_readFD c (close_writeFD c w) in
    let w := upd c (set_pc_connected false) w in
    upd c (set_pc_sibling None) (_setState c STATE_CLOSED w).

(** The sibling is [s].  The two calls of [pipe]. *)
Definition _createPipes (c s : Z) w : bool * World K :=
  match sys_pipe (w_kernel w) with
  | (None, k) => (false, _close c (set_kernel k w))
  | (Some (rd, wr), k) =>
      let w := upd s (set_pc_writeFD wr) (upd c (set_pc_readFD rd) (set_kernel k w)) in
      match sys_pipe (w_kernel w) with
      | (None, k) => (false, _close c (set_kernel k w))
      | (Some (rd, wr), k) =>
          (true, upd c (set_pc_writeFD wr) (upd s (set_pc_readFD rd) (set_kernel k w)))
      end
  end.

(** [new PipeConnection] *)
Definition new_pipe w : Z * World K :=
  (w_next w, mkWorld (w_kernel w) (<[w_next w := PipeConnection_init]> (w_conns w)) (w_next w + 1) (w_fired w)).

(** [connect] up to [_createPipes]: the address of the sibling. *)
Definition connect_begin (c : Z) w : Z * World K :=
  let '(s, w) := new_pipe (_setState c STATE_CONNECTING w) in
  (s, upd s (set_pc_sibling (Some c)) (upd c (set_pc_sibling (Some s)) w)).

Definition connect (c : Z) w : bool * World K :=
  if negb (isClosed c w) then (false, w)
  else
    let '(s, w) := connect_begin c w in
    let '(ok, w) := _createPipes c s w in
    if negb ok then (false, _close c w)
    else
      let w := _setState s STATE_CONNECTED (_setState c STATE_CONNECTED w) in
      (true, upd c (set_pc_connected true) w).

(** [None] while it waits. *)
Definition acceptSync (c : Z) w : option (option Z) :=
  if pc_connected (getc c w) then Some (pc_sibling (getc c w)) else None.

(** [Connection::operator ==] on a pipe connection. *)
Definition Connection_eq (c rhs : Z) w : option bool :=
  if c =? rhs then Some true
  else s ← acceptSync c w; Some (bool_decide (s = Some rhs)).

(** *** FDConnection *)

Context (globals : Global).

Definition _getTimeOut : Z :=
  let timeout := Global_getTimeout globals in
  if timeout =? LB_TIMEOUT_INDEFINITE then -1 else i32 timeout.

(** What follows the reads: [res] is what the last one returned. *)
Definition read_result (c : Z) (res : Sys bytes) w : ReadResult * World K :=
  match res with
  | SysOk [] => (RError, _close c w)
  | SysOk data => (RData data, w)
  | SysErr EINTR => (RData [], w)
  | SysErr _ => (RError, w)
  end.

Definition FDConnection_readSync (c nbytes : Z) w : ReadResult * World K :=
  let fd := pc_readFD (getc c w) in
  if fd <? 1 then (RError, w)
  else
    let '(res, k) := sys_read fd nbytes (w_kernel w) in
    let w := set_kernel k w in
    match res with
    | SysOk (_ :: _) | SysErr EINTR | SysErr (EOTHER _) => read_result c res w
    | SysOk [] | SysErr EWOULDBLOCK | SysErr EAGAIN =>
        let '(ready, k) := sys_poll fd POLLIN _getTimeOut (w_kernel w) in
        let w := set_kernel k w in
        if ready <? 0 then (RError, w)
        else if ready =? 0 then (RThrow, w)
        else
          let '(res, k) := sys_read fd nbytes (w_kernel w) in
          read_result c res (set_kernel k w)
    end.

Definition write_result (res : Sys Z) w : WriteResult * World K :=
  match res with
  | SysOk n => (WWrote n, w)
  | SysErr EINTR => (WWrote 0, w)
  | SysErr _ => (WError, w)
  end.

Definition FDConnection_write (c : Z) (data : bytes) w : WriteResult * World K :=
  let fd := pc_writeFD (getc c w) in
  if negb (isConnected c w) || (fd <? 1) then (WError, w)
  else
    let '(res, k) := sys_write fd data (w_kernel w) in
    let w := set_kernel k w in
    let retry :=
      match res with
      | SysOk n => n =? 0
      | SysErr EWOULDBLOCK | SysErr EAGAIN => true
      | SysErr _ => false
      end in
    if retry then
      let '(ready, k) := sys_poll fd POLLOUT _getTimeOut (w_kernel w) in
      let w := set_kernel k w in
      if ready <? 0 then (WError, w)
      else if ready =? 0 then (WThrow, w)
      else
        let '(res, k) := sys_write fd data (w_kernel w) in
        write_result res (set_kernel k w)
    else write_result res w.

End pipes.

(** ** Lemmas *)

Section objects.

Context {K : Type} `{!Posix K}.
Implicit Types w : World K.

Lemma getc_upd c f w c' : getc c' (upd c f w) = if c' =? c then f (getc c w) else getc c' w.
Proof.
  unfold getc, upd. cbn. destruct (Z.eqb_spec c' c) as [->|]; [by rewrite lookup_insert_eq|by rewrite lookup_insert_ne].
Qed.

Lemma getc_kernel c k w : getc c (set_kernel k w) = getc c w.
Proof. done. Qed.

Lemma getc_setState c s w c' : getc c' (_setState c s w) = if c' =? c then set_pc_state s (getc c w) else getc c' w.
Proof.
  unfold _setState, stateOf. case_bool_decide as E; [|apply getc_upd].
  destruct (Z.eqb_spec c' c) as [->|]; [|done]. subst s. by destruct (getc c w).
Qed.

Lemma kernel_setState c s w : w_kernel (_setState c s w) = w_kernel w.
Proof. unfold _setState. by case_bool_decide. Qed.

(** Closing a descriptor that may not be open. *)
Definition close_fd (fd : Z) (k : K) : K := if fd >? 0 then sys_close fd k else k.

Lemma getc_close_writeFD c w c' :
  getc c' (close_writeFD c w) = if c' =? c then set_pc_writeFD (Z.min 0 (pc_writeFD (getc c w))) (getc c w) else getc c' w.
Proof.
  unfold close_writeFD. destruct (Z.gtb_spec (pc_writeFD (getc c w)) 0).
  - rewrite getc_upd. by rewrite Z.min_l by lia.
  - destruct (Z.eqb_spec c' c) as [->|]; [|done]. rewrite Z.min_r by lia. by destruct (getc c w).
Qed.

Lemma getc_close_readFD c w c' :
  getc c' (close_readFD c w) = if c' =? c then set_pc_readFD (Z.min 0 (pc_readFD (getc c w))) (getc c w) else getc c' w.
Proof.
  unfold close_readFD. destruct (Z.gtb_spec (pc_readFD (getc c w)) 0).
  - rewrite getc_upd. by rewrite Z.min_l by lia.
  - destruct (Z.eqb_spec c' c) as [->|]; [|done]. rewrite Z.min_r by lia. by destruct (getc c w).
Qed.

Lemma kernel_close_writeFD c w : w_kernel (close_writeFD c w) = close_fd (pc_writeFD (getc c w)) (w_kernel w).
Proof. unfold close_writeFD, close_fd. by destruct (_ >? _). Qed.
Lemma kernel_close_readFD c w : w_kernel (close_readFD c w) = close_fd (pc_readFD (getc c w)) (w_kernel w).
Proof. unfold close_readFD, close_fd. by destruct (_ >? _). Qed.

Lemma kernel_close c w :
  w_kernel (_close c w) = if isClosed c w then w_kernel w
    else close_fd (pc_readFD (getc c w)) (close_fd (pc_writeFD (getc c w)) (w_kernel w)).
Proof.
  unfold _close. destruct (isClosed c w); [done|]. cbn [upd w_kernel]. rewrite kernel_setState. cbn [upd w_kernel].
  by rewrite kernel_close_readFD, kernel_close_writeFD, getc_close_writeFD, Z.eqb_refl.
Qed.

Lemma getc_close c w c' :
  getc c' (_close c w) = if (c' =? c) && negb (isClosed c w) then
      mkPipe STATE_CLOSED (pc_listeners (getc c w)) (Z.min 0 (pc_readFD (getc c w))) (Z.min 0 (pc_writeFD (getc c w))) None false
    else getc c' w.
Proof.
  unfold _close. destruct (isClosed c w); [by rewrite andb_false_r|].
  rewrite andb_true_r, getc_upd, !getc_setState, !getc_upd, !getc_close_readFD, !getc_close_writeFD, !Z.eqb_refl.
  by destruct (c' =? c).
Qed.

End objects.

(** ** A pair of siblings *)

Section pair.

Context {K : Type} `{!Posix K, !PosixView K, !PosixOk K}.
Implicit Types w : World K.

(** What an operation did to the pipe [p]. *)
Definition took (p : nat) (data : bytes) (k k' : K) : Prop :=
  pipe_data k p = data ++ pipe_data k' p /\ pipe_put k' p = pipe_put k p /\ same_but (Some p) k k'.
Definition gave (p : nat) (data : bytes) (k k' : K) : Prop :=
  pipe_data k' p = pipe_data k p ++ data /\ pipe_put k' p = pipe_put k p ++ data /\ same_but (Some p) k k'.

Lemma took_nil p (k k' : K) : took p [] k k' <-> same_but None k k'.
Proof.
  split.
  - intros (H1 & H2 & H3 & H4). split; [done|]. intros q _. destruct (decide (q = p)) as [->|]; [by rewrite H1, H2|].
    apply H4. congruence.
  - intros H. split_and!; [by rewrite (same_none_data k k')|by apply same_none_put|by apply same_but_weaken].
Qed.

Lemma gave_nil p (k k' : K) : same_but None k k' -> gave p [] k k'.
Proof.
  intros H. unfold gave. rewrite !app_nil_r.
  split_and!; [by apply same_none_data|by apply same_none_put|by apply same_but_weaken].
Qed.

Lemma took_after p data (k1 k2 k3 : K) : same_but None k1 k2 -> took p data k2 k3 -> took p data k1 k3.
Proof.
  intros H (H1 & H2 & H3). split_and!.
  - by rewrite <-H1, (same_none_data k1 k2).
  - by rewrite H2, (same_none_put k1 k2).
  - etrans; [by apply same_but_weaken|done].
Qed.

Lemma gave_after p data (k1 k2 k3 : K) : same_but None k1 k2 -> gave p data k2 k3 -> gave p data k1 k3.
Proof.
  intros H (H1 & H2 & H3). split_and!.
  - by rewrite H1, (same_none_data k1 k2).
  - by rewrite H2, (same_none_put k1 k2).
  - etrans; [by apply same_but_weaken|done].
Qed.

(** A connection reads from pipe [p] and writes to pipe [q], while its
    descriptors are open. *)
Definition end_ok (k : K) (pc : PipeConnection) (p q : nat) : Prop :=
  (0 < pc_readFD pc -> fd_end k (pc_readFD pc) = Some (ReadEnd p)) /\
  (0 < pc_writeFD pc -> fd_end k (pc_writeFD pc) = Some (WriteEnd q)) /\
  (pc_state pc = STATE_CONNECTED -> 0 < pc_readFD pc /\ 0 < pc_writeFD pc).

Definition pair_inv (a b : Z) (p q : nat) w : Prop :=
  a <> b /\ p <> q /\ end_ok (w_kernel w) (getc a w) p q /\ end_ok (w_kernel w) (getc b w) q p.

Lemma pair_inv_flip a b p q w : pair_inv a b p q w -> pair_inv b a q p w.
Proof. intros (H1 & H2 & H3 & H4). by split_and!. Qed.

Lemma pair_inv_kernel a b p q w k :
  (forall fd, fd_end k fd = fd_end (w_kernel w) fd) -> pair_inv a b p q w -> pair_inv a b p q (set_kernel k w).
Proof.
  intros H (H1 & H2 & H3 & H4). split_and!; [done..| |]; unfold end_ok; cbn; rewrite !H; done.
Qed.

Lemma close_fd_end fd (k : K) fd' : fd_end (close_fd fd k) fd' = if (fd' =? fd) && (0 <? fd) then None else fd_end k fd'.
Proof.
  unfold close_fd. rewrite Z.gtb_ltb. destruct (0 <? fd); [rewrite close_end, andb_true_r|rewrite andb_false_r]; done.
Qed.

Lemma close_fd_put fd (k : K) p : pipe_put (close_fd fd k) p = pipe_put k p.
Proof. unfold close_fd. case_match; [apply close_put|done]. Qed.

Lemma close_fd_data fd (k : K) p :
  (0 < fd -> fd_end k fd <> Some (ReadEnd p)) -> pipe_data (close_fd fd k) p = pipe_data k p.
Proof. unfold close_fd. intros H. destruct (Z.gtb_spec fd 0); [apply close_data; auto|done]. Qed.

(** Closing one of the siblings leaves the other one and the data for it. *)
Lemma close_pair a b p q w :
  pair_inv a b p q w ->
  pair_inv a b p q (_close a w) /\ getc b (_close a w) = getc b w /\
  pipe_data (w_kernel (_close a w)) q = pipe_data (w_kernel w) q /\
  forall r, pipe_put (w_kernel (_close a w)) r = pipe_put (w_kernel w) r.
Proof.
  intros (Hab & Hpq & (Ha1 & Ha2 & Ha3) & (Hb1 & Hb2 & Hb3)).
  assert (getc b (_close a w) = getc b w) as Eb.
  { rewrite getc_close. by rewrite (proj2 (Z.eqb_neq b a)) by done. }
  assert (forall r, pipe_put (w_kernel (_close a w)) r = pipe_put (w_kernel w) r) as Eput.
  { intros r. rewrite kernel_close. destruct (isClosed a w); [done|]. by rewrite !close_fd_put. }
  destruct (isClosed a w) eqn:Ec.
  { assert (_close a w = w) as -> by (unfold _close; by rewrite Ec). by split_and!. }
  split_and!; try done.
  - split_and!; [done|done|rewrite getc_close, Z.eqb_refl, Ec|rewrite Eb].
    { unfold end_ok. cbn [andb negb pc_readFD pc_writeFD pc_state]. split_and!; [lia|lia|done]. }
    assert (forall fd e, fd_end (w_kernel w) fd = Some e -> e <> ReadEnd p -> e <> WriteEnd q ->
        fd_end (w_kernel (_close a w)) fd = Some e) as Hkeep.
    { intros fd e He He1 He2. rewrite kernel_close, Ec, !close_fd_end.
      repeat case_match; rewrite ?andb_true_iff, ?Z.eqb_eq, ?Z.ltb_lt in *; destruct_and?; subst; [|  |done].
      - rewrite Ha1 in He by done. congruence.
      - rewrite Ha2 in He by done. congruence. }
    split_and!; [intros H; apply Hkeep; [by apply Hb1|congruence..]|intros H; apply Hkeep; [by apply Hb2|congruence..]|done].
  - rewrite kernel_close, Ec, !close_fd_data; [done| |].
    + intros H. rewrite (Ha2 H). congruence.
    + intros H. rewrite close_fd_end. case_match; [done|]. rewrite (Ha1 H). congruence.
Qed.

(** *** Reading and writing *)

Context (globals : Global).

(** What the system calls do to the pipes of a connection, and what the
    connection does. *)
Definition sys_took (p : nat) (n : Z) (k : K) (res : Sys bytes) (k' : K) : Prop :=
  match res with
  | SysOk data => took p data k k' /\ size_of data <= Z.max 0 n
  | SysErr _ => same_but None k k'
  end.
Definition sys_gave (q : nat) (data : bytes) (k : K) (res : Sys Z) (k' : K) : Prop :=
  match res with
  | SysOk n => 0 <= n <= size_of data /\ gave q (take (Z.to_nat n) data) k k'
  | SysErr _ => same_but None k k'
  end.

(** A read takes bytes from the front of the pipe; otherwise it takes nothing, and
    the connection stays or is closed. *)
Definition read_did (a : Z) (p : nat) (n : Z) w (r : ReadResult) w' : Prop :=
  exists k', match r with
  | RData data => w' = set_kernel k' w /\ took p data (w_kernel w) k' /\ size_of data <= Z.max 0 n /\ 0 < pc_readFD (getc a w)
  | _ => same_but None (w_kernel w) k' /\ (w' = set_kernel k' w \/ w' = _close a (set_kernel k' w))
  end.

(** A write puts a prefix of the data at the end of the pipe. *)
Definition write_did (q : nat) (data : bytes) w (r : WriteResult) w' : Prop :=
  exists k', w' = set_kernel k' w /\
  match r with
  | WWrote n => 0 <= n <= size_of data /\ gave q (take (Z.to_nat n) data) (w_kernel w) k'
  | _ => same_but None (w_kernel w) k'
  end.

Lemma sys_read_took fd n (k0 k : K) p res k' :
  same_but None k0 k -> fd_end k0 fd = Some (ReadEnd p) -> sys_read fd n k = (res, k') -> sys_took p n k0 res k'.
Proof.
  intros Hs He E. destruct res as [data|e]; [|cbn; etrans; [done|by eapply read_err]].
  destruct (read_ok _ _ _ _ _ p E) as (H1 & H2 & H3 & H4); [by rewrite (proj1 Hs)|].
  split; [|done]. by eapply took_after; [done|].
Qed.

Lemma sys_write_gave fd data (k0 k : K) q res k' :
  same_but None k0 k -> fd_end k0 fd = Some (WriteEnd q) -> sys_write fd data k = (res, k') -> sys_gave q data k0 res k'.
Proof.
  intros Hs He E. destruct res as [n|e]; [|cbn; etrans; [done|by eapply write_err]].
  destruct (write_ok _ _ _ _ _ q E) as (H1 & H2 & H3 & H4); [by rewrite (proj1 Hs)|].
  split; [done|]. by eapply gave_after; [done|].
Qed.

Lemma gave_zero q (k k' : K) : gave q [] k k' -> same_but None k k'.
Proof.
  intros (H1 & H2 & H3 & H4). rewrite app_nil_r in H1, H2. split; [done|]. intros r _.
  destruct (decide (r = q)) as [->|]; [done|]. apply H4. congruence.
Qed.

Lemma read_result_did a p n w res k r w' :
  sys_took p n (w_kernel w) res k -> 0 < pc_readFD (getc a w) ->
  read_result a res (set_kernel k w) = (r, w') -> read_did a p n w r w'.
Proof.
  intros H Hfd E. exists k. destruct res as [[|x data]|[]]; injection E as <- <-; cbn in H; try by (split; [|left]).
  - destruct H as [H%took_nil _]. by split; [|right].
  - by destruct H.
  - split_and!; [done|by apply took_nil|unfold size_of; cbn; lia|done].
Qed.

Lemma write_result_did q data w res k r w' :
  sys_gave q data (w_kernel w) res k -> write_result res (set_kernel k w) = (r, w') -> write_did q data w r w'.
Proof.
  intros H E. exists k. destruct res as [n|[]]; injection E as <- <-; try done. cbn in H. split; [done|].
  split; [pose proof (size_of_nonneg data); lia|]. by apply gave_nil.
Qed.

(** The poll and what follows it leave the pipes alone. *)
Lemma read_nothing a p n w r k : same_but None (w_kernel w) k -> (forall data, r <> RData data) -> read_did a p n w r (set_kernel k w).
Proof. intros H Hr. exists k. destruct r; [by destruct (Hr data)|..]; by split; [|left]. Qed.

Lemma set_kernel_id w : set_kernel (w_kernel w) w = w.
Proof. by destruct w. Qed.

Lemma fd_read_spec a b p q n w r w' :
  pair_inv a b p q w -> FDConnection_readSync globals a n w = (r, w') -> read_did a p n w r w'.
Proof.
  intros (_ & _ & (Hr & _) & _). unfold FDConnection_readSync. destruct (Z.ltb_spec (pc_readFD (getc a w)) 1) as [Hfd|Hfd].
  { intros [= <- <-]. rewrite <-(set_kernel_id w) at 2. by apply read_nothing. }
  assert (0 < pc_readFD (getc a w)) as Hpos by lia. specialize (Hr Hpos).
  destruct (sys_read _ n (w_kernel w)) as [res k1] eqn:E1. pose proof (sys_read_took _ _ (w_kernel w) _ p _ _ ltac:(done) Hr E1) as H1.
  assert (same_but None (w_kernel w) k1 ->
      (let '(ready, k) := sys_poll (pc_readFD (getc a w)) POLLIN (_getTimeOut globals) k1 in
       if ready <? 0 then (RError, set_kernel k w)
       else if ready =? 0 then (RThrow, set_kernel k w)
       else let '(res, k) := sys_read (pc_readFD (getc a w)) n k in read_result a res (set_kernel k w)) = (r, w') ->
      read_did a p n w r w') as Hpoll.
  { intros Hs. destruct (sys_poll _ _ _ k1) as [ready k2] eqn:Ep. apply poll_same in Ep.
    assert (same_but None (w_kernel w) k2) as Hs2 by (by etrans).
    destruct (ready <? 0); [intros [= <- <-]; by apply read_nothing|].
    destruct (ready =? 0); [intros [= <- <-]; by apply read_nothing|].
    destruct (sys_read _ n k2) as [res' k3] eqn:E3. apply read_result_did; [|done]. by eapply sys_read_took. }
  destruct res as [[|x data]|[]]; try (by apply read_result_did); apply Hpoll; cbn in H1; try done.
  by destruct H1 as [H1%took_nil _].
Qed.

Lemma fd_write_spec a b p q data w r w' :
  pair_inv a b p q w -> FDConnection_write globals a data w = (r, w') -> write_did q data w r w'.
Proof.
  intros (_ & _ & (_ & Hw & _) & _). unfold FDConnection_write.
  destruct (isConnected a w); [|intros [= <- <-]; exists (w_kernel w); by rewrite set_kernel_id].
  destruct (Z.ltb_spec (pc_writeFD (getc a w)) 1) as [Hfd|Hfd]; [intros [= <- <-]; exists (w_kernel w); by rewrite set_kernel_id|].
  specialize (Hw ltac:(lia)). cbn [negb orb].
  destruct (sys_write _ data (w_kernel w)) as [res k1] eqn:E1. pose proof (sys_write_gave _ _ (w_kernel w) _ q _ _ ltac:(done) Hw E1) as H1.
  match goal with |- context [if ?b then _ else _] => destruct b eqn:Eretry end; [|by apply write_result_did].
  assert (same_but None (w_kernel w) k1) as Hs.
  { destruct res as [n|[]]; try done. apply Z.eqb_eq in Eretry as ->. apply (gave_zero q), H1. }
  cbn [set_kernel w_kernel]. destruct (sys_poll _ _ _ k1) as [ready k2] eqn:Ep.
  apply poll_same in Ep. assert (same_but None (w_kernel w) k2) as Hs2 by (by etrans).
  destruct (ready <? 0); [intros [= <- <-]; by exists k2|]. destruct (ready =? 0); [intros [= <- <-]; by exists k2|].
  destruct (sys_write _ data k2) as [res' k3] eqn:E3. apply (write_result_did _ _ w _ k3). by eapply sys_write_gave.
Qed.

(** *** Connecting *)

(** Two calls of [pipe], with the standard input open. *)
Lemma two_pipes (k : K) r1 x1 k1 r2 x2 k2 :
  sys_pipe k = (Some (r1, x1), k1) -> sys_pipe k1 = (Some (r2, x2), k2) -> fd_end k 0 <> None ->
  exists p q, p <> q /\ 0 < r1 /\ 0 < x1 /\ 0 < r2 /\ 0 < x2 /\
    fd_end k2 r1 = Some (ReadEnd p) /\ fd_end k2 x1 = Some (WriteEnd p) /\
    fd_end k2 r2 = Some (ReadEnd q) /\ fd_end k2 x2 = Some (WriteEnd q) /\
    pipe_data k2 p = [] /\ pipe_data k2 q = [] /\ pipe_put k2 p = [] /\ pipe_put k2 q = [].
Proof.
  intros E1 E2 H0.
  apply pipe_ok in E1 as (p & Hr1 & Hx1 & Hrx1 & Hnr1 & Hnx1 & Hfr1 & Hfd1 & Hd1 & Hp1 & Ho1).
  apply pipe_ok in E2 as (q & Hr2 & Hx2 & Hrx2 & Hnr2 & Hnx2 & Hfr2 & Hfd2 & Hd2 & Hp2 & Ho2).
  assert (fd_end k1 r1 = Some (ReadEnd p)) as Er1 by (by rewrite Hfd1, Z.eqb_refl).
  assert (p <> q) as Hpq. { intros ->. by destruct (Hfr2 r1). }
  assert (r1 <> 0 /\ x1 <> 0) as [] by (split; intros ->; done).
  assert (fd_end k1 0 <> None). { rewrite Hfd1. destruct (0 =? r1); [done|]. by destruct (0 =? x1). }
  assert (r2 <> 0 /\ x2 <> 0) as [] by (split; intros ->; done).
  assert (forall fd e, fd_end k1 fd = Some e -> fd_end k2 fd = Some e) as Hkeep.
  { intros fd e He. rewrite Hfd2. destruct (Z.eqb_spec fd r2) as [->|]; [congruence|].
    destruct (Z.eqb_spec fd x2) as [->|]; [congruence|done]. }
  destruct (Ho2 p Hpq) as [Hod Hop]. exists p, q. rewrite Hod, Hop. split_and!; try done; try lia.
  - by apply Hkeep.
  - apply Hkeep. rewrite Hfd1, Z.eqb_refl. by rewrite (proj2 (Z.eqb_neq x1 r1)) by done.
  - by rewrite Hfd2, Z.eqb_refl.
  - rewrite Hfd2, Z.eqb_refl. by rewrite (proj2 (Z.eqb_neq x2 r2)) by done.
Qed.

Lemma createPipes_ok c s w w' :
  _createPipes c s w = (true, w') -> c <> s ->
  exists r1 x1 k1 r2 x2, sys_pipe (w_kernel w) = (Some (r1, x1), k1) /\ sys_pipe k1 = (Some (r2, x2), w_kernel w') /\
    getc c w' = set_pc_writeFD x2 (set_pc_readFD r1 (getc c w)) /\ getc s w' = set_pc_readFD r2 (set_pc_writeFD x1 (getc s w)).
Proof.
  unfold _createPipes. intros E Hne. destruct (sys_pipe (w_kernel w)) as [[[r1 x1]|] k1]; [|done].
  change (w_kernel (upd s _ _)) with k1 in E. destruct (sys_pipe k1) as [[[r2 x2]|] k2] eqn:E2; [|done].
  injection E as <-. exists r1, x1, k1, r2, x2. split_and!; [done|by rewrite E2| |].
  - rewrite getc_upd, Z.eqb_refl, getc_upd, (proj2 (Z.eqb_neq c s)), getc_kernel, getc_upd, (proj2 (Z.eqb_neq c s)) by done.
    by rewrite getc_upd, Z.eqb_refl, getc_kernel.
  - rewrite getc_upd, (proj2 (Z.eqb_neq s c)), getc_upd, Z.eqb_refl, getc_kernel, getc_upd, Z.eqb_refl by done.
    by rewrite getc_upd, (proj2 (Z.eqb_neq s c)), getc_kernel by done.
Qed.

Lemma connect_begin_spec c w s w1 :
  connect_begin c w = (s, w1) -> c <> w_next w ->
  s = w_next w /\ w_kernel w1 = w_kernel w /\ pc_sibling (getc c w1) = Some s /\
  getc s w1 = set_pc_sibling (Some c) PipeConnection_init.
Proof.
  unfold connect_begin, new_pipe. assert (w_next (_setState c STATE_CONNECTING w) = w_next w) as ->
    by (unfold _setState; by case_bool_decide). intros [= <- <-] Hne.
  split_and!; [done|apply kernel_setState| |].
  - by rewrite getc_upd, (proj2 (Z.eqb_neq c _)), getc_upd, Z.eqb_refl by done.
  - rewrite getc_upd, Z.eqb_refl, getc_upd, (proj2 (Z.eqb_neq _ c)) by done. unfold getc. cbn. by rewrite lookup_insert_eq.
Qed.

(** What [connect] leaves if both pipes can be created: the siblings are connected
    and the pipes are empty. *)
Lemma connect_pair c w w' :
  connect c w = (true, w') -> fd_end (w_kernel w) 0 <> None -> c <> w_next w ->
  exists p q, pair_inv c (w_next w) p q w' /\ acceptSync c w' = Some (Some (w_next w)) /\
    stateOf c w' = STATE_CONNECTED /\ stateOf (w_next w) w' = STATE_CONNECTED /\
    pipe_data (w_kernel w') p = [] /\ pipe_data (w_kernel w') q = [] /\
    pipe_put (w_kernel w') p = [] /\ pipe_put (w_kernel w') q = [].
Proof.
  intros E H0 Hne. unfold connect in E. destruct (isClosed c w); [|done]. cbn [negb] in E.
  destruct (connect_begin c w) as [s w0] eqn:E0. apply connect_begin_spec in E0 as (Es & Hk & Hsib & Hnew); [|done].
  rewrite <-Es in *. clear Es. destruct (_createPipes c s w0) as [[] w1] eqn:E1; [|done]. cbn [negb] in E.
  apply createPipes_ok in E1 as (r1 & x1 & k1 & r2 & x2 & Ep1 & Ep2 & Hc & Hs); [|done]. rewrite Hk in Ep1.
  destruct (two_pipes _ _ _ _ _ _ _ Ep1 Ep2 H0) as (p & q & Hpq & Hfds). exists p, q.
  assert (w_kernel w' = w_kernel w1) as Hk'. { injection E as <-. cbn. by rewrite !kernel_setState. }
  assert (getc c w' = set_pc_connected true (set_pc_state STATE_CONNECTED (getc c w1))) as Hc'.
  { injection E as <-. by rewrite getc_upd, Z.eqb_refl, getc_setState, (proj2 (Z.eqb_neq c s)), getc_setState, Z.eqb_refl by done. }
  assert (getc s w' = set_pc_state STATE_CONNECTED (getc s w1)) as Hs'.
  { injection E as <-. by rewrite getc_upd, (proj2 (Z.eqb_neq s c)), getc_setState, Z.eqb_refl, getc_setState, (proj2 (Z.eqb_neq s c)) by done. }
  rewrite Hc in Hc'. rewrite Hs, Hnew in Hs'. unfold pair_inv, end_ok, acceptSync, stateOf. rewrite Hk', Hc', Hs'.
  cbn [pc_readFD pc_writeFD pc_state pc_connected pc_sibling set_pc_connected set_pc_state set_pc_readFD set_pc_writeFD set_pc_sibling].
  rewrite Hsib.
  destruct_and! Hfds. split_and!; try done; intros; try done; lia.
Qed.

(** *** Schedules *)

(** Operations on the siblings, [true] for the one that connected. *)
Inductive Op := OpWrite (side : bool) (data : bytes) | OpRead (side : bool) (n : Z) | OpClose (side : bool).

Section schedule.

Context (a b : Z) (p q : nat).

Definition sideOf (s : bool) : Z := if s then a else b.
Definition inPipe (s : bool) : nat := if s then p else q.

(** What was written and what was read, with the side, and the objects. *)
Definition step_op (op : Op) w : list (bool * bytes) * list (bool * bytes) * World K :=
  match op with
  | OpWrite s data =>
      let '(r, w) := FDConnection_write globals (sideOf s) data w in
      (match r with WWrote n => [(s, take (Z.to_nat n) data)] | _ => [] end, [], w)
  | OpRead s n =>
      let '(r, w) := FDConnection_readSync globals (sideOf s) n w in
      ([], match r with RData data => [(s, data)] | _ => [] end, w)
  | OpClose s => ([], [], _close (sideOf s) w)
  end.

Fixpoint run (ops : list Op) w : list (bool * bytes) * list (bool * bytes) * World K :=
  match ops with
  | [] => ([], [], w)
  | op :: ops =>
      let '(wr, rd, w) := step_op op w in
      let '(wr', rd', w) := run ops w in
      (wr ++ wr', rd ++ rd', w)
  end.

(** The bytes of one side. *)
Definition bytesOf (s : bool) (l : list (bool * bytes)) : bytes :=
  concat (snd <$> filter (fun e => e.1 = s) l).

Lemma bytesOf_app s l l' : bytesOf s (l ++ l') = bytesOf s l ++ bytesOf s l'.
Proof. unfold bytesOf. by rewrite filter_app, fmap_app, concat_app. Qed.

Lemma bytesOf_one s s' data : bytesOf s [(s', data)] = if decide (s' = s) then data else [].
Proof. unfold bytesOf. rewrite filter_cons. cbn. case_decide; cbn; by rewrite ?app_nil_r. Qed.

Definition inv w : Prop := pair_inv a b p q w.

Lemma inv_side s w : inv w -> pair_inv (sideOf s) (sideOf (negb s)) (inPipe s) (inPipe (negb s)) w.
Proof. destruct s; [done|apply pair_inv_flip]. Qed.

Lemma side_inv s w : pair_inv (sideOf s) (sideOf (negb s)) (inPipe s) (inPipe (negb s)) w -> inv w.
Proof. destruct s; [done|apply pair_inv_flip]. Qed.

Definition readable (s : bool) w : bool := 0 <? pc_readFD (getc (sideOf s) w).

(** What a step or a run does for the reader [s]: what it reads and what is left
    in its pipe afterwards is what was there and what the other side wrote; once
    it is closed it reads nothing. *)
Definition flows (w : World K) (wr rd : list (bool * bytes)) (w' : World K) : Prop :=
  inv w' /\ forall s,
    (readable s w = false -> readable s w' = false /\ bytesOf s rd = []) /\
    (readable s w = true -> exists rest,
       bytesOf s rd ++ rest = pipe_data (w_kernel w) (inPipe s) ++ bytesOf (negb s) wr /\
       (readable s w' = true -> rest = pipe_data (w_kernel w') (inPipe s))).

Lemma flows_kernel s wr rd w k :
  inv w -> (forall fd, fd_end k fd = fd_end (w_kernel w) fd) ->
  (forall s, bytesOf s rd ++ pipe_data k (inPipe s) = pipe_data (w_kernel w) (inPipe s) ++ bytesOf (negb s) wr) ->
  (bytesOf (negb s) rd = [] /\ (readable s w = false -> bytesOf s rd = [])) ->
  flows w wr rd (set_kernel k w).
Proof.
  intros Hi Hk Hd [Hr1 Hr2]. split; [by apply pair_inv_kernel|]. intros s'. split.
  - intros H. split; [done|]. destruct s, s'; auto.
  - intros _. exists (pipe_data k (inPipe s')). auto.
Qed.

Lemma flows_close s w w' : inv w -> w' = _close (sideOf s) w -> flows w [] [] w'.
Proof.
  intros Hi ->. destruct (close_pair _ _ _ _ _ (inv_side s w Hi)) as (H1 & H2 & H3 & _).
  split; [by eapply side_inv|].
  assert (forall s', readable s' (_close (sideOf s) w) = true -> readable s' w = true /\
    pipe_data (w_kernel (_close (sideOf s) w)) (inPipe s') = pipe_data (w_kernel w) (inPipe s')) as Hr.
  { intros s' Hr. destruct (decide (s' = negb s)) as [->|Hne].
    - split; [|done]. unfold readable in *. by rewrite H2 in Hr.
    - assert (s' = s) as -> by (by destruct s, s'). unfold readable in Hr. rewrite getc_close, Z.eqb_refl in Hr.
      destruct (isClosed (sideOf s) w) eqn:E; cbn [andb negb pc_readFD] in Hr; [|apply Z.ltb_lt in Hr; lia].
      split; [done|]. by rewrite kernel_close, E. }
  intros s'. split.
  - intros Hf. split; [|done]. destruct (readable s' (_close _ _)) eqn:E; [|done]. apply Hr in E as []. congruence.
  - intros _. exists (pipe_data (w_kernel w) (inPipe s')). split; [by rewrite app_nil_r|]. intros E. symmetry. by apply Hr.
Qed.

Lemma flows_trans w1 wr1 rd1 w2 wr2 rd2 w3 :
  flows w1 wr1 rd1 w2 -> flows w2 wr2 rd2 w3 -> flows w1 (wr1 ++ wr2) (rd1 ++ rd2) w3.
Proof.
  intros [H1 F1] [H2 F2]. split; [done|]. intros s. rewrite !bytesOf_app. destruct (F1 s) as [A1 B1], (F2 s) as [A2 B2]. split.
  - intros Hf. destruct (A1 Hf) as [Hf2 ->]. destruct (A2 Hf2) as [Hf3 ->]. done.
  - intros Ht. destruct (B1 Ht) as (rest & E & Hrest). destruct (readable s w2) eqn:R2.
    + destruct (B2 eq_refl) as (rest' & E' & Hrest'). exists rest'. split; [|done].
      rewrite <-app_assoc, E', <-(Hrest eq_refl), app_assoc, E. by rewrite app_assoc.
    + destruct (A2 eq_refl) as [R3 ->]. rewrite R3. exists (rest ++ bytesOf (negb s) wr2).
      rewrite app_nil_r, app_assoc, E, app_assoc. done.
Qed.

Lemma pipes_differ w : inv w -> p <> q.
Proof. by intros (_ & ? & _). Qed.

Lemma inPipe_ne s w : inv w -> inPipe (negb s) <> inPipe s.
Proof. intros H%pipes_differ. by destruct s; cbn; [apply not_eq_sym|]. Qed.

Lemma step_flows op w wr rd w' : inv w -> step_op op w = (wr, rd, w') -> flows w wr rd w'.
Proof.
  intros Hi. destruct op as [s data|s n|s]; cbn [step_op].
  - destruct (FDConnection_write _ _ _ _) as [r w1] eqn:E. intros [= <- <- <-].
    apply (fd_write_spec _ _ _ _ _ _ _ _ (inv_side s w Hi)) in E as (k & -> & Hr).
    destruct r as [n| |]; [|apply (flows_kernel s); [done|apply Hr| |done];
      intros s'; cbn; by rewrite app_nil_r, (same_none_data _ _ _ Hr)..].
    destruct Hr as [_ (H1 & H2 & H3 & H4)]. apply (flows_kernel s); [done..| |done]. intros s'. rewrite bytesOf_one. cbn.
    destruct (decide (s = negb s')) as [->|Hne]; [by rewrite negb_involutive in H1|]. rewrite app_nil_r.
    assert (s' = s) as -> by (by destruct s, s'). apply H4. intros [= Heq]. by destruct (inPipe_ne s w Hi).
  - destruct (FDConnection_readSync _ _ _ _) as [r w1] eqn:E. intros [= <- <- <-].
    apply (fd_read_spec _ _ _ _ _ _ _ _ (inv_side s w Hi)) in E as (k & Hr).
    assert (same_but None (w_kernel w) k -> flows w [] [] (set_kernel k w)) as Hnone.
    { intros Hs. apply (flows_kernel s); [done|apply Hs| |done]. intros s'. cbn. by rewrite app_nil_r, (same_none_data _ _ _ Hs). }
    destruct r as [data| | |];
      [|destruct Hr as [Hs [->|Hc]]; [by apply Hnone|]; apply (flows_trans w [] [] (set_kernel k w) [] []); [by apply Hnone|];
        apply (flows_close s); [|done]; by apply Hnone..].
    destruct Hr as (-> & (H1 & H2 & H3 & H4) & _ & Hpos). apply (flows_kernel s); [done..| |].
    + intros s'. rewrite bytesOf_one, app_nil_r. destruct (decide (s = s')) as [->|Hne]; [done|]. cbn.
      assert (s' = negb s) as -> by (by destruct s, s'). apply H4. intros [= Heq]. by apply (inPipe_ne s w Hi).
    + rewrite !bytesOf_one, decide_False by (by destruct s). split; [done|]. unfold readable. intros Hf%Z.ltb_ge. lia.
  - intros [= <- <- <-]. by apply (flows_close s).
Qed.

Lemma flows_nil w : inv w -> flows w [] [] w.
Proof.
  intros Hi. split; [done|]. intros s. split; [done|]. intros _. exists (pipe_data (w_kernel w) (inPipe s)). by rewrite app_nil_r.
Qed.

Lemma run_flows ops w wr rd w' : inv w -> run ops w = (wr, rd, w') -> flows w wr rd w'.
Proof.
  revert w wr rd. induction ops as [|op ops IH]; intros w wr rd Hi; cbn [run].
  { intros [= <- <- <-]. by apply flows_nil. }
  destruct (step_op op w) as [[wr1 rd1] w1] eqn:E1. destruct (run ops w1) as [[wr2 rd2] w2] eqn:E2. intros [= <- <- <-].
  apply step_flows in E1 as F1; [|done]. eapply flows_trans; [done|]. by apply (IH w1); [apply F1|].
Qed.

End schedule.

(** *** The interface of transports *)

Lemma read_pair a b p q n w : pair_inv a b p q w -> pair_inv a b p q (FDConnection_readSync globals a n w).2.
Proof.
  intros Hi. destruct (FDConnection_readSync globals a n w) as [r w'] eqn:E.
  apply (fd_read_spec _ _ _ _ _ _ _ _ Hi) in E as (k & Hr). destruct r as [data| | |].
  { destruct Hr as (-> & (_ & _ & [Hf _]) & _). by apply pair_inv_kernel. }
  all: destruct Hr as [[Hf _] [->| ->]]; [by apply pair_inv_kernel|by apply close_pair, pair_inv_kernel].
Qed.

Lemma write_pair a b p q data w : pair_inv a b p q w -> pair_inv a b p q (FDConnection_write globals a data w).2.
Proof.
  intros Hi. destruct (FDConnection_write globals a data w) as [r w'] eqn:E.
  apply (fd_write_spec _ _ _ _ _ _ _ _ Hi) in E as (k & -> & Hr).
  apply pair_inv_kernel; [|done]. by destruct r; [destruct Hr as [_ (_ & _ & [Hf _])]|destruct Hr..].
Qed.

(** The side [a] of a pair. *)
Record PipeEnd (a b : Z) (p q : nat) := mkEnd { pe_world : World K; pe_ok : pair_inv a b p q pe_world }.

Definition pe_flip {a b p q} (t : PipeEnd a b p q) : PipeEnd b a q p :=
  mkEnd _ _ _ _ (pe_world _ _ _ _ t) (pair_inv_flip _ _ _ _ _ (pe_ok _ _ _ _ t)).

End pair.

Arguments mkEnd {K _ a b p q}.
Arguments pe_world {K _ a b p q}.
Arguments pe_ok {K _ a b p q}.
Arguments PipeEnd K {_}.

Section transport.

Context {K : Type} `{!Posix K, !PosixView K, !PosixOk K} (globals : Global).

#[export] Instance PipeEnd_Transport a b p q : Transport (PipeEnd K a b p q) := {
  getState t := stateOf a (pe_world t);
  readNB _ t := t;
  readSync n _ t := ((FDConnection_readSync globals a n (pe_world t)).1, mkEnd _ (read_pair globals _ _ _ _ n _ (pe_ok t)));
  write data t := ((FDConnection_write globals a data (pe_world t)).1, mkEnd _ (write_pair globals _ _ _ _ data _ (pe_ok t)));
  close t := mkEnd (_close a (pe_world t)) (proj1 (close_pair _ _ _ _ _ (pe_ok t)));
}.

#[export] Instance PipeEnd_View a b p q : TransportView (PipeEnd K a b p q) := {
  unread t := pipe_data (w_kernel (pe_world t)) p;
  written t := pipe_put (w_kernel (pe_world t)) q;
}.

Lemma readSync_world a b p q n block (t : PipeEnd K a b p q) r t' :
  readSync n block t = (r, t') -> FDConnection_readSync globals a n (pe_world t) = (r, pe_world t').
Proof. intros [= <- <-]. apply surjective_pairing. Qed.

Lemma write_world a b p q data (t : PipeEnd K a b p q) r t' :
  write data t = (r, t') -> FDConnection_write globals a data (pe_world t) = (r, pe_world t').
Proof. intros [= <- <-]. apply surjective_pairing. Qed.

(** A pipe connection keeps what Connection expects of a transport. *)
#[export] Instance PipeEnd_Ok a b p q : TransportOk (PipeEnd K a b p q).
Proof.
  split.
  - done.
  - done.
  - intros n block t data t' E. apply readSync_world, (fd_read_spec _ _ _ _ _ _ _ _ _ (pe_ok t)) in E as (k & E & _).
    cbn. by rewrite E.
  - intros n block t data t' E. apply readSync_world, (fd_read_spec _ _ _ _ _ _ _ _ _ (pe_ok t)) in E as (k & E & (H1 & _) & H2 & _).
    cbn. by rewrite E.
  - intros data t n t' E. apply write_world, (fd_write_spec _ _ _ _ _ _ _ _ _ (pe_ok t)) in E as (k & E & H1 & (_ & H2 & _)).
    cbn. by rewrite E.
  - intros data t t' [E|E]; apply write_world, (fd_write_spec _ _ _ _ _ _ _ _ _ (pe_ok t)) in E as (k & E & Hk);
      cbn; rewrite E; by apply same_none_put.
  - intros [w Hi]. cbn. unfold stateOf. rewrite getc_close, Z.eqb_refl. destruct (isClosed a w) eqn:E; [|done].
    by apply bool_decide_eq_true_1 in E.
  - intros [w Hi]. cbn. by apply (close_pair _ _ _ _ _ Hi).
Qed.

#[export] Instance PipeEnd_Reliable `{!PosixReliable K} a b p q : TransportReliable (PipeEnd K a b p q).
Proof.
  split. intros n block t Hst Hn. cbn in Hst, Hn. destruct (pe_ok t) as (_ & _ & (Hr & _ & Hc) & _).
  destruct (Hc Hst) as [Hpos _]. destruct (read_delivers _ n _ p (Hr Hpos)) as (data & k & E & Hne).
  { lia. } { intros E. rewrite E in Hn. unfold size_of in Hn. cbn in Hn. lia. }
  destruct (readSync n block t) as [r t'] eqn:Er. exists data, t'. split; [|done]. f_equal.
  apply readSync_world in Er. unfold FDConnection_readSync in Er. rewrite (proj2 (Z.ltb_ge _ _)), E in Er by lia.
  destruct data; [done|]. by injection Er.
Qed.

(** What a send leaves for the other side. *)
Lemma send_pipe a b p q fuel data (t t' : PipeEnd K a b p q) :
  send_loop fuel data t = Some (true, t') ->
  pipe_data (w_kernel (pe_world t')) q = pipe_data (w_kernel (pe_world t)) q ++ data /\
  forall c, getc c (pe_world t') = getc c (pe_world t).
Proof.
  revert data t. induction fuel as [|fuel IH]; intros data t; (destruct data as [|x data];
    [intros [= ->]; by rewrite app_nil_r|]); cbn [send_loop]; [done|].
  destruct (write (x :: data) t) as [[n| |] t1] eqn:Ew; [|done..]. intros [E1 E2]%IH.
  apply write_world, (fd_write_spec _ _ _ _ _ _ _ _ _ (pe_ok t)) in Ew as (k & Ew & Hn & (Hd & _)). rewrite Ew in E1, E2.
  split; [|exact E2]. rewrite E1. cbn [w_kernel set_kernel]. by rewrite Hd, <-app_assoc, take_drop.
Qed.

(** What one sibling sends, the other receives.  If the other side is connected and
    has read everything so far, then after [send] of some data returned true, with
    whatever interruptions, timeouts of polls and partial writes on its way,
    [recvNB] and [recvSync] of as many bytes return exactly the data, appended to
    the buffer, and nothing is left. *)
Theorem pipe_delivers `{!PosixReliable K} a b p q (t : PipeEnd K a b p q) fuel data block buf c' :
  send fuel data (mkConnection t None 0) = Some (true, c') -> data <> [] ->
  stateOf b (pe_world t) = STATE_CONNECTED -> pipe_data (w_kernel (pe_world t)) q = [] ->
  exists t', recvSync (length data) block (recvNB buf (size_of data) (mkConnection (pe_flip (cn_transport c')) None 0))
      = Some (Received true (Some (append_data data (reserve (size_of (bf_data buf) + size_of data) buf))), mkConnection t' None 0) /\
    unread t' = [] /\ getState t' = STATE_CONNECTED.
Proof.
  intros E Hne Hst Hq. unfold send in E. destruct (send_loop fuel data _) as [[ok t1]|] eqn:El; [|done]. cbn in E. simplify_eq.
  apply send_pipe in El as [Hd Hc]. cbn [cn_transport] in *. rewrite Hq in Hd. cbn in Hd.
  assert (unread (pe_flip t1) = data) as Hu by (cbn; exact Hd).
  destruct (recvSync_reads (length data) block (recvNB buf (size_of data) (mkConnection (pe_flip t1) None 0))
    (reserve (size_of (bf_data buf) + size_of data) buf) (size_of data)) as (data' & t' & Er & Hsz & Hu' & Hst').
  - done.
  - done.
  - cbn. unfold stateOf in *. by rewrite Hc.
  - cbn [recvNB cn_transport]. rewrite readNB_unread, Hu. destruct data; [done|]. unfold size_of. cbn. lia.
  - unfold size_of. lia.
  - cbn [recvNB cn_transport] in Hu'. rewrite readNB_unread, Hu in Hu'.
    assert (data' = data /\ unread t' = []) as [-> Hn].
    { unfold size_of in Hsz. assert (length data' = length data) as Hl by lia. rewrite Hu', length_app in Hl.
      destruct (unread t'); [by rewrite app_nil_r in Hu'|cbn in Hl; lia]. }
    exists t'. by split_and!.
Qed.

(** C31: A pipe connection is a reliable stream in each direction.  If [connect]
    succeeds (with the standard input open), it leaves two connected siblings, and
    then, under every schedule of reads, writes and closes of the two sides, with
    any interrupted, short, timed out or failed system calls, the bytes a side has
    read are a prefix of those the other side has written, in order, none twice and
    none lost: while a side is open, what it has not read yet is in its pipe. *)
Theorem pipe_connection_fifo c w w' :
  connect c w = (true, w') -> fd_end (w_kernel w) 0 <> None -> c <> w_next w ->
  exists s p q, acceptSync c w' = Some (Some s) /\ stateOf c w' = STATE_CONNECTED /\ stateOf s w' = STATE_CONNECTED /\
    forall ops wr rd w'', run globals c s ops w' = (wr, rd, w'') -> forall side,
      bytesOf side rd `prefix_of` bytesOf (negb side) wr /\
      (readable c s side w'' = true ->
         bytesOf side rd ++ pipe_data (w_kernel w'') (inPipe p q side) = bytesOf (negb side) wr).
Proof.
  intros E H0 Hne. destruct (connect_pair c w w' E H0 Hne) as (p & q & Hi & Ha & Hc & Hs & Hp & Hq & _).
  exists (w_next w), p, q. split_and!; [done..|]. intros ops wr rd w'' Er side.
  assert (readable c (w_next w) side w' = true) as Hr.
  { destruct Hi as (_ & _ & (_ & _ & H1) & (_ & _ & H2)). apply Z.ltb_lt. destruct side; [by apply H1|by apply H2]. }
  destruct (run_flows globals c (w_next w) p q ops w' wr rd w'' Hi Er) as [_ Hf].
  destruct (Hf side) as [_ Hside]. destruct (Hside Hr) as (rest & Erest & Hrest).
  assert (pipe_data (w_kernel w') (inPipe p q side) = []) as Hnil by (by destruct side). rewrite Hnil in Erest. cbn in Erest.
  split; [by exists rest|]. intros Hopen. by rewrite <-(Hrest Hopen).
Qed.

End transport.

(** ** Examples *)

Definition sample_globals : Global := Global_init None None.

(** A process with the given descriptors and one closed connection. *)
Definition sample_world (fds : list Z) (script : list (nat + Errno)) (maxFds : Z) : World Kernel :=
  mkWorld (mkKernel (list_to_map ((fun fd => (fd, OtherFile)) <$> fds)) ∅ script maxFds)
    {[1 := set_pc_listeners [7] PipeConnection_init]} 2 [].

Definition pipe_script : list (nat + Errno) := [inl 2%nat; inr EINTR; inr EAGAIN; inl 0%nat; inl 1%nat].
Definition sample_ops : list Op :=
  [OpWrite true [1; 2; 3]; OpRead false 10; OpWrite true [4]; OpWrite false [5; 6]; OpRead false 10; OpRead true 1;
   OpClose true; OpRead false 1; OpRead false 1].

Lemma pipe_connection_fifo_witness :
  let c := (connect (Posix0 := Kernel_Posix_ true) 1 (sample_world [0; 1; 2] pipe_script 20)) in
  c.1 = true /\ w_fired c.2 = [(7, 1, STATE_CONNECTING); (7, 1, STATE_CONNECTED)] /\
  let '(wr, rd, w) := run (Posix0 := Kernel_Posix_ true) sample_globals 1 2 sample_ops c.2 in
  bytesOf false rd = [1; 4] /\ bytesOf false rd `prefix_of` bytesOf true wr.
Proof.
  set (c := connect _ _). split; [by vm_compute|]. split; [by vm_compute|].
  destruct (pipe_connection_fifo (Posix0 := Kernel_Posix_ true) (PosixOk0 := Kernel_Ok true) sample_globals 1
    (sample_world [0; 1; 2] pipe_script 20) c.2) as (s & p & q & Ha & _ & _ & Hrun); [by vm_compute..|].
  assert (s = 2) as -> by (vm_compute in Ha; congruence).
  destruct (run sample_globals 1 2 sample_ops c.2) as [[wr rd] w] eqn:E. specialize (Hrun sample_ops _ _ _ E false).
  split; [|apply Hrun]. vm_compute in E. injection E as _ <- _. by vm_compute.
Defined.

(** If the second pipe cannot be created, the write end of the first one, which the
    sibling holds, stays open: the sibling is in the closed state, and closing it
    does nothing. *)
Lemma connect_leaks :
  let w := sample_world [0; 1; 2] [] 6 in
  let '(ok, w') := connect (Posix0 := Kernel_Posix_ false) 1 w in
  ok = false /\ stateOf 1 w' = STATE_CLOSED /\ fd_end (w_kernel w) 4 = None /\ fd_end (w_kernel w') 4 <> None /\
  w_kernel (_close (Posix0 := Kernel_Posix_ false) 2 w') = w_kernel w'.
Proof. by vm_compute. Qed.

(** The sibling never has a sibling to accept: [acceptSync] on it waits for ever,
    and so does a comparison of it with another connection. *)
Lemma sibling_accept_waits :
  let w := (connect (Posix0 := Kernel_Posix_ false) 1 (sample_world [0; 1; 2] [] 20)).2 in
  Connection_eq 1 2 w = Some true /\ acceptSync 2 w = None /\ Connection_eq 2 1 w = None.
Proof. by vm_compute. Qed.

(** With the standard input closed, its descriptor is reused for a pipe, and the
    connection is connected but never reads. *)
Lemma closed_stdin_unreadable :
  let '(ok, w) := connect (Posix0 := Kernel_Posix_ false) 1 (sample_world [1; 2] [] 20) in
  ok = true /\ stateOf 1 w = STATE_CONNECTED /\
  (FDConnection_readSync (Posix0 := Kernel_Posix_ false) sample_globals 1 4
     (FDConnection_write (Posix0 := Kernel_Posix_ false) sample_globals 2 [1; 2] w).2).1 = RError.
Proof. by vm_compute. Qed.
