(* ===== verification/EventPipe.v ===== *)
(** * Events on pipes (eventConnection.cpp, POSIX branch)

    The event connection that wakes a selecting thread is a flag and a pipe
    connection: [set] sends one byte to the sibling's other end, [reset] receives
    it.  ConnectionSet models it by the flag and the number of bytes in the pipe;
    here the operations run on the pipe itself and refine that model. *)

From S2P Require Import Prelude Bytes DataOStream BufferCache Connection ConnectionSet Global Posix PipeConnection.

Section event.

Context {K : Type} `{!Posix K, !PosixView K, !PosixOk K} (globals : Global) {a b : Z} {p q : nat}.

#[local] Instance event_transport a b p q : Transport (PipeEnd K a b p q) := PipeEnd_Transport globals a b p q.

(** [_set], and [_connection] with its buffer. *)
Record EventPipe := mkEventPipe { ep_set : bool; ep_connection : Connection (PipeEnd K a b p q) }.

Definition on_transport {T T'} (t : T') (c : Connection T) : Connection T' := mkConnection t (cn_buffer c) (cn_bytes c).

(** [fuel] bounds the interrupted writes.  The result of [send] is ignored; the
    first component is what it was. *)
Definition event_set (fuel : nat) (e : EventPipe) : option (bool * EventPipe) :=
  if ep_set e then Some (true, e)
  else
    '(ok, c) ← send fuel [42] (mkConnection (pe_flip (cn_transport (ep_connection e))) None 0);
    Some (ok, mkEventPipe true (on_transport (pe_flip (cn_transport c)) (ep_connection e))).

Definition event_reset (buffer : Buffer) (e : EventPipe) : option EventPipe :=
  if negb (ep_set e) then Some e
  else '(_, c) ← recvSync 1 true (recvNB (clear_data buffer) 1 (ep_connection e)); Some (mkEventPipe false c).

(** The model of ConnectionSet: the flag and the bytes in the pipe. *)
Definition event_of (e : EventPipe) : EventConnection :=
  mkEvent (ep_set e) (length (pipe_data (w_kernel (pe_world (cn_transport (ep_connection e)))) p)).

Definition event_connected (e : EventPipe) : Prop := stateOf a (pe_world (cn_transport (ep_connection e))) = STATE_CONNECTED.

Lemma event_set_refines fuel e e' :
  event_set fuel e = Some (true, e') -> event_connected e ->
  event_of e' = EventConnection_set (event_of e) /\ event_connected e'.
Proof.
  unfold event_set, EventConnection_set. cbn [ev_set event_of]. destruct (ep_set e); [by intros [= <-]|].
  destruct (send fuel [42] _) as [[ok c]|] eqn:E; [|done]. cbn. intros [= -> <-] Hc.
  unfold send in E. destruct (send_loop fuel [42] _) as [[ok t]|] eqn:El; [|done]. cbn in E. simplify_eq.
  apply send_pipe in El as [Hd Hg]. unfold event_of, event_connected, stateOf. cbn in *. rewrite Hd, Hg, length_app. cbn.
  split; [|done]. f_equal. lia.
Qed.

Lemma event_reset_refines `{!PosixReliable K} buffer e :
  event_connected e -> event_ok (event_of e) ->
  exists e', event_reset buffer e = Some e' /\ event_of e' = EventConnection_reset (event_of e) /\ event_connected e'.
Proof.
  intros Hc Hok. unfold event_reset, EventConnection_reset, event_ok in *. cbn [ev_set ev_pipe event_of] in *.
  destruct (ep_set e) eqn:Es; cbn [negb]; [|by eauto].
  destruct (recvSync_reads 1 true (recvNB (clear_data buffer) 1 (ep_connection e))
    (reserve (size_of (bf_data (clear_data buffer)) + 1) (clear_data buffer)) 1) as (data & t & Er & Hsz & Hu & Hst).
  - done.
  - done.
  - done.
  - unfold size_of. cbn. rewrite Hok. lia.
  - done.
  - rewrite Er. cbn. eexists. split; [done|]. cbn in Hu. rewrite Hu in Hok. split; [|done].
    unfold event_of. cbn. f_equal. cbn. rewrite Hu, length_app in *. unfold size_of in Hsz. lia.
Qed.

Inductive EvOp := EvSet | EvReset.

(** [None] if a send fails. *)
Definition ev_step (fuel : nat) (buffer : Buffer) (op : EvOp) (e : EventPipe) : option EventPipe :=
  match op with
  | EvSet => '(ok, e) ← event_set fuel e; guard (ok = true);; Some e
  | EvReset => event_reset buffer e
  end.
Fixpoint ev_run (fuel : nat) (buffer : Buffer) (ops : list EvOp) (e : EventPipe) : option EventPipe :=
  match ops with
  | [] => Some e
  | op :: ops => e ← ev_step fuel buffer op e; ev_run fuel buffer ops e
  end.

Definition ev_model (e : EventConnection) (op : EvOp) : EventConnection :=
  match op with EvSet => EventConnection_set e | EvReset => EventConnection_reset e end.

(** The event connection on a pipe is the event connection of ConnectionSet.  Under
    every sequence of sets and resets whose sends succeed, the flag and the pipe are
    as the model says, and the connection is readable, which is what [select] waits
    for, exactly while the event is set. *)
Theorem event_pipe_refines `{!PosixReliable K} fuel buffer ops e e' :
  ev_run fuel buffer ops e = Some e' -> event_connected e -> event_ok (event_of e) ->
  event_of e' = foldl ev_model (event_of e) ops /\
  (ep_set e' = true <-> pipe_data (w_kernel (pe_world (cn_transport (ep_connection e')))) p <> []).
Proof.
  revert e. induction ops as [|op ops IH]; intros e; cbn [ev_run foldl].
  { intros [= <-] Hc Hok. split; [done|]. unfold event_ok in Hok. cbn in Hok. destruct (ep_set e).
    - split; [|done]. intros _ E. by rewrite E in Hok.
    - split; [done|]. intros Hne. by apply length_zero_iff_nil in Hok. }
  destruct (ev_step fuel buffer op e) as [e1|] eqn:E; [|done]. cbn. intros Hrun Hc Hok.
  assert (event_of e1 = ev_model (event_of e) op /\ event_connected e1) as [Hm Hc1].
  { destruct op; cbn in E.
    - destruct (event_set fuel e) as [[ok e2]|] eqn:Es; [|done]. cbn in E. case_guard; [|done]. cbn in E. simplify_eq.
      by apply (event_set_refines fuel).
    - destruct (event_reset_refines buffer e Hc Hok) as (e2 & E2 & ? & ?). rewrite E in E2. by simplify_eq. }
  rewrite <-Hm. apply IH; [done|done|]. rewrite Hm. destruct op; [by apply event_set_ok|by apply event_reset_ok].
Qed.

End event.

Definition sample_pipe : World Kernel := (connect (Posix0 := Kernel_Posix_ false) 1 (sample_world [0; 1; 2] [] 20)).2.

(** Setting an event twice sends one byte, and it can be reset and set again. *)
Lemma event_pipe_sample :
  exists p q (H : pair_inv 1 2 p q sample_pipe) e',
    ev_run (Posix0 := Kernel_Posix_ false) (PosixOk0 := Kernel_Ok false) sample_globals 4 (Buffer_init 1) [EvSet; EvSet; EvReset; EvSet]
      (mkEventPipe false (mkConnection (mkEnd sample_pipe H) None 0)) = Some e' /\
    event_of e' = mkEvent true 1.
Proof.
  destruct (connect_pair (Posix0 := Kernel_Posix_ false) (PosixOk0 := Kernel_Ok false) 1 (sample_world [0; 1; 2] [] 20) sample_pipe)
    as (p & q & Hi & _ & Hst & _ & Hp & _); [by vm_compute..|].
  exists p, q, Hi. set (r := ev_run _ _ _ _ _). assert (match r with Some _ => true | None => false end = true) as Hr by (by vm_compute).
  destruct r as [e'|] eqn:E; [|done]. exists e'. split; [done|]. clear Hr. subst r.
  destruct (event_pipe_refines (PosixOk0 := Kernel_Ok false) (PosixReliable0 := Kernel_Reliable) sample_globals 4 (Buffer_init 1)
    [EvSet; EvSet; EvReset; EvSet] (mkEventPipe false (mkConnection (mkEnd sample_pipe Hi) None 0)) e' E) as [Hm _].
  - exact Hst.
  - unfold event_ok, event_of. cbn [ep_set ep_connection ev_set ev_pipe cn_transport pe_world]. by rewrite Hp.
  - etrans; [exact Hm|]. unfold event_of. cbn [ep_set ep_connection cn_transport pe_world]. by rewrite Hp.
Qed.
