(* ===== verification/SocketConnection.v ===== *)
(** * Socket connections (socketConnection.cpp, POSIX branch)

    Connecting, listening, accepting and closing of a socket connection, on an
    interface of the socket calls.  Reading and writing are [FDConnection]'s
    (PipeConnection).  The theorems are about the descriptors a connection owns
    and about the outcome of connecting. *)

From S2P Require Import Prelude Connection Posix ConnectionDescription.
From Stdlib Require Import String.

#[local] Open Scope Z_scope.

(** An internet address and port, in host byte order. *)
Record SockAddr := mkSockAddr { sin_port : Z; sin_addr : Z }.
Definition INADDR_ANY : Z := 0.
Definition INVALID_SOCKET : Z := -1.

Inductive SockFamily := AF_INET | AF_INET_SDP.
Inductive SockOpt := TCP_NODELAY | SO_REUSEADDR.

(** The calls.  [None] is a socket that could not be created or a host that is not
    known; [sys_connect] returns an error number or nothing. *)
Class Sockets (K : Type) := {
  sys_socket : SockFamily -> K -> option Z * K;
  sys_setsockopt : Z -> SockOpt -> K -> K;
  sys_connect : Z -> SockAddr -> K -> option Errno * K;
  sys_bind : Z -> SockAddr -> K -> bool * K;
  sys_listen : Z -> K -> bool * K;
  sys_accept : Z -> K -> Sys (Z * SockAddr) * K;
  sock_close : Z -> K -> K;
  sys_getsockname : Z -> K -> SockAddr;
  sys_getaddrinfo : string -> K -> option Z;
  sys_getnameinfo : SockAddr -> K -> option string;
  sys_gethostname : K -> string;
  inet_ntoa : Z -> string;
}.

(** The descriptors that are open. *)
Class SocketsView (K : Type) := { fd_open : K -> Z -> bool }.

Class SocketsOk (K : Type) `{Sockets K, SocketsView K} : Prop := {
  socket_open f k fd k' :
    sys_socket f k = (Some fd, k') -> fd_open k fd = false /\ forall fd', fd_open k' fd' = (fd' =? fd) || fd_open k fd';
  socket_fail f k k' : sys_socket f k = (None, k') -> forall fd, fd_open k' fd = fd_open k fd;
  accept_open fd k fd1 addr k' :
    sys_accept fd k = (SysOk (fd1, addr), k') ->
    fd_open k fd1 = false /\ forall fd', fd_open k' fd' = (fd' =? fd1) || fd_open k fd';
  accept_fail fd k e k' : sys_accept fd k = (SysErr e, k') -> forall fd', fd_open k' fd' = fd_open k fd';
  setsockopt_open fd o k fd' : fd_open (sys_setsockopt fd o k) fd' = fd_open k fd';
  connect_open fd a k fd' : fd_open (sys_connect fd a k).2 fd' = fd_open k fd';
  bind_open fd a k fd' : fd_open (sys_bind fd a k).2 fd' = fd_open k fd';
  listen_open fd k fd' : fd_open (sys_listen fd k).2 fd' = fd_open k fd';
  sock_close_open fd k fd' : fd_open (sock_close fd k) fd' = negb (fd' =? fd) && fd_open k fd';
}.

(** [sc_changes] are the states the listeners were told of. *)
Record SocketConnection := mkSocket {
  sc_state : ConnState;
  sc_changes : list ConnState;
  sc_readFD : Z;
  sc_writeFD : Z;
  sc_description : ConnectionDescription;
}.

Definition SocketConnection_init (type : ConnectionType) : SocketConnection :=
  let bandwidth := if bool_decide (type = CONNECTIONTYPE_TCPIP) then 102400 else 819200 in
  mkSocket STATE_CLOSED [] 0 0 (set_cd_bandwidth bandwidth (set_cd_type type ConnectionDescription_init)).

Definition sc_setState (st : ConnState) (s : SocketConnection) : SocketConnection :=
  if bool_decide (sc_state s = st) then s
  else mkSocket st (sc_changes s ++ [st]) (sc_readFD s) (sc_writeFD s) (sc_description s).
Definition set_sc_fds (fd : Z) (s : SocketConnection) : SocketConnection :=
  mkSocket (sc_state s) (sc_changes s) fd fd (sc_description s).
Definition set_sc_description (d : ConnectionDescription) (s : SocketConnection) : SocketConnection :=
  mkSocket (sc_state s) (sc_changes s) (sc_readFD s) (sc_writeFD s) d.

Definition sc_isClosed (s : SocketConnection) : bool := bool_decide (sc_state s = STATE_CLOSED).
Definition sc_isListening (s : SocketConnection) : bool := bool_decide (sc_state s = STATE_LISTENING).

Section sockets.

Context {K : Type} `{!Sockets K}.

Definition _parseAddress (d : ConnectionDescription) (k : K) : option SockAddr :=
  if String.eqb (cd_hostname d) "" then Some (mkSockAddr (cd_port d) INADDR_ANY)
  else addr ← sys_getaddrinfo (cd_hostname d) k; Some (mkSockAddr (cd_port d) addr).

Definition _tuneSocket (fd : Z) (k : K) : K := sys_setsockopt fd SO_REUSEADDR (sys_setsockopt fd TCP_NODELAY k).

Definition _createSocket (s : SocketConnection) (k : K) : bool * SocketConnection * K :=
  let family := if bool_decide (cd_type (sc_description s) = CONNECTIONTYPE_SDP) then AF_INET_SDP else AF_INET in
  match sys_socket family k with
  | (None, k) => (false, s, k)
  | (Some fd, k) => (true, set_sc_fds fd s, _tuneSocket fd k)
  end.

Definition socket_close (s : SocketConnection) (k : K) : SocketConnection * K :=
  if sc_isClosed s then (s, k)
  else (sc_setState STATE_CLOSED (set_sc_fds INVALID_SOCKET s), sock_close (sc_readFD s) k).

(** The loop [while( nTries-- )] of [connect]: its counter afterwards. *)
Fixpoint connect_loop (nTries : nat) (fd : Z) (address : SockAddr) (k : K) : Z * K :=
  match nTries with
  | O => (-1, k)
  | S nTries =>
      match sys_connect fd address k with
      | (None, k) => (Z.of_nat nTries, k)
      | (Some EINTR, k) => connect_loop nTries fd address k
      | (Some _, k) => (-1, k)
      end
  end.

Definition socket_connect (s : SocketConnection) (k : K) : bool * SocketConnection * K :=
  if negb (sc_isClosed s) then (false, s, k)
  else if cd_port (sc_description s) =? 0 then (false, s, k)
  else
    let d := sc_description s in
    let d := if String.eqb (cd_hostname d) "" then set_cd_hostname "127.0.0.1" d else d in
    let s := set_sc_description d s in
    match _parseAddress d k with
    | None => (false, s, k)
    | Some address =>
        let '(created, s, k) := _createSocket (sc_setState STATE_CONNECTING s) k in
        if negb created then (false, s, k)
        else if sin_addr address =? 0 then (false, (socket_close s k).1, (socket_close s k).2)
        else
          let '(nTries, k) := connect_loop 10 (sc_readFD s) address k in
          if negb (nTries >? 0) then (false, (socket_close s k).1, (socket_close s k).2)
          else (true, sc_setState STATE_CONNECTED s, k)
    end.

Definition getHostName (address : SockAddr) (k : K) : string := default ""%string (sys_getnameinfo address k).

(** The description of a listening connection gets the port and, if it has none,
    a host name. *)
Definition listen_description (address : SockAddr) (d : ConnectionDescription) (k : K) : ConnectionDescription :=
  let d := set_cd_port (sin_port address) d in
  if String.eqb (cd_hostname d) "" then
    set_cd_hostname (if sin_addr address =? INADDR_ANY then sys_gethostname k else getHostName address k) d
  else d.

Definition socket_listen (s : SocketConnection) (k : K) : bool * SocketConnection * K :=
  if negb (sc_isClosed s) then (false, s, k)
  else
    let s := sc_setState STATE_CONNECTING s in
    match _parseAddress (sc_description s) k with
    | None => (false, s, k)
    | Some address =>
        let '(created, s, k) := _createSocket s k in
        if negb created then (false, s, k)
        else
          let '(bound, k) := sys_bind (sc_readFD s) address k in
          if negb bound then (false, (socket_close s k).1, (socket_close s k).2)
          else
            let '(listening, k) := sys_listen (sc_readFD s) k in
            if negb listening then (false, (socket_close s k).1, (socket_close s k).2)
            else
              let address := sys_getsockname (sc_readFD s) k in
              let s := set_sc_description (listen_description address (sc_description s) k) s in
              (true, sc_setState STATE_LISTENING s, k)
    end.

(** The do loop of [acceptSync], with [nTries] tries left after this one. *)
Fixpoint accept_loop (nTries : nat) (fd : Z) (k : K) : Sys (Z * SockAddr) * K :=
  match sys_accept fd k with
  | (SysErr EINTR, k') => match nTries with O => (SysErr EINTR, k') | S nTries => accept_loop nTries fd k' end
  | r => r
  end.

Definition socket_acceptSync (s : SocketConnection) (k : K) : option SocketConnection * K :=
  if negb (sc_isListening s) then (None, k)
  else
    match accept_loop 999 (sc_readFD s) k with
    | (SysErr _, k) => (None, k)
    | (SysOk (fd, address), k) =>
        let k := _tuneSocket fd k in
        let c := SocketConnection_init (cd_type (sc_description s)) in
        let c := sc_setState STATE_CONNECTED (set_sc_fds fd c) in
        let d := set_cd_bandwidth (cd_bandwidth (sc_description s)) (sc_description c) in
        let d := set_cd_hostname (inet_ntoa (sin_addr address)) (set_cd_port (sin_port address) d) in
        (Some (set_sc_description d c), k)
    end.

End sockets.

(** ** Operations *)

Inductive SockOp := SConnect | SListen | SAccept | SClose.

Section run.

Context {K : Type} `{!Sockets K}.

(** The descriptors of accepted connections, which belong to others, the
    connection and the kernel. *)
Definition sock_step (op : SockOp) (s : SocketConnection) (k : K) : list Z * SocketConnection * K :=
  match op with
  | SConnect => let '(_, s, k) := socket_connect s k in ([], s, k)
  | SListen => let '(_, s, k) := socket_listen s k in ([], s, k)
  | SAccept => let '(c, k) := socket_acceptSync s k in (match c with Some c => [sc_readFD c] | None => [] end, s, k)
  | SClose => let '(s, k) := socket_close s k in ([], s, k)
  end.

(** With the states after the operations. *)
Fixpoint sock_run (ops : list SockOp) (s : SocketConnection) (k : K) : list Z * list ConnState * SocketConnection * K :=
  match ops with
  | [] => ([], [], s, k)
  | op :: ops =>
      let '(acc, s, k) := sock_step op s k in
      let '(acc', states, s', k') := sock_run ops s k in
      (acc ++ acc', sc_state s :: states, s', k')
  end.

End run.

(** The descriptor a connection owns. *)
Definition owned (s : SocketConnection) : option Z :=
  match sc_state s with STATE_CONNECTED | STATE_LISTENING => Some (sc_readFD s) | _ => None end.

Section lemmas.

Context {K : Type} `{!Sockets K, !SocketsView K, !SocketsOk K}.
Implicit Types k : K.

Lemma tune_open fd k fd' : fd_open (_tuneSocket fd k) fd' = fd_open k fd'.
Proof. unfold _tuneSocket. by rewrite !setsockopt_open. Qed.

Lemma connect_loop_open n fd a k fd' : fd_open (connect_loop n fd a k).2 fd' = fd_open k fd'.
Proof.
  revert k. induction n as [|n IH]; intros k; [done|]. cbn [connect_loop]. pose proof (connect_open fd a k fd') as H.
  destruct (sys_connect fd a k) as [[[]|] k1]; cbn in *; try done. by rewrite IH.
Qed.

Lemma accept_loop_open n fd k r k' :
  accept_loop n fd k = (r, k') ->
  match r with
  | SysOk (fd1, _) => fd_open k fd1 = false /\ forall fd', fd_open k' fd' = (fd' =? fd1) || fd_open k fd'
  | SysErr _ => forall fd', fd_open k' fd' = fd_open k fd'
  end.
Proof.
  revert k. induction n as [|n IH]; intros k; cbn [accept_loop]; destruct (sys_accept fd k) as [[[fd1 a]|[]] k1] eqn:E;
    try (intros [= <- <-]; first [by eapply accept_open|by eapply accept_fail]).
  intros H%IH. pose proof (accept_fail _ _ _ _ E) as Hs. destruct r as [[fd1 a]|e].
  - rewrite <-Hs. split; [apply H|]. intros fd'. rewrite <-Hs. apply H.
  - intros fd'. by rewrite H.
Qed.

Lemma state_setState st s : sc_state (sc_setState st s) = st /\ sc_readFD (sc_setState st s) = sc_readFD s.
Proof. unfold sc_setState. by case_bool_decide. Qed.

Lemma createSocket_spec s k ok s' k' :
  _createSocket s k = (ok, s', k') ->
  sc_state s' = sc_state s /\
  if ok then fd_open k (sc_readFD s') = false /\ forall fd, fd_open k' fd = (fd =? sc_readFD s') || fd_open k fd
  else sc_readFD s' = sc_readFD s /\ forall fd, fd_open k' fd = fd_open k fd.
Proof.
  unfold _createSocket. destruct (sys_socket _ k) as [[fd|] k1] eqn:E; intros [= <- <- <-]; (split; [done|]).
  - apply socket_open in E as [H1 H2]. split; [done|]. intros fd'. by rewrite tune_open.
  - split; [done|]. by eapply socket_fail.
Qed.

Lemma sock_close_spec s k :
  sc_state (socket_close s k).1 = STATE_CLOSED /\
  forall fd, fd_open (socket_close s k).2 fd =
    if sc_isClosed s then fd_open k fd else negb (fd =? sc_readFD s) && fd_open k fd.
Proof.
  unfold socket_close. destruct (sc_isClosed s) eqn:E; cbn.
  - split; [by apply bool_decide_eq_true_1 in E|done].
  - split; [apply state_setState|]. intros fd. apply sock_close_open.
Qed.

(** A connection that was created and is closed again leaves the descriptors. *)
Lemma created_closed s k0 k :
  sc_state s = STATE_CONNECTING -> fd_open k0 (sc_readFD s) = false ->
  (forall fd, fd_open k fd = (fd =? sc_readFD s) || fd_open k0 fd) ->
  sc_state (socket_close s k).1 = STATE_CLOSED /\ sc_readFD (socket_close s k).1 = INVALID_SOCKET /\
  forall fd, fd_open (socket_close s k).2 fd = fd_open k0 fd.
Proof.
  intros Hst Hf Ho. destruct (sock_close_spec s k) as [H1 H2]. split; [done|].
  split; [unfold socket_close, sc_isClosed; rewrite Hst; cbn; apply (state_setState STATE_CLOSED)|]. intros fd. rewrite H2, Ho.
  unfold sc_isClosed. rewrite Hst. cbn. destruct (Z.eqb_spec fd (sc_readFD s)) as [->|]; [by rewrite Hf|done].
Qed.

(** What [connect] and [listen] of a closed connection do with the descriptors of
    the process; of another one they do nothing. *)
Definition opens (s : SocketConnection) k (r : bool * SocketConnection * K) : Prop :=
  let '(ok, s', k') := r in
  if ok then (sc_state s' = STATE_CONNECTED \/ sc_state s' = STATE_LISTENING) /\ fd_open k (sc_readFD s') = false /\
    forall fd, fd_open k' fd = (fd =? sc_readFD s') || fd_open k fd
  else (sc_state s' = STATE_CLOSED \/ sc_state s' = STATE_CONNECTING) /\
    (sc_readFD s' = sc_readFD s \/ sc_readFD s' = INVALID_SOCKET) /\ forall fd, fd_open k' fd = fd_open k fd.

Lemma busy s k : sc_state s <> STATE_CLOSED -> socket_connect s k = (false, s, k) /\ socket_listen s k = (false, s, k).
Proof. intros H. unfold socket_connect, socket_listen, sc_isClosed. by rewrite bool_decide_eq_false_2. Qed.

Lemma socket_connect_opens s k : sc_state s = STATE_CLOSED -> opens s k (socket_connect s k).
Proof.
  intros Ec. unfold socket_connect, sc_isClosed. rewrite bool_decide_eq_true_2 by done. cbn [negb].
  destruct (_ =? 0); [by split_and!; [left|left|]|].
  set (d := if String.eqb _ _ then _ else _). destruct (_parseAddress d k) as [addr|]; [|by split_and!; [left|left|]].
  destruct (_createSocket _ k) as [[[] s1] k1] eqn:E; apply createSocket_spec in E as [Hst H];
    rewrite (proj1 (state_setState _ _)) in Hst; cbn [negb];
    [|destruct H as [H1 H2]; rewrite (proj2 (state_setState _ _)) in H1; by split_and!; [right|left|]].
  destruct H as [Hf Ho]. destruct (sin_addr addr =? 0).
  { destruct (created_closed s1 k k1 Hst Hf Ho) as (H1 & H2 & H3). by split_and!; [left|right|]. }
  pose proof (connect_loop_open 10 (sc_readFD s1) addr k1) as Hl. destruct (connect_loop _ _ _ k1) as [nTries k2]. cbn in Hl.
  assert (forall fd, fd_open k2 fd = (fd =? sc_readFD s1) || fd_open k fd) as Ho2 by (intros fd; by rewrite Hl).
  destruct (negb (nTries >? 0)).
  { destruct (created_closed s1 k k2 Hst Hf Ho2) as (H1 & H2 & H3). by split_and!; [left|right|]. }
  destruct (state_setState STATE_CONNECTED s1) as [H1 H2]. unfold opens. rewrite H2. by split_and!; [left|..].
Qed.

Lemma socket_listen_opens s k : sc_state s = STATE_CLOSED -> opens s k (socket_listen s k).
Proof.
  intros Ec. unfold socket_listen, sc_isClosed. rewrite bool_decide_eq_true_2 by done. cbn [negb].
  destruct (state_setState STATE_CONNECTING s) as [Hs1 Hs2]. set (s1 := sc_setState _ s) in *.
  destruct (_parseAddress _ k) as [addr|]; [|by split_and!; [right|left|]].
  destruct (_createSocket _ k) as [[[] s2] k1] eqn:E; apply createSocket_spec in E as [Hst H]; rewrite Hs1 in Hst; cbn [negb];
    [|destruct H as [H1 H2]; rewrite Hs2 in H1; by split_and!; [right|left|]].
  destruct H as [Hf Ho].
  assert (forall k', (forall fd, fd_open k' fd = fd_open k1 fd) -> opens s k (false, (socket_close s2 k').1, (socket_close s2 k').2)) as Hfail.
  { intros k' Hk. destruct (created_closed s2 k k' Hst Hf) as (H1 & H2 & H3); [intros fd; by rewrite Hk|]. by split_and!; [left|right|]. }
  pose proof (bind_open (sc_readFD s2) addr k1) as Hb. destruct (sys_bind _ _ k1) as [bound k2]. cbn [snd] in Hb.
  destruct bound; cbn [negb]; [|by apply Hfail].
  pose proof (listen_open (sc_readFD s2) k2) as Hl. destruct (sys_listen _ k2) as [listening k3]. cbn [snd] in Hl.
  assert (forall fd, fd_open k3 fd = fd_open k1 fd) as Hk by (intros fd; by rewrite Hl).
  destruct listening; cbn [negb]; [|by apply Hfail].
  unfold opens. match goal with |- context [sc_setState ?st ?x] => destruct (state_setState st x) as [H1 H2] end. rewrite H1, H2.
  split_and!; [by right|done|]. intros fd. by rewrite Hk.
Qed.

(** Every open descriptor is one of before, [B], one of an accepted connection,
    [A], or the connection's own.  The others of these are open too, and the
    connection's own is none of them, except perhaps for the descriptors [E]: a
    connection that got stuck still has an old descriptor, which closing it
    closes. *)
Definition sock_inv (E : list Z) (B : Z -> bool) (A : list Z) (s : SocketConnection) k : Prop :=
  (sc_state s = STATE_CONNECTING -> sc_readFD s ∈ E) /\
  (forall fd, fd_open k fd = true -> B fd = true \/ owned s = Some fd \/ fd ∈ A) /\
  (forall fd, owned s = Some fd -> fd_open k fd = true) /\
  (forall fd, fd ∉ E -> (B fd = true \/ fd ∈ A -> fd_open k fd = true) /\ (owned s = Some fd -> B fd = false /\ fd ∉ A)).

Lemma owned_state s fd : owned s = Some fd <-> (sc_state s = STATE_CONNECTED \/ sc_state s = STATE_LISTENING) /\ sc_readFD s = fd.
Proof. unfold owned. destruct (sc_state s); naive_solver. Qed.

Lemma closed_not E B A s k fd : sock_inv E B A s k -> fd_open k fd = false -> fd ∉ E -> B fd = false /\ fd ∉ A.
Proof.
  intros (_ & _ & _ & H) Hf He. destruct (H fd He) as [Ho _].
  split; [destruct (B fd) eqn:Hb; [|done]|intros Ha]; rewrite Ho in Hf by auto; done.
Qed.

(** A connection that owned nothing acquires an unused descriptor, or does not. *)
Lemma opens_inv E B A s k ok s' k' :
  sock_inv E B A s k -> sc_state s = STATE_CLOSED -> opens s k (ok, s', k') -> (sc_state s' = STATE_CONNECTING -> sc_readFD s' ∈ E) ->
  sock_inv E B A s' k'.
Proof.
  intros Hi Hc Hop Hst. pose proof Hi as (H1 & H2 & H3 & H4). assert (forall fd, owned s <> Some fd) as Hn.
  { intros fd Hfd. apply owned_state in Hfd as [[Hx|Hx] _]; by rewrite Hc in Hx. }
  destruct ok; cbn in Hop.
  - destruct Hop as (Hs & Hf & Ho). assert (owned s' = Some (sc_readFD s')) as Hs' by (by apply owned_state). split_and!; [done|..].
    + intros fd. rewrite Ho, orb_true_iff, Z.eqb_eq. intros [->|[?|[Hx|?]]%H2]; [by right; left|by left|by apply Hn in Hx|by right; right].
    + rewrite Hs'. intros fd [= <-]. by rewrite Ho, Z.eqb_refl.
    + intros fd He. split.
      * intros Hb. rewrite Ho, orb_true_iff. right. by apply H4.
      * rewrite Hs'. intros [= <-]. by eapply closed_not.
  - destruct Hop as (Hs & _ & Ho). assert (forall fd, owned s' <> Some fd) as Hn'.
    { intros fd Hfd. apply owned_state in Hfd as [Hx _]. destruct Hs, Hx; congruence. }
    split_and!; [done|..].
    + intros fd. rewrite Ho. intros [?|[Hx|?]]%H2; [by left|by apply Hn in Hx|by right; right].
    + intros fd Hx. by apply Hn' in Hx.
    + intros fd He. rewrite Ho. split; [apply H4, He|]. intros Hx. by apply Hn' in Hx.
Qed.

Lemma accept_inv E B A s k c k' :
  sock_inv E B A s k -> socket_acceptSync s k = (c, k') ->
  sock_inv E B (A ++ match c with Some c => [sc_readFD c] | None => [] end) s k'.
Proof.
  intros Hi. pose proof Hi as (H1 & H2 & H3 & H4). unfold socket_acceptSync.
  destruct (negb _); [intros [= <- <-]; by rewrite app_nil_r|].
  destruct (accept_loop 999 _ k) as [[[fd a]|e] k1] eqn:Ea; apply accept_loop_open in Ea; intros [= <- <-].
  - destruct Ea as [Hf Ho]. cbn. rewrite (proj2 (state_setState _ _)). cbn.
    assert (forall fd', fd_open (_tuneSocket fd k1) fd' = true <-> fd' = fd \/ fd_open k fd' = true) as Ht
      by (intros fd'; by rewrite tune_open, Ho, orb_true_iff, Z.eqb_eq).
    split_and!; [done|..].
    + intros fd' [->|[?|[?|?]]%H2]%Ht; rewrite elem_of_app, list_elem_of_singleton; tauto.
    + intros fd' Hfd'. apply Ht. right. by apply H3.
    + intros fd' He. rewrite Ht, elem_of_app, list_elem_of_singleton. destruct (H4 fd' He) as [H5 H6]. split; [tauto|].
      intros Hown. destruct (H6 Hown) as [Hb Ha]. split; [done|]. intros [?| ->]; [done|]. rewrite (H3 _ Hown) in Hf. done.
  - rewrite app_nil_r. split_and!; [done|intros fd; rewrite Ea; apply H2|intros fd; rewrite Ea; apply H3|intros fd; rewrite Ea; apply H4].
Qed.

Lemma close_inv E B A s k s' k' :
  sock_inv E B A s k -> sc_state s <> STATE_CLOSING -> socket_close s k = (s', k') -> sock_inv E B A s' k'.
Proof.
  intros (H1 & H2 & H3 & H4) Hcl Ec. destruct (sock_close_spec s k) as [Hs Ho]. rewrite Ec in Hs, Ho. cbn in Hs, Ho.
  assert (forall fd, owned s' <> Some fd) as Hn by (intros fd Hx; apply owned_state in Hx as [[Hx|Hx] _]; by rewrite Hs in Hx).
  unfold sc_isClosed in Ho. split_and!; [by rewrite Hs| |intros fd Hx; by apply Hn in Hx|].
  - intros fd. rewrite Ho. case_bool_decide as Ecl.
    + intros [?|[Hx|?]]%H2; [by left| |by right; right]. apply owned_state in Hx as [[Hx|Hx] _]; by rewrite Ecl in Hx.
    + rewrite andb_true_iff, negb_true_iff, Z.eqb_neq. intros [Hne [?|[Hx|?]]%H2]; [by left| |by right; right].
      apply owned_state in Hx as [_ Hx]. by destruct Hne.
  - intros fd He. split; [|intros Hx; by apply Hn in Hx]. intros Hb. rewrite Ho. destruct (H4 fd He) as [H5 H6].
    case_bool_decide as Ecl; [by apply H5|]. rewrite (H5 Hb), andb_true_r, negb_true_iff, Z.eqb_neq. intros ->.
    assert (owned s = Some (sc_readFD s) -> False) as Hno by (intros [Hb' Ha']%H6; destruct Hb; congruence).
    destruct (sc_state s) eqn:Es; try done; [by apply He, H1|apply Hno; by apply owned_state; rewrite Es; auto..].
Qed.

Lemma step_inv E B A op s k acc s' k' :
  sock_inv E B A s k -> sc_state s <> STATE_CLOSING -> sock_step op s k = (acc, s', k') -> (sc_state s' = STATE_CONNECTING -> sc_readFD s' ∈ E) ->
  sock_inv E B (A ++ acc) s' k'.
Proof.
  intros Hi Hcl Es Hst.
  assert (forall f, (sc_state s <> STATE_CLOSED -> f = (false, s, k)) -> (sc_state s = STATE_CLOSED -> opens s k f) ->
    (let '(_, s, k) := f in ([], s, k)) = (acc, s', k') -> sock_inv E B (A ++ acc) s' k') as Hopen.
  { intros [[ok s1] k1] Hb Ho [= <- <- <-]. rewrite app_nil_r. destruct (decide (sc_state s = STATE_CLOSED)) as [Ec|Ec].
    - by eapply opens_inv; [..|apply Ho|].
    - injection (Hb Ec) as -> -> ->. done. }
  destruct op; cbn [sock_step] in Es.
  - apply (Hopen (socket_connect s k)); [apply busy|apply socket_connect_opens|exact Es].
  - apply (Hopen (socket_listen s k)); [apply busy|apply socket_listen_opens|exact Es].
  - destruct (socket_acceptSync s k) as [c k1] eqn:Ea. injection Es as <- <- <-. by eapply accept_inv.
  - destruct (socket_close s k) as [s1 k1] eqn:Ea. injection Es as <- <- <-. rewrite app_nil_r. by eapply close_inv.
Qed.

(** A connection that is closed or stuck has the descriptor it was made with, or
    the invalid one of its last close. *)
Definition idle_fds : list Z := [0; INVALID_SOCKET].

Definition idle (s : SocketConnection) : Prop :=
  sc_state s <> STATE_CLOSING /\ (sc_state s = STATE_CLOSED \/ sc_state s = STATE_CONNECTING -> sc_readFD s ∈ idle_fds).

Lemma step_idle op s k acc s' k' : idle s -> sock_step op s k = (acc, s', k') -> idle s'.
Proof.
  intros Hi Es.
  assert (forall f, (sc_state s <> STATE_CLOSED -> f = (false, s, k)) -> (sc_state s = STATE_CLOSED -> opens s k f) ->
    (let '(_, s, k) := f in ([], s, k)) = (acc, s', k') -> idle s') as Hopen.
  { intros [[ok s1] k1] Hb Ho [= <- <- <-]. destruct (decide (sc_state s = STATE_CLOSED)) as [Ec|Ec]; [|by injection (Hb Ec) as -> -> ->].
    specialize (Ho Ec). destruct ok; cbn in Ho.
    - destruct Ho as [[Hs|Hs] _]; split; rewrite Hs; [done|by intros []|done|by intros []].
    - destruct Ho as (Hs & Hfd & _). split; [destruct Hs; congruence|]. intros _.
      destruct Hfd as [-> | ->]; [apply Hi; by left|right; left]. }
  destruct op; cbn [sock_step] in Es.
  - apply (Hopen (socket_connect s k)); [apply busy|apply socket_connect_opens|exact Es].
  - apply (Hopen (socket_listen s k)); [apply busy|apply socket_listen_opens|exact Es].
  - destruct (socket_acceptSync s k) as [c k1]. by injection Es as <- <- <-.
  - destruct (socket_close s k) as [s1 k1] eqn:Ec. injection Es as <- <- <-. unfold socket_close in Ec.
    destruct (sc_isClosed s); injection Ec as <- <-; [done|].
    destruct (state_setState STATE_CLOSED (set_sc_fds INVALID_SOCKET s)) as [H1 H2]. split; rewrite H1; [done|]. intros _. rewrite H2. right. left.
Qed.

Lemma run_inv E B A ops s k acc states s' k' :
  sock_inv E B A s k -> idle s -> sock_run ops s k = (acc, states, s', k') -> (E = idle_fds \/ STATE_CONNECTING ∉ states) ->
  sock_inv E B (A ++ acc) s' k'.
Proof.
  revert A s k acc states. induction ops as [|op ops IH]; intros A s k acc states Hi Hid; cbn [sock_run].
  { intros [= <- <- <- <-] _. by rewrite app_nil_r. }
  destruct (sock_step op s k) as [[acc1 s1] k1] eqn:E1. destruct (sock_run ops s1 k1) as [[[acc2 states2] s2] k2] eqn:E2.
  intros [= <- <- <- <-]. rewrite not_elem_of_cons. intros He. rewrite app_assoc. pose proof (step_idle _ _ _ _ _ _ Hid E1) as Hid1.
  eapply (IH _ s1 k1); [|done|done|tauto]. eapply step_inv; [done|apply Hid|done|].
  intros Hc. destruct He as [->|[He _]]; [apply Hid1; by right|congruence].
Qed.

(** How a connection gets stuck. *)
Lemma create_fails s k s' k' : _createSocket s k = (false, s', k') -> exists family, (sys_socket family k).1 = None.
Proof.
  unfold _createSocket. destruct (sys_socket _ k) as [[fd|] k1] eqn:E; [done|]. intros _. eexists. by rewrite E.
Qed.

Lemma connect_stuck s k ok s' k' :
  socket_connect s k = (ok, s', k') -> sc_state s <> STATE_CONNECTING -> sc_state s' = STATE_CONNECTING ->
  exists family, (sys_socket family k).1 = None.
Proof.
  unfold socket_connect. intros E Hs Hs'. destruct (sc_isClosed s) eqn:Ec; cbn [negb] in E; [|by simplify_eq].
  destruct (_ =? 0); [by simplify_eq|]. destruct (_parseAddress _ k); [|by simplify_eq].
  destruct (_createSocket _ k) as [[[] s1] k1] eqn:Ecr; [|by eapply create_fails]. cbn [negb] in E.
  assert (forall k2, sc_state (socket_close s1 k2).1 = STATE_CLOSED) as Hcl by (intros; apply sock_close_spec).
  destruct (_ =? 0); [injection E as <- <- <-; by rewrite Hcl in Hs'|]. destruct (connect_loop _ _ _ k1) as [n k2].
  destruct (negb _); injection E as <- <- <-; [by rewrite Hcl in Hs'|]. by rewrite (proj1 (state_setState _ _)) in Hs'.
Qed.

Lemma listen_stuck s k ok s' k' :
  socket_listen s k = (ok, s', k') -> sc_state s <> STATE_CONNECTING -> sc_state s' = STATE_CONNECTING ->
  (exists family, (sys_socket family k).1 = None) \/ _parseAddress (sc_description s) k = None.
Proof.
  unfold socket_listen. intros E Hs Hs'. destruct (sc_isClosed s) eqn:Ec; cbn [negb] in E; [|by simplify_eq].
  assert (sc_description (sc_setState STATE_CONNECTING s) = sc_description s) as Hd by (unfold sc_setState; by case_bool_decide).
  rewrite Hd in E. destruct (_parseAddress _ k); [left|by right].
  destruct (_createSocket _ k) as [[[] s1] k1] eqn:Ecr; [|by eapply create_fails]. cbn [negb] in E.
  assert (forall k2, sc_state (socket_close s1 k2).1 = STATE_CLOSED) as Hcl by (intros; apply sock_close_spec).
  destruct (sys_bind _ _ k1) as [[] k2]; cbn [negb] in E; [|injection E as <- <- <-; by rewrite Hcl in Hs'].
  destruct (sys_listen _ k2) as [[] k3]; cbn [negb] in E; injection E as <- <- <-; [|by rewrite Hcl in Hs'].
  by rewrite (proj1 (state_setState _ _)) in Hs'.
Qed.

Lemma step_stuck op s k acc s' k' :
  sc_state s <> STATE_CONNECTING -> sock_step op s k = (acc, s', k') -> sc_state s' = STATE_CONNECTING ->
  (exists family, (sys_socket family k).1 = None) \/ op = SListen /\ _parseAddress (sc_description s) k = None.
Proof.
  intros Hs E Hs'. destruct op; cbn in E.
  - destruct (socket_connect s k) as [[ok s1] k1] eqn:Ec. simplify_eq. left. by eapply connect_stuck.
  - destruct (socket_listen s k) as [[ok s1] k1] eqn:Ec. simplify_eq. apply listen_stuck in Ec; [|done..]. tauto.
  - destruct (socket_acceptSync s k). by simplify_eq.
  - pose proof (proj1 (sock_close_spec s k)) as Hcl. destruct (socket_close s k) as [s1 k1]. cbn in Hcl. injection E as _ <- _. by rewrite Hs' in Hcl.
Qed.

(** ** Connecting *)

(** The socket connects at the attempt after [j] interrupted ones. *)
Inductive connects (fd : Z) (a : SockAddr) : nat -> K -> K -> Prop :=
| connects_now k k' : sys_connect fd a k = (None, k') -> connects fd a 0 k k'
| connects_later j k k1 k' : sys_connect fd a k = (Some EINTR, k1) -> connects fd a j k1 k' -> connects fd a (S j) k k'.

Lemma connect_loop_connects fd a j k k' n :
  connects fd a j k k' -> (j < n)%nat -> connect_loop n fd a k = (Z.of_nat n - 1 - Z.of_nat j, k').
Proof.
  intros H. revert n. induction H as [k k' E|j k k1 k' E _ IH]; intros [|n] Hn; try lia; cbn [connect_loop]; rewrite E.
  - f_equal. lia.
  - rewrite IH by lia. f_equal. lia.
Qed.

Lemma connect_loop_connected fd a n k m k' :
  connect_loop n fd a k = (m, k') -> 0 <= m -> exists j, connects fd a j k k' /\ (j < n)%nat /\ m = Z.of_nat n - 1 - Z.of_nat j.
Proof.
  revert k. induction n as [|n IH]; intros k; cbn [connect_loop]; [intros [= <- _]; lia|].
  destruct (sys_connect fd a k) as [[[]|] k1] eqn:E; try (intros [= <- _]; lia).
  - intros H Hm. destruct (IH _ H Hm) as (j & Hj & Hlt & ->). exists (S j). split_and!; [by econstructor|lia|lia].
  - intros [= <- <-] _. exists 0%nat. split_and!; [by constructor|lia|lia].
Qed.

(** Whether [connect] succeeds once it has a socket [s1] and an address: exactly if
    the socket connects within nine attempts, all but the last interrupted.  A
    socket that connects at the tenth attempt is closed, and [connect] fails. *)
Theorem connect_attempts s k d a s1 k1 :
  sc_state s = STATE_CLOSED -> cd_port (sc_description s) <> 0 ->
  d = (if String.eqb (cd_hostname (sc_description s)) "" then set_cd_hostname "127.0.0.1" (sc_description s) else sc_description s) ->
  _parseAddress d k = Some a -> sin_addr a <> 0 ->
  _createSocket (sc_setState STATE_CONNECTING (set_sc_description d s)) k = (true, s1, k1) ->
  ((socket_connect s k).1.1 = true <-> exists j k2, (j < 9)%nat /\ connects (sc_readFD s1) a j k1 k2) /\
  (forall k2, connects (sc_readFD s1) a 9 k1 k2 ->
     socket_connect s k = (false, (socket_close s1 k2).1, sock_close (sc_readFD s1) k2)).
Proof.
  intros Hc Hp -> Hd Ha Hs. unfold socket_connect, sc_isClosed. rewrite bool_decide_eq_true_2 by done. cbn [negb].
  rewrite (proj2 (Z.eqb_neq _ _) Hp), Hd, Hs. cbn [negb]. rewrite (proj2 (Z.eqb_neq _ _) Ha).
  apply createSocket_spec in Hs as [Hst _]. rewrite (proj1 (state_setState _ _)) in Hst. split.
  - destruct (connect_loop 10 (sc_readFD s1) a k1) as [m k2] eqn:E. split.
    + destruct (Z.gtb_spec m 0) as [Hm|]; cbn; [|done]. intros _.
      apply connect_loop_connected in E as (j & Hj & Hlt & ->); [|lia]. exists j, k2. split; [lia|done].
    + intros (j & k3 & Hj & Hcon). rewrite (connect_loop_connects _ _ _ _ _ 10 Hcon) in E by lia. injection E as <- <-.
      rewrite (proj2 (Z.gtb_lt _ _)) by lia. done.
  - intros k2 Hcon. rewrite (connect_loop_connects _ _ _ _ _ 10 Hcon) by lia. cbn. unfold socket_close, sc_isClosed. by rewrite Hst.
Qed.

(** C40: A socket connection leaks no descriptors.  Under every sequence of
    [connect], [listen], [acceptSync] and [close] on a closed socket connection,
    whatever the socket calls return: a descriptor that is open afterwards was open
    before, is the one the connection owns while it is connected or listening, or
    belongs to an accepted connection; in particular a connection that failed or
    was closed has left none.  The descriptor owned is open.  Descriptors that were
    open before and those of accepted connections stay open and are not the one
    owned; the exception is descriptor 0 (and the invalid one), if the connection
    got stuck in the connecting state and was closed, see
    [failed_listen_closes_stdin].  It gets stuck only if a socket could not be
    created or the host of a listener could not be resolved. *)
Theorem socket_descriptors ops s k acc states s' k' :
  sc_state s = STATE_CLOSED -> sc_readFD s ∈ idle_fds -> sock_run ops s k = (acc, states, s', k') ->
  (forall fd, fd_open k' fd = true -> fd_open k fd = true \/ owned s' = Some fd \/ fd ∈ acc) /\
  (forall fd, owned s' = Some fd -> fd_open k' fd = true) /\
  (forall fd, fd ∉ idle_fds \/ STATE_CONNECTING ∉ states ->
     (fd_open k fd = true \/ fd ∈ acc -> fd_open k' fd = true) /\
     (owned s' = Some fd -> fd_open k fd = false /\ fd ∉ acc)) /\
  (forall op acc' s'' k'', sock_step op s' k' = (acc', s'', k'') ->
     sc_state s' <> STATE_CONNECTING -> sc_state s'' = STATE_CONNECTING ->
     (exists family, (sys_socket family k').1 = None) \/ op = SListen /\ _parseAddress (sc_description s') k' = None).
Proof.
  intros Hc Hfd Er. assert (idle s) as Hid by (split; [by rewrite Hc|done]).
  assert (forall E, sock_inv E (fd_open k) [] s k) as Hi.
  { intros E. assert (forall fd, owned s <> Some fd) as Hn by (intros fd Hx; apply owned_state in Hx as [[Hx|Hx] _]; by rewrite Hc in Hx).
    split_and!; [by rewrite Hc|by left|intros fd Hx; by apply Hn in Hx|].
    intros fd _. split; [intros [?|?%elem_of_nil]; done|intros Hx; by apply Hn in Hx]. }
  destruct (run_inv idle_fds _ _ _ _ _ _ _ _ _ (Hi idle_fds) Hid Er (or_introl eq_refl)) as (_ & H2 & H3 & H4).
  split_and!; [exact H2|exact H3| |intros op acc' s'' k'' Es Hs Hs'; by eapply step_stuck].
  intros fd [He|Hst]; [by apply H4|].
  destruct (run_inv [] _ _ _ _ _ _ _ _ _ (Hi []) Hid Er (or_intror Hst)) as (_ & _ & _ & H5). apply H5, not_elem_of_nil.
Qed.

End lemmas.

(** ** A network *)

(** The open descriptors, what the next connects and accepts return, and whether
    sockets can be created; the only host is named localhost. *)
Record Net := mkNet {
  nt_open : gset Z;
  nt_connects : list (option Errno);
  nt_accepts : list (Sys SockAddr);
  nt_sockets : bool;
}.

Definition nt_add (fd : Z) (k : Net) : Net := mkNet ({[fd]} ∪ nt_open k) (nt_connects k) (nt_accepts k) (nt_sockets k).

#[export] Instance Net_Sockets : Sockets Net := {
  sys_socket _ k := if nt_sockets k then (Some (base.fresh (nt_open k)), nt_add (base.fresh (nt_open k)) k) else (None, k);
  sys_setsockopt _ _ k := k;
  sys_connect _ _ k := (default None (head (nt_connects k)), mkNet (nt_open k) (tl (nt_connects k)) (nt_accepts k) (nt_sockets k));
  sys_bind _ _ k := (true, k);
  sys_listen _ k := (true, k);
  sys_accept _ k :=
    let k' := mkNet (nt_open k) (nt_connects k) (tl (nt_accepts k)) (nt_sockets k) in
    match nt_accepts k with
    | SysOk a :: _ => (SysOk (base.fresh (nt_open k), a), nt_add (base.fresh (nt_open k)) k')
    | SysErr e :: _ => (SysErr e, k')
    | [] => (SysErr EAGAIN, k')
    end;
  sock_close fd k := mkNet (nt_open k ∖ {[fd]}) (nt_connects k) (nt_accepts k) (nt_sockets k);
  sys_getsockname _ _ := mkSockAddr 4242 INADDR_ANY;
  sys_getaddrinfo h _ := if String.eqb h "localhost" || String.eqb h "127.0.0.1" then Some 0x7f000001 else None;
  sys_getnameinfo _ _ := None;
  sys_gethostname _ := "localhost"%string;
  inet_ntoa _ := "127.0.0.1"%string;
}.

#[export] Instance Net_View : SocketsView Net := { fd_open k fd := bool_decide (fd ∈ nt_open k) }.

Lemma nt_add_open fd (k : Net) fd' : fd_open (nt_add fd k) fd' = (fd' =? fd) || fd_open k fd'.
Proof.
  cbn. apply eq_bool_prop_intro. rewrite orb_True, !bool_decide_spec, Is_true_true, Z.eqb_eq. set_solver.
Qed.

Lemma nt_fresh (k : Net) : fd_open k (base.fresh (nt_open k)) = false.
Proof. apply bool_decide_eq_false_2, is_fresh. Qed.

Lemma Net_Ok : SocketsOk Net.
Proof.
  split; try done.
  - intros f k fd k'. cbn [sys_socket Net_Sockets]. destruct (nt_sockets k); [|done]. intros [= <- <-].
    split; [apply nt_fresh|intros; apply nt_add_open].
  - intros f k k'. cbn [sys_socket Net_Sockets]. destruct (nt_sockets k); [done|]. by intros [= <-].
  - intros fd k fd1 addr k'. cbn [sys_accept Net_Sockets]. destruct (nt_accepts k) as [|[a|e] l]; [done| |done]. intros [= <- <- <-].
    split; [apply nt_fresh|intros; by rewrite nt_add_open].
  - intros fd k e k'. cbn [sys_accept Net_Sockets]. destruct (nt_accepts k) as [|[a|e'] l]; [|done|]; by intros [= <- <-].
  - intros fd k fd'. cbn. apply eq_bool_prop_intro. rewrite andb_True, negb_True, !bool_decide_spec, Is_true_true, Z.eqb_eq. set_solver.
Qed.

Definition sample_socket (host : string) (port : Z) : SocketConnection :=
  set_sc_description (set_cd_port port (set_cd_hostname host ConnectionDescription_init)) (SocketConnection_init CONNECTIONTYPE_TCPIP).
Definition sample_net : Net :=
  mkNet {[0; 1; 2]} [Some EINTR; None; Some (EOTHER 111)] [SysErr EINTR; SysOk (mkSockAddr 5000 9)] true.
Definition sample_sockops : list SockOp := [SConnect; SClose; SConnect; SListen; SAccept; SConnect].

Lemma socket_descriptors_witness :
  let '(acc, states, s, k) := sock_run sample_sockops (sample_socket "localhost" 4242) sample_net in
  states = [STATE_CONNECTED; STATE_CLOSED; STATE_CLOSED; STATE_LISTENING; STATE_LISTENING; STATE_LISTENING] /\
  Datatypes.length acc = 1%nat /\
  (forall fd, fd_open k fd = true -> fd_open sample_net fd = true \/ owned s = Some fd \/ fd ∈ acc) /\
  (forall fd, fd_open sample_net fd = true \/ fd ∈ acc -> fd_open k fd = true).
Proof.
  destruct (sock_run _ _ sample_net) as [[[acc states] s] k] eqn:E.
  assert (states = [STATE_CONNECTED; STATE_CLOSED; STATE_CLOSED; STATE_LISTENING; STATE_LISTENING; STATE_LISTENING] /\ Datatypes.length acc = 1%nat)
    as [Hst Hacc] by (vm_compute in E; injection E as <- <- _ _; done).
  destruct (socket_descriptors (SocketsOk0 := Net_Ok) sample_sockops (sample_socket "localhost" 4242) sample_net acc states s k)
    as (H1 & _ & H3 & _); [done|left|done|]. split_and!; [done|done|done|].
  intros fd. apply H3. right. rewrite Hst. set_solver.
Defined.

(** A socket that connects at the tenth attempt is not used. *)
Lemma tenth_attempt_fails :
  (socket_connect (sample_socket "localhost" 4242) (mkNet {[0; 1; 2]} (repeat (Some EINTR) 9 ++ [None]) [] true)).1.1 = false /\
  (socket_connect (sample_socket "localhost" 4242) (mkNet {[0; 1; 2]} (repeat (Some EINTR) 8 ++ [None]) [] true)).1.1 = true.
Proof. by vm_compute. Qed.

(** A listener whose host cannot be resolved stays in the connecting state; it can
    not be used again, and closing it closes the standard input. *)
Lemma failed_listen_closes_stdin :
  let '(ok, s, k) := socket_listen (sample_socket "nohost" 0) sample_net in
  ok = false /\ sc_state s = STATE_CONNECTING /\ (socket_listen s k).1.1 = false /\
  fd_open k 0 = true /\ fd_open (socket_close s k).2 0 = false.
Proof. by vm_compute. Qed.
