(* ===== verification/LocalNode.v ===== *)
(** * Nodes and the connection handshake (co/node.cpp, localNode.cpp)

    A local node knows other nodes by identifier and by connection.  Nodes connect
    by a handshake of three commands: connect, reply and acknowledgement; both may
    try at the same time.  A handler returns the new state and what it does to
    connections.  Node objects live in a heap and are referred to by address, as
    the same object is reached by its identifier, by connections and by requests. *)

From S2P Require Import Prelude Bytes ConnectionDescription.

Inductive NodeState := NODE_CLOSED | NODE_CONNECTED | NODE_LISTENING | NODE_CLOSING.

#[export] Instance NodeState_eq_dec : EqDecision NodeState.
Proof. solve_decision. Defined.

Definition LB_UNDEFINED_UINT32 : Z := 0xffffffff.
Definition NODETYPE_INVALID : Z := 0.

(** [detail::Node]; [multicasts] lists connections with the node they announce. *)
Record Node := mkNode {
  n_id : Z;
  n_type : Z;
  n_state : NodeState;
  n_outgoing : option Z;
  n_outMulticast : option Z;
  n_multicasts : list (Z * Z);
  n_descriptions : list ConnectionDescription;
  n_lastReceive : Z;
  n_bigEndian : bool
}.

Definition Node_init (id type : Z) (be : bool) : Node := mkNode id type NODE_CLOSED None None [] [] 0 be.

Definition set_n_state (s : NodeState) (n : Node) : Node :=
  mkNode (n_id n) (n_type n) s (n_outgoing n) (n_outMulticast n) (n_multicasts n) (n_descriptions n) (n_lastReceive n) (n_bigEndian n).
Definition set_n_outMulticast (c : option Z) (n : Node) : Node :=
  mkNode (n_id n) (n_type n) (n_state n) (n_outgoing n) c (n_multicasts n) (n_descriptions n) (n_lastReceive n) (n_bigEndian n).
Definition set_n_multicasts (m : list (Z * Z)) (n : Node) : Node :=
  mkNode (n_id n) (n_type n) (n_state n) (n_outgoing n) (n_outMulticast n) m (n_descriptions n) (n_lastReceive n) (n_bigEndian n).
Definition set_n_descriptions (ds : list ConnectionDescription) (n : Node) : Node :=
  mkNode (n_id n) (n_type n) (n_state n) (n_outgoing n) (n_outMulticast n) (n_multicasts n) ds (n_lastReceive n) (n_bigEndian n).
Definition _setLastReceive (time : Z) (n : Node) : Node :=
  mkNode (n_id n) (n_type n) (n_state n) (n_outgoing n) (n_outMulticast n) (n_multicasts n) (n_descriptions n) time (n_bigEndian n).

(** ** Node *)

Definition isConnected (n : Node) : bool := bool_decide (n_state n = NODE_CONNECTED).
Definition isListening (n : Node) : bool := bool_decide (n_state n = NODE_LISTENING).
Definition isClosed (n : Node) : bool := bool_decide (n_state n = NODE_CLOSED).
Definition isReachable (n : Node) : bool := isListening n || isConnected n.

(** [Node::_connect] and [_disconnect] *)
Definition Node_connect (c : Z) (n : Node) : Node :=
  mkNode (n_id n) (n_type n) NODE_CONNECTED (Some c) (n_outMulticast n) (n_multicasts n) (n_descriptions n) (n_lastReceive n) (n_bigEndian n).
Definition Node_disconnect (n : Node) : Node :=
  mkNode (n_id n) (n_type n) NODE_CLOSED None None [] (n_descriptions n) (n_lastReceive n) (n_bigEndian n).

(** What [serialize] sends and [deserialize] sets. *)
Definition node_data (n : Node) : NodeData := mkNodeData (n_id n) (n_bigEndian n) (n_descriptions n).
Definition set_data (d : NodeData) (n : Node) : Node :=
  mkNode (nd_id d) (n_type n) (n_state n) (n_outgoing n) (n_outMulticast n) (n_multicasts n) (nd_descriptions d) (n_lastReceive n) (nd_bigEndian d).

Definition addConnectionDescription (d : ConnectionDescription) (n : Node) : Node :=
  if isClosed n then set_n_descriptions (n_descriptions n ++ [d]) n else n.

Definition description_eqb (d rhs : ConnectionDescription) : bool :=
  bool_decide (cd_type d = cd_type rhs) && (cd_bandwidth d =? cd_bandwidth rhs) && (cd_port d =? cd_port rhs) &&
  String.eqb (cd_hostname d) (cd_hostname rhs) && String.eqb (cd_interfacename d) (cd_interfacename rhs) &&
  String.eqb (cd_filename d) (cd_filename rhs).

(** The first description with these values is erased. *)
Fixpoint erase_description (d : ConnectionDescription) (ds : list ConnectionDescription) : option (list ConnectionDescription) :=
  match ds with
  | [] => None
  | x :: ds => if description_eqb d x then Some ds else ds ← erase_description d ds; Some (x :: ds)
  end.

Definition _removeConnectionDescription (d : ConnectionDescription) (n : Node) : bool * Node :=
  match erase_description d (n_descriptions n) with
  | Some ds => (true, set_n_descriptions ds n)
  | None => (false, n)
  end.

(** ** Multicast *)

Section multicast.

(** The description of a connection and whether it is closed. *)
Context (descriptionOf : Z -> ConnectionDescription) (connClosed : Z -> bool).

Definition isMulticastConn (c : Z) : bool := is_multicast (cd_type (descriptionOf c)).

(** [getMulticast]: the connection and, if it is used for the first time, the node
    announced on it. *)
Definition getMulticast (n : Node) : option (Z * option Z) * Node :=
  if negb (isReachable n) then (None, n)
  else
    match n_outMulticast n with
    | Some c => if negb (connClosed c) then (Some (c, None), n) else
        match last (n_multicasts n) with
        | None => (None, n)
        | Some (c, node) => (Some (c, Some node), set_n_outMulticast (Some c) (set_n_multicasts (removelast (n_multicasts n)) n))
        end
    | None =>
        match last (n_multicasts n) with
        | None => (None, n)
        | Some (c, node) => (Some (c, Some node), set_n_outMulticast (Some c) (set_n_multicasts (removelast (n_multicasts n)) n))
        end
    end.

Definition _addMulticast (node c : Z) (n : Node) : Node := set_n_multicasts (n_multicasts n ++ [(c, node)]) n.

Fixpoint erase_multicast (c : Z) (l : list (Z * Z)) : list (Z * Z) :=
  match l with
  | [] => []
  | x :: l => if x.1 =? c then l else x :: erase_multicast c l
  end.

Definition _removeMulticast (c : Z) (n : Node) : Node :=
  if bool_decide (n_outMulticast n = Some c) then set_n_outMulticast None n
  else set_n_multicasts (erase_multicast c (n_multicasts n)) n.

(** The groups the local node shares with a node that has connected: the group it
    uses already, or the connections to groups it has not used yet.  Descriptions
    are compared by value; the code compares the pointers, which a connection and
    the list of the node share. *)
Definition shared_group (self : Node) (description : ConnectionDescription) (node : Node) (from : ConnectionDescription) : Node :=
  if negb (isSameMulticastGroup description from) then node
  else
    match n_outMulticast self with
    | Some c =>
        if description_eqb (descriptionOf c) description then set_n_outMulticast (Some c) node
        else set_n_multicasts (n_multicasts node ++
               filter (fun data => isSameMulticastGroup description (descriptionOf data.1) = true) (n_multicasts self)) node
    | None =>
        set_n_multicasts (n_multicasts node ++
          filter (fun data => isSameMulticastGroup description (descriptionOf data.1) = true) (n_multicasts self)) node
    end.

Definition _connectMulticast (self node : Node) : Node :=
  match n_outMulticast node with
  | Some _ => node
  | None =>
      foldl (fun node description =>
        if is_multicast (cd_type description) then foldl (shared_group self description) node (n_descriptions node) else node)
        node (n_descriptions self)
  end.

(** [_connectMulticast( node, connection )]: the local node and the other one, or
    the local node alone if they are the same. *)
Definition _connectMulticast_conn (selfPtr : Z) (self node : Node) (c : Z) : Node * Node :=
  let known := existsb (fun data => data.1 =? c) (n_multicasts node) in
  match n_outMulticast node with
  | Some c' =>
      if (c' =? c) || known then (self, node) else (set_n_multicasts (n_multicasts self ++ [(c, selfPtr)]) self, node)
  | None => (self, set_n_multicasts (erase_multicast c (n_multicasts node)) (set_n_outMulticast (Some c) node))
  end.

End multicast.

(** ** The local node *)

(** The commands of the handshake.  A reply that refuses has the identifier 0 and no
    data. *)
Inductive NodeMessage :=
| MConnect (nodeID requestID nodeType : Z) (data : NodeData)
| MConnectReply (nodeID requestID : Z) (rest : option (Z * NodeData))
| MConnectAck
| MID (nodeID nodeType : Z) (data : NodeData)
| MGetNodeData (nodeID requestID : Z)
| MGetNodeDataReply (nodeID requestID nodeType : Z) (data : option NodeData).

(** What a handler does to connections, and what it tells others. *)
Inductive Effect :=
| ESend (c : Z) (m : NodeMessage)
| EClose (c : Z)
| ENotifyConnect (p : Z)
| ENotifyDisconnect (p : Z)
| ERemoveNode (p : Z)
| ERemoveInstanceData (nodeID : Z).

(** The result of a request: a flag or a node. *)
Inductive NodeResult := NVoid | NBool (b : bool) | NNode (p : option Z).

Record LocalNode := mkLocalNode {
  ln_self : Z;
  ln_heap : gmap Z Node;
  ln_nodes : gmap Z Z;
  ln_connectionNodes : gmap Z Z;
  ln_incoming : list Z;
  ln_requests : gmap Z (option Z * option NodeResult)
}.

Definition set_ln_heap (h : gmap Z Node) (l : LocalNode) : LocalNode :=
  mkLocalNode (ln_self l) h (ln_nodes l) (ln_connectionNodes l) (ln_incoming l) (ln_requests l).
Definition set_ln_nodes (m : gmap Z Z) (l : LocalNode) : LocalNode :=
  mkLocalNode (ln_self l) (ln_heap l) m (ln_connectionNodes l) (ln_incoming l) (ln_requests l).
Definition set_ln_connectionNodes (m : gmap Z Z) (l : LocalNode) : LocalNode :=
  mkLocalNode (ln_self l) (ln_heap l) (ln_nodes l) m (ln_incoming l) (ln_requests l).
Definition set_ln_incoming (i : list Z) (l : LocalNode) : LocalNode :=
  mkLocalNode (ln_self l) (ln_heap l) (ln_nodes l) (ln_connectionNodes l) i (ln_requests l).
Definition set_ln_requests (r : gmap Z (option Z * option NodeResult)) (l : LocalNode) : LocalNode :=
  mkLocalNode (ln_self l) (ln_heap l) (ln_nodes l) (ln_connectionNodes l) (ln_incoming l) r.

Section localnode.

(** Addresses of new nodes, identifiers of new requests, which types of nodes the
    application creates, and the connections. *)
Context (newNode : gmap Z Node -> Z) (newRequest : gmap Z (option Z * option NodeResult) -> Z).
Context (canCreate : Z -> bool) (be : bool).
Context (descriptionOf : Z -> ConnectionDescription) (connClosed : Z -> bool).

Definition node_at (p : Z) (l : LocalNode) : Node := default (Node_init 0 NODETYPE_INVALID be) (ln_heap l !! p).
Definition update_node (p : Z) (f : Node -> Node) (l : LocalNode) : LocalNode := set_ln_heap (alter f p (ln_heap l)) l.
Definition self (l : LocalNode) : Node := node_at (ln_self l) l.

(** [createNode] *)
Definition createNode (type : Z) (l : LocalNode) : option (Z * LocalNode) :=
  if canCreate type then
    let p := newNode (ln_heap l) in Some (p, set_ln_heap (<[p := Node_init 0 type be]> (ln_heap l)) l)
  else None.

Definition NodeRequest_serve (id : Z) (result : NodeResult) (l : LocalNode) : LocalNode :=
  match ln_requests l !! id with
  | Some (data, _) => set_ln_requests (<[id := (data, Some result)]> (ln_requests l)) l
  | None => l
  end.

(** [_addConnection] and [_removeConnection] *)
Definition LocalNode_addConnection (c : Z) (l : LocalNode) : LocalNode := set_ln_incoming (ln_incoming l ++ [c]) l.

Definition LocalNode_removeConnection (c : Z) (l : LocalNode) : LocalNode * list Effect :=
  (set_ln_incoming (filter (fun c' => c' <> c) (ln_incoming l)) l, if connClosed c then [] else [EClose c]).

Definition erase_connection (c : option Z) (l : LocalNode) : LocalNode * list Effect :=
  match c with
  | None => (l, [])
  | Some c =>
      let '(l, out) := LocalNode_removeConnection c l in
      (set_ln_connectionNodes (delete c (ln_connectionNodes l)) l, out)
  end.

Definition _closeNode (p : Z) (l : LocalNode) : LocalNode * list Effect :=
  let node := node_at p l in
  let l := update_node p Node_disconnect l in
  let '(l, out) := erase_connection (n_outgoing node) l in
  let '(l, out') := erase_connection (n_outMulticast node) l in
  (set_ln_nodes (delete (n_id node) (ln_nodes l)) l,
   out ++ out' ++ [ERemoveInstanceData (n_id node); ENotifyDisconnect p]).

(** [_connect( node, connection )] up to the wait for the request. *)
Definition LocalNode_connect (p c : Z) (l : LocalNode) : option (Z * LocalNode * list Effect) :=
  if negb (isListening (self l)) || connClosed c || negb (isClosed (node_at p l)) then None
  else
    let l := LocalNode_addConnection c l in
    let request := newRequest (ln_requests l) in
    let l := set_ln_requests (<[request := (Some p, None)]> (ln_requests l)) l in
    Some (request, l, [ESend c (MConnect (n_id (self l)) request (n_type (self l)) (node_data (self l)))]).

(** Its result: [CONNECT_OK] or [CONNECT_TRY_AGAIN], [None] while it waits. *)
Definition connect_result (p request : Z) (l : LocalNode) : option bool :=
  match ln_requests l !! request with
  | Some (_, Some (NBool connected)) => Some (connected && isConnected (node_at p l))
  | _ => None
  end.

Definition _cmdConnect (c nodeID requestID nodeType : Z) (data : NodeData) (l : LocalNode) : LocalNode * list Effect :=
  let refuse l :=
    let '(l, out) := LocalNode_removeConnection c l in (l, ESend c (MConnectReply 0 requestID None) :: out) in
  let accept p l :=
    let l := update_node p (set_data data) l in
    let l := set_ln_connectionNodes (<[c := p]> (ln_connectionNodes l)) l in
    let l := set_ln_nodes (<[n_id (node_at p l) := p]> (ln_nodes l)) l in
    (l, [ESend c (MConnectReply (n_id (self l)) requestID (Some (n_type (self l), node_data (self l))))]) in
  match ln_nodes l !! nodeID with
  | Some p => if isReachable (node_at p l) then refuse l else accept p l
  | None =>
      match createNode nodeType l with
      | Some (p, l) => accept p l
      | None => refuse l
      end
  end.

Definition _cmdConnectReply (c nodeID requestID : Z) (rest : option (Z * NodeData)) (l : LocalNode) : LocalNode * list Effect :=
  match rest with
  | None =>
      let '(l, out) := LocalNode_removeConnection c l in (NodeRequest_serve requestID (NBool false) l, out)
  | Some (nodeType, data) =>
      let connect p l :=
        let l := update_node p (set_data data) l in
        let l := update_node p (Node_connect c) l in
        let l := set_ln_connectionNodes (<[c := p]> (ln_connectionNodes l)) l in
        let l := set_ln_nodes (<[n_id (node_at p l) := p]> (ln_nodes l)) l in
        let l := update_node p (_connectMulticast descriptionOf (self l)) l in
        (NodeRequest_serve requestID (NBool true) l, [ESend c MConnectAck; ENotifyConnect p]) in
      let create l :=
        if requestID =? LB_UNDEFINED_UINT32 then createNode nodeType l
        else match ln_requests l !! requestID with Some (Some p, _) => Some (p, l) | _ => None end in
      match ln_nodes l !! nodeID with
      | Some p =>
          if isReachable (node_at p l) then
            let '(l, out) := LocalNode_removeConnection c l in
            let '(l, out') := _closeNode p l in
            (NodeRequest_serve requestID (NBool false) l, out ++ out')
          else connect p l
      | None =>
          match create l with
          | Some (p, l) => connect p l
          | None => LocalNode_removeConnection c l
          end
      end
  end.

(** [None] for a command of an unknown node, which the receiver thread refuses. *)
Definition _cmdConnectAck (c : Z) (l : LocalNode) : option (LocalNode * list Effect) :=
  p ← ln_connectionNodes l !! c;
  let l := update_node p (Node_connect c) l in
  let l := update_node p (_connectMulticast descriptionOf (self l)) l in
  Some (l, [ENotifyConnect p]).

Definition _cmdID (c nodeID nodeType : Z) (data : NodeData) (l : LocalNode) : option LocalNode :=
  match ln_connectionNodes l !! c with
  | Some _ => Some l
  | None =>
      '(p, l) ←
        (if nodeID =? n_id (self l) then Some (ln_self l, l)
         else match ln_nodes l !! nodeID with
              | Some p => Some (p, l)
              | None =>
                  '(p, l) ← createNode nodeType l;
                  Some (p, set_ln_nodes (<[nodeID := p]> (ln_nodes l)) (update_node p (set_data data) l))
              end);
      let '(me, node) := _connectMulticast_conn (ln_self l) (self l) (node_at p l) c in
      let l := if p =? ln_self l then update_node p (fun _ => if bool_decide (n_outMulticast (self l) = None) then node else me) l
               else update_node p (fun _ => node) (update_node (ln_self l) (fun _ => me) l) in
      Some (set_ln_connectionNodes (<[c := p]> (ln_connectionNodes l)) l)
  end.

(** [disconnect] up to its wait, and the handler *)
Definition disconnect (p : Z) (l : LocalNode) : option (Z * LocalNode) :=
  if isListening (self l) && isConnected (node_at p l) then
    let request := newRequest (ln_requests l) in
    Some (request, set_ln_requests (<[request := (Some p, None)]> (ln_requests l)) l)
  else None.

Definition _cmdDisconnect (requestID : Z) (l : LocalNode) : option (LocalNode * list Effect) :=
  match ln_requests l !! requestID with
  | Some (Some p, _) => let '(l, out) := _closeNode p l in Some (NodeRequest_serve requestID NVoid l, out)
  | _ => None
  end.

(** [getNode]: nodes that are not reachable are not found. *)
Definition getNode (id : Z) (l : LocalNode) : option Z :=
  p ← ln_nodes l !! id; if isReachable (node_at p l) then Some p else None.

Definition _cmdGetNodeData (nodeID requestID : Z) (l : LocalNode) : NodeMessage :=
  match getNode nodeID l with
  | Some p => MGetNodeDataReply nodeID requestID (n_type (node_at p l)) (Some (node_data (node_at p l)))
  | None => MGetNodeDataReply nodeID requestID NODETYPE_INVALID None
  end.

Definition _cmdGetNodeDataReply (nodeID requestID nodeType : Z) (data : option NodeData) (l : LocalNode) : LocalNode :=
  match ln_nodes l !! nodeID with
  | Some p => NodeRequest_serve requestID (NNode (Some p)) l
  | None =>
      if nodeType =? NODETYPE_INVALID then NodeRequest_serve requestID (NNode None) l
      else
        match createNode nodeType l with
        | Some (p, l) =>
            NodeRequest_serve requestID (NNode (Some p)) (match data with Some d => update_node p (set_data d) l | None => l end)
        | None => NodeRequest_serve requestID (NNode None) l
        end
  end.

(** [_handleDisconnect], after the remaining data was read *)
Definition _handleDisconnect (c : Z) (l : LocalNode) : LocalNode * list Effect :=
  let '(l, out) :=
    match ln_connectionNodes l !! c with
    | Some p =>
        let '(l, out) :=
          if bool_decide (n_outgoing (node_at p l) = Some c) then _closeNode p l
          else if isMulticastConn descriptionOf c then (update_node p (_removeMulticast c) l, [])
          else (l, []) in
        (l, ERemoveNode p :: out)
    | None => (l, [])
    end in
  let '(l, out') := LocalNode_removeConnection c l in
  (l, out ++ out').

(** The receiver thread on a command of a connection. *)
Definition receive_message (c : Z) (m : NodeMessage) (l : LocalNode) : option (LocalNode * list Effect) :=
  match m with
  | MConnect nodeID requestID nodeType data => Some (_cmdConnect c nodeID requestID nodeType data l)
  | MConnectReply nodeID requestID rest => Some (_cmdConnectReply c nodeID requestID rest l)
  | MConnectAck => _cmdConnectAck c l
  | MID nodeID nodeType data => l ← _cmdID c nodeID nodeType data l; Some (l, [])
  | MGetNodeData nodeID requestID =>
      p ← ln_connectionNodes l !! c;
      out ← n_outgoing (node_at p l);
      Some (l, [ESend out (_cmdGetNodeData nodeID requestID l)])
  | MGetNodeDataReply nodeID requestID nodeType data => Some (_cmdGetNodeDataReply nodeID requestID nodeType data l, [])
  end.

End localnode.
