(* ===== verification/Handshake.v ===== *)
(** * Two nodes that connect to each other (co/localNode.cpp)

    Two local nodes, the connections between them, and the commands on their way:
    either node may start to connect at any time, commands of different
    connections arrive in any order, and a connection closed by one side is seen
    by the other after what was sent before.  The states are finitely many and are
    enumerated; what holds of all of them is checked by evaluation. *)

From S2P Require Import Prelude Bytes ConnectionDescription LocalNode.

#[export] Instance ConnectionDescription_eq_dec : EqDecision ConnectionDescription.
Proof. solve_decision. Defined.
#[export] Instance NodeData_eq_dec : EqDecision NodeData.
Proof. solve_decision. Defined.
#[export] Instance Node_eq_dec : EqDecision Node.
Proof. solve_decision. Defined.
#[export] Instance NodeMessage_eq_dec : EqDecision NodeMessage.
Proof. solve_decision. Defined.
#[export] Instance NodeResult_eq_dec : EqDecision NodeResult.
Proof. solve_decision. Defined.
#[export] Instance LocalNode_eq_dec : EqDecision LocalNode.
Proof. solve_decision. Defined.

(** A connection: the commands on their way to the first and the second node, and
    which of them has closed it. *)
Record Wire := mkWire { w_to1 : list NodeMessage; w_to2 : list NodeMessage; w_closed1 : bool; w_closed2 : bool }.

Record Pair := mkPair { pr_1 : LocalNode; pr_2 : LocalNode; pr_wires : gmap Z Wire }.

#[export] Instance Wire_eq_dec : EqDecision Wire.
Proof. solve_decision. Defined.
#[export] Instance Pair_eq_dec : EqDecision Pair.
Proof. solve_decision. Defined.

(** The side of a pair: [true] is the second node. *)
Definition node_of (side : bool) (s : Pair) : LocalNode := if side then pr_2 s else pr_1 s.
Definition queue_to (side : bool) (w : Wire) : list NodeMessage := if side then w_to2 w else w_to1 w.
Definition closed_by (side : bool) (w : Wire) : bool := if side then w_closed2 w else w_closed1 w.

Definition set_node (side : bool) (l : LocalNode) (s : Pair) : Pair :=
  if side then mkPair (pr_1 s) l (pr_wires s) else mkPair l (pr_2 s) (pr_wires s).
Definition set_queue (side : bool) (q : list NodeMessage) (w : Wire) : Wire :=
  if side then mkWire (w_to1 w) q (w_closed1 w) (w_closed2 w) else mkWire q (w_to2 w) (w_closed1 w) (w_closed2 w).
Definition set_closed (side : bool) (w : Wire) : Wire :=
  if side then mkWire (w_to1 w) (w_to2 w) (w_closed1 w) true else mkWire (w_to1 w) (w_to2 w) true (w_closed2 w).
Definition set_wire (c : Z) (w : Wire) (s : Pair) : Pair := mkPair (pr_1 s) (pr_2 s) (<[c := w]> (pr_wires s)).

(** An effect of a handler of one side. *)
Definition apply_effect (side : bool) (s : Pair) (e : Effect) : Pair :=
  match e with
  | ESend c m =>
      match pr_wires s !! c with
      | Some w => set_wire c (set_queue (negb side) (queue_to (negb side) w ++ [m]) w) s
      | None => s
      end
  | EClose c => match pr_wires s !! c with Some w => set_wire c (set_closed side w) s | None => s end
  | _ => s
  end.

Definition after (side : bool) (s : Pair) (r : LocalNode * list Effect) : Pair :=
  foldl (apply_effect side) (set_node side r.1 s) r.2.

(** ** Steps *)

Definition fresh_node (h : gmap Z Node) : Z := Z.of_nat (size h).
Definition fresh_request (r : gmap Z (option Z * option NodeResult)) : Z := Z.of_nat (size r).
Definition unicast (_ : Z) : ConnectionDescription := ConnectionDescription_init.
Definition wire_closed (side : bool) (s : Pair) (c : Z) : bool :=
  match pr_wires s !! c with Some w => closed_by side w | None => true end.

Definition id_of (side : bool) : Z := if side then 200 else 100.

(** One side connects to the other on a new connection, as [_connect( nodeID, peer )]
    does: first the node at address 1, the one it was given; and again, once it was
    told to try again, the node that is known by then, unless it is reachable. *)
Definition start_connect (side : bool) (c : Z) (again : bool) (s : Pair) : list Pair :=
  let l := node_of side s in
  let p := if again then default 1 (ln_nodes l !! id_of (negb side)) else 1 in
  let ready := if again then bool_decide (connect_result false 1 0 l = Some false) && negb (isReachable (node_at false p l)) else true in
  match pr_wires s !! c with
  | Some _ => []
  | None =>
      let s := set_wire c (mkWire [] [] false false) s in
      match (if ready then LocalNode_connect fresh_request false (wire_closed side s) p c l else None) with
      | Some (_, l, out) => [set_node (negb side) (LocalNode_addConnection c (node_of (negb side) s)) (after side s (l, out))]
      | None => []
      end
  end.

(** The next command of a connection. *)
Definition deliver (side : bool) (s : Pair) (c : Z) : list Pair :=
  match pr_wires s !! c with
  | Some w =>
      match queue_to side w with
      | m :: q =>
          if bool_decide (c ∈ ln_incoming (node_of side s)) then
            match receive_message fresh_node (fun _ => true) false unicast (wire_closed side s) c m (node_of side s) with
            | Some r => [after side (set_wire c (set_queue side q w) s) r]
            | None => []
            end
          else []
      | [] => []
      end
  | None => []
  end.

(** The other side has closed a connection. *)
Definition hang_up (side : bool) (s : Pair) (c : Z) : list Pair :=
  match pr_wires s !! c with
  | Some w =>
      if closed_by (negb side) w && bool_decide (queue_to side w = []) && bool_decide (c ∈ ln_incoming (node_of side s)) then
        [after side s (_handleDisconnect false unicast (wire_closed side s) c (node_of side s))]
      else []
  | None => []
  end.

(** The first node disconnects the second. *)
Definition hang_up_first (s : Pair) : list Pair :=
  match getNode false (id_of true) (pr_1 s) with
  | Some p =>
      match disconnect fresh_request false p (pr_1 s) with
      | Some (request, l) =>
          match _cmdDisconnect false (wire_closed false s) request l with
          | Some r => [after false s r]
          | None => []
          end
      | None => []
      end
  | None => []
  end.

Definition wires : list Z := [1; 2; 3; 4].

(** Steps of the system itself, and those its users may start. *)
Definition internal (s : Pair) : list Pair :=
  concat ((fun c => deliver false s c ++ deliver true s c ++ hang_up false s c ++ hang_up true s c) <$> wires).

Definition external (hangup : bool) (s : Pair) : list Pair :=
  start_connect false 1 false s ++ start_connect true 2 false s ++
  start_connect false 3 true s ++ start_connect true 4 true s ++ (if hangup then hang_up_first s else []).

Definition local_node (side : bool) : LocalNode :=
  mkLocalNode 0 {[0 := set_n_state NODE_LISTENING (Node_init (id_of side) 1 false);
                  1 := Node_init (id_of (negb side)) 1 false]}
    {[id_of side := 0]} ∅ [] ∅.

Definition pair_start : Pair := mkPair (local_node false) (local_node true) ∅.

Inductive pair_reachable (hangup : bool) : Pair -> Prop :=
| pair_init : pair_reachable hangup pair_start
| pair_internal s s' : pair_reachable hangup s -> s' ∈ internal s -> pair_reachable hangup s'
| pair_external s s' : pair_reachable hangup s -> s' ∈ external hangup s -> pair_reachable hangup s'.

(** ** Enumeration *)

(** States are kept in buckets by a digest, so that few have to be compared. *)
Definition wire_digest (w : option Wire) : Z :=
  match w with
  | Some w => 1 + Z.of_nat (length (w_to1 w)) + 4 * Z.of_nat (length (w_to2 w)) + (if w_closed1 w then 16 else 0) +
              (if w_closed2 w then 32 else 0)
  | None => 0
  end.

Definition node_digest (l : LocalNode) : Z :=
  Z.of_nat (size (ln_heap l)) + 4 * Z.of_nat (length (ln_incoming l)) + 20 * Z.of_nat (size (ln_connectionNodes l)).

Definition digest (s : Pair) : Z :=
  foldl (fun d c => d * 64 + wire_digest (pr_wires s !! c)) (node_digest (pr_1 s) * 128 + node_digest (pr_2 s)) wires.

Abbreviation Seen := (gmap Z (list Pair)).

Definition seen_in (s : Pair) (seen : Seen) : bool := bool_decide (s ∈ default [] (seen !! digest s)).
Definition add_seen (s : Pair) (seen : Seen) : Seen := <[digest s := s :: default [] (seen !! digest s)]> seen.
Definition all_seen (seen : Seen) : list Pair := concat (map_to_list seen).*2.

Fixpoint explore (fuel : nat) (hangup : bool) (todo : list Pair) (seen : Seen) : Seen :=
  match fuel, todo with
  | S fuel, s :: todo =>
      if seen_in s seen then explore fuel hangup todo seen
      else explore fuel hangup (internal s ++ external hangup s ++ todo) (add_seen s seen)
  | _, _ => seen
  end.

(** ** What is to hold *)

Definition quiescent (s : Pair) : bool := bool_decide (internal s = []).

(** A side reads what the other one sends to it: the connection the other side uses
    is open, it is received from, and it is known whose it is. *)
Definition receives_from (side : bool) (s : Pair) (c : Z) : bool :=
  bool_decide (c ∈ ln_incoming (node_of side s)) && negb (wire_closed side s c) && negb (wire_closed (negb side) s c) &&
  bool_decide (ln_connectionNodes (node_of side s) !! c = ln_nodes (node_of side s) !! id_of (negb side)).

(** The connection one side uses to send to the other one. *)
Definition sends_on (side : bool) (s : Pair) : option Z :=
  p ← getNode false (id_of (negb side)) (node_of side s); n_outgoing (node_at false p (node_of side s)).

Definition agree (s : Pair) : bool :=
  match sends_on false s, sends_on true s with
  | Some c1, Some c2 => receives_from true s c1 && receives_from false s c2
  | None, None => true
  | _, _ => false
  end.

(** Every call of [connect] has been answered. *)
Definition answered (s : Pair) : bool :=
  forallb (fun r => bool_decide (r.2.2 <> None)) (map_to_list (ln_requests (pr_1 s))) &&
  forallb (fun r => bool_decide (r.2.2 <> None)) (map_to_list (ln_requests (pr_2 s))).

(** No command comes from a node that is not known. *)
Definition expected (side : bool) (s : Pair) (c : Z) : bool :=
  match pr_wires s !! c with
  | Some w =>
      match queue_to side w with
      | m :: _ => negb (bool_decide (c ∈ ln_incoming (node_of side s))) ||
          bool_decide (is_Some (receive_message fresh_node (fun _ => true) false unicast (wire_closed side s) c m (node_of side s)))
      | [] => true
      end
  | None => true
  end.

Definition handshake_ok (s : Pair) : bool :=
  forallb (fun c => expected false s c && expected true s c) wires &&
  (negb (quiescent s) || agree s && answered s).

(** All runs of the system itself from [s] end after at most [n] steps. *)
Fixpoint settles (n : nat) (s : Pair) : bool :=
  match internal s, n with
  | [], _ => true
  | _, O => false
  | l, S n => forallb (settles n) l
  end.

Definition states : Seen := explore (2 ^ 12) false [pair_start] ∅.

Definition states_check (seen : Seen) : bool :=
  seen_in pair_start seen &&
  forallb (fun s => forallb (fun s' => seen_in s' seen) (internal s ++ external false s) && handshake_ok s && settles 20 s)
    (all_seen seen).

Lemma seen_in_all s seen : seen_in s seen = true -> s ∈ all_seen seen.
Proof.
  unfold seen_in. intros Hs%bool_decide_eq_true. destruct (seen !! digest s) as [l|] eqn:E; cbn in Hs; [|by apply elem_of_nil in Hs].
  apply list_elem_of_In, in_concat. exists l. split; apply list_elem_of_In; [|done].
  apply list_elem_of_fmap. exists (digest s, l). split; [done|]. by apply elem_of_map_to_list.
Qed.

Lemma check_state seen s : states_check seen = true -> seen_in s seen = true ->
  (forall s', s' ∈ internal s ++ external false s -> seen_in s' seen = true) /\ handshake_ok s = true /\ settles 20 s = true.
Proof.
  unfold states_check. intros [_ Hc]%andb_true_iff Hs%seen_in_all. rewrite forallb_forall in Hc.
  specialize (Hc s (proj1 (list_elem_of_In _ _) Hs)). rewrite !andb_true_iff, forallb_forall in Hc.
  destruct Hc as [[Hn Ho] Hset]. split; [|done]. intros s' Hs'. by apply Hn, list_elem_of_In.
Qed.

(** A table that passes the check has all reachable states. *)
Lemma check_reachable seen s : states_check seen = true -> pair_reachable false s -> seen_in s seen = true.
Proof.
  intros Hc. induction 1 as [|x y _ IH Hy|x y _ IH Hy].
  - unfold states_check in Hc. by apply andb_true_iff in Hc as [? _].
  - apply (proj1 (check_state seen x Hc IH)), elem_of_app. by left.
  - apply (proj1 (check_state seen x Hc IH)), elem_of_app. by right.
Qed.

Lemma states_checked : states_check states = true.
Proof. vm_compute. reflexivity. Qed.

Lemma pair_reachable_ok s : pair_reachable false s -> handshake_ok s = true /\ settles 20 s = true.
Proof. intros Hr. exact (proj2 (check_state _ s states_checked (check_reachable _ s states_checked Hr))). Qed.

(** C15: Two nodes that connect at the same time agree in the end.  In every reachable
    state the system comes to rest within twenty steps, whatever order the commands
    arrive in; no command comes from a node that is not known; and at rest every
    call of [connect] has been answered and either both nodes are connected, each
    reading the connection the other one sends on, or neither is. *)
Theorem handshake_agrees s :
  pair_reachable false s ->
  settles 20 s = true /\ forallb (fun c => expected false s c && expected true s c) wires = true /\
  (internal s = [] -> agree s = true /\ answered s = true).
Proof.
  intros Hr. destruct (pair_reachable_ok s Hr) as [Hok Hset].
  unfold handshake_ok in Hok. apply andb_true_iff in Hok as [He Hq]. split; [exact Hset|]. split; [exact He|]. intros Hi.
  unfold quiescent in Hq. rewrite bool_decide_eq_true_2 in Hq by exact Hi. cbn [negb orb] in Hq. by apply andb_true_iff in Hq.
Qed.

(** ** Runs *)

Inductive Choice := SStart (side : bool) | SDeliver (side : bool) (c : Z) | SHangUp (side : bool) (c : Z) | SDisconnect.

Definition choose (s : Pair) (ch : Choice) : option Pair :=
  match ch with
  | SStart side => head (start_connect side (if side then 2 else 1) false s)
  | SDeliver side c => if bool_decide (c ∈ wires) then head (deliver side s c) else None
  | SHangUp side c => if bool_decide (c ∈ wires) then head (hang_up side s c) else None
  | SDisconnect => head (hang_up_first s)
  end.

Lemma choose_reachable s ch s' : pair_reachable true s -> choose s ch = Some s' -> pair_reachable true s'.
Proof.
  intros Hr. assert (forall c l, c ∈ wires -> s' ∈ l ->
    (l = deliver false s c \/ l = deliver true s c \/ l = hang_up false s c \/ l = hang_up true s c) -> pair_reachable true s') as Hint.
  { intros c l Hc Hl Hcase. eapply pair_internal; [exact Hr|]. unfold internal. apply list_elem_of_In, in_concat.
    exists (deliver false s c ++ deliver true s c ++ hang_up false s c ++ hang_up true s c).
    split; apply list_elem_of_In; [apply list_elem_of_fmap; by exists c|]. rewrite !elem_of_app. naive_solver. }
  destruct ch as [side|side c|side c|]; cbn [choose].
  - intros Hh%head_Some_elem_of. eapply pair_external; [exact Hr|]. unfold external. rewrite !elem_of_app. destruct side; auto.
  - case_bool_decide as Hc; [|done]. intros Hh%head_Some_elem_of. apply (Hint c _ Hc Hh). destruct side; auto.
  - case_bool_decide as Hc; [|done]. intros Hh%head_Some_elem_of. apply (Hint c _ Hc Hh). destruct side; auto.
  - intros Hh%head_Some_elem_of. eapply pair_external; [exact Hr|]. unfold external. rewrite !elem_of_app. auto.
Qed.

Definition run_choices (l : list Choice) : option Pair := foldl (fun o ch => s ← o; choose s ch) (Some pair_start) l.

Lemma run_choices_reachable l s : run_choices l = Some s -> pair_reachable true s.
Proof.
  revert s. induction l as [|ch l IH] using rev_ind; intros s; unfold run_choices.
  { intros [= <-]. constructor. }
  rewrite foldl_app. fold (run_choices l). cbn. destruct (run_choices l) as [s1|]; [|done]. cbn.
  intros Hc. eapply choose_reachable; [by apply IH|done].
Qed.

(** Both nodes connect at the same time and use one connection each; then the first
    one disconnects. *)
Definition half_open_run : list Choice :=
  [SStart false; SStart true; SDeliver true 1; SDeliver false 2; SDeliver false 1; SDeliver true 2; SDeliver true 1; SDeliver false 2;
   SDisconnect; SHangUp true 2].

(** After a simultaneous connect, disconnecting leaves the other side connected.
    Each node sends on the connection it was acknowledged last, so the two use
    different connections; [disconnect] closes only the one of its own side, and the
    other node, which sends on the other one, does not notice: at rest one node is
    disconnected, and the other one is not and its connection is still open. *)
Theorem disconnect_half_open :
  exists s, pair_reachable true s /\ internal s = [] /\ sends_on false s = None /\ sends_on true s = Some 1 /\
    wire_closed false s 1 = false /\ wire_closed true s 1 = false.
Proof.
  destruct (run_choices half_open_run) as [s|] eqn:E; [|by vm_compute in E].
  exists s. split; [by eapply run_choices_reachable|].
  assert (match run_choices half_open_run with
          | Some s => bool_decide (internal s = []) && bool_decide (sends_on false s = None) && bool_decide (sends_on true s = Some 1) &&
              negb (wire_closed false s 1) && negb (wire_closed true s 1)
          | None => false
          end = true) as Hc by (vm_compute; reflexivity).
  rewrite E in Hc. rewrite !andb_true_iff, !bool_decide_eq_true, !negb_true_iff in Hc. tauto.
Qed.

Lemma handshake_agrees_witness :
  settles 20 pair_start = true /\ forallb (fun c => expected false pair_start c && expected true pair_start c) wires = true.
Proof.
  destruct (handshake_agrees pair_start (pair_init false)) as (H1 & H2 & _). split; [exact H1|exact H2].
Defined.
