(* ===== verification/NodeLife.v ===== *)
(** * The life of a local node (co/localNode.cpp)

    Listening, connecting by address or by identifier, listeners, keepalive, custom
    commands and the shutdown of the receiver thread, on top of the handshake of
    LocalNode.v.  Where a thread waits for a request, what the receiver thread does
    in the meantime is a parameter. *)

From S2P Require Import Prelude Bytes ConnectionDescription LocalNode.

Inductive ConnectResult := CONNECT_OK | CONNECT_TRY_AGAIN | CONNECT_BAD_STATE | CONNECT_TIMEOUT | CONNECT_UNREACHABLE.

#[export] Instance ConnectResult_eq_dec : EqDecision ConnectResult.
Proof. solve_decision. Defined.

Section nodelife.

Context (newNode : gmap Z Node -> Z) (newRequest : gmap Z (option Z * option NodeResult) -> Z).
Context (canCreate : Z -> bool) (be : bool).
Context (descriptionOf : Z -> ConnectionDescription) (connClosed : Z -> bool).

#[local] Abbreviation node_at := (node_at be).
#[local] Abbreviation self := (self be).
#[local] Abbreviation createNode := (createNode newNode canCreate be).
#[local] Abbreviation LocalNode_removeConnection := (LocalNode_removeConnection connClosed).
#[local] Abbreviation _closeNode := (_closeNode be connClosed).
#[local] Abbreviation LocalNode_connect := (LocalNode_connect newRequest be connClosed).

(** ** Listening *)

(** [_connectSelf] on a pipe from the sibling [sibling] to [c] *)
Definition _connectSelf (c sibling : Z) (l : LocalNode) : LocalNode :=
  let l := update_node (ln_self l) (fun n => set_n_state NODE_CLOSED (Node_connect sibling n)) l in
  let l := set_ln_connectionNodes (<[c := ln_self l]> (ln_connectionNodes l)) l in
  let l := set_ln_nodes (<[n_id (self l) := ln_self l]> (ln_nodes l)) l in
  LocalNode_addConnection c l.

(** A connection that listens, of this node *)
Definition add_listener (c : Z) (l : LocalNode) : LocalNode :=
  let l := set_ln_connectionNodes (<[c := ln_self l]> (ln_connectionNodes l)) l in
  let l := if isMulticastConn descriptionOf c then update_node (ln_self l) (_addMulticast (ln_self l) c) l else l in
  set_ln_incoming (ln_incoming l ++ [c]) l.

(** [openListener] is [Connection::create] and [listen] of the connection. *)
Fixpoint listen_loop (openListener : ConnectionDescription -> option Z) (descriptions : list ConnectionDescription) (l : LocalNode) :
    bool * LocalNode :=
  match descriptions with
  | [] => (true, l)
  | description :: descriptions =>
      match openListener description with
      | None => (false, l)
      | Some c => listen_loop openListener descriptions (add_listener c l)
      end
  end.

(** [pipe] is the pipe to the receiver thread, if one could be made. *)
Definition LocalNode_listen (openListener : ConnectionDescription -> option Z) (pipe : option (Z * Z)) (l : LocalNode) : bool * LocalNode :=
  if negb (isClosed (self l)) then (false, l)
  else
    match pipe with
    | None => (false, l)
    | Some (c, sibling) =>
        let l := _connectSelf c sibling l in
        let '(ok, l) := listen_loop openListener (n_descriptions (self l)) l in
        if ok then (true, update_node (ln_self l) (set_n_state NODE_LISTENING) l) else (false, l)
    end.

Definition _cmdStopRcv (l : LocalNode) : LocalNode := update_node (ln_self l) (set_n_state NODE_CLOSING) l.
Definition _cmdStopCmd (l : LocalNode) : LocalNode := update_node (ln_self l) (set_n_state NODE_CLOSED) l.

(** The end of [_runReceiverThread]: the pipe [pipe] is removed, then the last
    connection, until none is left.  Every pass removes at least one, so their
    number is enough fuel. *)
Fixpoint remove_connections (fuel : nat) (l : LocalNode) : LocalNode * list Effect :=
  match fuel, last (ln_incoming l) with
  | S fuel, Some c =>
      let '(l, out) := match ln_connectionNodes l !! c with Some node => _closeNode node l | None => (l, []) end in
      let '(l, out') := LocalNode_removeConnection c l in
      let '(l, out'') := remove_connections fuel l in
      (l, out ++ out' ++ out'')
  | _, _ => (l, [])
  end.

Definition stop_receiver (pipe : Z) (l : LocalNode) : LocalNode * list Effect :=
  let '(l, out) := LocalNode_removeConnection pipe l in
  let l := set_ln_connectionNodes (delete pipe (ln_connectionNodes l)) l in
  let l := update_node (ln_self l) Node_disconnect l in
  let '(l, out') := remove_connections (length (ln_incoming l)) l in
  (l, out ++ out').

Definition _cleanup (l : LocalNode) : LocalNode := set_ln_nodes ∅ (set_ln_connectionNodes ∅ l).

(** ** Nodes *)

(** [getNodes], in the order of the map *)
Definition getNodes (addSelf : bool) (l : LocalNode) : list Z :=
  filter (fun p => isReachable (node_at p l) = true /\ (addSelf = true \/ p <> ln_self l)) ((map_to_list (ln_nodes l)).*2).

(** [pingIdleNodes]: the nodes that are sent a ping. *)
Definition pingIdleNodes (keepaliveTimeout now : Z) (l : LocalNode) : list Z :=
  filter (fun p => now - n_lastReceive (node_at p l) > keepaliveTimeout `quot` 2) (getNodes false l).

(** [addListener]: the nodes that are told, [_cmdAddListener] and
    [_cmdRemoveListener] with the node [p] that sent the command; [None] for an
    unknown description, which is an error. *)
Definition addListener (listening : bool) (l : LocalNode) : list Z :=
  if negb (isListening (self l)) || negb listening then [] else getNodes true l.

Definition _cmdAddListener (p c : Z) (description : ConnectionDescription) (l : LocalNode) : LocalNode :=
  let l := update_node p (fun n => set_n_descriptions (n_descriptions n ++ [description]) n) l in
  if negb (p =? ln_self l) then l else add_listener c l.

Definition _cmdRemoveListener (p requestID c : Z) (description : ConnectionDescription) (l : LocalNode) : option LocalNode :=
  let '(found, node) := _removeConnectionDescription description (node_at p l) in
  if negb found then None
  else
    let l := update_node p (fun _ => node) l in
    if negb (p =? ln_self l) then Some l
    else
      let l := if isMulticastConn descriptionOf c then update_node p (_removeMulticast c) l else l in
      let l := set_ln_incoming (filter (fun c' => c' <> c) (ln_incoming l)) l in
      Some (NodeRequest_serve requestID NVoid (set_ln_connectionNodes (delete c (ln_connectionNodes l)) l)).

(** [ackRequest]: served here, or the node that is sent the acknowledgement *)
Definition ackRequest (p requestID : Z) (l : LocalNode) : LocalNode * option (Z * Z) :=
  if requestID =? LB_UNDEFINED_UINT32 then (l, None)
  else if p =? ln_self l then (NodeRequest_serve requestID NVoid l, None)
  else (l, Some (p, requestID)).

Definition _cmdAckRequest (requestID : Z) (l : LocalNode) : LocalNode := NodeRequest_serve requestID NVoid l.

(** [_handleConnect] with the connection accepted *)
Definition _handleConnect (newConn : option Z) (l : LocalNode) : LocalNode :=
  match newConn with Some c => LocalNode_addConnection c l | None => l end.

(** ** Connecting *)

Section connecting.

(** What the receiver thread does while this thread waits for a request, and
    [Connection::create] and [connect]. *)
Context (wait : Z -> LocalNode -> LocalNode) (openConnection : ConnectionDescription -> option Z).

Definition unregisterRequest (id : Z) (l : LocalNode) : LocalNode := set_ln_requests (delete id (ln_requests l)) l.

(** [_connect( node, connection )] *)
Definition connect_over (p c : Z) (l : LocalNode) : ConnectResult * LocalNode :=
  match LocalNode_connect p c l with
  | None => (CONNECT_BAD_STATE, l)
  | Some (request, l, _) =>
      let l := wait request l in
      let r := connect_result be p request l in
      let l := unregisterRequest request l in
      match r with
      | None => (CONNECT_TIMEOUT, l)
      | Some false => (CONNECT_TRY_AGAIN, l)
      | Some true => (CONNECT_OK, l)
      end
  end.

Fixpoint first_connection (cds : list ConnectionDescription) : option Z :=
  match cds with
  | [] => None
  | description :: cds =>
      if is_multicast (cd_type description) then first_connection cds
      else match openConnection description with Some c => Some c | None => first_connection cds end
  end.

(** [_connect( node )] *)
Definition connect_node (p : Z) (l : LocalNode) : ConnectResult * LocalNode :=
  if isReachable (node_at p l) then (CONNECT_OK, l)
  else
    match first_connection (n_descriptions (node_at p l)) with
    | Some c => connect_over p c l
    | None => (CONNECT_UNREACHABLE, l)
    end.

(** The loop of [_connect( nodeID, peer )] *)
Fixpoint connect_tries (tries : nat) (nodeID p : Z) (l : LocalNode) : option Z * LocalNode :=
  match tries with
  | O => (if isReachable (node_at p l) then Some p else None, l)
  | S tries =>
      let '(r, l) := connect_node p l in
      match r with
      | CONNECT_OK => (Some p, l)
      | CONNECT_BAD_STATE | CONNECT_TIMEOUT => (None, l)
      | CONNECT_TRY_AGAIN | CONNECT_UNREACHABLE => connect_tries tries nodeID (default p (ln_nodes l !! nodeID)) l
      end
  end.

(** [_connect( nodeID, peer )]; the question to the peer is answered while this
    thread waits. *)
Definition connect_from (nodeID peer : Z) (l : LocalNode) : option Z * LocalNode :=
  let '(node, l) :=
    match ln_nodes l !! nodeID with
    | Some p => (Some p, l)
    | None =>
        let request := newRequest (ln_requests l) in
        let l := wait request (set_ln_requests (<[request := (None, None)]> (ln_requests l)) l) in
        let node := match ln_requests l !! request with Some (_, Some (NNode node)) => node | _ => None end in
        (node, unregisterRequest request l)
    end in
  match node with
  | None => (None, l)
  | Some p => if isReachable (node_at p l) then (Some p, l) else connect_tries 9 nodeID p l
  end.

Fixpoint connect_peers (nodeID : Z) (peers : list Z) (l : LocalNode) : option Z * LocalNode :=
  match peers with
  | [] => (None, l)
  | peer :: peers =>
      let '(node, l) := connect_from nodeID peer l in
      match node with Some p => (Some p, l) | None => connect_peers nodeID peers l end
  end.

(** A discovered instance: its identifier, type and descriptions. *)
Record Instance_ := mkInstance { in_id : Z; in_type : option Z; in_descriptions : list ConnectionDescription }.

(** [_connectFromZeroconf]: it returns the node if [_connect] returns a value other
    than zero. *)
Fixpoint _connectFromZeroconf (nodeID : Z) (instances : list Instance_) (l : LocalNode) : option Z * LocalNode :=
  match instances with
  | [] => (None, l)
  | i :: instances =>
      if negb (in_id i =? nodeID) then _connectFromZeroconf nodeID instances l
      else
        match in_type i with
        | None => (None, l)
        | Some type =>
            match createNode type l with
            | None => _connectFromZeroconf nodeID instances l
            | Some (p, l) =>
                let l := update_node p (fun n => foldl (fun n d => addConnectionDescription d n) n (in_descriptions i)) l in
                let '(r, l) := connect_node p l in
                if negb (bool_decide (r = CONNECT_OK)) then (Some p, l) else _connectFromZeroconf nodeID instances l
            end
        end
  end.

Definition known_node (nodeID : Z) (l : LocalNode) : option Z :=
  head (filter (fun p => n_id (node_at p l) = nodeID /\ isReachable (node_at p l) = true) (getNodes true l)).

(** [connect( nodeID )] *)
Definition connect_id (nodeID : Z) (instances : list Instance_) (l : LocalNode) : option Z * LocalNode :=
  match known_node nodeID l with
  | Some p => (Some p, l)
  | None =>
      let '(node, l) := connect_peers nodeID (getNodes true l) l in
      match node with
      | Some p => (Some p, l)
      | None =>
          let '(node, l) := _connectFromZeroconf nodeID instances l in
          match node with
          | Some p => (Some p, l)
          | None => (known_node nodeID l, l)
          end
      end
  end.

(** [connectObjectMaster], with the identifier [findMasterNodeID] found *)
Definition connectObjectMaster (isUUID : bool) (masterNodeID : Z) (instances : list Instance_) (l : LocalNode) : option Z * LocalNode :=
  if negb isUUID then (None, l)
  else if masterNodeID =? 0 then (None, l)
  else
    let '(master, l) := connect_id masterNodeID instances l in
    match master with
    | Some p => if negb (isClosed (node_at p l)) then (Some p, l) else (None, l)
    | None => (None, l)
    end.

End connecting.

End nodelife.

(** ** The tables of a local node *)

Section links.

Context (newNode : gmap Z Node -> Z) (newRequest : gmap Z (option Z * option NodeResult) -> Z).
Context (canCreate : Z -> bool) (be : bool).
Context (descriptionOf : Z -> ConnectionDescription) (connClosed : Z -> bool).
Context (newNode_fresh : forall h, h !! newNode h = None).

(** The end of the pipe to the receiver thread on which the node sends to itself. *)
Context (sibling : Z).

#[local] Abbreviation node_at := (node_at be).
#[local] Abbreviation self := (self be).
#[local] Abbreviation multicast := (isMulticastConn descriptionOf).
#[local] Abbreviation createNode := (createNode newNode canCreate be).
#[local] Abbreviation LocalNode_removeConnection := (LocalNode_removeConnection connClosed).
#[local] Abbreviation _closeNode := (_closeNode be connClosed).
#[local] Abbreviation receive_message := (receive_message newNode canCreate be descriptionOf connClosed).

(** Multicast connections are kept apart from the others. *)
Definition multicasts_ok (n : Node) : Prop :=
  (forall c, n_outMulticast n = Some c -> multicast c = true) /\ Forall (fun data => multicast data.1 = true) (n_multicasts n).

(** A node that has a connection is reached by it, the connection is one the
    receiver thread listens to, and the local node's own is the pipe. *)
Definition outgoing_ok (l : LocalNode) (p : Z) (n : Node) : Prop :=
  match n_outgoing n with
  | None => n_state n <> NODE_CONNECTED
  | Some c =>
      if decide (p = ln_self l) then c = sibling /\ n_state n <> NODE_CONNECTED
      else ln_connectionNodes l !! c = Some p /\ c ∈ ln_incoming l /\ multicast c = false
  end.

Definition allocated (l : LocalNode) (p : Z) : Prop := is_Some (ln_heap l !! p).

Definition result_ok (l : LocalNode) (r : option Z * option NodeResult) : Prop :=
  (forall p, r.1 = Some p -> allocated l p /\ p <> ln_self l) /\ (forall p, r.2 = Some (NNode (Some p)) -> allocated l p).

Record links (l : LocalNode) : Prop := {
  lk_self : allocated l (ln_self l);
  lk_nodes : map_Forall (fun id p => allocated l p /\ (p = ln_self l -> id = n_id (self l))) (ln_nodes l);
  lk_connections : map_Forall (fun _ p => allocated l p) (ln_connectionNodes l);
  lk_requests : map_Forall (fun _ r => result_ok l r) (ln_requests l);
  lk_heap : map_Forall (fun p n => outgoing_ok l p n /\ multicasts_ok n) (ln_heap l);
  lk_pipe : ln_connectionNodes l !! sibling = None /\ (sibling ∉ ln_incoming l) /\ multicast sibling = false
}.

(** *** Single changes *)

Lemma node_at_heap p n l : ln_heap l !! p = Some n -> node_at p l = n.
Proof. unfold LocalNode.node_at. by intros ->. Qed.

Lemma links_node_at p l : links l -> multicasts_ok (node_at p l).
Proof.
  intros H. unfold LocalNode.node_at. destruct (ln_heap l !! p) as [n|] eqn:E; cbn; [by apply (lk_heap _ H _ _ E)|].
  split; [done|]. constructor.
Qed.

(** Replacing nodes keeps what is allocated. *)
Lemma allocated_update p q f l : allocated (update_node p f l) q <-> allocated l q.
Proof. unfold allocated, update_node. cbn. rewrite lookup_alter_is_Some. done. Qed.

Lemma links_update p f l :
  links l ->
  (forall n, ln_heap l !! p = Some n -> outgoing_ok l p n -> multicasts_ok n ->
     outgoing_ok l p (f n) /\ multicasts_ok (f n) /\ (p = ln_self l -> n_id (f n) = n_id n)) ->
  links (update_node p f l).
Proof.
  intros [H1 H2 H3 H4 H5 H6] Hf. constructor; cbn.
  - by apply allocated_update.
  - intros id q Hq. destruct (H2 _ _ Hq) as [Ha Hid]. rewrite allocated_update. split; [done|]. intros ->. rewrite (Hid eq_refl).
    unfold LocalNode.self, LocalNode.node_at. cbn. destruct (decide (p = ln_self l)) as [->|Hne]; [|by rewrite lookup_alter_ne].
    rewrite lookup_alter_eq. destruct H1 as [n Hn]. rewrite Hn. cbn. destruct (H5 _ _ Hn). by destruct (Hf n Hn) as (_ & _ & ->).
  - intros c q Hq. apply allocated_update. by eapply H3.
  - intros r x Hx. destruct (H4 _ _ Hx) as [Ha Hb]. split; [intros q Hq|intros q Hq]; rewrite allocated_update; [by apply Ha|by apply Hb].
  - intros q n. destruct (decide (p = q)) as [<-|Hne].
    + rewrite lookup_alter_eq. destruct (ln_heap l !! p) as [m|] eqn:E; [|done]. intros [= <-]. destruct (H5 _ _ E). by destruct (Hf m) as (? & ? & _).
    + rewrite lookup_alter_ne by done. intros Hn. by apply (H5 _ _ Hn).
  - done.
Qed.

Lemma links_nodes_insert id p l :
  links l -> allocated l p -> (p = ln_self l -> id = n_id (self l)) -> links (set_ln_nodes (<[id := p]> (ln_nodes l)) l).
Proof. intros [H1 H2 H3 H4 H5 H6] Ha Hid. constructor; try done. by apply map_Forall_insert_2. Qed.

Lemma links_nodes_delete id l : links l -> links (set_ln_nodes (delete id (ln_nodes l)) l).
Proof. intros [H1 H2 H3 H4 H5 H6]. constructor; try done. by apply map_Forall_delete. Qed.

Lemma links_requests r x l : links l -> result_ok l x -> links (set_ln_requests (<[r := x]> (ln_requests l)) l).
Proof. intros [H1 H2 H3 H4 H5 H6] Hx. constructor; try done. by apply map_Forall_insert_2. Qed.

Lemma links_serve r x l : links l -> (forall p, x = NNode (Some p) -> allocated l p) -> links (NodeRequest_serve r x l).
Proof.
  intros H Hx. unfold NodeRequest_serve. destruct (ln_requests l !! r) as [[d o]|] eqn:E; [|done]. apply links_requests; [done|].
  destruct (lk_requests _ H _ _ E) as [Ha _]. split; [done|]. cbn. intros p [= ->]. by apply Hx.
Qed.

(** A connection that no node uses may be bound to a node. *)
Lemma links_bind c p l :
  links l -> allocated l p -> ln_connectionNodes l !! c = None \/ ln_connectionNodes l !! c = Some p \/ multicast c = true -> c <> sibling ->
  links (set_ln_connectionNodes (<[c := p]> (ln_connectionNodes l)) l).
Proof.
  intros [H1 H2 H3 H4 H5 H6] Ha Hc Hs. constructor; try done; cbn.
  - by apply map_Forall_insert_2.
  - intros q n Hn. destruct (H5 _ _ Hn) as [Ho Hm]. split; [|done]. revert Ho. unfold outgoing_ok. cbn.
    destruct (n_outgoing n) as [c'|]; [|done]. destruct (decide (q = ln_self l)); [done|]. intros (Hc' & Hi & Hm').
    split; [|done]. destruct (decide (c = c')) as [<-|]; [|by rewrite lookup_insert_ne]. rewrite lookup_insert_eq.
    destruct Hc as [Hc|[Hc|Hc]]; congruence.
  - by rewrite lookup_insert_ne.
Qed.

(** A connection that no node uses may be released. *)
Definition unused (c : Z) (l : LocalNode) : Prop := forall p n, ln_heap l !! p = Some n -> p <> ln_self l -> n_outgoing n <> Some c.

Lemma links_unbind c l : links l -> unused c l -> links (set_ln_connectionNodes (delete c (ln_connectionNodes l)) l).
Proof.
  intros [H1 H2 H3 H4 H5 H6] Hc. constructor; try done; cbn.
  - by apply map_Forall_delete.
  - intros q n Hn. destruct (H5 _ _ Hn) as [Ho Hm]. split; [|done]. revert Ho. unfold outgoing_ok. cbn.
    destruct (n_outgoing n) as [c'|] eqn:E; [|done]. destruct (decide (q = ln_self l)); [done|]. intros (Hc' & Hi & Hm').
    split; [|done]. rewrite lookup_delete_ne; [done|]. intros <-. by apply (Hc _ _ Hn).
  - split; [|apply H6]. rewrite lookup_delete_None. right. apply H6.
Qed.

Lemma links_remove c l : links l -> unused c l -> links (LocalNode_removeConnection c l).1.
Proof.
  intros [H1 H2 H3 H4 H5 H6] Hc. constructor; try done; cbn.
  - intros q n Hn. destruct (H5 _ _ Hn) as [Ho Hm]. split; [|done]. revert Ho. unfold outgoing_ok. cbn.
    destruct (n_outgoing n) as [c'|] eqn:E; [|done]. destruct (decide (q = ln_self l)); [done|]. intros (Hc' & Hi & Hm').
    split_and!; try done. apply list_elem_of_filter. split; [|done]. intros ->. by apply (Hc _ _ Hn).
  - split_and!; try apply H6. rewrite list_elem_of_filter. by intros [_ ?%H6].
Qed.

Lemma links_incoming c l : links l -> c <> sibling -> links (LocalNode_addConnection c l).
Proof.
  intros [H1 H2 H3 H4 H5 H6] Hc. constructor; try done; cbn.
  - intros q n Hn. destruct (H5 _ _ Hn) as [Ho Hm]. split; [|done]. revert Ho. unfold outgoing_ok. cbn.
    destruct (n_outgoing n) as [c'|] eqn:E; [|done]. destruct (decide (q = ln_self l)); [done|]. set_solver.
  - set_solver.
Qed.

Lemma links_create type p l l' :
  links l -> createNode type l = Some (p, l') -> links l' /\ allocated l' p /\ p <> ln_self l' /\ ln_nodes l' = ln_nodes l /\
    ln_connectionNodes l' = ln_connectionNodes l /\ ln_incoming l' = ln_incoming l /\ ln_self l' = ln_self l.
Proof.
  unfold LocalNode.createNode. destruct (canCreate type); [|done]. intros [H1 H2 H3 H4 H5 H6] [= <- <-].
  assert (forall q, allocated l q -> q <> newNode (ln_heap l)) as Hne by (intros q [n Hn] ->; by rewrite newNode_fresh in Hn).
  assert (forall q, allocated l q -> allocated (set_ln_heap (<[newNode (ln_heap l) := Node_init 0 type be]> (ln_heap l)) l) q) as Hk.
  { intros q Hq. unfold allocated in *. cbn. rewrite lookup_insert_is_Some. destruct (decide (newNode (ln_heap l) = q)); [by left|by right]. }
  split; [|split_and!; try done; [unfold allocated; cbn; rewrite lookup_insert_eq; by eexists|by apply not_eq_sym, Hne]].
  constructor; cbn.
  - by apply Hk.
  - intros id q Hq. destruct (H2 _ _ Hq) as [Ha Hid]. split; [by apply Hk|]. intros ->. rewrite (Hid eq_refl).
    unfold LocalNode.self, LocalNode.node_at. cbn. rewrite lookup_insert_ne; [done|]. by apply not_eq_sym, Hne.
  - intros c q Hq. by apply Hk, (H3 _ _ Hq).
  - intros r x Hx. destruct (H4 _ _ Hx) as [Ha Hb]. split; [intros q Hq; split; [apply Hk|]; by apply Ha|intros q Hq; by apply Hk, Hb].
  - intros q n. rewrite lookup_insert_Some. intros [[<- <-]|[_ Hn]]; [|by apply (H5 _ _ Hn)].
    split; [by unfold outgoing_ok|]. split; [done|constructor].
  - done.
Qed.

(** *** Which connections are not used *)

Lemma unused_unbound c l : links l -> ln_connectionNodes l !! c = None -> unused c l.
Proof.
  intros H Hc p n Hn Hp E. destruct (lk_heap _ H _ _ Hn) as [Ho _]. unfold outgoing_ok in Ho. rewrite E, decide_False in Ho by done.
  destruct Ho. congruence.
Qed.

Lemma unused_bound c p l :
  links l -> ln_connectionNodes l !! c = Some p -> p = ln_self l \/ n_outgoing (node_at p l) <> Some c -> unused c l.
Proof.
  intros H Hc Hp q n Hn Hq E. destruct (lk_heap _ H _ _ Hn) as [Ho _]. unfold outgoing_ok in Ho. rewrite E, decide_False in Ho by done.
  destruct Ho as [Ho _]. rewrite Ho in Hc. injection Hc as ->. rewrite (node_at_heap _ _ _ Hn) in Hp. by destruct Hp.
Qed.

Lemma unused_multicast c l : links l -> multicast c = true -> unused c l.
Proof.
  intros H Hc p n Hn Hp E. destruct (lk_heap _ H _ _ Hn) as [Ho _]. unfold outgoing_ok in Ho. rewrite E, decide_False in Ho by done.
  destruct Ho as (_ & _ & Ho). congruence.
Qed.

Lemma links_erase c l :
  links l -> (forall x, c = Some x -> unused x l) ->
  links (erase_connection connClosed c l).1 /\ ln_heap (erase_connection connClosed c l).1 = ln_heap l /\
  ln_self (erase_connection connClosed c l).1 = ln_self l.
Proof.
  intros H Hc. destruct c as [c|]; [|done]. specialize (Hc c eq_refl). cbn. split; [|done].
  apply (links_remove c) in H; [|done]. by apply (links_unbind c) in H.
Qed.

Lemma links_close p l : links l -> links (_closeNode p l).1.
Proof.
  intros H. unfold LocalNode._closeNode.
  assert (links (update_node p Node_disconnect l)) as H1.
  { apply links_update; [done|]. intros n Hn _ _. by repeat split. }
  assert (forall c, n_outgoing (node_at p l) = Some c -> unused c (update_node p Node_disconnect l)) as Hu.
  { intros c Hc q n Hn Hq E. cbn in Hn, Hq. destruct (decide (p = q)) as [<-|Hpq].
    { rewrite lookup_alter_eq in Hn. destruct (ln_heap l !! p); [|done]. by injection Hn as <-. }
    rewrite lookup_alter_ne in Hn by done. destruct (lk_heap _ H _ _ Hn) as [Ho _]. unfold outgoing_ok in Ho. rewrite E, decide_False in Ho by done.
    unfold LocalNode.node_at in Hc. destruct (ln_heap l !! p) as [m|] eqn:Em; [|done]. cbn in Hc.
    destruct (lk_heap _ H _ _ Em) as [Hm _]. unfold outgoing_ok in Hm. rewrite Hc in Hm.
    destruct (decide (p = ln_self l)); [|destruct Ho, Hm; congruence]. destruct Hm as [-> _]. destruct (lk_pipe _ H) as [Hs _]. destruct Ho. congruence. }
  destruct (links_erase _ _ H1 Hu) as (H2 & Eh & Es). destruct (erase_connection connClosed (n_outgoing _) _) as [l2 out]. cbn in H2, Eh, Es.
  destruct (links_erase (n_outMulticast (node_at p l)) l2 H2) as (H3 & _).
  { intros c Hc. apply unused_multicast; [done|]. by apply (links_node_at p l H). }
  destruct (erase_connection _ (n_outMulticast _) _) as [l3 out']. by apply links_nodes_delete.
Qed.

(** *** Multicast *)

Lemma shared_group_ok s d n from :
  multicasts_ok s -> multicasts_ok n ->
  multicasts_ok (shared_group descriptionOf s d n from) /\ n_outgoing (shared_group descriptionOf s d n from) = n_outgoing n /\
  n_state (shared_group descriptionOf s d n from) = n_state n /\ n_id (shared_group descriptionOf s d n from) = n_id n.
Proof.
  intros [Hs1 Hs2] [Hn1 Hn2]. unfold shared_group.
  assert (Forall (fun data => multicast data.1 = true)
    (n_multicasts n ++ filter (fun data => isSameMulticastGroup d (descriptionOf data.1) = true) (n_multicasts s))) as Hf
    by (apply Forall_app; split; [done|]; apply Forall_forall; intros x [_ Hx]%list_elem_of_filter; by apply (proj1 (Forall_forall _ _) Hs2)).
  destruct (negb _); [done|]. destruct (n_outMulticast s) as [c|] eqn:E; [destruct (description_eqb _ _)|]; split_and!; try done.
Qed.

Lemma connectMulticast_ok s n :
  multicasts_ok s -> multicasts_ok n ->
  let n' := _connectMulticast descriptionOf s n in
  multicasts_ok n' /\ n_outgoing n' = n_outgoing n /\ n_state n' = n_state n /\ n_id n' = n_id n.
Proof.
  intros Hs Hn. unfold _connectMulticast. destruct (n_outMulticast n); [done|].
  assert (forall d ds m, multicasts_ok m -> multicasts_ok (foldl (shared_group descriptionOf s d) m ds) /\
    n_outgoing (foldl (shared_group descriptionOf s d) m ds) = n_outgoing m /\
    n_state (foldl (shared_group descriptionOf s d) m ds) = n_state m /\ n_id (foldl (shared_group descriptionOf s d) m ds) = n_id m) as Hin.
  { intros d ds. induction ds as [|x ds IH]; intros m Hm; cbn; [done|]. destruct (shared_group_ok s d m x Hs Hm) as (H1 & H2 & H3 & H4).
    destruct (IH _ H1) as (? & -> & -> & ->). done. }
  generalize (n_descriptions s). intros ds. revert n Hn. induction ds as [|d ds IH]; intros n Hn; cbn; [done|].
  destruct (is_multicast _); [|by apply IH]. destruct (Hin d (n_descriptions n) n Hn) as (H1 & H2 & H3 & H4).
  destruct (IH _ H1) as (? & -> & -> & ->). done.
Qed.

Lemma erase_multicast_ok c l : Forall (fun data : Z * Z => multicast data.1 = true) l -> Forall (fun data => multicast data.1 = true) (erase_multicast c l).
Proof. induction 1; cbn; [constructor|]. destruct (_ =? _); [done|by constructor]. Qed.

Lemma removeMulticast_ok c n :
  multicasts_ok n -> multicasts_ok (_removeMulticast c n) /\ n_outgoing (_removeMulticast c n) = n_outgoing n /\
  n_state (_removeMulticast c n) = n_state n /\ n_id (_removeMulticast c n) = n_id n.
Proof.
  intros [H1 H2]. unfold _removeMulticast. destruct (bool_decide _); split_and!; try done. split; [done|]. by apply erase_multicast_ok.
Qed.

Lemma connectMulticast_conn_ok sp s n c :
  multicasts_ok s -> multicasts_ok n -> multicast c = true ->
  let '(s', n') := _connectMulticast_conn sp s n c in
  (multicasts_ok s' /\ n_outgoing s' = n_outgoing s /\ n_state s' = n_state s /\ n_id s' = n_id s) /\
  (multicasts_ok n' /\ n_outgoing n' = n_outgoing n /\ n_state n' = n_state n /\ n_id n' = n_id n).
Proof.
  intros Hs Hn Hc. pose proof Hs as [Hs1 Hs2]. pose proof Hn as [Hn1 Hn2]. unfold _connectMulticast_conn. destruct (n_outMulticast n) as [c'|] eqn:E.
  - destruct (_ || _); [done|]. split_and!; try done. split; [done|]. cbn. apply Forall_app. split; [done|]. by apply Forall_singleton.
  - split_and!; try done. split; cbn; [by intros ? [= <-]|]. by apply erase_multicast_ok.
Qed.

(** A change that only touches multicast connections. *)
Lemma links_same p f l :
  links l ->
  (forall n, ln_heap l !! p = Some n -> multicasts_ok n ->
     multicasts_ok (f n) /\ n_outgoing (f n) = n_outgoing n /\ n_state (f n) = n_state n /\ n_id (f n) = n_id n) ->
  links (update_node p f l).
Proof.
  intros H Hf. apply links_update; [done|]. intros n Hn Ho Hm. destruct (Hf n Hn Hm) as (H1 & H2 & H3 & H4). split_and!; try done.
  unfold outgoing_ok in *. by rewrite H2, H3.
Qed.

(** *** The handlers *)

Lemma set_data_links p d l : links l -> p <> ln_self l -> links (update_node p (set_data d) l).
Proof. intros H Hp. apply links_update; [done|]. by intros n _ Ho Hm. Qed.

Lemma multicast_links p l : links l -> links (update_node p (_connectMulticast descriptionOf (self l)) l).
Proof. intros H. apply links_same; [done|]. intros n _ Hm. apply connectMulticast_ok; [by apply links_node_at|done]. Qed.

Lemma connect_links p c l :
  links l -> p <> ln_self l -> ln_connectionNodes l !! c = Some p -> c ∈ ln_incoming l -> multicast c = false -> links (update_node p (Node_connect c) l).
Proof.
  intros H Hp Hc Hi Hm. apply links_update; [done|]. intros n _ _ Hn. split_and!; try done. unfold outgoing_ok. cbn. by rewrite decide_False.
Qed.

Lemma sublist_same_length {X} (l l' : list X) : l `sublist_of` l' -> length l = length l' -> l = l'.
Proof.
  induction 1 as [|x l l' _ IH|x l l' Hs _]; cbn; intros Hl; [done|f_equal; apply IH; lia|]. apply sublist_length in Hs. lia.
Qed.

Lemma close_spec p l : ln_heap (_closeNode p l).1 = alter Node_disconnect p (ln_heap l) /\ ln_self (_closeNode p l).1 = ln_self l /\
  ln_incoming (_closeNode p l).1 `sublist_of` ln_incoming l.
Proof.
  assert (forall c l, ln_heap (erase_connection connClosed c l).1 = ln_heap l /\ ln_self (erase_connection connClosed c l).1 = ln_self l /\
    ln_incoming (erase_connection connClosed c l).1 `sublist_of` ln_incoming l) as He.
  { intros [c|] l0; cbn; [|done]. split_and!; try done. apply sublist_filter. }
  unfold LocalNode._closeNode. pose proof (He (n_outgoing (node_at p l)) (update_node p Node_disconnect l)) as (H1 & H2 & H3).
  destruct (erase_connection _ (n_outgoing _) _) as [l1 o1]. pose proof (He (n_outMulticast (node_at p l)) l1) as (H4 & H5 & H6).
  destruct (erase_connection _ (n_outMulticast _) _) as [l2 o2]. cbn in *. rewrite H4, H5, H1, H2. split_and!; try done. by etrans.
Qed.

Lemma unused_after_close c p l : links l -> ln_connectionNodes l !! c = Some p -> unused c (_closeNode p l).1.
Proof.
  intros H Hc q n Hn Hq E. destruct (close_spec p l) as (Hh & Hs & _). rewrite Hh in Hn. rewrite Hs in Hq.
  destruct (decide (p = q)) as [<-|Hpq].
  { rewrite lookup_alter_eq in Hn. destruct (ln_heap l !! p); [|done]. by injection Hn as <-. }
  rewrite lookup_alter_ne in Hn by done. destruct (lk_heap _ H _ _ Hn) as [Ho _]. unfold outgoing_ok in Ho. rewrite E, decide_False in Ho by done.
  destruct Ho. congruence.
Qed.

Lemma known_not_self id p l : links l -> ln_nodes l !! id = Some p -> id <> n_id (self l) -> allocated l p /\ p <> ln_self l.
Proof. intros H Hp Hid. destruct (lk_nodes _ H _ _ Hp) as [Ha Hs]. split; [done|]. intros ->. by apply Hid, Hs. Qed.

Lemma not_sibling c l : links l -> c ∈ ln_incoming l -> c <> sibling.
Proof. intros H Hc ->. by destruct (lk_pipe _ H) as (_ & ? & _). Qed.

Lemma cmdConnect_links c nodeID r type data l :
  links l -> c ∈ ln_incoming l -> ln_connectionNodes l !! c = None -> nodeID <> n_id (self l) ->
  links (_cmdConnect newNode canCreate be connClosed c nodeID r type data l).1.
Proof.
  intros H Hi Hc Hid. pose proof (not_sibling _ _ H Hi) as Hs. unfold _cmdConnect.
  assert (links (LocalNode_removeConnection c l).1) as Href by (apply links_remove; [done|by apply unused_unbound]).
  assert (forall p l, links l -> allocated l p -> p <> ln_self l -> ln_connectionNodes l !! c = None ->
    links (set_ln_nodes (<[n_id (node_at p (set_ln_connectionNodes (<[c := p]> (ln_connectionNodes l)) (update_node p (set_data data) l))) := p]> (ln_nodes l))
      (set_ln_connectionNodes (<[c := p]> (ln_connectionNodes l)) (update_node p (set_data data) l)))) as Hacc.
  { clear - Hs. intros p l H Ha Hp Hc. apply (set_data_links p data) in H; [|done]. apply (links_bind c p) in H; [|by apply allocated_update|by left|done].
    apply (links_nodes_insert (n_id (node_at p (set_ln_connectionNodes (<[c := p]> (ln_connectionNodes l)) (update_node p (set_data data) l)))) p) in H; [done|by apply allocated_update|done]. }
  destruct (ln_nodes l !! nodeID) as [p|] eqn:E.
  - destruct (known_not_self _ _ _ H E Hid) as [Ha Hp]. destruct (isReachable _); [done|]. exact (Hacc p l H Ha Hp Hc).
  - destruct (createNode type l) as [[p l']|] eqn:Ec; [|done].
    destruct (links_create _ _ _ _ H Ec) as (H' & Ha & Hp & _ & Ecn & _). rewrite <- Ecn in Hc. exact (Hacc p l' H' Ha Hp Hc).
Qed.

Lemma cmdConnectReply_links c nodeID r rest l :
  links l -> c ∈ ln_incoming l -> ln_connectionNodes l !! c = None -> multicast c = false -> (rest = None \/ nodeID <> n_id (self l)) ->
  links (_cmdConnectReply newNode canCreate be descriptionOf connClosed c nodeID r rest l).1.
Proof.
  intros H Hi Hc Hm Hid. pose proof (not_sibling _ _ H Hi) as Hs. unfold _cmdConnectReply.
  assert (links (LocalNode_removeConnection c l).1) as Href by (apply links_remove; [done|by apply unused_unbound]).
  destruct rest as [[nodeType data]|]; [|by apply links_serve]. destruct Hid as [|Hid]; [done|]. cbn zeta.
  assert (forall p l, links l -> allocated l p -> p <> ln_self l -> ln_connectionNodes l !! c = None -> c ∈ ln_incoming l ->
    let l := set_ln_connectionNodes (<[c := p]> (ln_connectionNodes l)) (update_node p (Node_connect c) (update_node p (set_data data) l)) in
    let l := set_ln_nodes (<[n_id (node_at p l) := p]> (ln_nodes l)) l in
    links (NodeRequest_serve r (NBool true) (update_node p (_connectMulticast descriptionOf (self l)) l))) as Hconn.
  { clear - Hs Hm. intros p l H Ha Hp Hc Hi l1 l2. apply (set_data_links p data) in H; [|done].
    apply (links_bind c p) in H; [|by apply allocated_update|by left|done]. apply (connect_links p c) in H; [|done|apply lookup_insert_eq|done..].
    apply (links_nodes_insert (n_id (node_at p l1)) p) in H; [|by apply allocated_update, allocated_update|done].
    apply links_serve; [|done]. by apply (multicast_links p) in H. }
  destruct (ln_nodes l !! nodeID) as [p|] eqn:E.
  - destruct (known_not_self _ _ _ H E Hid) as [Ha Hp]. destruct (isReachable _); [|exact (Hconn p l H Ha Hp Hc Hi)].
    cbn -[LocalNode._closeNode]. apply (links_close p) in Href. cbn -[LocalNode._closeNode] in Href.
    destruct (_closeNode p _) as [l1 out]. by apply links_serve.
  - destruct (r =? LB_UNDEFINED_UINT32).
    + destruct (createNode nodeType l) as [[p l']|] eqn:Ec; [|done].
      destruct (links_create _ _ _ _ H Ec) as (H' & Ha & Hp & _ & Ecn & Ein & _). rewrite <- Ecn in Hc. rewrite <- Ein in Hi.
      exact (Hconn p l' H' Ha Hp Hc Hi).
    + destruct (ln_requests l !! r) as [[[p|] o]|] eqn:Er; [|done..]. destruct (lk_requests _ H _ _ Er) as [Hr _].
      destruct (Hr p eq_refl) as [Ha Hp]. exact (Hconn p l H Ha Hp Hc Hi).
Qed.

Lemma cmdConnectAck_links c l l' out :
  links l -> c ∈ ln_incoming l -> ln_connectionNodes l !! c <> Some (ln_self l) -> multicast c = false ->
  _cmdConnectAck be descriptionOf c l = Some (l', out) -> links l'.
Proof.
  intros H Hi Hc Hm. unfold _cmdConnectAck. destruct (ln_connectionNodes l !! c) as [p|] eqn:E; [cbn|done]. intros [= <- <-].
  assert (p <> ln_self l) as Hp by congruence. apply (connect_links p c) in H; [|done..]. by apply (multicast_links p) in H.
Qed.

Lemma cmdID_links c nodeID type data l l' :
  links l -> c ∈ ln_incoming l -> multicast c = true -> _cmdID newNode canCreate be c nodeID type data l = Some l' -> links l'.
Proof.
  intros H Hi Hm. pose proof (not_sibling _ _ H Hi) as Hs. unfold _cmdID. destruct (ln_connectionNodes l !! c); [by intros [= <-]|].
  destruct (if nodeID =? n_id (self l) then _ else _) as [[p l1]|] eqn:E; [cbn|done].
  assert (links l1 /\ allocated l1 p) as [H1 Ha].
  { destruct (nodeID =? n_id (self l)) eqn:Eid; [injection E as <- <-; split; [done|apply H]|].
    destruct (ln_nodes l !! nodeID) as [q|] eqn:En; [injection E as <- <-; split; [done|]; by apply (lk_nodes _ H _ _ En)|].
    destruct (createNode type l) as [[q l2]|] eqn:Ec; [|done]. cbn in E. injection E as <- <-.
    destruct (links_create _ _ _ _ H Ec) as (H2 & Ha & Hp & _). split; [|by apply allocated_update].
    apply (set_data_links q data) in H2; [|done]. apply (links_nodes_insert nodeID q) in H2; [done|by apply allocated_update|done]. }
  clear E H. pose proof (connectMulticast_conn_ok (ln_self l1) (self l1) (node_at p l1) c (links_node_at _ _ H1) (links_node_at _ _ H1) Hm) as Hok.
  destruct (_connectMulticast_conn (ln_self l1) (self l1) (node_at p l1) c) as [me node]. destruct Hok as [Hme Hnode]. cbn. intros [= <-].
  destruct (Z.eqb_spec p (ln_self l1)) as [->|Hp].
  - apply links_bind; [|by apply allocated_update|by do 2 right|done]. apply links_same; [done|]. intros n Hn _.
    unfold LocalNode.self in *. rewrite (node_at_heap _ _ _ Hn) in *. by destruct (bool_decide _).
  - apply links_bind; [|by apply allocated_update, allocated_update|by do 2 right|done]. apply links_same.
    + apply links_same; [done|]. intros n Hn _. unfold LocalNode.self in Hme. by rewrite (node_at_heap _ _ _ Hn) in Hme.
    + cbn. rewrite lookup_alter_ne by done. intros n Hn _. by rewrite (node_at_heap _ _ _ Hn) in Hnode.
Qed.

Lemma getNodeDataReply_links nodeID r type data l :
  links l -> links (_cmdGetNodeDataReply newNode canCreate be nodeID r type data l).
Proof.
  intros H. unfold _cmdGetNodeDataReply. destruct (ln_nodes l !! nodeID) as [p|] eqn:E.
  { apply links_serve; [done|]. intros ? [= <-]. by apply (lk_nodes _ H _ _ E). }
  destruct (type =? NODETYPE_INVALID); [by apply links_serve|]. destruct (createNode type l) as [[p l']|] eqn:Ec; [|by apply links_serve].
  destruct (links_create _ _ _ _ H Ec) as (H' & Ha & Hp & _).
  apply links_serve; [destruct data; [by apply set_data_links|done]|]. intros ? [= <-]. destruct data; [by apply allocated_update|done].
Qed.

Lemma handleDisconnect_links c l : links l -> links (_handleDisconnect be descriptionOf connClosed c l).1.
Proof.
  intros H. unfold _handleDisconnect. destruct (ln_connectionNodes l !! c) as [p|] eqn:E;
    [|cbn; apply links_remove; [done|by apply unused_unbound]].
  destruct (bool_decide_reflect (n_outgoing (node_at p l) = Some c)) as [Ho|Ho].
  - pose proof (links_close p l H) as Hl. pose proof (unused_after_close c p l H E) as Hu. destruct (_closeNode p l) as [l1 out].
    by apply (links_remove c) in Hl.
  - destruct (multicast c) eqn:Hm; cbn.
    + assert (links (update_node p (_removeMulticast c) l)) as Hl by (apply links_same; [done|]; intros; by apply removeMulticast_ok).
      apply (links_remove c) in Hl; [done|]. by apply unused_multicast.
    + apply (links_remove c) in H as Hl; [done|]. eapply unused_bound; [done..|by right].
Qed.

(** What the sender of a command and the connection it arrives on have to respect:
    the assertions of the handlers. *)
Definition message_ok (c : Z) (m : NodeMessage) (l : LocalNode) : Prop :=
  c ∈ ln_incoming l /\
  match m with
  | MConnect nodeID _ _ _ => ln_connectionNodes l !! c = None /\ nodeID <> n_id (self l)
  | MConnectReply nodeID _ rest => ln_connectionNodes l !! c = None /\ multicast c = false /\ (rest = None \/ nodeID <> n_id (self l))
  | MConnectAck => ln_connectionNodes l !! c <> Some (ln_self l) /\ multicast c = false
  | MID _ _ _ => multicast c = true
  | _ => True
  end.

Lemma message_links c m l l' out : links l -> message_ok c m l -> receive_message c m l = Some (l', out) -> links l'.
Proof.
  intros H [Hi Hm]. destruct m; cbn [LocalNode.receive_message].
  - destruct Hm. intros [= E]. change l' with (l', out).1. rewrite <- E. by apply cmdConnect_links.
  - destruct Hm as (? & ? & ?). intros [= E]. change l' with (l', out).1. rewrite <- E. by apply cmdConnectReply_links.
  - destruct Hm. by eapply cmdConnectAck_links.
  - destruct (_cmdID _ _ _ _ _ _ _ _) as [l1|] eqn:E; [cbn|done]. intros [= <- _]. by eapply cmdID_links.
  - destruct (ln_connectionNodes l !! c); [cbn|done]. destruct (n_outgoing _); [cbn|done]. by intros [= <- _].
  - intros [= <- _]. by apply getNodeDataReply_links.
Qed.

(** *** Operations *)

(** What happens to a node that listens: commands and closed connections, handled by
    the receiver thread, and what the application starts. *)
Inductive NodeOp :=
| OpAccept (c : Z)
| OpMessage (c : Z) (m : NodeMessage)
| OpClosed (c : Z)
| OpConnect (p c : Z)
| OpDisconnect (p : Z)
| OpCmdDisconnect (requestID : Z)
| OpAckRequest (requestID : Z)
| OpUnregister (requestID : Z)
| OpCreate (type : Z)
| OpAddListener (p c : Z) (description : ConnectionDescription)
| OpRemoveListener (p requestID c : Z) (description : ConnectionDescription).

Definition node_exec (l : LocalNode) (op : NodeOp) : LocalNode :=
  match op with
  | OpAccept c => _handleConnect (Some c) l
  | OpMessage c m => from_option fst l (receive_message c m l)
  | OpClosed c => (_handleDisconnect be descriptionOf connClosed c l).1
  | OpConnect p c => from_option (fun r => r.1.2) l (LocalNode_connect newRequest be connClosed p c l)
  | OpDisconnect p => from_option snd l (disconnect newRequest be p l)
  | OpCmdDisconnect r => from_option fst l (_cmdDisconnect be connClosed r l)
  | OpAckRequest r => _cmdAckRequest r l
  | OpUnregister r => unregisterRequest r l
  | OpCreate type => from_option snd l (createNode type l)
  | OpAddListener p c d => _cmdAddListener descriptionOf p c d l
  | OpRemoveListener p r c d => default l (_cmdRemoveListener be descriptionOf p r c d l)
  end.

Definition op_ok (op : NodeOp) (l : LocalNode) : Prop :=
  match op with
  | OpAccept c => c <> sibling
  | OpMessage c m => message_ok c m l
  | OpConnect p c => allocated l p /\ c <> sibling
  | OpDisconnect p => allocated l p
  | OpAddListener p c _ => p = ln_self l -> ln_connectionNodes l !! c = None /\ c <> sibling
  | OpRemoveListener p _ c _ => p = ln_self l -> ln_connectionNodes l !! c = Some (ln_self l)
  | _ => True
  end.

Lemma add_listener_links c l :
  links l -> ln_connectionNodes l !! c = None \/ ln_connectionNodes l !! c = Some (ln_self l) -> c <> sibling -> links (add_listener descriptionOf c l).
Proof.
  intros H Hc Hs. unfold add_listener. apply links_incoming; [|done].
  assert (links (set_ln_connectionNodes (<[c := ln_self l]> (ln_connectionNodes l)) l)) as Hb by (apply links_bind; [done|apply H|by destruct Hc; auto|done]).
  destruct (multicast c) eqn:Hm; [|done]. apply links_same; [done|]. intros n _ [H1 H2]. split_and!; try done. split; [done|].
  apply Forall_app. split; [done|]. by apply Forall_singleton.
Qed.

Lemma removeDescription_same d n : let n' := (_removeConnectionDescription d n).2 in
  (multicasts_ok n -> multicasts_ok n') /\ n_outgoing n' = n_outgoing n /\ n_state n' = n_state n /\ n_id n' = n_id n.
Proof. unfold _removeConnectionDescription. by destruct (erase_description d (n_descriptions n)). Qed.

Lemma removeListener_links p r c d l l' :
  links l -> (p = ln_self l -> ln_connectionNodes l !! c = Some (ln_self l)) -> _cmdRemoveListener be descriptionOf p r c d l = Some l' -> links l'.
Proof.
  intros H Hc. unfold _cmdRemoveListener. pose proof (removeDescription_same d (node_at p l)) as Hr.
  destruct (_removeConnectionDescription d (node_at p l)) as [found node]. cbn in Hr. destruct found; [cbn|done].
  assert (links (update_node p (fun _ => node) l)) as H1.
  { apply links_same; [done|]. intros n Hn Hm. rewrite (node_at_heap _ _ _ Hn) in Hr. destruct Hr as (Hr & ?). split; [by apply Hr|done]. }
  clear Hr. set (l1 := update_node p (fun _ => node) l) in *. destruct (Z.eqb_spec p (ln_self l)) as [->|]; cbn; [|by intros [= <-]].
  specialize (Hc eq_refl). intros [= <-]. apply links_serve; [|done].
  set (l2 := if multicast c then _ else l1). assert (links l2) as H2.
  { subst l2. destruct (multicast c); [|done]. apply links_same; [done|]. intros. by apply removeMulticast_ok. }
  assert (ln_connectionNodes l2 = ln_connectionNodes l /\ ln_self l2 = ln_self l) as [Ecn Es] by (subst l2; by destruct (multicast c)).
  assert (unused c l2) as Hu by (eapply unused_bound; [done|by rewrite Ecn|left; by rewrite Es]).
  apply (links_remove c) in H2; [|done]. by apply (links_unbind c) in H2.
Qed.

Lemma exec_links op l : links l -> op_ok op l -> links (node_exec l op).
Proof.
  intros H Hop. destruct op; cbn in *.
  - by apply links_incoming.
  - destruct (receive_message c m l) as [[l' out]|] eqn:E; [|done]. by eapply message_links.
  - by apply handleDisconnect_links.
  - destruct Hop as [Ha Hc]. unfold LocalNode_connect. destruct (negb (isListening (self l))) eqn:E1; [done|]. destruct (connClosed c); [done|].
    destruct (negb (isClosed (node_at p l))) eqn:E2; [done|]. apply (links_incoming c) in H; [|done]. apply links_requests; [done|].
    split; cbn; [|done]. intros q [= <-]. split; [done|]. intros ->. unfold isListening, LocalNode.self, isClosed in *.
    apply negb_false_iff, bool_decide_eq_true in E1, E2. congruence.
  - unfold disconnect. destruct (isListening (self l) && isConnected (node_at p l)) eqn:E; [cbn|done]. apply links_requests; [done|].
    split; cbn; [|done]. intros q [= <-]. split; [done|]. intros ->. apply andb_true_iff in E as [E1 E2].
    apply bool_decide_eq_true in E1, E2. unfold LocalNode.self in E1. congruence.
  - unfold _cmdDisconnect. destruct (ln_requests l !! requestID) as [[[p|] o]|]; [|done..].
    pose proof (links_close p l H). destruct (_closeNode p l) as [l1 out]. cbn. by apply links_serve.
  - by apply links_serve.
  - destruct H as [H1 H2 H3 H4 H5 H6]. constructor; try done. by apply map_Forall_delete.
  - destruct (createNode type l) as [[p l']|] eqn:E; [|done]. by destruct (links_create _ _ _ _ H E).
  - unfold _cmdAddListener. assert (links (update_node p (fun n => set_n_descriptions (n_descriptions n ++ [description]) n) l)) as H1
      by (apply links_same; [done|]; by intros).
    cbn. destruct (Z.eqb_spec p (ln_self l)) as [->|]; [|done]. destruct (Hop eq_refl). apply add_listener_links; [done|by left|done].
  - destruct (_cmdRemoveListener _ _ _ _ _ _ _) as [l'|] eqn:E; [|done]. by eapply removeListener_links.
Qed.

(** All operations of a sequence are in order. *)
Fixpoint ops_ok (ops : list NodeOp) (l : LocalNode) : Prop :=
  match ops with [] => True | op :: ops => op_ok op l /\ ops_ok ops (node_exec l op) end.

Lemma ops_links ops l : links l -> ops_ok ops l -> links (foldl node_exec l ops).
Proof. revert l. induction ops as [|op ops IH]; intros l H Hok; [done|]. destruct Hok as [H1 H2]. cbn. apply IH; [by apply exec_links|done]. Qed.

(** *** Start and stop *)

(** A new local node *)
Definition LocalNode_init (p id type : Z) (descriptions : list ConnectionDescription) : LocalNode :=
  mkLocalNode p {[p := set_n_descriptions descriptions (Node_init id type be)]} ∅ ∅ [] ∅.

Lemma listen_loop_links openListener ds l ok l' :
  (forall d c, openListener d = Some c -> c <> sibling) ->
  links l -> map_Forall (fun _ p => p = ln_self l) (ln_connectionNodes l) -> listen_loop descriptionOf openListener ds l = (ok, l') ->
  links l' /\ ln_self l' = ln_self l /\ (forall n, ln_heap l !! ln_self l = Some n -> n_state n = NODE_CLOSED -> exists n', ln_heap l' !! ln_self l = Some n' /\
    n_state n' = NODE_CLOSED /\ n_outgoing n' = n_outgoing n).
Proof.
  intros Hop. revert l. induction ds as [|d ds IH]; intros l H Hcn; cbn; [intros [= <- <-]; split_and!; eauto|].
  destruct (openListener d) as [c|] eqn:E; [|intros [= <- <-]; split_and!; eauto]. intros Hl.
  assert (links (add_listener descriptionOf c l)) as H1.
  { apply add_listener_links; [done| |by eapply Hop]. destruct (ln_connectionNodes l !! c) as [p|] eqn:Ec; [right; f_equal; by apply (Hcn _ _ Ec)|by left]. }
  assert (ln_self (add_listener descriptionOf c l) = ln_self l) as Es by (unfold add_listener; cbn; by destruct (multicast c)).
  assert (ln_connectionNodes (add_listener descriptionOf c l) = <[c := ln_self l]> (ln_connectionNodes l)) as Ec
    by (unfold add_listener; cbn; by destruct (multicast c)).
  apply IH in Hl as (H2 & H3 & H4); [|done|rewrite Es, Ec; by apply map_Forall_insert_2]. rewrite Es in H3, H4. split_and!; try done.
  intros n Hn Hst. unfold add_listener in H4. cbn in H4. destruct (multicast c); cbn in H4; [|by apply H4].
  specialize (H4 (_addMulticast (ln_self l) c n)). rewrite lookup_alter_eq, Hn in H4. by apply H4.
Qed.

Lemma listen_links openListener pipe p id type ds l :
  (forall d c, openListener d = Some c -> c <> sibling) -> pipe <> sibling -> multicast sibling = false ->
  LocalNode_listen be descriptionOf openListener (Some (pipe, sibling)) (LocalNode_init p id type ds) = (true, l) ->
  links l /\ isListening (self l) = true.
Proof.
  intros Hop Hp Hm. unfold LocalNode_listen. set (l0 := LocalNode_init p id type ds).
  assert (self l0 = set_n_descriptions ds (Node_init id type be)) as E0 by (unfold LocalNode.self, LocalNode.node_at; cbn; by rewrite lookup_singleton_eq).
  rewrite E0. cbn [negb isClosed bool_decide].
  set (n1 := set_n_state NODE_CLOSED (Node_connect sibling (set_n_descriptions ds (Node_init id type be)))).
  assert (_connectSelf be pipe sibling l0 = mkLocalNode p {[p := n1]} {[id := p]} {[pipe := p]} [pipe] ∅) as E1.
  { unfold _connectSelf, l0, LocalNode_init, update_node, LocalNode_addConnection, set_ln_nodes, set_ln_connectionNodes, set_ln_heap, LocalNode.self,
      LocalNode.node_at. cbn. by rewrite alter_singleton_eq, lookup_singleton_eq. }
  rewrite E1. destruct (listen_loop _ _ _ _) as [ok l1] eqn:El. destruct ok; intros [= <-].
  assert (n_id (self (mkLocalNode p {[p := n1]} {[id := p]} {[pipe := p]} [pipe] ∅)) = id) as Eid
    by (unfold LocalNode.self, LocalNode.node_at; cbn; by rewrite lookup_singleton_eq).
  apply listen_loop_links in El as (H & Hs & Hst); [|done| |apply map_Forall_singleton; done].
  - cbn in Hs, Hst. destruct (Hst n1) as (n' & Hn' & Hc & Ho); [apply lookup_singleton_eq|done|]. rewrite Hs. split.
    + apply links_update; [done|]. intros n Hn Hok Hmu. split_and!; try done. revert Hok. unfold outgoing_ok. rewrite Hn' in Hn. injection Hn as <-.
      cbn [n_outgoing n_state set_n_state]. rewrite Ho. cbn. by destruct (decide (p = ln_self l1)) as [_|Hne].
    + unfold LocalNode.self, LocalNode.node_at, update_node. cbn. rewrite Hs. rewrite lookup_alter_eq, Hn'. done.
  - constructor; cbn.
    + unfold allocated. cbn. rewrite lookup_singleton_eq. by eexists.
    + apply map_Forall_singleton. rewrite Eid. split; [|done]. unfold allocated. cbn. rewrite lookup_singleton_eq. by eexists.
    + apply map_Forall_singleton. unfold allocated. cbn. rewrite lookup_singleton_eq. by eexists.
    + apply map_Forall_empty.
    + apply map_Forall_singleton. split; [unfold outgoing_ok; cbn; by rewrite decide_True|]. split; [done|constructor].
    + split_and!; [by apply lookup_singleton_ne|set_solver|done].
Qed.

Definition self_idle (l : LocalNode) : Prop := forall n, ln_heap l !! ln_self l = Some n -> n_outgoing n = None.

Lemma remove_connections_links fuel l :
  links l -> self_idle l -> (length (ln_incoming l) <= fuel)%nat ->
  let l' := (remove_connections be connClosed fuel l).1 in links l' /\ self_idle l' /\ ln_incoming l' = [].
Proof.
  revert l. induction fuel as [|fuel IH]; intros l H Hs Hf; cbn [remove_connections].
  { assert (ln_incoming l = []) as E by (destruct (ln_incoming l); [done|cbn in Hf; lia]). by split_and!. }
  destruct (last (ln_incoming l)) as [c|] eqn:E; [|by apply last_None in E].
  assert (c ∈ ln_incoming l) as Hc by (by apply last_Some_elem_of).
  set (r := match ln_connectionNodes l !! c with Some node => _closeNode node l | None => (l, []) end).
  assert (links r.1 /\ self_idle r.1 /\ unused c r.1 /\ ln_incoming r.1 `sublist_of` ln_incoming l) as (H1 & H2 & H3 & H4).
  { subst r. destruct (ln_connectionNodes l !! c) as [p|] eqn:Ec; [|split_and!; try done; by apply unused_unbound].
    destruct (close_spec p l) as (Eh & Es & El). split_and!; [by apply links_close| |by apply unused_after_close|done].
    intros n. rewrite Eh, Es. destruct (decide (p = ln_self l)) as [->|]; [|rewrite lookup_alter_ne by done; apply Hs].
    rewrite lookup_alter_eq. destruct (ln_heap l !! ln_self l); [|done]. by intros [= <-]. }
  destruct r as [l1 out]. cbn in H1, H2, H3, H4. apply (links_remove c) in H1; [|done].
  assert (length (ln_incoming (LocalNode_removeConnection c l1).1) < length (ln_incoming l))%nat as Hlt.
  { cbn. pose proof (sublist_length _ _ H4) as Hle. destruct (decide (c ∈ ln_incoming l1)) as [Hin|Hin].
    - pose proof (length_filter_lt (fun c' => c' <> c) _ _ Hin) as Hlt. lia.
    - pose proof (length_filter (fun c' => c' <> c) (ln_incoming l1)). destruct (decide (length (ln_incoming l1) = length (ln_incoming l))) as [Hl|]; [|lia].
      exfalso. by rewrite (sublist_same_length _ _ H4 Hl) in Hin. }
  cbn [LocalNode.LocalNode_removeConnection]. cbn in H1, Hlt.
  specialize (IH _ H1). destruct (remove_connections _ _ fuel _) as [l2 out'']. cbn in *. apply IH; [done|lia].
Qed.

Lemma stop_links pipe l :
  links l -> ln_connectionNodes l !! pipe = Some (ln_self l) ->
  let l' := (stop_receiver be connClosed pipe l).1 in links l' /\ self_idle l' /\ ln_incoming l' = [].
Proof.
  intros H Hp. unfold stop_receiver. assert (unused pipe l) as Hu by (eapply unused_bound; [done..|by left]).
  pose proof (links_remove pipe l H Hu) as H1. destruct (LocalNode_removeConnection pipe l) as [l1 out] eqn:E1. injection E1 as <- <-. cbn in H1.
  apply (links_unbind pipe) in H1; [|done]. set (l2 := set_ln_connectionNodes _ _) in *.
  assert (links (update_node (ln_self l2) Node_disconnect l2)) as H3 by (apply links_update; [done|]; by intros n Hn _ _; repeat split).
  assert (self_idle (update_node (ln_self l2) Node_disconnect l2)) as H4.
  { intros n. cbn. rewrite lookup_alter_eq. destruct (ln_heap l !! ln_self l); [|done]. by intros [= <-]. }
  pose proof (remove_connections_links _ _ H3 H4 (le_n _)) as H5. by destruct (remove_connections _ _ _ _).
Qed.

End links.

(** ** Theorems *)

Section theorems.

Context (newNode : gmap Z Node -> Z) (newRequest : gmap Z (option Z * option NodeResult) -> Z).
Context (canCreate : Z -> bool) (be : bool).
Context (descriptionOf : Z -> ConnectionDescription) (connClosed : Z -> bool).

#[local] Abbreviation exec := (node_exec newNode newRequest canCreate be descriptionOf connClosed).
#[local] Abbreviation in_order := (ops_ok newNode newRequest canCreate be descriptionOf connClosed).

(** C21: the tables of a node that listens are sound.  After any sequence of
    commands, connections and application calls that respects the handlers'
    assertions, every node the tables and requests refer to exists; a node that is
    connected has a connection, by which it is found and which the receiver thread
    watches; and the local node itself is never taken for a connected peer. *)
Theorem node_tables_sound openListener pipe sibling p id type ds l0 ops :
  (forall h, h !! newNode h = None) ->
  (forall d c, openListener d = Some c -> c <> sibling) -> pipe <> sibling -> isMulticastConn descriptionOf sibling = false ->
  LocalNode_listen be descriptionOf openListener (Some (pipe, sibling)) (LocalNode_init be p id type ds) = (true, l0) ->
  in_order sibling ops l0 ->
  let l := foldl exec l0 ops in
  (forall id p, ln_nodes l !! id = Some p -> is_Some (ln_heap l !! p)) /\
  (forall c p, ln_connectionNodes l !! c = Some p -> is_Some (ln_heap l !! p)) /\
  (forall r p o, ln_requests l !! r = Some (Some p, o) -> is_Some (ln_heap l !! p) /\ p <> ln_self l) /\
  (forall p n, ln_heap l !! p = Some n -> n_state n = NODE_CONNECTED ->
     p <> ln_self l /\ exists c, n_outgoing n = Some c /\ ln_connectionNodes l !! c = Some p /\ c ∈ ln_incoming l).
Proof.
  intros Hnew Hop Hp Hm Hl Hops. destruct (listen_links newNode canCreate be descriptionOf connClosed Hnew sibling _ _ _ _ _ _ _ Hop Hp Hm Hl) as [H _].
  apply (ops_links newNode newRequest canCreate be descriptionOf connClosed Hnew) with (ops := ops) in H; [|done]. cbn zeta. set (l := foldl exec l0 ops) in *.
  split_and!.
  - intros i q Hq. by apply (lk_nodes _ _ _ _ H _ _ Hq).
  - intros c q Hq. by apply (lk_connections _ _ _ _ H _ _ Hq).
  - intros r q o Hq. by apply (proj1 (lk_requests _ _ _ _ H _ _ Hq)).
  - intros q n Hn Hc. destruct (lk_heap _ _ _ _ H _ _ Hn) as [Ho _]. unfold outgoing_ok in Ho. destruct (n_outgoing n) as [c|]; [|done].
    destruct (decide (q = ln_self l)); [by destruct Ho|]. split; [done|]. exists c. by destruct Ho as (? & ? & _).
Qed.

(** C22: the receiver thread closes everything when it ends: from any state a node
    that listens can be in, its last loop terminates with no connection left to
    watch, and no node has a connection or is connected. *)
Theorem node_shutdown_complete openListener pipe sibling p id type ds l0 ops :
  (forall h, h !! newNode h = None) ->
  (forall d c, openListener d = Some c -> c <> sibling) -> pipe <> sibling -> isMulticastConn descriptionOf sibling = false ->
  LocalNode_listen be descriptionOf openListener (Some (pipe, sibling)) (LocalNode_init be p id type ds) = (true, l0) ->
  in_order sibling ops l0 -> ln_connectionNodes (foldl exec l0 ops) !! pipe = Some (ln_self (foldl exec l0 ops)) ->
  let l := (stop_receiver be connClosed pipe (foldl exec l0 ops)).1 in
  ln_incoming l = [] /\ (forall p n, ln_heap l !! p = Some n -> n_outgoing n = None /\ n_state n <> NODE_CONNECTED).
Proof.
  intros Hnew Hop Hp Hm Hl Hops Hpipe. destruct (listen_links newNode canCreate be descriptionOf connClosed Hnew sibling _ _ _ _ _ _ _ Hop Hp Hm Hl) as [H _].
  apply (ops_links newNode newRequest canCreate be descriptionOf connClosed Hnew) with (ops := ops) in H; [|done].
  destruct (stop_links be descriptionOf connClosed sibling pipe _ H Hpipe) as (H1 & H2 & H3). split; [done|]. intros q n Hn.
  destruct (lk_heap _ _ _ _ H1 _ _ Hn) as [Ho _]. unfold outgoing_ok in Ho. rewrite H3 in Ho. destruct (n_outgoing n) as [c|] eqn:E; [|done].
  destruct (decide _) as [->|]; [|destruct Ho as (_ & Hin & _); set_solver]. by rewrite (H2 _ Hn) in E.
Qed.

(** *** Connecting by identifier *)

Context (wait : Z -> LocalNode -> LocalNode) (openConnection : ConnectionDescription -> option Z).








(** A discovered instance is returned exactly if connecting to it failed: the result
    is tested for a value other than zero, and zero is [CONNECT_OK]. *)
Lemma zeroconf_result_inverted nodeID i p l1 l r l' :
  in_id i = nodeID -> createNode newNode canCreate be (default 0 (in_type i)) l = Some (p, l1) -> is_Some (in_type i) ->
  connect_node newRequest be connClosed wait openConnection p
    (update_node p (fun n => foldl (fun n d => addConnectionDescription d n) n (in_descriptions i)) l1) = (r, l') ->
  _connectFromZeroconf newNode newRequest canCreate be connClosed wait openConnection nodeID [i] l =
    (if decide (r = CONNECT_OK) then None else Some p, l').
Proof.
  intros Hid Hc [t Ht] Hn. cbn. rewrite Hid, Z.eqb_refl, Ht. rewrite Ht in Hc. cbn in Hc |- *. rewrite Hc, Hn.
  destruct (bool_decide_reflect (r = CONNECT_OK)), (decide (r = CONNECT_OK)); done.
Qed.


End theorems.

(** ** A node with a listener, a peer that connects, and one it connects to. *)

Definition life_new (h : gmap Z Node) : Z := fresh (dom h : gset Z).
Definition life_request (r : gmap Z (option Z * option NodeResult)) : Z := fresh (dom r : gset Z).
Definition life_description (c : Z) : ConnectionDescription := ConnectionDescription_init.
Definition life_start : LocalNode := (LocalNode_listen false life_description (fun _ => Some 10) (Some (2, 3))
  (LocalNode_init false 1 100 1 [ConnectionDescription_init])).2.
Definition life_data (id : Z) : NodeData := mkNodeData id false [].
Definition life_ops : list NodeOp :=
  [OpAccept 20; OpMessage 20 (MConnect 200 5 1 (life_data 200)); OpMessage 20 MConnectAck;
   OpCreate 1; OpConnect 3 30; OpMessage 30 (MConnectReply 300 0 (Some (1, life_data 300)))].
#[local] Abbreviation life_end := (foldl (node_exec life_new life_request (fun _ => true) false life_description (fun _ => false)) life_start life_ops).

Lemma life_new_fresh h : h !! life_new h = None.
Proof. apply not_elem_of_dom. exact (is_fresh (dom h : gset Z)). Qed.

Lemma life_start_eq : LocalNode_listen false life_description (fun _ => Some 10) (Some (2, 3)) (LocalNode_init false 1 100 1 [ConnectionDescription_init])
  = (true, life_start).
Proof. by vm_compute. Qed.

Ltac life_eval := first [done | by vm_compute | (intros H; by vm_compute in H) | (apply (bool_decide_unpack _); by vm_compute)].

Lemma life_ops_ok : ops_ok life_new life_request (fun _ => true) false life_description (fun _ => false) 3 life_ops life_start.
Proof.
  unfold life_ops, ops_ok. repeat split; cbn [op_ok message_ok]; try (right; life_eval); try life_eval; vm_compute; by eexists.
Qed.

Lemma life_peer : exists n, ln_heap life_end !! 3 = Some n /\ n_state n = NODE_CONNECTED.
Proof. vm_compute. by eexists. Qed.

Lemma node_tables_sound_witness :
  exists c, ln_connectionNodes life_end !! c = Some 3 /\ c ∈ ln_incoming life_end.
Proof.
  destruct (node_tables_sound life_new life_request (fun _ => true) false life_description (fun _ => false) (fun _ => Some 10) 2 3 1 100 1
    [ConnectionDescription_init] life_start life_ops life_new_fresh) as (_ & _ & _ & H);
    [by intros ? ? [= <-]|done|by vm_compute|exact life_start_eq|exact life_ops_ok|].
  destruct life_peer as (n & E & Hs). destruct (H 3 n E Hs) as (_ & c & _ & Hc & Hi). exists c. split; [exact Hc|exact Hi].
Defined.

Lemma node_shutdown_complete_witness :
  ln_incoming (stop_receiver false (fun _ => false) 2 life_end).1 = [].
Proof.
  destruct (node_shutdown_complete life_new life_request (fun _ => true) false life_description (fun _ => false) (fun _ => Some 10) 2 3 1 100 1
    [ConnectionDescription_init] life_start life_ops life_new_fresh) as [H _];
    [by intros ? ? [= <-]|done|by vm_compute|exact life_start_eq|exact life_ops_ok|by vm_compute|exact H].
Defined.

(** An instance that cannot be reached is returned all the same. *)
Definition life_instance : Instance_ := mkInstance 400 (Some 1) [ConnectionDescription_init].

#[local] Abbreviation life_connect id instances :=
  (connect_id life_new life_request (fun _ => true) false (fun _ => false) (fun _ l => l) (fun _ => None) id instances life_end).


Example zeroconf_returns_unreachable :
  isReachable (node_at false 4 (life_connect 400 [life_instance]).2) = false.
Proof. by vm_compute. Qed.
