(* ===== verification/ObjectMap.v ===== *)
(** * The object map (co/objectMap.cpp, serializable.cpp)

    A registry of objects, itself a distributed object: the master instance
    records which objects were registered and deregistered since its last commit,
    and a commit sends these changes to the slave instances, which create and drop
    their entries.  What is streamed is kept as structured data; the stream
    operators are those of Serialize. *)

From S2P Require Import Prelude Bytes.

Definition DIRTY_NONE : Z := 0.
Definition DIRTY_ALL : Z := 0xFFFFFFFFFFFFFFFF.
Definition DIRTY_ADDED : Z := 1.
Definition DIRTY_REMOVED : Z := 2.
Definition DIRTY_CHANGED : Z := 4.
Definition OBJECTTYPE_NONE : Z := 0.
Definition VERSION_NONE : Z := 0.

(** What the map needs to know of an object. *)
Record MapObject := mkMapObject {
  mo_id : Z;
  mo_version : Z;
  mo_isMaster : bool;
  mo_isDirty : bool;
  mo_isStatic : bool
}.

Record Entry := mkEntry {
  en_version : Z;
  en_instance : option Z;
  en_type : Z;
  en_own : bool
}.

Definition Entry_init : Entry := mkEntry 0 None OBJECTTYPE_NONE false.

Record ObjectMap := mkObjectMap {
  om_map : gmap Z Entry;
  om_masters : list Z;
  om_added : list Z;
  om_removed : list Z;
  om_changed : list (Z * Z);
  om_dirty : Z
}.

Definition ObjectMap_init : ObjectMap := mkObjectMap ∅ [] [] [] [] DIRTY_NONE.

Definition set_om_map (m : gmap Z Entry) (o : ObjectMap) : ObjectMap :=
  mkObjectMap m (om_masters o) (om_added o) (om_removed o) (om_changed o) (om_dirty o).
Definition set_om_masters (l : list Z) (o : ObjectMap) : ObjectMap :=
  mkObjectMap (om_map o) l (om_added o) (om_removed o) (om_changed o) (om_dirty o).
Definition set_om_added (l : list Z) (o : ObjectMap) : ObjectMap :=
  mkObjectMap (om_map o) (om_masters o) l (om_removed o) (om_changed o) (om_dirty o).
Definition set_om_removed (l : list Z) (o : ObjectMap) : ObjectMap :=
  mkObjectMap (om_map o) (om_masters o) (om_added o) l (om_changed o) (om_dirty o).
Definition set_om_changed (l : list (Z * Z)) (o : ObjectMap) : ObjectMap :=
  mkObjectMap (om_map o) (om_masters o) (om_added o) (om_removed o) l (om_dirty o).

(** [Serializable::setDirty] and [unsetDirty] *)
Definition setDirty (bits : Z) (o : ObjectMap) : ObjectMap :=
  mkObjectMap (om_map o) (om_masters o) (om_added o) (om_removed o) (om_changed o) (Z.lor (om_dirty o) bits).
Definition unsetDirty (bits : Z) (o : ObjectMap) : ObjectMap :=
  mkObjectMap (om_map o) (om_masters o) (om_added o) (om_removed o) (om_changed o) (Z.land (om_dirty o) (Z.lnot bits)).

(** What [serialize] streams: all entries, or the parts the dirty bits name. *)
Inductive MapData :=
| DAll (entries : list (Z * Z * Z))
| DDelta (dirty : Z) (added : list (Z * Z * Z)) (removed : list Z) (changed : list (Z * Z)).

Section objectmap.

(** The calls into objects, the object handler and the factory. *)
Context (commitObject : Z -> MapObject -> MapObject) (syncObject : Z -> MapObject -> MapObject).
Context (registerObject deregisterObject unmapObject : MapObject -> MapObject).
Context (mapObject : Z -> Z -> MapObject -> option MapObject).
Context (createObject : Z -> option MapObject) (newPtr : gmap Z MapObject -> Z).

(** The iteration order of the hash map. *)
Context (it : gmap Z Entry -> list (Z * Entry)).

Abbreviation heap := (gmap Z MapObject).

Definition at_ptr (p : Z) (h : heap) : MapObject := default (mkMapObject 0 0 false false false) (h !! p).

Definition register_ (p type : Z) (h : heap) (o : ObjectMap) : bool * heap * ObjectMap :=
  let id := mo_id (at_ptr p h) in
  match om_map o !! id with
  | Some _ => (false, h, o)
  | None =>
      let h := alter registerObject p h in
      let o := set_om_map (<[mo_id (at_ptr p h) := mkEntry (mo_version (at_ptr p h)) (Some p) type false]> (om_map o)) o in
      let o := set_om_masters (om_masters o ++ [p]) o in
      let o := set_om_added (om_added o ++ [mo_id (at_ptr p h)]) o in
      (true, h, setDirty DIRTY_ADDED o)
  end.

Definition deregister (p : Z) (h : heap) (o : ObjectMap) : bool * heap * ObjectMap :=
  let id := mo_id (at_ptr p h) in
  match om_map o !! id, list_find (eq p) (om_masters o) with
  | Some _, Some (i, _) =>
      let h := alter deregisterObject p h in
      let o := set_om_map (delete id (om_map o)) o in
      let o := set_om_masters (delete i (om_masters o)) o in
      let o := set_om_removed (om_removed o ++ [mo_id (at_ptr p h)]) o in
      (true, h, setDirty DIRTY_REMOVED o)
  | _, _ => (false, h, o)
  end.

(** One master of [_commitMasters] *)
Definition commit_master (incarnation : Z) (s : heap * ObjectMap) (p : Z) : heap * ObjectMap :=
  let '(h, o) := s in
  let object := at_ptr p h in
  if negb (mo_isDirty object) || mo_isStatic object then s
  else
    let h := alter (commitObject incarnation) p h in
    let id := mo_id object in
    let version := mo_version (at_ptr p h) in
    let entry := default Entry_init (om_map o !! id) in
    let o := set_om_map (<[id := entry]> (om_map o)) o in
    if en_version entry =? version then (h, o)
    else
      (h, set_om_changed (om_changed o ++ [(id, version)])
            (set_om_map (<[id := mkEntry version (en_instance entry) (en_type entry) (en_own entry)]> (om_map o)) o)).

Definition _commitMasters (incarnation : Z) (h : heap) (o : ObjectMap) : heap * ObjectMap :=
  let '(h, o) := foldl (commit_master incarnation) (h, o) (om_masters o) in
  match om_changed o with
  | [] => (h, o)
  | _ => (h, setDirty DIRTY_CHANGED o)
  end.

(** The entries of the objects added; a missing entry is created. *)
Fixpoint serialize_added (ids : list Z) (m : gmap Z Entry) : list (Z * Z * Z) * gmap Z Entry :=
  match ids with
  | [] => ([], m)
  | id :: ids =>
      let entry := default Entry_init (m !! id) in
      let '(l, m) := serialize_added ids (<[id := entry]> m) in
      ((id, en_version entry, en_type entry) :: l, m)
  end.

Definition has (bits flag : Z) : bool := negb (Z.land bits flag =? 0).

Definition serialize (dirtyBits : Z) (o : ObjectMap) : MapData * ObjectMap :=
  if dirtyBits =? DIRTY_ALL then (DAll ((fun e => (e.1, en_version e.2, en_type e.2)) <$> it (om_map o)), o)
  else
    let '(added, m) := if has dirtyBits DIRTY_ADDED then serialize_added (om_added o) (om_map o) else ([], om_map o) in
    (DDelta dirtyBits added (if has dirtyBits DIRTY_REMOVED then om_removed o else [])
       (if has dirtyBits DIRTY_CHANGED then om_changed o else []), set_om_map m o).

(** [Serializable::pack]: nothing if nothing is dirty. *)
Definition pack (o : ObjectMap) : option MapData * ObjectMap :=
  if om_dirty o =? DIRTY_NONE then (None, o) else let '(d, o) := serialize (om_dirty o) o in (Some d, o).

(** [ObjectMap::commit]: what is sent to the slaves. *)
Definition commit (incarnation : Z) (h : heap) (o : ObjectMap) : option MapData * heap * ObjectMap :=
  let '(h, o) := _commitMasters incarnation h o in
  let '(d, o) := pack o in
  (d, h, mkObjectMap (om_map o) (om_masters o) [] [] [] DIRTY_NONE).

Definition isDirty (h : heap) (o : ObjectMap) : bool :=
  negb (om_dirty o =? DIRTY_NONE) || existsb (fun p => mo_isDirty (at_ptr p h)) (om_masters o).

(** [_removeObject]: the instance is unmapped and, if it is our own, destroyed. *)
Definition _removeObject (e : Entry) (h : heap) : heap * Entry :=
  match en_instance e with
  | None => (h, e)
  | Some p =>
      let h := alter unmapObject p h in
      (if en_own e then delete p h else h, mkEntry (en_version e) None (en_type e) (en_own e))
  end.

(** The loop over all entries, up to the terminator. *)
Fixpoint deserialize_all (l : list (Z * Z * Z)) (m : gmap Z Entry) : gmap Z Entry :=
  match l with
  | [] => m
  | (id, version, type) :: l =>
      if (id =? 0) && (version =? VERSION_NONE) then m
      else
        let entry := default Entry_init (m !! id) in
        deserialize_all l (<[id := mkEntry version (en_instance entry) type (en_own entry)]> m)
  end.

Definition deserialize_added (m : gmap Z Entry) (e : Z * Z * Z) : gmap Z Entry :=
  let '(id, version, type) := e in
  let entry := default Entry_init (m !! id) in
  <[id := mkEntry version (en_instance entry) type (en_own entry)]> m.

Definition deserialize_removed (s : heap * gmap Z Entry) (id : Z) : heap * gmap Z Entry :=
  let '(h, m) := s in
  match m !! id with
  | Some e => ((_removeObject e h).1, delete id m)
  | None => s
  end.

Definition deserialize_changed (s : heap * gmap Z Entry) (ov : Z * Z) : heap * gmap Z Entry :=
  let '(h, m) := s in
  let '(id, version) := ov in
  let entry := default Entry_init (m !! id) in
  let m := <[id := entry]> m in
  match en_instance entry with
  | Some p =>
      if mo_isMaster (at_ptr p h) || (version <? mo_version (at_ptr p h)) then (h, m)
      else
        let h := alter (syncObject version) p h in
        (h, <[id := mkEntry (mo_version (at_ptr p h)) (Some p) (en_type entry) (en_own entry)]> m)
  | None => (h, m)
  end.

Definition deserialize (d : MapData) (h : heap) (o : ObjectMap) : heap * ObjectMap :=
  match d with
  | DAll entries => (h, set_om_map (deserialize_all entries (om_map o)) o)
  | DDelta dirty added removed changed =>
      let m := if has dirty DIRTY_ADDED then foldl deserialize_added (om_map o) added else om_map o in
      let '(h, m) := if has dirty DIRTY_REMOVED then foldl deserialize_removed (h, m) removed else (h, m) in
      let '(h, m) := if has dirty DIRTY_CHANGED then foldl deserialize_changed (h, m) changed else (h, m) in
      (h, set_om_map m o)
  end.

Definition notifyAttached (o : ObjectMap) : ObjectMap := set_om_changed [] (set_om_removed [] (set_om_added [] o)).

Definition map (identifier : Z) (instance : option Z) (h : heap) (o : ObjectMap) : option Z * heap * ObjectMap :=
  match (if identifier =? 0 then None else om_map o !! identifier) with
  | None => (None, h, o)
  | Some entry =>
      match en_instance entry with
      | Some p => ((if bool_decide (instance = None \/ instance = Some p) then Some p else None), h, o)
      | None =>
          match (match instance with
                 | Some p => Some (p, h)
                 | None => object ← createObject (en_type entry); Some (newPtr h, <[newPtr h := object]> h)
                 end) with
          | None => (None, h, o)
          | Some (p, h) =>
              match mapObject identifier (en_version entry) (at_ptr p h) with
              | None => (None, (match instance with Some _ => h | None => delete p h end), o)
              | Some object =>
                  (Some p, <[p := object]> h,
                   set_om_map (<[identifier := mkEntry (en_version entry) (Some p) (en_type entry) (bool_decide (instance = None))]>
                                 (om_map o)) o)
              end
          end
      end
  end.

Definition unmap (p : Z) (h : heap) (o : ObjectMap) : bool * heap * ObjectMap :=
  let id := mo_id (at_ptr p h) in
  match om_map o !! id with
  | None => (false, h, o)
  | Some e => let '(h, e) := _removeObject e h in (true, h, set_om_map (<[id := e]> (om_map o)) o)
  end.

Definition clear (h : heap) (o : ObjectMap) : heap * ObjectMap :=
  let '(h, m) := foldl (fun '(h, m) p => (alter deregisterObject p h, delete (mo_id (at_ptr p h)) m)) (h, om_map o) (om_masters o) in
  let h := foldl (fun h e => (_removeObject e.2 h).1) h (it m) in
  (h, set_om_map ∅ (set_om_masters [] o)).

(** ** A master instance and a slave instance

    The operations of the application on either side; a commit of the master is
    applied by the slave (that it arrives, once and in order, is the subject of
    Replication). *)

Inductive MapOp :=
| OpRegister (p type : Z)
| OpDeregister (p : Z)
| OpTouch (p : Z)
| OpCommit (incarnation : Z)
| OpMap (identifier : Z) (instance : option Z)
| OpUnmap (p : Z).

Record MapSystem := mkMapSystem {
  ms_heap : heap;
  ms_master : ObjectMap;
  ss_heap : heap;
  ss_slave : ObjectMap
}.

Definition touch (x : MapObject) : MapObject := mkMapObject (mo_id x) (mo_version x) (mo_isMaster x) true (mo_isStatic x).

Definition map_exec (s : MapSystem) (op : MapOp) : MapSystem :=
  let 'mkMapSystem h o h' o' := s in
  match op with
  | OpRegister p type => let '(_, h, o) := register_ p type h o in mkMapSystem h o h' o'
  | OpDeregister p => let '(_, h, o) := deregister p h o in mkMapSystem h o h' o'
  | OpTouch p => mkMapSystem (alter touch p h) o h' o'
  | OpCommit incarnation =>
      let '(d, h, o) := commit incarnation h o in
      match d with
      | Some d => let '(h', o') := deserialize d h' o' in mkMapSystem h o h' o'
      | None => mkMapSystem h o h' o'
      end
  | OpMap identifier instance => let '(_, h', o') := map identifier instance h' o' in mkMapSystem h o h' o'
  | OpUnmap p => let '(_, h', o') := unmap p h' o' in mkMapSystem h o h' o'
  end.

(** The types of the objects an instance knows, by identifier. *)
Definition kinds (o : ObjectMap) : gmap Z Z := en_type <$> om_map o.

(** No object was both added and removed since the last commit. *)
Definition separate (o : ObjectMap) : bool := forallb (fun id => negb (bool_decide (id ∈ om_removed o))) (om_added o).

#[local] Arguments separate : simpl never.
#[local] Arguments kinds : simpl never.

(** Every commit of a run happens in a separate state. *)
Fixpoint commits_separate (s : MapSystem) (ops : list MapOp) : bool :=
  match ops with
  | [] => true
  | op :: ops => (match op with OpCommit _ => separate (ms_master s) | _ => true end) && commits_separate (map_exec s op) ops
  end.

(** Identifiers are not changed by what is done to an object. *)
Class KeepIds : Prop := {
  register_id x : mo_id (registerObject x) = mo_id x;
  deregister_id x : mo_id (deregisterObject x) = mo_id x;
  commit_id i x : mo_id (commitObject i x) = mo_id x
}.
Context {HK : KeepIds}.

Abbreviation id_of h p := (mo_id (at_ptr p h)).

Lemma id_alter f p q h : (forall x, mo_id (f x) = mo_id x) -> id_of (alter f p h) q = id_of h q.
Proof.
  intros Hf. unfold at_ptr. destruct (decide (p = q)) as [->|?].
  - rewrite lookup_alter_eq. destruct (h !! q); simpl; auto.
  - by rewrite lookup_alter_ne.
Qed.

(** The invariant of the master: every registered object has its entry. *)
Definition masters_ok (h : heap) (m : gmap Z Entry) (l : list Z) : Prop :=
  NoDup ((fun p => id_of h p) <$> l) /\ forall p, p ∈ l -> is_Some (m !! id_of h p).

Lemma masters_ok_heap h h' m l : (forall p, id_of h' p = id_of h p) -> masters_ok h m l -> masters_ok h' m l.
Proof.
  intros E [H1 H2]. split.
  - erewrite list_fmap_ext; [exact H1|]. intros; apply E.
  - intros p Hp. rewrite E. auto.
Qed.

Lemma commit_master_spec i l h o :
  (forall p, p ∈ l -> is_Some (om_map o !! id_of h p)) ->
  let '(h', o') := foldl (commit_master i) (h, o) l in
  (forall p, id_of h' p = id_of h p) /\ kinds o' = kinds o /\ om_masters o' = om_masters o /\ om_added o' = om_added o /\
  om_removed o' = om_removed o /\ om_dirty o' = om_dirty o /\
  (forall c, c ∈ om_changed o' -> c ∈ om_changed o \/ exists p, p ∈ l /\ c.1 = id_of h p).
Proof.
  revert h o. induction l as [|p l IH]; intros h o Hl; cbn [foldl]; [naive_solver|].
  assert (exists h1 o1, commit_master i (h, o) p = (h1, o1) /\ (forall q, id_of h1 q = id_of h q) /\ kinds o1 = kinds o /\
    om_masters o1 = om_masters o /\ om_added o1 = om_added o /\ om_removed o1 = om_removed o /\ om_dirty o1 = om_dirty o /\
    (forall c, c ∈ om_changed o1 -> c ∈ om_changed o \/ c.1 = id_of h p)) as (h1 & o1 & -> & H1 & H2 & H3 & H4 & H5 & H6 & H7).
  { unfold commit_master. case_match; [eauto 15|].
    destruct (Hl p ltac:(left)) as [e He]. rewrite He. cbn [default].
    assert (forall q, id_of (alter (commitObject i) p h) q = id_of h q) by (intros; apply id_alter, commit_id).
    case_match; eexists _, _; (split; [reflexivity|]); unfold kinds; cbn; split_and!; eauto.
    - by rewrite insert_id.
    - rewrite insert_insert_eq, fmap_insert. simpl. apply insert_id. by rewrite lookup_fmap, He.
    - intros c Hc%elem_of_app. set_solver. }
  specialize (IH h1 o1). destruct (foldl _ (h1, o1) l) as [h2 o2].
  destruct IH as (G1 & G2 & G3 & G4 & G5 & G6 & G7).
  - intros q Hq. rewrite H1. specialize (Hl q ltac:(by right)).
    assert (kinds o1 !! id_of h q = kinds o !! id_of h q) as E by (by rewrite H2).
    unfold kinds in E. rewrite !lookup_fmap in E. destruct Hl as [e He]. rewrite He in E. destruct (om_map o1 !! _); [eauto|done].
  - split_and!; try congruence.
    intros c Hc. apply G7 in Hc as [Hc|(q & ? & E)]; [apply H7 in Hc as [?|?]; [auto|]|].
    + right. exists p. split; [left|done].
    + right. exists q. rewrite E, H1. split; [by right|done].
Qed.

Lemma serialize_added_present ids m :
  (forall id, id ∈ ids -> is_Some (m !! id)) ->
  serialize_added ids m = ((fun id => (id, en_version (default Entry_init (m !! id)), en_type (default Entry_init (m !! id)))) <$> ids, m).
Proof.
  induction ids as [|id ids IH]; intros H; simpl; [done|].
  destruct (H id ltac:(left)) as [e He]. rewrite He. simpl. rewrite (insert_id m id e He).
  rewrite IH; [done|]. intros; apply H; by right.
Qed.

Lemma added_kinds (m : gmap Z Entry) (l : list Z) (m0 : gmap Z Entry) :
  en_type <$> foldl deserialize_added m0 ((fun id => (id, en_version (default Entry_init (m !! id)), en_type (default Entry_init (m !! id)))) <$> l)
  = foldl (fun k id => <[id := en_type (default Entry_init (m !! id))]> k) (en_type <$> m0) l.
Proof. revert m0. induction l as [|id l IH]; intros m0; simpl; [done|]. rewrite IH. by rewrite fmap_insert. Qed.

Lemma removed_kinds l h m : en_type <$> (foldl deserialize_removed (h, m) l).2 = foldl (fun k id => delete id k) (en_type <$> m) l.
Proof.
  revert h m. induction l as [|id l IH]; intros h m; cbn [foldl]; [done|].
  destruct (deserialize_removed (h, m) id) as [h1 m1] eqn:E. rewrite IH. f_equal.
  unfold deserialize_removed in E. destruct (m !! id) eqn:?; simplify_eq; [apply fmap_delete|].
  symmetry. apply delete_id. by rewrite lookup_fmap, Heqo.
Qed.

Lemma changed_kinds l h m :
  (forall c, c ∈ l -> is_Some (m !! c.1)) -> en_type <$> (foldl deserialize_changed (h, m) l).2 = en_type <$> m.
Proof.
  revert h m. induction l as [|[id v] l IH]; intros h m Hl; cbn [foldl]; [done|].
  destruct (deserialize_changed (h, m) (id, v)) as [h1 m1] eqn:E.
  assert (en_type <$> m1 = en_type <$> m) as Hk.
  { unfold deserialize_changed in E. destruct (Hl (id, v) ltac:(left)) as [e He]. simpl in He. rewrite He in E. simpl in E.
    rewrite (insert_id m id e He) in E. repeat case_match; simplify_eq; [done| |done].
    rewrite fmap_insert. apply insert_id. by rewrite lookup_fmap, He. }
  rewrite IH; [done|]. intros c Hc. specialize (Hl c ltac:(by right)) as [e He].
  assert (Z_kind : (en_type <$> m1) !! c.1 = (en_type <$> m) !! c.1) by (by rewrite Hk).
  rewrite !lookup_fmap, He in Z_kind. destruct (m1 !! c.1); [eauto|done].
Qed.

Lemma foldl_insert_lookup (f : Z -> Z) l k id :
  foldl (fun k id => <[id := f id]> k) k l !! id = if bool_decide (id ∈ l) then Some (f id) else (k : gmap Z Z) !! id.
Proof.
  revert k. induction l as [|x l IH]; intros k; simpl; [done|]. rewrite IH.
  destruct (decide (x = id)) as [->|].
  - rewrite (bool_decide_true (id ∈ id :: l)) by left. case_bool_decide; [done|by rewrite lookup_insert_eq].
  - rewrite lookup_insert_ne by done. do 2 case_bool_decide; set_solver.
Qed.

Lemma foldl_delete_lookup l k id :
  foldl (fun k id => delete id k) k l !! id = if bool_decide (id ∈ l) then None else (k : gmap Z Z) !! id.
Proof.
  revert k. induction l as [|x l IH]; intros k; simpl; [done|]. rewrite IH.
  destruct (decide (x = id)) as [->|].
  - rewrite (bool_decide_true (id ∈ id :: l)) by left. case_bool_decide; [done|by rewrite lookup_delete_eq].
  - rewrite lookup_delete_ne by done. do 2 case_bool_decide; set_solver.
Qed.

Definition pending_bits (o : ObjectMap) : Z :=
  Z.lor (match om_added o with [] => 0 | _ => DIRTY_ADDED end) (match om_removed o with [] => 0 | _ => DIRTY_REMOVED end).

(** The types the slave has and the pending changes give the types of the master. *)
Definition pending_ok (o o' : ObjectMap) : Prop :=
  separate o = true -> forall id,
  kinds o !! id = if bool_decide (id ∈ om_added o) then kinds o !! id
                  else if bool_decide (id ∈ om_removed o) then None else kinds o' !! id.

Record mirror_inv (s : MapSystem) : Prop := {
  mi_masters : masters_ok (ms_heap s) (om_map (ms_master s)) (om_masters (ms_master s));
  mi_changed : om_changed (ms_master s) = [];
  mi_dirty : om_dirty (ms_master s) = pending_bits (ms_master s);
  mi_added : separate (ms_master s) = true -> forall id, id ∈ om_added (ms_master s) -> is_Some (om_map (ms_master s) !! id);
  mi_pending : pending_ok (ms_master s) (ss_slave s)
}.

Lemma separate_spec o : separate o = true <-> forall id, id ∈ om_added o -> id ∉ om_removed o.
Proof.
  unfold separate. rewrite forallb_forall. setoid_rewrite negb_true_iff. setoid_rewrite bool_decide_eq_false.
  split; intros H id; specialize (H id); by rewrite <- list_elem_of_In in *.
Qed.

Lemma kinds_some o id : is_Some (kinds o !! id) <-> is_Some (om_map o !! id).
Proof. unfold kinds. rewrite lookup_fmap. apply fmap_is_Some. Qed.

(** The slave after a delta of the master. *)
Lemma delta_kinds bits a r c (m : gmap Z Entry) (ids : list Z) h' o' :
  a = ((fun id => (id, en_version (default Entry_init (m !! id)), en_type (default Entry_init (m !! id)))) <$> ids) ->
  has bits DIRTY_ADDED = negb (bool_decide (ids = [])) -> has bits DIRTY_REMOVED = negb (bool_decide (r = [])) ->
  has bits DIRTY_CHANGED = negb (bool_decide (c = [])) ->
  let k := foldl (fun k id => delete id k) (foldl (fun k id => <[id := en_type (default Entry_init (m !! id))]> k) (kinds o') ids) r in
  (forall x, x ∈ c -> is_Some (k !! x.1)) -> kinds (deserialize (DDelta bits a r c) h' o').2 = k.
Proof.
  intros -> Ha Hr Hc k Hck. unfold deserialize. rewrite Ha, Hr, Hc. clear Ha Hr Hc.
  set (m1 := if negb (bool_decide (ids = [])) then _ else _).
  assert (en_type <$> m1 = foldl (fun k id => <[id := en_type (default Entry_init (m !! id))]> k) (kinds o') ids) as E1.
  { unfold m1. case_bool_decide as Hi; simpl; [by rewrite Hi|]. apply added_kinds. }
  destruct (if negb (bool_decide (r = [])) then _ else _) as [h2 m2] eqn:E.
  assert (en_type <$> m2 = k) as E2.
  { unfold k. rewrite <- E1. case_bool_decide as Hi; simpl in E; [simplify_eq; done|].
    rewrite <- (removed_kinds r h' m1), E. done. }
  destruct (if negb (bool_decide (c = [])) then _ else _) as [h3 m3] eqn:E'. simpl. unfold kinds. simpl. rewrite <- E2.
  case_bool_decide; simpl in E'; [by simplify_eq|]. rewrite <- (changed_kinds c h2 m2); [by rewrite E'|].
  intros x Hx. specialize (Hck x Hx). rewrite <- E2, lookup_fmap, fmap_is_Some in Hck. done.
Qed.

Definition commit_bits (o : ObjectMap) : Z :=
  Z.lor (pending_bits o) (match om_changed o with [] => 0 | _ => DIRTY_CHANGED end).

Lemma commit_bits_has o :
  has (commit_bits o) DIRTY_ADDED = negb (bool_decide (om_added o = [])) /\
  has (commit_bits o) DIRTY_REMOVED = negb (bool_decide (om_removed o = [])) /\
  has (commit_bits o) DIRTY_CHANGED = negb (bool_decide (om_changed o = [])) /\
  (commit_bits o =? DIRTY_ALL) = false /\
  (commit_bits o =? DIRTY_NONE) = bool_decide (om_added o = []) && bool_decide (om_removed o = []) && bool_decide (om_changed o = []).
Proof. unfold commit_bits, pending_bits. by destruct (om_added o), (om_removed o), (om_changed o). Qed.

(** What committing the masters leaves. *)
Lemma commitMasters_spec i s :
  mirror_inv s ->
  exists h1 o1, _commitMasters i (ms_heap s) (ms_master s) = (h1, o1) /\
    (forall p, id_of h1 p = id_of (ms_heap s) p) /\ kinds o1 = kinds (ms_master s) /\
    om_masters o1 = om_masters (ms_master s) /\ om_added o1 = om_added (ms_master s) /\ om_removed o1 = om_removed (ms_master s) /\
    om_dirty o1 = commit_bits o1 /\ (forall c, c ∈ om_changed o1 -> is_Some (kinds o1 !! c.1)).
Proof.
  intros [[_ Hm] Hc Hd _ _]. unfold _commitMasters.
  pose proof (commit_master_spec i _ _ _ Hm) as H. destruct (foldl _ _ _) as [h1 o1].
  destruct H as (H1 & H2 & H3 & H4 & H5 & H6 & H7). rewrite Hc in H7.
  assert (forall c, c ∈ om_changed o1 -> is_Some (kinds o1 !! c.1)) as H8.
  { intros c Hin. apply H7 in Hin as [?%elem_of_nil|(p & Hp & ->)]; [done|]. rewrite H2. by apply kinds_some, Hm. }
  assert (pending_bits o1 = om_dirty o1) as H9 by (unfold pending_bits in *; rewrite H4, H5; congruence).
  destruct (om_changed o1) eqn:E.
  - exists h1, o1. split_and!; auto; [|by rewrite E].
    unfold commit_bits. rewrite E, H9. by rewrite Z.lor_0_r.
  - exists h1, (setDirty DIRTY_CHANGED o1). split_and!; auto; [|by rewrite <- E in H8].
    unfold commit_bits. cbn [setDirty om_changed om_dirty]. rewrite E, <- H9. done.
Qed.

(** The data of a commit brings the slave to the types of the master. *)
Lemma commit_data o o1 h' o' :
  separate o = true -> (forall id, id ∈ om_added o -> is_Some (om_map o !! id)) -> pending_ok o o' ->
  kinds o1 = kinds o -> om_added o1 = om_added o -> om_removed o1 = om_removed o -> om_dirty o1 = commit_bits o1 ->
  (forall c, c ∈ om_changed o1 -> is_Some (kinds o1 !! c.1)) ->
  (pack o1).2 = o1 /\ kinds (from_option (fun d => (deserialize d h' o').2) o' (pack o1).1) = kinds o1.
Proof.
  intros Hsep Ha Hp H2 H4 H5 H6 H7. specialize (Hp Hsep). destruct (commit_bits_has o1) as (B1 & B2 & B3 & B4 & B5).
  unfold pack. rewrite H6, B5. destruct (bool_decide (om_added o1 = []) && _ && _) eqn:Ez.
  - apply andb_true_iff in Ez as [[Ea Er]%andb_true_iff _]. apply bool_decide_eq_true in Ea, Er. rewrite H4 in Ea. rewrite H5 in Er.
    split; [done|]. simpl. rewrite H2. apply map_eq. intros id. by rewrite Hp, Ea, Er.
  - unfold serialize. rewrite B4.
    assert ((if has (commit_bits o1) DIRTY_ADDED then serialize_added (om_added o1) (om_map o1) else ([], om_map o1)) =
      ((fun id => (id, en_version (default Entry_init (om_map o1 !! id)), en_type (default Entry_init (om_map o1 !! id)))) <$> om_added o1, om_map o1)) as ->.
    { rewrite B1. case_bool_decide as Eb; simpl; [by rewrite Eb|]. apply serialize_added_present.
      intros id Hid. apply kinds_some. rewrite H2. apply kinds_some, Ha. by rewrite <- H4. }
    rewrite B2, B3.
    replace (if negb (bool_decide (om_removed o1 = [])) then om_removed o1 else []) with (om_removed o1) by (by destruct (om_removed o1)).
    replace (if negb (bool_decide (om_changed o1 = [])) then om_changed o1 else []) with (om_changed o1) by (by destruct (om_changed o1)).
    split; [by destruct o1|]. cbn [fst from_option].
    assert (foldl (fun k id => delete id k) (foldl (fun k id => <[id := en_type (default Entry_init (om_map o1 !! id))]> k)
      (kinds o') (om_added o1)) (om_removed o1) = kinds o1) as Hk.
    { apply map_eq. intros id. rewrite foldl_delete_lookup, foldl_insert_lookup, H4, H5.
      destruct (decide (id ∈ om_added o)) as [Hin|Hni].
      - rewrite bool_decide_false by (by apply (separate_spec o)). rewrite bool_decide_true by done.
        unfold kinds. rewrite lookup_fmap. destruct (om_map o1 !! id) eqn:Eo; [done|]. exfalso.
        assert (is_Some (om_map o1 !! id)) as [? ?]; [|congruence]. apply kinds_some. rewrite H2. by apply kinds_some, Ha.
      - rewrite H2, Hp. by rewrite (bool_decide_false (id ∈ om_added o)). }
    erewrite delta_kinds; [exact Hk|reflexivity|done..|]. by rewrite Hk.
Qed.

Lemma synced_inv s h2 o2 h2' o2' :
  mirror_inv s -> kinds o2 = kinds (ms_master s) -> om_masters o2 = om_masters (ms_master s) -> om_added o2 = [] -> om_removed o2 = [] ->
  om_changed o2 = [] -> om_dirty o2 = DIRTY_NONE -> (forall p, id_of h2 p = id_of (ms_heap s) p) -> kinds o2' = kinds o2 ->
  mirror_inv (mkMapSystem h2 o2 h2' o2').
Proof.
  intros [[Hm1 Hm] _ _ _ _] K M A R C D I K'. constructor; cbn.
  - rewrite M. eapply masters_ok_heap; [exact I|]. split; [done|].
    intros p Hin. apply kinds_some. rewrite K. by apply kinds_some, Hm.
  - done.
  - unfold pending_bits. by rewrite A, R, D.
  - rewrite A. by intros _ id ?%elem_of_nil.
  - intros _ id. rewrite A, R. cbn. by rewrite K'.
Qed.

Lemma commit_mirrors i s :
  mirror_inv s -> separate (ms_master s) = true ->
  mirror_inv (map_exec s (OpCommit i)) /\ kinds (ss_slave (map_exec s (OpCommit i))) = kinds (ms_master (map_exec s (OpCommit i))) /\
  kinds (ms_master (map_exec s (OpCommit i))) = kinds (ms_master s).
Proof.
  intros Hi Hsep. destruct (commitMasters_spec i s Hi) as (h1 & o1 & E & H1 & H2 & H3 & H4 & H5 & H6 & H7).
  destruct (commit_data (ms_master s) o1 (ss_heap s) (ss_slave s)) as [E1 E2]; try solve [auto; by destruct Hi; auto].
  assert (exists h2 o2 h2' o2', map_exec s (OpCommit i) = mkMapSystem h2 o2 h2' o2' /\ h2 = h1 /\
    o2 = mkObjectMap (om_map o1) (om_masters o1) [] [] [] DIRTY_NONE /\ kinds o2' = kinds o1) as (h2 & o2 & h2' & o2' & -> & -> & -> & K).
  { destruct s as [h o h' o']. cbn in *. unfold commit. rewrite E. destruct (pack o1) as [[d|] o3]; simpl in *; subst o3; [|by eauto 10].
    destruct (deserialize d h' o') as [h3 o3]. simpl in *. by eauto 10. }
  split_and!; [eapply synced_inv; eauto|exact K|exact H2].
Qed.

Lemma touch_id x : mo_id (touch x) = mo_id x.
Proof. done. Qed.

Lemma register_mirrors p type s : mirror_inv s -> mirror_inv (map_exec s (OpRegister p type)).
Proof.
  intros Hi. destruct s as [h o h' o']. cbn [map_exec]. unfold register_. destruct (om_map o !! id_of h p) eqn:E; [done|].
  assert (forall q, id_of (alter registerObject p h) q = id_of h q) as I by (intros; apply id_alter, register_id).
  destruct Hi as [[Hm1 Hm2] Hc Hd Ha Hp]. rewrite !I. cbn in *. constructor; cbn.
  - eapply masters_ok_heap; [exact I|]. split.
    + rewrite fmap_app. apply NoDup_app. split_and!; [done| |apply NoDup_singleton].
      intros id Hid ->%list_elem_of_singleton. apply list_elem_of_fmap in Hid as (q & Eq & Hq).
      destruct (Hm2 q Hq) as [? Hs]. rewrite <- Eq in Hs. congruence.
    + intros q [Hq| ->%list_elem_of_singleton]%elem_of_app; [|by rewrite lookup_insert_eq].
      destruct (Hm2 q Hq). rewrite lookup_insert_ne by congruence. eauto.
  - done.
  - rewrite Hd. unfold pending_bits. cbn. destruct (om_added o), (om_removed o); done.
  - intros Hs id [Hid| ->%list_elem_of_singleton]%elem_of_app; [|by rewrite lookup_insert_eq].
    apply lookup_insert_is_Some'. right. apply Ha; [|done]. apply separate_spec. intros i Hi.
    apply (proj1 (separate_spec _) Hs). cbn. set_solver.
  - intros Hs id. cbn [om_added om_removed setDirty set_om_added set_om_masters set_om_map]. pose proof (proj1 (separate_spec _) Hs) as Hs'. cbn in Hs'.
    assert (separate o = true) as Hs0 by (apply separate_spec; intros i Hi; apply Hs'; set_solver).
    case_bool_decide as H1; [done|]. unfold kinds. cbn. rewrite fmap_insert, lookup_insert_ne by set_solver.
    etrans; [exact (Hp Hs0 id)|]. by rewrite bool_decide_false by set_solver.
Qed.

Lemma deregister_mirrors p s : mirror_inv s -> mirror_inv (map_exec s (OpDeregister p)).
Proof.
  intros Hi. destruct s as [h o h' o']. cbn [map_exec]. unfold deregister. destruct (om_map o !! id_of h p) eqn:E; [|done].
  destruct (list_find _ _) as [[i q]|] eqn:F; [|done].
  apply list_find_Some in F as (F & <- & _).
  assert (forall q, id_of (alter deregisterObject p h) q = id_of h q) as I by (intros; apply id_alter, deregister_id).
  destruct Hi as [[Hm1 Hm2] Hc Hd Ha Hp]. rewrite !I. cbn in *. pose proof (delete_Permutation _ _ _ F) as Hpm.
  rewrite Hpm, fmap_cons, NoDup_cons in Hm1. destruct Hm1 as [Hni Hnd]. constructor; cbn.
  - eapply masters_ok_heap; [exact I|]. split; [done|]. intros q Hq. rewrite lookup_delete_ne.
    + apply Hm2. rewrite Hpm. by right.
    + intros Eq. apply Hni. rewrite Eq. apply list_elem_of_fmap. eauto.
  - done.
  - rewrite Hd. unfold pending_bits. cbn. destruct (om_added o), (om_removed o); done.
  - intros Hs id Hid. pose proof (proj1 (separate_spec _) Hs id Hid) as Hs'. cbn in Hs'.
    rewrite lookup_delete_ne by set_solver. apply Ha; [|done]. apply separate_spec. intros i' Hi'.
    pose proof (proj1 (separate_spec _) Hs i' Hi'). cbn in *. set_solver.
  - intros Hs id. cbn [om_added om_removed setDirty set_om_removed set_om_masters set_om_map]. pose proof (proj1 (separate_spec _) Hs) as Hs'. cbn in Hs'.
    assert (separate o = true) as Hs0 by (apply separate_spec; intros i' Hi'; specialize (Hs' i' Hi'); set_solver).
    case_bool_decide as H1; [done|]. unfold kinds. cbn. rewrite fmap_delete. destruct (decide (id = id_of h p)) as [->|Hne].
    + rewrite lookup_delete_eq, bool_decide_true by set_solver. done.
    + rewrite lookup_delete_ne by done. etrans; [exact (Hp Hs0 id)|]. rewrite bool_decide_false by done.
      destruct (decide (id ∈ om_removed o)); [rewrite !bool_decide_true by set_solver|rewrite !bool_decide_false by set_solver]; done.
Qed.

Lemma slave_kinds s h2 o2 : mirror_inv s -> kinds o2 = kinds (ss_slave s) -> mirror_inv (mkMapSystem (ms_heap s) (ms_master s) h2 o2).
Proof. intros [] E. constructor; cbn; auto. intros Hs id. rewrite E. auto. Qed.

Lemma map_kinds identifier instance h o : kinds (map identifier instance h o).2 = kinds o.
Proof.
  unfold map. destruct (if identifier =? 0 then _ else _) as [e|] eqn:E; [|done].
  destruct (identifier =? 0); [done|]. repeat case_match; try done; cbn; unfold kinds; cbn;
    rewrite fmap_insert; apply insert_id; by rewrite lookup_fmap, E.
Qed.

Lemma unmap_kinds p h o : kinds (unmap p h o).2 = kinds o.
Proof.
  unfold unmap. destruct (om_map o !! id_of h p) as [e|] eqn:E; [|done]. unfold _removeObject.
  destruct (en_instance e) eqn:Ei; unfold kinds; cbn; rewrite fmap_insert; apply insert_id; by rewrite lookup_fmap, E.
Qed.

Lemma map_exec_inv s op :
  mirror_inv s -> (if op is OpCommit _ then separate (ms_master s) else true) = true -> mirror_inv (map_exec s op).
Proof.
  intros Hi Hs. destruct op.
  - by apply register_mirrors.
  - by apply deregister_mirrors.
  - destruct s as [h o h' o']. destruct Hi as [Hm Hc Hd Ha Hp]. constructor; cbn in *; auto.
    eapply masters_ok_heap; [|exact Hm]. intros; by apply id_alter.
  - by apply commit_mirrors.
  - pose proof (map_kinds identifier instance (ss_heap s) (ss_slave s)) as K. destruct s as [h o h' o']. cbn in *.
    destruct (map _ _ _ _) as [[? ?] ?]. by apply (slave_kinds (mkMapSystem h o h' o')).
  - pose proof (unmap_kinds p (ss_heap s) (ss_slave s)) as K. destruct s as [h o h' o']. cbn in *.
    destruct (unmap _ _ _) as [[? ?] ?]. by apply (slave_kinds (mkMapSystem h o h' o')).
Qed.

(** ** The registry the pair implements

    Abstractly the map is a partial function from identifiers to the object
    registered under it and its type; committing, mapping and changing objects do
    not alter it.  [ids] are the identifiers of the objects of the application. *)

Definition registry_step (ids : Z -> Z) (k : gmap Z (Z * Z)) (op : MapOp) : gmap Z (Z * Z) :=
  match op with
  | OpRegister p type => if k !! ids p is Some _ then k else <[ids p := (p, type)]> k
  | OpDeregister p => if k !! ids p is Some (q, _) then (if q =? p then delete (ids p) k else k) else k
  | _ => k
  end.

Record refines (ids : Z -> Z) (k : gmap Z (Z * Z)) (s : MapSystem) : Prop := {
  rf_ids : forall p, id_of (ms_heap s) p = ids p;
  rf_kinds : kinds (ms_master s) = snd <$> k;
  rf_masters : forall p, p ∈ om_masters (ms_master s) <-> exists t, k !! ids p = Some (p, t)
}.

Lemma refines_register ids k s p type : refines ids k s -> refines ids (registry_step ids k (OpRegister p type)) (map_exec s (OpRegister p type)).
Proof.
  intros [Hi Hk Hm]. destruct s as [h o h' o']. cbn in *. unfold register_. rewrite Hi.
  assert (kinds o !! ids p = snd <$> (k !! ids p)) as E by (by rewrite Hk, lookup_fmap).
  unfold kinds in E. rewrite lookup_fmap in E.
  destruct (k !! ids p) as [x|] eqn:Ek, (om_map o !! ids p) eqn:Eo; try done.
  assert (forall q, id_of (alter registerObject p h) q = ids q) as I by (intros; rewrite <- Hi; apply id_alter, register_id).
  constructor; cbn; [done| |].
  - unfold kinds in *. cbn. rewrite !fmap_insert, Hk, I. done.
  - intros q. rewrite elem_of_app, list_elem_of_singleton, Hm. destruct (decide (ids p = ids q)) as [Eq|Ne].
    + rewrite Eq, lookup_insert_eq, <- Eq, Ek. split; [intros [[? ?]| ->]; [done|eauto]|]. intros [t ?]; simplify_eq; auto.
    + rewrite lookup_insert_ne by done. split; [intros [?| ->]; [done|congruence]|auto].
Qed.

Lemma refines_deregister ids k s p :
  mirror_inv s -> refines ids k s -> refines ids (registry_step ids k (OpDeregister p)) (map_exec s (OpDeregister p)).
Proof.
  intros Hinv [Hi Hk Hm]. destruct s as [h o h' o']. destruct (mi_masters _ Hinv) as [Hnd _]. cbn in *. unfold deregister. rewrite Hi.
  assert (kinds o !! ids p = snd <$> (k !! ids p)) as E by (by rewrite Hk, lookup_fmap).
  unfold kinds in E. rewrite lookup_fmap in E. pose proof (Hm p) as Hmp.
  destruct (k !! ids p) as [[q t]|] eqn:Ek, (om_map o !! ids p) eqn:Eo; try done.
  destruct (list_find (eq p) (om_masters o)) as [[i q']|] eqn:F.
  - apply list_find_Some in F as (F & <- & _).
    destruct (proj1 Hmp (list_elem_of_lookup_2 _ _ _ F)) as [t' ?]. simplify_eq. rewrite Z.eqb_refl.
    assert (forall q, id_of (alter deregisterObject p h) q = ids q) as I by (intros; rewrite <- Hi; apply id_alter, deregister_id).
    pose proof (delete_Permutation _ _ _ F) as Hpm. rewrite Hpm, fmap_cons, NoDup_cons in Hnd. destruct Hnd as [Hni _].
    constructor; cbn; [done| |].
    + unfold kinds in *. cbn. by rewrite !fmap_delete, Hk.
    + intros q. destruct (decide (ids p = ids q)) as [Eq|Ne].
      * rewrite Eq, lookup_delete_eq. split; [|by intros [? ?]]. intros Hq. exfalso. apply Hni, list_elem_of_fmap. exists q. by rewrite !Hi.
      * rewrite lookup_delete_ne by done. rewrite <- Hm.
        assert (q ∈ om_masters o <-> q ∈ p :: delete i (om_masters o)) as -> by (by rewrite <- Hpm).
        rewrite elem_of_cons. split; [auto|]. intros [->|?]; [congruence|done].
  - destruct (q =? p) eqn:Eqp; [|done]. apply Z.eqb_eq in Eqp as ->.
    apply list_find_None in F. rewrite Forall_forall in F. exfalso. eapply F; [apply Hm; eauto|done].
Qed.

Lemma refines_step ids k s op :
  mirror_inv s -> (if op is OpCommit _ then separate (ms_master s) else true) = true ->
  refines ids k s -> refines ids (registry_step ids k op) (map_exec s op).
Proof.
  intros Hinv Hs Hr. destruct op; [by apply refines_register|by apply refines_deregister|..].
  - destruct s, Hr as [Hi Hk Hm]. constructor; cbn in *; auto. intros q. rewrite <- Hi. by apply id_alter.
  - destruct (commit_mirrors incarnation s Hinv Hs) as (_ & _ & K).
    destruct (commitMasters_spec incarnation s Hinv) as (h1 & o1 & E & H1 & _ & H3 & _). destruct Hr as [Hi Hk Hm].
    constructor; [| |]; try (rewrite K; exact Hk); destruct s as [h o h' o']; cbn in *; unfold commit; rewrite E;
      destruct (pack o1) as [[d|] o3] eqn:Ep; try (destruct (deserialize d h' o') as [h4 o4]); cbn; try (intros q; rewrite H1; apply Hi).
    all: assert (om_masters o3 = om_masters o1) as ->; [|by rewrite H3].
    all: revert Ep; unfold pack, serialize; repeat case_match; intros; by simplify_eq.
  - destruct s as [h o h' o'], Hr. cbn in *. destruct (map _ _ _ _) as [[? ?] ?]. by constructor.
  - destruct s as [h o h' o'], Hr. cbn in *. destruct (unmap _ _ _) as [[? ?] ?]. by constructor.
Qed.

Definition MapSystem_init (h h' : heap) : MapSystem := mkMapSystem h ObjectMap_init h' ObjectMap_init.

Lemma run_refines h h' ops :
  commits_separate (MapSystem_init h h') ops = true ->
  mirror_inv (foldl map_exec (MapSystem_init h h') ops) /\
  refines (fun p => id_of h p) (foldl (registry_step (fun p => id_of h p)) ∅ ops) (foldl map_exec (MapSystem_init h h') ops).
Proof.
  assert (mirror_inv (MapSystem_init h h')) as Hi.
  { constructor; cbn; try done; [|by intros _ id ?%elem_of_nil].
    split; [apply NoDup_nil_2|]. by intros p ?%elem_of_nil. }
  assert (refines (fun p => id_of h p) ∅ (MapSystem_init h h')) as Hr.
  { constructor; cbn; [done| |].
    - unfold kinds. cbn. by rewrite !fmap_empty.
    - intros p. rewrite elem_of_nil, lookup_empty. naive_solver. }
  revert Hi Hr. generalize (MapSystem_init h h') (∅ : gmap Z (Z * Z)). induction ops as [|op ops IH]; intros s k Hi Hr Hs; [done|].
  cbn [foldl]. apply andb_true_iff in Hs as [H1 H2]. apply IH; [by apply map_exec_inv|by apply refines_step|done].
Qed.

Lemma commits_separate_app s l1 l2 : commits_separate s (l1 ++ l2) = commits_separate s l1 && commits_separate (foldl map_exec s l1) l2.
Proof. revert s. induction l1 as [|x l1 IH]; intros s; [done|]. cbn. by rewrite IH, andb_assoc. Qed.

(** C18: the object map implements a registry.  For any sequence of registrations,
    deregistrations, object changes and commits on the master and of map and unmap
    calls on the slave, in which no identifier is both added and removed between
    two commits, both instances hold after a commit exactly the objects registered
    and not deregistered, under the type they were registered with. *)
Theorem object_map_mirrors h h' ops i :
  commits_separate (MapSystem_init h h') (ops ++ [OpCommit i]) = true ->
  let s := foldl map_exec (MapSystem_init h h') (ops ++ [OpCommit i]) in
  let registry := foldl (registry_step (fun p => id_of h p)) ∅ ops in
  kinds (ms_master s) = snd <$> registry /\ kinds (ss_slave s) = snd <$> registry.
Proof.
  rewrite commits_separate_app. intros [H1 H2]%andb_true_iff. rewrite foldl_app. cbn [foldl] in *.
  destruct (run_refines h h' ops H1) as [Hi Hr]. cbn in H2. rewrite andb_true_r in H2.
  destruct (commit_mirrors i _ Hi H2) as (_ & K1 & K2). rewrite K1, K2. split; eapply rf_kinds; eauto.
Qed.

(** Instance data: a new slave reads all entries of the master. *)
Lemma deserialize_all_spec l m :
  NoDup l.*1.*1 -> (forall e, e ∈ l -> e.1.1 <> 0) ->
  forall id, (en_type <$> deserialize_all l m) !! id =
    match list_find (fun e => e.1.1 = id) l with Some (_, e) => Some e.2 | None => (en_type <$> m) !! id end.
Proof.
  revert m. induction l as [|[[id v] t] l IH]; intros m Hnd Hz id'; [done|].
  cbn in Hnd. apply NoDup_cons in Hnd as [Hni Hnd]. cbn [deserialize_all].
  assert ((id =? 0) = false) as -> by (apply Z.eqb_neq; apply (Hz (id, v, t)); left). cbn [andb].
  rewrite IH by (try done; intros; apply Hz; by right). cbn [list_find fst snd].
  destruct (decide (id = id')) as [->|Hne].
  - destruct (list_find _ l) as [[j e]|] eqn:F.
    + apply list_find_Some in F as (F & Ee & _). exfalso. apply Hni. apply list_elem_of_fmap. exists e.1.
      split; [done|]. apply list_elem_of_fmap. exists e. split; [done|]. by apply list_elem_of_lookup_2 in F.
    + by rewrite fmap_insert, lookup_insert_eq.
  - destruct (list_find _ l) as [[j e]|]; [done|]. by rewrite fmap_insert, lookup_insert_ne.
Qed.

(** The instance data read by a new slave gives it the types of the master;
    identifiers are not 0, which marks the end of the data. *)
Theorem object_map_attach o h' :
  it (om_map o) ≡ₚ map_to_list (om_map o) -> om_map o !! 0 = None ->
  kinds (deserialize (serialize DIRTY_ALL o).1 h' ObjectMap_init).2 = kinds o.
Proof.
  intros Hit Hz. unfold kinds. cbn. set (l := _ <$> it (om_map o)).
  assert (forall e, e ∈ l <-> exists x, om_map o !! e.1.1 = Some x /\ e = (e.1.1, en_version x, en_type x)) as Hl.
  { intros e. unfold l. rewrite list_elem_of_fmap. setoid_rewrite Hit. split.
    - intros ([id x] & -> & H%elem_of_map_to_list). eauto.
    - intros (x & H & ->). exists (e.1.1, x). by rewrite elem_of_map_to_list. }
  apply map_eq. intros id. rewrite deserialize_all_spec.
  - rewrite !lookup_fmap. destruct (list_find _ l) as [[j e]|] eqn:F.
    + apply list_find_Some in F as (F%list_elem_of_lookup_2 & <- & _). apply Hl in F as (x & Hx & Ee). rewrite Hx. by rewrite Ee.
    + apply list_find_None in F. rewrite Forall_forall in F. cbn.
      destruct (om_map o !! id) as [x|] eqn:E; [|done]. exfalso. apply (F (id, en_version x, en_type x)); [|done]. apply Hl. eauto.
  - unfold l. rewrite <- !list_fmap_compose. rewrite Hit. apply NoDup_fst_map_to_list.
  - intros e (x & H & _)%Hl Hz'. rewrite Hz' in H. congruence.
Qed.

(** ** Adding and removing between two commits *)

Lemma changed_lookup l h m id :
  let k := en_type <$> (foldl deserialize_changed (h, m) l).2 in
  k !! id = (en_type <$> m) !! id \/ m !! id = None /\ k !! id = Some OBJECTTYPE_NONE /\ id ∈ l.*1.
Proof.
  revert h m. induction l as [|[id1 v] l IH]; intros h m; cbn [foldl]; [by left|].
  destruct (deserialize_changed (h, m) (id1, v)) as [h1 m1] eqn:E.
  assert ((en_type <$> m1) !! id = (en_type <$> m) !! id \/ id1 = id /\ m !! id = None /\ (en_type <$> m1) !! id = Some OBJECTTYPE_NONE) as H1.
  { unfold deserialize_changed in E. rewrite !lookup_fmap. destruct (decide (id1 = id)) as [->|Hne].
    - destruct (m !! id) as [e|] eqn:Em; cbn in E; repeat case_match; simplify_eq; rewrite ?lookup_insert_eq, ?insert_insert_eq; cbn; auto.
    - left. cbn in E; repeat case_match; simplify_eq; rewrite ?lookup_insert_ne by done; done. }
  specialize (IH h1 m1). cbn zeta in *. destruct (foldl deserialize_changed (h1, m1) l) as [h2 m2]. cbn [snd fst] in *.
  rewrite fmap_cons, elem_of_cons. cbn [fst].
  assert (m1 !! id = None -> m !! id = None) as Hn.
  { intros Hn. destruct H1 as [H1|(_ & ? & _)]; [|done]. rewrite !lookup_fmap, Hn in H1. by destruct (m !! id). }
  destruct IH as [IH|(? & ? & ?)]; [rewrite IH|]; destruct H1 as [H1|(-> & ? & H1)]; auto 10.
Qed.

(** A commit in which one object is both added and removed. *)
Lemma commit_both o1 id h' o' :
  om_added o1 = [id] -> om_removed o1 = [id] -> om_dirty o1 = commit_bits o1 ->
  exists d o3, pack o1 = (Some d, o3) /\ kinds o3 = <[id := default OBJECTTYPE_NONE (kinds o1 !! id)]> (kinds o1) /\
    let k := kinds (deserialize d h' o').2 in
    k !! id = None \/ k !! id = Some OBJECTTYPE_NONE /\ id ∈ (om_changed o1).*1.
Proof.
  intros Ha Hr Hd. destruct (commit_bits_has o1) as (B1 & B2 & B3 & B4 & B5). rewrite Ha, Hr in *.
  unfold pack, serialize. rewrite Hd, B4, B5, B1, B2, B3, Ha, Hr. cbn [bool_decide decide andb negb serialize_added].
  rewrite (bool_decide_false ([id] = [])) by done. cbn [andb negb].
  eexists _, _. split_and!; [reflexivity| |].
  - unfold kinds. cbn. rewrite fmap_insert, lookup_fmap. by destruct (om_map o1 !! id).
  - unfold deserialize. rewrite B1, B2, B3. rewrite (bool_decide_false ([id] = [])) by done. cbn [negb foldl deserialize_added deserialize_removed].
    rewrite lookup_insert_eq, delete_insert_eq. destruct (om_changed o1) as [|c l] eqn:Ec.
    + left. unfold kinds. cbn. by rewrite lookup_fmap, lookup_delete_eq.
    + rewrite (bool_decide_false (c :: l = [])) by done. cbn [negb].
      set (h2 := (_removeObject _ _).1). pose proof (changed_lookup (c :: l) h2 (delete id (om_map o')) id) as H. cbn zeta in H.
      destruct (foldl deserialize_changed (h2, delete id (om_map o')) (c :: l)) as [h3 m3]. cbn [snd] in *. unfold kinds. cbn [om_map set_om_map].
      rewrite (lookup_fmap _ (delete id _)), lookup_delete_eq in H. destruct H as [H|(_ & H & Hin)]; auto.
Qed.

Lemma commit_both_exec j s id :
  mirror_inv s -> om_added (ms_master s) = [id] -> om_removed (ms_master s) = [id] ->
  let s' := map_exec s (OpCommit j) in
  (forall p, id_of (ms_heap s') p = id_of (ms_heap s) p) /\
  kinds (ms_master s') !! id = Some (default OBJECTTYPE_NONE (kinds (ms_master s) !! id)) /\
  (kinds (ss_slave s') !! id = None \/ kinds (ss_slave s') !! id = Some OBJECTTYPE_NONE /\ is_Some (kinds (ms_master s) !! id)).
Proof.
  intros Hi Ha Hr s'. destruct (commitMasters_spec j s Hi) as (h1 & o1 & E & H1 & H2 & H3 & H4 & H5 & H6 & H7).
  rewrite Ha in H4. rewrite Hr in H5. destruct (commit_both o1 id (ss_heap s) (ss_slave s) H4 H5 H6) as (d & o3 & Ep & K3 & K).
  subst s'. destruct s as [h o h' o']. cbn [ms_heap ms_master ss_heap ss_slave] in *. cbn [map_exec]. unfold commit. rewrite E, Ep.
  destruct (deserialize d h' o') as [h2 o2]. cbn [ms_heap ms_master ss_heap ss_slave snd] in *. split_and!; [done| |].
  - unfold kinds in K3 |- *. cbn. rewrite K3, lookup_insert_eq. unfold kinds in H2. by rewrite H2.
  - destruct K as [?|[? Hin]]; [auto|]. right. split; [done|]. apply list_elem_of_fmap in Hin as (c & -> & Hc). rewrite <- H2. auto.
Qed.

Lemma synced_after i s :
  let s' := map_exec s (OpCommit i) in om_added (ms_master s') = [] /\ om_removed (ms_master s') = [].
Proof. destruct s. cbn. repeat case_match; simplify_eq; unfold commit in *; repeat case_match; by simplify_eq. Qed.

(** Registering and deregistering, when they succeed. *)
Lemma om_deregister_ok p s :
  p ∈ om_masters (ms_master s) -> is_Some (om_map (ms_master s) !! id_of (ms_heap s) p) ->
  let s' := map_exec s (OpDeregister p) in
  (forall q, id_of (ms_heap s') q = id_of (ms_heap s) q) /\ om_map (ms_master s') !! id_of (ms_heap s) p = None /\
  om_added (ms_master s') = om_added (ms_master s) /\ om_removed (ms_master s') = om_removed (ms_master s) ++ [id_of (ms_heap s) p].
Proof.
  intros Hp [e He]. destruct s as [h o h' o']. cbn [ms_heap ms_master map_exec] in *. unfold deregister. rewrite He.
  destruct (list_find_elem_of (eq p) (om_masters o) p Hp eq_refl) as [[i q] ->].
  assert (forall q, id_of (alter deregisterObject p h) q = id_of h q) as I by (intros; apply id_alter, deregister_id).
  cbn. rewrite I. split_and!; auto. by rewrite lookup_delete_eq.
Qed.

Lemma om_register_ok p t s :
  om_map (ms_master s) !! id_of (ms_heap s) p = None ->
  let s' := map_exec s (OpRegister p t) in
  (forall q, id_of (ms_heap s') q = id_of (ms_heap s) q) /\ kinds (ms_master s') !! id_of (ms_heap s) p = Some t /\
  p ∈ om_masters (ms_master s') /\
  om_added (ms_master s') = om_added (ms_master s) ++ [id_of (ms_heap s) p] /\ om_removed (ms_master s') = om_removed (ms_master s).
Proof.
  intros He. destruct s as [h o h' o']. cbn [ms_heap ms_master map_exec] in *. unfold register_. rewrite He.
  assert (forall q, id_of (alter registerObject p h) q = id_of h q) as I by (intros; apply id_alter, register_id).
  cbn. rewrite !I. split_and!; auto; [|set_solver]. unfold kinds. cbn. by rewrite lookup_fmap, lookup_insert_eq.
Qed.

(** objects that are added and removed between two commits break the map.  When
    an object is deregistered and registered again before a commit, the delta
    carries both changes and the slave applies the removal last: the master has
    the object, the slave has no entry of its type.  When a new object is registered and
    deregistered again before a commit, serializing the addition creates an empty
    entry in the master's map, which the slave does not have, and which makes
    every later registration of the object fail. *)
Theorem object_map_unseparate h h' ops i j p t t' :
  let s := foldl map_exec (MapSystem_init h h') (ops ++ [OpCommit i]) in
  let id := id_of h p in
  commits_separate (MapSystem_init h h') (ops ++ [OpCommit i]) = true ->
  (p ∈ om_masters (ms_master s) ->
   let s' := foldl map_exec s [OpDeregister p; OpRegister p t; OpCommit j] in
   kinds (ms_master s') !! id = Some t /\ default OBJECTTYPE_NONE (kinds (ss_slave s') !! id) = OBJECTTYPE_NONE) /\
  (kinds (ms_master s) !! id = None ->
   let s' := foldl map_exec s [OpRegister p t; OpDeregister p; OpCommit j] in
   kinds (ms_master s') !! id = Some OBJECTTYPE_NONE /\ kinds (ss_slave s') !! id = None /\
   map_exec s' (OpRegister p t') = s').
Proof.
  intros s id H1.
  destruct (run_refines h h' _ H1) as [Hinv Hr]. fold s in Hinv, Hr. assert (om_added (ms_master s) = [] /\ om_removed (ms_master s) = []) as [Ea Er] by (unfold s; rewrite foldl_app; apply synced_after).
  pose proof (rf_ids _ _ _ Hr p : id_of (ms_heap s) p = id) as Hid. clearbody id. split.
  - intros Hp. destruct (mi_masters _ Hinv) as [_ Hm]. destruct (om_deregister_ok p s Hp (Hm p Hp)) as (I1 & N1 & A1 & R1).
    pose proof (deregister_mirrors p s Hinv) as Hi1. set (s1 := map_exec s (OpDeregister p)) in *.
    rewrite <- I1 in N1. destruct (om_register_ok p t s1 N1) as (I2 & K2 & _ & A2 & R2).
    pose proof (register_mirrors p t s1 Hi1) as Hi2. set (s2 := map_exec s1 (OpRegister p t)) in *.
    rewrite I1, Hid in *. rewrite Ea in A1. rewrite Er in R1. rewrite A1 in A2. rewrite R1 in R2.
    destruct (commit_both_exec j s2 _ Hi2 A2 R2) as (_ & K3 & K4). cbn [foldl]. fold s1. fold s2.
    rewrite K3, K2. split; [done|]. by destruct K4 as [->|[-> _]].
  - intros Hn. assert (om_map (ms_master s) !! id_of (ms_heap s) p = None) as N0.
    { rewrite Hid. apply eq_None_not_Some. rewrite <- kinds_some, Hn. by intros []. }
    destruct (om_register_ok p t s N0) as (I1 & K1 & P1 & A1 & R1).
    pose proof (register_mirrors p t s Hinv) as Hi1. set (s1 := map_exec s (OpRegister p t)) in *.
    destruct (om_deregister_ok p s1 P1) as (I2 & N2 & A2 & R2). { rewrite I1. apply kinds_some. by rewrite K1. }
    pose proof (deregister_mirrors p s1 Hi1) as Hi2. set (s2 := map_exec s1 (OpDeregister p)) in *.
    rewrite I1, Hid in *. rewrite Ea in A1. rewrite Er in R1. rewrite A1 in A2. rewrite R1 in R2.
    destruct (commit_both_exec j s2 _ Hi2 A2 R2) as (I3 & K3 & K4). cbn [foldl]. fold s1. fold s2.
    set (s3 := map_exec s2 (OpCommit j)) in *.
    assert (kinds (ms_master s2) !! id = None) as Kn. { unfold kinds. by rewrite lookup_fmap, N2. }
    rewrite Kn in K3, K4. cbn in K3. split_and!; [done| |].
    + destruct K4 as [?|[_ []%is_Some_None]]; done.
    + assert (is_Some (om_map (ms_master s3) !! id_of (ms_heap s3) p)) as [e He].
      { rewrite I3, I2, I1, Hid. apply kinds_some. rewrite K3. eauto. }
      clearbody s3. destruct s3 as [h3 o3 h3' o3']. cbn in *. unfold register_. by rewrite He.
Qed.

End objectmap.

(** ** A concrete application: three objects, an object handler that counts versions. *)

Definition sample_commit (i : Z) (x : MapObject) : MapObject := mkMapObject (mo_id x) (mo_version x + 1) (mo_isMaster x) false (mo_isStatic x).
Definition sample_sync (v : Z) (x : MapObject) : MapObject := mkMapObject (mo_id x) v (mo_isMaster x) (mo_isDirty x) (mo_isStatic x).
Definition sample_register (x : MapObject) : MapObject := mkMapObject (mo_id x) 1 true (mo_isDirty x) (mo_isStatic x).
Definition sample_deregister (x : MapObject) : MapObject := mkMapObject (mo_id x) 0 false (mo_isDirty x) (mo_isStatic x).
Definition sample_map (id v : Z) (x : MapObject) : option MapObject := Some (mkMapObject id v false false (mo_isStatic x)).
Definition sample_create (type : Z) : option MapObject := if type =? 0 then None else Some (mkMapObject 0 0 false false false).
Definition sample_ptr (h : gmap Z MapObject) : Z := Z.of_nat (size h) + 100.

#[export] Instance sample_ids : KeepIds sample_commit sample_register sample_deregister.
Proof. by constructor. Qed.

Definition sample_heap : gmap Z MapObject :=
  list_to_map [(1, mkMapObject 11 0 false false false); (2, mkMapObject 22 0 false false false); (3, mkMapObject 33 0 false false true)].

Definition sample_map_ops : list MapOp :=
  [OpRegister 1 7; OpRegister 2 8; OpCommit 1; OpMap 11 None; OpTouch 1; OpDeregister 2; OpRegister 3 9; OpRegister 1 5].

Lemma object_map_mirrors_witness :
  let exec := map_exec sample_commit sample_sync sample_register sample_deregister sample_deregister sample_map sample_create sample_ptr map_to_list in
  let s := foldl exec (MapSystem_init sample_heap ∅) (sample_map_ops ++ [OpCommit 2]) in
  kinds (ss_slave s) = list_to_map [(11, 7); (33, 9)] /\ kinds (ms_master s) = kinds (ss_slave s).
Proof.
  intros exec s.
  destruct (object_map_mirrors sample_commit sample_sync sample_register sample_deregister sample_deregister sample_map sample_create sample_ptr
    map_to_list sample_heap ∅ sample_map_ops 2) as [H1 H2]; [vm_compute; reflexivity|].
  split; [unfold s, exec; rewrite H2; vm_compute; reflexivity|unfold s, exec; by rewrite H1, H2].
Defined.

Lemma object_map_attach_witness :
  let o := mkObjectMap (list_to_map [(11, mkEntry 1 None 7 false); (33, mkEntry 2 None 9 false)]) [] [] [] [] DIRTY_NONE in
  kinds (deserialize sample_sync sample_deregister (serialize map_to_list DIRTY_ALL o).1 ∅ ObjectMap_init).2 = list_to_map [(11, 7); (33, 9)].
Proof. intros o. rewrite object_map_attach; [vm_compute; reflexivity|reflexivity|vm_compute; reflexivity]. Defined.

Lemma object_map_unseparate_witness :
  let exec := map_exec sample_commit sample_sync sample_register sample_deregister sample_deregister sample_map sample_create sample_ptr map_to_list in
  let s := foldl exec (MapSystem_init sample_heap ∅) ([OpRegister 1 7] ++ [OpCommit 1]) in
  let s1 := foldl exec s [OpDeregister 1; OpRegister 1 7; OpCommit 2] in
  let s2 := foldl exec s [OpRegister 2 8; OpDeregister 2; OpCommit 2] in
  default OBJECTTYPE_NONE (kinds (ss_slave s1) !! 11) = OBJECTTYPE_NONE /\ exec s2 (OpRegister 2 9) = s2.
Proof.
  intros exec s s1 s2.
  pose proof (object_map_unseparate sample_commit sample_sync sample_register sample_deregister sample_deregister sample_map sample_create sample_ptr
    map_to_list sample_heap ∅ [OpRegister 1 7] 1 2 1 7 0) as [H1 _]; [vm_compute; reflexivity|].
  pose proof (object_map_unseparate sample_commit sample_sync sample_register sample_deregister sample_deregister sample_map sample_create sample_ptr
    map_to_list sample_heap ∅ [OpRegister 1 7] 1 2 2 8 9) as [_ H2]; [vm_compute; reflexivity|].
  split; [apply H1; vm_compute; left|apply H2; vm_compute; reflexivity].
Defined.
