(* ===== verification/Barrier.v ===== *)
(** * Barrier (co/barrier.cpp)

    A distributed barrier of a given height.  Each participant sends an enter
    request to the barrier's master node and waits until its own incarnation
    counter advances; the master collects the requests per object version and
    notifies all participants once the height is reached.  Requests may carry a
    timeout, in which case a participant may give up and enter again. *)

From S2P Require Import Prelude Bytes Lunchbox DataOStream DataIStream Serialize Transfer Commands ObjectStreams Connections ObjectCM MasterCM.

Definition LB_TIMEOUT_INDEFINITE : Z := 0xffffffff.
Definition LB_TIMEOUT_DEFAULT : Z := 0xfffffffe.

Record Request := mkRequest {
  r_time : Z;
  r_timeout : Z;
  r_incarnation : Z;
  r_nodes : list Z
}.

Definition set_r_time (v : Z) (s : Request) : Request :=
  mkRequest v (r_timeout s) (r_incarnation s) (r_nodes s).
Definition set_r_timeout (v : Z) (s : Request) : Request :=
  mkRequest (r_time s) v (r_incarnation s) (r_nodes s).
Definition set_r_incarnation (v : Z) (s : Request) : Request :=
  mkRequest (r_time s) (r_timeout s) v (r_nodes s).
Definition set_r_nodes (v : list Z) (s : Request) : Request :=
  mkRequest (r_time s) (r_timeout s) (r_incarnation s) v.

Definition Request_init : Request := mkRequest 0 LB_TIMEOUT_INDEFINITE 0 [].

Record Barrier := mkBarrier {
  b_masterID : Z;
  b_height : Z;
  b_enteredNodes : gmap Z Request;
  b_incarnation : Z
}.

Definition set_b_masterID (v : Z) (s : Barrier) : Barrier :=
  mkBarrier v (b_height s) (b_enteredNodes s) (b_incarnation s).
Definition set_b_height (v : Z) (s : Barrier) : Barrier :=
  mkBarrier (b_masterID s) v (b_enteredNodes s) (b_incarnation s).
Definition set_b_enteredNodes (v : gmap Z Request) (s : Barrier) : Barrier :=
  mkBarrier (b_masterID s) (b_height s) v (b_incarnation s).
Definition set_b_incarnation (v : Z) (s : Barrier) : Barrier :=
  mkBarrier (b_masterID s) (b_height s) (b_enteredNodes s) v.

(** An enter request: version, the incarnation of the participant, its timeout. *)
Record EnterCommand := mkEnterCommand {
  ec_version : Z;
  ec_incarnation : Z;
  ec_timeout : Z
}.

Section barrier.

Context `{!Pression, !Lunchbox} (be : bool).

(** [Node::isLocal] on the barrier's master, the order in which its hash map is
    iterated, and [IATTR_TIMEOUT_DEFAULT]. *)
Context (isLocal : Z -> bool) (it : gmap Z Request -> list Z) (timeoutDefault : Z).

Definition Barrier_init (masterID height : Z) : Barrier := mkBarrier masterID height ∅ 0.

(** *** Serialization *)

Definition barrier_getInstanceData (b : Barrier) : list bytes :=
  write_item be 4 (b_height b) ++ write_u128 be (b_masterID b).

Definition barrier_pack (b : Barrier) : list bytes := write_item be 4 (b_height b).

Section reading.

Context {S : Type} `{!BufferSource S}.

Definition barrier_applyInstanceData (b : Barrier) (ist : DataIStream S) : Barrier * DataIStream S :=
  let '(height, ist) := read_item be 4 (b_height b) ist in
  let '(masterID, ist) := read_u128 be (b_masterID b) ist in
  (set_b_masterID masterID (set_b_height height b), ist).

Definition barrier_unpack (b : Barrier) (ist : DataIStream S) : Barrier * DataIStream S :=
  let '(height, ist) := read_item be 4 (b_height b) ist in (set_b_height height b, ist).

End reading.

Definition increase (b : Barrier) : Barrier := set_b_height (u32 (b_height b + 1)) b.

(** *** A participant *)

(** [enter] up to its wait: [inl] with the result if it returns at once, otherwise
    the request sent to the master and the incarnation it waits for.  [reachable]:
    whether the master node could be connected. *)
Definition enter (b : Barrier) (reachable : bool) (version timeout : Z) : bool + EnterCommand * Z :=
  if b_height b =? 1 then inl true
  else if negb reachable then inl false
  else
    let leaveVal := u32 (b_incarnation b + 1) in
    inr (mkEnterCommand version (u32 (leaveVal - 1)) timeout, leaveVal).

(** Its result after the wait, given the outcome of [timedWaitEQ]. *)
Definition enter_result (timeout : Z) (timedWaitEQ : bool) : bool :=
  if timeout =? LB_TIMEOUT_INDEFINITE then true else if negb timedWaitEQ then false else true.

Definition setHeight (height : Z) (b : Barrier) : Barrier := set_b_height height b.

(** [_cmdEnterReply], given the version in the command and [getVersion]. *)
Definition _cmdEnterReply (b : Barrier) (getVersion version : Z) : Barrier :=
  if version =? getVersion then set_b_incarnation (u32 (b_incarnation b + 1)) b else b.

(** *** The master *)

(** [_sendNotify]: the version and node of the reply, none for the local node. *)
Definition _sendNotify (b : Barrier) (getVersion version node : Z) : Barrier * list (Z * Z) :=
  if isLocal node
  then (if version =? getVersion then set_b_incarnation (u32 (b_incarnation b + 1)) b else b, [])
  else (b, [(version, node)]).

Fixpoint notify_all (b : Barrier) (getVersion version : Z) (nodes : list Z) : Barrier * list (Z * Z) :=
  match nodes with
  | [] => (b, [])
  | node :: nodes =>
      let '(b, out) := _sendNotify b getVersion version node in
      let '(b, out') := notify_all b getVersion version nodes in
      (b, out ++ out')
  end.

(** [_cleanup]: remove the first request found that timed out. *)
Definition timed_out (time : Z) (r : Request) : bool :=
  if r_timeout r =? LB_TIMEOUT_INDEFINITE then false
  else
    let timeout := if negb (r_timeout r =? LB_TIMEOUT_DEFAULT) then r_timeout r else timeoutDefault in
    time >? u64 (r_time r + timeout).

Fixpoint cleanup_loop (time : Z) (keys : list Z) (m : gmap Z Request) : gmap Z Request :=
  match keys with
  | [] => m
  | k :: keys =>
      match m !! k with
      | Some r => if timed_out time r then delete k m else cleanup_loop time keys m
      | None => cleanup_loop time keys m
      end
  end.

Definition _cleanup (time : Z) (b : Barrier) : Barrier :=
  if Z.of_nat (size (b_enteredNodes b)) <? 2 then b
  else set_b_enteredNodes (cleanup_loop time (it (b_enteredNodes b)) (b_enteredNodes b)) b.

Definition set_request (version : Z) (r : Request) (b : Barrier) : Barrier :=
  set_b_enteredNodes (<[version := r]> (b_enteredNodes b)) b.

(** [_cmdEnter] with the values read from the command, the node it came from, the
    object's current version and the time. *)
Definition cmdEnter (b : Barrier) (getVersion now : Z) (command : EnterCommand) (node : Z) :
    Barrier * list (Z * Z) :=
  let '(mkEnterCommand version incarnation timeout) := command in
  let request := set_r_time now (default Request_init (b_enteredNodes b !! version)) in
  let '(request, stale) :=
    match r_nodes request with
    | [] => (set_r_timeout timeout (set_r_incarnation incarnation request), false)
    | _ =>
        if negb (r_timeout request =? LB_TIMEOUT_INDEFINITE) then
          if r_incarnation request <? incarnation then (request, true)
          else if r_incarnation request >? incarnation
          then (mkRequest (r_time request) timeout incarnation [], false)
          else (request, false)
        else (request, false)
    end in
  if stale then _sendNotify (set_request version request b) getVersion version node
  else
    let request := set_r_nodes (r_nodes request ++ [node]) request in
    let b := set_request version request b in
    let b := if negb (r_timeout request =? LB_TIMEOUT_INDEFINITE) then _cleanup now b else b in
    if version >? getVersion then (b, [])
    else if negb (timeout =? LB_TIMEOUT_INDEFINITE) && (version <? getVersion)
    then _sendNotify b getVersion version node
    else if Z.of_nat (length (r_nodes request)) <? b_height b then (b, [])
    else
      let '(b, out) := notify_all b getVersion version (usort (r_nodes request)) in
      (set_b_enteredNodes (delete version (b_enteredNodes b)) b, out).

(** The command as received. *)
Definition _cmdEnter (b : Barrier) (getVersion now : Z) (cmd : ICommand) (node : Z) :
    Barrier * list (Z * Z) :=
  let source := CommandBuffer_source be in
  let c := oic_command (ObjectICommand_of be cmd) in
  let '(version, c) := read_field (read_u128 be) 0 c in
  let '(incarnation, c) := read_field (read_item be 4) 0 c in
  let '(timeout, c) := read_field (read_item be 4) 0 c in
  cmdEnter b getVersion now (mkEnterCommand version incarnation timeout) node.

End barrier.

(** ** The barrier as a distributed system

    One participant per node; requests and replies travel as messages that may
    arrive in any order.  [sy_incs] are the incarnations of the barrier instances
    on the other nodes; the master node's own instance is [sy_master]. *)

Record System := mkSystem {
  sy_master : Barrier;
  sy_incs : Z -> Z;
  sy_waiting : Z -> option Z;
  sy_requests : list (Z * EnterCommand);
  sy_replies : list (Z * Z);
  sy_entered : Z -> Z;
  sy_left : Z -> Z
}.

Section system.

Context (isLocal : Z -> bool) (it : gmap Z Request -> list Z) (timeoutDefault : Z).
Context (participants : list Z) (version : Z).

(** The barrier instance on a node. *)
Definition instance_of (s : System) (p : Z) : Barrier :=
  if isLocal p then sy_master s else set_b_incarnation (sy_incs s p) (sy_master s).

Definition inc_of (s : System) (p : Z) : Z := b_incarnation (instance_of s p).

(** The participants are on different nodes, use the same version of the barrier,
    and wait without a timeout. *)
Inductive barrier_step : System -> System -> Prop :=
(** [enter] sends its request and waits. *)
| step_enter s p command leaveVal :
    p ∈ participants -> sy_waiting s p = None ->
    enter (instance_of s p) true version LB_TIMEOUT_INDEFINITE = inr (command, leaveVal) ->
    barrier_step s (mkSystem (sy_master s) (sy_incs s) (fset (sy_waiting s) p (Some leaveVal))
      (sy_requests s ++ [(p, command)]) (sy_replies s) (fset (sy_entered s) p (sy_entered s p + 1)) (sy_left s))
(** A request reaches the master. *)
| step_master s l1 p command l2 now b out :
    sy_requests s = l1 ++ (p, command) :: l2 ->
    cmdEnter isLocal it timeoutDefault (sy_master s) version now command p = (b, out) ->
    barrier_step s (mkSystem b (sy_incs s) (sy_waiting s) (l1 ++ l2) (sy_replies s ++ out) (sy_entered s) (sy_left s))
(** A reply reaches a participant's node. *)
| step_reply s l1 v p l2 :
    sy_replies s = l1 ++ (v, p) :: l2 ->
    barrier_step s (mkSystem (sy_master s)
      (fset (sy_incs s) p (b_incarnation (_cmdEnterReply (instance_of s p) version v)))
      (sy_waiting s) (sy_requests s) (l1 ++ l2) (sy_entered s) (sy_left s))
(** A waiting participant sees the incarnation it waits for. *)
| step_leave s p leaveVal :
    p ∈ participants -> sy_waiting s p = Some leaveVal -> inc_of s p = leaveVal ->
    barrier_step s (mkSystem (sy_master s) (sy_incs s) (fset (sy_waiting s) p None)
      (sy_requests s) (sy_replies s) (sy_entered s) (fset (sy_left s) p (sy_left s p + 1))).

Definition barrier_start (masterID : Z) : System :=
  mkSystem (Barrier_init masterID (Z.of_nat (length participants))) (fun _ => 0) (fun _ => None) [] []
    (fun _ => 0) (fun _ => 0).

Inductive barrier_reachable (masterID : Z) : System -> Prop :=
| reach_start : barrier_reachable masterID (barrier_start masterID)
| reach_step s s' : barrier_reachable masterID s -> barrier_step s s' -> barrier_reachable masterID s'.

(** *** Invariant *)

Context (Hnodup : NoDup participants) (Hmany : (2 <= length participants)%nat).
Context (Hlocal : forall p q, p ∈ participants -> q ∈ participants -> isLocal p = true -> isLocal q = true -> p = q).

(** The nodes counted for the current round, and those on their way. *)
Definition counted (s : System) : list Z :=
  r_nodes (default Request_init (b_enteredNodes (sy_master s) !! version)).
Definition coming (s : System) : list Z := (sy_requests s).*1.
Definition going (s : System) : list Z := (sy_replies s).*2.

(** Where a participant is when [R] rounds are complete. *)
Definition in_round (s : System) (R p : Z) : Prop :=
  if decide (p ∈ counted s ++ coming s)
  then sy_entered s p = R + 1 /\ sy_left s p = R /\ inc_of s p = u32 R /\ sy_waiting s p = Some (u32 (R + 1))
  else if decide (p ∈ going s)
  then sy_entered s p = R /\ sy_left s p = R - 1 /\ inc_of s p = u32 (R - 1) /\ sy_waiting s p = Some (u32 R)
  else sy_entered s p = R /\ inc_of s p = u32 R /\
    (sy_waiting s p = None /\ sy_left s p = R \/ sy_waiting s p = Some (u32 R) /\ sy_left s p = R - 1).

Record system_ok (s : System) (R : Z) : Prop := {
  sk_round : 0 <= R;
  sk_height : b_height (sy_master s) = Z.of_nat (length participants);
  sk_request : forall r, b_enteredNodes (sy_master s) !! version = Some r -> r_timeout r = LB_TIMEOUT_INDEFINITE;
  sk_commands : Forall (fun e => ec_version e.2 = version /\ ec_timeout e.2 = LB_TIMEOUT_INDEFINITE) (sy_requests s);
  sk_counted : (length (counted s) < length participants)%nat;
  sk_nodup : NoDup (counted s ++ coming s ++ going s);
  sk_in : forall p, p ∈ counted s ++ coming s ++ going s -> p ∈ participants;
  sk_replies : Forall (fun e => e.1 = version /\ isLocal e.2 = false) (sy_replies s);
  sk_nodes : forall p, p ∈ participants -> in_round s R p;
}.

Lemma u32_next R : 0 <= R -> u32 (u32 R + 1) = u32 (R + 1) /\ u32 R <> u32 (R + 1).
Proof. intros. unfold u32. split; Z.div_mod_to_equations; lia. Qed.

Lemma start_ok masterID : system_ok (barrier_start masterID) 0.
Proof.
  split; unfold counted, coming, going; cbn; rewrite ?lookup_empty; cbn; try done; try (by constructor).
  - lia.
  - by intros p ?%not_elem_of_nil.
  - intros p Hp. unfold in_round. rewrite !decide_False by (cbn; set_solver). cbn.
    unfold inc_of, instance_of. cbn. destruct (isLocal p); cbn; auto.
Qed.

Lemma enter_ok s R p command leaveVal :
  system_ok s R -> p ∈ participants -> sy_waiting s p = None ->
  enter (instance_of s p) true version LB_TIMEOUT_INDEFINITE = inr (command, leaveVal) ->
  system_ok (mkSystem (sy_master s) (sy_incs s) (fset (sy_waiting s) p (Some leaveVal))
      (sy_requests s ++ [(p, command)]) (sy_replies s) (fset (sy_entered s) p (sy_entered s p + 1)) (sy_left s)) R.
Proof.
  intros [] Hp Hw. unfold enter. destruct (b_height _ =? 1); [done|]. cbn [negb]. intros [= <- <-].
  pose proof (sk_nodes0 p Hp) as Hr. unfold in_round in Hr.
  case_decide as Hc; [naive_solver congruence|]. case_decide as Hg; [naive_solver congruence|].
  destruct Hr as (He & Hi & [[_ Hl]|[Hw' _]]); [|congruence].
  destruct (u32_next R sk_round0) as [Hn _].
  split; cbn; try done.
  - apply Forall_app. split; [done|]. by repeat constructor.
  - unfold coming. cbn. rewrite fmap_app. cbn. fold (coming s). rewrite <-app_assoc.
    change (counted _) with (counted s). change (going _) with (going s).
    rewrite (Permutation_app_comm (coming s) ([p] ++ going s)), <-app_assoc.
    rewrite (Permutation_app_comm (going s) (coming s)). cbn [app].
    rewrite <-Permutation_middle. apply NoDup_cons. split; [|done]. set_solver.
  - intros q. unfold coming. cbn. rewrite fmap_app. cbn. fold (coming s).
    change (counted _) with (counted s). change (going _) with (going s). specialize (sk_in0 q).
    rewrite !elem_of_app, list_elem_of_singleton in *. naive_solver.
  - intros q Hq. specialize (sk_nodes0 q Hq). unfold in_round, coming in *. cbn. rewrite fmap_app. cbn.
    change (counted (mkSystem _ _ _ _ _ _ _)) with (counted s). change (going (mkSystem _ _ _ _ _ _ _)) with (going s).
    change (inc_of (mkSystem _ _ _ _ _ _ _) q) with (inc_of s q).
    destruct (decide (q = p)) as [->|Hqp].
    + rewrite decide_True by set_solver. rewrite !fset_eq. split_and!; try done; [lia|]. f_equal. by rewrite <-Hn, <-Hi.
    + rewrite !fset_ne by done.
      assert (q ∈ counted s ++ (sy_requests s).*1 ++ [p] <-> q ∈ counted s ++ (sy_requests s).*1) as Hiff by set_solver.
      destruct (decide (q ∈ counted s ++ (sy_requests s).*1)).
      * rewrite decide_True by (by apply Hiff). done.
      * rewrite decide_False by (by rewrite Hiff). done.
Qed.

Lemma reply_ok s R l1 v p l2 :
  system_ok s R -> sy_replies s = l1 ++ (v, p) :: l2 ->
  system_ok (mkSystem (sy_master s)
      (fset (sy_incs s) p (b_incarnation (_cmdEnterReply (instance_of s p) version v)))
      (sy_waiting s) (sy_requests s) (l1 ++ l2) (sy_entered s) (sy_left s)) R.
Proof.
  intros [] Hr.
  assert (going s = l1.*2 ++ p :: l2.*2) as Hg by (unfold going; by rewrite Hr, fmap_app, fmap_cons).
  rewrite Hr in sk_replies0. apply Forall_app in sk_replies0 as [Hr1 [[Hv Hloc] Hr2]%Forall_cons].
  cbn in Hv, Hloc. subst v.
  set (s' := mkSystem _ _ _ _ _ _ _).
  assert (counted s' = counted s /\ coming s' = coming s /\ going s' = l1.*2 ++ l2.*2) as (Ec & Em & Eg)
    by (unfold going; cbn; by rewrite fmap_app).
  rewrite Hg in sk_nodup0, sk_in0.
  assert ((p ∉ counted s ++ coming s ++ l1.*2 ++ l2.*2) /\ NoDup (counted s ++ coming s ++ l1.*2 ++ l2.*2)) as [Hnp Hnd].
  { rewrite !(app_assoc _ _ (_ ++ _)), !(app_assoc _ (l1.*2)) in sk_nodup0.
    rewrite !(app_assoc _ _ (_ ++ _)), !(app_assoc _ (l1.*2)). rewrite <-Permutation_middle in sk_nodup0.
    by apply NoDup_cons in sk_nodup0. }
  assert (p ∈ participants) as Hp by (apply sk_in0; set_solver).
  pose proof (sk_nodes0 p Hp) as Hpr. unfold in_round in Hpr.
  rewrite decide_False in Hpr by set_solver. rewrite decide_True in Hpr by (rewrite Hg; set_solver).
  destruct Hpr as (He & Hl & Hi & Hw).
  split; try done.
  - rewrite Ec, Em, Eg. exact Hnd.
  - intros q. rewrite Ec, Em, Eg. intros Hq. apply sk_in0. set_solver.
  - by apply Forall_app.
  - intros q Hq. pose proof (sk_nodes0 q Hq) as Hqr. unfold in_round in *. rewrite Ec, Em, Eg.
    destruct (decide (q = p)) as [->|Hqp].
    + rewrite !decide_False by set_solver. cbn. split; [done|]. split; [|by right].
      unfold inc_of, instance_of. cbn. rewrite Hloc. cbn. rewrite fset_eq. unfold _cmdEnterReply.
      rewrite Z.eqb_refl. cbn. change (b_incarnation (instance_of s p)) with (inc_of s p). rewrite Hi. unfold u32.
      Z.div_mod_to_equations. lia.
    + assert (inc_of s' q = inc_of s q) as -> by (unfold inc_of, instance_of; cbn; by rewrite fset_ne).
      change (sy_entered s') with (sy_entered s). change (sy_left s') with (sy_left s).
      change (sy_waiting s') with (sy_waiting s).
      case_decide; [done|]. rewrite Hg in Hqr.
      destruct (decide (q ∈ l1.*2 ++ l2.*2)).
      * rewrite decide_True in Hqr by set_solver. done.
      * rewrite decide_False in Hqr by set_solver. done.
Qed.

Lemma leave_ok s R p leaveVal :
  system_ok s R -> p ∈ participants -> sy_waiting s p = Some leaveVal -> inc_of s p = leaveVal ->
  system_ok (mkSystem (sy_master s) (sy_incs s) (fset (sy_waiting s) p None)
      (sy_requests s) (sy_replies s) (sy_entered s) (fset (sy_left s) p (sy_left s p + 1))) R.
Proof.
  intros [] Hp Hw Hi. split; try done.
  intros q Hq. pose proof (sk_nodes0 q Hq) as Hqr. unfold in_round in *.
  set (s' := mkSystem _ _ _ _ _ _ _).
  change (counted s') with (counted s). change (coming s') with (coming s). change (going s') with (going s).
  change (inc_of s' q) with (inc_of s q). cbn [sy_entered sy_left sy_waiting s'].
  destruct (decide (q = p)) as [->|Hqp]; [|by rewrite !fset_ne].
  rewrite !fset_eq. pose proof (u32_next R sk_round0) as [_ Hne].
  case_decide; [destruct Hqr as (_ & _ & Hir & Hwr); congruence|].
  case_decide.
  { destruct Hqr as (He & Hl & Hir & Hwr). exfalso. rewrite Hwr in Hw. injection Hw as <-. rewrite Hir in Hi.
    unfold u32 in Hi. Z.div_mod_to_equations. lia. }
  destruct Hqr as (He & Hir & [[Hwn _]|[Hwr Hl]]); [congruence|]. split_and!; try done. left. split; [done|lia].
Qed.

(** Without timeouts a request is either counted or completes the round. *)
Lemma cmdEnter_indefinite b now inc p :
  (forall r, b_enteredNodes b !! version = Some r -> r_timeout r = LB_TIMEOUT_INDEFINITE) ->
  exists r, r_timeout r = LB_TIMEOUT_INDEFINITE /\
    r_nodes r = r_nodes (default Request_init (b_enteredNodes b !! version)) ++ [p] /\
    cmdEnter isLocal it timeoutDefault b version now (mkEnterCommand version inc LB_TIMEOUT_INDEFINITE) p =
      if Z.of_nat (length (r_nodes r)) <? b_height b then (set_request version r b, [])
      else
        let '(b', out) := notify_all isLocal (set_request version r b) version version (usort (r_nodes r)) in
        (set_b_enteredNodes (delete version (b_enteredNodes b')) b', out).
Proof.
  intros Hi. unfold cmdEnter. set (r0 := default Request_init _).
  assert (r_timeout r0 = LB_TIMEOUT_INDEFINITE) as Ht
    by (unfold r0; destruct (b_enteredNodes b !! version) eqn:E; [by apply Hi|done]).
  change (r_nodes (set_r_time now r0)) with (r_nodes r0).
  assert (exists r, (match r_nodes r0 with
    | [] => (set_r_timeout LB_TIMEOUT_INDEFINITE (set_r_incarnation inc (set_r_time now r0)), false)
    | _ => if negb (r_timeout (set_r_time now r0) =? LB_TIMEOUT_INDEFINITE) then
             if r_incarnation (set_r_time now r0) <? inc then (set_r_time now r0, true)
             else if r_incarnation (set_r_time now r0) >? inc
             then (mkRequest (r_time (set_r_time now r0)) LB_TIMEOUT_INDEFINITE inc [], false)
             else (set_r_time now r0, false)
           else (set_r_time now r0, false)
    end) = (r, false) /\ r_nodes r = r_nodes r0 /\ r_timeout r = LB_TIMEOUT_INDEFINITE) as (r & -> & Hn & Hr).
  { change (r_timeout (set_r_time now r0)) with (r_timeout r0). rewrite Ht, Z.eqb_refl. cbn [negb].
    destruct (r_nodes r0) eqn:En; eexists; (split; [done|]); by rewrite ?En. }
  exists (set_r_nodes (r_nodes r ++ [p]) r). cbn [r_timeout set_r_nodes r_nodes]. rewrite Hn, Hr.
  split_and!; try done. rewrite Z.eqb_refl. cbn [negb andb].
  by rewrite gtb_false by lia.
Qed.

(** Notifying a list of nodes, at most one of them local. *)
Lemma notify_all_spec b nodes :
  NoDup nodes -> (forall p q, p ∈ nodes -> q ∈ nodes -> isLocal p = true -> isLocal q = true -> p = q) ->
  notify_all isLocal b version version nodes =
    (if decide (Exists (fun p => isLocal p = true) nodes)
     then set_b_incarnation (u32 (b_incarnation b + 1)) b else b,
     (fun p => (version, p)) <$> filter (fun p => isLocal p = false) nodes).
Proof.
  intros Hnd. revert b. induction Hnd as [|p nodes Hp Hnd IH]; intros b Hloc; cbn [notify_all]; [done|].
  unfold _sendNotify. rewrite Z.eqb_refl.
  destruct (isLocal p) eqn:Hl.
  - assert (Forall (fun q => isLocal q = false) nodes) as Hall.
    { apply Forall_forall. intros q Hq. destruct (isLocal q) eqn:Hlq; [|done]. exfalso. apply Hp.
      rewrite (Hloc p q); [done|set_solver..|done|done]. }
    rewrite IH by (intros; apply Hloc; set_solver).
    rewrite decide_False by (rewrite Exists_exists; intros (q & Hq & Hlq); rewrite Forall_forall in Hall; specialize (Hall q Hq); congruence).
    rewrite decide_True by (by apply Exists_cons_hd). rewrite filter_cons_False by congruence. done.
  - rewrite IH by (intros; apply Hloc; set_solver). rewrite filter_cons_True by done.
    destruct (decide (Exists (fun q => isLocal q = true) nodes)).
    + rewrite decide_True by (by apply Exists_cons_tl). done.
    + rewrite decide_False by (rewrite Exists_cons; naive_solver congruence). done.
Qed.

(** A request that does not complete the round moves from the wire to the master. *)
Lemma master_counts s R l1 p command l2 r :
  system_ok s R -> sy_requests s = l1 ++ (p, command) :: l2 ->
  r_timeout r = LB_TIMEOUT_INDEFINITE -> r_nodes r = counted s ++ [p] ->
  Z.of_nat (length (r_nodes r)) < b_height (sy_master s) ->
  system_ok (mkSystem (set_request version r (sy_master s)) (sy_incs s) (sy_waiting s) (l1 ++ l2)
    (sy_replies s) (sy_entered s) (sy_left s)) R.
Proof.
  intros [] Hreq Hrt Hrn Hlt. set (s' := mkSystem _ _ _ _ _ _ _).
  assert (counted s' = counted s ++ [p]) as Ec by (unfold counted, s'; cbn; by rewrite lookup_insert_eq).
  assert (coming s' = l1.*1 ++ l2.*1) as Em by (unfold coming, s'; cbn; by rewrite fmap_app).
  assert (coming s = l1.*1 ++ p :: l2.*1) as Em0 by (unfold coming; by rewrite Hreq, fmap_app, fmap_cons).
  assert (counted s' ++ coming s' ≡ₚ counted s ++ coming s) as Hp.
  { rewrite Ec, Em, Em0, <-app_assoc. apply Permutation_app_head. cbn. apply Permutation_middle. }
  rewrite Hreq in sk_commands0. apply Forall_app in sk_commands0 as [Hc1 [_ Hc2]%Forall_cons].
  split; try done.
  - intros r'. unfold s'. cbn. rewrite lookup_insert_eq. by intros [= <-].
  - by apply Forall_app.
  - rewrite Ec, <-Hrn. lia.
  - rewrite app_assoc, Hp, <-app_assoc. done.
  - intros q. rewrite app_assoc, Hp, <-app_assoc. apply sk_in0.
  - intros q Hq. specialize (sk_nodes0 q Hq). unfold in_round in *.
    rewrite (decide_ext _ (q ∈ counted s ++ coming s)) by (by rewrite Hp).
    assert (inc_of s' q = inc_of s q) as -> by (unfold inc_of, instance_of; cbn; by destruct (isLocal q)).
    exact sk_nodes0.
Qed.

(** The last request of a round: every participant is counted, and nothing else
    is under way. *)
Lemma round_full s R l1 p command l2 r :
  system_ok s R -> sy_requests s = l1 ++ (p, command) :: l2 ->
  r_nodes r = counted s ++ [p] -> b_height (sy_master s) <= Z.of_nat (length (r_nodes r)) ->
  r_nodes r ≡ₚ participants /\ l1 = [] /\ l2 = [] /\ sy_replies s = [].
Proof.
  intros [] Hreq Hrn Hge.
  assert (counted s ++ coming s ++ going s ≡ₚ (counted s ++ [p]) ++ l1.*1 ++ l2.*1 ++ going s) as Hperm.
  { unfold coming. rewrite Hreq, fmap_app, fmap_cons, <-!app_assoc. apply Permutation_app_head. cbn.
    symmetry. apply Permutation_middle. }
  rewrite Hperm in sk_nodup0. setoid_rewrite Hperm in sk_in0. rewrite <-Hrn in *.
  assert (r_nodes r ≡ₚ participants) as Hall.
  { apply submseteq_length_Permutation; [|lia]. apply NoDup_submseteq; [exact (proj1 (proj1 (NoDup_app _ _) sk_nodup0))|].
    intros q Hq. apply sk_in0, elem_of_app. by left. }
  split; [done|].
  assert (l1.*1 ++ l2.*1 ++ going s = []) as Hnil.
  { apply elem_of_nil_inv. intros q Hq. apply NoDup_app in sk_nodup0 as (_ & Hd & _). apply (Hd q); [|done].
    rewrite Hall. apply sk_in0, elem_of_app. by right. }
  apply app_eq_nil in Hnil as [Hl1 [Hl2 Hg]%app_eq_nil].
  apply fmap_nil_inv in Hl1. apply fmap_nil_inv in Hl2. by apply fmap_nil_inv in Hg.
Qed.

(** The last request of a round wakes every participant. *)
Lemma master_completes s R l1 p command l2 r b' out :
  system_ok s R -> sy_requests s = l1 ++ (p, command) :: l2 ->
  r_nodes r = counted s ++ [p] -> b_height (sy_master s) <= Z.of_nat (length (r_nodes r)) ->
  notify_all isLocal (set_request version r (sy_master s)) version version (usort (r_nodes r)) = (b', out) ->
  system_ok (mkSystem (set_b_enteredNodes (delete version (b_enteredNodes b')) b') (sy_incs s) (sy_waiting s)
    (l1 ++ l2) (sy_replies s ++ out) (sy_entered s) (sy_left s)) (R + 1).
Proof.
  intros Hok Hreq Hrn Hge. destruct (round_full _ _ _ _ _ _ _ Hok Hreq Hrn Hge) as (Hall & -> & -> & Hg).
  destruct Hok.
  assert (usort (r_nodes r) ≡ₚ participants) as Hu.
  { apply NoDup_Permutation; [apply NoDup_usort|done|]. intros q. by rewrite elem_of_usort, Hall. }
  rewrite notify_all_spec; [|by rewrite Hu|intros ??; rewrite !Hu; apply Hlocal]. intros [= <- <-].
  rewrite Hg. cbn [app]. set (s' := mkSystem _ _ _ _ _ _ _).
  assert (forall P : Barrier -> Prop, (forall i, P (set_b_incarnation i (set_request version r (sy_master s)))) ->
    P (set_request version r (sy_master s)) ->
    P (if decide (Exists (fun p => isLocal p = true) (usort (r_nodes r)))
       then set_b_incarnation (u32 (b_incarnation (set_request version r (sy_master s)) + 1)) (set_request version r (sy_master s))
       else set_request version r (sy_master s))) as Hcase by (intros P ??; case_decide; done).
  assert (counted s' = []) as Ec by (unfold counted, s'; cbn; by rewrite lookup_delete_eq).
  assert (forall q, q ∈ going s' <-> q ∈ participants /\ isLocal q = false) as Eg.
  { intros q. unfold going, s'. cbn. rewrite <-list_fmap_compose, list_elem_of_fmap. cbn.
    setoid_rewrite list_elem_of_filter. rewrite <-Hu. naive_solver. }
  split; try done.
  - lia.
  - unfold s'. cbn. by apply (Hcase (fun b => b_height b = _)).
  - unfold s'. cbn. by rewrite lookup_delete_eq.
  - rewrite Ec. cbn. lia.
  - rewrite Ec. unfold coming, going, s'. cbn. rewrite <-list_fmap_compose. cbn. rewrite list_fmap_id.
    apply NoDup_filter, NoDup_usort.
  - intros q. rewrite !elem_of_app, Eg, Ec. change (coming s') with (@nil Z). rewrite !elem_of_nil. naive_solver.
  - unfold s'. cbn. apply Forall_fmap, Forall_forall. intros q [??]%list_elem_of_filter. done.
  - intros q Hq. specialize (sk_nodes0 q Hq). unfold in_round in *. rewrite Ec. change (coming s') with (@nil Z).
    rewrite decide_False by (cbn; set_solver).
    rewrite decide_True in sk_nodes0 by (unfold coming; rewrite Hreq; rewrite <-Hall, Hrn in Hq; set_solver).
    destruct sk_nodes0 as (He & Hle & Hi & Hw). change (sy_entered s') with (sy_entered s).
    change (sy_left s') with (sy_left s). change (sy_waiting s') with (sy_waiting s).
    assert (inc_of s' q = if isLocal q then u32 (R + 1) else u32 R) as ->.
    { unfold inc_of, instance_of in *. destruct (isLocal q) eqn:El; [|exact Hi]. unfold s'. cbn.
      rewrite decide_True by (apply Exists_exists; exists q; rewrite Hu; done). cbn. rewrite Hi.
      apply (u32_next R sk_round0). }
    destruct (isLocal q) eqn:El.
    + rewrite decide_False by (rewrite Eg; naive_solver congruence). split_and!; try done. right. split; [done|lia].
    + rewrite decide_True by (by rewrite Eg). by replace (R + 1 - 1) with R by lia.
Qed.

Lemma step_ok s R s' : system_ok s R -> barrier_step s s' -> exists R', system_ok s' R'.
Proof.
  intros Hok Hs. destruct Hs as [s p c v Hp Hw He|s l1 p c l2 now b out Hreq Hc|s l1 v p l2 Hr|s p v Hp Hw Hi].
  - exists R. by apply enter_ok.
  - pose proof (sk_commands _ _ Hok) as Hall. rewrite Hreq in Hall.
    apply Forall_app in Hall as [_ [[Hv Ht] _]%Forall_cons].
    destruct c as [v i t]. cbn in Hv, Ht. subst v t.
    destruct (cmdEnter_indefinite (sy_master s) now i p (sk_request _ _ Hok)) as (r & Hrt & Hrn & Hb).
    rewrite Hb in Hc. destruct (Z.ltb_spec (Z.of_nat (length (r_nodes r))) (b_height (sy_master s))).
    + injection Hc as <- <-. rewrite app_nil_r. exists R. by eapply master_counts.
    + destruct (notify_all _ _ _ _ _) as [b' out'] eqn:En. injection Hc as <- <-. exists (R + 1).
      by eapply master_completes.
  - exists R. by apply reply_ok.
  - exists R. by eapply leave_ok.
Qed.

Lemma reachable_ok masterID s : barrier_reachable masterID s -> exists R, system_ok s R.
Proof.
  induction 1 as [|s s' _ [R Hok] Hs]; [exists 0; apply start_ok|by eapply step_ok].
Qed.

(** C26: Barrier safety: in every reachable state of the distributed barrier
    (one participant on each node, one version, no timeouts; requests and replies
    delivered in any order, participants racing ahead into later rounds), no participant has left a round that another participant has
    not entered yet. *)
Theorem barrier_synchronises masterID s p q :
  barrier_reachable masterID s -> p ∈ participants -> q ∈ participants -> sy_left s p <= sy_entered s q.
Proof.
  intros [R []]%reachable_ok Hp Hq.
  pose proof (sk_nodes0 p Hp) as Hpr. pose proof (sk_nodes0 q Hq) as Hqr. unfold in_round in *.
  repeat case_decide; lia.
Qed.

(** A participant that waits without being able to leave has a message under way
    or is counted. *)
Lemma waiting_pending s R p leaveVal :
  system_ok s R -> p ∈ participants -> sy_waiting s p = Some leaveVal -> inc_of s p <> leaveVal ->
  p ∈ counted s ++ coming s ++ going s.
Proof.
  intros [] Hp Hw Hi. pose proof (sk_nodes0 p Hp) as Hr. unfold in_round in Hr.
  case_decide; [set_solver|]. case_decide; [set_solver|].
  destruct Hr as (_ & Hir & [[Hn _]|[Hn _]]); congruence.
Qed.

(** A round that is not complete lacks a participant. *)
Lemma missing_participant s R : system_ok s R -> exists q, q ∈ participants /\ q ∉ counted s.
Proof.
  intros Hok. destruct (decide (Forall (fun q => q ∈ counted s) participants)) as [Hall|Hn].
  - exfalso. pose proof (sk_counted _ _ Hok).
    assert (participants ⊆+ counted s) as Hsub%submseteq_length; [|lia].
    apply NoDup_submseteq; [done|]. by apply Forall_forall.
  - apply not_Forall_Exists in Hn; [|apply _]. by apply Exists_exists in Hn.
Qed.

(** C30: Barrier liveness: no wake-up is lost.  One participant on each node enters
    one version of the barrier again and again, with an indefinite timeout (with
    others the master drops nodes it has counted).  When all requests and replies
    have been delivered, a participant inside [enter] can leave, unless some other
    participant has not entered this round yet, and that one is not stuck either:
    it is outside the barrier or can leave the previous round. *)
Theorem barrier_no_lost_wakeup masterID s p leaveVal :
  barrier_reachable masterID s -> p ∈ participants -> sy_waiting s p = Some leaveVal ->
  sy_requests s = [] -> sy_replies s = [] ->
  inc_of s p = leaveVal \/
  exists q, q ∈ participants /\ sy_entered s q < sy_entered s p /\
    (sy_waiting s q = None \/ sy_waiting s q = Some (inc_of s q)).
Proof.
  intros [R Hok]%reachable_ok Hp Hw Hq Hr. destruct (decide (inc_of s p = leaveVal)) as [|Hi]; [by left|]. right.
  pose proof (waiting_pending _ _ _ _ Hok Hp Hw Hi) as Hpend. destruct (missing_participant _ _ Hok) as (q & Hqp & Hqc).
  pose proof (sk_nodes _ _ Hok p Hp) as Hpr. pose proof (sk_nodes _ _ Hok q Hqp) as Hqr.
  unfold in_round, coming, going in *. rewrite Hq, Hr in *. cbn in *. rewrite !app_nil_r in *.
  rewrite decide_True in Hpr by done. rewrite decide_False in Hqr by done.
  rewrite decide_False in Hqr by set_solver. destruct Hpr as (He & _). destruct Hqr as (Hqe & Hqi & Hqw).
  exists q. split; [done|]. split; [lia|]. rewrite Hqi. naive_solver.
Qed.

(** *** Execution *)

Inductive Event :=
| EvEnter (p : Z)
| EvMaster (i : nat) (now : Z)
| EvReply (i : nat)
| EvLeave (p : Z).

Definition barrier_exec (s : System) (e : Event) : option System :=
  match e with
  | EvEnter p =>
      if decide (p ∈ participants) then
        match sy_waiting s p, enter (instance_of s p) true version LB_TIMEOUT_INDEFINITE with
        | None, inr (command, leaveVal) =>
            Some (mkSystem (sy_master s) (sy_incs s) (fset (sy_waiting s) p (Some leaveVal))
              (sy_requests s ++ [(p, command)]) (sy_replies s) (fset (sy_entered s) p (sy_entered s p + 1)) (sy_left s))
        | _, _ => None
        end
      else None
  | EvMaster i now =>
      match sy_requests s !! i with
      | Some (p, command) =>
          let '(b, out) := cmdEnter isLocal it timeoutDefault (sy_master s) version now command p in
          Some (mkSystem b (sy_incs s) (sy_waiting s) (take i (sy_requests s) ++ drop (S i) (sy_requests s))
            (sy_replies s ++ out) (sy_entered s) (sy_left s))
      | None => None
      end
  | EvReply i =>
      match sy_replies s !! i with
      | Some (v, p) =>
          Some (mkSystem (sy_master s)
            (fset (sy_incs s) p (b_incarnation (_cmdEnterReply (instance_of s p) version v)))
            (sy_waiting s) (sy_requests s) (take i (sy_replies s) ++ drop (S i) (sy_replies s)) (sy_entered s) (sy_left s))
      | None => None
      end
  | EvLeave p =>
      if decide (p ∈ participants /\ sy_waiting s p = Some (inc_of s p)) then
        Some (mkSystem (sy_master s) (sy_incs s) (fset (sy_waiting s) p None)
          (sy_requests s) (sy_replies s) (sy_entered s) (fset (sy_left s) p (sy_left s p + 1)))
      else None
  end.

Lemma barrier_exec_step s e s' : barrier_exec s e = Some s' -> barrier_step s s'.
Proof.
  destruct e as [p|i now|i|p]; cbn -[enter cmdEnter _cmdEnterReply].
  - case_decide; [|done]. destruct (sy_waiting s p) eqn:Hw; [done|].
    destruct (enter _ _ _ _) as [|[c l]] eqn:He; [done|]. intros [= <-]. by apply step_enter.
  - destruct (sy_requests s !! i) as [[p c]|] eqn:Hi; [|done].
    destruct (cmdEnter _ _ _ _ _ _ _) as [b out] eqn:Hc. intros [= <-].
    eapply step_master; [|exact Hc]. by rewrite take_drop_middle.
  - destruct (sy_replies s !! i) as [[v p]|] eqn:Hi; [|done]. intros [= <-].
    eapply step_reply. by rewrite take_drop_middle.
  - case_decide as Hd; [|done]. intros [= <-]. destruct Hd. by eapply step_leave.
Qed.

Lemma barrier_exec_reachable masterID es s :
  foldl (fun o e => s ← o; barrier_exec s e) (Some (barrier_start masterID)) es = Some s ->
  barrier_reachable masterID s.
Proof.
  revert s. induction es as [|e es IH] using rev_ind; intros s; cbn; [intros [= <-]; constructor|].
  rewrite foldl_app. cbn. destruct (foldl _ _ es) as [s0|] eqn:E; [|done]. cbn. intros Hs.
  eapply reach_step; [by apply IH|by eapply barrier_exec_step].
Qed.

End system.

(** *** Witnesses: two participants, node 1 holding the master *)

Definition sample_barrier_run (es : list Event) : option System :=
  foldl (fun o e => s ← o; barrier_exec (Z.eqb 1) (fun m => (map_to_list m).*1) 300000 [1; 2] 7 s e)
    (Some (barrier_start [1; 2] 1)) es.

Definition sample_state (es : list Event) : System := default (barrier_start [1; 2] 1) (sample_barrier_run es).

(** Node 2 left the first round and entered the next one before node 1 woke up. *)
Definition sample_round : list Event :=
  [EvEnter 2; EvEnter 1; EvMaster 1 0; EvMaster 0 5; EvReply 0; EvLeave 2; EvEnter 2].

Lemma barrier_synchronises_witness :
  sy_left (sample_state sample_round) 2 = 1 /\ sy_left (sample_state sample_round) 1 = 0 /\
  sy_left (sample_state sample_round) 2 <= sy_entered (sample_state sample_round) 1.
Proof.
  split; [by vm_compute|]. split; [by vm_compute|].
  apply (barrier_synchronises (Z.eqb 1) (fun m => (map_to_list m).*1) 300000 [1; 2] 7) with (masterID := 1).
  - by apply (bool_decide_unpack (NoDup [1; 2])).
  - cbn. lia.
  - intros p q _ _ ?%Z.eqb_eq ?%Z.eqb_eq. congruence.
  - apply barrier_exec_reachable with (es := sample_round). by vm_compute.
  - by apply (bool_decide_unpack (2 ∈ [1; 2])).
  - by apply (bool_decide_unpack (1 ∈ [1; 2])).
Defined.

Lemma barrier_no_lost_wakeup_witness :
  inc_of (Z.eqb 1) (sample_state [EvEnter 2; EvMaster 0 0]) 2 <> 1 /\
  (inc_of (Z.eqb 1) (sample_state [EvEnter 2; EvMaster 0 0]) 2 = 1 \/
   exists q, q ∈ [1; 2] /\
     sy_entered (sample_state [EvEnter 2; EvMaster 0 0]) q < sy_entered (sample_state [EvEnter 2; EvMaster 0 0]) 2 /\
     (sy_waiting (sample_state [EvEnter 2; EvMaster 0 0]) q = None \/
      sy_waiting (sample_state [EvEnter 2; EvMaster 0 0]) q = Some (inc_of (Z.eqb 1) (sample_state [EvEnter 2; EvMaster 0 0]) q))).
Proof.
  split; [by vm_compute|].
  apply (barrier_no_lost_wakeup (Z.eqb 1) (fun m => (map_to_list m).*1) 300000 [1; 2] 7) with (masterID := 1).
  - by apply (bool_decide_unpack (NoDup [1; 2])).
  - cbn. lia.
  - intros p q _ _ ?%Z.eqb_eq ?%Z.eqb_eq. congruence.
  - apply barrier_exec_reachable with (es := [EvEnter 2; EvMaster 0 0]). by vm_compute.
  - by apply (bool_decide_unpack (2 ∈ [1; 2])).
  - by vm_compute.
  - by vm_compute.
  - by vm_compute.
Defined.
