(* ===== verification/Queue.v ===== *)
(** * Distributed queues (co/queueMaster.cpp, queueSlave.cpp, queueItem.cpp,
    randomDistributor.cpp, equalDistributor.cpp, packageDistributor.h)

    A [QueueMaster] hands the items an application pushes to a package
    distributor; [QueueSlave]s request items in batches, keep them in a local
    queue and return them one by one.  The distributor is an interface with two
    implementations: one queue for all slaves, and one queue per slave node
    selected by the item's position. *)

From S2P Require Import Prelude Bytes Lunchbox DataOStream DataIStream Serialize.

Definition LB_UNDEFINED_UINT32 : Z := 0xffffffff.
Definition CO_INSTANCE_ALL : Z := 0xffffffff.

(** A request for items, without the score, which these distributors ignore. *)
Record GetItem := mkGetItem {
  gi_itemsRequested : Z;
  gi_slaveInstanceID : Z;
  gi_requestID : Z
}.

(** The commands a slave queues: [CMD_QUEUE_ITEM] with its data and
    [CMD_QUEUE_EMPTY] with the request it answers. *)
Inductive QueueMessage :=
| QItem (data : bytes)
| QEmpty (requestID : Z).

#[export] Instance QueueMessage_eq : EqDecision QueueMessage.
Proof. solve_decision. Defined.

(** Floating point values and [int( nNodes * pos )] are the platform's. *)
Class Positions := {
  float : Type;
  zero : float;
  absPos : Z -> float -> Z;
}.

Section items.

Context `{!Pression, !Positions} (threshold objectBufferSize : Z).

Record QueueItem := mkQueueItem {
  qi_number : Z;
  qi_positionHint : float;
  qi_stream : DataOStream
}.

(** [nPackages] is the counter shared by all items. *)
Definition QueueItem_new (nPackages name : Z) (good : bool) : QueueItem * Z :=
  (mkQueueItem nPackages zero (enable_ (enableSave (DataOStream_init name good))), u64 (nPackages + 1)).

Definition setPositionHint (pos : float) (i : QueueItem) : QueueItem :=
  mkQueueItem (qi_number i) pos (qi_stream i).

(** The stream operators on the item. *)
Definition item_write (i : QueueItem) (ws : list bytes) : QueueItem :=
  mkQueueItem (qi_number i) (qi_positionHint i) (writes threshold objectBufferSize (qi_stream i) ws).1.

(** [item.getBuffer()] *)
Definition item_buffer (i : QueueItem) : bytes := buffer (qi_stream i).

End items.

(** ** Package distributors *)

(** [None]: undefined behaviour.  A request is answered with messages to the
    node it came from. *)
Class Distributor `{!Positions} (D : Type) := {
  d_pushItem : D -> QueueItem -> option D;
  d_cmdGetItem : D -> Z -> GetItem -> option (D * list QueueMessage);
  d_clear : D -> D;
  d_setSlaveNodes : D -> list Z -> D;
}.

(** The items of a batch as messages: a flag, then the data; empty items are
    skipped. *)
Fixpoint send_items (items : list bytes) : list QueueMessage :=
  match items with
  | [] => []
  | item :: items => (if decide (item = []) then [] else [QItem (0 :: item)]) ++ send_items items
  end.

Definition item_replies (command : GetItem) (items : list bytes) : list QueueMessage :=
  send_items items ++
  (if gi_itemsRequested command >? Z.of_nat (length items) then [QEmpty (gi_requestID command)] else []).

Section distributors.

Context `{!Positions} {Q : Type -> Type} `{!MTQueue Q}.

(** [MTQueue::tryPop( num, result )]: up to [num] items from the front. *)
Fixpoint tryPop_loop (n : nat) (q : Q bytes) : Q bytes * list bytes :=
  match n with
  | O => (q, [])
  | S n => match q_pop q with
           | None => (q, [])
           | Some (item, q) => let '(q, items) := tryPop_loop n q in (q, item :: items)
           end
  end.

Definition tryPop (num : Z) (q : Q bytes) : Q bytes * list bytes :=
  tryPop_loop (Z.to_nat (Z.min num (q_getSize q))) q.

(** *** RandomDistributor *)

Record RandomDistributor := mkRandomDistributor { rd_queue : Q bytes }.

Definition random_pushItem (d : RandomDistributor) (item : QueueItem) : RandomDistributor :=
  mkRandomDistributor (q_push (rd_queue d) (item_buffer item)).

Definition random_cmdGetItem (d : RandomDistributor) (command : GetItem) :
    RandomDistributor * list QueueMessage :=
  let '(q, items) := tryPop (gi_itemsRequested command) (rd_queue d) in
  (mkRandomDistributor q, item_replies command items).

#[export] Instance random_Distributor : Distributor RandomDistributor := {
  d_pushItem d item := Some (random_pushItem d item);
  d_cmdGetItem d _ command := Some (random_cmdGetItem d command);
  d_clear d := d;
  d_setSlaveNodes d _ := d;
}.

(** *** EqualDistributor *)

Record EqualDistributor := mkEqualDistributor {
  ed_nodes : list Z;
  ed_nodeMap : gmap Z Z;
  ed_queues : list (Q bytes)
}.

Definition EqualDistributor_init : EqualDistributor := mkEqualDistributor [] ∅ [].

(** The initialisation on the first item: a queue per slave node. *)
Fixpoint number_nodes (i : Z) (nodes : list Z) (m : gmap Z Z) : gmap Z Z :=
  match nodes with
  | [] => m
  | n :: nodes => number_nodes (i + 1) nodes (<[n := i]> m)
  end.

Definition equal_setup (d : EqualDistributor) : EqualDistributor :=
  if decide (ed_nodeMap d = ∅)
  then mkEqualDistributor (ed_nodes d) (number_nodes 0 (ed_nodes d) ∅) (replicate (length (ed_nodes d)) q_empty)
  else d.

Definition nth_queue (d : EqualDistributor) (i : Z) : option (Q bytes) :=
  if i <? 0 then None else ed_queues d !! Z.to_nat i.

Definition set_queue (i : Z) (q : Q bytes) (d : EqualDistributor) : EqualDistributor :=
  mkEqualDistributor (ed_nodes d) (ed_nodeMap d) (<[Z.to_nat i := q]> (ed_queues d)).

Definition equal_pushItem (d : EqualDistributor) (item : QueueItem) : option EqualDistributor :=
  let d := equal_setup d in
  let pos := absPos (Z.of_nat (length (ed_nodes d))) (qi_positionHint item) in
  match nth_queue d pos with
  | Some q => Some (set_queue pos (q_push q (item_buffer item)) d)
  | None => None
  end.

(** [_nodeMap[ nodeID ]] adds a missing node with position 0. *)
Definition equal_cmdGetItem (d : EqualDistributor) (nodeID : Z) (command : GetItem) :
    option (EqualDistributor * list QueueMessage) :=
  let pos := default 0 (ed_nodeMap d !! nodeID) in
  let d := mkEqualDistributor (ed_nodes d) (<[nodeID := pos]> (ed_nodeMap d)) (ed_queues d) in
  match nth_queue d pos with
  | Some q =>
      let '(q, items) := tryPop (gi_itemsRequested command) q in
      Some (set_queue pos q d, item_replies command items)
  | None => None
  end.

Definition equal_setSlaveNodes (d : EqualDistributor) (nodes : list Z) : EqualDistributor :=
  mkEqualDistributor nodes (ed_nodeMap d) (ed_queues d).

#[export] Instance equal_Distributor : Distributor EqualDistributor := {
  d_pushItem := equal_pushItem;
  d_cmdGetItem := equal_cmdGetItem;
  d_clear d := d;
  d_setSlaveNodes := equal_setSlaveNodes;
}.

End distributors.

Arguments RandomDistributor Q : clear implicits.
Arguments EqualDistributor Q : clear implicits.

(** ** QueueMaster *)

Section master.

Context `{!Pression, !Lunchbox, !Positions} {D : Type} `{!Distributor D} {Q : Type -> Type} `{!MTQueue Q}.

Record QueueMaster := mkQueueMaster {
  qm_queue : Q bytes;
  qm_distributor : option D
}.

Definition QueueMaster_init : QueueMaster := mkQueueMaster q_empty None.

Definition master_cmdGetItem (m : QueueMaster) (node : Z) (command : GetItem) :
    option (QueueMaster * list QueueMessage) :=
  match qm_distributor m with
  | None => Some (m, [])
  | Some d =>
      match d_cmdGetItem d node command with
      | Some (d, out) => Some (mkQueueMaster (qm_queue m) (Some d), out)
      | None => None
      end
  end.

Definition master_clear (m : QueueMaster) : QueueMaster :=
  mkQueueMaster q_empty (d_clear <$> qm_distributor m).

Definition setPackageDistributor (m : QueueMaster) (distributor : option D) : QueueMaster :=
  mkQueueMaster (qm_queue m) distributor.

(** [_addItem], called by the destructor of an item; it uses the distributor
    without a check. *)
Definition _addItem (m : QueueMaster) (item : QueueItem) : option QueueMaster :=
  match qm_distributor m with
  | None => None
  | Some d => match d_pushItem d item with
              | Some d => Some (mkQueueMaster (qm_queue m) (Some d))
              | None => None
              end
  end.

Definition master_setSlaveNodes (m : QueueMaster) (nodes : list Z) : QueueMaster :=
  mkQueueMaster (qm_queue m) ((fun d => d_setSlaveNodes d nodes) <$> qm_distributor m).

Definition queue_getInstanceData (be : bool) (instanceID nodeID : Z) : list bytes :=
  write_item be 4 instanceID ++ write_u128 be nodeID.

End master.

Arguments QueueMaster D Q : clear implicits.

(** ** QueueSlave *)

Section slave.

Context `{!Lunchbox} {Q : Type -> Type} `{!MTQueue Q}.

Record QueueSlave := mkQueueSlave {
  qs_queue : Q QueueMessage;
  qs_masterInstanceID : Z;
  qs_prefetchMark : Z;
  qs_prefetchAmount : Z
}.

(** The two attributes are [IATTR_QUEUE_MIN_SIZE] and [IATTR_QUEUE_REFILL]. *)
Definition QueueSlave_init (minSize refill mark amount : Z) : QueueSlave :=
  mkQueueSlave q_empty CO_INSTANCE_ALL
    (if mark =? LB_UNDEFINED_UINT32 then minSize else mark)
    (if amount =? LB_UNDEFINED_UINT32 then refill else amount).

Definition set_qs_queue (q : Q QueueMessage) (sl : QueueSlave) : QueueSlave :=
  mkQueueSlave q (qs_masterInstanceID sl) (qs_prefetchMark sl) (qs_prefetchAmount sl).

(** A command for the slave is dispatched to its queue. *)
Definition slave_receive (sl : QueueSlave) (msg : QueueMessage) : QueueSlave :=
  set_qs_queue (q_push (qs_queue sl) msg) sl.

Section reading.

Context `{!Pression} {S : Type} `{!BufferSource S}.

(** [applyInstanceData]: the instance and the node of the master. *)
Definition queue_applyInstanceData (be : bool) (sl : QueueSlave) (ist : DataIStream S) :
    QueueSlave * Z * DataIStream S :=
  let '(instanceID, ist) := read_item be 4 (qs_masterInstanceID sl) ist in
  let '(masterNodeID, ist) := read_u128 be 0 ist in
  (mkQueueSlave (qs_queue sl) instanceID (qs_prefetchMark sl) (qs_prefetchAmount sl), masterNodeID, ist).

End reading.

(** [pop]: the number of the request, taken from a counter of the process. *)
Definition pop_begin (counter : Z) : Z := i32 (counter + 1).

(** The top of its loop: what is requested from the master. *)
Definition pop_request (sl : QueueSlave) (instanceID request : Z) : list GetItem :=
  if q_getSize (qs_queue sl) <=? qs_prefetchMark sl
  then [mkGetItem (qs_prefetchAmount sl) instanceID request] else [].

Inductive PopResult :=
| PopItem (data : bytes)
| PopEmpty
| PopAgain
| PopBlocked.

(** The rest of the loop: take a command, return or go on. *)
Definition pop_take (sl : QueueSlave) (request : Z) : PopResult * QueueSlave :=
  match q_pop (qs_queue sl) with
  | None => (PopBlocked, sl)
  | Some (cmd, q) =>
      (match cmd with
       | QItem data => PopItem data
       | QEmpty requestID => if requestID =? request then PopEmpty else PopAgain
       end, set_qs_queue q sl)
  end.

End slave.

Arguments QueueSlave Q : clear implicits.

(** ** What a distributor promises

    [d_items] are the items it holds, in some order. *)
Class DistributorOk `{!Pression, !Positions} (D : Type) `{!Distributor D} := {
  d_items : D -> list bytes;
  d_ok : D -> Prop;
  d_push_ok d item d' :
    d_ok d -> d_pushItem d item = Some d' -> d_ok d' /\ d_items d' ≡ₚ item_buffer item :: d_items d;
  d_get_ok d node command d' out :
    d_ok d -> d_cmdGetItem d node command = Some (d', out) ->
    d_ok d' /\ exists items, d_items d ≡ₚ items ++ d_items d' /\ out = item_replies command items /\
      (Z.of_nat (length items) <= Z.max 0 (gi_itemsRequested command));
}.

Section distributor_lemmas.

Context `{!Pression, !Positions} {Q : Type -> Type} `{!MTQueue Q, !MTQueueOk Q}.

Lemma tryPop_loop_spec n (q : Q bytes) :
  exists q', tryPop_loop n q = (q', take n (q_contents q)) /\ q_contents q' = drop n (q_contents q).
Proof.
  revert q. induction n as [|n IH]; intros q; cbn [tryPop_loop]; [by exists q|].
  pose proof (q_pop_spec q) as Hp. destruct (q_pop q) as [[x q']|]; rewrite Hp; [|by exists q].
  destruct (IH q') as (q'' & -> & Hq). by exists q''.
Qed.

Lemma tryPop_spec num (q : Q bytes) :
  exists q', tryPop num q = (q', take (Z.to_nat num) (q_contents q)) /\
    q_contents q' = drop (Z.to_nat num) (q_contents q).
Proof.
  unfold tryPop, q_getSize. destruct (tryPop_loop_spec (Z.to_nat (Z.min num (Z.of_nat (length (q_contents q))))) q)
    as (q' & -> & Hq). exists q'. rewrite Hq.
  destruct (Z.le_gt_cases num (Z.of_nat (length (q_contents q)))).
  - by rewrite Z.min_l.
  - rewrite Z.min_r, Nat2Z.id by lia. rewrite !take_ge, !drop_ge by lia. done.
Qed.

Lemma take_drop_spec num (l : list bytes) :
  l ≡ₚ take (Z.to_nat num) l ++ drop (Z.to_nat num) l /\
  Z.of_nat (length (take (Z.to_nat num) l)) <= Z.max 0 num.
Proof. rewrite take_drop, length_take. split; [done|lia]. Qed.

#[export] Instance random_DistributorOk : DistributorOk (RandomDistributor Q).
Proof.
  refine {| d_items d := q_contents (rd_queue d); d_ok _ := True |}.
  - intros d item d' _ [= <-]. cbn. rewrite q_contents_push. split; [done|]. symmetry. apply Permutation_cons_append.
  - intros d node command d' out _. cbn. unfold random_cmdGetItem.
    destruct (tryPop_spec (gi_itemsRequested command) (rd_queue d)) as (q' & -> & Hq). intros [= <- <-].
    split; [done|]. eexists. cbn. rewrite Hq. split; [apply take_drop_spec|]. split; [done|apply take_drop_spec].
Defined.

(** One of the queues of an [EqualDistributor] singled out. *)
Lemma nth_queue_split (d : EqualDistributor Q) i q :
  nth_queue d i = Some q ->
  exists l1 l2, ed_queues d = l1 ++ q :: l2 /\ forall q', ed_queues (set_queue i q' d) = l1 ++ q' :: l2.
Proof.
  unfold nth_queue. destruct (i <? 0); [done|]. intros Hi.
  exists (take (Z.to_nat i) (ed_queues d)), (drop (S (Z.to_nat i)) (ed_queues d)). split.
  - by rewrite take_drop_middle.
  - intros q'. cbn. by rewrite insert_take_drop by (by eapply lookup_lt_Some).
Qed.

Definition queued (l : list (Q bytes)) : list bytes := concat ((fun q : Q bytes => q_contents q) <$> l).

Lemma queued_middle l1 (q : Q bytes) l2 : queued (l1 ++ q :: l2) ≡ₚ q_contents q ++ queued (l1 ++ l2).
Proof. unfold queued. rewrite !fmap_app, fmap_cons, !concat_app. cbn. by rewrite Permutation_app_swap_app. Qed.

(** Items are only queued once the nodes are numbered. *)
Definition equal_ok (d : EqualDistributor Q) : Prop := ed_nodeMap d = ∅ -> queued (ed_queues d) = [].

Lemma set_queue_map i (q : Q bytes) d : ed_nodeMap (set_queue i q d) = ed_nodeMap d.
Proof. done. Qed.

Lemma number_nodes_nonempty i nodes (m : gmap Z Z) : m <> ∅ -> number_nodes i nodes m <> ∅.
Proof. revert i m. induction nodes as [|n nodes IH]; intros i m Hm; cbn; [done|]. apply IH, insert_non_empty. Qed.

Lemma equal_setup_spec (d : EqualDistributor Q) :
  equal_ok d -> queued (ed_queues (equal_setup d)) = queued (ed_queues d) /\
    forall i q, nth_queue (equal_setup d) i = Some q -> ed_nodeMap (equal_setup d) <> ∅.
Proof.
  intros Hok. unfold equal_setup. case_decide as Hm; [|done].
  assert (forall n, queued (replicate n q_empty) = []) as Hr.
  { induction n as [|n IH]; cbn; [done|]. unfold queued in *. cbn. by rewrite q_contents_empty. }
  cbn [ed_queues ed_nodeMap]. split; [by rewrite Hr, Hok|]. intros i q. unfold nth_queue. cbn. destruct (i <? 0); [done|].
  destruct (ed_nodes d) as [|n nodes]; [done|]. intros _. cbn. apply number_nodes_nonempty, insert_non_empty.
Qed.

#[export] Instance equal_DistributorOk : DistributorOk (EqualDistributor Q).
Proof.
  refine {| d_items d := queued (ed_queues d); d_ok := equal_ok |}.
  - intros d item d' Hok. cbn. unfold equal_pushItem. destruct (equal_setup_spec d Hok) as [Hq Hm].
    set (pos := absPos _ _). destruct (nth_queue (equal_setup d) pos) as [q|] eqn:E; [|done]. intros [= <-].
    split; [intros He; by destruct (Hm pos q E)|].
    destruct (nth_queue_split _ _ _ E) as (l1 & l2 & E1 & E2). rewrite <-Hq, E1, E2, !queued_middle, q_contents_push.
    by rewrite <-Permutation_cons_append.
  - intros d node command d' out Hok. cbn. unfold equal_cmdGetItem. set (pos := default 0 _).
    set (d1 := mkEqualDistributor _ _ _). destruct (nth_queue d1 pos) as [q|] eqn:E; [|done].
    destruct (tryPop_spec (gi_itemsRequested command) q) as (q' & -> & Hq). intros [= <- <-].
    split; [intros He; exfalso; by apply (insert_non_empty (ed_nodeMap d) node pos)|].
    destruct (nth_queue_split _ _ _ E) as (l1 & l2 & E1 & E2). eexists. split; [|split; [done|apply take_drop_spec]].
    change (ed_queues d) with (ed_queues d1). rewrite E1, E2, !queued_middle, Hq, app_assoc.
    apply Permutation_app_tail, take_drop_spec.
Defined.

End distributor_lemmas.

(** ** The distributed queue as a system

    A master and the consumers on other nodes; requests and replies are messages
    under way.  [qy_pushed] and [qy_popped] record the data of all items pushed
    and returned so far. *)

Section system.

Context `{!Pression, !Positions} {D : Type} `{!Distributor D, !DistributorOk D}.
Context {Q : Type -> Type} `{!MTQueue Q, !MTQueueOk Q}.
Context (consumers : list Z).

Record QueueSystem := mkQueueSystem {
  qy_dist : D;
  qy_slaves : Z -> QueueSlave Q;
  qy_counter : Z -> Z;
  qy_waiting : Z -> option Z;
  qy_requests : list (Z * GetItem);
  qy_replies : list (Z * QueueMessage);
  qy_pushed : list bytes;
  qy_popped : list bytes
}.

Inductive queue_step : QueueSystem -> QueueSystem -> Prop :=
(** An item is destroyed and so enqueued. *)
| q_step_push s item d :
    d_pushItem (qy_dist s) item = Some d ->
    queue_step s (mkQueueSystem d (qy_slaves s) (qy_counter s) (qy_waiting s) (qy_requests s) (qy_replies s)
      (qy_pushed s ++ [item_buffer item]) (qy_popped s))
(** A consumer calls [pop]. *)
| q_step_pop s n request instanceID :
    n ∈ consumers -> qy_waiting s n = None -> request = pop_begin (qy_counter s n) ->
    queue_step s (mkQueueSystem (qy_dist s) (qy_slaves s) (fset (qy_counter s) n request)
      (fset (qy_waiting s) n (Some request))
      (qy_requests s ++ (pair n <$> pop_request (qy_slaves s n) instanceID request)) (qy_replies s)
      (qy_pushed s) (qy_popped s))
(** A request reaches the master. *)
| q_step_master s l1 n command l2 d out :
    qy_requests s = l1 ++ (n, command) :: l2 ->
    d_cmdGetItem (qy_dist s) n command = Some (d, out) ->
    queue_step s (mkQueueSystem d (qy_slaves s) (qy_counter s) (qy_waiting s) (l1 ++ l2)
      (qy_replies s ++ (pair n <$> out)) (qy_pushed s) (qy_popped s))
(** A reply reaches its consumer. *)
| q_step_reply s l1 n msg l2 :
    qy_replies s = l1 ++ (n, msg) :: l2 ->
    queue_step s (mkQueueSystem (qy_dist s) (fset (qy_slaves s) n (slave_receive (qy_slaves s n) msg))
      (qy_counter s) (qy_waiting s) (qy_requests s) (l1 ++ l2) (qy_pushed s) (qy_popped s))
(** A waiting [pop] takes a command: it returns an item, ... *)
| q_step_item s n request data sl :
    n ∈ consumers -> qy_waiting s n = Some request -> pop_take (qy_slaves s n) request = (PopItem data, sl) ->
    queue_step s (mkQueueSystem (qy_dist s) (fset (qy_slaves s) n sl) (qy_counter s) (fset (qy_waiting s) n None)
      (qy_requests s) (qy_replies s) (qy_pushed s) (qy_popped s ++ [data]))
(** ... nothing, ... *)
| q_step_empty s n request sl :
    n ∈ consumers -> qy_waiting s n = Some request -> pop_take (qy_slaves s n) request = (PopEmpty, sl) ->
    queue_step s (mkQueueSystem (qy_dist s) (fset (qy_slaves s) n sl) (qy_counter s) (fset (qy_waiting s) n None)
      (qy_requests s) (qy_replies s) (qy_pushed s) (qy_popped s))
(** ... or goes on. *)
| q_step_again s n request instanceID sl :
    n ∈ consumers -> qy_waiting s n = Some request -> pop_take (qy_slaves s n) request = (PopAgain, sl) ->
    queue_step s (mkQueueSystem (qy_dist s) (fset (qy_slaves s) n sl) (qy_counter s) (qy_waiting s)
      (qy_requests s ++ (pair n <$> pop_request sl instanceID request)) (qy_replies s) (qy_pushed s) (qy_popped s))
(** The wait for a command times out. *)
| q_step_timeout s n request :
    n ∈ consumers -> qy_waiting s n = Some request ->
    queue_step s (mkQueueSystem (qy_dist s) (qy_slaves s) (qy_counter s) (fset (qy_waiting s) n None)
      (qy_requests s) (qy_replies s) (qy_pushed s) (qy_popped s)).

Definition queue_start (d : D) (mark amount : Z) : QueueSystem :=
  mkQueueSystem d (fun _ => QueueSlave_init mark amount mark amount) (fun _ => 0) (fun _ => None) [] [] [] [].

Inductive queue_reachable (d : D) (mark amount : Z) : QueueSystem -> Prop :=
| q_reach_start : queue_reachable d mark amount (queue_start d mark amount)
| q_reach_step s s' : queue_reachable d mark amount s -> queue_step s s' -> queue_reachable d mark amount s'.

(** *** Execution *)

Inductive QueueEvent :=
| EvPush (item : QueueItem)
| EvPop (n instanceID : Z)
| EvGet (i : nat)
| EvReply (i : nat)
| EvTake (n instanceID : Z).

Definition queue_exec (s : QueueSystem) (e : QueueEvent) : option QueueSystem :=
  match e with
  | EvPush item =>
      d ← d_pushItem (qy_dist s) item;
      Some (mkQueueSystem d (qy_slaves s) (qy_counter s) (qy_waiting s) (qy_requests s) (qy_replies s)
        (qy_pushed s ++ [item_buffer item]) (qy_popped s))
  | EvPop n instanceID =>
      if decide (n ∈ consumers /\ qy_waiting s n = None) then
        let request := pop_begin (qy_counter s n) in
        Some (mkQueueSystem (qy_dist s) (qy_slaves s) (fset (qy_counter s) n request)
          (fset (qy_waiting s) n (Some request))
          (qy_requests s ++ (pair n <$> pop_request (qy_slaves s n) instanceID request)) (qy_replies s)
          (qy_pushed s) (qy_popped s))
      else None
  | EvGet i =>
      '(n, command) ← qy_requests s !! i;
      '(d, out) ← d_cmdGetItem (qy_dist s) n command;
      Some (mkQueueSystem d (qy_slaves s) (qy_counter s) (qy_waiting s)
        (take i (qy_requests s) ++ drop (S i) (qy_requests s))
        (qy_replies s ++ (pair n <$> out)) (qy_pushed s) (qy_popped s))
  | EvReply i =>
      '(n, msg) ← qy_replies s !! i;
      Some (mkQueueSystem (qy_dist s) (fset (qy_slaves s) n (slave_receive (qy_slaves s n) msg))
        (qy_counter s) (qy_waiting s) (qy_requests s) (take i (qy_replies s) ++ drop (S i) (qy_replies s))
        (qy_pushed s) (qy_popped s))
  | EvTake n instanceID =>
      if decide (n ∈ consumers) then
        request ← qy_waiting s n;
        match pop_take (qy_slaves s n) request with
        | (PopItem data, sl) =>
            Some (mkQueueSystem (qy_dist s) (fset (qy_slaves s) n sl) (qy_counter s) (fset (qy_waiting s) n None)
              (qy_requests s) (qy_replies s) (qy_pushed s) (qy_popped s ++ [data]))
        | (PopEmpty, sl) =>
            Some (mkQueueSystem (qy_dist s) (fset (qy_slaves s) n sl) (qy_counter s) (fset (qy_waiting s) n None)
              (qy_requests s) (qy_replies s) (qy_pushed s) (qy_popped s))
        | (PopAgain, sl) =>
            Some (mkQueueSystem (qy_dist s) (fset (qy_slaves s) n sl) (qy_counter s) (qy_waiting s)
              (qy_requests s ++ (pair n <$> pop_request sl instanceID request)) (qy_replies s) (qy_pushed s) (qy_popped s))
        | (PopBlocked, _) => None
        end
      else None
  end.

Lemma queue_exec_step s e s' : queue_exec s e = Some s' -> queue_step s s'.
Proof.
  destruct e as [item|n iid|i|i|n iid]; cbn [queue_exec].
  - destruct (d_pushItem _ _) eqn:Hp; [|done]. intros [= <-]. by apply q_step_push.
  - case_decide as Hd; [|done]. intros [= <-]. destruct Hd. by apply q_step_pop.
  - destruct (qy_requests s !! i) as [[n c]|] eqn:Hi; [|done]. cbn.
    destruct (d_cmdGetItem _ _ _) as [[d out]|] eqn:Hg; [|done]. intros [= <-].
    eapply q_step_master; [|exact Hg]. by rewrite take_drop_middle.
  - destruct (qy_replies s !! i) as [[n m]|] eqn:Hi; [|done]. intros [= <-].
    eapply q_step_reply. by rewrite take_drop_middle.
  - case_decide as Hd; [|done]. destruct (qy_waiting s n) as [r|] eqn:Hw; [|done]. cbn.
    destruct (pop_take (qy_slaves s n) r) as [[data| | |] sl] eqn:Ht; intros [= <-].
    + by eapply q_step_item.
    + by eapply q_step_empty.
    + by eapply q_step_again.
Qed.

Lemma queue_exec_reachable d mark amount es s :
  foldl (fun o e => s ← o; queue_exec s e) (Some (queue_start d mark amount)) es = Some s ->
  queue_reachable d mark amount s.
Proof.
  revert s. induction es as [|e es IH] using rev_ind; intros s; cbn; [intros [= <-]; constructor|].
  rewrite foldl_app. cbn. destruct (foldl _ _ es) as [s0|] eqn:E; [|done]. cbn. intros Hs.
  eapply q_reach_step; [by apply IH|by eapply queue_exec_step].
Qed.

(** *** Exactly once *)

Context (Hnodup : NoDup consumers).

Definition nonempty (l : list bytes) : list bytes := filter (fun item => item <> []) l.

(** The data carried by messages and held by consumers. *)
Definition carried (l : list QueueMessage) : list bytes :=
  omap (fun m => match m with QItem data => Some data | QEmpty _ => None end) l.






Lemma pop_take_spec (sl sl' : QueueSlave Q) request r :
  pop_take sl request = (r, sl') ->
  match r with
  | PopItem data => q_contents (qs_queue sl) = QItem data :: q_contents (qs_queue sl')
  | PopEmpty => q_contents (qs_queue sl) = QEmpty request :: q_contents (qs_queue sl')
  | PopAgain => exists other, q_contents (qs_queue sl) = QEmpty other :: q_contents (qs_queue sl')
  | PopBlocked => q_contents (qs_queue sl) = []
  end /\ qs_prefetchMark sl' = qs_prefetchMark sl /\ qs_prefetchAmount sl' = qs_prefetchAmount sl.
Proof.
  unfold pop_take. pose proof (q_pop_spec (qs_queue sl)) as Hp. destruct (q_pop (qs_queue sl)) as [[m q]|].
  - destruct m as [data|other].
    + by intros [= <- <-].
    + destruct (Z.eqb_spec other request) as [->|]; intros [= <- <-]; split; try done. by exists other.
  - by intros [= <- <-].
Qed.



#[local] Instance nonempty_Proper : Proper ((≡ₚ) ==> (≡ₚ)) nonempty.
Proof. intros l1 l2 Hl. unfold nonempty. by rewrite Hl. Qed.

#[local] Instance carried_Proper : Proper ((≡ₚ) ==> (≡ₚ)) carried.
Proof. intros l1 l2 Hl. unfold carried. by rewrite Hl. Qed.







(** *** Every [pop] is answered *)

(** What a waiting consumer can expect: a command in its queue, a reply under way,
    or a request the master has not seen yet. *)
Definition expecting (s : QueueSystem) (n : Z) : Prop :=
  q_contents (qs_queue (qy_slaves s n)) <> [] \/ n ∈ (qy_replies s).*1 \/ n ∈ (qy_requests s).*1.

Record answering (mark amount : Z) (s : QueueSystem) : Prop := {
  an_dist : d_ok (qy_dist s);
  an_items : Forall (fun item => item ∈ qy_pushed s) (d_items (qy_dist s));
  an_slaves : forall n, qs_prefetchMark (qy_slaves s n) = mark /\ qs_prefetchAmount (qy_slaves s n) = amount;
  an_requests : Forall (fun e => gi_itemsRequested e.2 = amount) (qy_requests s);
  an_waiting : forall n r, qy_waiting s n = Some r -> expecting s n;
}.

(** A batch of non-empty items, or a batch that is too small, has an answer. *)
Lemma item_replies_nonempty command items :
  1 <= gi_itemsRequested command -> Forall (fun item => item <> []) items -> item_replies command items <> [].
Proof.
  intros Hr Hi. unfold item_replies. destruct items as [|i items]; cbn.
  - by rewrite gtb_true by lia.
  - apply Forall_cons in Hi as [Hi _]. by rewrite decide_False.
Qed.

(** At the top of the loop of [pop] there is something to expect. *)
Lemma pop_request_expecting (sl : QueueSlave Q) instanceID r (n : Z) :
  0 <= qs_prefetchMark sl ->
  q_contents (qs_queue sl) <> [] \/ n ∈ (pair n <$> pop_request sl instanceID r).*1.
Proof.
  intros Hm. unfold pop_request, q_getSize. destruct (q_contents (qs_queue sl)) as [|m l] eqn:E; [|by left]. right.
  cbn. rewrite (proj2 (Z.leb_le 0 _)) by done. cbn. left.
Qed.

Lemma pop_request_amount (sl : QueueSlave Q) instanceID r n amount :
  qs_prefetchAmount sl = amount ->
  Forall (fun e : Z * GetItem => gi_itemsRequested e.2 = amount) (pair n <$> pop_request sl instanceID r).
Proof. intros Ha. unfold pop_request. destruct (_ <=? _); cbn; by repeat constructor. Qed.

Lemma expecting_mono s s' n :
  q_contents (qs_queue (qy_slaves s n)) ⊆ q_contents (qs_queue (qy_slaves s' n)) ->
  (qy_replies s).*1 ⊆ (qy_replies s').*1 -> (qy_requests s).*1 ⊆ (qy_requests s').*1 ->
  expecting s n -> expecting s' n.
Proof.
  intros Hc Hrp Hrq [He|[He|He]]; [left|right; left|right; right]; [|by apply Hrp|by apply Hrq].
  destruct (q_contents (qs_queue (qy_slaves s n))) as [|m l]; [done|].
  intros Hn. rewrite Hn in Hc. by apply (not_elem_of_nil m), Hc; left.
Qed.


Section answered.

Context (mark amount : Z) (Hmark : 0 <= mark) (Hamount : 1 <= amount).

Lemma answering_push s item d :
  answering mark amount s -> d_pushItem (qy_dist s) item = Some d ->
  answering mark amount (mkQueueSystem d (qy_slaves s) (qy_counter s) (qy_waiting s) (qy_requests s) (qy_replies s)
      (qy_pushed s ++ [item_buffer item]) (qy_popped s)).
Proof.
  intros [Hd Hi Hs Hr Hw] Hp. destruct (d_push_ok _ _ _ Hd Hp) as [Hd' Hit]. split; try done.
  cbn. rewrite Hit. apply Forall_cons. split; [set_solver|]. eapply Forall_impl; [exact Hi|]. set_solver.
Qed.

Lemma answering_master s l1 n command l2 d out :
  answering mark amount s -> Forall (fun item => item <> []) (qy_pushed s) ->
  qy_requests s = l1 ++ (n, command) :: l2 -> d_cmdGetItem (qy_dist s) n command = Some (d, out) ->
  answering mark amount (mkQueueSystem d (qy_slaves s) (qy_counter s) (qy_waiting s) (l1 ++ l2)
      (qy_replies s ++ (pair n <$> out)) (qy_pushed s) (qy_popped s)).
Proof.
  intros [Hd Hi Hs Hr Hw] Hne Hreq Hg. destruct (d_get_ok _ _ _ _ _ Hd Hg) as (Hd' & items & Hit & -> & _).
  rewrite Hreq in Hr. apply Forall_app in Hr as [Hr1 [Hc Hr2]%Forall_cons]. cbn in Hc.
  rewrite Hit in Hi. apply Forall_app in Hi as [Hi1 Hi2]. split; try done; [by apply Forall_app|].
  intros m r Hm. specialize (Hw m r Hm). unfold expecting in *. cbn. rewrite Hreq in Hw.
  destruct (decide (m = n)) as [->|Hmn].
  - right. left. rewrite fmap_app, elem_of_app. right.
    assert (item_replies command items <> []) as Hrep.
    { apply item_replies_nonempty; [lia|]. eapply Forall_impl; [exact Hi1|]. intros item Hin.
      rewrite Forall_forall in Hne. by apply Hne. }
    destruct (item_replies command items) as [|m l]; [done|]. left.
  - rewrite !fmap_app, fmap_cons in *. set_solver.
Qed.

Lemma answering_reply s l1 n msg l2 :
  answering mark amount s -> qy_replies s = l1 ++ (n, msg) :: l2 ->
  answering mark amount (mkQueueSystem (qy_dist s) (fset (qy_slaves s) n (slave_receive (qy_slaves s n) msg))
      (qy_counter s) (qy_waiting s) (qy_requests s) (l1 ++ l2) (qy_pushed s) (qy_popped s)).
Proof.
  intros [Hd Hi Hs Hr Hw] Hrep. split; try done; cbn.
  - intros m. unfold fset. destruct (_ =? _); apply Hs.
  - intros m r Hm. specialize (Hw m r Hm). unfold expecting in *. cbn. rewrite Hrep in Hw.
    destruct (decide (m = n)) as [->|Hmn].
    + left. rewrite fset_eq. cbn. rewrite q_contents_push. by destruct (q_contents _).
    + rewrite fset_ne by done. rewrite !fmap_app, fmap_cons in *. set_solver.
Qed.

(** A step of the consumer [n] alone: its new state, whether it still waits, and
    the requests it adds. *)
Lemma answering_local s n sl counter waiting added popped :
  answering mark amount s ->
  qs_prefetchMark sl = mark -> qs_prefetchAmount sl = amount ->
  Forall (fun e => gi_itemsRequested e.2 = amount) added ->
  (forall m, m <> n -> waiting m = qy_waiting s m) ->
  (waiting n = None \/ q_contents (qs_queue sl) <> [] \/ n ∈ added.*1) ->
  answering mark amount (mkQueueSystem (qy_dist s) (fset (qy_slaves s) n sl) counter waiting
      (qy_requests s ++ added) (qy_replies s) (qy_pushed s) popped).
Proof.
  intros [Hd Hi Hs Hr Hw] Hm Ha Hadd Hother Hn. split; try done; cbn.
  - intros m. unfold fset. by destruct (_ =? _).
  - by apply Forall_app.
  - intros m r. destruct (decide (m = n)) as [->|Hmn].
    + intros Hwn. unfold expecting. cbn. rewrite fset_eq, fmap_app, elem_of_app.
      destruct Hn as [|[]]; [congruence|auto..].
    + rewrite Hother by done. intros Hwm. specialize (Hw m r Hwm). unfold expecting in *. cbn.
      rewrite fset_ne, fmap_app, elem_of_app by done. naive_solver.
Qed.

(** A step that leaves the slaves alone, as a local step. *)
Lemma answering_same s n counter waiting added popped :
  answering mark amount s ->
  Forall (fun e => gi_itemsRequested e.2 = amount) added ->
  (forall m, m <> n -> waiting m = qy_waiting s m) ->
  (waiting n = None \/ q_contents (qs_queue (qy_slaves s n)) <> [] \/ n ∈ added.*1) ->
  answering mark amount (mkQueueSystem (qy_dist s) (qy_slaves s) counter waiting
      (qy_requests s ++ added) (qy_replies s) (qy_pushed s) popped).
Proof.
  intros Hok Hadd Hother Hn. destruct (an_slaves _ _ _ Hok n) as [Hm Ha].
  pose proof (answering_local s n (qy_slaves s n) counter waiting added popped Hok Hm Ha Hadd Hother Hn) as [Hd Hi Hs Hr Hw].
  cbn in *. split; try done; [apply Hok|].
  cbn. intros m r Hwm. specialize (Hw m r Hwm). unfold expecting, fset in *. cbn in *.
  destruct (Z.eqb_spec m n) as [Hmn|]; [by rewrite Hmn in *|done].
Qed.

Lemma answering_step s s' :
  answering mark amount s -> Forall (fun item => item <> []) (qy_pushed s) -> queue_step s s' ->
  answering mark amount s'.
Proof.
  intros Hok Hne Hs.
  destruct Hs as [s item d Hp|s n r iid Hn Hw ->|s l1 n c l2 d out Hr Hg|s l1 n msg l2 Hr|s n r data sl Hn Hw Ht
    |s n r sl Hn Hw Ht|s n r iid sl Hn Hw Ht|s n r Hn Hw].
  - by apply answering_push.
  - destruct (an_slaves _ _ _ Hok n) as [Hm Ha]. apply (answering_same s n); try done.
    + by apply pop_request_amount.
    + intros m Hmn. by apply fset_ne.
    + right. apply pop_request_expecting. lia.
  - by eapply answering_master.
  - by apply answering_reply.
  - destruct (an_slaves _ _ _ Hok n) as [Hm Ha]. apply pop_take_spec in Ht as (_ & Hm' & Ha').
    rewrite <-(app_nil_r (qy_requests s)). apply answering_local; try done; try congruence.
    + intros m Hmn. by apply fset_ne.
    + left. apply fset_eq.
  - destruct (an_slaves _ _ _ Hok n) as [Hm Ha]. apply pop_take_spec in Ht as (_ & Hm' & Ha').
    rewrite <-(app_nil_r (qy_requests s)). apply answering_local; try done; try congruence.
    + intros m Hmn. by apply fset_ne.
    + left. apply fset_eq.
  - destruct (an_slaves _ _ _ Hok n) as [Hm Ha]. apply pop_take_spec in Ht as (_ & Hm' & Ha').
    apply answering_local; try done; try congruence.
    + apply pop_request_amount. congruence.
    + right. apply pop_request_expecting. lia.
  - rewrite <-(app_nil_r (qy_requests s)). apply (answering_same s n); try done.
    + intros m Hmn. by apply fset_ne.
    + left. apply fset_eq.
Qed.

Lemma queue_step_pushed s s' : queue_step s s' -> qy_pushed s `prefix_of` qy_pushed s'.
Proof. destruct 1; cbn; [by eexists|reflexivity..]. Qed.

Lemma queue_reachable_answering d s :
  d_ok d -> d_items d = [] -> queue_reachable d mark amount s -> Forall (fun item => item <> []) (qy_pushed s) -> answering mark amount s.
Proof.
  intros Hd Hi Hr. induction Hr as [|s s' _ IH Hs]; intros Hne.
  - split; cbn; try done; [by rewrite Hi|]. intros n. by destruct (mark =? _), (amount =? _).
  - assert (Forall (fun item => item <> []) (qy_pushed s)) as Hne'.
    { destruct (queue_step_pushed _ _ Hs) as [l Hl]. rewrite Hl in Hne. by apply Forall_app in Hne as [? _]. }
    eapply answering_step; try done. by apply IH.
Qed.

End answered.

(** C37: A [pop] is always answered.  If no item pushed was empty and slaves ask for
    at least one item, then in every reachable state a consumer inside [pop] has a
    command in its queue, a reply under way, or a request the master has not
    handled yet: it never waits for nothing. *)
Theorem queue_pop_answered d mark amount s n r :
  d_ok d -> d_items d = [] -> 0 <= mark -> 1 <= amount ->
  queue_reachable d mark amount s -> Forall (fun item => item <> []) (qy_pushed s) ->
  qy_waiting s n = Some r -> expecting s n.
Proof.
  intros Hd Hi Hm Ha Hr Hne Hw. apply (queue_reachable_answering mark amount Hm Ha d s) in Hr as []; eauto.
Qed.

End system.

(** ** Empty items *)

Section empty_items.

Context `{!Pression, !Positions} {Q : Type -> Type} `{!MTQueue Q, !MTQueueOk Q}.

Abbreviation random_system := (@QueueSystem (RandomDistributor Q) Q).

(** Pushing [k] items without data. *)
Lemma push_empty_items (consumers : list Z) mark amount k :
  exists s : random_system, queue_reachable consumers (mkRandomDistributor q_empty) mark amount s /\
    q_contents (rd_queue (qy_dist s)) = replicate k [] /\ qy_pushed s = replicate k [] /\
    qy_slaves s = (fun _ => QueueSlave_init mark amount mark amount) /\ qy_counter s = (fun _ => 0) /\
    qy_waiting s = (fun _ => None) /\ qy_requests s = [] /\ qy_replies s = [].
Proof.
  induction k as [|k (s & Hr & Hd & Hp & Hs & Hc & Hw & Hq & Ha)].
  - eexists. split; [apply q_reach_start|]. cbn. by rewrite q_contents_empty.
  - set (item := (QueueItem_new 0 0 false).1).
    eexists. split; [eapply q_reach_step; [exact Hr|]; by apply (q_step_push _ _ item)|]. cbn.
    rewrite q_contents_push, Hd, Hp. rewrite <-replicate_cons_app. done.
Qed.

Lemma send_items_empty n : send_items (replicate n []) = [].
Proof. induction n as [|n IH]; cbn; [done|]. by rewrite IH. Qed.

(** Empty items stall a consumer.  After [amount] items without data were
    pushed, a consumer that calls [pop] waits although no request is open, no
    reply is under way and the distributor is empty: the master drops the empty
    items without an answer, because it counts them as delivered. *)
Theorem queue_empty_items_stall (consumers : list Z) mark amount n :
  0 <= mark -> 1 <= amount -> n ∈ consumers ->
  exists s : random_system, queue_reachable consumers (mkRandomDistributor q_empty) mark amount s /\
    length (qy_pushed s) = Z.to_nat amount /\ qy_waiting s n = Some 1 /\
    qy_requests s = [] /\ qy_replies s = [] /\ q_contents (rd_queue (qy_dist s)) = [] /\
    q_contents (qs_queue (qy_slaves s n)) = [].
Proof.
  intros Hm Ha Hn. destruct (push_empty_items consumers mark amount (Z.to_nat amount))
    as (s & Hr & Hd & Hp & Hs & Hc & Hw & Hq & Hrep).
  set (sl := qy_slaves s n). assert (q_contents (qs_queue sl) = []) as Hsl by (subst sl; rewrite Hs; cbn; apply q_contents_empty).
  assert (pop_request sl 0 1 = [mkGetItem amount 0 1]) as Hreq.
  { unfold pop_request, q_getSize. rewrite Hsl. subst sl. rewrite Hs. cbn.
    destruct (mark =? _), (amount =? _); by rewrite (proj2 (Z.leb_le (Z.of_nat 0) mark)). }
  assert (d_cmdGetItem (qy_dist s) n (mkGetItem amount 0 1) = Some (mkRandomDistributor (tryPop amount (rd_queue (qy_dist s))).1, [])) as Hg.
  { cbn. unfold random_cmdGetItem. cbn. destruct (tryPop_spec amount (rd_queue (qy_dist s))) as (q' & -> & _).
    rewrite Hd, take_ge by (rewrite length_replicate; lia). cbn. unfold item_replies.
    rewrite send_items_empty, length_replicate. cbn. rewrite gtb_false by lia. done. }
  eexists. split; [eapply q_reach_step; [eapply q_reach_step; [exact Hr|eapply (q_step_pop _ _ n _ 0); [done|by rewrite Hw|done]]|]|].
  { eapply (q_step_master _ _ [] n (mkGetItem amount 0 1) []); [|exact Hg]. cbn. rewrite Hq, Hc. cbn.
    change (pop_begin 0) with 1. fold sl. by rewrite Hreq. }
  cbn. rewrite Hp, length_replicate, fset_eq, Hc, Hrep. destruct (tryPop_spec amount (rd_queue (qy_dist s))) as (q' & -> & Hq').
  cbn. rewrite Hq', Hd, drop_ge by (rewrite length_replicate; lia). fold sl. by rewrite Hsl.
Qed.

End empty_items.

(** ** Witnesses: two consumers, positions in percent *)

#[local] Instance percent_Positions : Positions := {| float := Z; zero := 0; absPos n pos := n * pos / 100 |}.
#[local] Existing Instance store_Pression.

Definition sample_equal : EqualDistributor list := equal_setSlaveNodes EqualDistributor_init [1; 2].

(** An item for the second consumer. *)
Definition sample_item : QueueItem :=
  item_write 0 100 (setPositionHint 60 (QueueItem_new 0 0 false).1) [[5]; [6; 7]].

Definition sample_events : list QueueEvent :=
  [EvPush sample_item; EvPush sample_item; EvPop 2 9; EvGet 0; EvReply 0; EvPop 1 8; EvTake 2 9].

Lemma sample_queue_run :
  exists s, queue_reachable (Q := list) [1; 2] sample_equal 0 1 s /\ qy_pushed s = [[5; 6; 7]; [5; 6; 7]] /\
    qy_popped s = [[0; 5; 6; 7]] /\ qy_waiting s 1 = Some 1 /\ d_items (qy_dist s) = [[5; 6; 7]].
Proof.
  destruct (foldl (fun o e => s ← o; queue_exec (Q := list) [1; 2] s e) (Some (queue_start sample_equal 0 1)) sample_events)
    as [s|] eqn:E; [|by vm_compute in E].
  exists s. split; [by eapply queue_exec_reachable|].
  assert (option_map (fun s => (qy_pushed s, qy_popped s, qy_waiting s 1, d_items (qy_dist s)))
    (foldl (fun o e => s ← o; queue_exec (Q := list) [1; 2] s e) (Some (queue_start sample_equal 0 1)) sample_events)
    = Some ([[5; 6; 7]; [5; 6; 7]], [[0; 5; 6; 7]], Some 1, [[5; 6; 7]])) as Hs by (by vm_compute).
  rewrite E in Hs. clear E. injection Hs as H1 H2 H3 H4. exact (conj H1 (conj H2 (conj H3 H4))).
Qed.


Lemma queue_pop_answered_witness :
  exists s, qy_waiting s 1 = Some 1 /\ d_items (qy_dist s) = [[5; 6; 7]] /\ expecting (D := EqualDistributor list) (Q := list) s 1.
Proof.
  destruct sample_queue_run as (s & Hr & Hp & _ & Hw & Hi). exists s. split; [done|]. split; [done|].
  apply (queue_pop_answered [1; 2]) with (d := sample_equal) (mark := 0) (amount := 1) (r := 1).
  - by apply (bool_decide_unpack (NoDup [1; 2])).
  - intros _. reflexivity.
  - reflexivity.
  - lia.
  - lia.
  - exact Hr.
  - rewrite Hp. by repeat constructor.
  - exact Hw.
Defined.

Lemma queue_empty_items_stall_witness :
  exists s : @QueueSystem (RandomDistributor list) list,
    queue_reachable [4] (mkRandomDistributor q_empty) 0 2 s /\
    length (qy_pushed s) = 2%nat /\ qy_waiting s 4 = Some 1 /\
    qy_requests s = [] /\ qy_replies s = [] /\ q_contents (rd_queue (qy_dist s)) = [] /\
    q_contents (qs_queue (qy_slaves s 4)) = [].
Proof. apply (queue_empty_items_stall [4] 0 2 4); [lia..|set_solver]. Defined.
