(* ===== verification/Steal.v ===== *)
(** * Work stealing and load-aware distribution (co/stealingQueueSlave.cpp,
    stealingQueueMaster.cpp, loadAwareDistributor.cpp)

    The master of a stealing queue hands each item to one of its slaves as soon as
    it is pushed, and the distributor chooses the slave.  A slave keeps a left and
    a right queue, consumes from the right one, and its thief steals items of the
    left queues of other slaves.  Progress messages to the console, and the
    connection data exchanged between slaves, are left out. *)

From S2P Require Import Prelude Bytes Lunchbox DataOStream DataIStream Serialize Transfer Commands.

(** ** LoadAwareDistributor *)

Definition ITEMS_TO_SEND : Z := 25.

(** [itemsToSend] is an [int], the draw times are [int64_t] and [tasksSent] is a
    [uint32_t]; signed arithmetic wraps around as the compilers the code is built
    with do it. *)
Definition i64 (x : Z) : Z := u64 (x + 9223372036854775808) - 9223372036854775808.

Record SlaveInfo := mkSlaveInfo { si_itemsToSend : Z; si_drawLeft : Z; si_drawRight : Z; si_tasksSent : Z; si_starving : bool }.

Definition SlaveInfo_init : SlaveInfo := mkSlaveInfo ITEMS_TO_SEND 0 0 0 false.

(** [drawTimes[ queue ]], with the right queue for [true] *)
Definition drawTimes (info : SlaveInfo) (queue : bool) : Z := if queue then si_drawRight info else si_drawLeft info.

Abbreviation SlaveInfos := (gmap Z SlaveInfo).

Definition getSlaveInfo (nodeID : Z) (infos : SlaveInfos) : SlaveInfo * SlaveInfos :=
  match infos !! nodeID with
  | None => (SlaveInfo_init, <[nodeID := SlaveInfo_init]> infos)
  | Some info => (info, infos)
  end.

(** One pass of the loop of [adjustMapping]; the index is computed in [size_t]. *)
Definition adjust_pass (nodes : list Z) (right : bool) (i : Z) (s : Z * bool * Z * bool * SlaveInfos) : Z * bool * Z * bool * SlaveInfos :=
  let '(nodeIndex, nodeQueue, minTime, firstRun, infos) := s in
  let index := u64 (nodeIndex + i + (if right then 0 else -1)) `mod` Z.of_nat (length nodes) in
  let '(info, infos) := getSlaveInfo (nodes !!! Z.to_nat index) infos in
  let queue := if index =? nodeIndex then right else negb right in
  let drawTime := drawTimes info queue in
  if drawTime <? minTime then
    if firstRun then (nodeIndex, nodeQueue, u32 drawTime, false, infos) else (index, queue, u32 drawTime, false, infos)
  else (nodeIndex, nodeQueue, minTime, firstRun, infos).

Definition adjustMapping (nodes : list Z) (nodeIndex : Z) (right : bool) (infos : SlaveInfos) : Z * bool * SlaveInfos :=
  let '(index, queue, _, _, infos) :=
    adjust_pass nodes right 1 (adjust_pass nodes right 0 (nodeIndex, right, 4294967295, true, infos)) in
  (index, queue, infos).

Definition notifyQueueEnd (infos : SlaveInfos) : SlaveInfos :=
  (fun info => mkSlaveInfo ITEMS_TO_SEND (si_drawLeft info) (si_drawRight info) (si_tasksSent info) (si_starving info)) <$> infos.

(** The limit above which a slave counts as starving: two deviations above the
    average, truncated to an [int]; [~0 / 2] is 0.  The sums are computed in [int];
    a negative variance, which only overflow gives, has no root, and what does not
    fit is converted to the smallest [int]. *)
Definition trunc_sqrt (avg var : Z) : Z :=
  let s := Z.sqrt (4 * var) in
  if (0 <=? avg + s) || (s * s =? 4 * var) then avg + s else avg + s + 1.

Definition min_int : Z := -2147483648.
Definition to_int (x : Z) : Z := if (min_int <=? x) && (x <? 2147483648) then x else min_int.

Definition starving_limit (infos : SlaveInfos) : Z :=
  if (1 <? Z.of_nat (size infos)) then
    let counters := (fun x : Z * SlaveInfo => si_itemsToSend x.2) <$> map_to_list infos in
    let size := Z.of_nat (size infos) in
    let avg := foldl (fun avg x => i32 (avg + x)) 0 counters `quot` size in
    let var := foldl (fun var x => let dist := i32 (avg - x) in i32 (var + i32 (dist * dist))) 0 counters `quot` (size - 1) in
    if var <? 0 then min_int else to_int (trunc_sqrt avg var)
  else 0.

(** The nearest starving slave: the inner loop looks left, here and right, and
    stops at the first one; the outer loop goes on from there. *)
Fixpoint search_inner (nodes : list Z) (limit j : Z) (steps : list Z) (s : Z * bool * SlaveInfos) : Z * bool * SlaveInfos :=
  match steps with
  | [] => s
  | i :: steps =>
      let '(nodeIndex, right_, infos) := s in
      let index := nodeIndex + j * i in
      if (0 <=? index) && (index <? Z.of_nat (length nodes)) then
        let '(info, infos) := getSlaveInfo (nodes !!! Z.to_nat index) infos in
        if si_itemsToSend info >? limit then (index, drawTimes info true <? drawTimes info false, infos)
        else search_inner nodes limit j steps (nodeIndex, right_, infos)
      else search_inner nodes limit j steps (nodeIndex, right_, infos)
  end.

Definition search_starving (nodes : list Z) (limit : Z) (s : Z * bool * SlaveInfos) : Z * bool * SlaveInfos :=
  foldl (fun s j => search_inner nodes limit (Z.of_nat j) [-1; 0; 1] s) s (seq 0 (length nodes)).

(** One pass of the loop of [pushItem]: the slave and the queue the item is sent to,
    or another pass.  [nodeIndex] and [right] are first taken from the position
    hint and are kept from pass to pass. *)
Definition push_pass (nodes : list Z) (s : Z * bool * SlaveInfos) : option (Z * bool) * (Z * bool * SlaveInfos) :=
  let '(_, _, infos) := s in
  let '(nodeIndex, right_, infos) := search_starving nodes (starving_limit infos) s in
  let '(nodeIndex, nodeQueue, infos) := adjustMapping nodes nodeIndex right_ infos in
  let nodeID := nodes !!! Z.to_nat nodeIndex in
  let '(info, _) := getSlaveInfo nodeID infos in
  if si_itemsToSend info >=? 0 then
    (Some (nodeID, nodeQueue),
     (nodeIndex, right_, <[nodeID := mkSlaveInfo (i32 (si_itemsToSend info - 1)) (si_drawLeft info) (si_drawRight info) (u32 (si_tasksSent info + 1)) false]> infos))
  else (None, (nodeIndex, right_, infos)).

(** [cmdSlaveFeedback]: [None] for a slave nothing was sent to yet, whose entry is a
    null pointer. *)
Definition cmdSlaveFeedback (nodeID : Z) (starving : bool) (time : Z) (right : bool) (infos : SlaveInfos) : option SlaveInfos :=
  info ← infos !! nodeID;
  Some (<[nodeID :=
    if starving then mkSlaveInfo (i32 (si_itemsToSend info + ITEMS_TO_SEND)) (si_drawLeft info) (si_drawRight info) (si_tasksSent info) true
    else if right then mkSlaveInfo (si_itemsToSend info) (si_drawLeft info) (i64 (si_drawRight info + time)) (si_tasksSent info) (si_starving info)
    else mkSlaveInfo (si_itemsToSend info) (i64 (si_drawLeft info + time)) (si_drawRight info) (si_tasksSent info) (si_starving info)]> infos).

(** ** StealingQueueSlave *)

(** An item is the buffer of the command it came with. *)
Abbreviation Item := bytes (only parsing).

Record Victim := mkVictim { v_node : Z; v_timeout : Z }.

(** The commands of a slave.  [CSteal] carries the ratio, the instance of the thief
    and the number of its request. *)
Inductive SlaveCommand :=
| CItemLeft (item : Item)
| CItemRight (item : Item)
| CMasterQueueEmpty
| CSteal (ratio slaveInstanceID requestID : Z)
| CDeny (requestID : Z)
| CDenyMaster (requestID : Z)
| CStolen (item : Item)
| CEmpty (itemsDelivered : Z).

Record StealingQueueSlave := mkStealingQueueSlave {
  sq_left : list Item;
  sq_right : list Item;
  sq_mark : Z;
  sq_masterFinished : bool;
  th_cmdQueue : list (Z * SlaveCommand);
  th_victims : list Victim;
  th_cVictim : Z;
  th_nNodes : Z
}.

Definition set_sq_left (x : list Item) (q : StealingQueueSlave) : StealingQueueSlave :=
  mkStealingQueueSlave x (sq_right q) (sq_mark q) (sq_masterFinished q) (th_cmdQueue q) (th_victims q) (th_cVictim q) (th_nNodes q).
Definition set_sq_right (x : list Item) (q : StealingQueueSlave) : StealingQueueSlave :=
  mkStealingQueueSlave (sq_left q) x (sq_mark q) (sq_masterFinished q) (th_cmdQueue q) (th_victims q) (th_cVictim q) (th_nNodes q).
Definition set_sq_masterFinished (x : bool) (q : StealingQueueSlave) : StealingQueueSlave :=
  mkStealingQueueSlave (sq_left q) (sq_right q) (sq_mark q) x (th_cmdQueue q) (th_victims q) (th_cVictim q) (th_nNodes q).
Definition set_th_cmdQueue (x : list (Z * SlaveCommand)) (q : StealingQueueSlave) : StealingQueueSlave :=
  mkStealingQueueSlave (sq_left q) (sq_right q) (sq_mark q) (sq_masterFinished q) x (th_victims q) (th_cVictim q) (th_nNodes q).
Definition set_th_victims (x : list Victim) (q : StealingQueueSlave) : StealingQueueSlave :=
  mkStealingQueueSlave (sq_left q) (sq_right q) (sq_mark q) (sq_masterFinished q) (th_cmdQueue q) x (th_cVictim q) (th_nNodes q).
Definition set_th_cVictim (x : Z) (q : StealingQueueSlave) : StealingQueueSlave :=
  mkStealingQueueSlave (sq_left q) (sq_right q) (sq_mark q) (sq_masterFinished q) (th_cmdQueue q) (th_victims q) x (th_nNodes q).

Definition StealingQueueSlave_init (mark : Z) : StealingQueueSlave := mkStealingQueueSlave [] [] mark false [] [] 0 0.

(** *** Victims *)

Fixpoint find_victim (node : Z) (l : list Victim) : option (Victim * list Victim) :=
  match l with
  | [] => None
  | v :: l => if v_node v =? node then Some (v, l) else '(w, l) ← find_victim node l; Some (w, v :: l)
  end.

(** [setupVictims] with the nodes known, in the order [random_shuffle] gives them *)
Definition setupVictims (shuffle : list Victim -> list Victim) (nodes : list Z) (master me now : Z) (q : StealingQueueSlave) : StealingQueueSlave :=
  if th_nNodes q =? Z.of_nat (length nodes) then q
  else
    mkStealingQueueSlave (sq_left q) (sq_right q) (sq_mark q) (sq_masterFinished q) (th_cmdQueue q)
      (shuffle ((fun n => mkVictim n now) <$> filter (fun n => n <> master /\ n <> me) nodes)) 0 (Z.of_nat (length nodes)).

Definition relegateVictim (node now : Z) (q : StealingQueueSlave) : StealingQueueSlave :=
  match find_victim node (th_victims q) with
  | Some (_, l) => set_th_victims (mkVictim node (now + 100) :: l) q
  | None => q
  end.

Definition eraseVictim (node : Z) (q : StealingQueueSlave) : StealingQueueSlave :=
  match find_victim node (th_victims q) with
  | Some (_, l) => set_th_victims l q
  | None => q
  end.

Section slave.

Context `{!Pression, !Lunchbox} (be : bool).

(** *** Being stolen from *)

#[local] Hint Extern 0 (BufferSource CommandBuffer) => exact (CommandBuffer_source be) : typeclass_instances.

(** What is sent on of an item: as many bytes as its command has, read after the
    header of the command into a buffer of zeros.  [None] for an invalid command,
    which is dropped. *)
Definition stolen_data (buffer : bytes) : option bytes :=
  let item := ICommand_new be (Some buffer) false in
  if isValid item then
    let '(_, item) := read_field (read_u128 be) 0 item in
    let '(_, item) := read_field (read_item be 4) CO_INSTANCE_INVALID item in
    let size := ic_size item in
    Some (default (replicate (Z.to_nat size) 0) (read_ (S := CommandBuffer) be size (ic_stream item)).1)
  else None.

(** The identifier of the queue object, and the command of a stolen item *)
Context (objectID : Z).

Definition CMD_QUEUE_STOLEN_ITEM : Z := 21.

Definition stolen_buffer (slaveInstanceID : Z) (data : bytes) : bytes :=
  rheader be (36 + size_of data) COMMANDTYPE_OBJECT CMD_QUEUE_STOLEN_ITEM ++ enc128 be objectID ++ enc be 4 slaveInstanceID ++ data.

Definition stolen_item (slaveInstanceID : Z) (item : Item) : option Item :=
  data ← stolen_data item; Some (stolen_buffer slaveInstanceID data).

(** [cmdStealItem] of the slave: the items taken, and the commands sent back *)
Definition cmdStealItem (from now ratio slaveInstanceID requestID : Z) (q : StealingQueueSlave) :
    StealingQueueSlave * list Item * list SlaveCommand :=
  let itemsRequested := u32 (u64 (ratio * Z.of_nat (length (sq_left q))) `div` 255) in
  if itemsRequested <? 1 then (q, [], [CDeny requestID])
  else
    let q := relegateVictim from now q in
    let items := take (Z.to_nat itemsRequested) (sq_left q) in
    let q := set_sq_left (drop (Z.to_nat itemsRequested) (sq_left q)) q in
    let delivered := omap (stolen_item slaveInstanceID) items in
    let itemsDelivered := Z.of_nat (length delivered) in
    (q, items, (CStolen <$> delivered) ++ (if 0 <? itemsDelivered then [CEmpty itemsDelivered] else [])).

(** [cmdStealItem] of the master *)
Definition master_cmdStealItem (requestID : Z) : SlaveCommand := CDenyMaster requestID.

(** The other handlers, which run in the command thread: items are queued, replies
    are passed to the thief. *)
Definition slave_receive (from : Z) (cmd : SlaveCommand) (q : StealingQueueSlave) : StealingQueueSlave :=
  match cmd with
  | CItemLeft item => set_sq_left (sq_left q ++ [item]) q
  | CItemRight item => set_sq_right (sq_right q ++ [item]) q
  | CMasterQueueEmpty => set_sq_masterFinished true q
  | CSteal _ _ _ => q
  | CDeny _ | CDenyMaster _ | CStolen _ | CEmpty _ => set_th_cmdQueue (th_cmdQueue q ++ [(from, cmd)]) q
  end.

(** *** The thief *)

(** [Thief::run] up to the request: the victim that is asked, if any *)
Definition thief_ask (now : Z) (q : StealingQueueSlave) : option Z * StealingQueueSlave :=
  if Z.of_nat (length (sq_left q)) <=? sq_mark q then
    match th_victims q !! Z.to_nat (th_cVictim q) with
    | Some victim =>
        let q := set_th_cVictim ((th_cVictim q + 1) `mod` Z.of_nat (length (th_victims q))) q in
        if now >=? v_timeout victim then (Some (v_node victim), q) else (None, q)
    | None => (None, q)
    end
  else (None, q).

(** One reply: whether the thief goes on receiving. *)
Definition thief_receive (now request : Z) (q : StealingQueueSlave) : option (bool * StealingQueueSlave) :=
  match th_cmdQueue q with
  | [] => None
  | (from, cmd) :: cmds =>
      let q := set_th_cmdQueue cmds q in
      match cmd with
      | CStolen item => Some (true, set_sq_left (sq_left q ++ [item]) q)
      | CDeny requestID => if requestID =? request then Some (false, relegateVictim from now q) else Some (true, q)
      | CDenyMaster _ => Some (false, eraseVictim from q)
      | CEmpty _ => Some (false, q)
      | _ => None
      end
  end.

(** *** Consuming *)

(** Whether [pop] first tells the master that it is starving *)
Definition pop_starving (q : StealingQueueSlave) : bool := Z.of_nat (length (sq_left q) + length (sq_right q)) <? sq_mark q.

Inductive PopResult := PopItem (item : Item) | PopNone | PopAgain.

(** One pass of the loop of [pop]; the item taken from the queue is dropped if the
    timeout has passed. *)
Definition pop_pass (timedOut : bool) (q : StealingQueueSlave) : PopResult * option Item * StealingQueueSlave :=
  if sq_masterFinished q then (PopNone, None, set_sq_masterFinished false q)
  else
    let item := head (sq_right q) in
    let q := set_sq_right (tail (sq_right q)) q in
    if timedOut then (PopNone, item, q)
    else match item with Some x => (PopItem x, None, q) | None => (PopAgain, None, q) end.

Definition slave_clear (q : StealingQueueSlave) : StealingQueueSlave := set_sq_left [] (set_sq_right [] q).

(** ** The master, its slaves and the commands on their way *)

(** For the specification the system records the items that were pushed, popped and
    dropped, and those that were stolen, each with the item that was sent to the
    thief in its place. *)
Record StealSystem := mkStealSystem {
  ss_slaves : Z -> StealingQueueSlave;
  ss_inbox : Z -> list (Z * SlaveCommand);
  ss_infos : SlaveInfos;
  ss_pushed : list Item;
  ss_popped : list Item;
  ss_dropped : list Item;
  ss_taken : list (Item * Item)
}.

Context (nodes : list Z) (master : Z).

Definition send_to (n : Z) (cmds : list (Z * SlaveCommand)) (inbox : Z -> list (Z * SlaveCommand)) : Z -> list (Z * SlaveCommand) :=
  fset inbox n (inbox n ++ cmds).

(** The items handed over, with what is sent for them *)
Definition taken_items (slaveInstanceID : Z) (items : list Item) : list (Item * Item) :=
  omap (fun item => sent ← stolen_item slaveInstanceID item; Some (item, sent)) items.

Inductive steal_step : StealSystem -> StealSystem -> Prop :=
| ss_push s item nodeIndex right_ node queue st infos :
    push_pass nodes (nodeIndex, right_, ss_infos s) = (Some (node, queue), (st, infos)) -> node ∈ nodes ->
    steal_step s (mkStealSystem (ss_slaves s) (send_to node [(master, if queue : bool then CItemRight item else CItemLeft item)] (ss_inbox s)) infos
      (ss_pushed s ++ [item]) (ss_popped s) (ss_dropped s) (ss_taken s))
| ss_retry s nodeIndex right_ st infos :
    push_pass nodes (nodeIndex, right_, ss_infos s) = (None, (st, infos)) ->
    steal_step s (mkStealSystem (ss_slaves s) (ss_inbox s) infos (ss_pushed s) (ss_popped s) (ss_dropped s) (ss_taken s))
| ss_feedback s node starving time right_ infos :
    cmdSlaveFeedback node starving time right_ (ss_infos s) = Some infos ->
    steal_step s (mkStealSystem (ss_slaves s) (ss_inbox s) infos (ss_pushed s) (ss_popped s) (ss_dropped s) (ss_taken s))
| ss_receive s n from cmd l1 l2 :
    n ∈ nodes -> ss_inbox s n = l1 ++ (from, cmd) :: l2 -> (forall x, x ∈ l1 -> x.1 <> from) -> (forall r i q, cmd <> CSteal r i q) ->
    steal_step s (mkStealSystem (fset (ss_slaves s) n (slave_receive from cmd (ss_slaves s n))) (fset (ss_inbox s) n (l1 ++ l2))
      (ss_infos s) (ss_pushed s) (ss_popped s) (ss_dropped s) (ss_taken s))
| ss_stolen s n from now ratio inst request l1 l2 q items out :
    n ∈ nodes -> from ∈ nodes -> ss_inbox s n = l1 ++ (from, CSteal ratio inst request) :: l2 -> (forall x, x ∈ l1 -> x.1 <> from) ->
    cmdStealItem from now ratio inst request (ss_slaves s n) = (q, items, out) ->
    steal_step s (mkStealSystem (fset (ss_slaves s) n q) (send_to from ((fun c => (n, c)) <$> out) (fset (ss_inbox s) n (l1 ++ l2)))
      (ss_infos s) (ss_pushed s) (ss_popped s)
      (ss_dropped s ++ filter (fun item => stolen_item inst item = None) items) (ss_taken s ++ taken_items inst items))
| ss_setup s n shuffle known now :
    n ∈ nodes -> steal_step s (mkStealSystem (fset (ss_slaves s) n (setupVictims shuffle known master n now (ss_slaves s n))) (ss_inbox s)
      (ss_infos s) (ss_pushed s) (ss_popped s) (ss_dropped s) (ss_taken s))
| ss_ask s n now inst request victim q :
    n ∈ nodes -> thief_ask now (ss_slaves s n) = (victim, q) ->
    steal_step s (mkStealSystem (fset (ss_slaves s) n q)
      (match victim with Some v => send_to v [(n, CSteal 128 inst request)] (ss_inbox s) | None => ss_inbox s end)
      (ss_infos s) (ss_pushed s) (ss_popped s) (ss_dropped s) (ss_taken s))
| ss_reply s n now request more q :
    n ∈ nodes -> thief_receive now request (ss_slaves s n) = Some (more, q) ->
    steal_step s (mkStealSystem (fset (ss_slaves s) n q) (ss_inbox s) (ss_infos s) (ss_pushed s) (ss_popped s) (ss_dropped s) (ss_taken s))
| ss_pop s n timedOut result lost q :
    n ∈ nodes -> pop_pass timedOut (ss_slaves s n) = (result, lost, q) ->
    steal_step s (mkStealSystem (fset (ss_slaves s) n q) (ss_inbox s) (ss_infos s) (ss_pushed s)
      (ss_popped s ++ (if result is PopItem item then [item] else []))
      (ss_dropped s ++ (if lost is Some item then [item] else [])) (ss_taken s))
| ss_clear s n :
    n ∈ nodes ->
    steal_step s (mkStealSystem (fset (ss_slaves s) n (slave_clear (ss_slaves s n))) (ss_inbox s) (ss_infos s) (ss_pushed s) (ss_popped s)
      (ss_dropped s ++ sq_left (ss_slaves s n) ++ sq_right (ss_slaves s n)) (ss_taken s)).

Definition steal_start (mark : Z -> Z) : StealSystem := mkStealSystem (fun n => StealingQueueSlave_init (mark n)) (fun _ => []) ∅ [] [] [] [].

Inductive steal_reachable (mark : Z -> Z) : StealSystem -> Prop :=
| sr_start : steal_reachable mark (steal_start mark)
| sr_step s s' : steal_reachable mark s -> steal_step s s' -> steal_reachable mark s'.

(** The items in a command, in the commands on their way, and in a slave *)
Definition command_items (cmd : SlaveCommand) : list Item :=
  match cmd with CItemLeft item | CItemRight item | CStolen item => [item] | _ => [] end.
Definition inbox_items (l : list (Z * SlaveCommand)) : list Item := concat ((fun x => command_items x.2) <$> l).
Definition slave_items (q : StealingQueueSlave) : list Item := sq_left q ++ sq_right q ++ inbox_items (th_cmdQueue q).

Definition waiting_items (s : StealSystem) : list Item :=
  concat ((fun n => slave_items (ss_slaves s n)) <$> nodes) ++ concat ((fun n => inbox_items (ss_inbox s n)) <$> nodes).

(** ** Conservation *)

Definition item_dec (a b : Item) : {a = b} + {a <> b} := decide (a = b).

Abbreviation cnt x l := (count_occ item_dec l x).

Context (Hnodes : NoDup nodes).

Lemma family_cnt {A} (g : A -> list Item) (f : Z -> A) n a x :
  n ∈ nodes ->
  (cnt x (concat ((fun m => g (fset f n a m)) <$> nodes)) + cnt x (g (f n)) = cnt x (concat ((fun m => g (f m)) <$> nodes)) + cnt x (g a))%nat.
Proof.
  intros Hn. destruct (concat_fset g f n nodes Hnodes Hn) as (rest & H1 & H2). specialize (H2 a).
  rewrite (Permutation_count_occ item_dec) in H1, H2. rewrite (H1 x), (H2 x), !count_occ_app. lia.
Qed.

Lemma inbox_app l1 l2 : inbox_items (l1 ++ l2) = inbox_items l1 ++ inbox_items l2.
Proof. unfold inbox_items. by rewrite fmap_app, concat_app. Qed.

Lemma inbox_cons x l : inbox_items (x :: l) = command_items x.2 ++ inbox_items l.
Proof. done. Qed.

Lemma send_cnt n cmds inbox x :
  n ∈ nodes ->
  (cnt x (concat ((fun m => inbox_items (send_to n cmds inbox m)) <$> nodes)) =
   cnt x (concat ((fun m => inbox_items (inbox m)) <$> nodes)) + cnt x (inbox_items cmds))%nat.
Proof.
  intros Hn. pose proof (family_cnt inbox_items inbox n (inbox n ++ cmds) x Hn) as Hf. rewrite inbox_app, count_occ_app in Hf. unfold send_to. lia.
Qed.

Lemma send_nothing n cmds inbox x :
  inbox_items cmds = [] ->
  cnt x (concat ((fun m => inbox_items (send_to n cmds inbox m)) <$> nodes)) = cnt x (concat ((fun m => inbox_items (inbox m)) <$> nodes)).
Proof.
  intros Hc. destruct (decide (n ∈ nodes)) as [Hn|Hn]; [rewrite send_cnt, Hc by done; cbn; lia|].
  unfold send_to. by rewrite (fset_not_in inbox_items).
Qed.

Lemma waiting_cnt s x :
  cnt x (waiting_items s) = (cnt x (concat ((fun n => slave_items (ss_slaves s n)) <$> nodes)) + cnt x (concat ((fun n => inbox_items (ss_inbox s n)) <$> nodes)))%nat.
Proof. unfold waiting_items. by rewrite count_occ_app. Qed.

Lemma relegate_items n now q : slave_items (relegateVictim n now q) = slave_items q /\ sq_left (relegateVictim n now q) = sq_left q.
Proof. unfold relegateVictim. by destruct (find_victim _ _) as [[]|]. Qed.

Lemma erase_items n q : slave_items (eraseVictim n q) = slave_items q.
Proof. unfold eraseVictim. by destruct (find_victim _ _) as [[]|]. Qed.

(** Items of a slave are neither lost nor multiplied by what it does. *)
Lemma receive_cnt from cmd q x :
  (forall r i k, cmd <> CSteal r i k) -> (cnt x (slave_items (slave_receive from cmd q)) = cnt x (slave_items q) + cnt x (command_items cmd))%nat.
Proof.
  intros Hc. unfold slave_items. destruct cmd as [| | |r i k| | | |]; cbn -[count_occ inbox_items]; try (by destruct (Hc r i k)); rewrite ?fmap_app, ?inbox_app, ?inbox_cons, ?count_occ_app; cbn -[count_occ];
    rewrite ?count_occ_app; cbn; lia.
Qed.

Lemma cnt_cons x a (l : list Item) : cnt x (a :: l) = (cnt x [a] + cnt x l)%nat.
Proof. apply (count_occ_app item_dec [a]). Qed.

Lemma taken_cons inst item items :
  taken_items inst (item :: items) =
  match stolen_item inst item with Some sent => (item, sent) :: taken_items inst items | None => taken_items inst items end.
Proof. unfold taken_items. cbn [omap list_omap]. by destruct (stolen_item inst item). Qed.

Lemma delivered_taken inst items : omap (stolen_item inst) items = snd <$> taken_items inst items.
Proof.
  unfold taken_items. induction items as [|item items IH]; [done|]. cbn [omap list_omap].
  destruct (stolen_item inst item) as [sent|]; cbn [mbind option_bind]; [rewrite fmap_cons; by f_equal|done].
Qed.

Lemma stolen_inbox from items : inbox_items ((fun c => (from, c)) <$> (CStolen <$> items)) = items.
Proof. induction items as [|item items IH]; [done|]. rewrite !fmap_cons, inbox_cons, IH. done. Qed.

Lemma taken_cnt inst items x :
  (cnt x (fst <$> taken_items inst items) + cnt x (filter (fun item => stolen_item inst item = None) items) = cnt x items)%nat.
Proof.
  induction items as [|item items IH]; [done|]. rewrite filter_cons, taken_cons, (cnt_cons x item).
  destruct (stolen_item inst item) as [sent|].
  - rewrite decide_False, fmap_cons by done. cbn [fst]. rewrite (cnt_cons x item). lia.
  - rewrite decide_True by done. rewrite (cnt_cons x item). lia.
Qed.

Lemma stolen_cnt from now ratio inst request q q' items out x :
  cmdStealItem from now ratio inst request q = (q', items, out) ->
  (cnt x (slave_items q') + cnt x (fst <$> taken_items inst items) + cnt x (filter (fun item => stolen_item inst item = None) items) =
   cnt x (slave_items q) /\
   cnt x (inbox_items ((fun c => (from, c)) <$> out)) = cnt x (snd <$> taken_items inst items))%nat.
Proof.
  unfold cmdStealItem. generalize (u32 (u64 (ratio * Z.of_nat (length (sq_left q))) `div` 255)). intros k. destruct (k <? 1); [intros [= <- <- <-]; cbn; lia|].
  destruct (relegate_items from now q) as [<- Hl].
  set (q1 := relegateVictim from now q) in *. clearbody q1. clear q Hl. intros [= <- <- <-]. set (items := take (Z.to_nat k) (sq_left q1)).
  assert (cnt x (sq_left q1) = cnt x items + cnt x (drop (Z.to_nat k) (sq_left q1)))%nat as Hsplit
    by (rewrite <- count_occ_app; unfold items; by rewrite take_drop).
  pose proof (taken_cnt inst items x) as Ht.
  unfold slave_items. cbn [set_sq_left sq_left sq_right th_cmdQueue]. rewrite !count_occ_app, Hsplit, fmap_app, inbox_app, stolen_inbox, count_occ_app, delivered_taken.
  set (l := (if 0 <? _ then _ else _)). assert (inbox_items ((fun c => (from, c)) <$> l) = []) as -> by (subst l; by destruct (0 <? _)).
  cbn [count_occ]. lia.
Qed.

Lemma reply_cnt now request q more q' x : thief_receive now request q = Some (more, q') -> cnt x (slave_items q') = cnt x (slave_items q).
Proof.
  unfold thief_receive. destruct (th_cmdQueue q) as [|[from cmd] cmds] eqn:Eq; [done|].
  assert (cnt x (slave_items q) = cnt x (slave_items (set_th_cmdQueue cmds q)) + cnt x (command_items cmd))%nat as ->.
  { unfold slave_items. cbn [set_th_cmdQueue sq_left sq_right th_cmdQueue]. rewrite Eq, inbox_cons, !count_occ_app. cbn [snd]. lia. }
  set (q1 := set_th_cmdQueue cmds q). destruct cmd; try done.
  - destruct (_ =? _); intros [= <- <-]; [rewrite (proj1 (relegate_items from now q1))|]; cbn; lia.
  - intros [= <- <-]. rewrite erase_items. cbn. lia.
  - intros [= <- <-]. unfold slave_items. cbn [set_sq_left sq_left sq_right th_cmdQueue]. rewrite !count_occ_app. cbn [command_items].
    change (sq_left q1) with (sq_left q). lia.
  - intros [= <- <-]. cbn. lia.
Qed.

Lemma pop_cnt timedOut q result lost q' x :
  pop_pass timedOut q = (result, lost, q') ->
  (cnt x (slave_items q') + cnt x (if result is PopItem item then [item] else []) +
   cnt x (if lost is Some item then [item] else []) = cnt x (slave_items q))%nat.
Proof.
  unfold pop_pass. destruct (sq_masterFinished q); [intros [= <- <- <-]; change (slave_items (set_sq_masterFinished false q)) with (slave_items q); cbn [count_occ]; lia|].
  destruct (sq_right q) as [|item l] eqn:E; cbn [head tail].
  - assert (cnt x (slave_items (set_sq_right [] q)) = cnt x (slave_items q)) as Hq.
    { unfold slave_items. cbn [set_sq_right sq_left sq_right th_cmdQueue]. by rewrite E. }
    destruct timedOut; intros [= <- <- <-]; rewrite Hq; cbn [count_occ]; lia.
  - assert (cnt x (slave_items q) = cnt x (slave_items (set_sq_right l q)) + cnt x [item])%nat as ->.
    { unfold slave_items. cbn [set_sq_right sq_left sq_right th_cmdQueue]. rewrite E, !count_occ_app.
      rewrite (cnt_cons x item). lia. }
    destruct timedOut; intros [= <- <- <-]; change (cnt x []) with 0%nat; lia.
Qed.

Definition conserved (s : StealSystem) : Prop :=
  forall x, (cnt x (waiting_items s) + cnt x (ss_popped s) + cnt x (ss_dropped s) + cnt x (fst <$> ss_taken s) =
             cnt x (ss_pushed s) + cnt x (snd <$> ss_taken s))%nat.

Lemma step_conserved s s' : steal_step s s' -> conserved s -> conserved s'.
Proof.
  intros Hstep Hs x. specialize (Hs x). rewrite waiting_cnt in *.
  destruct Hstep as [s item i r node queue st infos _ Hn|s i r st infos _|s node sv t r infos _|s n from cmd l1 l2 Hn Hi _ Hc
    |s n from now ratio inst request l1 l2 q items out Hn Hf Hi _ Hst|s n sh known now Hn|s n now inst request victim q Hn Ha|s n now request more q Hn Hr
    |s n timedOut result lost q Hn Hp|s n Hn]; cbn [ss_slaves ss_inbox ss_pushed ss_popped ss_dropped ss_taken ss_infos] in *; rewrite ?fmap_app, ?count_occ_app.
  - rewrite send_cnt by done. destruct queue; cbn [inbox_items fmap list_fmap concat snd command_items app]; rewrite ?app_nil_r; lia.
  - done.
  - done.
  - pose proof (family_cnt slave_items (ss_slaves s) n (slave_receive from cmd (ss_slaves s n)) x Hn) as H1.
    pose proof (family_cnt inbox_items (ss_inbox s) n (l1 ++ l2) x Hn) as H2. rewrite receive_cnt in H1 by done.
    rewrite Hi, !inbox_app, inbox_cons, !count_occ_app in H2. cbn [snd] in H2. lia.
  - rewrite send_cnt by done. pose proof (family_cnt slave_items (ss_slaves s) n q x Hn) as H1.
    pose proof (family_cnt inbox_items (ss_inbox s) n (l1 ++ l2) x Hn) as H2. destruct (stolen_cnt _ _ _ _ _ _ _ _ _ x Hst) as [H3 H4].
    rewrite Hi, !inbox_app, inbox_cons, !count_occ_app in H2. cbn [snd command_items count_occ] in H2.
    assert (inbox_items ((fun c => (n, c)) <$> out) = inbox_items ((fun c => (from, c)) <$> out)) as Eo
      by (unfold inbox_items; by rewrite <- !list_fmap_compose). rewrite Eo. lia.
  - pose proof (family_cnt slave_items (ss_slaves s) n (setupVictims sh known master n now (ss_slaves s n)) x Hn) as H1.
    assert (slave_items (setupVictims sh known master n now (ss_slaves s n)) = slave_items (ss_slaves s n)) as E by (unfold setupVictims; by destruct (_ =? _)).
    rewrite E in H1. lia.
  - pose proof (family_cnt slave_items (ss_slaves s) n q x Hn) as H1.
    assert (slave_items q = slave_items (ss_slaves s n)) as E by (unfold thief_ask in Ha; repeat case_match; by simplify_eq). rewrite E in H1.
    destruct victim; [rewrite send_nothing by done|]; lia.
  - pose proof (family_cnt slave_items (ss_slaves s) n q x Hn) as H1. rewrite (reply_cnt _ _ _ _ _ x Hr) in H1. lia.
  - pose proof (family_cnt slave_items (ss_slaves s) n q x Hn) as H1. pose proof (pop_cnt _ _ _ _ _ x Hp). lia.
  - pose proof (family_cnt slave_items (ss_slaves s) n (slave_clear (ss_slaves s n)) x Hn) as H1.
    assert (cnt x (slave_items (ss_slaves s n)) = cnt x (slave_items (slave_clear (ss_slaves s n))) +
      cnt x (sq_left (ss_slaves s n) ++ sq_right (ss_slaves s n)))%nat as E; [|rewrite count_occ_app in E; lia].
    unfold slave_items. cbn [slave_clear set_sq_left set_sq_right sq_left sq_right th_cmdQueue]. rewrite !count_occ_app. cbn. lia.
Qed.

Lemma reachable_conserved mark s : steal_reachable mark s -> conserved s.
Proof.
  induction 1 as [|s s' _ IH Hs]; [|by eapply step_conserved]. intros x. unfold waiting_items, steal_start. cbn [ss_slaves ss_inbox ss_popped ss_dropped ss_pushed ss_taken].
  rewrite count_occ_app. assert (forall g : Z -> list Item, (forall n, g n = []) -> concat (g <$> nodes) = []) as Hc.
  { intros g Hg. clear Hnodes. induction nodes as [|n l IH]; [done|]. cbn. by rewrite Hg, IH. }
  by rewrite !Hc.
Qed.

(** Every pair recorded is an item and what [cmdStealItem] makes of it. *)
Lemma reachable_taken mark s :
  steal_reachable mark s -> Forall (fun '(item, sent) => exists inst, stolen_item inst item = Some sent) (ss_taken s).
Proof.
  induction 1 as [|s s' _ IH Hs]; [constructor|]. destruct Hs; try exact IH. apply Forall_app. split; [exact IH|].
  apply Forall_forall. intros [item sent] Hin. unfold taken_items in Hin. apply list_elem_of_omap in Hin as (y & _ & Hy).
  exists inst. destruct (stolen_item inst y) as [z|] eqn:E; [|done]. cbn in Hy. by injection Hy as <- <-.
Qed.

End slave.

(** ** Credits of the load-aware distributor *)

(** Looking at slaves only adds entries for new ones. *)
Definition grows (m m' : SlaveInfos) : Prop := forall n, m' !! n = m !! n \/ m !! n = None /\ m' !! n = Some SlaveInfo_init.

Lemma grows_refl m : grows m m.
Proof. by left. Qed.

Lemma grows_trans m1 m2 m3 : grows m1 m2 -> grows m2 m3 -> grows m1 m3.
Proof. intros H1 H2 n. destruct (H1 n) as [E1|[E1 E1']], (H2 n) as [E2|[E2 E2']]; rewrite E2 || rewrite E2'; [by left|right; by rewrite <- E1|right; done|right; done]. Qed.

Lemma getSlaveInfo_grows n m : grows m (getSlaveInfo n m).2 /\ (getSlaveInfo n m).2 !! n = Some (getSlaveInfo n m).1.
Proof.
  unfold getSlaveInfo. destruct (m !! n) as [info|] eqn:E; [by split; [apply grows_refl|]|]. cbn. split; [|apply lookup_insert_eq].
  intros k. destruct (decide (n = k)) as [<-|]; [right; by rewrite lookup_insert_eq|left; by apply lookup_insert_ne].
Qed.

Lemma adjust_grows nodes right_ i s : grows s.2 (adjust_pass nodes right_ i s).2.
Proof.
  destruct s as [[[[nodeIndex q] m] f] infos]. unfold adjust_pass. set (index := _ `mod` _). clearbody index.
  pose proof (getSlaveInfo_grows (nodes !!! Z.to_nat index) infos) as [H _]. destruct (getSlaveInfo _ _) as [info infos']. cbn in H.
  destruct (_ <? _); [destruct f|]; done.
Qed.

Lemma adjustMapping_grows nodes nodeIndex right_ infos : grows infos (adjustMapping nodes nodeIndex right_ infos).2.
Proof.
  unfold adjustMapping. set (s0 := (nodeIndex, right_, 4294967295, true, infos)). pose proof (adjust_grows nodes right_ 0 s0) as H0.
  pose proof (adjust_grows nodes right_ 1 (adjust_pass nodes right_ 0 s0)) as H1.
  destruct (adjust_pass nodes right_ 1 _) as [[[[? ?] ?] ?] infos']. cbn in H1 |- *. by eapply grows_trans.
Qed.

Lemma search_inner_grows nodes limit j steps s : grows s.2 (search_inner nodes limit j steps s).2.
Proof.
  revert s. induction steps as [|i steps IH]; intros [[nodeIndex right_] infos]; cbn [search_inner]; [apply grows_refl|].
  destruct (_ && _); [|apply (IH (nodeIndex, right_, infos))].
  pose proof (getSlaveInfo_grows (nodes !!! Z.to_nat (nodeIndex + j * i)) infos) as [H _]. destruct (getSlaveInfo _ _) as [info infos']. cbn in H.
  destruct (_ >? _); [done|]. eapply grows_trans; [exact H|]. apply (IH (nodeIndex, right_, infos')).
Qed.

Lemma search_grows nodes limit s : grows s.2 (search_starving nodes limit s).2.
Proof.
  unfold search_starving. generalize (seq 0 (length nodes)). intros l. revert s. induction l as [|j l IH]; intros s; [apply grows_refl|].
  cbn [foldl]. eapply grows_trans; [|apply IH]. apply search_inner_grows.
Qed.

(** What a pass does: it sends an item to a slave that has a credit, and takes it. *)
Lemma push_pass_spec nodes s r s' :
  push_pass nodes s = (r, s') ->
  exists infos, grows s.2 infos /\
    match r with
    | None => s'.2 = infos
    | Some (node, _) => exists info, infos !! node = Some info /\ 0 <= si_itemsToSend info /\
        s'.2 = <[node := mkSlaveInfo (i32 (si_itemsToSend info - 1)) (si_drawLeft info) (si_drawRight info) (u32 (si_tasksSent info + 1)) false]> infos
    end.
Proof.
  destruct s as [[nodeIndex right_] infos]. unfold push_pass. set (limit := starving_limit infos). clearbody limit.
  pose proof (search_grows nodes limit (nodeIndex, right_, infos)) as H1. destruct (search_starving _ _ _) as [[i1 r1] infos1]. cbn in H1.
  pose proof (adjustMapping_grows nodes i1 r1 infos1) as H2. destruct (adjustMapping _ _ _ _) as [[i2 q2] infos2]. cbn in H2.
  pose proof (getSlaveInfo_grows (nodes !!! Z.to_nat i2) infos2) as [H3 H4].
  destruct (getSlaveInfo _ infos2) as [info infos3] eqn:E. cbn in H3, H4. assert (grows infos infos2) as H12 by (by eapply grows_trans).
  destruct (Z.geb_spec (si_itemsToSend info) 0); intros [= <- <-]; cbn [snd]; [|by exists infos2].
  exists infos3. split; [by eapply grows_trans|]. exists info. split_and!; try done.
  unfold getSlaveInfo in E. destruct (infos2 !! _) eqn:E2; injection E as <- <-; [done|]. by rewrite insert_insert_eq.
Qed.

(** A distributor with a ledger: how many items each slave was sent, and how many it
    was granted by its first credit, by reports that it starves, and by the end of
    a queue. *)
Inductive DistOp := DPush (nodeIndex : Z) (right_ : bool) | DFeedback (node : Z) (starving : bool) (time : Z) (right_ : bool) | DQueueEnd.

Record Ledger := mkLedger { lg_infos : SlaveInfos; lg_sent : Z -> Z; lg_granted : Z -> Z }.

Definition ledger_start : Ledger := mkLedger ∅ (fun _ => 0) (fun _ => ITEMS_TO_SEND).

Definition ledger_exec (nodes : list Z) (l : Ledger) (op : DistOp) : Ledger :=
  match op with
  | DPush nodeIndex right_ =>
      let '(r, (_, infos)) := push_pass nodes (nodeIndex, right_, lg_infos l) in
      mkLedger infos (match r with Some (node, _) => fset (lg_sent l) node (lg_sent l node + 1) | None => lg_sent l end) (lg_granted l)
  | DFeedback node starving time right_ =>
      match cmdSlaveFeedback node starving time right_ (lg_infos l) with
      | Some infos => mkLedger infos (lg_sent l)
          (if starving then fset (lg_granted l) node (lg_granted l node + ITEMS_TO_SEND) else lg_granted l)
      | None => l
      end
  | DQueueEnd => mkLedger (notifyQueueEnd (lg_infos l)) (lg_sent l) (fun n => lg_sent l n + ITEMS_TO_SEND)
  end.

(** A report that a slave starves must not overflow its credit. *)
Definition credit_fits (l : Ledger) (op : DistOp) : Prop :=
  match op with
  | DFeedback node true _ _ => is_i32 (lg_granted l node + ITEMS_TO_SEND - lg_sent l node)
  | _ => True
  end.

Inductive ledger_run (nodes : list Z) : Ledger -> Prop :=
| lr_start : ledger_run nodes ledger_start
| lr_step l op : ledger_run nodes l -> credit_fits l op -> ledger_run nodes (ledger_exec nodes l op).

Definition ledger_ok (l : Ledger) : Prop :=
  forall n, match lg_infos l !! n with
            | Some info => si_itemsToSend info = lg_granted l n - lg_sent l n /\ -1 <= si_itemsToSend info <= 2147483647 /\
                           si_tasksSent info = u32 (lg_sent l n)
            | None => lg_sent l n = 0 /\ lg_granted l n = ITEMS_TO_SEND
            end.

Lemma grows_ledger m m' sent granted : grows m m' -> ledger_ok (mkLedger m sent granted) -> ledger_ok (mkLedger m' sent granted).
Proof.
  intros Hg H n. specialize (H n). cbn in *. destruct (Hg n) as [->|[E ->]]; [done|]. rewrite E in H. destruct H as [-> ->].
  unfold SlaveInfo_init, ITEMS_TO_SEND. cbn. split_and!; [done|lia..|done].
Qed.

Lemma ledger_step nodes l op : ledger_ok l -> credit_fits l op -> ledger_ok (ledger_exec nodes l op).
Proof.
  intros H Hfit. destruct op as [nodeIndex right_|node starving time right_|]; cbn [ledger_exec].
  - destruct (push_pass nodes (nodeIndex, right_, lg_infos l)) as [r [st infos]] eqn:E.
    destruct (push_pass_spec _ _ _ _ E) as (infos1 & Hg & Hr). cbn [snd] in Hg, Hr. destruct l as [m sent granted]. cbn [lg_infos lg_sent lg_granted] in *.
    apply (grows_ledger _ _ _ _ Hg) in H. destruct r as [[node queue]|]; [|by rewrite Hr].
    destruct Hr as (info & Ei & H0 & ->). intros n. specialize (H n). cbn [lg_infos lg_sent lg_granted] in *. destruct (decide (node = n)) as [<-|Hne].
    + rewrite lookup_insert_eq, fset_eq. rewrite Ei in H. destruct H as (H1 & H2 & H3). cbn [si_itemsToSend si_tasksSent].
      rewrite H3, i32_small by (unfold is_i32; lia). split_and!; [lia..|solve_wrap].
    + by rewrite lookup_insert_ne, fset_ne.
  - unfold cmdSlaveFeedback. destruct (lg_infos l !! node) as [info|] eqn:Ei; [|done]. cbn [mbind option_bind]. intros n. pose proof (H n) as Hn. cbn.
    destruct (decide (node = n)) as [<-|Hne]; [|rewrite lookup_insert_ne by done; destruct starving; [by rewrite fset_ne|done]].
    rewrite lookup_insert_eq. rewrite Ei in Hn. destruct starving; [|by destruct right_; cbn]. cbn [credit_fits] in Hfit.
    rewrite fset_eq. cbn [si_itemsToSend si_tasksSent]. unfold is_i32, ITEMS_TO_SEND in *. destruct Hn as (H1 & H2 & H3).
    rewrite i32_small by (unfold is_i32; lia). split_and!; [lia..|done].
  - intros n. specialize (H n). cbn. unfold notifyQueueEnd. rewrite lookup_fmap. destruct (lg_infos l !! n) as [info|]; cbn; unfold ITEMS_TO_SEND in *; [|lia].
    split_and!; [lia..|apply H].
Qed.

Lemma ledger_reachable nodes l : ledger_run nodes l -> ledger_ok l.
Proof. induction 1; [intros n; cbn; by rewrite lookup_empty|by apply ledger_step]. Qed.

(** An item for the left queue stays where it is: the neighbour on the left is looked
    at first, and the first slave looked at is never chosen. *)
Lemma adjust_left_stays nodes nodeIndex infos :
  0 <= nodeIndex < Z.of_nat (length nodes) -> nodeIndex < 2 ^ 64 ->
  (adjustMapping nodes nodeIndex false infos).1 = (nodeIndex, false).
Proof.
  intros Hi Hb. unfold adjustMapping. set (s0 := (nodeIndex, false, 4294967295, true, infos)).
  assert (exists m f infos', adjust_pass nodes false 0 s0 = (nodeIndex, false, m, f, infos')) as (m & f & infos' & ->).
  { unfold adjust_pass, s0. destruct (getSlaveInfo _ infos) as [info infos']. destruct (_ <? _); by repeat eexists. }
  unfold adjust_pass. assert (u64 (nodeIndex + 1 + -1) `mod` Z.of_nat (length nodes) = nodeIndex) as ->.
  { replace (nodeIndex + 1 + -1) with nodeIndex by lia. rewrite u64_small by (unfold is_u64; lia). by apply Z.mod_small. }
  rewrite Z.eqb_refl. destruct (getSlaveInfo _ infos') as [info infos'']. destruct (_ <? _); [by destruct f|done].
Qed.

(** ** Theorems *)

(** C23: items are conserved with their contents.  Whatever the master pushes to a
    set of slaves, in whatever order commands arrive, thieves steal and consumers
    pop, every item pushed is, byte by byte, in exactly one place: a queue, a
    command on its way, the hands of one consumer, dropped (which happens to items a
    consumer took when its timeout had passed, to cleared queues, and to invalid
    commands), or taken from a slave by a thief.  For each item taken exactly one
    other item entered the system, the command [cmdStealItem] makes of it, and
    this one is conserved in the same way.  (What that command holds is the subject
    of [stolen_item_blank].) *)
Theorem steal_conserves `{!Pression, !Lunchbox} be objectID nodes master mark s :
  NoDup nodes -> steal_reachable be objectID nodes master mark s ->
  ss_pushed s ++ (snd <$> ss_taken s) ≡ₚ ss_popped s ++ ss_dropped s ++ (fst <$> ss_taken s) ++ waiting_items nodes s /\
  Forall (fun '(item, sent) => exists inst, stolen_item be objectID inst item = Some sent) (ss_taken s).
Proof.
  intros Hn Hs. split; [|by eapply reachable_taken].
  apply (reachable_conserved be objectID nodes master Hn) in Hs. apply (Permutation_count_occ item_dec). intros x.
  specialize (Hs x). rewrite !count_occ_app. lia.
Qed.

(** C38: the load-aware distributor never sends a slave more than one item beyond
    what it was granted, whatever the positions of the items, the order of the
    reports and the ends of queues.  Its counter of items to send, an [int], is what
    was granted less what was sent, and its counter of tasks, a [uint32_t], is the
    number sent modulo 2^32, as long as no report that a slave starves makes the
    open credit of the slave exceed an [int] (see [credit_overflow]). *)
Theorem load_aware_credits nodes l n :
  ledger_run nodes l ->
  lg_sent l n <= lg_granted l n + 1 /\
  (forall info, lg_infos l !! n = Some info ->
     si_itemsToSend info = lg_granted l n - lg_sent l n /\ -1 <= si_itemsToSend info <= 2147483647 /\
     si_tasksSent info = u32 (lg_sent l n)).
Proof.
  intros Hl. pose proof (ledger_reachable nodes l Hl n) as H. destruct (lg_infos _ !! n) as [info|]; unfold ITEMS_TO_SEND in *.
  - split; [lia|]. by intros ? [= <-].
  - split; [lia|done].
Qed.

(** a stolen item loses its contents.  What is sent to the thief has as many
    bytes as the whole command of the item, and they are read after the header of
    the command, where so many never are left: the thief receives zeros. *)
Theorem stolen_item_blank `{!Pression, !Lunchbox, !LunchboxOk} be b body cmd id inst data :
  buffer_of be b body -> body = rheader be (size_of body) COMMANDTYPE_OBJECT cmd ++ enc128 be id ++ enc be 4 inst ++ data ->
  is_u128 id -> wf_uint 4 inst -> wf_uint 4 cmd -> cmd <> CMD_INVALID ->
  stolen_data be b = Some (replicate (Z.to_nat (size_of body)) 0).
Proof.
  intros Hb Hbody Hid Hin Hcmd Hc. unfold stolen_data.
  assert (0 < size_of body) as Hpos by (destruct Hb as (? & _ & _ & ? & _); lia).
  rewrite (ICommand_new_spec be b body COMMANDTYPE_OBJECT cmd _ Hb Hbody) by done.
  destruct (carries_cursor be b body (rheader be (size_of body) COMMANDTYPE_OBJECT cmd) (size_of body) COMMANDTYPE_OBJECT cmd) as (_ & _ & ->);
    [lia|done..|]. unfold read_field. cbn [ic_stream ic_size ic_type ic_cmd].
  rewrite (read_u128_at be id 0 b body _ _ _ (at_cursor be b body _ Hb) Hbody Hid). cbn [ic_stream ic_size ic_type ic_cmd].
  assert (body = (rheader be (size_of body) COMMANDTYPE_OBJECT cmd ++ enc128 be id) ++ enc be 4 inst ++ data) as Hbody2 by (by rewrite <- app_assoc).
  rewrite (read_item_at be 4 inst CO_INSTANCE_INVALID b body _ _ _ (at_cursor be b body _ Hb) Hbody2) by (done || lia).
  cbn [ic_stream ic_size ic_type ic_cmd]. set (pre := (_ ++ _) ++ enc be 4 inst). assert (size_of pre = 36) as Hpre.
  { subst pre. unfold rheader. rewrite !size_of_app, !size_of_enc, size_of_enc128. lia. }
  assert (body = pre ++ data) as Hsplit by (subst pre; by rewrite <- app_assoc).
  unfold read_. destruct data as [|x data].
  - rewrite app_nil_r in Hsplit. rewrite <- Hsplit. unfold checkBuffer, cursor. cbn -[Z.ltb size_of]. by rewrite Z.ltb_irrefl.
  - assert (checkBuffer be (cursor b body pre) = (true, cursor b body pre)) as ->.
    { pose proof (checkBuffer_cursor be b pre (x :: data) []) as Hck. rewrite app_nil_r, <- Hsplit in Hck. by apply Hck. }
    cbn [inputSize position cursor]. rewrite Hpre. by destruct (Z.gtb_spec (size_of body) (size_of body - 36)); [|lia].
Qed.

(** ** A run: an item is pushed, queued, and stolen by the other slave. *)

#[local] Existing Instances store_Pression native_Lunchbox.

Definition sample_body : bytes := rheader false 39 COMMANDTYPE_OBJECT 17 ++ enc128 false 5 ++ enc false 4 9 ++ [1; 2; 3].

Definition sample_item : Item := sample_body.

Example sample_pushed :
  (push_pass [1; 2] (0, false, ∅)).1 = Some (1, false) /\ (push_pass [1; 2] (1, true, ∅)).1 = Some (1, false).
Proof. by vm_compute. Qed.

Lemma stolen_item_blank_witness : stolen_data false sample_body = Some (replicate 39 0).
Proof.
  exact (@stolen_item_blank store_Pression native_Lunchbox native_LunchboxOk false sample_body sample_body 17 5 9 [1; 2; 3]
    ltac:(exists []; split_and!; [by rewrite app_nil_r|by vm_compute..]) ltac:(by vm_compute) ltac:(by vm_compute) ltac:(by vm_compute) ltac:(by vm_compute) ltac:(done)).
Defined.

(** Slave 1 is sent two items for its left queue; slave 2 asks for half of them
    and is handed one. *)
Definition sample_sent : Item := stolen_buffer false 5 3 (replicate 39 0).

#[local] Ltac eval_state := cbn [steal_start ss_slaves ss_inbox ss_infos ss_pushed ss_popped ss_dropped ss_taken].

Lemma sample_reachable :
  exists s, steal_reachable false 5 [1; 2] 0 (fun _ => 1) s /\ ss_pushed s = [sample_item; sample_item] /\
    ss_taken s = [(sample_item, sample_sent)] /\ waiting_items [1; 2] s = [sample_item; sample_sent].
Proof.
  assert (1 ∈ [1; 2] /\ 2 ∈ [1; 2]) as [H1 H2] by set_solver.
  eexists. split.
  - eapply sr_step; [eapply sr_step; [eapply sr_step; [eapply sr_step; [eapply sr_step; [eapply sr_step; [eapply sr_step; [apply sr_start|]|]|]|]|]|]|].
    + eval_state. eapply (ss_push _ _ _ _ _ sample_item 0 false 1 false); [vm_compute; reflexivity|exact H1].
    + eval_state. eapply (ss_receive _ _ _ _ _ 1 0 (CItemLeft sample_item) [] []); [exact H1|by vm_compute|set_solver|done].
    + eval_state. eapply (ss_push _ _ _ _ _ sample_item 0 false 1 false); [vm_compute; reflexivity|exact H1].
    + eval_state. eapply (ss_receive _ _ _ _ _ 1 0 (CItemLeft sample_item) [] []); [exact H1|by vm_compute|set_solver|done].
    + eval_state. eapply (ss_setup _ _ _ _ _ 2 id [1; 2] 0). exact H2.
    + eval_state. eapply (ss_ask _ _ _ _ _ 2 0 3 1); [exact H2|vm_compute; reflexivity].
    + eval_state. eapply (ss_stolen _ _ _ _ _ 1 2 0 128 3 1 [] []); [exact H1|exact H2|by vm_compute|set_solver|vm_compute; reflexivity].
  - split_and!; by vm_compute.
Qed.

Lemma steal_conserves_witness :
  exists s, [sample_item; sample_item; sample_sent] ≡ₚ ss_popped s ++ ss_dropped s ++ [sample_item; sample_item; sample_sent].
Proof.
  destruct sample_reachable as (s & Hs & Hp & Ht & Hw). exists s.
  pose proof (proj1 (steal_conserves false 5 [1; 2] 0 (fun _ => 1) s ltac:(by apply (bool_decide_unpack _); vm_compute) Hs)) as H.
  rewrite Hw, Hp, Ht in H. exact H.
Defined.

(** Twenty-six items for one slave, then a report that it starves. *)
Definition sample_ledger : Ledger :=
  foldl (ledger_exec [1]) ledger_start (replicate 26 (DPush 0 false) ++ [DFeedback 1 true 0 false]).

Lemma sample_ledger_run : ledger_run [1] sample_ledger.
Proof.
  assert (forall ops l, ledger_run [1] l -> Forall (fun op => exists i r, op = DPush i r) ops -> ledger_run [1] (foldl (ledger_exec [1]) l ops)) as H.
  { induction ops as [|op ops IH]; intros l Hl Ho; [done|]. apply Forall_cons in Ho as [(i & r & ->) Ho]. apply IH; [by apply lr_step|done]. }
  unfold sample_ledger. rewrite foldl_app. apply lr_step; [|by vm_compute]. apply H; [apply lr_start|].
  apply Forall_forall. intros op Hop. apply elem_of_replicate in Hop as [-> _]. eauto.
Qed.

Lemma load_aware_credits_witness :
  lg_sent sample_ledger 1 = 26 /\ lg_granted sample_ledger 1 = 50 /\
  forall info, lg_infos sample_ledger !! 1 = Some info -> si_itemsToSend info = 24.
Proof.
  split; [by vm_compute|]. split; [by vm_compute|]. intros info Hi.
  destruct (load_aware_credits [1] sample_ledger 1 sample_ledger_run) as [_ H]. destruct (H info Hi) as (-> & _). by vm_compute.
Defined.

(** Beyond an [int] the counter becomes negative, and the slave is sent nothing. *)
Example credit_overflow :
  option_map (fun infos => si_itemsToSend <$> infos !! 1) (cmdSlaveFeedback 1 true 0 false {[1 := mkSlaveInfo 2147483640 0 0 0 false]}) =
    Some (Some (-2147483631)) /\
  (push_pass [1] (0, false, {[1 := mkSlaveInfo (-2147483631) 0 0 0 false]})).1 = None.
Proof. by vm_compute. Qed.

(** The item a consumer took when its timeout passed is gone, and a report of a
    slave that was sent nothing yet finds no entry. *)
Example pop_timeout_drops :
  pop_pass true (set_sq_right [sample_item] (StealingQueueSlave_init 10)) = (PopNone, Some sample_item, StealingQueueSlave_init 10) /\
  cmdSlaveFeedback 1 true 0 false ∅ = None.
Proof. by vm_compute. Qed.
