(* ===== verification/Rsp.v ===== *)
(** * Reliable stream protocol (co/rspConnection.cpp, rspConnection.h)

    A reliable byte stream over UDP multicast.  Every member of the group is a
    writer and, for every other member, a reader.  A writer numbers its datagrams
    modulo 2^16, keeps them until all readers acknowledged them and repeats what
    readers report missing; a reader reorders datagrams and delivers them in
    sequence.  A listening connection holds one child per member, itself included.

    Buffers are the datagrams they hold; queues of free buffers are their number.
    Each entry point of the protocol thread returns the datagrams it sends.  The
    sockets, the timers and the send rate are not part of the model. *)

From S2P Require Import Prelude Bytes.

Definition CO_RSP_MAX_TIMEOUTS : Z := 1000.
Definition CO_RSP_MAX_NACKS : Z := 300.
Definition CO_RSP_PROTOCOL_VERSION : Z := 0.

Inductive DatagramType :=
| DATA | ACKREQ | NACK | ACK | ID_HELLO | ID_HELLO_REPLY | ID_DENY | ID_CONFIRM | ID_EXIT | COUNTNODE.

#[export] Instance DatagramType_eq : EqDecision DatagramType.
Proof. solve_decision. Defined.

Record DatagramData := mkDatagramData {
  dd_writerID : Z;
  dd_sequence : Z;
  dd_payload : bytes
}.

Definition set_dd_writerID (v : Z) (s : DatagramData) : DatagramData :=
  mkDatagramData v (dd_sequence s) (dd_payload s).
Definition set_dd_sequence (v : Z) (s : DatagramData) : DatagramData :=
  mkDatagramData (dd_writerID s) v (dd_payload s).
Definition set_dd_payload (v : bytes) (s : DatagramData) : DatagramData :=
  mkDatagramData (dd_writerID s) (dd_sequence s) v.

Definition dd_size (d : DatagramData) : Z := Z.of_nat (length (dd_payload d)).

Record Nack := mkNack { nack_start : Z; nack_end : Z }.

(** What a member sends to the group. *)
Inductive Datagram :=
| DgData (d : DatagramData)
| DgAckRequest (writerID sequence : Z)
| DgNack (readerID writerID : Z) (nacks : list Nack)
| DgAck (readerID writerID sequence : Z)
| DgNode (type : DatagramType) (protocolVersion connectionID data : Z).

(** A child connection: what is received from one member. *)
Record RspChild := mkRspChild {
  rc_id : Z;
  rc_sequence : Z;
  rc_acked : Z;
  rc_threadBuffers : Z;
  rc_appBuffers : list (option DatagramData);
  rc_recvBuffers : list (option DatagramData);
  rc_readBuffer : option DatagramData;
  rc_readBufferPos : Z;
  rc_connected : bool
}.

Definition set_rc_id (v : Z) (s : RspChild) : RspChild :=
  mkRspChild v (rc_sequence s) (rc_acked s) (rc_threadBuffers s) (rc_appBuffers s) (rc_recvBuffers s) (rc_readBuffer s) (rc_readBufferPos s) (rc_connected s).
Definition set_rc_sequence (v : Z) (s : RspChild) : RspChild :=
  mkRspChild (rc_id s) v (rc_acked s) (rc_threadBuffers s) (rc_appBuffers s) (rc_recvBuffers s) (rc_readBuffer s) (rc_readBufferPos s) (rc_connected s).
Definition set_rc_acked (v : Z) (s : RspChild) : RspChild :=
  mkRspChild (rc_id s) (rc_sequence s) v (rc_threadBuffers s) (rc_appBuffers s) (rc_recvBuffers s) (rc_readBuffer s) (rc_readBufferPos s) (rc_connected s).
Definition set_rc_threadBuffers (v : Z) (s : RspChild) : RspChild :=
  mkRspChild (rc_id s) (rc_sequence s) (rc_acked s) v (rc_appBuffers s) (rc_recvBuffers s) (rc_readBuffer s) (rc_readBufferPos s) (rc_connected s).
Definition set_rc_appBuffers (v : list (option DatagramData)) (s : RspChild) : RspChild :=
  mkRspChild (rc_id s) (rc_sequence s) (rc_acked s) (rc_threadBuffers s) v (rc_recvBuffers s) (rc_readBuffer s) (rc_readBufferPos s) (rc_connected s).
Definition set_rc_recvBuffers (v : list (option DatagramData)) (s : RspChild) : RspChild :=
  mkRspChild (rc_id s) (rc_sequence s) (rc_acked s) (rc_threadBuffers s) (rc_appBuffers s) v (rc_readBuffer s) (rc_readBufferPos s) (rc_connected s).
Definition set_rc_readBuffer (v : option DatagramData) (s : RspChild) : RspChild :=
  mkRspChild (rc_id s) (rc_sequence s) (rc_acked s) (rc_threadBuffers s) (rc_appBuffers s) (rc_recvBuffers s) v (rc_readBufferPos s) (rc_connected s).
Definition set_rc_readBufferPos (v : Z) (s : RspChild) : RspChild :=
  mkRspChild (rc_id s) (rc_sequence s) (rc_acked s) (rc_threadBuffers s) (rc_appBuffers s) (rc_recvBuffers s) (rc_readBuffer s) v (rc_connected s).
Definition set_rc_connected (v : bool) (s : RspChild) : RspChild :=
  mkRspChild (rc_id s) (rc_sequence s) (rc_acked s) (rc_threadBuffers s) (rc_appBuffers s) (rc_recvBuffers s) (rc_readBuffer s) (rc_readBufferPos s) v.

(** A listening connection: the group member itself. *)
Record RspListener := mkRspListener {
  rl_id : Z;
  rl_idAccepted : bool;
  rl_listening : bool;
  rl_timeouts : Z;
  rl_sequence : Z;
  rl_children : list RspChild;
  rl_newChildren : list Z;
  rl_threadBuffers : list DatagramData;
  rl_appBuffers : Z;
  rl_writeBuffers : list DatagramData;
  rl_repeatQueue : list Nack
}.

Definition set_rl_id (v : Z) (s : RspListener) : RspListener :=
  mkRspListener v (rl_idAccepted s) (rl_listening s) (rl_timeouts s) (rl_sequence s) (rl_children s) (rl_newChildren s) (rl_threadBuffers s) (rl_appBuffers s) (rl_writeBuffers s) (rl_repeatQueue s).
Definition set_rl_idAccepted (v : bool) (s : RspListener) : RspListener :=
  mkRspListener (rl_id s) v (rl_listening s) (rl_timeouts s) (rl_sequence s) (rl_children s) (rl_newChildren s) (rl_threadBuffers s) (rl_appBuffers s) (rl_writeBuffers s) (rl_repeatQueue s).
Definition set_rl_listening (v : bool) (s : RspListener) : RspListener :=
  mkRspListener (rl_id s) (rl_idAccepted s) v (rl_timeouts s) (rl_sequence s) (rl_children s) (rl_newChildren s) (rl_threadBuffers s) (rl_appBuffers s) (rl_writeBuffers s) (rl_repeatQueue s).
Definition set_rl_timeouts (v : Z) (s : RspListener) : RspListener :=
  mkRspListener (rl_id s) (rl_idAccepted s) (rl_listening s) v (rl_sequence s) (rl_children s) (rl_newChildren s) (rl_threadBuffers s) (rl_appBuffers s) (rl_writeBuffers s) (rl_repeatQueue s).
Definition set_rl_sequence (v : Z) (s : RspListener) : RspListener :=
  mkRspListener (rl_id s) (rl_idAccepted s) (rl_listening s) (rl_timeouts s) v (rl_children s) (rl_newChildren s) (rl_threadBuffers s) (rl_appBuffers s) (rl_writeBuffers s) (rl_repeatQueue s).
Definition set_rl_children (v : list RspChild) (s : RspListener) : RspListener :=
  mkRspListener (rl_id s) (rl_idAccepted s) (rl_listening s) (rl_timeouts s) (rl_sequence s) v (rl_newChildren s) (rl_threadBuffers s) (rl_appBuffers s) (rl_writeBuffers s) (rl_repeatQueue s).
Definition set_rl_newChildren (v : list Z) (s : RspListener) : RspListener :=
  mkRspListener (rl_id s) (rl_idAccepted s) (rl_listening s) (rl_timeouts s) (rl_sequence s) (rl_children s) v (rl_threadBuffers s) (rl_appBuffers s) (rl_writeBuffers s) (rl_repeatQueue s).
Definition set_rl_threadBuffers (v : list DatagramData) (s : RspListener) : RspListener :=
  mkRspListener (rl_id s) (rl_idAccepted s) (rl_listening s) (rl_timeouts s) (rl_sequence s) (rl_children s) (rl_newChildren s) v (rl_appBuffers s) (rl_writeBuffers s) (rl_repeatQueue s).
Definition set_rl_appBuffers (v : Z) (s : RspListener) : RspListener :=
  mkRspListener (rl_id s) (rl_idAccepted s) (rl_listening s) (rl_timeouts s) (rl_sequence s) (rl_children s) (rl_newChildren s) (rl_threadBuffers s) v (rl_writeBuffers s) (rl_repeatQueue s).
Definition set_rl_writeBuffers (v : list DatagramData) (s : RspListener) : RspListener :=
  mkRspListener (rl_id s) (rl_idAccepted s) (rl_listening s) (rl_timeouts s) (rl_sequence s) (rl_children s) (rl_newChildren s) (rl_threadBuffers s) (rl_appBuffers s) v (rl_repeatQueue s).
Definition set_rl_repeatQueue (v : list Nack) (s : RspListener) : RspListener :=
  mkRspListener (rl_id s) (rl_idAccepted s) (rl_listening s) (rl_timeouts s) (rl_sequence s) (rl_children s) (rl_newChildren s) (rl_threadBuffers s) (rl_appBuffers s) (rl_writeBuffers s) v.

Section rsp.

(** [_numBuffers], [_payloadSize] and [_ackFreq], from the process attributes. *)
Context (numBuffers payloadSize ackFreq : Z).

Definition max16 : Z := 65535.

Fixpoint findConnection (id : Z) (l : list RspChild) : option RspChild :=
  match l with
  | [] => None
  | c :: l => if rc_id c =? id then Some c else findConnection id l
  end.

(** Replace the child with the identifier of [c]. *)
Fixpoint put_child (c : RspChild) (l : list RspChild) : list RspChild :=
  match l with
  | [] => []
  | x :: l => if rc_id x =? rc_id c then c :: l else x :: put_child c l
  end.

Definition set_child (c : RspChild) (r : RspListener) : RspListener :=
  set_rl_children (put_child c (rl_children r)) r.

(** ** Sending datagrams *)

Definition _sendSimpleDatagram (r : RspListener) (type : DatagramType) (id : Z) : list Datagram :=
  [DgNode type CO_RSP_PROTOCOL_VERSION id (rl_sequence r)].

Definition _sendCountNode (r : RspListener) : list Datagram :=
  match findConnection (rl_id r) (rl_children r) with
  | None => []
  | Some _ => [DgNode COUNTNODE CO_RSP_PROTOCOL_VERSION (rl_id r) (u16 (Z.of_nat (length (rl_children r))))]
  end.

Definition _sendAck (r : RspListener) (writerID sequence : Z) : list Datagram :=
  [DgAck (rl_id r) writerID sequence].

Definition _sendAckRequest (r : RspListener) : list Datagram :=
  [DgAckRequest (rl_id r) (u16 (rl_sequence r - 1))].

(** One nack merged into the queue of repeats: the first overlapping entry that
    grows absorbs it. *)
Fixpoint merge_nack (nack : Nack) (q : list Nack) : option (list Nack) :=
  match q with
  | [] => None
  | old :: q =>
      if (nack_start old <=? nack_end nack) && (nack_end old >=? nack_start nack) &&
         ((nack_start old >? nack_start nack) || (nack_end old <? nack_end nack))
      then Some (mkNack (if nack_start old >? nack_start nack then nack_start nack else nack_start old)
                        (if nack_end old <? nack_end nack then nack_end nack else nack_end old) :: q)
      else match merge_nack nack q with None => None | Some q => Some (old :: q) end
  end.

Fixpoint addRepeat_loop (nacks q : list Nack) : list Nack :=
  match nacks with
  | [] => q
  | nack :: nacks =>
      addRepeat_loop nacks (match merge_nack nack q with Some q => q | None => q ++ [nack] end)
  end.

(** [_addRepeat] without the adaption of the send rate. *)
Definition _addRepeat (nacks : list Nack) (r : RspListener) : RspListener :=
  set_rl_repeatQueue (addRepeat_loop nacks (rl_repeatQueue r)) r.

Definition _sendNack (r : RspListener) (writerID : Z) (nacks : list Nack) : RspListener * list Datagram :=
  if writerID =? rl_id r then (_addRepeat nacks r, []) else (r, [DgNack (rl_id r) writerID nacks]).

(** ** Reading *)

(** [_newDataBuffer]: a free buffer takes the data, if there is one. *)
Definition _newDataBuffer (c : RspChild) : option RspChild :=
  if rc_threadBuffers c >? 0 then Some (set_rc_threadBuffers (rc_threadBuffers c - 1) c) else None.

Definition _pushDataBuffer (r : RspListener) (c : RspChild) (buffer : DatagramData) : RspChild * list Datagram :=
  let out := if Z.rem (rc_sequence c + rl_id r) ackFreq =? 0 then _sendAck r (rc_id c) (rc_sequence c) else [] in
  (set_rc_appBuffers (rc_appBuffers c ++ [Some buffer]) (set_rc_sequence (u16 (rc_sequence c + 1)) c), out).

(** Enqueue the pending data that follows. *)
Fixpoint drain_pending (r : RspListener) (pending : list (option DatagramData)) (c : RspChild) :
    RspChild * list Datagram :=
  match pending with
  | Some buffer :: pending =>
      let '(c, out) := _pushDataBuffer r c buffer in
      let '(c, out') := drain_pending r pending c in
      (c, out ++ out')
  | None :: pending => (set_rc_recvBuffers pending c, [])
  | [] => (set_rc_recvBuffers [] c, [])
  end.

Definition got (l : list (option DatagramData)) (i : Z) : bool :=
  match l !! Z.to_nat i with Some (Some _) => true | _ => false end.

(** The position of the last buffer at or before [i], or -1. *)
Fixpoint last_got (n : nat) (l : list (option DatagramData)) : Z :=
  match n with
  | O => -1
  | S n => if got l (Z.of_nat n) then Z.of_nat n else last_got n l
  end.

(** The nack sent when a datagram arrives out of order at position [size - 1]. *)
Definition early_nack (sequence_ sequence size : Z) (recv : list (option DatagramData)) : option Nack :=
  let i := size - 2 in
  if (i >? 0) && got recv i then None
  else
    let start :=
      if i >? 0 then
        let last := last_got (Z.to_nat (i + 1)) recv in
        if last >=? 0 then u16 (sequence_ + last) else sequence_
      else sequence_ in
    let end_ := u16 (sequence - 1) in
    Some (mkNack start (if end_ <? start then max16 else end_)).

Definition handleData (r : RspListener) (datagram : DatagramData) : bool * RspListener * list Datagram :=
  let writerID := dd_writerID datagram in
  match findConnection writerID (rl_children r) with
  | None => (false, r, [])
  | Some c =>
      let sequence := dd_sequence datagram in
      if rc_sequence c =? sequence then
        match _newDataBuffer c with
        | None => (true, r, [])
        | Some c =>
            let '(c, out) := _pushDataBuffer r c datagram in
            let '(c, out') := drain_pending r (rc_recvBuffers c) c in
            (true, set_child c r, out ++ out')
        end
      else if ((rc_sequence c >? sequence) && (max16 - rc_sequence c + sequence >? numBuffers)) ||
              ((rc_sequence c <? sequence) && (sequence - rc_sequence c >? numBuffers))
      then (true, r, [])
      else
        let size := u16 (sequence - rc_sequence c) in
        if got (rc_recvBuffers c) (size - 1) then (true, r, [])
        else
          match _newDataBuffer c with
          | None => (true, r, [])
          | Some c =>
              let recv := rc_recvBuffers c ++ replicate (Z.to_nat size - length (rc_recvBuffers c)) None in
              let recv := <[Z.to_nat (size - 1) := Some datagram]> recv in
              let r := set_child (set_rc_recvBuffers recv c) r in
              match early_nack (rc_sequence c) sequence size recv with
              | None => (true, r, [])
              | Some nack => let '(r, out) := _sendNack r writerID [nack] in (true, r, out)
              end
          end
  end.

(** Close an open range at [end_], split where the sequence wraps around. *)
Definition close_nack (start end_ : Z) : list Nack :=
  if end_ <? start then [mkNack start max16; mkNack 0 end_] else [mkNack start end_].

(** The loop over the out-of-order buffers: [skipping] while it looks for the next
    hole.  The result: the closed ranges, the start of the open one, and whether
    the end was reached. *)
Fixpoint nack_scan (sequence pos : Z) (l : list (option DatagramData)) (nacks : list Nack) (start : Z)
    (skipping : bool) : list Nack * Z * bool :=
  match l with
  | [] => (nacks, start, true)
  | b :: l' =>
      if skipping then
        match b with
        | Some _ => nack_scan sequence (pos + 1) l' nacks start true
        | None => nack_scan sequence (pos + 1) l' nacks (u16 (sequence + pos + 1)) false
        end
      else if Z.of_nat (length nacks) <? CO_RSP_MAX_NACKS - 2 then
        match b with
        | Some _ => nack_scan sequence (pos + 1) l' (nacks ++ close_nack start (u16 (sequence + pos))) start true
        | None => nack_scan sequence (pos + 1) l' nacks start false
        end
      else (nacks, start, false)
  end.

Definition last_nack_end (nacks : list Nack) : Z :=
  match last nacks with Some n => nack_end n | None => 0 end.

Definition missing_nacks (c : RspChild) (reqID : Z) : list Nack :=
  let '(nacks, start, at_end) := nack_scan (rc_sequence c) 0 (rc_recvBuffers c) [] (rc_sequence c) false in
  if negb at_end || bool_decide (nacks = []) then nacks ++ close_nack start reqID
  else if u16 (reqID - last_nack_end nacks) <? numBuffers
  then nacks ++ close_nack (u16 (last_nack_end nacks + 1)) reqID
  else nacks.

Definition handleAckRequest (r : RspListener) (writerID reqID : Z) : bool * RspListener * list Datagram :=
  match findConnection writerID (rl_children r) with
  | None => (false, r, [])
  | Some c =>
      let gotID := u16 (rc_sequence c - 1) in
      let distance := u16 (reqID - gotID) in
      if (reqID =? gotID) || ((gotID >? reqID) && (gotID - reqID <=? numBuffers)) ||
         ((gotID <? reqID) && (distance >? numBuffers))
      then (true, r, _sendAck r (rc_id c) gotID)
      else let '(r, out) := _sendNack r (rc_id c) (missing_nacks c reqID) in (true, r, out)
  end.

(** [readSync] takes from the buffer being read; [None] where it waits for data.
    The bytes read, and the result -1 or the number of bytes. *)
Fixpoint readSync_loop (fuel : nat) (c : RspChild) (bytesLeft : Z) : option (RspChild * bytes * bool) :=
  if bytesLeft <=? 0 then Some (c, [], true)
  else
    match fuel with
    | O => None
    | S fuel =>
        let use c datagram :=
          let dataLeft := dd_size datagram - rc_readBufferPos c in
          let size := Z.min bytesLeft dataLeft in
          let data := take (Z.to_nat size) (drop (Z.to_nat (rc_readBufferPos c)) (dd_payload datagram)) in
          let c := set_rc_readBufferPos (rc_readBufferPos c + size) c in
          let c := if rc_readBufferPos c >=? dd_size datagram
                   then set_rc_readBuffer None (set_rc_readBufferPos 0
                          (set_rc_threadBuffers (rc_threadBuffers c + 1) c))
                   else c in
          match readSync_loop fuel c (bytesLeft - size) with
          | Some (c, data', ok) => Some (c, data ++ data', ok)
          | None => None
          end in
        match rc_readBuffer c with
        | Some datagram => use c datagram
        | None =>
            match rc_appBuffers c with
            | [] => None
            | Some datagram :: app => use (set_rc_readBuffer (Some datagram) (set_rc_appBuffers app c)) datagram
            | None :: app => Some (set_rc_connected false (set_rc_appBuffers app c), [], false)
            end
        end
    end.

(** Every round but the last finishes a buffer. *)
Definition readSync (c : RspChild) (nBytes : Z) : option (RspChild * bytes * Z) :=
  if negb (rc_connected c) then Some (c, [], -1)
  else
    match readSync_loop (S (S (length (rc_appBuffers c)))) c nBytes with
    | Some (c, data, true) => Some (c, data, nBytes)
    | Some (c, data, false) => Some (c, data, if decide (data = []) then -1 else Z.of_nat (length data))
    | None => None
    end.

(** ** Writing *)

(** The datagrams of a [write]. *)
Fixpoint write_packets (n : nat) (id : Z) (data : bytes) : list DatagramData :=
  match n with
  | O => []
  | S n => mkDatagramData id 0 (take (Z.to_nat payloadSize) data) ::
           write_packets n id (drop (Z.to_nat payloadSize) data)
  end.

Definition nDatagrams (nBytes : Z) : Z :=
  let n := nBytes `quot` payloadSize in if n * payloadSize =? nBytes then n else n + 1.

(** [write]; [None] where it waits for free buffers. *)
Definition write (r : RspListener) (data : bytes) : option RspListener :=
  let n := nDatagrams (Z.of_nat (length data)) in
  if rl_appBuffers r <? n then None
  else Some (set_rl_appBuffers (rl_appBuffers r - n)
               (set_rl_threadBuffers (rl_threadBuffers r ++ write_packets (Z.to_nat n) (rl_id r) data) r)).

(** The loop of [_writeData] that merges the following buffers into a datagram:
    the datagram, the buffers left and the number of buffers freed. *)
Fixpoint merge_writes (d : DatagramData) (l : list DatagramData) : DatagramData * list DatagramData * Z :=
  match l with
  | [] => (d, [], 0)
  | d2 :: l' =>
      if negb (dd_size d <? payloadSize) then (d, l, 0)
      else if dd_size d + dd_size d2 >? payloadSize then (d, l, 0)
      else let '(d, l, n) := merge_writes (set_dd_payload (dd_payload d ++ dd_payload d2) d) l' in (d, l, n + 1)
  end.

(** [_finishWriteQueue]: deliver the datagrams up to [sequence] to the member
    itself and free their buffers; [None] where it waits for free read buffers. *)
Definition _finishWriteQueue (r : RspListener) (sequence : Z) : option RspListener :=
  match findConnection (rl_id r) (rl_children r) with
  | None => None
  | Some c =>
      let size := u16 (rl_sequence r - sequence - 1) in
      let n := Z.max 0 (Z.of_nat (length (rl_writeBuffers r)) - size) in
      if rc_threadBuffers c <? n then None
      else
        let buffers := take (Z.to_nat n) (rl_writeBuffers r) in
        let c := set_rc_threadBuffers (rc_threadBuffers c - n)
                   (set_rc_appBuffers (rc_appBuffers c ++ (Some <$> buffers))
                     (set_rc_sequence (u16 (rc_sequence c + n)) c)) in
        let c := set_rc_acked (u16 (rc_sequence c - 1)) c in
        Some (set_rl_timeouts 0 (set_rl_appBuffers (rl_appBuffers r + n)
               (set_rl_writeBuffers (drop (Z.to_nat n) (rl_writeBuffers r)) (set_child c r))))
  end.

Definition _writeData (r : RspListener) : option (RspListener * list Datagram) :=
  match rl_threadBuffers r with
  | [] => Some (r, [])
  | d :: l =>
      let d := set_dd_sequence (rl_sequence r) d in
      let '(d, l, freed) := merge_writes d l in
      let r := set_rl_writeBuffers (rl_writeBuffers r ++ [d])
                 (set_rl_appBuffers (rl_appBuffers r + freed)
                   (set_rl_threadBuffers l (set_rl_sequence (u16 (rl_sequence r + 1)) (set_rl_timeouts 0 r)))) in
      match rl_children r with
      | [_] => match _finishWriteQueue r (u16 (rl_sequence r - 1)) with
               | Some r => Some (r, [DgData d])
               | None => None
               end
      | _ => Some (r, [DgData d])
      end
  end.

(** [_repeatData]: repeat one datagram; the fuel is the number of datagrams
    requested. *)
Fixpoint repeatData_loop (fuel : nat) (sequence : Z) (bufs : list DatagramData) (q : list Nack) :
    list Nack * list Datagram :=
  match fuel, q with
  | S fuel, request :: q' =>
      let distance := u16 (sequence - nack_start request) in
      if distance =? 0 then repeatData_loop fuel sequence bufs q'
      else
        let rest := if nack_start request =? nack_end request then q'
                    else mkNack (u16 (nack_start request + 1)) (nack_end request) :: q' in
        if distance <=? Z.of_nat (length bufs) then
          (rest, match bufs !! Z.to_nat (Z.of_nat (length bufs) - distance) with
                 | Some d => [DgData d]
                 | None => []
                 end)
        else repeatData_loop fuel sequence bufs rest
  | _, _ => (q, [])
  end.

Definition requested (q : list Nack) : nat :=
  foldr (fun n k => (Z.to_nat (u16 (nack_end n - nack_start n)) + 1 + k)%nat) O q.

Definition _repeatData (r : RspListener) : RspListener * list Datagram :=
  let '(q, out) := repeatData_loop (requested (rl_repeatQueue r)) (rl_sequence r) (rl_writeBuffers r) (rl_repeatQueue r) in
  (set_rl_repeatQueue q (set_rl_timeouts 0 r), out).

(** The acknowledged sequence all readers share, starting from the one received. *)
Definition min_acked (id acked : Z) (children : list RspChild) : Z :=
  fold_left (fun acked c => if rc_id c =? id then acked
                            else if u16 (rc_acked c - acked) >? numBuffers then rc_acked c else acked) children acked.

Definition handleAck (r : RspListener) (readerID writerID sequence : Z) : option (bool * RspListener) :=
  if negb (writerID =? rl_id r) then Some (true, r)
  else
    match findConnection readerID (rl_children r) with
    | None => Some (false, r)
    | Some c =>
        if (rc_acked c >=? sequence) && (rc_acked c - sequence <=? numBuffers) then Some (true, r)
        else
          let r := set_rl_timeouts 0 (set_child (set_rc_acked sequence c) r) in
          let acked := min_acked (rl_id r) sequence (rl_children r) in
          match findConnection (rl_id r) (rl_children r) with
          | None => None
          | Some self =>
              if u16 (acked - rc_acked self) <=? numBuffers
              then match _finishWriteQueue r acked with Some r => Some (true, r) | None => None end
              else Some (true, r)
          end
    end.

Definition handleNack (r : RspListener) (readerID writerID : Z) (nacks : list Nack) : bool * RspListener :=
  if negb (rl_id r =? writerID) then (true, r)
  else
    match findConnection readerID (rl_children r) with
    | None => (false, r)
    | Some _ => (true, _addRepeat nacks (set_rl_timeouts 0 r))
    end.

(** ** Membership *)

Definition new_child (id sequence buffers : Z) : RspChild :=
  mkRspChild id sequence max16 buffers [] [] None 0 true.

Definition _addConnection (r : RspListener) (id sequence : Z) : bool * RspListener * list Datagram :=
  match findConnection id (rl_children r) with
  | Some _ => (false, r, [])
  | None =>
      let r := set_rl_children (rl_children r ++ [new_child id sequence numBuffers]) r in
      let out := _sendCountNode r in
      (true, set_rl_newChildren (rl_newChildren r ++ [id]) r, out)
  end.

(** [acceptSync]: the last child not accepted yet. *)
Definition acceptSync (r : RspListener) : option Z * RspListener :=
  if negb (rl_listening r) then (None, r)
  else match last (rl_newChildren r) with
       | None => (None, r)
       | Some id => (Some id, set_rl_newChildren (take (length (rl_newChildren r) - 1) (rl_newChildren r)) r)
       end.

(** The child closed: it is told by a null buffer and returned. *)
Definition _removeConnection (r : RspListener) (id : Z) : RspListener * option RspChild * list Datagram :=
  if id =? rl_id r then (r, None, [])
  else
    match list_find (fun c => rc_id c = id) (rl_children r) with
    | Some (i, c) =>
        let r := set_rl_children (delete i (rl_children r)) r in
        (r, Some (set_rc_appBuffers (rc_appBuffers c ++ [None]) c), _sendCountNode r)
    | None => (r, None, _sendCountNode r)
    end.

Definition _checkNewID (r : RspListener) (id : Z) : list Datagram :=
  if (id =? rl_id r) || bool_decide (is_Some (findConnection id (rl_children r)))
  then _sendSimpleDatagram r ID_DENY (rl_id r)
  else _sendSimpleDatagram r ID_HELLO_REPLY (rl_id r).

(** [_handleAcceptIDData]; [newID] is the next random identifier. *)
Definition handleAcceptIDData (r : RspListener) (newID : Z) (type : DatagramType) (protocolVersion id data : Z) :
    RspListener * list Datagram :=
  if negb (protocolVersion =? CO_RSP_PROTOCOL_VERSION) then (r, [])
  else
    match type with
    | ID_HELLO => (r, _checkNewID r id)
    | ID_HELLO_REPLY => let '(_, r, out) := _addConnection r id data in (r, out)
    | ID_DENY =>
        if id =? rl_id r then
          let r := set_rl_id newID (set_rl_timeouts 0 r) in (r, _sendSimpleDatagram r ID_HELLO newID)
        else (r, [])
    | ID_EXIT => let '(r, _, out) := _removeConnection r id in (r, out)
    | _ => (r, [])
    end.

Definition handleInitData (r : RspListener) (connected : bool) (type : DatagramType) (protocolVersion id data : Z) :
    RspListener * list Datagram :=
  if negb (protocolVersion =? CO_RSP_PROTOCOL_VERSION) then (r, [])
  else
    match type with
    | ID_HELLO => let r := if connected then r else set_rl_timeouts 0 r in (r, _checkNewID r id)
    | ID_CONFIRM =>
        let r := if connected then r else set_rl_timeouts 0 r in
        let '(_, r, out) := _addConnection r id data in (r, out)
    | ID_HELLO_REPLY => let '(_, r, out) := _addConnection r id data in (r, out)
    | ID_EXIT => let '(r, _, out) := _removeConnection r id in (r, out)
    | _ => (r, [])
    end.

Definition handleAcceptIDTimeout (r : RspListener) : RspListener * list Datagram :=
  let r := set_rl_timeouts (rl_timeouts r + 1) r in
  if rl_timeouts r <? 20 then (r, _sendSimpleDatagram r ID_HELLO (rl_id r))
  else
    let out := _sendSimpleDatagram r ID_CONFIRM (rl_id r) in
    let '(_, r, out') := _addConnection r (rl_id r) (rl_sequence r) in
    let r := set_rl_timeouts 0 (set_rl_idAccepted true r) in
    (r, out ++ out' ++ _sendCountNode r).

Definition handleInitTimeout (r : RspListener) : RspListener * list Datagram :=
  let r := set_rl_timeouts (rl_timeouts r + 1) r in
  if rl_timeouts r <? 20 then (r, _sendCountNode r)
  else (set_rl_timeouts 0 (set_rl_listening true r), []).

(** ** The protocol thread *)

(** [_handleConnectedData] *)
Definition handleConnectedData (r : RspListener) (d : Datagram) : option (RspListener * list Datagram) :=
  match d with
  | DgData d => let '(_, r, out) := handleData r d in Some (r, out)
  | DgAck readerID writerID sequence =>
      match handleAck r readerID writerID sequence with Some (_, r) => Some (r, []) | None => None end
  | DgNack readerID writerID nacks => let '(_, r) := handleNack r readerID writerID nacks in Some (r, [])
  | DgAckRequest writerID sequence => let '(_, r, out) := handleAckRequest r writerID sequence in Some (r, out)
  | DgNode type protocolVersion id data => Some (handleInitData r true type protocolVersion id data)
  end.

(** [_processOutgoing]: what is sent and the timeout set, if any; [elapsed] is the
    time on the clock, [ackTimeout] [IATTR_RSP_ACK_TIMEOUT]. *)
Definition _processOutgoing (r : RspListener) (elapsed ackTimeout : Z) :
    option (RspListener * list Datagram * option Z) :=
  match (match rl_repeatQueue r with [] => _writeData r | _ => Some (_repeatData r) end) with
  | None => None
  | Some (r, out) =>
      if negb (bool_decide (rl_threadBuffers r = [] /\ rl_repeatQueue r = [])) then Some (r, out, Some 0)
      else if bool_decide (rl_writeBuffers r = []) then Some (set_rl_timeouts 0 r, out, None)
      else if ackTimeout - elapsed >? 0 then Some (r, out, Some (ackTimeout - elapsed))
      else
        let r := set_rl_timeouts (rl_timeouts r + 1) r in
        Some (r, out ++ (if rl_timeouts r <? CO_RSP_MAX_TIMEOUTS then _sendAckRequest r else []), Some ackTimeout)
  end.

Definition _clearWriteQueues (r : RspListener) : option RspListener :=
  let r := set_rl_writeBuffers (rl_writeBuffers r ++ rl_threadBuffers r) (set_rl_threadBuffers [] r) in
  _finishWriteQueue r (u16 (rl_sequence r - 1)).

(** Whether a child keeps the connection alive after too many timeouts. *)
Definition responsive (r : RspListener) (c : RspChild) : bool :=
  (rc_acked c >=? rl_sequence r - numBuffers) && negb (rc_id c =? rl_id r).

(** The second loop of [_handleConnectedTimeout]: drop the members that lag. *)
Fixpoint drop_lagging (ids : list Z) (r : RspListener) : RspListener * list Datagram :=
  match ids with
  | [] => (r, [])
  | id :: ids =>
      match findConnection id (rl_children r) with
      | None => drop_lagging ids r
      | Some c =>
          if (rc_acked c <? rl_sequence r - 1) && negb (rl_id r =? rc_id c) then
            let out := _sendSimpleDatagram r ID_EXIT (rc_id c) in
            let '(r, _, out') := _removeConnection r (rc_id c) in
            let '(r, out'') := drop_lagging ids r in (r, out ++ out' ++ out'')
          else
            let wb := u16 (Z.of_nat (length (rl_writeBuffers r))) in
            drop_lagging ids (set_child (set_rc_acked (u16 (rl_sequence r - wb)) c) r)
      end
  end.

(** [_handleConnectedTimeout]; the null buffer that makes a waiting [write] fail is
    left out. *)
Definition handleConnectedTimeout (r : RspListener) (elapsed ackTimeout : Z) : option (RspListener * list Datagram) :=
  if negb (rl_listening r) then
    match _clearWriteQueues r with Some r => Some (r, []) | None => None end
  else
    match _processOutgoing r elapsed ackTimeout with
    | None => None
    | Some (r, out, _) =>
        if rl_timeouts r >=? CO_RSP_MAX_TIMEOUTS then
          if forallb (fun c => negb (responsive r c)) (rl_children r) then
            let out := out ++ _sendSimpleDatagram r ID_EXIT (rl_id r) in
            let r := set_rl_children ((fun c => set_rc_connected false (set_rc_appBuffers (rc_appBuffers c ++ [None]) c)) <$> rl_children r) r in
            match _clearWriteQueues r with Some r => Some (r, out) | None => None end
          else
            let '(r, out') := drop_lagging (rc_id <$> rl_children r) r in
            Some (set_rl_timeouts 0 r, out ++ out')
        else Some (r, out)
    end.

(** [_handleTimeout] and [_handlePacket]: the protocol thread by state.  Datagrams of
    other kinds that arrive before the member listens are ignored. *)
Definition handleTimeout (r : RspListener) (elapsed ackTimeout : Z) : option (RspListener * list Datagram) :=
  if rl_listening r then handleConnectedTimeout r elapsed ackTimeout
  else if rl_idAccepted r then Some (handleInitTimeout r)
  else Some (handleAcceptIDTimeout r).

Definition handlePacket (r : RspListener) (newID elapsed ackTimeout : Z) (d : Datagram) :
    option (RspListener * list Datagram) :=
  if rl_listening r then
    match handleConnectedData r d with
    | None => None
    | Some (r, out) =>
        if rl_listening r then
          match _processOutgoing r elapsed ackTimeout with
          | None => None
          | Some (r, out', _) => Some (r, out ++ out')
          end
        else Some (r, out)
    end
  else
    match d with
    | DgNode type protocolVersion id data =>
        Some (if rl_idAccepted r then handleInitData r false type protocolVersion id data
              else handleAcceptIDData r newID type protocolVersion id data)
    | _ => Some (r, [])
    end.

End rsp.

(** ** Sequence numbers

    An index counts datagrams from the start of a stream; a sequence number is an
    index modulo 2^16. *)

Lemma u16_eq a b : -65536 < a - b < 65536 -> u16 a = u16 b -> a = b.
Proof. unfold u16. intros. Z.div_mod_to_equations. lia. Qed.

Lemma u16_sub a b : u16 (u16 a - u16 b) = u16 (a - b).
Proof. unfold u16. by rewrite <-Zminus_mod. Qed.

Lemma u16_add a b : u16 (u16 a + b) = u16 (a + b).
Proof. unfold u16. by rewrite Zplus_mod_idemp_l. Qed.

Lemma u16_bounds a : 0 <= u16 a < 65536.
Proof. unfold u16. Z.div_mod_to_equations. lia. Qed.

Lemma u16_id a : 0 <= a < 65536 -> u16 a = a.
Proof. intros. unfold u16. by apply Z.mod_small. Qed.

(** The two ways a difference of sequence numbers can come out. *)
Lemma u16_diff a b : 0 <= a - b < 65536 -> u16 a - u16 b = a - b \/ u16 a - u16 b = a - b - 65536.
Proof. unfold u16. intros. Z.div_mod_to_equations. lia. Qed.

(** ** Reading *)

Section reader.

Context (numBuffers ackFreq : Z) (Hnum : 0 < numBuffers < 32768).
(** The writer and the payloads of its datagrams. *)
Context (w : Z) (D : Z -> bytes).

Definition datagram (k : Z) : DatagramData := mkDatagramData w (u16 k) (D k).

(** A child that delivered all datagrams before [n]. *)
Record reader_ok (c : RspChild) (n : Z) : Prop := {
  rk_id : rc_id c = w;
  rk_sequence : rc_sequence c = u16 n;
  rk_recv : forall i b, rc_recvBuffers c !! i = Some (Some b) -> b = datagram (n + 1 + Z.of_nat i);
  rk_length : Z.of_nat (length (rc_recvBuffers c)) <= numBuffers + 1;
  rk_last : last (rc_recvBuffers c) <> Some None;
}.

Lemma find_put c l c0 : findConnection (rc_id c) l = Some c0 -> findConnection (rc_id c) (put_child c l) = Some c.
Proof.
  induction l as [|x l IH]; cbn; [done|]. destruct (Z.eqb_spec (rc_id x) (rc_id c)) as [|Hx]; cbn.
  - by rewrite Z.eqb_refl.
  - apply Z.eqb_neq in Hx. rewrite Hx. apply IH.
Qed.

Lemma find_put_ne c l id : id <> rc_id c -> findConnection id (put_child c l) = findConnection id l.
Proof.
  intros Hid. induction l as [|x l IH]; cbn; [done|]. destruct (Z.eqb_spec (rc_id x) (rc_id c)) as [Hx|Hx]; cbn.
  - rewrite !(proj2 (Z.eqb_neq _ _)) by congruence. done.
  - by rewrite IH.
Qed.

Lemma find_id id l c : findConnection id l = Some c -> rc_id c = id.
Proof.
  induction l as [|x l IH]; cbn; [done|]. destruct (Z.eqb_spec (rc_id x) id); [by intros [= <-]|done].
Qed.

(** Datagrams [n] to [n + k - 1] as buffers for the application. *)
Definition deliveries (n : Z) (k : nat) : list (option DatagramData) :=
  (fun i => Some (datagram i)) <$> seqZ n (Z.of_nat k).

Lemma deliveries_cons n k : deliveries n (S k) = Some (datagram n) :: deliveries (n + 1) k.
Proof. unfold deliveries. rewrite seqZ_cons by lia. cbn. do 3 f_equal; lia. Qed.

(** The acknowledgements name datagrams delivered before [n]. *)
Definition acks_before (r : RspListener) (lo n : Z) (out : list Datagram) : Prop :=
  Forall (fun d => exists m, lo <= m < n /\ d = DgAck (rl_id r) w (u16 m)) out.

Lemma acks_before_app r lo n out1 out2 :
  acks_before r lo n out1 -> acks_before r lo n out2 -> acks_before r lo n (out1 ++ out2).
Proof. apply Forall_app_2. Qed.

Lemma acks_before_mono r lo n lo' n' out :
  acks_before r lo n out -> lo' <= lo -> n <= n' -> acks_before r lo' n' out.
Proof. intros Ha Hl Hn. eapply Forall_impl; [exact Ha|]. cbn. intros d (m & Hm & ->). exists m. split; [lia|done]. Qed.

Lemma push_spec r c n buffer c' out :
  rc_id c = w -> rc_sequence c = u16 n -> _pushDataBuffer ackFreq r c buffer = (c', out) ->
  c' = set_rc_appBuffers (rc_appBuffers c ++ [Some buffer]) (set_rc_sequence (u16 (n + 1)) c) /\
  acks_before r n (n + 1) out.
Proof.
  intros Hid Hs. unfold _pushDataBuffer, _sendAck. rewrite Hs, u16_add, Hid. intros [= <- <-]. split; [done|].
  destruct (_ =? 0); [|constructor]. constructor; [|constructor]. exists n. split; [lia|done].
Qed.

(** Draining: as many of the pending buffers as follow without a gap. *)
Lemma drain_spec r pending c n c' out :
  rc_id c = w -> rc_sequence c = u16 n ->
  (forall i b, pending !! i = Some (Some b) -> b = datagram (n + Z.of_nat i)) ->
  Z.of_nat (length pending) <= numBuffers + 1 -> last pending <> Some None ->
  drain_pending ackFreq r pending c = (c', out) ->
  exists k, reader_ok c' (n + Z.of_nat k) /\ rc_appBuffers c' = rc_appBuffers c ++ deliveries n k /\
    acks_before r n (n + Z.of_nat k) out /\ rc_threadBuffers c' = rc_threadBuffers c /\
    rc_readBuffer c' = rc_readBuffer c /\ rc_readBufferPos c' = rc_readBufferPos c /\ rc_connected c' = rc_connected c.
Proof.
  revert c n c' out. induction pending as [|[b|] pending IH]; intros c n c' out Hid Hs Hp Hlen Hlast; cbn [drain_pending].
  - intros [= <- <-]. exists O. rewrite app_nil_r, Z.add_0_r. split_and!; try done.
    constructor.
  - destruct (_pushDataBuffer _ _ _ _) as [c1 out1] eqn:E1. apply (push_spec r c n) in E1 as [-> Ha1]; [|done..].
    destruct (drain_pending _ _ pending _) as [c2 out2] eqn:E2. intros [= <- <-].
    assert (b = datagram n) as -> by (rewrite (Hp O b eq_refl); f_equal; lia).
    apply (IH _ (n + 1)) in E2 as (k & Hok & Happ & Ha2 & Hrest); cbn; try done.
    + exists (S k). rewrite deliveries_cons. replace (n + Z.of_nat (S k)) with (n + 1 + Z.of_nat k) by lia.
      split; [done|]. rewrite Happ. cbn. rewrite <-app_assoc. split; [done|].
      split; [apply acks_before_app; eapply acks_before_mono; try done; lia|done].
    + intros i b' Hi. rewrite (Hp (S i) b' Hi). f_equal. lia.
    + cbn in Hlen. lia.
    + by destruct pending.
  - intros [= <- <-]. exists O. rewrite app_nil_r, Z.add_0_r. split_and!; try done; [|constructor].
    split; try done; cbn.
    + intros i b Hi. rewrite (Hp (S i) b Hi). f_equal. lia.
    + cbn in Hlen. lia.
    + by destruct pending.
Qed.

Definition same_reading (c c' : RspChild) : Prop :=
  rc_readBuffer c' = rc_readBuffer c /\ rc_readBufferPos c' = rc_readBufferPos c /\ rc_connected c' = rc_connected c.

(** A datagram out of order is kept at its place. *)
Lemma keep_spec c n k recv :
  reader_ok c n -> 0 < k - n <= numBuffers + 1 ->
  recv = <[Z.to_nat (k - n - 1) := Some (datagram k)]>
           (rc_recvBuffers c ++ replicate (Z.to_nat (k - n) - length (rc_recvBuffers c)) None) ->
  forall free, reader_ok (set_rc_recvBuffers recv (set_rc_threadBuffers free c)) n.
Proof.
  intros [] Hk -> free. set (l := rc_recvBuffers c) in *.
  assert (length (l ++ replicate (Z.to_nat (k - n) - length l) None) = Nat.max (length l) (Z.to_nat (k - n))) as Hlen
    by (rewrite length_app, length_replicate; lia).
  split; cbn; try done.
  - intros i b. destruct (decide (i = Z.to_nat (k - n - 1))) as [->|Hi].
    + rewrite list_lookup_insert_eq by lia. intros [= <-]. f_equal. lia.
    + rewrite list_lookup_insert_ne by done. intros [Hl|[_ Hr]]%lookup_app_Some; [by apply rk_recv0|].
      by apply lookup_replicate in Hr as [? _].
  - rewrite length_insert, Hlen. unfold l in *. lia.
  - rewrite last_lookup, length_insert, Hlen.
    destruct (Nat.le_gt_cases (length l) (Z.to_nat (k - n))) as [Hle|Hgt].
    + rewrite Nat.max_r by lia. replace (Nat.pred (Z.to_nat (k - n))) with (Z.to_nat (k - n - 1)) by lia.
      by rewrite list_lookup_insert_eq by lia.
    + rewrite Nat.max_l, list_lookup_insert_ne, lookup_app_l, <-last_lookup by lia. done.
Qed.

(** What a handler made of the child [c] that delivered all before [n]: it
    delivered [m] more, and acknowledged only what it delivered. *)
Definition received (r : RspListener) (c : RspChild) (n : Z) (res : bool * RspListener * list Datagram) : Prop :=
  let '(_, r', out) := res in
  exists c' m, findConnection w (rl_children r') = Some c' /\ rl_id r' = rl_id r /\
    reader_ok c' (n + Z.of_nat m) /\ rc_appBuffers c' = rc_appBuffers c ++ deliveries n m /\ same_reading c c' /\
    Forall (fun d => match d with
                     | DgAck _ writer s => writer = w /\ exists i, n <= i < n + Z.of_nat m /\ s = u16 i
                     | _ => True
                     end) out.

Lemma received_nothing r c n ok : findConnection w (rl_children r) = Some c -> reader_ok c n -> received r c n (ok, r, []).
Proof.
  intros Hf Hok. exists c, O. rewrite Z.add_0_r, app_nil_r. split_and!; try done.
Qed.

Lemma received_in_order r c n free :
  findConnection w (rl_children r) = Some c -> reader_ok c n ->
  received r c n
    (let '(c, out) := _pushDataBuffer ackFreq r (set_rc_threadBuffers free c) (datagram n) in
     let '(c, out') := drain_pending ackFreq r (rc_recvBuffers c) c in
     (true, set_child c r, out ++ out')).
Proof.
  intros Hf [].
  destruct (_pushDataBuffer _ _ _ _) as [c1 out1] eqn:E1. apply (push_spec r _ n) in E1 as [-> Ha1]; [|done..].
  destruct (drain_pending _ _ _ _) as [c2 out2] eqn:E2.
  apply (drain_spec r _ _ (n + 1)) in E2 as (m & Hok2 & Happ & Ha2 & _ & Hrd); try done.
  exists c2, (S m). replace (n + Z.of_nat (S m)) with (n + 1 + Z.of_nat m) by lia.
  assert (rc_id c2 = w) as Hw by apply Hok2. split_and!; try done.
  - cbn. rewrite <-Hw in Hf |- *. by eapply find_put.
  - rewrite Happ. cbn. by rewrite deliveries_cons, <-app_assoc.
  - apply Forall_app. split; (eapply Forall_impl; [done|]; cbn; intros d (i & Hi & ->); split; [done|]; exists i; split; [lia|done]).
Qed.

Lemma received_kept r c n k free :
  findConnection w (rl_children r) = Some c -> reader_ok c n -> 0 < k - n <= numBuffers + 1 ->
  received r c n
    (let c := set_rc_threadBuffers free c in
     let recv := rc_recvBuffers c ++ replicate (Z.to_nat (k - n) - length (rc_recvBuffers c)) None in
     let recv := <[Z.to_nat (k - n - 1) := Some (datagram k)]> recv in
     let r := set_child (set_rc_recvBuffers recv c) r in
     match early_nack (rc_sequence c) (u16 k) (k - n) recv with
     | None => (true, r, [])
     | Some nack => let '(r, out) := _sendNack r w [nack] in (true, r, out)
     end).
Proof.
  intros Hf Hok Hk. cbv zeta. set (recv := <[_ := _]> _).
  pose proof (keep_spec c n k recv Hok Hk eq_refl free) as Hkeep. set (c' := set_rc_recvBuffers recv _) in *.
  assert (findConnection w (put_child c' (rl_children r)) = Some c') as Hf'.
  { rewrite <-(rk_id _ _ Hkeep) in Hf |- *. by eapply find_put. }
  assert (forall r' out, rl_children r' = put_child c' (rl_children r) -> rl_id r' = rl_id r ->
    Forall (fun d => match d with DgAck _ _ _ => False | _ => True end) out -> received r c n (true, r', out)) as Hdone.
  { intros r' out Hc Hid Hout. exists c', O. rewrite Hc, Z.add_0_r, app_nil_r. split_and!; try done.
    eapply Forall_impl; [exact Hout|]. by intros []. }
  destruct (early_nack _ _ _ _) as [nack|]; [|by apply Hdone].
  unfold _sendNack. destruct (_ =? _); apply Hdone; try done. by repeat constructor.
Qed.

(** Receiving any datagram of the writer, in order or not, that is not too far
    from the reader's position for its sequence number. *)
Lemma handleData_spec r c n k :
  findConnection w (rl_children r) = Some c -> reader_ok c n -> n - (65535 - numBuffers) < k < n + 65536 ->
  received r c n (handleData numBuffers ackFreq r (datagram k)).
Proof.
  intros Hf Hok Hk. unfold handleData. cbn [datagram dd_writerID dd_sequence]. rewrite Hf, (rk_sequence _ _ Hok).
  destruct (Z.eqb_spec (u16 n) (u16 k)) as [Heq|Hne].
  { apply u16_eq in Heq; [|lia]. subst k. unfold _newDataBuffer. destruct (_ >? 0); [|by apply received_nothing].
    by apply received_in_order. }
  destruct (orb _ _) eqn:Hfar; [by apply received_nothing|].
  assert (0 < k - n <= numBuffers + 1) as Hnear.
  { apply orb_false_iff in Hfar as [H1 H2]. pose proof (u16_bounds n). pose proof (u16_bounds k). unfold max16 in *.
    destruct (Z.gtb_spec (u16 n) (u16 k)), (Z.ltb_spec (u16 n) (u16 k)); cbn in H1, H2; try lia.
    - apply Z.gtb_ltb, Z.ltb_ge in H1 || idtac. unfold u16 in *. Z.div_mod_to_equations. lia.
    - unfold u16 in *. Z.div_mod_to_equations. lia. }
  assert (u16 (u16 k - u16 n) = k - n) as -> by (rewrite u16_sub; apply u16_id; lia).
  destruct (got _ _); [by apply received_nothing|]. unfold _newDataBuffer. destruct (_ >? 0); [|by apply received_nothing].
  pose proof (received_kept r c n k (rc_threadBuffers c - 1) Hf Hok Hnear) as Hr.
  cbv zeta in Hr |- *. cbn [rc_sequence set_rc_threadBuffers] in Hr |- *. exact Hr.
Qed.

End reader.

(** ** The application reads *)

(** The bytes delivered and not read yet. *)
Definition unread (c : RspChild) : bytes :=
  (match rc_readBuffer c with Some d => drop (Z.to_nat (rc_readBufferPos c)) (dd_payload d) | None => [] end) ++
  concat (dd_payload <$> omap id (rc_appBuffers c)).

Definition reading_ok (c : RspChild) : Prop :=
  match rc_readBuffer c with
  | Some d => 0 <= rc_readBufferPos c < dd_size d
  | None => rc_readBufferPos c = 0
  end.

(** Reading leaves the protocol's part of a child alone. *)
Definition same_receiving (c c' : RspChild) : Prop :=
  rc_id c' = rc_id c /\ rc_sequence c' = rc_sequence c /\ rc_acked c' = rc_acked c /\
  rc_recvBuffers c' = rc_recvBuffers c.

(** Taking [size] bytes from the buffer being read. *)
Definition take_read (c : RspChild) (d : DatagramData) (size : Z) : RspChild :=
  let c := set_rc_readBufferPos (rc_readBufferPos c + size) c in
  if rc_readBufferPos c >=? dd_size d
  then set_rc_readBuffer None (set_rc_readBufferPos 0 (set_rc_threadBuffers (rc_threadBuffers c + 1) c)) else c.

Lemma take_read_spec c d size :
  rc_readBuffer c = Some d -> 0 <= rc_readBufferPos c -> 0 <= size <= dd_size d - rc_readBufferPos c ->
  take (Z.to_nat size) (drop (Z.to_nat (rc_readBufferPos c)) (dd_payload d)) ++ unread (take_read c d size) = unread c /\
  reading_ok (take_read c d size) /\ same_receiving c (take_read c d size) /\
  rc_appBuffers (take_read c d size) = rc_appBuffers c.
Proof.
  intros Hd Hp Hs. unfold take_read, unread, reading_ok. cbn. rewrite Hd. unfold dd_size in *.
  destruct (Z.geb_spec (rc_readBufferPos c + size) (Z.of_nat (length (dd_payload d)))) as [Hfull|Hpart]; cbn.
  - split_and!; try done. f_equal. apply take_ge. rewrite length_drop. lia.
  - rewrite Hd. split_and!; try done; [|unfold dd_size; lia]. rewrite app_assoc. f_equal.
    replace (Z.to_nat (rc_readBufferPos c + size)) with (Z.to_nat (rc_readBufferPos c) + Z.to_nat size)%nat by lia.
    rewrite <-drop_drop. apply take_drop.
Qed.

Lemma readSync_loop_unfold fuel c left_ :
  readSync_loop (S fuel) c left_ =
    if left_ <=? 0 then Some (c, [], true)
    else
      let use c d :=
        let size := Z.min left_ (dd_size d - rc_readBufferPos c) in
        match readSync_loop fuel (take_read c d size) (left_ - size) with
        | Some (c', data', ok) =>
            Some (c', take (Z.to_nat size) (drop (Z.to_nat (rc_readBufferPos c)) (dd_payload d)) ++ data', ok)
        | None => None
        end in
      match rc_readBuffer c with
      | Some d => use c d
      | None =>
          match rc_appBuffers c with
          | [] => None
          | Some d :: app => use (set_rc_readBuffer (Some d) (set_rc_appBuffers app c)) d
          | None :: app => Some (set_rc_connected false (set_rc_appBuffers app c), [], false)
          end
      end.
Proof. done. Qed.

(** What is read is the beginning of what is unread. *)
Lemma readSync_loop_spec fuel c left_ c' data ok :
  reading_ok c -> readSync_loop fuel c left_ = Some (c', data, ok) ->
  data ++ unread c' = unread c /\ reading_ok c' /\ same_receiving c c'.
Proof.
  revert c left_ c' data ok. induction fuel as [|fuel IH]; intros c left_ c' data ok Hr.
  { cbn. destruct (left_ <=? 0); [|done]. by intros [= <- <- <-]. }
  rewrite readSync_loop_unfold. destruct (Z.leb_spec left_ 0); [by intros [= <- <- <-]|].
  cbv zeta.
  assert (forall c1 d, rc_readBuffer c1 = Some d -> 0 <= rc_readBufferPos c1 <= dd_size d -> same_receiving c c1 ->
    unread c1 = unread c ->
    (let size := Z.min left_ (dd_size d - rc_readBufferPos c1) in
     match readSync_loop fuel (take_read c1 d size) (left_ - size) with
     | Some (c2, data', ok) =>
         Some (c2, take (Z.to_nat size) (drop (Z.to_nat (rc_readBufferPos c1)) (dd_payload d)) ++ data', ok)
     | None => None
     end) = Some (c', data, ok) -> data ++ unread c' = unread c /\ reading_ok c' /\ same_receiving c c') as Huse.
  { intros c1 d Hd Hp Hsame Hun. cbv zeta. set (size := Z.min _ _).
    destruct (readSync_loop fuel _ _) as [[[c2 data2] ok2]|] eqn:E; [|done]. intros [= <- <- <-].
    destruct (take_read_spec c1 d size Hd) as (Hu & Hro & Hsr & _); [lia|unfold size; lia|].
    apply IH in E as (Hu2 & Hro2 & Hsr2); [|done]. split_and!; [|done|unfold same_receiving in *; naive_solver congruence].
    by rewrite <-app_assoc, Hu2, Hu. }
  destruct (rc_readBuffer c) as [d|] eqn:Hd.
  - apply Huse; try done. unfold reading_ok in Hr. rewrite Hd in Hr. lia.
  - unfold reading_ok in Hr. rewrite Hd in Hr. destruct (rc_appBuffers c) as [|[d|] app] eqn:Ha; [done|..].
    + apply Huse; try done; cbn; [rewrite Hr; unfold dd_size; lia|]. unfold unread. cbn. rewrite Hd, Ha, Hr. done.
    + intros [= <- <- <-]. unfold unread, reading_ok. cbn. rewrite Hd, Ha, Hr. done.
Qed.

Lemma readSync_spec c n c' data res :
  reading_ok c -> readSync c n = Some (c', data, res) ->
  data ++ unread c' = unread c /\ reading_ok c' /\ same_receiving c c'.
Proof.
  intros Hr. unfold readSync. destruct (negb _); [by intros [= <- <- <-]|].
  destruct (readSync_loop _ _ _) as [[[c1 d1] []]|] eqn:E; [..|done]; intros [= <- <- <-];
    by eapply readSync_loop_spec.
Qed.


(** ** Writing *)

Section writer.

Context (numBuffers payloadSize ackFreq : Z) (Hpay : 0 < payloadSize).

Definition payloads (l : list DatagramData) : bytes := concat (dd_payload <$> l).

Lemma payloads_app l1 l2 : payloads (l1 ++ l2) = payloads l1 ++ payloads l2.
Proof. unfold payloads. by rewrite fmap_app, concat_app. Qed.

(** [write] cuts its data into datagrams of the payload size. *)
Lemma write_packets_spec n id data :
  (length data <= n * Z.to_nat payloadSize)%nat ->
  payloads (write_packets payloadSize n id data) = data /\
  Forall (fun d => dd_writerID d = id /\ dd_size d <= payloadSize) (write_packets payloadSize n id data).
Proof.
  revert data. induction n as [|n IH]; intros data Hl; cbn [write_packets].
  - destruct data; [|cbn in Hl; lia]. split; [done|constructor].
  - destruct (IH (drop (Z.to_nat payloadSize) data)) as [H1 H2]; [rewrite length_drop; lia|]. split.
    + unfold payloads in *. cbn. rewrite H1. apply take_drop.
    + constructor; [|done]. unfold dd_size. cbn. rewrite length_take. lia.
Qed.

Lemma nDatagrams_enough len : 0 <= len -> len <= nDatagrams payloadSize len * payloadSize /\ 0 <= nDatagrams payloadSize len.
Proof.
  intros Hl. unfold nDatagrams. pose proof (Z.quot_rem' len payloadSize). pose proof (Z.rem_bound_pos len payloadSize Hl Hpay).
  pose proof (Z.quot_pos len payloadSize Hl Hpay). destruct (Z.eqb_spec (len `quot` payloadSize * payloadSize) len); nia.
Qed.

(** Merging keeps the bytes in order, the header, and the payload size. *)
Lemma merge_writes_spec d l d' l' n :
  merge_writes payloadSize d l = (d', l', n) ->
  dd_payload d' ++ payloads l' = dd_payload d ++ payloads l /\ dd_writerID d' = dd_writerID d /\
  dd_sequence d' = dd_sequence d /\ 0 <= n /\ Z.of_nat (length l) = Z.of_nat (length l') + n /\
  l' `suffix_of` l /\ (dd_size d <= payloadSize -> dd_size d' <= payloadSize).
Proof.
  revert d d' l' n. induction l as [|d2 l IH]; intros d d' l' n; cbn [merge_writes].
  { intros [= <- <- <-]. split_and!; done. }
  destruct (negb _); [intros [= <- <- <-]; split_and!; done || lia|].
  destruct (Z.gtb_spec (dd_size d + dd_size d2) payloadSize); [intros [= <- <- <-]; split_and!; done || lia|].
  destruct (merge_writes _ _ l) as [[d1 l1] n1] eqn:E. intros [= <- <- <-].
  apply IH in E as (H1 & H2 & H3 & H4 & H5 & H6 & H7). split_and!; try done.
  - rewrite H1. cbn. unfold payloads. cbn. by rewrite <-app_assoc.
  - lia.
  - cbn [length]. lia.
  - by apply suffix_cons_r.
  - intros _. apply H7. unfold dd_size in *. cbn. rewrite length_app. lia.
Qed.

(** A writer that sent the datagrams [sent] of the bytes [written]. *)
Record writer_ok (r : RspListener) (D : Z -> bytes) (sent : nat) (written : bytes) : Prop := {
  wk_sequence : rl_sequence r = u16 (Z.of_nat sent);
  wk_written : concat (D <$> seqZ 0 (Z.of_nat sent)) ++ payloads (rl_threadBuffers r) = written;
  wk_thread : Forall (fun d => dd_writerID d = rl_id r) (rl_threadBuffers r);
  wk_write : rl_writeBuffers r = datagram (rl_id r) D <$>
               seqZ (Z.of_nat sent - Z.of_nat (length (rl_writeBuffers r))) (Z.of_nat (length (rl_writeBuffers r)));
  wk_length : (length (rl_writeBuffers r) <= sent)%nat;
}.

Lemma write_ok r D sent written data r' :
  writer_ok r D sent written -> write payloadSize r data = Some r' -> writer_ok r' D sent (written ++ data).
Proof.
  intros [] Hw. unfold write in Hw. destruct (_ <? _); [done|]. injection Hw as <-.
  destruct (nDatagrams_enough (Z.of_nat (length data))) as [He Hn]; [lia|].
  destruct (write_packets_spec (Z.to_nat (nDatagrams payloadSize (Z.of_nat (length data)))) (rl_id r) data) as [Hp Hf]; [nia|].
  split; cbn -[payloads]; try done.
  - by rewrite payloads_app, Hp, app_assoc, wk_written0.
  - apply Forall_app. split; [done|]. eapply Forall_impl; [exact Hf|]. by intros ? [? _].
Qed.

(** Changes that do not concern the writer. *)
Lemma writer_ok_frame r r' D sent written :
  writer_ok r D sent written -> rl_id r' = rl_id r -> rl_sequence r' = rl_sequence r ->
  rl_threadBuffers r' = rl_threadBuffers r -> rl_writeBuffers r' `suffix_of` rl_writeBuffers r ->
  writer_ok r' D sent written.
Proof.
  intros [] Hid Hs Ht [l Hl]. split; rewrite ?Hid, ?Hs, ?Ht; try done.
  - rewrite Hl in wk_write0. set (k := length (rl_writeBuffers r')) in *.
    rewrite length_app in wk_write0. fold k in wk_write0.
    rewrite Nat2Z.inj_add, (seqZ_app _ (Z.of_nat (length l))), fmap_app in wk_write0 by lia.
    apply app_inj_1 in wk_write0 as [_ ->]; [f_equal; f_equal; lia|].
    rewrite length_fmap, length_seqZ. lia.
  - rewrite Hl, length_app in wk_length0. lia.
Qed.

Lemma finish_frame r sequence r' :
  _finishWriteQueue r sequence = Some r' ->
  rl_id r' = rl_id r /\ rl_sequence r' = rl_sequence r /\ rl_threadBuffers r' = rl_threadBuffers r /\
  rl_writeBuffers r' `suffix_of` rl_writeBuffers r.
Proof.
  unfold _finishWriteQueue. destruct (findConnection _ _); [|done]. destruct (_ <? _); [done|]. intros [= <-].
  split_and!; try done. cbn. apply suffix_drop.
Qed.

Lemma writeData_shape r r' out :
  _writeData payloadSize r = Some (r', out) -> rl_id r' = rl_id r /\ (out = [] \/ exists d, out = [DgData d]).
Proof.
  unfold _writeData. destruct (rl_threadBuffers r) as [|d l]; [intros [= <- <-]; auto|].
  destruct (merge_writes _ _ _) as [[d1 l1] f1]. set (r1 := set_rl_writeBuffers _ _).
  destruct (rl_children r1) as [|? [|??]]; [intros [= <- <-]; eauto| |intros [= <- <-]; eauto].
  destruct (_finishWriteQueue _ _) as [r2|] eqn:E; [|done]. intros [= <- <-]. apply finish_frame in E as [-> _]. eauto.
Qed.

(** Sending a datagram: the next one of the stream. *)
Lemma writeData_ok r D sent written r' out :
  writer_ok r D sent written -> _writeData payloadSize r = Some (r', out) ->
  (forall d, DgData d ∈ out -> D (Z.of_nat sent) = dd_payload d) ->
  (out = [] /\ writer_ok r' D sent written) \/
  (out = [DgData (datagram (rl_id r) D (Z.of_nat sent))] /\ writer_ok r' D (S sent) written).
Proof.
  intros Hok Hw HD. pose proof Hok as []. unfold _writeData in Hw.
  destruct (rl_threadBuffers r) as [|d l] eqn:Et; [injection Hw as <- <-; by left|]. right.
  destruct (merge_writes _ _ _) as [[d' l'] freed] eqn:Em.
  apply merge_writes_spec in Em as (Hp & Hid & Hsq & Hf & Hlen & Hsuf & _).
  set (r1 := set_rl_writeBuffers _ _) in Hw.
  assert (out = [DgData d'] /\ rl_id r' = rl_id r1 /\ rl_sequence r' = rl_sequence r1 /\
    rl_threadBuffers r' = rl_threadBuffers r1 /\ rl_writeBuffers r' `suffix_of` rl_writeBuffers r1) as (-> & Hr').
  { destruct (rl_children r1) as [|? [|? ?]]; [injection Hw as <- <-; split; done| |injection Hw as <- <-; split; done].
    destruct (_finishWriteQueue _ _) as [r2|] eqn:Ef; [|done]. injection Hw as <- <-. split; [done|].
    by apply finish_frame in Ef. }
  specialize (HD d' ltac:(left)). apply Forall_cons in wk_thread0 as [Hd Hl]. cbn in Hid, Hsq.
  assert (d' = datagram (rl_id r) D (Z.of_nat sent)) as ->.
  { destruct d'. cbn in *. unfold datagram. congruence. }
  split; [done|]. eapply writer_ok_frame; [|apply Hr'..]. split; cbn -[payloads].
  - rewrite wk_sequence0, u16_add. f_equal. lia.
  - rewrite seqZ_S, fmap_app, concat_app. cbn -[payloads]. rewrite app_nil_r, <-app_assoc.
    rewrite Z.add_0_l. cbn in Hp. rewrite Hp. exact wk_written0.
  - destruct Hsuf as [l0 ->]. by apply Forall_app in Hl as [_ ?].
  - rewrite length_app. cbn [length]. rewrite Nat.add_1_r, seqZ_S, fmap_app. cbn. rewrite wk_write0 at 1. do 2 f_equal; [f_equal; lia|].
    f_equal. lia.
  - rewrite length_app. cbn. lia.
Qed.

(** Whether a datagram was asked for. *)
Definition nack_ok (nack : Nack) : Prop := is_u16 (nack_start nack) /\ is_u16 (nack_end nack).

Definition asked_for (q : list Nack) (d : DatagramData) : Prop :=
  Exists (fun nack => u16 (dd_sequence d - nack_start nack) <= u16 (nack_end nack - nack_start nack)) q.

Lemma repeat_loop_spec D id sent bufs fuel q q' out :
  bufs = datagram id D <$> seqZ (sent - Z.of_nat (length bufs)) (Z.of_nat (length bufs)) ->
  repeatData_loop fuel (u16 sent) bufs q = (q', out) ->
  out = [] \/ exists k, sent - Z.of_nat (length bufs) <= k < sent /\ sent - k < 65536 /\ out = [DgData (datagram id D k)] /\
    (Forall nack_ok q -> asked_for q (datagram id D k)).
Proof.
  intros Hb. unfold asked_for. revert q q' out. induction fuel as [|fuel IH]; intros q q' out; cbn [repeatData_loop]; [intros [= <- <-]; by left|].
  destruct q as [|request q]; [intros [= <- <-]; by left|]. set (distance := u16 (u16 sent - _)).
  destruct (Z.eqb_spec distance 0).
  { intros E. apply IH in E as [|(k & Hk & Hk' & -> & Ha)]; [by left|]. right. exists k. do 3 (split; [done|]). intros [_ Hq]%Forall_cons. by apply Exists_cons_tl, Ha. }
  set (rest := if nack_start request =? nack_end request then q else _).
  assert (0 <= distance < 65536) as Hrange by apply u16_bounds.
  destruct (Z.leb_spec distance (Z.of_nat (length bufs))) as [Hd|_].
  - intros [= <- <-]. right. exists (sent - distance).
    assert (bufs !! Z.to_nat (Z.of_nat (length bufs) - distance) = Some (datagram id D (sent - distance))) as ->.
    { assert (forall i, bufs !! i = (datagram id D <$> seqZ (sent - Z.of_nat (length bufs)) (Z.of_nat (length bufs))) !! i)
        as -> by (intros; by rewrite <-Hb).
      rewrite list_lookup_fmap, lookup_seqZ_lt by lia. cbn. do 2 f_equal. lia. }
    split_and!; try done; try lia. intros _. apply Exists_cons_hd. cbn.
    assert (u16 (u16 (sent - distance) - nack_start request) = 0) as ->; [|apply u16_bounds].
    unfold distance. unfold u16. Z.div_mod_to_equations. lia.
  - intros E. apply IH in E as [|(k & Hk & Hk' & -> & Ha)]; [by left|]. right. exists k. do 3 (split; [done|]).
    intros [[Hs He] Hq]%Forall_cons. unfold rest in Ha.
    destruct (Z.eqb_spec (nack_start request) (nack_end request)); [by apply Exists_cons_tl, Ha|].
    assert (Forall nack_ok (mkNack (u16 (nack_start request + 1)) (nack_end request) :: q)) as Hrest
      by (constructor; [split; [apply u16_bounds|done]|done]).
    specialize (Ha Hrest). apply Exists_cons in Ha as [Ha|Ha]; [apply Exists_cons_hd|by apply Exists_cons_tl]. cbn in Ha |- *. unfold u16, is_u16 in *. Z.div_mod_to_equations. lia.
Qed.

Lemma repeatData_ok r D sent written r' out :
  writer_ok r D sent written -> _repeatData r = (r', out) ->
  writer_ok r' D sent written /\
  (out = [] \/ exists k, 0 <= k < Z.of_nat sent /\ Z.of_nat sent - k < 65536 /\ out = [DgData (datagram (rl_id r) D k)] /\
    (Forall nack_ok (rl_repeatQueue r) -> asked_for (rl_repeatQueue r) (datagram (rl_id r) D k))).
Proof.
  intros Hok. pose proof Hok as []. unfold _repeatData. rewrite wk_sequence0.
  destruct (repeatData_loop _ _ _ _) as [q o] eqn:E. intros [= <- <-]. split; [by eapply writer_ok_frame|].
  apply (repeat_loop_spec D (rl_id r)) in E as [->|(k & Hk & Hk' & -> & Ha)]; [by left| |done].
  right. exists k. split_and!; try done; lia.
Qed.

End writer.

(** Handlers other than the sending ones leave the stream alone. *)
Definition same_writer (r r' : RspListener) : Prop :=
  rl_id r' = rl_id r /\ rl_sequence r' = rl_sequence r /\ rl_threadBuffers r' = rl_threadBuffers r /\
  rl_writeBuffers r' `suffix_of` rl_writeBuffers r.

Section writer_frame.

Context (numBuffers ackFreq : Z).

Lemma same_writer_refl r : same_writer r r.
Proof. split_and!; done. Qed.

Lemma same_writer_trans r1 r2 r3 : same_writer r1 r2 -> same_writer r2 r3 -> same_writer r1 r3.
Proof. intros (?&?&?&?) (?&?&?&?). split_and!; try congruence. by etrans. Qed.

Lemma same_writer_sendNack r w l : same_writer r (_sendNack r w l).1.
Proof. unfold _sendNack. destruct (_ =? _); split_and!; done. Qed.

Lemma same_writer_handleData r d : same_writer r (handleData numBuffers ackFreq r d).1.2.
Proof.
  unfold handleData. destruct (findConnection _ _) as [c|]; [|apply same_writer_refl].
  destruct (_ =? _).
  { destruct (_newDataBuffer c) as [c1|]; [|apply same_writer_refl].
    destruct (_pushDataBuffer _ _ _ _) as [c2 ?]. destruct (drain_pending _ _ _ _) as [c3 ?]. split_and!; done. }
  destruct (orb _ _); [apply same_writer_refl|]. destruct (got _ _); [apply same_writer_refl|].
  destruct (_newDataBuffer c) as [c1|]; [|apply same_writer_refl]. cbv zeta.
  destruct (early_nack _ _ _ _) as [nack|]; [|split_and!; done].
  match goal with |- context [_sendNack ?r0 ?w0 ?l0] => pose proof (same_writer_sendNack r0 w0 l0) as Hs; destruct (_sendNack r0 w0 l0) end.
  exact Hs.
Qed.

Lemma same_writer_handleAckRequest r w q : same_writer r (handleAckRequest numBuffers r w q).1.2.
Proof.
  unfold handleAckRequest. destruct (findConnection _ _) as [c|]; [|apply same_writer_refl].
  destruct (orb _ _); [apply same_writer_refl|].
  pose proof (same_writer_sendNack r (rc_id c) (missing_nacks numBuffers c q)) as Hs. by destruct (_sendNack _ _ _).
Qed.

Lemma same_writer_handleAck r a b q ok r' : handleAck numBuffers r a b q = Some (ok, r') -> same_writer r r'.
Proof.
  unfold handleAck. destruct (negb _); [intros [= <- <-]; apply same_writer_refl|].
  destruct (findConnection a _) as [c|]; [|intros [= <- <-]; apply same_writer_refl].
  destruct (andb _ _); [intros [= <- <-]; apply same_writer_refl|]. cbv zeta.
  set (r1 := set_rl_timeouts _ _). assert (same_writer r r1) as H1 by (split_and!; done).
  destruct (findConnection _ (rl_children r1)) as [self|]; [|done].
  destruct (_ <=? _); [|by intros [= <- <-]]. destruct (_finishWriteQueue _ _) as [r2|] eqn:Ef; [|done]. intros [= <- <-].
  eapply same_writer_trans; [exact H1|]. by apply finish_frame in Ef.
Qed.

Lemma same_writer_addConnection r id sq : same_writer r (_addConnection numBuffers r id sq).1.2.
Proof. unfold _addConnection. destruct (findConnection _ _); split_and!; done. Qed.

Lemma same_writer_removeConnection r id : same_writer r (_removeConnection r id).1.1.
Proof. unfold _removeConnection. destruct (_ =? _); [split_and!; done|]. destruct (list_find _ _) as [[??]|]; split_and!; done. Qed.

Lemma same_writer_handleInitData r c t v id d : same_writer r (handleInitData numBuffers r c t v id d).1.
Proof.
  unfold handleInitData. destruct (negb _); [apply same_writer_refl|].
  assert (same_writer r (if c then r else set_rl_timeouts 0 r)) as Hc by (destruct c; split_and!; done).
  destruct t; try apply same_writer_refl; try done.
  - pose proof (same_writer_addConnection r id d). by destruct (_addConnection _ _ _ _) as [[??]?].
  - pose proof (same_writer_addConnection (if c then r else set_rl_timeouts 0 r) id d) as Ha.
    destruct (_addConnection _ _ _ _) as [[??]?]. by eapply same_writer_trans.
  - pose proof (same_writer_removeConnection r id). by destruct (_removeConnection _ _) as [[??]?].
Qed.

Lemma same_writer_handleConnected r d r' out :
  handleConnectedData numBuffers ackFreq r d = Some (r', out) -> same_writer r r'.
Proof.
  destruct d as [d|w q|a b l|a b q|t v id x]; cbn.
  - pose proof (same_writer_handleData r d). destruct (handleData _ _ _ _) as [[??]?]. by intros [= <- <-].
  - pose proof (same_writer_handleAckRequest r w q). destruct (handleAckRequest _ _ _ _) as [[??]?]. by intros [= <- <-].
  - unfold handleNack. destruct (negb _); [intros [= <- <-]; split_and!; done|].
    destruct (findConnection _ _); intros [= <- <-]; split_and!; done.
  - destruct (handleAck _ _ _ _ _) as [[??]|] eqn:E; [|done]. intros [= <- <-]. by eapply same_writer_handleAck.
  - pose proof (same_writer_handleInitData r true t v id x) as Hi. intros [= Hd]. by rewrite Hd in Hi.
Qed.

End writer_frame.

(** ** A writer, a reader and the network

    [ry_net] are the datagrams sent so far with the number of datagrams before
    them in the stream; any of them may reach the reader, any number of times and
    in any order.  [ry_sent] are the payloads of the stream, [ry_next] the number
    of datagrams the reader delivered, [ry_written] and [ry_read] the bytes the
    applications wrote and read. *)

Section system.

Context (numBuffers payloadSize ackFreq : Z) (Hnum : 0 < numBuffers < 32768) (Hpay : 0 < payloadSize).

Record RspSystem := mkRspSystem {
  ry_writer : RspListener;
  ry_reader : RspListener;
  ry_net : list (Z * DatagramData);
  ry_sent : list bytes;
  ry_next : Z;
  ry_written : bytes;
  ry_read : bytes
}.

(** The payloads among the datagrams sent, and their entries in the network: the
    position follows from the sequence number. *)
Definition sent_data (out : list Datagram) : list DatagramData :=
  omap (fun d => match d with DgData d => Some d | _ => None end) out.

Definition net_entries (sent : nat) (r : RspListener) (out : list Datagram) : list (Z * DatagramData) :=
  (fun d => (Z.of_nat sent - u16 (rl_sequence r - dd_sequence d), d)) <$> sent_data out.

Inductive rsp_step : RspSystem -> RspSystem -> Prop :=
| rsp_write s data r :
    write payloadSize (ry_writer s) data = Some r ->
    rsp_step s (mkRspSystem r (ry_reader s) (ry_net s) (ry_sent s) (ry_next s) (ry_written s ++ data) (ry_read s))
| rsp_send s r out sent :
    _writeData payloadSize (ry_writer s) = Some (r, out) ->
    sent = ry_sent s ++ (dd_payload <$> sent_data out) ->
    rsp_step s (mkRspSystem r (ry_reader s) (ry_net s ++ net_entries (length sent) r out) sent (ry_next s)
      (ry_written s) (ry_read s))
| rsp_repeat s r out :
    _repeatData (ry_writer s) = (r, out) ->
    rsp_step s (mkRspSystem r (ry_reader s) (ry_net s ++ net_entries (length (ry_sent s)) r out) (ry_sent s) (ry_next s)
      (ry_written s) (ry_read s))
(** The writer receives anything from the group. *)
| rsp_writer_receives s d r out :
    handleConnectedData numBuffers ackFreq (ry_writer s) d = Some (r, out) ->
    rsp_step s (mkRspSystem r (ry_reader s) (ry_net s) (ry_sent s) (ry_next s) (ry_written s) (ry_read s))
(** A datagram of the writer reaches the reader, unless it is so much older or
    newer than the one the reader expects that its 16-bit sequence number is taken
    for that of another one ([datagram_alias]). *)
| rsp_reader_data s k d c r ok out c' :
    (k, d) ∈ ry_net s -> ry_next s - (65535 - numBuffers) < k < ry_next s + 65536 ->
    findConnection (rl_id (ry_writer s)) (rl_children (ry_reader s)) = Some c ->
    handleData numBuffers ackFreq (ry_reader s) d = (ok, r, out) ->
    findConnection (rl_id (ry_writer s)) (rl_children r) = Some c' ->
    rsp_step s (mkRspSystem (ry_writer s) r (ry_net s) (ry_sent s)
      (ry_next s + Z.of_nat (length (rc_appBuffers c') - length (rc_appBuffers c))) (ry_written s) (ry_read s))
(** Anything else the reader does without touching this child. *)
| rsp_reader_other s r :
    rl_id r = rl_id (ry_reader s) ->
    findConnection (rl_id (ry_writer s)) (rl_children r) =
      findConnection (rl_id (ry_writer s)) (rl_children (ry_reader s)) ->
    rsp_step s (mkRspSystem (ry_writer s) r (ry_net s) (ry_sent s) (ry_next s) (ry_written s) (ry_read s))
| rsp_reader_reads s n c c' data res :
    findConnection (rl_id (ry_writer s)) (rl_children (ry_reader s)) = Some c ->
    readSync c n = Some (c', data, res) ->
    rsp_step s (mkRspSystem (ry_writer s) (set_child c' (ry_reader s)) (ry_net s) (ry_sent s) (ry_next s)
      (ry_written s) (ry_read s ++ data)).

(** A writer and a reader that know each other before anything was sent. *)
Definition rsp_start (s : RspSystem) : Prop :=
  exists w r, s = mkRspSystem w r [] [] 0 [] [] /\ rl_sequence w = 0 /\ rl_threadBuffers w = [] /\
    rl_writeBuffers w = [] /\ findConnection (rl_id w) (rl_children r) = Some (new_child (rl_id w) 0 numBuffers).

Inductive rsp_reachable : RspSystem -> Prop :=
| rsp_reach_start s : rsp_start s -> rsp_reachable s
| rsp_reach_step s s' : rsp_reachable s -> rsp_step s s' -> rsp_reachable s'.

Definition agrees (D : Z -> bytes) (sent : list bytes) : Prop :=
  forall i x, sent !! i = Some x -> D (Z.of_nat i) = x.

Record rsp_ok (D : Z -> bytes) (s : RspSystem) : Prop := {
  yk_writer : writer_ok (ry_writer s) D (length (ry_sent s)) (ry_written s);
  yk_net : Forall (fun e => 0 <= e.1 < Z.of_nat (length (ry_sent s)) /\ e.2 = datagram (rl_id (ry_writer s)) D e.1) (ry_net s);
  yk_reader : exists c, findConnection (rl_id (ry_writer s)) (rl_children (ry_reader s)) = Some c /\
    reader_ok numBuffers (rl_id (ry_writer s)) D c (ry_next s) /\ reading_ok c /\
    ry_read s ++ unread c = concat (D <$> seqZ 0 (ry_next s));
  yk_next : 0 <= ry_next s;
}.

Lemma start_rsp_ok D s : rsp_start s -> rsp_ok D s.
Proof.
  intros (w & r & -> & Hs & Ht & Hw & Hf). split; cbn; try done.
  - split; rewrite ?Hs, ?Ht, ?Hw; try done.
  - exists (new_child (rl_id w) 0 numBuffers). split; [done|]. split; [|done]. split; cbn; done || lia.
Qed.

(** The network entries of datagrams of the stream. *)
Lemma net_entry_ok D sent r k :
  rl_sequence r = u16 (Z.of_nat sent) -> 0 <= Z.of_nat sent - k < 65536 ->
  net_entries sent r [DgData (datagram (rl_id r) D k)] = [(k, datagram (rl_id r) D k)].
Proof.
  intros Hs Hk. unfold net_entries. cbn. do 2 f_equal. rewrite Hs, u16_sub, u16_id by lia. lia.
Qed.

Lemma rsp_send_ok D s r out sent :
  rsp_ok D s -> _writeData payloadSize (ry_writer s) = Some (r, out) ->
  sent = ry_sent s ++ (dd_payload <$> sent_data out) -> agrees D sent ->
  rsp_ok D (mkRspSystem r (ry_reader s) (ry_net s ++ net_entries (length sent) r out) sent (ry_next s)
      (ry_written s) (ry_read s)).
Proof.
  intros [Hw Hn Hr Hx] Hwd -> Ha.
  assert (forall d, DgData d ∈ out -> D (Z.of_nat (length (ry_sent s))) = dd_payload d) as HD.
  { intros d Hd. destruct (writeData_shape _ _ _ _ Hwd) as [_ [->|[d1 ->]]]; [by apply not_elem_of_nil in Hd|].
    apply list_elem_of_singleton in Hd as [= ->]. apply Ha. cbn. by rewrite lookup_app_r, Nat.sub_diag. }
  destruct (writeData_shape _ _ _ _ Hwd) as [Hid _].
  destruct (writeData_ok payloadSize _ D _ _ _ _ Hw Hwd HD) as [[-> Hw']|[-> Hw']].
  - cbn in *. rewrite !app_nil_r in *. split; cbn; rewrite ?Hid; done.
  - cbn [sent_data omap list_omap fmap list_fmap] in *. rewrite length_app, Nat.add_1_r.
    split; cbn [ry_writer ry_reader ry_net ry_sent ry_next ry_written ry_read]; rewrite ?Hid, ?length_app, ?Nat.add_1_r; try done.
    apply Forall_app. split.
    + eapply Forall_impl; [exact Hn|]. cbn. intros e [He ->]. split; [lia|done].
    + rewrite <-Hid, net_entry_ok; [|apply Hw'|lia]. constructor; [|constructor]. cbn. split; [lia|done].
Qed.

(** The writer changes in a way that leaves the stream alone. *)
Lemma rsp_writer_frame D s r added :
  rsp_ok D s -> same_writer (ry_writer s) r ->
  Forall (fun e => 0 <= e.1 < Z.of_nat (length (ry_sent s)) /\ e.2 = datagram (rl_id (ry_writer s)) D e.1) added ->
  rsp_ok D (mkRspSystem r (ry_reader s) (ry_net s ++ added) (ry_sent s) (ry_next s) (ry_written s) (ry_read s)).
Proof.
  intros [Hw Hn Hr Hx] (Hid & Hs & Ht & Hb) Hadd. split; cbn; rewrite ?Hid; try done.
  - by eapply writer_ok_frame.
  - by apply Forall_app.
Qed.

Lemma rsp_repeat_ok D s r out :
  rsp_ok D s -> _repeatData (ry_writer s) = (r, out) ->
  rsp_ok D (mkRspSystem r (ry_reader s) (ry_net s ++ net_entries (length (ry_sent s)) r out) (ry_sent s) (ry_next s)
      (ry_written s) (ry_read s)).
Proof.
  intros Hok Hrep. pose proof Hok as [Hw _ _ _].
  destruct (repeatData_ok _ D _ _ _ _ Hw Hrep) as [Hw' Hout].
  assert (same_writer (ry_writer s) r) as Hsame.
  { unfold _repeatData in Hrep. destruct (repeatData_loop _ _ _ _). injection Hrep as <- <-. split_and!; done. }
  apply rsp_writer_frame; try done. destruct Hout as [->|(k & Hk & Hk' & -> & _)]; [constructor|].
  destruct Hsame as (Hid & _). rewrite <-Hid, net_entry_ok; [|apply Hw'|lia]. constructor; [done|constructor].
Qed.

(** What the application can read after a delivery. *)
Lemma unread_deliveries c c' w D n m :
  rc_appBuffers c' = rc_appBuffers c ++ deliveries w D n m -> same_reading c c' ->
  unread c' = unread c ++ concat (D <$> seqZ n (Z.of_nat m)).
Proof.
  intros Ha (Hb & Hp & _). unfold unread. rewrite Ha, Hb, Hp, omap_app, fmap_app, concat_app, app_assoc. do 2 f_equal.
  unfold deliveries. induction (seqZ n (Z.of_nat m)) as [|i l IH]; cbn; [done|]. by rewrite IH.
Qed.

Lemma rsp_data_ok D s k d c r ok out c' :
  rsp_ok D s -> (k, d) ∈ ry_net s -> ry_next s - (65535 - numBuffers) < k < ry_next s + 65536 ->
  findConnection (rl_id (ry_writer s)) (rl_children (ry_reader s)) = Some c ->
  handleData numBuffers ackFreq (ry_reader s) d = (ok, r, out) ->
  findConnection (rl_id (ry_writer s)) (rl_children r) = Some c' ->
  rsp_ok D (mkRspSystem (ry_writer s) r (ry_net s) (ry_sent s)
      (ry_next s + Z.of_nat (length (rc_appBuffers c') - length (rc_appBuffers c))) (ry_written s) (ry_read s)).
Proof.
  intros [Hw Hn (c0 & Hf & Hrd & Hro & Hread) Hx] Hin Hk Hf0 Hh Hf'.
  rewrite Hf in Hf0. injection Hf0 as ->. rewrite Forall_forall in Hn.
  destruct (Hn _ Hin) as [Hk0 Hd]. cbn in Hk0, Hd. subst d.
  pose proof (handleData_spec numBuffers ackFreq Hnum _ D _ _ _ k Hf Hrd Hk) as Hrec. rewrite Hh in Hrec.
  destruct Hrec as (c1 & m & Hf1 & Hid & Hok1 & Happ & Hsame & _). rewrite Hf1 in Hf'. injection Hf' as ->.
  assert (length (rc_appBuffers c') - length (rc_appBuffers c) = m)%nat as Hm.
  { rewrite Happ, length_app. unfold deliveries. rewrite length_fmap, length_seqZ. lia. }
  split; cbn; rewrite ?Hm; try done; [by apply Forall_forall| |lia].
  exists c'. split_and!; try done.
  - destruct Hsame as (H1 & H2 & _). unfold reading_ok. rewrite H1, H2. exact Hro.
  - rewrite (unread_deliveries c c' _ _ _ _ Happ Hsame), app_assoc, Hread, <-concat_app, <-fmap_app.
    by rewrite (seqZ_app 0 (ry_next s)) by lia.
Qed.

Lemma rsp_read_ok D s n c c' data res :
  rsp_ok D s -> findConnection (rl_id (ry_writer s)) (rl_children (ry_reader s)) = Some c ->
  readSync c n = Some (c', data, res) ->
  rsp_ok D (mkRspSystem (ry_writer s) (set_child c' (ry_reader s)) (ry_net s) (ry_sent s) (ry_next s)
      (ry_written s) (ry_read s ++ data)).
Proof.
  intros [Hw Hn (c0 & Hf & Hrd & Hro & Hread) Hx] Hf0 Hr. rewrite Hf in Hf0. injection Hf0 as ->.
  destruct (readSync_spec _ _ _ _ _ Hro Hr) as (Hu & Hro' & Hid & Hs & _ & Hrecv).
  split; cbn; try done. exists c'. pose proof (rk_id _ _ _ _ _ Hrd) as Hw'.
  split; [rewrite <-Hw', <-Hid in Hf |- *; by eapply find_put|]. split.
  - destruct Hrd. split; rewrite ?Hid, ?Hs, ?Hrecv; done.
  - split; [done|]. by rewrite <-app_assoc, Hu.
Qed.

Lemma agrees_prefix D l1 l2 : agrees D (l1 ++ l2) -> agrees D l1.
Proof. intros Ha i x Hi. apply Ha. by apply lookup_app_l_Some. Qed.

Lemma rsp_reachable_ok s : rsp_reachable s -> forall D, agrees D (ry_sent s) -> rsp_ok D s.
Proof.
  induction 1 as [s Hs|s s' _ IH Hs]; intros D Ha; [by apply start_rsp_ok|].
  destruct Hs as [s data r Hw|s r out sent Hw ->|s r out Hw|s d r out Hw|s k d c r ok out c' Hin Hk Hf Hh Hf'
    |s r Hid Hf|s n c c' data res Hf Hr]; cbn in Ha.
  - destruct (IH D Ha) as [Hwr Hn Hrd Hx].
    assert (rl_id r = rl_id (ry_writer s)) as Hid by (unfold write in Hw; destruct (_ <? _); [done|]; by injection Hw as <-).
    split; cbn; rewrite ?Hid; try done. by eapply write_ok.
  - eapply rsp_send_ok; try done. by apply IH, (agrees_prefix _ _ _ Ha).
  - by apply rsp_repeat_ok; [apply IH|].
  - rewrite <-(app_nil_r (ry_net s)). apply rsp_writer_frame; [by apply IH| |constructor].
    by eapply same_writer_handleConnected.
  - by eapply rsp_data_ok; [apply IH|..].
  - destruct (IH D Ha) as [Hwr Hn Hrd Hx]. split; cbn; rewrite ?Hf; done.
  - by eapply rsp_read_ok; [apply IH|..].
Qed.

(** Only what was sent is delivered: the bytes delivered do not depend on what the
    writer might send later. *)
Lemma rsp_next_sent s : rsp_reachable s -> ry_next s <= Z.of_nat (length (ry_sent s)).
Proof.
  intros Hr. set (D x k := default x (ry_sent s !! Z.to_nat k)).
  assert (forall x, agrees (D x) (ry_sent s)) as Ha by (intros x i y Hi; unfold D; by rewrite Nat2Z.id, Hi).
  destruct (rsp_reachable_ok s Hr (D []) (Ha _)) as [_ _ (c & Hf & _ & _ & H1) Hx].
  destruct (rsp_reachable_ok s Hr (D [0]) (Ha _)) as [_ _ (c' & Hf' & _ & _ & H2) _].
  rewrite Hf in Hf'. injection Hf' as <-. rewrite H1 in H2. clear H1 Hf.
  destruct (Z.le_gt_cases (ry_next s) (Z.of_nat (length (ry_sent s)))) as [|Hgt]; [done|]. exfalso.
  replace (ry_next s) with (Z.of_nat (length (ry_sent s)) + (ry_next s - Z.of_nat (length (ry_sent s)))) in H2 by lia.
  rewrite seqZ_app, !fmap_app, !concat_app, Z.add_0_l in H2 by lia.
  assert (forall x, D x <$> seqZ 0 (Z.of_nat (length (ry_sent s))) = D [] <$> seqZ 0 (Z.of_nat (length (ry_sent s)))) as He.
  { intros x. apply list_fmap_ext. intros i k [-> Hi]%lookup_seqZ. unfold D.
    destruct (ry_sent s !! Z.to_nat (0 + Z.of_nat i)) eqn:E; [done|]. apply lookup_ge_None in E. lia. }
  rewrite (He [0]) in H2. apply app_inv_head in H2.
  rewrite (seqZ_cons (Z.of_nat (length (ry_sent s)))) in H2 by lia. cbn in H2.
  assert (ry_sent s !! Z.to_nat (Z.of_nat (length (ry_sent s))) = None) as Hnone by (apply lookup_ge_None; lia).
  unfold D at 1 3 in H2. rewrite Hnone in H2. cbn in H2. apply (f_equal length) in H2. cbn in H2.
  assert (forall l : list Z, (length (concat (D [] <$> l)) <= length (concat (D [0%Z] <$> l)))%nat) as Hle.
  { induction l as [|k l IHl]; cbn; [lia|]. rewrite !length_app.
    assert (length (D [] k) <= length (D [0%Z] k))%nat by (unfold D; destruct (ry_sent s !! Z.to_nat k); cbn; lia). lia. }
  match type of H2 with length (concat (_ <$> ?l)) = _ => specialize (Hle l) end. lia.
Qed.

(** A datagram 65536 positions before the one the reader expects has the number it
    expects, and the reader delivers it as that one: the restriction on the network
    in the next theorem is needed. *)
Lemma datagram_alias r w D n c c1 :
  findConnection w (rl_children r) = Some c -> rc_sequence c = u16 n -> _newDataBuffer c = Some c1 ->
  let d := datagram w D (n - 65536) in
  handleData numBuffers ackFreq r d =
    (let '(c, out) := _pushDataBuffer ackFreq r c1 d in
     let '(c, out') := drain_pending ackFreq r (rc_recvBuffers c) c in (true, set_child c r, out ++ out')).
Proof.
  intros Hf Hs Hb d. unfold handleData, d, datagram. cbn [dd_writerID dd_sequence]. rewrite Hf, Hs.
  replace (u16 (n - 65536)) with (u16 n) by solve_wrap. by rewrite Z.eqb_refl, Hb.
Qed.

(** C5: Reliable stream.  A writer cuts, merges, numbers modulo 2^16, sends and
    repeats datagrams; the network loses, duplicates and reorders them; the reader
    drops, keeps and drains them; acknowledgements and nacks of the group are
    arbitrary.  The one restriction on the network is that it delivers no datagram
    [65535 - numBuffers] or more positions before, or 65536 or more after, the one
    the reader expects, which the sequence numbers cannot tell from a current one
    ([datagram_alias]).  Then the bytes the reading application got, followed by those it
    can still read, are the payloads of the first [ry_next] datagrams of the
    stream, and what it got is a prefix of what the writing application wrote. *)
Theorem rsp_stream_prefix s :
  rsp_reachable s ->
  ry_read s `prefix_of` ry_written s /\
  exists c, findConnection (rl_id (ry_writer s)) (rl_children (ry_reader s)) = Some c /\
    rc_sequence c = u16 (ry_next s) /\ ry_read s ++ unread c = concat (take (Z.to_nat (ry_next s)) (ry_sent s)).
Proof.
  intros Hr. pose proof (rsp_next_sent s Hr) as Hn. set (D k := default [] (ry_sent s !! Z.to_nat k)).
  assert (agrees D (ry_sent s)) as Ha by (intros i y Hi; unfold D; by rewrite Nat2Z.id, Hi).
  destruct (rsp_reachable_ok s Hr D Ha) as [Hw _ (c & Hf & Hok & _ & Hread) Hx].
  assert (forall k, 0 <= k <= Z.of_nat (length (ry_sent s)) -> D <$> seqZ 0 k = take (Z.to_nat k) (ry_sent s)) as HD.
  { intros k Hk. apply list_eq. intros i. rewrite list_lookup_fmap.
    destruct (decide (Z.of_nat i < k)).
    - rewrite lookup_seqZ_lt, lookup_take_lt by lia. cbn. unfold D.
      destruct (ry_sent s !! i) eqn:E; [|apply lookup_ge_None in E; lia].
      rewrite Z.add_0_l, Nat2Z.id, E. done.
    - rewrite lookup_seqZ_ge by lia. rewrite lookup_take_ge by lia. done. }
  rewrite HD in Hread by lia. split.
  - destruct Hw as [_ Hwr _ _ _]. rewrite <-Hwr, HD, Nat2Z.id, firstn_all by lia.
    exists (unread c ++ concat (drop (Z.to_nat (ry_next s)) (ry_sent s)) ++ payloads (rl_threadBuffers (ry_writer s))).
    rewrite app_assoc, Hread, app_assoc, <-concat_app, take_drop. done.
  - exists c. split_and!; try done. apply Hok.
Qed.

(** ** Runs *)

Inductive RspEvent :=
| EvWrite (data : bytes) | EvSend | EvRepeat | EvWriter (d : Datagram) | EvReader (i : nat) | EvRead (n : Z).

Definition rsp_exec (s : RspSystem) (e : RspEvent) : option RspSystem :=
  match e with
  | EvWrite data =>
      r ← write payloadSize (ry_writer s) data;
      Some (mkRspSystem r (ry_reader s) (ry_net s) (ry_sent s) (ry_next s) (ry_written s ++ data) (ry_read s))
  | EvSend =>
      '(r, out) ← _writeData payloadSize (ry_writer s);
      let sent := ry_sent s ++ (dd_payload <$> sent_data out) in
      Some (mkRspSystem r (ry_reader s) (ry_net s ++ net_entries (length sent) r out) sent (ry_next s)
        (ry_written s) (ry_read s))
  | EvRepeat =>
      let '(r, out) := _repeatData (ry_writer s) in
      Some (mkRspSystem r (ry_reader s) (ry_net s ++ net_entries (length (ry_sent s)) r out) (ry_sent s) (ry_next s)
        (ry_written s) (ry_read s))
  | EvWriter d =>
      '(r, _) ← handleConnectedData numBuffers ackFreq (ry_writer s) d;
      Some (mkRspSystem r (ry_reader s) (ry_net s) (ry_sent s) (ry_next s) (ry_written s) (ry_read s))
  | EvReader i =>
      '(k, d) ← ry_net s !! i;
      c ← findConnection (rl_id (ry_writer s)) (rl_children (ry_reader s));
      let '(_, r, _) := handleData numBuffers ackFreq (ry_reader s) d in
      c' ← findConnection (rl_id (ry_writer s)) (rl_children r);
      if decide (ry_next s - (65535 - numBuffers) < k < ry_next s + 65536) then
        Some (mkRspSystem (ry_writer s) r (ry_net s) (ry_sent s)
          (ry_next s + Z.of_nat (length (rc_appBuffers c') - length (rc_appBuffers c))) (ry_written s) (ry_read s))
      else None
  | EvRead n =>
      c ← findConnection (rl_id (ry_writer s)) (rl_children (ry_reader s));
      '(c', data, _) ← readSync c n;
      Some (mkRspSystem (ry_writer s) (set_child c' (ry_reader s)) (ry_net s) (ry_sent s) (ry_next s)
        (ry_written s) (ry_read s ++ data))
  end.

Lemma rsp_exec_step s e s' : rsp_exec s e = Some s' -> rsp_step s s'.
Proof.
  destruct e as [data| | |d|i|n]; cbn [rsp_exec]; intros H.
  - apply bind_Some in H as (r & Hr & [= <-]). by constructor.
  - apply bind_Some in H as ([r out] & Hr & [= <-]). by econstructor.
  - destruct (_repeatData _) as [r out] eqn:E. injection H as <-. by constructor.
  - apply bind_Some in H as ([r out] & Hr & [= <-]). by econstructor.
  - apply bind_Some in H as ([k d] & Hk & (c & Hc & H)%bind_Some).
    destruct (handleData _ _ _ _) as [[ok r] out] eqn:E. apply bind_Some in H as (c' & Hc' & H).
    destruct (decide _); [|done]. injection H as <-. eapply rsp_reader_data; try done. by eapply list_elem_of_lookup_2.
  - apply bind_Some in H as (c & Hc & ([[c' data] res] & Hr & [= <-])%bind_Some). by econstructor.
Qed.

Lemma rsp_exec_reachable s0 es s :
  rsp_start s0 -> foldl (fun o e => s ← o; rsp_exec s e) (Some s0) es = Some s -> rsp_reachable s.
Proof.
  intros H0. revert s. induction es as [|e es IH] using rev_ind; intros s; [intros [= <-]; by constructor|].
  rewrite foldl_app. cbn. intros (s1 & H1 & H2)%bind_Some.
  eapply rsp_reach_step; [by apply IH|by eapply rsp_exec_step].
Qed.

End system.

(** A writer with id 1 and a reader with id 2, four buffers of three bytes each. *)
Definition sample_member (id : Z) : RspListener :=
  mkRspListener id true true 0 0 [new_child 1 0 4; new_child 2 0 4] [] [] 4 [] [].

Definition sample_rsp : RspSystem := mkRspSystem (sample_member 1) (sample_member 2) [] [] 0 [] [].

Lemma sample_rsp_start : rsp_start 4 sample_rsp.
Proof. exists (sample_member 1), (sample_member 2). split_and!; reflexivity. Qed.

(** Seven bytes in three datagrams: the first is lost, the third overtakes the
    second, the first is repeated, the third arrives twice. *)
Definition sample_rsp_events : list RspEvent :=
  [EvWrite [10; 11; 12; 13; 14; 15; 16]; EvSend; EvSend; EvSend; EvReader 2; EvReader 1;
   EvWriter (DgNack 2 1 [mkNack 0 0]); EvRepeat; EvReader 2; EvReader 3; EvRead 5;
   EvWriter (DgAck 2 1 2)].

(** Five of the seven bytes are read, all three datagrams are acknowledged. *)
Lemma rsp_stream_prefix_witness :
  exists s, rsp_reachable 4 3 1 s /\ ry_read s = [10; 11; 12; 13; 14] /\ ry_next s = 3 /\
    rl_writeBuffers (ry_writer s) = [] /\ ry_read s `prefix_of` ry_written s.
Proof.
  destruct (foldl (fun o e => s ← o; rsp_exec 4 3 1 s e) (Some sample_rsp) sample_rsp_events) as [s|] eqn:E;
    [|exfalso; revert E; by vm_compute].
  assert (rsp_reachable 4 3 1 s) as Hr.
  { eapply rsp_exec_reachable; [apply sample_rsp_start|exact E]. }
  exists s. split; [exact Hr|]. pose proof (rsp_stream_prefix 4 3 1 ltac:(lia) ltac:(lia) s Hr) as [Hp _].
  revert E Hp. clear Hr. intros E Hp.
  assert (match foldl (fun o e => s ← o; rsp_exec 4 3 1 s e) (Some sample_rsp) sample_rsp_events with
    | Some s => ry_read s = [10; 11; 12; 13; 14] /\ ry_next s = 3 /\ rl_writeBuffers (ry_writer s) = []
    | None => False end) as H by (vm_compute; split; [reflexivity|split; reflexivity]).
  rewrite E in H. destruct H as (H1 & H2 & H3). split; [exact H1|]. split; [exact H2|]. split; [exact H3|exact Hp].
Defined.
