(* ===== verification/RspFlow.v ===== *)
(** * Acknowledgements and repeats of the reliable stream protocol

    What a reader answers to an ack request, what a writer makes of the
    acknowledgements of its readers, and what it repeats (co/rspConnection.cpp,
    _handleAckRequest, _handleAck, _finishWriteQueue, _repeatData). *)

From S2P Require Import Prelude Bytes Rsp.

(** ** Negative acknowledgements *)

Definition nack_covers (nacks : list Nack) (sequence : Z) : Prop :=
  Exists (fun nack => nack_start nack <= sequence <= nack_end nack) nacks.

Lemma nack_covers_app nacks l s : nack_covers nacks s \/ nack_covers l s -> nack_covers (nacks ++ l) s.
Proof. unfold nack_covers. rewrite Exists_app. auto. Qed.

Lemma close_nack_covers S E m :
  S <= m <= E -> E - S < 65536 -> nack_covers (close_nack (u16 S) (u16 E)) (u16 m).
Proof.
  intros Hm Hs. unfold close_nack, nack_covers, max16.
  destruct (Z.ltb_spec (u16 E) (u16 S)).
  - destruct (Z.le_gt_cases (u16 S) (u16 m)) as [Hle|Hgt].
    + apply Exists_cons_hd. cbn. pose proof (u16_bounds m). lia.
    + apply Exists_cons_tl, Exists_cons_hd. cbn. unfold u16 in *. Z.div_mod_to_equations. lia.
  - apply Exists_cons_hd. cbn. unfold u16 in *. Z.div_mod_to_equations. lia.
Qed.

Lemma last_close nacks S E :
  last_nack_end (nacks ++ close_nack S E) = E.
Proof. unfold last_nack_end, close_nack. destruct (_ <? _); rewrite last_app; done. Qed.

Section nacks.

Context (n : Z).

(** The datagram [m] has not arrived, seen from position [pos] of the buffers. *)
Definition missing_from (pos : Z) (l : list (option DatagramData)) (m : Z) : Prop :=
  m <= n + pos \/ l !! Z.to_nat (m - n - 1 - pos) = Some None.

Lemma missing_next pos b l m :
  missing_from pos (b :: l) m -> (b = None \/ m <> n + pos + 1) -> missing_from (pos + 1) l m.
Proof.
  intros [Hm|Hm] Hb; [left; lia|]. destruct (Z.le_gt_cases m (n + (pos + 1))); [by left|right].
  replace (Z.to_nat (m - n - 1 - pos)) with (S (Z.to_nat (m - n - 1 - (pos + 1)))) in Hm by lia. done.
Qed.

Lemma missing_here pos b l : missing_from pos (Some b :: l) (n + pos + 1) -> False.
Proof. intros [|Hm]; [lia|]. by replace (Z.to_nat (n + pos + 1 - n - 1 - pos)) with O in Hm by lia. Qed.

Lemma scan_spec l pos nacks start skipping nacks' start' at_end S :
  nack_scan (u16 n) pos l nacks start skipping = (nacks', start', at_end) ->
  0 <= pos -> pos + Z.of_nat (length l) < 65535 -> last l <> Some None ->
  (if skipping then True else start = u16 S /\ n <= S <= n + pos /\ l <> []) ->
  (nacks = [] \/ exists E, last_nack_end nacks = u16 E /\ n <= E <= n + pos) ->
  (exists added, nacks' = nacks ++ added) /\
  (nacks' = [] \/ exists E, last_nack_end nacks' = u16 E /\ n <= E <= n + pos + Z.of_nat (length l)) /\
  exists S', (at_end = false -> start' = u16 S' /\ n <= S' <= n + pos + Z.of_nat (length l)) /\
    (at_end = true -> skipping = false -> nacks' <> []) /\
    forall m, (if skipping then n + pos + 1 else S) <= m <= n + pos + Z.of_nat (length l) -> missing_from pos l m ->
      nack_covers nacks' (u16 m) \/ (at_end = false /\ S' <= m).
Proof.
  revert pos nacks start skipping S. induction l as [|b l IH]; intros pos nacks start skipping S.
  { cbn. intros [= <- <- <-] Hp Hlen Hlast Hs HE. destruct skipping; [|by destruct Hs as (_ & _ & ?)].
    split; [exists []; by rewrite app_nil_r|]. split; [naive_solver lia|]. exists 0. split_and!; try done. intros m Hm. lia. }
  cbn [nack_scan length]. intros Hscan Hp Hlen Hlast Hs HE. rewrite Nat2Z.inj_succ in *.
  assert (last l <> Some None) as Hlast' by (by destruct l).
  assert (nacks = [] \/ exists E, last_nack_end nacks = u16 E /\ n <= E <= n + (pos + 1)) as HE'
    by (destruct HE as [|(E & ? & ?)]; [by left|right; exists E; split; [done|lia]]).
  destruct skipping.
  - destruct b as [b|].
    + apply (IH _ _ _ _ 0) in Hscan as (Hpre & Hend & S' & H1 & H2 & H3); try done; try lia.
      split; [done|]. split; [naive_solver lia|]. exists S'. split_and!; try done; [naive_solver lia|].
      intros m Hm Hmiss. destruct (decide (m = n + pos + 1)) as [->|]; [by apply missing_here in Hmiss|].
      apply H3; [lia|]. apply (missing_next _ _ _ _ Hmiss). by right.
    + apply (IH _ _ _ _ (n + pos + 1)) in Hscan as (Hpre & Hend & S' & H1 & H2 & H3); try done; try lia.
      * split; [done|]. split; [naive_solver lia|]. exists S'. split_and!; try done; [naive_solver lia|].
        intros m Hm Hmiss. apply H3; [lia|]. apply (missing_next _ _ _ _ Hmiss). by left.
      * rewrite <-Z.add_assoc, u16_add. split; [f_equal; lia|]. split; [lia|]. by destruct l.
  - destruct Hs as (-> & HS & _). destruct (_ <? _).
    2: { injection Hscan as <- <- <-. split; [exists []; by rewrite app_nil_r|]. split; [naive_solver lia|].
         exists S. split_and!; try done; [intros _; split; [done|lia]|]. intros m Hm _. right. split; [done|lia]. }
    destruct b as [b|].
    + rewrite u16_add in Hscan.
      apply (IH _ _ _ _ 0) in Hscan as ((added & Hpre) & Hend & S' & H1 & H2 & H3); try done; try lia.
      * split; [exists (close_nack (u16 S) (u16 (n + pos)) ++ added); by rewrite Hpre, <-app_assoc|].
        split; [naive_solver lia|]. exists S'. split_and!; try done; [naive_solver lia| |].
        { intros _ _. rewrite Hpre. unfold close_nack. destruct (_ <? _); by destruct nacks. }
        intros m Hm Hmiss. destruct (Z.le_gt_cases m (n + pos)).
        { left. rewrite Hpre. apply nack_covers_app. left. apply nack_covers_app. right.
          apply close_nack_covers; lia. }
        destruct (decide (m = n + pos + 1)) as [->|]; [by apply missing_here in Hmiss|].
        apply H3; [lia|]. apply (missing_next _ _ _ _ Hmiss). by right.
      * right. exists (n + pos). rewrite last_close. split; [done|lia].
    + apply (IH _ _ _ _ S) in Hscan as (Hpre & Hend & S' & H1 & H2 & H3); try done; try lia.
      * split; [done|]. split; [naive_solver lia|]. exists S'. split_and!; try done; [naive_solver lia|].
        intros m Hm Hmiss. apply H3; [lia|]. apply (missing_next _ _ _ _ Hmiss). by left.
      * split; [done|]. split; [lia|]. by destruct l.
Qed.

End nacks.

Section ack_request.

Context (numBuffers : Z) (Hnum : 0 < numBuffers < 32768) (w : Z) (D : Z -> bytes).

(** The datagram with index [m] has not been received. *)
Definition missing (c : RspChild) (n m : Z) : Prop :=
  n <= m /\ (n < m -> got (rc_recvBuffers c) (m - n - 1) = false).

Lemma missing_is_from c n m :
  missing c n m -> m <= n + Z.of_nat (length (rc_recvBuffers c)) -> missing_from n 0 (rc_recvBuffers c) m.
Proof.
  intros [Hn Hm] Hle. destruct (Z.le_gt_cases m n); [left; lia|right]. unfold got in Hm.
  replace (m - n - 1 - 0) with (m - n - 1) by lia.
  destruct (rc_recvBuffers c !! Z.to_nat (m - n - 1)) as [[b|]|] eqn:E; [by specialize (Hm ltac:(lia))|done|].
  apply lookup_ge_None in E. lia.
Qed.

Lemma missing_nacks_cover c n R m :
  reader_ok numBuffers w D c n -> n <= R < n + numBuffers -> missing c n m -> m <= R ->
  nack_covers (missing_nacks numBuffers c (u16 R)) (u16 m).
Proof.
  intros Hok HR Hmiss HmR. pose proof Hmiss as [Hnm _]. unfold missing_nacks. rewrite (rk_sequence _ _ _ _ _ Hok).
  destruct (nack_scan _ _ _ _ _ _) as [[nacks start] at_end] eqn:E.
  destruct (decide (rc_recvBuffers c = [])) as [Hnil|Hne].
  { rewrite Hnil in E. cbn in E. injection E as <- <- <-. cbn. apply close_nack_covers; lia. }
  pose proof (rk_length _ _ _ _ _ Hok) as Hlen.
  apply (scan_spec n _ _ _ _ _ _ _ _ n) in E as (_ & Hend & S' & HS & Hopen & Hcov);
    [|lia|lia|apply Hok|split; [done|split; [lia|done]]|by left].
  rewrite Z.add_0_r in *. specialize (Hcov m). destruct at_end; cbn [negb orb].
  - specialize (Hopen eq_refl eq_refl). destruct Hend as [|(E & HE & HEr)]; [done|]. rewrite bool_decide_eq_false_2 by done.
    destruct (Z.le_gt_cases m (n + Z.of_nat (length (rc_recvBuffers c)))) as [Hin|Hout].
    + destruct Hcov as [Hc|[? _]]; [lia|by apply missing_is_from| |done].
      destruct (_ <? numBuffers); [apply nack_covers_app; by left|done].
    + rewrite HE, u16_sub, (u16_id (R - E)) by lia. rewrite (proj2 (Z.ltb_lt _ _)) by lia.
      apply nack_covers_app. right. rewrite u16_add. apply close_nack_covers; lia.
  - destruct (HS eq_refl) as [-> HSr]. apply nack_covers_app.
    destruct (Z.le_gt_cases S' m); [right; apply close_nack_covers; lia|].
    destruct Hcov as [Hc|[_ ?]]; [lia|apply missing_is_from; [done|lia]|by left|lia].
Qed.

(** The answer to an ack request.  A reader asked about the datagram [R] by a
    writer within one window acknowledges what it delivered if that includes [R];
    otherwise it sends nacks that cover every datagram up to [R] it misses, also
    where the sequence numbers wrap around in between. *)
Theorem rsp_ack_request_answered r c n R :
  findConnection w (rl_children r) = Some c -> reader_ok numBuffers w D c n -> w <> rl_id r ->
  n - 1 - numBuffers <= R <= n - 1 + numBuffers ->
  (R < n -> handleAckRequest numBuffers r w (u16 R) = (true, r, [DgAck (rl_id r) w (u16 (n - 1))])) /\
  (n <= R -> exists nacks, handleAckRequest numBuffers r w (u16 R) = (true, r, [DgNack (rl_id r) w nacks]) /\
     forall m, missing c n m -> m <= R -> nack_covers nacks (u16 m)).
Proof.
  intros Hf Hok Hw HR. unfold handleAckRequest. rewrite Hf, (rk_sequence _ _ _ _ _ Hok).
  assert (u16 (u16 n - 1) = u16 (n - 1)) as -> by (rewrite <-Z.add_opp_r, u16_add; f_equal; lia).
  rewrite u16_sub, (rk_id _ _ _ _ _ Hok).
  pose proof (u16_bounds R) as HrR. pose proof (u16_bounds (n - 1)) as Hrn.
  set (ack := orb _ _).
  assert (ack = bool_decide (R < n)) as ->.
  { unfold ack. clear ack. destruct (Z.eqb_spec (u16 R) (u16 (n - 1))) as [He|Hne].
    { apply u16_eq in He; [|lia]. rewrite bool_decide_eq_true_2 by lia. done. }
    cbn [orb]. destruct (decide (R < n)) as [Hlt|Hge].
    - rewrite bool_decide_eq_true_2 by done.
      destruct (u16_diff (n - 1) R) as [Hd|Hd]; [lia|..].
      + rewrite gtb_true, (proj2 (Z.leb_le _ _)) by lia. done.
      + apply orb_true_iff. right. rewrite (proj2 (Z.ltb_lt _ _)) by lia.
        rewrite gtb_true; [done|]. unfold u16. rewrite <-(Z_mod_plus_full _ 1), Z.mod_small by lia. lia.
    - rewrite bool_decide_eq_false_2 by done.
      destruct (u16_diff R (n - 1)) as [Hd|Hd]; [lia|..].
      + rewrite gtb_false by lia. cbn [andb orb]. rewrite (u16_id (R - (n - 1))), gtb_false, andb_false_r by lia. done.
      + apply orb_false_iff. split; [rewrite gtb_true by lia; cbn; apply Z.leb_gt; lia|].
        rewrite (proj2 (Z.ltb_ge _ _)) by lia. done. }
  split; intros HRn.
  - by rewrite bool_decide_eq_true_2.
  - rewrite bool_decide_eq_false_2 by lia. unfold _sendNack. rewrite (proj2 (Z.eqb_neq _ _)) by done.
    eexists. split; [done|]. intros m Hm HmR. apply (missing_nacks_cover c n); try done. lia.
Qed.

End ack_request.

(** ** Acknowledgements *)

Section acks.

Context (numBuffers : Z) (Hnum : 0 < numBuffers < 32768).

(** The readers of a listener: all children but itself. *)
Definition readers (r : RspListener) : list Z := filter (fun id => id <> rl_id r) (rc_id <$> rl_children r).

(** A writer and what its children acknowledged: [A id] is the index of the last
    datagram, the writer's own child lags behind all others. *)
Record flow_ok (r : RspListener) (D : Z -> bytes) (sent : nat) (written : bytes) (A : Z -> Z) : Prop := {
  fo_writer : writer_ok r D sent written;
  fo_nodup : NoDup (rc_id <$> rl_children r);
  fo_acked : Forall (fun c => rc_acked c = u16 (A (rc_id c)) /\ A (rl_id r) <= A (rc_id c) <= Z.of_nat sent - 1) (rl_children r);
  fo_self : exists self, findConnection (rl_id r) (rl_children r) = Some self /\ rc_sequence self = u16 (A (rl_id r) + 1);
  fo_window : Z.of_nat sent - 1 - A (rl_id r) <= numBuffers;
  fo_length : Z.of_nat (length (rl_writeBuffers r)) = Z.of_nat sent - 1 - A (rl_id r);
}.

Lemma min_acked_spec id A lo l q :
  Forall (fun c => rc_acked c = u16 (A (rc_id c)) /\ lo <= A (rc_id c) <= lo + numBuffers) l ->
  lo <= q <= lo + numBuffers ->
  exists M, min_acked numBuffers id (u16 q) l = u16 M /\ lo <= M <= q /\
    (forall c, c ∈ l -> rc_id c <> id -> M <= A (rc_id c)) /\
    (M = q \/ exists c, c ∈ l /\ rc_id c <> id /\ M = A (rc_id c)).
Proof.
  unfold min_acked. revert q. induction l as [|c l IH]; intros q Hl Hq; cbn.
  { exists q. split_and!; try done; [lia..|set_solver|by left]. }
  apply Forall_cons in Hl as [[Hc Hr] Hl].
  destruct (Z.eqb_spec (rc_id c) id) as [Hid|Hid].
  { destruct (IH q Hl Hq) as (M & -> & HM & H1 & H2). exists M. split_and!; try done; [lia..|set_solver|set_solver]. }
  assert ((if u16 (rc_acked c - u16 q) >? numBuffers then rc_acked c else u16 q) = u16 (Z.min q (A (rc_id c)))) as ->.
  { rewrite Hc, u16_sub. destruct (Z.le_gt_cases q (A (rc_id c))).
    - rewrite u16_id, gtb_false, Z.min_l by lia. done.
    - rewrite Z.min_r by lia. rewrite gtb_true; [done|]. unfold u16. rewrite <-(Z_mod_plus_full _ 1), Z.mod_small by lia. lia. }
  destruct (IH (Z.min q (A (rc_id c))) Hl) as (M & -> & HM & H1 & H2); [lia|].
  exists M. split_and!; try done; [lia..| |].
  - intros c' [->|Hc']%elem_of_cons Hne; [lia|by apply H1].
  - destruct H2 as [->|(c' & Hin & Hne & ->)]; [|right; exists c'; set_solver].
    destruct (Z.min_spec q (A (rc_id c))) as [[_ ->]|[_ ->]]; [by left|]. right. exists c. set_solver.
Qed.

Lemma put_child_ids c l : rc_id <$> put_child c l = rc_id <$> l.
Proof.
  induction l as [|x l IH]; cbn; [done|]. destruct (Z.eqb_spec (rc_id x) (rc_id c)) as [He|]; cbn; [by rewrite He|by rewrite IH].
Qed.

Lemma put_child_in c l x : NoDup (rc_id <$> l) -> x ∈ put_child c l -> x = c \/ (x ∈ l /\ rc_id x <> rc_id c).
Proof.
  induction l as [|y l IH]; cbn; intros Hnd Hx; [by apply not_elem_of_nil in Hx|].
  apply NoDup_cons in Hnd as [Hy Hnd].
  destruct (Z.eqb_spec (rc_id y) (rc_id c)) as [He|Hne].
  - apply elem_of_cons in Hx as [->|Hx]; [by left|]. right. split; [by right|]. intros Hxc. apply Hy.
    rewrite He, <-Hxc. by apply list_elem_of_fmap_2.
  - apply elem_of_cons in Hx as [->|Hx]; [right; split; [by left|done]|].
    destruct (IH Hnd Hx) as [|[??]]; [by left|right; split; [by right|done]].
Qed.

Lemma find_in id l c : findConnection id l = Some c -> c ∈ l.
Proof.
  induction l as [|x l IH]; cbn; [done|]. destruct (_ =? _); [intros [= <-]; left|]. intros Hf. right. by apply IH.
Qed.

(** Advancing the writer's own child to [M]. *)
Lemma finish_spec r D sent written A M self :
  writer_ok r D sent written ->
  findConnection (rl_id r) (rl_children r) = Some self -> rc_sequence self = u16 (A + 1) ->
  Z.of_nat (length (rl_writeBuffers r)) = Z.of_nat sent - 1 - A -> A <= M <= Z.of_nat sent - 1 ->
  Z.of_nat sent - 1 - A <= numBuffers -> M - A <= rc_threadBuffers self ->
  exists r' self', _finishWriteQueue r (u16 M) = Some r' /\ rl_id r' = rl_id r /\
    rl_children r' = put_child self' (rl_children r) /\ rc_id self' = rl_id r /\
    rc_acked self' = u16 M /\ rc_sequence self' = u16 (M + 1) /\
    rc_appBuffers self' = rc_appBuffers self ++ deliveries (rl_id r) D (A + 1) (Z.to_nat (M - A)) /\
    rl_writeBuffers r' = drop (Z.to_nat (M - A)) (rl_writeBuffers r) /\
    rl_appBuffers r' = rl_appBuffers r + (M - A) /\ writer_ok r' D sent written.
Proof.
  intros Hok Hf Hs Hlen HM Hw Hfree. unfold _finishWriteQueue. rewrite Hf.
  assert (u16 (rl_sequence r - u16 M - 1) = Z.of_nat sent - 1 - M) as ->.
  { rewrite (wk_sequence _ _ _ _ Hok). rewrite <-Z.add_opp_r, <-u16_add, u16_sub, u16_add. rewrite u16_id by lia. lia. }
  replace (Z.max 0 _) with (M - A) by lia. rewrite (proj2 (Z.ltb_ge _ _)) by lia. eexists _, _. split; [done|].
  split; [done|]. split; [done|]. cbn. split; [by apply find_id in Hf|].
  assert (u16 (rc_sequence self + (M - A)) = u16 (M + 1)) as -> by (rewrite Hs, u16_add; f_equal; lia).
  split; [rewrite <-Z.add_opp_r, u16_add; f_equal; lia|]. split; [done|]. split.
  - f_equal. rewrite (wk_write _ _ _ _ Hok), <-fmap_take, <-list_fmap_compose.
    replace (Z.of_nat sent - Z.of_nat (length (rl_writeBuffers r))) with (A + 1) by lia.
    replace (Z.of_nat (length (rl_writeBuffers r))) with (Z.of_nat (Z.to_nat (M - A)) + (Z.of_nat sent - 1 - M)) by lia.
    rewrite seqZ_app by lia. rewrite take_app_length' by (rewrite length_seqZ; lia). done.
  - split; [done|]. split; [done|]. eapply writer_ok_frame; try done. cbn. apply suffix_drop.
Qed.

(** An acknowledgement that is news is not taken for a late one. *)
Lemma fresh_ack_accepted a q : a < q <= a + numBuffers -> ((u16 a >=? u16 q) && (u16 a - u16 q <=? numBuffers)) = false.
Proof.
  intros Hq. apply andb_false_iff. destruct (u16_diff q a) as [Hd|Hd]; [lia|..].
  - left. rewrite Z.geb_leb. apply Z.leb_gt. lia.
  - right. apply Z.leb_gt. lia.
Qed.

(** Buffers are freed exactly when all readers have their data.  When reader [a]
    acknowledges a datagram later than before, the writer computes the minimum [M]
    of what all readers acknowledged, across wrap-arounds of the 16-bit sequence
    numbers; it delivers exactly the datagrams up to [M] to its own child, in
    order, frees their buffers and keeps the others for repeats. *)
Theorem rsp_ack_frees r D sent written A a c q self :
  flow_ok r D sent written A ->
  findConnection a (rl_children r) = Some c -> a <> rl_id r -> A a < q <= Z.of_nat sent - 1 ->
  findConnection (rl_id r) (rl_children r) = Some self ->
  Z.of_nat sent - 1 - A (rl_id r) <= rc_threadBuffers self ->
  exists M r' self',
    (forall id, id ∈ readers r -> M <= fset A a q id) /\ (exists id, id ∈ readers r /\ M = fset A a q id) /\
    handleAck numBuffers r a (rl_id r) (u16 q) = Some (true, r') /\
    flow_ok r' D sent written (fset (fset A a q) (rl_id r) M) /\
    rl_writeBuffers r' = drop (Z.to_nat (M - A (rl_id r))) (rl_writeBuffers r) /\
    rl_appBuffers r' = rl_appBuffers r + (M - A (rl_id r)) /\
    findConnection (rl_id r) (rl_children r') = Some self' /\
    rc_appBuffers self' =
      rc_appBuffers self ++ deliveries (rl_id r) D (A (rl_id r) + 1) (Z.to_nat (M - A (rl_id r))).
Proof.
  intros [Hw Hnd Hack (self0 & Hself0 & Hseq) Hwin Hlen] Hc Ha Hq Hself Hfree.
  rewrite Hself in Hself0. injection Hself0 as <-.
  rewrite Forall_forall in Hack. pose proof (find_id _ _ _ Hc) as Hcid. pose proof (find_id _ _ _ Hself) as Hsid.
  destruct (Hack c (find_in _ _ _ Hc)) as [Hca Hcr]. rewrite Hcid in Hca, Hcr.
  unfold handleAck. rewrite Z.eqb_refl. cbn [negb]. rewrite Hc, Hca, fresh_ack_accepted by lia. cbv zeta.
  set (c1 := set_rc_acked (u16 q) c). set (r1 := set_rl_timeouts 0 (set_child c1 r)).
  assert (rl_children r1 = put_child c1 (rl_children r)) as Hch by done.
  assert (Forall (fun x => rc_acked x = u16 (fset A a q (rc_id x)) /\
    A (rl_id r) <= fset A a q (rc_id x) <= A (rl_id r) + numBuffers) (rl_children r1)) as Hall.
  { apply Forall_forall. intros x Hx. rewrite Hch in Hx. apply put_child_in in Hx as [->|[Hx Hne]]; [..|done].
    - cbn. rewrite Hcid, fset_eq. split; [done|lia].
    - cbn in Hne. rewrite Hcid in Hne. rewrite fset_ne by done. destruct (Hack x Hx) as [-> ?]. split; [done|lia]. }
  destruct (min_acked_spec (rl_id r) (fset A a q) (A (rl_id r)) (rl_children r1) q Hall) as (M & HM & HMr & Hmin & Hex); [lia|].
  change (rl_id r1) with (rl_id r). rewrite HM.
  assert (findConnection (rl_id r) (rl_children r1) = Some self) as Hself1
    by (rewrite Hch, find_put_ne; [done|cbn; rewrite Hcid; auto]).
  rewrite Hself1. destruct (Hack self (find_in _ _ _ Hself)) as [-> _]. rewrite Hsid, u16_sub, u16_id, (proj2 (Z.leb_le _ _)) by lia.
  assert (writer_ok r1 D sent written) as Hw1 by (eapply writer_ok_frame; done).
  destruct (finish_spec r1 D sent written (A (rl_id r)) M self Hw1 Hself1 Hseq Hlen ltac:(lia) ltac:(lia) ltac:(lia))
    as (r2 & self2 & -> & Hid2 & Hch2 & Hs2 & Ha2 & Hq2 & Happ2 & Hwb2 & Hab2 & Hw2).
  change (rl_id r1) with (rl_id r) in *.
  assert (forall id, id ∈ readers r <-> exists x, x ∈ rl_children r1 /\ rc_id x = id /\ id <> rl_id r) as Hrd.
  { intros id. unfold readers. rewrite list_elem_of_filter, <-(put_child_ids c1), <-Hch, list_elem_of_fmap. naive_solver. }
  exists M, r2, self2. split_and!; try done.
  - intros id (x & Hx & <- & Hne)%Hrd. by apply Hmin.
  - destruct Hex as [->|(x & Hx & Hne & ->)]; [|exists (rc_id x); split; [apply Hrd; eauto|done]].
    exists a. rewrite fset_eq. split; [|done]. apply Hrd. exists c1. split; [|done].
    rewrite Hch. apply (find_in (rc_id c1)), (find_put c1 _ c). cbn. by rewrite Hcid.
  - split; rewrite ?Hid2, ?fset_eq; try done.
    + by rewrite Hch2, put_child_ids, Hch, put_child_ids.
    + apply Forall_forall. intros x Hx. rewrite Hch2 in Hx.
      apply put_child_in in Hx as [->|[Hx Hne]]; [..|by rewrite Hch, put_child_ids].
      * rewrite Hs2, fset_eq. split; [done|lia].
      * rewrite Hs2 in Hne. rewrite fset_ne by done. rewrite Forall_forall in Hall. destruct (Hall x Hx) as [-> ?].
        split; [done|]. split; [by apply Hmin|].
        rewrite Hch in Hx. apply put_child_in in Hx as [->|[Hx ?]]; [..|done].
        { cbn. rewrite Hcid, fset_eq. lia. }
        destruct (decide (rc_id x = a)) as [->|]; [rewrite fset_eq; lia|]. rewrite fset_ne by done. by apply Hack.
    + exists self2. split; [|done]. rewrite Hch2, <-Hs2. apply (find_put self2 _ self). by rewrite Hs2.
    + lia.
    + rewrite Hwb2, length_drop. change (rl_writeBuffers r1) with (rl_writeBuffers r). lia.
  - rewrite Hch2, <-Hs2. apply (find_put self2 _ self). by rewrite Hs2.
Qed.

End acks.

(** ** Repeats *)

Section repeats.

(** Ranges of the queue of repeats: within the sequence numbers, narrower than half
    of them. *)
Definition narrow (nack : Nack) : Prop :=
  0 <= nack_start nack <= nack_end nack /\ nack_end nack < 65536 /\ nack_end nack - nack_start nack < 32768.

(** What the protocol thread sends while it calls [_repeatData] [n] times. *)
Fixpoint repeat_all (n : nat) (r : RspListener) : RspListener * list Datagram :=
  match n with
  | O => (r, [])
  | S n =>
      let '(r, out) := _repeatData r in
      let '(r, out') := repeat_all n r in
      (r, out ++ out')
  end.

Lemma merge_nack_covers nack q q' s :
  merge_nack nack q = Some q' ->
  nack_covers q s \/ nack_start nack <= s <= nack_end nack -> nack_covers q' s.
Proof.
  revert q'. unfold nack_covers. induction q as [|old q IH]; intros q'; cbn; [done|].
  destruct (_ && _) eqn:E.
  - intros [= <-] Hs. rewrite Exists_cons. cbn. apply andb_true_iff in E as [[E1 E2]%andb_true_iff E3].
    rewrite Exists_cons in Hs. destruct Hs as [[Hs|Hs]|Hs]; [|by right|].
    all: left; destruct (Z.gtb_spec (nack_start old) (nack_start nack)), (Z.ltb_spec (nack_end old) (nack_end nack)); lia.
  - destruct (merge_nack nack q) as [q1|]; [|done]. intros [= <-] Hs. rewrite Exists_cons in *.
    destruct Hs as [[Hs|Hs]|Hs]; [by left|right; apply (IH q1); auto..].
Qed.

Lemma addRepeat_covers nacks q s : nack_covers q s \/ nack_covers nacks s -> nack_covers (addRepeat_loop nacks q) s.
Proof.
  revert q. induction nacks as [|nack nacks IH]; intros q Hs; cbn; [destruct Hs as [Hs|Hs]; [done|inversion Hs]|].
  unfold nack_covers in Hs. rewrite (Exists_cons _ nack) in Hs. apply IH.
  assert (Exists (fun nack => nack_start nack <= s <= nack_end nack) nacks \/
    (nack_covers q s \/ nack_start nack <= s <= nack_end nack)) as [Hl|Hq] by (unfold nack_covers; tauto); [by right|left].
  destruct (merge_nack nack q) as [q'|] eqn:E; [by eapply merge_nack_covers|].
  apply nack_covers_app. destruct Hq; [by left|right; by apply Exists_cons_hd].
Qed.

Lemma requested_cons nack q :
  narrow nack -> requested (nack :: q) = (Z.to_nat (nack_end nack - nack_start nack) + 1 + requested q)%nat.
Proof. intros Hn. unfold requested. cbn. rewrite u16_id by (unfold narrow in Hn; lia). done. Qed.

(** The first range without its first number. *)
Definition tail_range (nack : Nack) (q : list Nack) : list Nack :=
  if nack_start nack =? nack_end nack then q else mkNack (u16 (nack_start nack + 1)) (nack_end nack) :: q.

Lemma tail_range_spec nack q s :
  narrow nack -> Forall narrow q ->
  Forall narrow (tail_range nack q) /\ requested (nack :: q) = S (requested (tail_range nack q)) /\
  (nack_covers (nack :: q) s -> s = nack_start nack \/ nack_covers (tail_range nack q) s).
Proof.
  intros Hn Hq. rewrite requested_cons by done. unfold tail_range, nack_covers, narrow in *.
  destruct (Z.eqb_spec (nack_start nack) (nack_end nack)) as [He|Hne].
  - split_and!; [done|lia|]. intros [Hs|Hs]%Exists_cons; [left; lia|by right].
  - rewrite u16_id by lia. assert (narrow (mkNack (nack_start nack + 1) (nack_end nack))) as Hn' by (unfold narrow; cbn; lia).
    split_and!; [by constructor|rewrite requested_cons by done; cbn; lia|].
    rewrite !Exists_cons. cbn. intros [Hs|Hs]; [|by right; right].
    destruct (decide (s = nack_start nack)); [by left|]. right; left; lia.
Qed.

Lemma repeat_loop_reaches w D sent len fuel q q' out m :
  let bufs := datagram w D <$> seqZ (sent - len) len in
  0 <= len <= 32768 -> Forall narrow q -> (requested q <= fuel)%nat ->
  repeatData_loop fuel (u16 sent) bufs q = (q', out) ->
  sent - len <= m < sent -> nack_covers q (u16 m) ->
  Forall narrow q' /\ (requested q' < requested q)%nat /\ (DgData (datagram w D m) ∈ out \/ nack_covers q' (u16 m)).
Proof.
  intros bufs Hlen. assert (Z.of_nat (length bufs) = len) as Hbufs by (unfold bufs; rewrite length_fmap, length_seqZ; lia).
  revert q. induction fuel as [|fuel IH]; intros q Hq Hfuel E Hm Hc.
  { destruct q as [|nack q]; [by inversion Hc|]. apply Forall_cons in Hq as [Hn _]. rewrite requested_cons in Hfuel by done. lia. }
  destruct q as [|nack q]; [by inversion Hc|]. apply Forall_cons in Hq as [Hn Hq].
  destruct (tail_range_spec nack q (u16 m) Hn Hq) as (Hq1 & Hr1 & Hc1).
  cbn [repeatData_loop] in E. cbv zeta in E. rewrite Hbufs in E. fold (tail_range nack q) in E.
  destruct (Z.eqb_spec (u16 (u16 sent - nack_start nack)) 0) as [Hz|Hnz].
  - assert (nack_covers q (u16 m)) as Hc'.
    { apply Exists_cons in Hc as [Hc|Hc]; [|done]. exfalso. cbn in Hc.
      assert (u16 (u16 sent - nack_start nack) = u16 (sent - m + (u16 m - nack_start nack))) as Hd
        by (unfold u16; Z.div_mod_to_equations; lia).
      rewrite Hd, u16_id in Hz by (unfold narrow in Hn; lia). lia. }
    destruct (IH q Hq) as (H1 & H2 & H3); try done; [rewrite requested_cons in Hfuel by done; lia|].
    split_and!; [done|rewrite requested_cons by done; lia|done].
  - assert (u16 m = nack_start nack -> u16 (u16 sent - nack_start nack) = sent - m) as Hd.
    { intros <-. rewrite u16_sub, u16_id by lia. done. }
    destruct (Z.leb_spec (u16 (u16 sent - nack_start nack)) len) as [Hin|Hout].
    + injection E as <- <-. split_and!; [done|lia|]. destruct (Hc1 Hc) as [He|]; [left|by right].
      rewrite (Hd He). unfold bufs. rewrite list_lookup_fmap, lookup_seqZ_lt by lia. cbn.
      replace (sent - len + _) with m by lia. by apply list_elem_of_singleton.
    + destruct (Hc1 Hc) as [He|Hc']; [rewrite (Hd He) in Hout; lia|].
      destruct (IH _ Hq1 ltac:(lia) E Hm Hc') as (H1 & H2 & H3). split_and!; [done|lia|done].
Qed.

Lemma repeatData_frame r r' out : _repeatData r = (r', out) ->
  rl_sequence r' = rl_sequence r /\ rl_writeBuffers r' = rl_writeBuffers r /\ rl_id r' = rl_id r.
Proof. unfold _repeatData. destruct (repeatData_loop _ _ _ _). by intros [= <- <-]. Qed.

Lemma repeat_all_reaches D sent n r m :
  rl_sequence r = u16 sent ->
  rl_writeBuffers r = datagram (rl_id r) D <$> seqZ (sent - Z.of_nat (length (rl_writeBuffers r))) (Z.of_nat (length (rl_writeBuffers r))) ->
  Z.of_nat (length (rl_writeBuffers r)) <= 32768 -> Forall narrow (rl_repeatQueue r) ->
  (requested (rl_repeatQueue r) <= n)%nat -> sent - Z.of_nat (length (rl_writeBuffers r)) <= m < sent ->
  nack_covers (rl_repeatQueue r) (u16 m) -> DgData (datagram (rl_id r) D m) ∈ (repeat_all n r).2.
Proof.
  revert r. induction n as [|n IH]; intros r Hs Hw Hl Hq Hn Hm Hc.
  { destruct (rl_repeatQueue r) as [|nack q]; [by inversion Hc|]. apply Forall_cons in Hq as [Hq _].
    rewrite requested_cons in Hn by done. lia. }
  cbn [repeat_all]. destruct (_repeatData r) as [r1 out] eqn:E. destruct (repeatData_frame _ _ _ E) as (Hs1 & Hw1 & Hi1).
  unfold _repeatData in E. destruct (repeatData_loop _ _ _ _) as [q' out'] eqn:El. injection E as Er ->.
  rewrite Hs, Hw in El. apply (repeat_loop_reaches _ _ _ _ _ _ _ _ m) in El as (H1 & H2 & H3); [|lia|done..].
  destruct (repeat_all n r1) as [r2 out2] eqn:E2. cbn. apply elem_of_app. destruct H3 as [H3|H3]; [by left|right].
  assert (rl_repeatQueue r1 = q') as Hq1 by (by rewrite <-Er).
  replace out2 with (repeat_all n r1).2 by (by rewrite E2). rewrite <-Hi1. apply IH; rewrite ?Hs1, ?Hw1, ?Hi1, ?Hq1; try done. lia.
Qed.

(** What a reader reports missing is repeated.  After a negative
    acknowledgement of one of its readers a writer that still holds datagram [m],
    and was asked for it now or before, sends it again within as many calls of
    [_repeatData] as datagrams are requested. *)
Theorem rsp_nack_repeated r D sent written reader nacks c m :
  writer_ok r D sent written -> findConnection reader (rl_children r) = Some c ->
  Z.of_nat (length (rl_writeBuffers r)) <= 32768 ->
  Forall narrow (rl_repeatQueue (handleNack r reader (rl_id r) nacks).2) ->
  Z.of_nat sent - Z.of_nat (length (rl_writeBuffers r)) <= m < Z.of_nat sent ->
  nack_covers nacks (u16 m) \/ nack_covers (rl_repeatQueue r) (u16 m) ->
  let r' := (handleNack r reader (rl_id r) nacks).2 in
  DgData (datagram (rl_id r) D m) ∈ (repeat_all (requested (rl_repeatQueue r')) r').2.
Proof.
  intros Hw Hf Hl Hq Hm Hc. unfold handleNack in *. rewrite Z.eqb_refl, Hf in *. cbn [negb snd] in *.
  change (rl_id r) with (rl_id (_addRepeat nacks (set_rl_timeouts 0 r))).
  apply (repeat_all_reaches _ (Z.of_nat sent)); try done; try apply Hw.
  apply addRepeat_covers. tauto.
Qed.

End repeats.

(** ** Samples, where the sequence numbers wrap around *)

Definition sample_payload (k : Z) : bytes := [k mod 7].

(** A reader (id 2) that delivered 65535 datagrams of writer 1 and holds the third
    one after a hole. *)
Definition sample_reader_child : RspChild :=
  mkRspChild 1 65535 65534 3 [] [None; Some (mkDatagramData 1 1 (sample_payload 65537))] None 0 true.

Definition sample_reader : RspListener :=
  mkRspListener 2 true true 0 0 [sample_reader_child; new_child 2 0 4] [] [] 4 [] [].

Lemma sample_reader_ok : reader_ok 4 1 sample_payload sample_reader_child 65535.
Proof.
  split; try reflexivity; [|cbn; lia|done].
  intros [|[|i]] b; cbn; [done|intros [= <-]; reflexivity|by destruct i].
Qed.

Lemma rsp_ack_request_answered_witness :
  handleAckRequest 4 sample_reader 1 (u16 65538) =
    (true, sample_reader, [DgNack 2 1 [mkNack 65535 65535; mkNack 0 0; mkNack 1 2]]) /\
  exists nacks, handleAckRequest 4 sample_reader 1 (u16 65538) = (true, sample_reader, [DgNack 2 1 nacks]) /\
    nack_covers nacks (u16 65536).
Proof.
  split; [reflexivity|].
  destruct (rsp_ack_request_answered 4 ltac:(lia) 1 sample_payload sample_reader sample_reader_child 65535 65538
    eq_refl sample_reader_ok ltac:(done) ltac:(lia)) as [_ H].
  destruct (H ltac:(lia)) as (nacks & Hh & Hc). exists nacks. split; [exact Hh|]. apply Hc; [|lia]. split; [lia|done].
Defined.

(** A writer (id 1) that sent 65538 datagrams and holds the last three; reader 2
    acknowledged none of them, reader 3 two. *)
Definition sample_held : list DatagramData := datagram 1 sample_payload <$> seqZ 65535 3.

Definition sample_self : RspChild := mkRspChild 1 65535 65534 4 [] [] None 0 true.

Definition sample_writer : RspListener :=
  mkRspListener 1 true true 0 2
    [sample_self; mkRspChild 2 0 65534 4 [] [] None 0 true; mkRspChild 3 0 0 4 [] [] None 0 true]
    [] [] 1 sample_held [].

Definition sample_sent : nat := Z.to_nat 65538.

Definition sample_acked (id : Z) : Z := if id =? 3 then 65536 else 65534.

Lemma sample_sent_Z : Z.of_nat sample_sent = 65538.
Proof. unfold sample_sent. by rewrite Z2Nat.id. Qed.

Lemma sample_writer_ok :
  writer_ok sample_writer sample_payload sample_sent
    (concat (sample_payload <$> seqZ 0 (Z.of_nat sample_sent)) ++ []).
Proof. split; rewrite ?sample_sent_Z; try reflexivity; [apply Forall_nil_2|apply Nat2Z.inj_le; rewrite sample_sent_Z; vm_compute; discriminate]. Qed.

Lemma sample_flow_ok :
  flow_ok 4 sample_writer sample_payload sample_sent
    (concat (sample_payload <$> seqZ 0 (Z.of_nat sample_sent)) ++ []) sample_acked.
Proof.
  split; rewrite ?sample_sent_Z; [apply sample_writer_ok| | |by exists sample_self|vm_compute; discriminate|reflexivity].
  - repeat constructor; cbn; rewrite ?elem_of_cons, ?elem_of_nil; naive_solver lia.
  - repeat constructor; vm_compute; discriminate.
Qed.

(** Reader 2 acknowledges 65536, which is 0 on the wire: two of the three datagrams
    are delivered to the writer itself and freed. *)
Lemma rsp_ack_frees_witness :
  exists r', handleAck 4 sample_writer 2 1 0 = Some (true, r') /\ length (rl_writeBuffers r') = 1%nat /\
    rl_appBuffers r' = 3.
Proof.
  destruct (rsp_ack_frees 4 ltac:(lia) sample_writer sample_payload sample_sent _ sample_acked 2
    (mkRspChild 2 0 65534 4 [] [] None 0 true) 65536 sample_self sample_flow_ok eq_refl ltac:(done)
    ltac:(rewrite sample_sent_Z; vm_compute; split; [reflexivity|discriminate]) eq_refl
    ltac:(rewrite sample_sent_Z; vm_compute; discriminate))
    as (M & r' & self' & Hmin & (id & Hid & HM) & Hh & _ & Hwb & Hab & _).
  exists r'. split; [exact Hh|].
  assert (M = 65536) as ->.
  { rewrite HM. revert Hid. vm_compute. intros Hid. apply elem_of_cons in Hid as [->|Hid]; [reflexivity|].
    apply elem_of_cons in Hid as [->|Hid]; [reflexivity|by apply not_elem_of_nil in Hid]. }
  rewrite Hwb, Hab. split; reflexivity.
Defined.

(** Reader 3 asks for the datagrams 65535 and 65536. *)
Lemma rsp_nack_repeated_witness :
  let r' := (handleNack sample_writer 3 1 [mkNack 65535 65535; mkNack 0 0]).2 in
  DgData (mkDatagramData 1 0 (sample_payload 65536)) ∈ (repeat_all 2 r').2.
Proof.
  apply (rsp_nack_repeated sample_writer sample_payload sample_sent _ 3 [mkNack 65535 65535; mkNack 0 0]
    (mkRspChild 3 0 0 4 [] [] None 0 true) 65536 sample_writer_ok eq_refl).
  - vm_compute. discriminate.
  - vm_compute. repeat constructor; discriminate.
  - rewrite sample_sent_Z. vm_compute. split; [discriminate|reflexivity].
  - left. apply Exists_cons_tl, Exists_cons_hd. vm_compute. split; discriminate.
Defined.
