(* ===== verification/Rdma.v ===== *)
(** * Flow control of RDMA connections (co/rdmaConnection.cpp)

    Each end of a connection owns a source and a sink ring buffer.  Data is copied
    into the source buffer and written by the network adapter into the sink buffer
    of the peer; the immediate value of such a write tells the peer how much
    arrived, and flow control messages tell the writer how much was read.  Both
    kinds of messages need credits, which the other kind returns.  The adapter is
    a reliable connected queue pair: work requests are carried out in order, and
    each produces a completion on either side.  Setting up and tearing down the
    adapter (addresses, queue pairs, memory registration) is left out. *)

From S2P Require Import Prelude Bytes Ring.

(** ** Messages *)

Definition MAX_BS : Z := 268435455.
Definition MAX_FC : Z := 15.
Definition FC_MESSAGE_FREQUENCY : Z := 12.
Definition MIDDLE : nat := 1.

(** [RDMASetupPayload] and [RDMAFCPayload] *)
Inductive RDMAMessage :=
| MSetup (rbase rlen rkey : Z)
| MFC (bytes_received writes_received : Z).

(** [RDMAFCImm]: 28 bits of bytes sent and four bits of flow control messages
    received, before [htonl]. *)
Definition imm_pack (bytes_sent fcs_received : Z) : Z := bytes_sent + fcs_received * 268435456.
Definition imm_bytes (imm : Z) : Z := imm `mod` 268435456.
Definition imm_fcs (imm : Z) : Z := imm `div` 268435456.

(** Work requests, and the completions they lead to: at the writer, at the sender
    of a message, and at the receivers of both. *)
Inductive WorkRequest :=
| WrWrite (src len remote_addr imm : Z)
| WrSend (message : RDMAMessage).

Inductive Completion :=
| WcWrite (len : Z)
| WcSend
| WcRecvImm (imm : Z)
| WcRecv (message : RDMAMessage).

(** ** The connection *)

(** [rd_pipe] is what was written to [_pipe_fd], [rd_posted] the number of receives
    posted and [rd_cq] the completion queue. *)
Record RDMAConnection := mkRDMA {
  rd_depth : Z;
  rd_established : bool;
  rd_writes : Z;
  rd_fcs : Z;
  rd_wcredits : Z;
  rd_fcredits : Z;
  rd_readBytes : Z;
  rd_sourcebuf : bytes;
  rd_sourceptr : Ring;
  rd_sinkbase : Z;
  rd_sinkkey : Z;
  rd_sinkbuf : bytes;
  rd_sinkptr : Ring;
  rd_rptr : Ring;
  rd_rbase : Z;
  rd_rkey : Z;
  rd_pipe : list Z;
  rd_posted : Z;
  rd_cq : list Completion
}.

Definition set_established (x : bool) (e : RDMAConnection) : RDMAConnection :=
  mkRDMA (rd_depth e) x (rd_writes e) (rd_fcs e) (rd_wcredits e) (rd_fcredits e) (rd_readBytes e)
    (rd_sourcebuf e) (rd_sourceptr e) (rd_sinkbase e) (rd_sinkkey e) (rd_sinkbuf e) (rd_sinkptr e) (rd_rptr e)
    (rd_rbase e) (rd_rkey e) (rd_pipe e) (rd_posted e) (rd_cq e).
Definition set_writes (x : Z) (e : RDMAConnection) : RDMAConnection :=
  mkRDMA (rd_depth e) (rd_established e) x (rd_fcs e) (rd_wcredits e) (rd_fcredits e) (rd_readBytes e)
    (rd_sourcebuf e) (rd_sourceptr e) (rd_sinkbase e) (rd_sinkkey e) (rd_sinkbuf e) (rd_sinkptr e) (rd_rptr e)
    (rd_rbase e) (rd_rkey e) (rd_pipe e) (rd_posted e) (rd_cq e).
Definition set_fcs (x : Z) (e : RDMAConnection) : RDMAConnection :=
  mkRDMA (rd_depth e) (rd_established e) (rd_writes e) x (rd_wcredits e) (rd_fcredits e) (rd_readBytes e)
    (rd_sourcebuf e) (rd_sourceptr e) (rd_sinkbase e) (rd_sinkkey e) (rd_sinkbuf e) (rd_sinkptr e) (rd_rptr e)
    (rd_rbase e) (rd_rkey e) (rd_pipe e) (rd_posted e) (rd_cq e).
Definition set_wcredits (x : Z) (e : RDMAConnection) : RDMAConnection :=
  mkRDMA (rd_depth e) (rd_established e) (rd_writes e) (rd_fcs e) x (rd_fcredits e) (rd_readBytes e)
    (rd_sourcebuf e) (rd_sourceptr e) (rd_sinkbase e) (rd_sinkkey e) (rd_sinkbuf e) (rd_sinkptr e) (rd_rptr e)
    (rd_rbase e) (rd_rkey e) (rd_pipe e) (rd_posted e) (rd_cq e).
Definition set_fcredits (x : Z) (e : RDMAConnection) : RDMAConnection :=
  mkRDMA (rd_depth e) (rd_established e) (rd_writes e) (rd_fcs e) (rd_wcredits e) x (rd_readBytes e)
    (rd_sourcebuf e) (rd_sourceptr e) (rd_sinkbase e) (rd_sinkkey e) (rd_sinkbuf e) (rd_sinkptr e) (rd_rptr e)
    (rd_rbase e) (rd_rkey e) (rd_pipe e) (rd_posted e) (rd_cq e).
Definition set_readBytes (x : Z) (e : RDMAConnection) : RDMAConnection :=
  mkRDMA (rd_depth e) (rd_established e) (rd_writes e) (rd_fcs e) (rd_wcredits e) (rd_fcredits e) x
    (rd_sourcebuf e) (rd_sourceptr e) (rd_sinkbase e) (rd_sinkkey e) (rd_sinkbuf e) (rd_sinkptr e) (rd_rptr e)
    (rd_rbase e) (rd_rkey e) (rd_pipe e) (rd_posted e) (rd_cq e).
Definition set_sourcebuf (x : bytes) (e : RDMAConnection) : RDMAConnection :=
  mkRDMA (rd_depth e) (rd_established e) (rd_writes e) (rd_fcs e) (rd_wcredits e) (rd_fcredits e) (rd_readBytes e)
    x (rd_sourceptr e) (rd_sinkbase e) (rd_sinkkey e) (rd_sinkbuf e) (rd_sinkptr e) (rd_rptr e)
    (rd_rbase e) (rd_rkey e) (rd_pipe e) (rd_posted e) (rd_cq e).
Definition set_sourceptr (x : Ring) (e : RDMAConnection) : RDMAConnection :=
  mkRDMA (rd_depth e) (rd_established e) (rd_writes e) (rd_fcs e) (rd_wcredits e) (rd_fcredits e) (rd_readBytes e)
    (rd_sourcebuf e) x (rd_sinkbase e) (rd_sinkkey e) (rd_sinkbuf e) (rd_sinkptr e) (rd_rptr e)
    (rd_rbase e) (rd_rkey e) (rd_pipe e) (rd_posted e) (rd_cq e).
Definition set_sinkbuf (x : bytes) (e : RDMAConnection) : RDMAConnection :=
  mkRDMA (rd_depth e) (rd_established e) (rd_writes e) (rd_fcs e) (rd_wcredits e) (rd_fcredits e) (rd_readBytes e)
    (rd_sourcebuf e) (rd_sourceptr e) (rd_sinkbase e) (rd_sinkkey e) x (rd_sinkptr e) (rd_rptr e)
    (rd_rbase e) (rd_rkey e) (rd_pipe e) (rd_posted e) (rd_cq e).
Definition set_sinkptr (x : Ring) (e : RDMAConnection) : RDMAConnection :=
  mkRDMA (rd_depth e) (rd_established e) (rd_writes e) (rd_fcs e) (rd_wcredits e) (rd_fcredits e) (rd_readBytes e)
    (rd_sourcebuf e) (rd_sourceptr e) (rd_sinkbase e) (rd_sinkkey e) (rd_sinkbuf e) x (rd_rptr e)
    (rd_rbase e) (rd_rkey e) (rd_pipe e) (rd_posted e) (rd_cq e).
Definition set_rptr (x : Ring) (e : RDMAConnection) : RDMAConnection :=
  mkRDMA (rd_depth e) (rd_established e) (rd_writes e) (rd_fcs e) (rd_wcredits e) (rd_fcredits e) (rd_readBytes e)
    (rd_sourcebuf e) (rd_sourceptr e) (rd_sinkbase e) (rd_sinkkey e) (rd_sinkbuf e) (rd_sinkptr e) x
    (rd_rbase e) (rd_rkey e) (rd_pipe e) (rd_posted e) (rd_cq e).
Definition set_rbase (x : Z) (e : RDMAConnection) : RDMAConnection :=
  mkRDMA (rd_depth e) (rd_established e) (rd_writes e) (rd_fcs e) (rd_wcredits e) (rd_fcredits e) (rd_readBytes e)
    (rd_sourcebuf e) (rd_sourceptr e) (rd_sinkbase e) (rd_sinkkey e) (rd_sinkbuf e) (rd_sinkptr e) (rd_rptr e)
    x (rd_rkey e) (rd_pipe e) (rd_posted e) (rd_cq e).
Definition set_rkey (x : Z) (e : RDMAConnection) : RDMAConnection :=
  mkRDMA (rd_depth e) (rd_established e) (rd_writes e) (rd_fcs e) (rd_wcredits e) (rd_fcredits e) (rd_readBytes e)
    (rd_sourcebuf e) (rd_sourceptr e) (rd_sinkbase e) (rd_sinkkey e) (rd_sinkbuf e) (rd_sinkptr e) (rd_rptr e)
    (rd_rbase e) x (rd_pipe e) (rd_posted e) (rd_cq e).
Definition set_pipe (x : list Z) (e : RDMAConnection) : RDMAConnection :=
  mkRDMA (rd_depth e) (rd_established e) (rd_writes e) (rd_fcs e) (rd_wcredits e) (rd_fcredits e) (rd_readBytes e)
    (rd_sourcebuf e) (rd_sourceptr e) (rd_sinkbase e) (rd_sinkkey e) (rd_sinkbuf e) (rd_sinkptr e) (rd_rptr e)
    (rd_rbase e) (rd_rkey e) x (rd_posted e) (rd_cq e).
Definition set_posted (x : Z) (e : RDMAConnection) : RDMAConnection :=
  mkRDMA (rd_depth e) (rd_established e) (rd_writes e) (rd_fcs e) (rd_wcredits e) (rd_fcredits e) (rd_readBytes e)
    (rd_sourcebuf e) (rd_sourceptr e) (rd_sinkbase e) (rd_sinkkey e) (rd_sinkbuf e) (rd_sinkptr e) (rd_rptr e)
    (rd_rbase e) (rd_rkey e) (rd_pipe e) x (rd_cq e).
Definition set_cq (x : list Completion) (e : RDMAConnection) : RDMAConnection :=
  mkRDMA (rd_depth e) (rd_established e) (rd_writes e) (rd_fcs e) (rd_wcredits e) (rd_fcredits e) (rd_readBytes e)
    (rd_sourcebuf e) (rd_sourceptr e) (rd_sinkbase e) (rd_sinkkey e) (rd_sinkbuf e) (rd_sinkptr e) (rd_rptr e)
    (rd_rbase e) (rd_rkey e) (rd_pipe e) (rd_posted e) x.

(** [_initProtocol]: [None] for an invalid depth *)
Definition _initProtocol (depth : Z) (e : RDMAConnection) : option RDMAConnection :=
  if depth <? 2 then None
  else
    Some (mkRDMA depth (rd_established e) 0 0 (depth `quot` 2 - 2) (depth `quot` 2 + 2) 0
            (rd_sourcebuf e) (rd_sourceptr e) (rd_sinkbase e) (rd_sinkkey e) (rd_sinkbuf e) (rd_sinkptr e) (rd_rptr e)
            (rd_rbase e) (rd_rkey e) (rd_pipe e) (rd_posted e) (rd_cq e)).

(** [_initBuffers] with ring buffers of [size] bytes *)
Definition _initBuffers (size : Z) (e : RDMAConnection) : option RDMAConnection :=
  if size =? 0 then None
  else
    let zeros := replicate (Z.to_nat size) 0 in
    Some (set_sinkbuf zeros (set_sourcebuf zeros
      (set_sinkptr (clear (rd_sinkptr e) (u32 size)) (set_sourceptr (clear (rd_sourceptr e) (u32 size)) e)))).

Definition _postReceives (count : Z) (e : RDMAConnection) : RDMAConnection := set_posted (rd_posted e + count) e.

Definition _needFC (e : RDMAConnection) : bool :=
  let bytesAvail := match rd_pipe e with [] => false | _ => true end in
  negb bytesAvail || (u32 (rd_writes e) >=? FC_MESSAGE_FREQUENCY).

Definition _incrAvailableBytes (b : Z) (e : RDMAConnection) : RDMAConnection := set_pipe (rd_pipe e ++ [b]) e.

(** [_getAvailableBytes] empties the pipe. *)
Definition _getAvailableBytes (e : RDMAConnection) : Z * RDMAConnection :=
  (u64 (foldr Z.add 0 (rd_pipe e)), set_pipe [] e).

Definition _recvRDMAWrite (imm : Z) (e : RDMAConnection) : RDMAConnection :=
  let e := set_sinkptr (incr 32 (rd_sinkptr e) HEAD (imm_bytes imm)) e in
  let e := _incrAvailableBytes (imm_bytes imm) e in
  let e := set_fcredits (rd_fcredits e + imm_fcs imm) e in
  set_writes (rd_writes e + 1) e.

Definition _makeImm (b : Z) (e : RDMAConnection) : Z * RDMAConnection :=
  let fcs_received := Z.min MAX_FC (u16 (rd_fcs e)) in
  (imm_pack b fcs_received, set_fcs (rd_fcs e - fcs_received) e).

(** [_postRDMAWrite] first takes the block from the source buffer, then posts it. *)
Definition post_source (e : RDMAConnection) : Z * Z * Z * RDMAConnection :=
  let src := ptr 32 (rd_sourceptr e) MIDDLE 0 in
  let length := available 32 (rd_sourceptr e) HEAD MIDDLE in
  let e := set_sourceptr (incr 32 (rd_sourceptr e) MIDDLE length) e in
  let '(imm, e) := _makeImm length e in
  (src, length, imm, e).

Definition post_remote (src length imm : Z) (e : RDMAConnection) : WorkRequest * RDMAConnection :=
  let remote_addr := rd_rbase e + ptr 32 (rd_rptr e) HEAD 0 in
  let e := set_rptr (incr 32 (rd_rptr e) HEAD length) e in
  (WrWrite src length remote_addr imm, set_wcredits (rd_wcredits e - 1) e).

Definition _postRDMAWrite (e : RDMAConnection) : WorkRequest * RDMAConnection :=
  let '(src, length, imm, e) := post_source e in post_remote src length imm e.

Definition _postMessage (message : RDMAMessage) (e : RDMAConnection) : WorkRequest * RDMAConnection :=
  (WrSend message, set_fcredits (rd_fcredits e - 1) e).

Definition _recvFC (bytes_received writes_received : Z) (e : RDMAConnection) : RDMAConnection :=
  let e := set_rptr (incr 32 (rd_rptr e) (TAIL (rd_rptr e)) bytes_received) e in
  let e := set_wcredits (rd_wcredits e + writes_received) e in
  set_fcs (rd_fcs e + 1) e.

Definition _recvSetup (rbase rlen rkey : Z) (e : RDMAConnection) : RDMAConnection :=
  set_rkey rkey (set_rptr (clear (rd_rptr e) (u32 rlen)) (set_rbase rbase e)).

Definition _recvMessage (message : RDMAMessage) (e : RDMAConnection) : RDMAConnection :=
  match message with
  | MFC bytes_received writes_received => _recvFC bytes_received writes_received e
  | MSetup rbase rlen rkey => _recvSetup rbase rlen rkey e
  end.

(** The payload of a flow control message *)
Definition take_fc (e : RDMAConnection) : RDMAMessage * RDMAConnection :=
  let bytes_received := u32 (rd_readBytes e) in
  let writes_received := u32 (rd_writes e) in
  (MFC bytes_received writes_received, set_readBytes 0 (set_writes (rd_writes e - writes_received) e)).

Definition _postFC (e : RDMAConnection) : WorkRequest * RDMAConnection :=
  let '(message, e) := take_fc e in _postMessage message e.

Definition _postSetup (e : RDMAConnection) : WorkRequest * RDMAConnection :=
  _postMessage (MSetup (rd_sinkbase e) (Z.of_nat (length (rd_sinkbuf e))) (rd_sinkkey e)) e.

(** ** Completions *)

Definition is_recv (wc : Completion) : bool := match wc with WcRecvImm _ | WcRecv _ => true | _ => false end.

Definition handle_completion (wc : Completion) (e : RDMAConnection) : RDMAConnection :=
  match wc with
  | WcRecvImm imm => _recvRDMAWrite imm e
  | WcRecv message => _recvMessage message e
  | WcSend => e
  | WcWrite len => set_sourceptr (incr 32 (rd_sourceptr e) (TAIL (rd_sourceptr e)) (u32 len)) e
  end.

(** The loop over the [count] completions polled, and the number of receives. *)
Fixpoint poll_loop (count : nat) (e : RDMAConnection) : Z * RDMAConnection :=
  match count, rd_cq e with
  | S count, wc :: cq =>
      let e := handle_completion wc (set_cq cq e) in
      let '(num_recvs, e) := poll_loop count e in
      ((if is_recv wc then 1 else 0) + num_recvs, e)
  | _, _ => (0, e)
  end.

Definition _checkCQ (count : nat) (e : RDMAConnection) : RDMAConnection :=
  let '(num_recvs, e) := poll_loop count e in _postReceives num_recvs e.

(** ** Copying *)

(** [len] bytes from offset [off] of a buffer that is mapped twice in a row. *)
Definition read_mapped (buf : bytes) (off len : Z) : bytes :=
  (fun i => buf !!! Z.to_nat ((off + Z.of_nat i) `mod` Z.of_nat (length buf))) <$> seq 0 (Z.to_nat len).

(** [memcpy] to offset [off] *)
Definition write_at (off : Z) (data buf : bytes) : bytes :=
  take (Z.to_nat off) buf ++ data ++ drop (Z.to_nat off + length data) buf.

(** How much is drained, and draining it *)
Definition drain_bytes (bytes_ : Z) (e : RDMAConnection) : Z :=
  Z.min bytes_ (available 32 (rd_sinkptr e) HEAD (TAIL (rd_sinkptr e))).

Definition drain_copy (b : Z) (e : RDMAConnection) : bytes * RDMAConnection :=
  let r := rd_sinkptr e in
  (read_mapped (rd_sinkbuf e) (ptr 32 r (TAIL r) 0) b, set_sinkptr (incr 32 r (TAIL r) b) e).

Definition _drain (bytes_ : Z) (e : RDMAConnection) : bytes * RDMAConnection := drain_copy (drain_bytes bytes_ e) e.

(** How much is filled in, and filling it in; [bytes_] is the length of [data], at
    most [MAX_BS]. *)
Definition fill_bytes (data : bytes) (e : RDMAConnection) : Z :=
  let r := rd_sourceptr e in
  let b := Z.min (Z.of_nat (length data))
             (Z.min (negAvailable 32 r HEAD (TAIL r)) (negAvailable 32 (rd_rptr e) HEAD (TAIL (rd_rptr e)))) in
  Z.min b (u32 (Z.of_nat (length (rd_sourcebuf e)) - ptr 32 r HEAD 0)).

Definition fill_copy (b : Z) (data : bytes) (e : RDMAConnection) : RDMAConnection :=
  let r := rd_sourceptr e in
  set_sourceptr (incr 32 r HEAD b) (set_sourcebuf (write_at (ptr 32 r HEAD 0) (take (Z.to_nat b) data) (rd_sourcebuf e)) e).

Definition _fill (data : bytes) (e : RDMAConnection) : Z * RDMAConnection :=
  let b := fill_bytes data e in (b, fill_copy b data e).

(** ** Reading and writing

    One pass through the loops of [write] and [readSync]; a pass ends with the
    number of bytes moved, with another pass, or with an error.  [count] is the
    number of completions the pass polls, [timedOut] whether the timeout passed.
    Here a pass is not interrupted; RdmaThreads cuts it into the steps of a thread
    that runs beside the other one. *)

Inductive Pass := PReturned (n : Z) | PRetry | PFailed.

Definition write_pass (timedOut : bool) (count : nat) (data : bytes) (e : RDMAConnection) :
    Pass * RDMAConnection * list WorkRequest :=
  let can_put := Z.min (Z.of_nat (length data)) MAX_BS in
  let again := if timedOut then PFailed else PRetry in
  if negb (rd_established e) then (PFailed, e, [])
  else
    let e := _checkCQ count e in
    if rd_wcredits e =? 0 then (again, e, [])
    else
      let '(bytes_put, e) := _fill (take (Z.to_nat can_put) data) e in
      if bytes_put =? 0 then (again, e, [])
      else let '(wr, e) := _postRDMAWrite e in (PReturned bytes_put, e, [wr]).

(** [extra_event] is kept from pass to pass.  So is [available_bytes], which is 0
    whenever a pass repeats: once the pipe was emptied, what was announced is in the
    sink buffer and the pass returns it. *)
Definition read_pass (timedOut block extra_event : bool) (count : nat) (bytes_ : Z) (e : RDMAConnection) :
    Pass * bool * bytes * RDMAConnection * list WorkRequest :=
  let again := if timedOut then PFailed else PRetry in
  let bufEvent := match rd_pipe e with [] => false | _ => true end in
  let e := _checkCQ count e in
  if rd_established e && _needFC e && (rd_fcredits e =? 0) then (again, extra_event, [], e, [])
  else if rd_established e && negb bufEvent then
    if extra_event && negb block then (PReturned 0, extra_event, [], e, []) else (PRetry, true, [], e, [])
  else
    let '(available_bytes, e) := if bufEvent then _getAvailableBytes e else (0, e) in
    if bufEvent && (available_bytes =? 0) then (PFailed, extra_event, [], e, [])
    else
      let '(data, e) := _drain (u32 bytes_) e in
      let bytes_taken := Z.of_nat (length data) in
      if bytes_taken =? 0 then
        if isEmpty (rd_sinkptr e) HEAD (TAIL (rd_sinkptr e)) && negb (rd_established e) then (PFailed, extra_event, [], e, [])
        else (again, extra_event, [], e, [])
      else
        let e := if available_bytes >? bytes_taken then _incrAvailableBytes (available_bytes - bytes_taken) e else e in
        let e := set_readBytes (u64 (rd_readBytes e + bytes_taken)) e in
        if rd_established e && _needFC e then
          let '(wr, e) := _postFC e in (PReturned bytes_taken, extra_event, data, e, [wr])
        else (PReturned bytes_taken, extra_event, data, e, []).

(** ** Two ends and the adapters between them *)

(** An end with its work requests that are not carried out yet and, for the
    specification, everything its application has written and read. *)
Record End := mkEnd { en_conn : RDMAConnection; en_queue : list WorkRequest; en_written : bytes; en_read : bytes }.

Definition set_conn (c : RDMAConnection) (x : End) : End := mkEnd c (en_queue x) (en_written x) (en_read x).

Definition add_completion (wc : Completion) (e : RDMAConnection) : RDMAConnection := set_cq (rd_cq e ++ [wc]) e.

(** The adapter carries out the first work request of [a]: [None] if there is none,
    if [b] has no receive posted, or if the address is outside of the sink buffer. *)
Definition deliver (a b : End) : option (End * End) :=
  let cb := en_conn b in
  match en_queue a with
  | [] => None
  | wr :: queue =>
      if rd_posted cb <=? 0 then None
      else
        match wr with
        | WrWrite src len remote_addr imm =>
            let off := remote_addr - rd_sinkbase cb in
            if (off <? 0) || (Z.of_nat (length (rd_sinkbuf cb)) <? off + len) then None
            else
              let data := take (Z.to_nat len) (drop (Z.to_nat src) (rd_sourcebuf (en_conn a))) in
              let cb := add_completion (WcRecvImm imm) (set_posted (rd_posted cb - 1) (set_sinkbuf (write_at off data (rd_sinkbuf cb)) cb)) in
              Some (mkEnd (add_completion (WcWrite len) (en_conn a)) queue (en_written a) (en_read a), set_conn cb b)
        | WrSend message =>
            let cb := add_completion (WcRecv message) (set_posted (rd_posted cb - 1) cb) in
            Some (mkEnd (add_completion WcSend (en_conn a)) queue (en_written a) (en_read a), set_conn cb b)
        end
  end.

(** What the first end does. *)
Inductive end_step : End * End -> End * End -> Prop :=
| step_write a b timedOut count data r c wrs :
    write_pass timedOut count data (en_conn a) = (r, c, wrs) -> r <> PFailed ->
    end_step (a, b) (mkEnd c (en_queue a ++ wrs) (en_written a ++ (if r is PReturned n then take (Z.to_nat n) data else [])) (en_read a), b)
| step_read a b timedOut block extra count n r extra' data c wrs :
    0 < u32 n ->
    read_pass timedOut block extra count n (en_conn a) = (r, extra', data, c, wrs) -> r <> PFailed ->
    end_step (a, b) (mkEnd c (en_queue a ++ wrs) (en_written a) (en_read a ++ data), b)
| step_deliver a b a' b' : deliver a b = Some (a', b') -> end_step (a, b) (a', b').

Inductive rdma_step : End * End -> End * End -> Prop :=
| step_first s s' : end_step s s' -> rdma_step s s'
| step_second a b a' b' : end_step (b, a) (b', a') -> rdma_step (a, b) (a', b').

(** The state before the setup messages, and after both were exchanged. *)
Definition RDMAConnection_init (base key : Z) : RDMAConnection :=
  mkRDMA 0 true 0 0 0 0 0 [] (Ring_init 3 0) base key [] (Ring_init 2 0) (Ring_init 2 0) 0 0 [] 0 [].

Definition RDMAConnection_start (depth size base key : Z) : option RDMAConnection :=
  e ← _initProtocol depth (RDMAConnection_init base key);
  e ← _initBuffers size e;
  Some (_postReceives depth e).

Definition exchange_setup (a b : RDMAConnection) : RDMAConnection * RDMAConnection :=
  let '(wa, a) := _postSetup a in
  let '(wb, b) := _postSetup b in
  (match wb with WrSend m => _recvMessage m a | _ => a end, match wa with WrSend m => _recvMessage m b | _ => b end).

(** Two connected ends whose buffers have [size] bytes. *)
Definition rdma_start (depth size base1 key1 base2 key2 : Z) : option (End * End) :=
  a ← RDMAConnection_start depth size base1 key1;
  b ← RDMAConnection_start depth size base2 key2;
  let '(a, b) := exchange_setup a b in
  Some (mkEnd a [] [] [], mkEnd b [] [] []).

Inductive rdma_reachable (s0 : End * End) : End * End -> Prop :=
| rdma_refl : rdma_reachable s0 s0
| rdma_more s s' : rdma_reachable s0 s -> rdma_step s s' -> rdma_reachable s0 s'.

(** ** Accounting *)

Definition total {X} (f : X -> Z) (l : list X) : Z := foldr (fun x s => f x + s) 0 l.

Lemma total_app {X} (f : X -> Z) l l' : total f (l ++ l') = total f l + total f l'.
Proof. induction l; simpl; [done|]. unfold total in *. simpl. rewrite IHl. lia. Qed.

Lemma total_cons {X} (f : X -> Z) x l : total f (x :: l) = f x + total f l.
Proof. done. Qed.

Lemma total_Forall {X} (f : X -> Z) l : Forall (fun x => 0 <= f x) l -> 0 <= total f l.
Proof. induction 1 as [|x l ? ? IH]; [done|]. rewrite total_cons. lia. Qed.

Lemma total_impl {X} (f : X -> Z) (P : X -> Prop) l : (forall x, P x -> 0 <= f x) -> Forall P l -> 0 <= total f l.
Proof. intros H Hl. apply total_Forall. eapply Forall_impl; [exact Hl|done]. Qed.

(** Writes and flow control messages among work requests and completions: their
    immediate values, and the bytes and writes the messages acknowledge. *)
Definition wr_imms (q : list WorkRequest) : list Z := omap (fun wr => if wr is WrWrite _ _ _ imm then Some imm else None) q.
Definition wc_imms (cq : list Completion) : list Z := omap (fun wc => if wc is WcRecvImm imm then Some imm else None) cq.
Definition wr_fcs (q : list WorkRequest) : list (Z * Z) := omap (fun wr => if wr is WrSend (MFC b w) then Some (b, w) else None) q.
Definition wc_fcs (cq : list Completion) : list (Z * Z) := omap (fun wc => if wc is WcRecv (MFC b w) then Some (b, w) else None) cq.
Definition wc_lens (cq : list Completion) : list Z := omap (fun wc => if wc is WcWrite len then Some len else None) cq.

Lemma wc_cons wc cq :
  wc_lens (wc :: cq) = (if wc is WcWrite len then [len] else []) ++ wc_lens cq /\
  wc_imms (wc :: cq) = (if wc is WcRecvImm imm then [imm] else []) ++ wc_imms cq /\
  wc_fcs (wc :: cq) = (if wc is WcRecv (MFC b w) then [(b, w)] else []) ++ wc_fcs cq.
Proof. by destruct wc as [| | |[]]. Qed.

Lemma wc_app cq cq' :
  wc_lens (cq ++ cq') = wc_lens cq ++ wc_lens cq' /\ wc_imms (cq ++ cq') = wc_imms cq ++ wc_imms cq' /\
  wc_fcs (cq ++ cq') = wc_fcs cq ++ wc_fcs cq'.
Proof. unfold wc_lens, wc_imms, wc_fcs. by rewrite !omap_app. Qed.

Lemma wr_cons wr q :
  wr_imms (wr :: q) = (if wr is WrWrite _ _ _ imm then [imm] else []) ++ wr_imms q /\
  wr_fcs (wr :: q) = (if wr is WrSend (MFC b w) then [(b, w)] else []) ++ wr_fcs q.
Proof. by destruct wr as [|[]]. Qed.

Lemma wr_app q q' : wr_imms (q ++ q') = wr_imms q ++ wr_imms q' /\ wr_fcs (q ++ q') = wr_fcs q ++ wr_fcs q'.
Proof. unfold wr_imms, wr_fcs. by rewrite !omap_app. Qed.

#[local] Arguments total : simpl never.
#[local] Arguments wc_lens : simpl never.
#[local] Arguments wc_imms : simpl never.
#[local] Arguments wc_fcs : simpl never.
#[local] Arguments wr_imms : simpl never.
#[local] Arguments wr_fcs : simpl never.

(** The lists of a queue or completion queue with an element in front or behind. *)
Ltac wc_simpl :=
  repeat match goal with
  | |- context [wc_lens (?a :: ?b)] => rewrite (proj1 (wc_cons a b))
  | |- context [wc_imms (?a :: ?b)] => rewrite (proj1 (proj2 (wc_cons a b)))
  | |- context [wc_fcs (?a :: ?b)] => rewrite (proj2 (proj2 (wc_cons a b)))
  | |- context [wc_lens (?a ++ ?b)] => rewrite (proj1 (wc_app a b))
  | |- context [wc_imms (?a ++ ?b)] => rewrite (proj1 (proj2 (wc_app a b)))
  | |- context [wc_fcs (?a ++ ?b)] => rewrite (proj2 (proj2 (wc_app a b)))
  | |- context [wr_imms (?a :: ?b)] => rewrite (proj1 (wr_cons a b))
  | |- context [wr_fcs (?a :: ?b)] => rewrite (proj2 (wr_cons a b))
  | |- context [wr_imms (?a ++ ?b)] => rewrite (proj1 (wr_app a b))
  | |- context [wr_fcs (?a ++ ?b)] => rewrite (proj2 (wr_app a b))
  | |- context [wc_lens []] => change (wc_lens []) with (@nil Z)
  | |- context [wc_imms []] => change (wc_imms []) with (@nil Z)
  | |- context [wc_fcs []] => change (wc_fcs []) with (@nil (Z * Z))
  | |- context [wr_imms []] => change (wr_imms []) with (@nil Z)
  | |- context [wr_fcs []] => change (wr_fcs []) with (@nil (Z * Z))
  end; cbn [app].

Ltac wc_simpl_in H := revert H; wc_simpl; intros H.

(** Flow control messages the reader may still send for what it has received. *)
Definition potential (b : RDMAConnection) : Z := match rd_pipe b with [] => 0 | _ => Z.max 1 (rd_writes b) end.

(** The writes not carried out yet continue at position [P] of the stream. *)
Fixpoint segments (n base P : Z) (q : list WorkRequest) : option Z :=
  match q with
  | [] => Some P
  | WrSend _ :: q => segments n base P q
  | WrWrite src len remote_addr imm :: q =>
      if bool_decide (src = P `mod` n /\ remote_addr = base + P `mod` n /\ 0 < len <= MAX_BS /\ P `mod` n + len <= n /\
                      imm_bytes imm = len /\ 0 <= imm_fcs imm)
      then segments n base (P + len) q else None
  end.

Section proofs.

Context (n C : Z).
Context (Hn : 0 < n) (Hn32 : 2 * n <= 2 ^ 32) (HC : 0 <= C < 65535).

(** Positions in the stream from [a] to [b]: filled, completed at the writer,
    written to the sink, announced to the reader, read, and acknowledged. *)
Record positions := mkPositions { Ph : Z; Pt : Z; Pv : Z; Pk : Z; Pd : Z; Pr : Z }.

Definition ring_at (r : Ring) (Ns : list Z) : Prop := num r = n /\ Forall2 (tracks 32 n) (ptrs r) Ns.

Record flows (p : positions) (a b : End) : Prop := {
  fl_source : ring_at (rd_sourceptr (en_conn a)) [Ph p; Ph p; Pt p];
  fl_rptr : ring_at (rd_rptr (en_conn a)) [Ph p; Pr p];
  fl_sink : ring_at (rd_sinkptr (en_conn b)) [Pk p; Pd p];
  fl_order : 0 <= Pr p <= Pd p /\ Pd p <= Pk p <= Pv p /\ Pt p <= Pv p <= Ph p /\ 0 <= Pt p /\ Ph p - Pr p <= n /\ Ph p - Pt p <= n;
  fl_written : Z.of_nat (length (en_written a)) = Ph p;
  fl_read : en_read b = take (Z.to_nat (Pd p)) (en_written a);
  fl_buffers : Z.of_nat (length (rd_sourcebuf (en_conn a))) = n /\ Z.of_nat (length (rd_sinkbuf (en_conn b))) = n;
  fl_base : rd_rbase (en_conn a) = rd_sinkbase (en_conn b);
  fl_sourcemem i : Pt p <= i < Ph p -> rd_sourcebuf (en_conn a) !! Z.to_nat (i `mod` n) = en_written a !! Z.to_nat i;
  fl_sinkmem i : Pd p <= i < Pv p -> rd_sinkbuf (en_conn b) !! Z.to_nat (i `mod` n) = en_written a !! Z.to_nat i;
  fl_segments : segments n (rd_sinkbase (en_conn b)) (Pv p) (en_queue a) = Some (Ph p);
  fl_completed : Pt p + total id (wc_lens (rd_cq (en_conn a))) = Pv p;
  fl_announced : Pk p + total imm_bytes (wc_imms (rd_cq (en_conn b))) = Pv p;
  fl_acked : Pr p + total fst (wc_fcs (rd_cq (en_conn a)) ++ wr_fcs (en_queue b)) + rd_readBytes (en_conn b) = Pd p;
  fl_positive : Forall (fun len => 0 < len) (wc_lens (rd_cq (en_conn a))) /\
                Forall (fun imm => 0 < imm_bytes imm /\ 0 <= imm_fcs imm) (wc_imms (rd_cq (en_conn b)) ++ wr_imms (en_queue a)) /\
                Forall (fun fc => 0 <= fc.1 /\ 0 <= fc.2) (wc_fcs (rd_cq (en_conn a)) ++ wr_fcs (en_queue b)) /\
                0 <= rd_readBytes (en_conn b);
  fl_pipe : total id (rd_pipe (en_conn b)) = Pk p - Pd p /\ Forall (fun x => 0 < x) (rd_pipe (en_conn b));
  fl_established : rd_established (en_conn a) = true;
  fl_nosetup : Forall (fun wc => if wc is WcRecv (MSetup _ _ _) then False else True) (rd_cq (en_conn a)) /\
               Forall (fun wr => if wr is WrSend (MSetup _ _ _) then False else True) (en_queue b)
}.

(** The flow control messages on their way, and the writes. *)
Abbreviation fcs_flying a b := (wc_fcs (rd_cq (en_conn a)) ++ wr_fcs (en_queue b)).
Abbreviation imms_flying a b := (wc_imms (rd_cq (en_conn b)) ++ wr_imms (en_queue a)).

Record credits (a b : End) : Prop := {
  cr_writes : rd_wcredits (en_conn a) + Z.of_nat (length (imms_flying a b)) + rd_writes (en_conn b) + total snd (fcs_flying a b) = C;
  cr_fcs : rd_fcredits (en_conn b) + Z.of_nat (length (fcs_flying a b)) + rd_fcs (en_conn a) + total imm_fcs (imms_flying a b) = C + 3;
  cr_nonneg : 0 <= rd_wcredits (en_conn a) /\ 0 <= rd_writes (en_conn b) /\ 0 <= rd_fcs (en_conn a);
  cr_idle : rd_pipe (en_conn b) = [] -> rd_writes (en_conn b) = 0 /\ rd_readBytes (en_conn b) = 0;
  cr_returned l l' : fcs_flying a b = l ++ l' ->
    Z.of_nat (length l') + potential (en_conn b) <= total snd l' + rd_writes (en_conn b) + 1;
  cr_enough l l' : imms_flying a b = l ++ l' ->
    Z.of_nat (length (fcs_flying a b)) + rd_fcs (en_conn a) + potential (en_conn b) + Z.of_nat (length l) + total imm_fcs l' <= C + 1
}.

(** *** Rings *)

Lemma pow32 : 2 ^ 32 = 4294967296.
Proof. reflexivity. Qed.

Lemma ring_at_tracks r Ns i N : ring_at r Ns -> Ns !! i = Some N -> tracks 32 n (ptrs r !!! i) N /\ (i < length (ptrs r))%nat.
Proof.
  intros [_ Hf] Hi. destruct (Forall2_lookup_r _ _ _ _ _ Hf Hi) as (p & Hp & Ht).
  rewrite (list_lookup_total_correct _ _ _ Hp). split; [done|]. by eapply lookup_lt_Some.
Qed.

Lemma ring_tail r Ns : ring_at r Ns -> TAIL r = (length Ns - 1)%nat.
Proof. intros [_ Hf]. unfold TAIL. by rewrite (Forall2_length _ _ _ Hf). Qed.

Lemma ring_ptr r Ns i N : ring_at r Ns -> Ns !! i = Some N -> ptr 32 r i 0 = N `mod` n.
Proof.
  intros Hr Hi. destruct (ring_at_tracks _ _ _ _ Hr Hi) as [Ht _]. unfold ptr. destruct Hr as [-> _].
  rewrite (rp_ptr_tracks 32 ltac:(lia) n _ N 0); [by rewrite Z.add_0_r|lia..|done].
Qed.

Lemma ring_available r Ns i j N K :
  ring_at r Ns -> Ns !! i = Some N -> Ns !! j = Some K -> 0 <= N - K <= n -> available 32 r i j = N - K.
Proof.
  intros Hr Hi Hj Hle. destruct (ring_at_tracks _ _ _ _ Hr Hi) as [Ht _]. destruct (ring_at_tracks _ _ _ _ Hr Hj) as [Hk _].
  unfold available, value, rp_value. eapply (tracks_distance 32); [done..|]. rewrite pow32 in *. lia.
Qed.

Lemma ring_negAvailable r Ns i j N K :
  ring_at r Ns -> Ns !! i = Some N -> Ns !! j = Some K -> 0 <= N - K <= n -> negAvailable 32 r i j = n - (N - K).
Proof.
  intros Hr Hi Hj Hle. unfold negAvailable. rewrite (ring_available _ _ _ _ _ _ Hr Hi Hj Hle). destruct Hr as [-> _].
  apply wrapu_small. rewrite pow32 in *. lia.
Qed.

Lemma ring_incr r Ns i N amount :
  ring_at r Ns -> Ns !! i = Some N -> 0 <= amount < 2 ^ 32 -> ring_at (incr 32 r i amount) (<[i := N + amount]> Ns).
Proof.
  intros Hr Hi Ha. destruct (ring_at_tracks _ _ _ _ Hr Hi) as [Ht _]. destruct Hr as [Hnum Hf]. split; [done|].
  cbn. rewrite Hnum. apply Forall2_insert; [done|]. by apply rp_incr_tracks.
Qed.

(** *** Memory *)

Lemma write_at_length off data buf :
  0 <= off -> off + Z.of_nat (length data) <= Z.of_nat (length buf) -> length (write_at off data buf) = length buf.
Proof. intros. unfold write_at. rewrite !length_app, length_take, length_drop. lia. Qed.

Lemma write_at_lookup off data buf i :
  0 <= off -> off + Z.of_nat (length data) <= Z.of_nat (length buf) ->
  write_at off data buf !! i =
    if decide (Z.to_nat off <= i < Z.to_nat off + length data)%nat then data !! (i - Z.to_nat off)%nat else buf !! i.
Proof.
  intros Ho Hl. unfold write_at. assert (length (take (Z.to_nat off) buf) = Z.to_nat off) as Ht by (rewrite length_take; lia).
  destruct (decide (i < Z.to_nat off)%nat).
  - rewrite lookup_app_l by lia. rewrite lookup_take_lt by lia. by rewrite decide_False by lia.
  - rewrite lookup_app_r by lia. rewrite Ht. case_decide.
    + by rewrite lookup_app_l by lia.
    + rewrite lookup_app_r by lia. rewrite lookup_drop. f_equal. lia.
Qed.

(** Positions less than a buffer apart do not collide. *)
Lemma mod_apart i j : i <= j < i + n -> i `mod` n = j `mod` n -> i = j.
Proof.
  intros Hij Hm. pose proof (Z.div_mod i n ltac:(lia)). pose proof (Z.div_mod j n ltac:(lia)).
  assert (j - i = n * (j `div` n - i `div` n)) as E by lia. set (q := j `div` n - i `div` n) in E.
  assert (q = 0) by nia. lia.
Qed.

Lemma mod_linear P i : 0 <= P -> 0 <= i -> P `mod` n + i < n -> (P + i) `mod` n = P `mod` n + i.
Proof.
  intros HP Hi Hl. rewrite <- Zplus_mod_idemp_l. apply Z.mod_small. pose proof (Z.mod_pos_bound P n Hn). lia.
Qed.

(** A block of the stream at position [P] of a buffer: inside it the buffer has the
    stream, elsewhere it is unchanged. *)
Lemma write_block (buf data : bytes) (stream : Z -> option Z) lo P :
  Z.of_nat (length buf) = n -> 0 <= lo <= P -> P `mod` n + Z.of_nat (length data) <= n ->
  P + Z.of_nat (length data) <= lo + n ->
  (forall i, lo <= i < P -> buf !! Z.to_nat (i `mod` n) = stream i) ->
  (forall i, P <= i < P + Z.of_nat (length data) -> data !! Z.to_nat (i - P) = stream i) ->
  forall i, lo <= i < P + Z.of_nat (length data) -> write_at (P `mod` n) data buf !! Z.to_nat (i `mod` n) = stream i.
Proof.
  intros Hb Hlo Hfit Hroom Hold Hnew i Hi. pose proof (Z.mod_pos_bound P n Hn) as HP. pose proof (Z.mod_pos_bound i n Hn) as Him.
  rewrite write_at_lookup by lia. case_decide as Hd.
  - assert (i = P + (i `mod` n - P `mod` n)) as Ei.
    { set (d := i `mod` n - P `mod` n). assert ((P + d) `mod` n = i `mod` n) as E.
      { unfold d. rewrite mod_linear; [ring|lia|lia|lia]. }
      destruct (decide (i <= P + d)); [symmetry in E; apply mod_apart in E; unfold d in *; lia|apply mod_apart in E; unfold d in *; lia]. }
    rewrite <- Hnew by lia. f_equal. lia.
  - destruct (decide (i < P)) as [|Hge]; [apply Hold; lia|]. exfalso. apply Hd.
    assert (i `mod` n = P `mod` n + (i - P)) as E by (rewrite <- mod_linear by lia; f_equal; lia). lia.
Qed.

(** *** The parts of an end a direction uses *)

Definition flow (a b : End) : Prop := exists p, flows p a b /\ credits a b.

Record writer_eq (a a' : End) : Prop := {
  we_source : rd_sourceptr (en_conn a') = rd_sourceptr (en_conn a);
  we_buf : rd_sourcebuf (en_conn a') = rd_sourcebuf (en_conn a);
  we_rptr : rd_rptr (en_conn a') = rd_rptr (en_conn a);
  we_rbase : rd_rbase (en_conn a') = rd_rbase (en_conn a);
  we_lens : wc_lens (rd_cq (en_conn a')) = wc_lens (rd_cq (en_conn a));
  we_fcs : wc_fcs (rd_cq (en_conn a')) = wc_fcs (rd_cq (en_conn a));
  we_wcredits : rd_wcredits (en_conn a') = rd_wcredits (en_conn a);
  we_fcsn : rd_fcs (en_conn a') = rd_fcs (en_conn a);
  we_established : rd_established (en_conn a') = rd_established (en_conn a);
  we_written : en_written a' = en_written a;
  we_imms : wr_imms (en_queue a') = wr_imms (en_queue a);
  we_segments base P : segments n base P (en_queue a') = segments n base P (en_queue a);
  we_nosetup : Forall (fun wc => if wc is WcRecv (MSetup _ _ _) then False else True) (rd_cq (en_conn a)) ->
               Forall (fun wc => if wc is WcRecv (MSetup _ _ _) then False else True) (rd_cq (en_conn a'))
}.

Record reader_eq (b b' : End) : Prop := {
  re_sink : rd_sinkptr (en_conn b') = rd_sinkptr (en_conn b);
  re_buf : rd_sinkbuf (en_conn b') = rd_sinkbuf (en_conn b);
  re_base : rd_sinkbase (en_conn b') = rd_sinkbase (en_conn b);
  re_imms : wc_imms (rd_cq (en_conn b')) = wc_imms (rd_cq (en_conn b));
  re_readBytes : rd_readBytes (en_conn b') = rd_readBytes (en_conn b);
  re_pipe : rd_pipe (en_conn b') = rd_pipe (en_conn b);
  re_writes : rd_writes (en_conn b') = rd_writes (en_conn b);
  re_fcredits : rd_fcredits (en_conn b') = rd_fcredits (en_conn b);
  re_read : en_read b' = en_read b;
  re_fcs : wr_fcs (en_queue b') = wr_fcs (en_queue b);
  re_nosetup : Forall (fun wr => if wr is WrSend (MSetup _ _ _) then False else True) (en_queue b) ->
               Forall (fun wr => if wr is WrSend (MSetup _ _ _) then False else True) (en_queue b')
}.

Lemma writer_refl a : writer_eq a a.
Proof. by constructor. Qed.

Lemma reader_refl b : reader_eq b b.
Proof. by constructor. Qed.

Lemma flow_frame a a' b b' : writer_eq a a' -> reader_eq b b' -> flow a b -> flow a' b'.
Proof.
  intros [] [] (p & F & K). exists p. split.
  - destruct F as [? ? ? ? ? ? ? ? ? ? ? ? ? ? ? ? ? [? ?]].
    constructor; rewrite ?we_source0, ?we_buf0, ?we_rptr0, ?we_rbase0, ?we_lens0, ?we_fcs0, ?we_established0, ?we_written0, ?we_imms0,
      ?we_segments0, ?re_sink0, ?re_buf0, ?re_base0, ?re_imms0, ?re_readBytes0, ?re_pipe0, ?re_read0, ?re_fcs0; auto.
  - destruct K. unfold potential in *.
    constructor; unfold potential; rewrite ?we_lens0, ?we_fcs0, ?we_wcredits0, ?we_fcsn0, ?we_imms0, ?re_imms0, ?re_readBytes0, ?re_pipe0, ?re_writes0,
      ?re_fcredits0, ?re_fcs0; auto.
Qed.

Lemma omap_snoc {X Y} (f : X -> option Y) l x : omap f (l ++ [x]) = omap f l ++ (if f x is Some y then [y] else []).
Proof. rewrite omap_app. cbn. by destruct (f x). Qed.

Lemma segments_app base P q q' : segments n base P (q ++ q') = (P' ← segments n base P q; segments n base P' q').
Proof. revert P. induction q as [|[] q IH]; intros P; cbn; [done| |apply IH]. case_bool_decide; [apply IH|done]. Qed.

(** *** Completions at the writer *)

Definition handled (wc : Completion) (cq : list Completion) (x : End) : End :=
  set_conn (handle_completion wc (set_cq cq (en_conn x))) x.

Lemma flow_handled_writer wc cq a b : rd_cq (en_conn a) = wc :: cq -> flow a b -> flow (handled wc cq a) b.
Proof.
  intros Hcq Hf. destruct wc as [len| |imm|[rbase rlen rkey|by_ w]].
  - destruct Hf as (p & F & K). exists (mkPositions (Ph p) (Pt p + len) (Pv p) (Pk p) (Pd p) (Pr p)).
    destruct F as [H1 ? ? H4 ? ? ? ? Hmem ? ? Hc ? Hacked [Hpos Hpos'] ? ? [Hns ?]]. rewrite Hcq in *.
    wc_simpl_in Hc. wc_simpl_in Hpos. wc_simpl_in Hpos'. wc_simpl_in Hacked. apply Forall_cons in Hpos as [Hlen Hpos]. rewrite total_cons in Hc.
    assert (0 <= total id (wc_lens cq)) as Ht by (eapply total_impl; [|exact Hpos]; unfold id; lia). unfold id in Hc at 1.
    split; [|destruct K as [K1 K2 ? ? K5 K6]; rewrite Hcq in *; wc_simpl_in K1; wc_simpl_in K2; wc_simpl_in K5; wc_simpl_in K6; by constructor].
    constructor; cbn; auto; try lia; try (intros; apply Hmem; lia).
    + rewrite (ring_tail _ _ H1). assert (u32 len = len) as -> by (unfold u32; apply Z.mod_small; rewrite pow32 in *; lia).
      apply (ring_incr _ _ 2 (Pt p)) with (amount := len) in H1; [done..|]. rewrite pow32 in *. lia.
    + by apply Forall_cons in Hns as [_ ?].
  - eapply flow_frame; [|apply reader_refl|exact Hf]. constructor; cbn; rewrite ?Hcq; wc_simpl; try done. by intros [_ ?]%Forall_cons.
  - eapply flow_frame; [|apply reader_refl|exact Hf]. constructor; cbn; rewrite ?Hcq; wc_simpl; try done. by intros [_ ?]%Forall_cons.
  - destruct Hf as (p & F & K). exfalso. destruct (fl_nosetup _ _ _ F) as [Hns _]. rewrite Hcq in Hns. by apply Forall_cons in Hns as [? _].
  - destruct Hf as (p & F & K). exists (mkPositions (Ph p) (Pt p) (Pv p) (Pk p) (Pd p) (Pr p + by_)).
    destruct F as [? H2 ? H4 ? ? ? ? Hmem ? ? Hc ? Hacked [Hpos1 [Hpos2 [Hpos3 Hpos4]]] ? ? [Hns ?]]. rewrite Hcq in *.
    wc_simpl_in Hc. wc_simpl_in Hacked. wc_simpl_in Hpos1. wc_simpl_in Hpos3.
    apply Forall_cons in Hpos3 as [[Hb Hw] Hpos3]. rewrite total_cons in Hacked. cbn in Hb, Hw, Hacked.
    assert (0 <= total fst (wc_fcs cq ++ wr_fcs (en_queue b))) as Ht by (eapply total_impl; [|exact Hpos3]; by intros ? []). split.
    + constructor; cbn; auto; try lia.
      * rewrite (ring_tail _ _ H2). apply (ring_incr _ _ 1 (Pr p)) with (amount := by_) in H2; [done..|]. rewrite pow32 in *. lia.
      * by apply Forall_cons in Hns as [_ ?].
    + destruct K as [K1 K2 K3 K4 K5 K6]. rewrite Hcq in *. wc_simpl_in K1. wc_simpl_in K2. wc_simpl_in K5. wc_simpl_in K6.
      rewrite total_cons in K1. cbn in K1, K2. constructor; cbn; auto; try lia.
      * intros l l' E. apply (K5 ((by_, w) :: l) l'). by rewrite E.
      * intros l l' E. specialize (K6 l l' E). cbn in K6. lia.
Qed.

(** *** Completions at the reader *)

Lemma total_pos_nil l : Forall (fun x => 0 < x) l -> total id l = 0 -> l = [].
Proof.
  intros Hl Ht. destruct Hl as [|x l Hx Hl]; [done|]. exfalso. rewrite total_cons in Ht.
  assert (0 <= total id l) by (eapply total_impl; [|exact Hl]; unfold id; lia). unfold id in Ht at 1. lia.
Qed.

Lemma flow_handled_reader wc cq a b : rd_cq (en_conn b) = wc :: cq -> flow a b -> flow a (handled wc cq b).
Proof.
  intros Hcq Hf. destruct wc as [len| |imm|[rbase rlen rkey|by_ w]];
    try (eapply flow_frame; [apply writer_refl| |exact Hf]; constructor; cbn; rewrite ?Hcq; wc_simpl; done).
  destruct Hf as (p & F & K). exists (mkPositions (Ph p) (Pt p) (Pv p) (Pk p + imm_bytes imm) (Pd p) (Pr p)).
  destruct F as [? ? H3 H4 ? ? ? ? ? ? ? ? Hann ? [Hpos1 [Hpos2 [Hpos3 Hpos4]]] [Hpipe Hpp] ? ?]. rewrite Hcq in *.
  wc_simpl_in Hann. wc_simpl_in Hpos2. apply Forall_cons in Hpos2 as [[Hb Hfc] Hpos2]. rewrite total_cons in Hann.
  assert (0 <= total imm_bytes (wc_imms cq)) as Ht.
  { apply Forall_app in Hpos2 as [Hp _]. eapply total_impl; [|exact Hp]. intros ? []. lia. }
  split.
  - constructor; cbn; auto; try lia.
    + apply (ring_incr _ _ 0 (Pk p)) with (amount := imm_bytes imm) in H3; [done..|]. rewrite pow32 in *. lia.
    + rewrite total_app, total_cons. unfold id in *. change (total (fun x : Z => x) []) with 0. split; [lia|].
      apply Forall_app. split; [done|]. by apply Forall_singleton.
  - destruct K as [K1 K2 K3 K4 K5 K6]. rewrite Hcq in *. wc_simpl_in K1. wc_simpl_in K2. wc_simpl_in K5. wc_simpl_in K6.
    cbn [length] in K1. rewrite total_cons in K2.
    assert (potential (en_conn (handled (WcRecvImm imm) cq b)) = rd_writes (en_conn b) + 1 \/
            rd_writes (en_conn b) = 0 /\ potential (en_conn b) = 1 /\ potential (en_conn (handled (WcRecvImm imm) cq b)) = 1) as Hpot.
    { unfold potential. cbn. destruct (rd_pipe (en_conn b) ++ [imm_bytes imm]) eqn:E; [by destruct (rd_pipe (en_conn b))|]. lia. }
    assert (rd_writes (en_conn b) <= potential (en_conn b)) as Hpot'.
    { unfold potential. destruct (rd_pipe (en_conn b)); [|lia]. destruct (K4 eq_refl). lia. }
    constructor; cbn; auto; try lia.
    + by destruct (rd_pipe (en_conn b)).
    + intros l l' E. specialize (K5 l l' E). unfold handled in Hpot. cbn in Hpot. lia.
    + intros l l' E. specialize (K6 (imm :: l) l'). rewrite E in K6. specialize (K6 eq_refl). cbn [length] in K6.
      unfold handled in Hpot. cbn in Hpot. lia.
Qed.

(** A poll, in both directions. *)
Lemma poll_flow k a b :
  flow a b -> flow b a ->
  let a' := set_conn (poll_loop k (en_conn a)).2 a in flow a' b /\ flow b a'.
Proof.
  revert a. induction k as [|k IH]; intros a Hab Hba; [by destruct a|]. cbn [poll_loop].
  destruct (rd_cq (en_conn a)) as [|wc cq] eqn:Hcq; [by destruct a|].
  specialize (IH (handled wc cq a) (flow_handled_writer _ _ _ _ Hcq Hab) (flow_handled_reader _ _ _ _ Hcq Hba)).
  cbn in IH. destruct (poll_loop k _) as [m c]. done.
Qed.

Lemma flow_checkCQ k a b :
  flow a b -> flow b a -> let a' := set_conn (_checkCQ k (en_conn a)) a in flow a' b /\ flow b a'.
Proof.
  intros Hab Hba. pose proof (poll_flow k a b Hab Hba) as [H1 H2]. unfold _checkCQ. destruct (poll_loop k (en_conn a)) as [m c]. cbn in *.
  split; [eapply flow_frame; [|apply reader_refl|exact H1]|eapply flow_frame; [apply writer_refl| |exact H2]]; by constructor.
Qed.

(** *** The adapter *)

Lemma deliver_flow a b a' b' : deliver a b = Some (a', b') -> flow a b -> flow b a -> flow a' b' /\ flow b' a'.
Proof.
  unfold deliver. intros Hd Hab Hba. destruct (en_queue a) as [|wr queue] eqn:Hq; [done|].
  destruct (rd_posted (en_conn b) <=? 0); [done|]. destruct wr as [src len addr imm|m].
  - destruct (_ || _) eqn:Hbounds; [done|]. simplify_eq. split.
    2: { eapply flow_frame; [| |exact Hba]; constructor; cbn; rewrite ?Hq; wc_simpl; rewrite ?app_nil_r; try done;
         [intros ?; apply Forall_app; split; [done|]; by constructor|by intros [_ ?]%Forall_cons]. }
    destruct Hab as (p & F & K). exists (mkPositions (Ph p) (Pt p) (Pv p + len) (Pk p) (Pd p) (Pr p)).
    destruct F as [? ? ? H4 Hwr ? [Hb1 Hb2] Hbase Hmem Hsink Hseg Hc Hann ? [Hpos1 [Hpos2 [Hpos3 Hpos4]]] ? ? [Hns ?]]. rewrite Hq in *.
    cbn [segments] in Hseg. case_bool_decide as Hs; [|done]. destruct Hs as (-> & -> & Hlen & Hfit & Himm & Hfcs).
    assert (Pv p + len <= Ph p) as Hle.
    { clear -Hseg. revert Hseg. generalize (Pv p + len). induction queue as [|[] q IH]; intros P; cbn [segments]; [|case_bool_decide; [|done]|apply IH].
      - intros; simplify_eq; lia.
      - intros E%IH. lia. }
    set (data := take (Z.to_nat len) (drop (Z.to_nat (Pv p `mod` n)) (rd_sourcebuf (en_conn a)))).
    pose proof (Z.mod_pos_bound (Pv p) n Hn) as HPv.
    assert (Z.of_nat (length data) = len) as Hdl by (unfold data; rewrite length_take, length_drop; lia).
    replace (rd_sinkbase (en_conn b) + Pv p `mod` n - rd_sinkbase (en_conn b)) with (Pv p `mod` n) by lia.
    assert (forall i, Pd p <= i < Pv p + len ->
      write_at (Pv p `mod` n) data (rd_sinkbuf (en_conn b)) !! Z.to_nat (i `mod` n) = en_written a !! Z.to_nat i) as Hsink'.
    { intros i Hi. apply (write_block _ _ (fun i => en_written a !! Z.to_nat i) (Pd p)); try lia; [done|].
      intros j Hj. rewrite <- Hmem by lia. unfold data. rewrite lookup_take_lt by lia. rewrite lookup_drop. f_equal.
      assert (j `mod` n = Pv p `mod` n + (j - Pv p)) by (rewrite <- mod_linear by lia; f_equal; lia). lia. }
    split.
    + constructor; cbn; auto; try lia; wc_simpl; rewrite ?app_nil_r; try done.
      * split; [done|]. rewrite write_at_length; lia.
      * rewrite total_app, total_cons. unfold id in *. change (total _ []) with 0. lia.
      * rewrite total_app, total_cons. change (total _ []) with 0. lia.
      * wc_simpl_in Hpos2. split_and!; try done; [apply Forall_app; split; [done|apply Forall_singleton; lia]|].
        by rewrite <- app_assoc.
      * split; [|done]. apply Forall_app. split; [done|]. by constructor.
    + destruct K as [K1 K2 ? ? K5 K6]. rewrite Hq in *. wc_simpl_in K1. wc_simpl_in K2. wc_simpl_in K6.
      constructor; cbn; wc_simpl; rewrite ?app_nil_r, <- ?app_assoc; auto.
  - simplify_eq. split.
    + eapply flow_frame; [| |exact Hab]; constructor; cbn; rewrite ?Hq; wc_simpl; rewrite ?app_nil_r; try done.
      intros ?. apply Forall_app. split; [done|]. by constructor.
    + destruct Hba as (p & F & K). exists p. destruct F as [? ? ? ? ? ? ? ? ? ? ? Hc ? Hacked [Hpos1 [Hpos2 [Hpos3 Hpos4]]] ? ? [Hns1 Hns2]].
      rewrite Hq in *. apply Forall_cons in Hns2 as [Hm Hns2]. destruct m as [|by_ w]; [done|]. wc_simpl_in Hacked. wc_simpl_in Hpos3.
      split.
      * constructor; cbn; wc_simpl; rewrite ?app_nil_r, <- ?app_assoc; auto.
        split; [|done]. apply Forall_app. split; [done|]. by constructor.
      * destruct K as [K1 K2 K3 K4 K5 K6]. rewrite Hq in *. wc_simpl_in K1. wc_simpl_in K2. wc_simpl_in K5. wc_simpl_in K6.
        constructor; cbn; wc_simpl; rewrite ?app_nil_r, <- ?app_assoc; auto.
Qed.

(** *** Writing *)

Lemma fill_spec d p a b m c :
  flows p a b -> _fill d (en_conn a) = (m, c) ->
  let room := Z.min (n - (Ph p - Pt p)) (Z.min (n - (Ph p - Pr p)) (n - Ph p `mod` n)) in
  m = Z.min (Z.of_nat (length d)) room /\ 0 <= m /\
  exists r, ring_at r [Ph p + m; Ph p; Pt p] /\
    c = set_sourceptr r (set_sourcebuf (write_at (Ph p `mod` n) (take (Z.to_nat m) d) (rd_sourcebuf (en_conn a))) (en_conn a)).
Proof.
  intros F Hf room. unfold _fill, fill_bytes, fill_copy in Hf. pose proof (fl_source _ _ _ F) as H1. pose proof (fl_rptr _ _ _ F) as H2. pose proof (fl_order _ _ _ F) as H4.
  pose proof (fl_buffers _ _ _ F) as [Hb _].
  rewrite (ring_tail _ _ H1), (ring_tail _ _ H2) in Hf. cbn [length Nat.sub] in Hf.
  rewrite (ring_ptr _ _ HEAD (Ph p) H1 eq_refl) in Hf.
  rewrite (ring_negAvailable _ _ HEAD 2 (Ph p) (Pt p) H1 eq_refl eq_refl) in Hf by lia.
  rewrite (ring_negAvailable _ _ HEAD 1 (Ph p) (Pr p) H2 eq_refl eq_refl) in Hf by lia.
  pose proof (Z.mod_pos_bound (Ph p) n Hn) as HPh. pose proof Hn32 as Hn32'. rewrite pow32 in Hn32'.
  assert (u32 (Z.of_nat (length (rd_sourcebuf (en_conn a))) - Ph p `mod` n) = n - Ph p `mod` n) as Hu.
  { unfold u32. rewrite Z.mod_small; lia. }
  rewrite Hu in Hf. set (k := Z.min (Z.min (Z.of_nat (length d)) _) _) in Hf. assert (k = Z.min (Z.of_nat (length d)) room) as Hk by (unfold k, room; lia).
  injection Hf as <- <-. split; [done|]. split; [unfold k; lia|].
  exists (incr 32 (rd_sourceptr (en_conn a)) HEAD k). split; [|done].
  apply (ring_incr _ _ HEAD (Ph p)) with (amount := k) in H1; [done..|]. rewrite pow32. unfold k. lia.
Qed.

Lemma write_flow_idle p a b r buf :
  flows p a b -> credits a b -> ring_at r [Ph p + 0; Ph p; Pt p] -> buf = rd_sourcebuf (en_conn a) ->
  flow (set_conn (set_sourceptr r (set_sourcebuf buf (en_conn a))) a) b.
Proof.
  intros F K Hr ->. exists p. rewrite Z.add_0_r in Hr. split; [destruct F; constructor; cbn; auto|destruct K; constructor; cbn; auto].
Qed.

Lemma imm_unpack m f : 0 <= m < 268435456 -> imm_bytes (imm_pack m f) = m /\ imm_fcs (imm_pack m f) = f.
Proof.
  intros Hm. unfold imm_bytes, imm_fcs, imm_pack. split.
  - rewrite Z_mod_plus_full. by apply Z.mod_small.
  - rewrite Z.div_add by lia. rewrite Z.div_small by lia. lia.
Qed.

Lemma write_flow_post p a b r d m wr c :
  flows p a b -> credits a b -> rd_wcredits (en_conn a) <> 0 -> 0 < m <= MAX_BS -> m <= Z.of_nat (length d) ->
  m <= n - (Ph p - Pt p) -> m <= n - (Ph p - Pr p) -> Ph p `mod` n + m <= n ->
  ring_at r [Ph p + m; Ph p; Pt p] ->
  _postRDMAWrite (set_sourceptr r (set_sourcebuf (write_at (Ph p `mod` n) (take (Z.to_nat m) d) (rd_sourcebuf (en_conn a))) (en_conn a))) = (wr, c) ->
  flow (mkEnd c (en_queue a ++ [wr]) (en_written a ++ take (Z.to_nat m) d) (en_read a)) b.
Proof.
  intros F K Hwc Hm Hd Hs1 Hs2 Hfit Hr Hp. exists (mkPositions (Ph p + m) (Pt p) (Pv p) (Pk p) (Pd p) (Pr p)).
  unfold _postRDMAWrite, post_source, post_remote, _makeImm in Hp. cbn [rd_sourceptr set_sourceptr rd_fcs set_sourcebuf] in Hp.
  rewrite (ring_ptr _ _ MIDDLE (Ph p) Hr eq_refl) in Hp. pose proof (Z.mod_pos_bound (Ph p) n Hn) as HPh.
  rewrite (ring_available _ _ HEAD MIDDLE (Ph p + m) (Ph p) Hr eq_refl eq_refl) in Hp by lia.
  replace (Ph p + m - Ph p) with m in Hp by lia. cbn in Hp.
  rewrite (ring_ptr _ _ HEAD (Ph p) (fl_rptr _ _ _ F) eq_refl) in Hp.
  destruct F as [H1 H2 ? H4 Hwr ? [Hb1 Hb2] Hbase Hmem Hsink Hseg Hc Hann ? [Hpos1 [Hpos2 [Hpos3 Hpos4]]] ? ? ?].
  destruct K as [K1 K2 [K3a [K3b K3c]] K4 K5 K6].
  set (f := Z.min MAX_FC (u16 (rd_fcs (en_conn a)))) in *. injection Hp as <- <-.
  unfold MAX_BS in Hm. destruct (imm_unpack m f) as [Hi1 Hi2]; [lia|].
  assert (0 <= rd_fcs (en_conn a) <= C + 1) as Hfc.
  { specialize (K6 (imms_flying a b) []). rewrite app_nil_r in K6. specialize (K6 eq_refl). change (total imm_fcs []) with 0 in K6.
    unfold potential in K6. destruct (rd_pipe (en_conn b)); lia. }
  assert (u16 (rd_fcs (en_conn a)) = rd_fcs (en_conn a)) as Hu by (unfold u16; apply Z.mod_small; lia).
  assert (0 <= f <= rd_fcs (en_conn a) /\ (f = 0 -> rd_fcs (en_conn a) = 0)) as [Hf Hf0] by (unfold f, MAX_FC; lia).
  assert (length (take (Z.to_nat m) d) = Z.to_nat m) as Htl by (rewrite length_take; lia).
  pose proof Hn32 as Hn32'. rewrite pow32 in Hn32'. split.
  - constructor; cbn; auto; try lia; wc_simpl; rewrite ?app_nil_r; try done.
    + apply (ring_incr _ _ MIDDLE (Ph p)) with (amount := m) in Hr; [done..|]. rewrite pow32. lia.
    + apply (ring_incr _ _ HEAD (Ph p)) with (amount := m) in H2; [done..|]. rewrite pow32. lia.
    + rewrite length_app, Htl. lia.
    + rewrite take_app_le by lia. done.
    + rewrite write_at_length by lia. done.
    + intros i Hi. apply (write_block _ _ (fun i => (en_written a ++ take (Z.to_nat m) d) !! Z.to_nat i) (Pt p)); try lia.
      * intros j Hj. rewrite lookup_app_l by lia. apply Hmem. lia.
      * intros j Hj. rewrite lookup_app_r by lia. f_equal. lia.
    + intros i Hi. rewrite lookup_app_l by lia. apply Hsink. lia.
    + rewrite segments_app, Hseg. cbn. rewrite bool_decide_eq_true_2; [done|]. rewrite Hbase, Hi1, Hi2. unfold MAX_BS. lia.
    + split_and!; try done. rewrite app_assoc. apply Forall_app. split; [done|]. apply Forall_singleton. rewrite Hi1, Hi2. lia.
  - constructor; cbn; wc_simpl; rewrite ?app_nil_r, ?app_assoc, ?length_app, ?total_app, ?total_cons, ?Hi2; cbn [length]; auto;
      rewrite ?length_app, ?total_app in *; change (total imm_fcs []) with 0; try lia.
    + intros l l' E. destruct (decide (l' = [])) as [->|Hne].
      * rewrite app_nil_r in E. subst l. rewrite !length_app. cbn [length]. change (total imm_fcs []) with 0.
        destruct (decide (f = 0)) as [E0|].
        -- specialize (K5 [] (fcs_flying a b) eq_refl). rewrite length_app, total_app in K5. rewrite (Hf0 E0), E0. lia.
        -- specialize (K6 (imms_flying a b) []). rewrite app_nil_r in K6. specialize (K6 eq_refl).
           rewrite !length_app in K6. change (total imm_fcs []) with 0 in K6. lia.
      * destruct (exists_last Hne) as (l2 & x & ->). rewrite app_assoc in E. apply app_inj_tail in E as [E <-].
        specialize (K6 l l2 E). rewrite total_app, total_cons, Hi2. change (total imm_fcs []) with 0. lia.
Qed.

(** *** Reading *)

Lemma read_mapped_stream buf (stream : bytes) P k :
  Z.of_nat (length buf) = n -> 0 <= P -> 0 <= k -> P + k <= Z.of_nat (length stream) ->
  (forall i, P <= i < P + k -> buf !! Z.to_nat (i `mod` n) = stream !! Z.to_nat i) ->
  read_mapped buf (P `mod` n) k = take (Z.to_nat k) (drop (Z.to_nat P) stream).
Proof.
  intros Hb HP Hk Hl Hmem. apply list_eq. intros i. unfold read_mapped. rewrite list_lookup_fmap.
  destruct (decide (i < Z.to_nat k)%nat) as [Hi|Hi].
  - rewrite lookup_seq_lt by done. cbn [fmap option_fmap option_map Nat.add]. rewrite lookup_take_lt by done. rewrite lookup_drop.
    rewrite Hb, Zplus_mod_idemp_l. specialize (Hmem (P + Z.of_nat i) ltac:(lia)).
    replace (Z.to_nat P + i)%nat with (Z.to_nat (P + Z.of_nat i)) by lia. rewrite <- Hmem.
    destruct (buf !! Z.to_nat ((P + Z.of_nat i) `mod` n)) as [x|] eqn:E; [by rewrite (list_lookup_total_correct _ _ _ E)|].
    apply lookup_ge_None in E. pose proof (Z.mod_pos_bound (P + Z.of_nat i) n Hn). lia.
  - rewrite lookup_seq_ge by lia. cbn. rewrite lookup_ge_None_2; [done|]. rewrite length_take. lia.
Qed.

(** What a pass that reads leaves: [k] bytes taken, what is left announced, and a
    flow control message when it is due. *)
Definition after_read (k rest : Z) (r : Ring) (e : RDMAConnection) : RDMAConnection * list WorkRequest :=
  let e := set_sinkptr r (set_pipe (if rest =? 0 then [] else [rest]) e) in
  let e := set_readBytes (rd_readBytes e + k) e in
  if (rest =? 0) || (rd_writes e >=? FC_MESSAGE_FREQUENCY) then
    (set_fcredits (rd_fcredits e - 1) (set_readBytes 0 (set_writes 0 e)), [WrSend (MFC (rd_readBytes e) (rd_writes e))])
  else (e, []).

Lemma read_flow p a b r k rest c wrs :
  flows p a b -> credits a b -> rd_pipe (en_conn b) <> [] -> 0 < k -> 0 <= rest -> k + rest = Pk p - Pd p ->
  ring_at r [Pk p; Pd p + k] -> after_read k rest r (en_conn b) = (c, wrs) ->
  flow a (mkEnd c (en_queue b ++ wrs) (en_written b) (en_read b ++ take (Z.to_nat k) (drop (Z.to_nat (Pd p)) (en_written a)))).
Proof.
  intros F K Hpipe Hk Hrest Hsum Hr Ha. exists (mkPositions (Ph p) (Pt p) (Pv p) (Pk p) (Pd p + k) (Pr p)).
  destruct F as [? ? ? H4 Hwr Hread Hbuf Hbase Hmem Hsink Hseg Hc Hann Hack [Hpos1 [Hpos2 [Hpos3 Hpos4]]] [Hp1 Hp2] ? [Hns1 Hns2]].
  destruct K as [K1 K2 [K3a [K3b K3c]] K4 K5 K6].
  assert (en_read b ++ take (Z.to_nat k) (drop (Z.to_nat (Pd p)) (en_written a)) = take (Z.to_nat (Pd p + k)) (en_written a)) as Hread'.
  { rewrite Hread, take_take_drop. f_equal. lia. }
  assert (total id (if rest =? 0 then [] else [rest]) = rest /\ Forall (fun x => 0 < x) (if rest =? 0 then [] else [rest])) as [Hrest1 Hrest2].
  { destruct (Z.eqb_spec rest 0) as [->|]; [by split|]. rewrite total_cons. unfold id. change (total _ []) with 0.
    split; [lia|]. apply Forall_singleton. lia. }
  assert (potential (en_conn b) = Z.max 1 (rd_writes (en_conn b))) as Hpot by (unfold potential; by destruct (rd_pipe (en_conn b))).
  unfold after_read in Ha. cbn in Ha. rewrite Z.geb_leb in Ha. unfold FC_MESSAGE_FREQUENCY in Ha.
  destruct ((rest =? 0) || (12 <=? rd_writes (en_conn b))) eqn:Hfc; injection Ha as <- <-.
  - assert (rest = 0 \/ 12 <= rd_writes (en_conn b)) as Hfc' by lia. split.
    + constructor; cbn; auto; try lia; wc_simpl; rewrite ?app_nil_r; try done.
      * intros i Hi. apply Hsink. lia.
      * rewrite app_assoc, total_app, total_cons. cbn. change (total fst []) with 0. lia.
      * split_and!; try done. rewrite app_assoc. apply Forall_app. split; [done|]. apply Forall_singleton. cbn. lia.
      * split; [lia|done].
      * split; [done|]. apply Forall_app. split; [done|]. by apply Forall_singleton.
    + constructor; cbn; wc_simpl; rewrite ?app_assoc; auto; try lia.
      * rewrite (total_app _ (_ ++ _)), total_cons. cbn. change (total snd []) with 0. lia.
      * rewrite (length_app (_ ++ _)). cbn [length]. lia.
      * intros l l' E. unfold potential. cbn. destruct (decide (l' = [])) as [->|Hne].
        { change (total snd []) with 0. cbn [length]. destruct (rest =? 0); lia. }
        destruct (exists_last Hne) as (l2 & x & ->). rewrite app_assoc in E. apply app_inj_tail in E as [E <-].
        specialize (K5 l l2 E). rewrite length_app, total_app, total_cons. cbn [length snd]. change (total snd []) with 0.
        destruct (Z.eqb_spec rest 0); lia.
      * intros l l' E. specialize (K6 l l' E). rewrite (length_app (_ ++ _)). unfold potential at 1. cbn -[Z.max Z.of_nat].
        destruct (Z.eqb_spec rest 0); rewrite ?Hpot in K6; lia.
  - assert (rest <> 0 /\ rd_writes (en_conn b) < 12) as [Hr0 Hw] by lia.
    assert (potential (set_readBytes (rd_readBytes (en_conn b) + k) (set_sinkptr r (set_pipe (if rest =? 0 then [] else [rest]) (en_conn b))))
      = potential (en_conn b)) as Hpot'.
    { unfold potential at 1. cbn. destruct (Z.eqb_spec rest 0); [done|]. by rewrite Hpot. }
    split.
    + constructor; cbn; rewrite ?app_nil_r; auto; try lia.
      * intros i Hi. apply Hsink. lia.
      * split_and!; try done. lia.
      * split; [lia|done].
    + constructor; cbn; rewrite ?app_nil_r; auto; try lia.
      * destruct (Z.eqb_spec rest 0); [done|]. intros; discriminate.
      * intros l l' E. rewrite Hpot'. by apply K5 with l.
      * intros l l' E. rewrite Hpot'. by apply K6.
Qed.

Lemma handle_pipe wc e : exists l, rd_pipe (handle_completion wc e) = rd_pipe e ++ l.
Proof. destruct wc as [| | |[]]; cbn; try (exists []; by rewrite app_nil_r). by eexists. Qed.

Lemma poll_pipe k e : exists l, rd_pipe (_checkCQ k e) = rd_pipe e ++ l.
Proof.
  unfold _checkCQ. cut (exists l, rd_pipe (poll_loop k e).2 = rd_pipe e ++ l).
  { intros [l Hl]. destruct (poll_loop k e) as [m c]. by exists l. }
  revert e. induction k as [|k IH]; intros e; cbn [poll_loop]; [exists []; by rewrite app_nil_r|].
  destruct (rd_cq e) as [|wc cq]; [exists []; by rewrite app_nil_r|].
  destruct (IH (handle_completion wc (set_cq cq e))) as [l Hl]. destruct (handle_pipe wc (set_cq cq e)) as [l' Hl'].
  destruct (poll_loop k _) as [m c]. cbn in *. exists (l' ++ l). by rewrite Hl, Hl', app_assoc.
Qed.

(** Draining, in the terms of the stream. *)
Lemma rdma_drain_spec p a b bytes_ e data c :
  flows p a b -> 0 < bytes_ -> rd_sinkptr e = rd_sinkptr (en_conn b) -> rd_sinkbuf e = rd_sinkbuf (en_conn b) -> Pd p < Pk p ->
  _drain bytes_ e = (data, c) ->
  let k := Z.min bytes_ (Pk p - Pd p) in
  data = take (Z.to_nat k) (drop (Z.to_nat (Pd p)) (en_written a)) /\ Z.of_nat (length data) = k /\
  exists r, ring_at r [Pk p; Pd p + k] /\ c = set_sinkptr r e.
Proof.
  intros F Hb Es Eb Hlt Hd k. unfold _drain, drain_bytes, drain_copy in Hd. pose proof (fl_sink _ _ _ F) as H3. pose proof (fl_order _ _ _ F) as H4.
  pose proof (fl_buffers _ _ _ F) as [_ Hbuf]. pose proof (fl_written _ _ _ F) as Hw. rewrite Es, Eb in Hd.
  rewrite (ring_tail _ _ H3) in Hd. cbn [length Nat.sub] in Hd. rewrite (ring_ptr _ _ 1 (Pd p) H3 eq_refl) in Hd.
  rewrite (ring_available _ _ HEAD 1 (Pk p) (Pd p) H3 eq_refl eq_refl) in Hd by lia. fold k in Hd.
  rewrite (read_mapped_stream _ (en_written a)) in Hd; [|lia|lia|lia|lia|intros i Hi; apply (fl_sinkmem _ _ _ F); lia].
  injection Hd as <- <-. split; [done|]. split; [rewrite length_take, length_drop; lia|].
  exists (incr 32 (rd_sinkptr (en_conn b)) 1 k). split; [|done].
  pose proof Hn32 as Hn32'. rewrite pow32 in Hn32'.
  apply (ring_incr _ _ 1 (Pd p)) with (amount := k) in H3; [done..|]. rewrite pow32. lia.
Qed.

Lemma pipe_sum l : total id l = foldr Z.add 0 l.
Proof. induction l as [|x l IH]; [done|]. rewrite total_cons, IH. done. Qed.

Lemma read_pass_flow a b timedOut block extra count nb r extra' data c wrs :
  flow a b -> flow b a -> 0 < u32 nb -> read_pass timedOut block extra count nb (en_conn b) = (r, extra', data, c, wrs) -> r <> PFailed ->
  let b' := mkEnd c (en_queue b ++ wrs) (en_written b) (en_read b ++ data) in flow a b' /\ flow b' a.
Proof.
  intros Hab Hba Hnb Hp Hr. unfold read_pass in Hp. destruct (flow_checkCQ count b a Hba Hab) as [Hba1 Hab1].
  destruct (poll_pipe count (en_conn b)) as [l Hl]. set (e := _checkCQ count (en_conn b)) in *.
  assert (flow a (mkEnd e (en_queue b ++ []) (en_written b) (en_read b ++ [])) /\ flow (mkEnd e (en_queue b ++ []) (en_written b) (en_read b ++ [])) a)
    as Hsame by (by rewrite !app_nil_r).
  destruct Hba1 as (p' & F' & K'). assert (rd_established e = true) as He by exact (fl_established _ _ _ F'). rewrite He in Hp. cbn [andb] in Hp.
  destruct (_needFC e && _); [by simplify_eq|].
  destruct (rd_pipe (en_conn b)) as [|x pipe] eqn:Hpipe; cbn [negb andb] in Hp; [by destruct (extra && negb block); simplify_eq|].
  unfold _getAvailableBytes in Hp. destruct Hab1 as (p & F & K).
  pose proof (fl_pipe _ _ _ F) as [Hsum Hpos]. pose proof (fl_order _ _ _ F) as H4. cbn [en_conn set_conn] in Hsum, Hpos. rewrite pipe_sum in Hsum.
  rewrite Hl in *. cbn [app] in Hpos. pose proof Hn32 as Hn32'. rewrite pow32 in Hn32'.
  assert (0 < Pk p - Pd p) as Hlt.
  { apply Forall_cons in Hpos as [? Hpos]. assert (0 <= total id (pipe ++ l)) by (eapply total_impl; [|exact Hpos]; unfold id; lia).
    rewrite pipe_sum in *. cbn in Hsum. lia. }
  rewrite Hsum in Hp. assert (u64 (Pk p - Pd p) = Pk p - Pd p) as Hu by (unfold u64; apply Z.mod_small; lia). rewrite Hu in Hp.
  destruct (Z.eqb_spec (Pk p - Pd p) 0); [lia|]. destruct (_drain (u32 nb) (set_pipe [] e)) as [d c1] eqn:Hd.
  eapply (rdma_drain_spec p a (set_conn e b)) in Hd as (-> & Hlen & rg & Hrg & ->); [|done..|lia]. cbn zeta in *.
  set (k := Z.min (u32 nb) (Pk p - Pd p)) in *. rewrite Hlen in Hp. destruct (Z.eqb_spec k 0); [lia|].
  destruct (after_read k (Pk p - Pd p - k) rg e) as [c2 wrs2] eqn:Har.
  assert (r = PReturned k /\ data = take (Z.to_nat k) (drop (Z.to_nat (Pd p)) (en_written a)) /\ c = c2 /\ wrs = wrs2) as (-> & -> & -> & ->).
  { assert (0 <= rd_readBytes e <= Pd p - Pr p) as Hrb.
    { pose proof (fl_acked _ _ _ F) as Ha. destruct (fl_positive _ _ _ F) as (_ & _ & Hp3 & Hp4). cbn [en_conn set_conn en_queue] in *.
      assert (0 <= total fst (wc_fcs (rd_cq (en_conn a)) ++ wr_fcs (en_queue b))) by (eapply total_impl; [|exact Hp3]; by intros ? []). lia. }
    assert (0 <= rd_writes e < 65536) as Hw.
    { pose proof (cr_writes _ _ K) as Kw. destruct (cr_nonneg _ _ K) as (? & ? & _). destruct (fl_positive _ _ _ F) as (_ & _ & Hp3 & _).
      cbn [en_conn set_conn en_queue] in *.
      assert (0 <= total snd (wc_fcs (rd_cq (en_conn a)) ++ wr_fcs (en_queue b))) by (eapply total_impl; [|exact Hp3]; by intros ? []). lia. }
    assert (u32 (rd_writes e) = rd_writes e) as Huw by (unfold u32; apply Z.mod_small; lia).
    assert (u64 (rd_readBytes e + k) = rd_readBytes e + k) as Hur by (unfold u64; apply Z.mod_small; lia).
    assert (u32 (rd_readBytes e + k) = rd_readBytes e + k) as Hur' by (unfold u32; apply Z.mod_small; lia).
    unfold after_read in Har. destruct (Z.gtb_spec (Pk p - Pd p) k), (Z.eqb_spec (Pk p - Pd p - k) 0); try lia;
      unfold _needFC, _postFC, take_fc, _postMessage in Hp; cbn in Hp, Har; rewrite ?He, ?Huw, ?Hur in Hp; cbn [andb negb orb] in Hp, Har;
      [destruct (rd_writes e >=? FC_MESSAGE_FREQUENCY)|]; cbn in Hp; rewrite ?Hur', ?Huw, ?Z.sub_diag in Hp; by simplify_eq. }
  split.
  - apply (read_flow p a (set_conn e b) rg k (Pk p - Pd p - k)); try done; try lia. cbn. by rewrite Hl.
  - eapply flow_frame; [|apply reader_refl|exists p'; split; [exact F'|exact K']].
    unfold after_read in Har. cbn in Har. destruct (_ || _); injection Har as <- <-;
      constructor; cbn; wc_simpl; rewrite ?app_nil_r; try done; intros; rewrite segments_app; cbn; by destruct (segments _ _ _ _).
Qed.

(** A pass of [write], in both directions. *)
Lemma write_pass_flow a b timedOut count data r c wrs :
  flow a b -> flow b a -> write_pass timedOut count data (en_conn a) = (r, c, wrs) -> r <> PFailed ->
  let a' := mkEnd c (en_queue a ++ wrs) (en_written a ++ (if r is PReturned m then take (Z.to_nat m) data else [])) (en_read a) in
  flow a' b /\ flow b a'.
Proof.
  intros Hab Hba Hp Hr. unfold write_pass in Hp. destruct (flow_checkCQ count a b Hab Hba) as [Hab1 Hba1].
  destruct Hab as (p0 & F0 & _). rewrite (fl_established _ _ _ F0) in Hp. cbn [negb] in Hp. clear p0 F0 Hba.
  set (e := _checkCQ count (en_conn a)) in *.
  destruct (Z.eqb_spec (rd_wcredits e) 0) as [|Hwc].
  { destruct timedOut; simplify_eq. cbn. rewrite !app_nil_r. done. }
  set (d := take (Z.to_nat (Z.min (Z.of_nat (length data)) MAX_BS)) data) in *.
  assert (Z.of_nat (length d) = Z.min (Z.of_nat (length data)) MAX_BS) as Hdl.
  { unfold d. rewrite length_take. unfold MAX_BS. lia. }
  destruct (_fill d e) as [m c1] eqn:Hfill. destruct Hab1 as (p & F & K).
  destruct (fill_spec d p (set_conn e a) b m c1 F Hfill) as (Hm & Hm0 & rg & Hrg & ->). cbn zeta in Hm. cbn [en_conn set_conn] in *.
  destruct (Z.eqb_spec m 0) as [->|].
  - destruct timedOut; simplify_eq. rewrite !app_nil_r. split.
    + apply (write_flow_idle p (set_conn e a) b rg); try done. cbn [en_conn set_conn]. unfold write_at. change (Z.to_nat 0) with 0%nat.
      rewrite take_0. cbn [length app]. by rewrite Nat.add_0_r, take_drop.
    + eapply flow_frame; [apply writer_refl| |exact Hba1]. by constructor.
  - destruct (_postRDMAWrite _) as [wr c2] eqn:Hpost. injection Hp as <- <- <-. unfold MAX_BS in *.
    assert (take (Z.to_nat m) data = take (Z.to_nat m) d) as Htk by (unfold d; rewrite take_take; f_equal; lia).
    split.
    + rewrite Htk. apply (write_flow_post p (set_conn e a) b rg d m); try done; unfold MAX_BS; try lia.
    + eapply flow_frame; [apply writer_refl| |exact Hba1]. unfold _postRDMAWrite, post_source, post_remote, _makeImm in Hpost. cbn in Hpost. injection Hpost as <- <-.
      constructor; cbn; wc_simpl; rewrite ?app_nil_r; try done. intros ?. apply Forall_app. split; [done|]. by apply Forall_singleton.
Qed.

(** *** Receives *)

Definition receives_ok (depth : Z) (x : End) : Prop :=
  rd_posted (en_conn x) + total (fun wc => if is_recv wc then 1 else 0) (rd_cq (en_conn x)) = depth.

Lemma checkCQ_receives depth k x : receives_ok depth x -> receives_ok depth (set_conn (_checkCQ k (en_conn x)) x).
Proof.
  unfold receives_ok, _checkCQ. intros H. cbn.
  assert (forall e, let '(m, c) := poll_loop k e in rd_posted c = rd_posted e /\
    m + total (fun wc => if is_recv wc then 1 else 0) (rd_cq c) = total (fun wc => if is_recv wc then 1 else 0) (rd_cq e)) as Hl.
  { clear. induction k as [|k IH]; intros e; cbn [poll_loop]; [lia|]. destruct (rd_cq e) as [|wc cq] eqn:Hcq; [by rewrite Hcq|].
    assert (rd_posted (handle_completion wc (set_cq cq e)) = rd_posted e /\ rd_cq (handle_completion wc (set_cq cq e)) = cq) as [E1 E2]
      by (by destruct wc as [| | |[]]).
    specialize (IH (handle_completion wc (set_cq cq e))). destruct (poll_loop k _) as [m c]. rewrite E1, E2 in IH. rewrite total_cons. lia. }
  specialize (Hl (en_conn x)). destruct (poll_loop k (en_conn x)) as [m c]. cbn. lia.
Qed.

Lemma fields_receives depth x x' :
  rd_posted (en_conn x') = rd_posted (en_conn x) -> rd_cq (en_conn x') = rd_cq (en_conn x) -> receives_ok depth x -> receives_ok depth x'.
Proof. unfold receives_ok. by intros -> ->. Qed.

Lemma write_pass_receives depth a timedOut count data r c wrs q w :
  receives_ok depth a -> write_pass timedOut count data (en_conn a) = (r, c, wrs) -> receives_ok depth (mkEnd c q w (en_read a)).
Proof.
  intros Ha Hp. pose proof (checkCQ_receives depth count a Ha) as Hc. unfold write_pass in Hp.
  destruct (negb (rd_established (en_conn a))); [simplify_eq; by eapply fields_receives; [| |exact Ha]|].
  unfold _fill, fill_bytes, fill_copy, _postRDMAWrite, post_source, post_remote, _makeImm in Hp. repeat case_match; simplify_eq; (eapply fields_receives; [| |exact Hc]); done.
Qed.

Lemma read_pass_receives depth a timedOut block extra count nb r extra' data c wrs q w rd :
  receives_ok depth a -> read_pass timedOut block extra count nb (en_conn a) = (r, extra', data, c, wrs) -> receives_ok depth (mkEnd c q w rd).
Proof.
  intros Ha Hp. pose proof (checkCQ_receives depth count a Ha) as Hc. unfold read_pass in Hp.
  unfold _drain, drain_bytes, drain_copy, _getAvailableBytes, _postFC, take_fc, _postMessage in Hp. repeat case_match; simplify_eq; (eapply fields_receives; [| |exact Hc]); done.
Qed.

(** *** The system *)

Definition linked (depth : Z) (s : End * End) : Prop :=
  flow s.1 s.2 /\ flow s.2 s.1 /\ receives_ok depth s.1 /\ receives_ok depth s.2.

Lemma deliver_receives depth a b a' b' :
  deliver a b = Some (a', b') -> receives_ok depth a -> receives_ok depth b -> receives_ok depth a' /\ receives_ok depth b'.
Proof.
  unfold deliver, receives_ok. intros Hd Ha Hb. repeat case_match; simplify_eq; cbn; rewrite !total_app, !total_cons; cbn;
    change (total _ []) with 0; lia.
Qed.

Lemma end_step_linked depth s s' : end_step s s' -> linked depth s -> linked depth s'.
Proof.
  intros Hs (Hab & Hba & Ra & Rb). destruct Hs as [a b ? ? ? ? ? ? Hp Hr|a b timedOut block extra count n0 r extra' data c wrs Hn0 Hp Hr|a b a' b' Hd]; cbn in *.
  - destruct (write_pass_flow _ _ _ _ _ _ _ _ Hab Hba Hp Hr). split_and!; try done. by eapply write_pass_receives.
  - destruct (read_pass_flow _ _ _ _ _ _ _ _ _ _ _ _ Hba Hab Hn0 Hp Hr). split_and!; try done. by apply (read_pass_receives depth a timedOut block extra count n0 r extra' data c wrs).
  - destruct (deliver_flow _ _ _ _ Hd Hab Hba). destruct (deliver_receives _ _ _ _ _ Hd Ra Rb). by split_and!.
Qed.

Lemma rdma_step_linked depth s s' : rdma_step s s' -> linked depth s -> linked depth s'.
Proof.
  intros [? ? Hs|a b a' b' Hs] Hl; [by eapply end_step_linked|].
  destruct Hl as (? & ? & ? & ?). apply (end_step_linked depth) in Hs as (? & ? & ? & ?); by split_and!.
Qed.

Lemma flow_writes a b :
  flow a b ->
  Z.of_nat (length (wc_imms (rd_cq (en_conn b)) ++ wr_imms (en_queue a))) <= C /\
  Z.of_nat (length (wc_fcs (rd_cq (en_conn a)) ++ wr_fcs (en_queue b))) <= C + 1 /\ 2 <= rd_fcredits (en_conn b).
Proof.
  intros (p & F & K). destruct (fl_positive _ _ _ F) as (_ & Hp2 & Hp3 & _). destruct (cr_nonneg _ _ K) as (? & ? & ?).
  assert (0 <= total snd (fcs_flying a b)) by (eapply total_impl; [|exact Hp3]; by intros ? []).
  assert (0 <= total imm_fcs (imms_flying a b)) by (eapply total_impl; [|exact Hp2]; by intros ? []).
  pose proof (cr_writes _ _ K). pose proof (cr_fcs _ _ K). pose proof (cr_enough _ _ K [] _ eq_refl) as Ke.
  assert (0 <= potential (en_conn b)) by (unfold potential; case_match; lia). cbn [length] in Ke. lia.
Qed.

Lemma queue_length a b : flow b a -> length (en_queue a) = (length (wr_imms (en_queue a)) + length (wr_fcs (en_queue a)))%nat.
Proof.
  intros (p & F & _). destruct (fl_nosetup _ _ _ F) as [_ Hns]. induction Hns as [|wr q Hw Hns IH]; [done|].
  destruct wr as [|[]]; try done; wc_simpl; cbn [length]; lia.
Qed.

Lemma cq_recvs a b : flow b a ->
  total (fun wc => if is_recv wc then 1 else 0) (rd_cq (en_conn b)) =
  Z.of_nat (length (wc_imms (rd_cq (en_conn b))) + length (wc_fcs (rd_cq (en_conn b)))).
Proof.
  intros (p & F & _). destruct (fl_nosetup _ _ _ F) as [Hns _]. induction Hns as [|wc q Hw Hns IH]; [done|].
  rewrite total_cons. destruct wc as [| | |[]]; try done; wc_simpl; cbn [length is_recv]; rewrite IH; lia.
Qed.

(** There always is a receive for what is on its way, and its address is valid. *)
Lemma deliver_total depth a b :
  2 * C + 4 <= depth -> linked depth (a, b) -> en_queue a <> [] -> is_Some (deliver a b).
Proof.
  intros Hd (Hab & Hba & _ & Rb) Hq. cbn in *. unfold receives_ok in Rb.
  destruct (flow_writes _ _ Hab) as (H1 & _). destruct (flow_writes _ _ Hba) as (_ & H2 & _).
  pose proof (queue_length _ _ Hba) as Hlen. pose proof (cq_recvs _ _ Hba) as Hrecv. rewrite !length_app in H1, H2.
  unfold deliver. destruct (en_queue a) as [|wr q] eqn:Eq; [done|]. cbn [length] in Hlen.
  destruct (Z.leb_spec (rd_posted (en_conn b)) 0); [lia|]. destruct wr as [src len addr imm|m]; [|by eauto].
  destruct Hab as (p & F & _). pose proof (fl_segments _ _ _ F) as Hs. rewrite Eq in Hs. cbn in Hs. case_bool_decide as Hb; [|done].
  destruct Hb as (_ & -> & Hl & Hfit & _). destruct (fl_buffers _ _ _ F) as [_ Hbuf]. pose proof (Z.mod_pos_bound (Pv p) n Hn).
  destruct (_ || _) eqn:E; [lia|]. by eauto.
Qed.

(** *** Progress *)

Lemma read_pass_returns a b timedOut block extra count nb :
  flow a b -> flow b a -> 0 < u32 nb -> rd_pipe (en_conn b) <> [] ->
  exists k data c wrs, read_pass timedOut block extra count nb (en_conn b) = (PReturned k, extra, data, c, wrs) /\
    0 < k /\ Z.of_nat (length data) = k.
Proof.
  intros Hab Hba Hnb Hne. destruct (flow_checkCQ count b a Hba Hab) as [Hba1 Hab1]. destruct (poll_pipe count (en_conn b)) as [l Hl].
  destruct (flow_writes _ _ Hab1) as (_ & _ & Hfc). destruct Hba1 as (p' & F' & K'). cbn [en_conn set_conn] in Hfc.
  pose proof (fl_established _ _ _ F') as He. cbn [en_conn set_conn] in He. destruct Hab1 as (p & F & K).
  unfold read_pass. set (e := _checkCQ count (en_conn b)) in *. rewrite He. destruct (Z.eqb_spec (rd_fcredits e) 0); [lia|]. rewrite andb_false_r.
  destruct (rd_pipe (en_conn b)) as [|x pipe] eqn:Hpipe; [done|]. cbn [negb andb]. unfold _getAvailableBytes.
  pose proof (fl_pipe _ _ _ F) as [Hsum Hpos]. pose proof (fl_order _ _ _ F) as H4. cbn [en_conn set_conn] in Hsum, Hpos.
  rewrite Hl in Hpos, Hsum. cbn [app] in Hpos, Hsum. apply Forall_cons in Hpos as [Hx Hpos]. rewrite total_cons in Hsum.
  assert (0 <= total id (pipe ++ l)) by (eapply total_impl; [|exact Hpos]; unfold id; lia). unfold id in Hsum at 1.
  pose proof Hn32 as Hn32'. rewrite pow32 in Hn32'. rewrite Hl, <- pipe_sum. cbn [app]. rewrite total_cons.
  assert (u64 (id x + total id (pipe ++ l)) = Pk p - Pd p) as -> by (unfold u64, id at 1; rewrite Z.mod_small; lia).
  destruct (Z.eqb_spec (Pk p - Pd p) 0); [lia|]. destruct (_drain (u32 nb) (set_pipe [] e)) as [d c1] eqn:Hd.
  eapply (rdma_drain_spec p a (set_conn e b)) in Hd as (_ & Hlen & rg & Hrg & ->); [|done..|lia]. rewrite Hlen.
  destruct (Z.eqb_spec (Z.min (u32 nb) (Pk p - Pd p)) 0); [lia|].
  case_match; repeat case_match; repeat eexists; try exact Hlen; lia.
Qed.

(** With nothing on its way and nothing left to read. *)
Definition quiet (a b : End) : Prop :=
  en_queue a = [] /\ en_queue b = [] /\ rd_cq (en_conn a) = [] /\ rd_cq (en_conn b) = [] /\ rd_pipe (en_conn b) = [].

Lemma quiet_positions p a b :
  flows p a b -> credits a b -> quiet a b ->
  Pt p = Ph p /\ Pr p = Ph p /\ Pd p = Ph p /\ rd_wcredits (en_conn a) = C.
Proof.
  intros F K (Qa & Qb & Ca & Cb & Hp). destruct (cr_idle _ _ K Hp) as [Hw Hr]. pose proof (cr_writes _ _ K) as Kw.
  pose proof (fl_segments _ _ _ F) as Hs. pose proof (fl_completed _ _ _ F) as H1. pose proof (fl_announced _ _ _ F) as H2.
  pose proof (fl_acked _ _ _ F) as H3. pose proof (fl_pipe _ _ _ F) as [H4 _].
  rewrite ?Qa, ?Qb, ?Ca, ?Cb, ?Hp in *. cbn in *. unfold wc_lens, wc_imms, wc_fcs, wr_imms, wr_fcs in *. cbn in *.
  injection Hs as Hs. unfold total in *. cbn in *. lia.
Qed.

Lemma write_pass_returns a b timedOut count data :
  flow a b -> quiet a b -> 0 < C -> data <> [] ->
  exists m c wrs, write_pass timedOut count data (en_conn a) = (PReturned m, c, wrs) /\ 0 < m.
Proof.
  intros (p & F & K) Hq HC0 Hd. destruct (quiet_positions p a b F K Hq) as (H1 & H2 & H3 & H4). destruct Hq as (_ & _ & Hcq & _).
  assert (_checkCQ count (en_conn a) = _postReceives 0 (en_conn a)) as Hck by (unfold _checkCQ; destruct count; cbn; by rewrite ?Hcq).
  unfold write_pass. rewrite (fl_established _ _ _ F), Hck. cbn [negb]. set (e := _postReceives 0 (en_conn a)).
  assert (flows p (set_conn e a) b) as F1 by (destruct F; by constructor).
  destruct (Z.eqb_spec (rd_wcredits e) 0) as [Hw|_]; [cbn in Hw; lia|].
  destruct (_fill _ e) as [m c] eqn:Hf. apply (fill_spec _ p (set_conn e a) b) in Hf as (Hm & _); [|done]. cbn zeta in Hm.
  pose proof (Z.mod_pos_bound (Ph p) n Hn). assert (0 < Z.of_nat (length data)) by (destruct data; [done|cbn; lia]).
  rewrite length_take in Hm. unfold MAX_BS in *. assert (0 < m) by lia. destruct (Z.eqb_spec m 0); [lia|].
  destruct (_postRDMAWrite c) as [wr c2]. by repeat eexists.
Qed.

End proofs.

(** ** The connected system *)

Lemma ring_at_start k size r : 0 < size -> 2 * size <= 2 ^ 32 -> length (ptrs r) = k -> ring_at size (clear r (u32 size)) (replicate k 0).
Proof.
  intros Hs Hs32 <-. rewrite pow32 in Hs32. unfold ring_at, clear. cbn. split; [unfold u32; apply Z.mod_small; lia|].
  induction (ptrs r); cbn; constructor; [by apply tracks_init|done].
Qed.

(** Both ends after the setup messages: empty positions, full credits. *)
Record started (depth size : Z) (a b : RDMAConnection) : Prop := {
  st_rings : rd_sourceptr a = clear (Ring_init 3 0) (u32 size) /\ rd_rptr a = clear (Ring_init 2 0) (u32 size) /\
             rd_sinkptr b = clear (Ring_init 2 0) (u32 size);
  st_buffers : Z.of_nat (length (rd_sourcebuf a)) = size /\ Z.of_nat (length (rd_sinkbuf b)) = size;
  st_base : rd_rbase a = rd_sinkbase b;
  st_credits : rd_wcredits a = depth `quot` 2 - 2 /\ rd_fcredits b = depth `quot` 2 + 1;
  st_zero : rd_writes b = 0 /\ rd_readBytes b = 0 /\ rd_fcs a = 0 /\ rd_pipe b = [] /\ rd_cq a = [] /\ rd_cq b = [];
  st_established : rd_established a = true
}.

Lemma start_started depth size sa sb ka kb a b :
  0 < size -> RDMAConnection_start depth size sa ka = Some a -> RDMAConnection_start depth size sb kb = Some b ->
  started depth size (exchange_setup a b).1 (exchange_setup a b).2.
Proof.
  intros Hs Ha Hb. unfold RDMAConnection_start, _initProtocol, _initBuffers in Ha, Hb.
  destruct (depth <? 2); [done|]. cbn [mbind option_bind] in Ha, Hb. destruct (size =? 0); [done|].
  cbn [mbind option_bind] in Ha, Hb. injection Ha as <-. injection Hb as <-. cbn -[u32 clear].
  assert (Z.of_nat (length (replicate (Z.to_nat size) 0)) = size) as Hlen by (rewrite length_replicate; lia).
  constructor; cbn -[u32 clear]; rewrite ?Hlen; try done. split; [done|lia].
Qed.

Lemma started_flow depth size a b :
  4 <= depth -> 0 < size -> 2 * size <= 2 ^ 32 -> started depth size a b ->
  flow size (depth `quot` 2 - 2) (mkEnd a [] [] []) (mkEnd b [] [] []).
Proof.
  intros Hd Hs Hs32 [(R1 & R2 & R3) (B1 & B2) Hbase [C1 C2] (Z1 & Z2 & Z3 & Z4 & Z5 & Z6) He].
  exists (mkPositions 0 0 0 0 0 0). split.
  - constructor; cbn -[u32 clear ring_at]; rewrite ?R1, ?R2, ?R3, ?Z2, ?Z4, ?Z5, ?Z6; try done; try lia; try (by split_and!; constructor).
    + exact (ring_at_start 3 size (Ring_init 3 0) Hs Hs32 eq_refl).
    + exact (ring_at_start 2 size (Ring_init 2 0) Hs Hs32 eq_refl).
    + exact (ring_at_start 2 size (Ring_init 2 0) Hs Hs32 eq_refl).
  - assert (2 <= depth `quot` 2) by (apply Z.quot_le_lower_bound; lia).
    constructor; cbn [en_conn en_queue]; rewrite ?Z1, ?Z2, ?Z3, ?Z4, ?Z5, ?Z6, ?C1, ?C2; unfold potential; rewrite ?Z4; try done; try lia;
      change (wc_fcs []) with (@nil (Z * Z)); change (wc_imms []) with (@nil Z); change (wr_imms []) with (@nil Z);
      change (wr_fcs []) with (@nil (Z * Z)); try (unfold total; cbn; lia).
    all: intros l l' El; symmetry in El; apply app_eq_nil in El as [-> ->]; unfold total; cbn; lia.
Qed.

Section system.

Context (depth size base1 key1 base2 key2 : Z) (s0 : End * End).
Context (Hdepth : 4 <= depth <= 65535) (Hsize : 0 < size) (Hsize32 : 2 * size <= 2 ^ 32).
Context (Hstart : rdma_start depth size base1 key1 base2 key2 = Some s0).

Abbreviation credit := (depth `quot` 2 - 2).

Lemma credit_bounds : 0 <= credit < 65535 /\ 2 * credit + 4 <= depth.
Proof. rewrite Z.quot_div_nonneg by lia. pose proof (Z.div_mod depth 2). pose proof (Z.mod_pos_bound depth 2). lia. Qed.

Lemma start_linked : linked size credit depth s0.
Proof.
  revert Hstart. unfold rdma_start. destruct (RDMAConnection_start depth size base1 key1) as [a|] eqn:Ha; [cbn|done].
  destruct (RDMAConnection_start depth size base2 key2) as [b|] eqn:Hb; [cbn|done].
  pose proof (started_flow _ _ _ _ (proj1 Hdepth) Hsize Hsize32 (start_started _ _ _ _ _ _ _ _ Hsize Ha Hb)) as H1.
  pose proof (started_flow _ _ _ _ (proj1 Hdepth) Hsize Hsize32 (start_started _ _ _ _ _ _ _ _ Hsize Hb Ha)) as H2.
  intros [= <-]. split_and!; [exact H1|exact H2|..]; clear H1 H2; cbn.
  all: unfold RDMAConnection_start, _initProtocol, _initBuffers in Ha, Hb; destruct (depth <? 2); [done|]; cbn in Ha, Hb;
    destruct (size =? 0); [done|]; cbn in Ha, Hb; injection Ha as <-; injection Hb as <-; unfold receives_ok, total; cbn; lia.
Qed.

Lemma reachable_linked s : rdma_reachable s0 s -> linked size credit depth s.
Proof.
  destruct credit_bounds. induction 1 as [|s s' _ IH Hs]; [exact start_linked|]. by eapply rdma_step_linked.
Qed.

End system.

Lemma flow_prefix n C a b : flow n C a b -> en_read b `prefix_of` en_written a.
Proof. intros (p & F & _). rewrite (fl_read _ _ _ _ F). apply prefix_take. Qed.

(** ** Theorems *)

(** When the passes of an end do not overlap, the buffers of both ends have the same
    size and the queues a depth of at least four: whatever two connected ends do and
    in whatever order their adapters carry out the requests, each end has read a prefix of what the other has written, in
    order and uncorrupted by the reuse of the rings; write credits are never
    negative, a credit for a flow control message is never missing, and every
    request finds a posted receive and an address inside of the peer's sink
    buffer. *)
Theorem rdma_stream_safe depth size base1 key1 base2 key2 s0 a b :
  4 <= depth <= 65535 -> 0 < size -> 2 * size <= 2 ^ 32 ->
  rdma_start depth size base1 key1 base2 key2 = Some s0 -> rdma_reachable s0 (a, b) ->
  (en_read b `prefix_of` en_written a /\ en_read a `prefix_of` en_written b) /\
  (0 <= rd_wcredits (en_conn a) /\ 0 <= rd_wcredits (en_conn b)) /\
  (0 < rd_fcredits (en_conn a) /\ 0 < rd_fcredits (en_conn b)) /\
  (en_queue a <> [] -> is_Some (deliver a b)) /\ (en_queue b <> [] -> is_Some (deliver b a)).
Proof.
  intros Hd Hs Hs32 Hst Hr. pose proof (credit_bounds depth Hd) as [HC HC4].
  pose proof (reachable_linked _ _ _ _ _ _ _ Hd Hs Hs32 Hst _ Hr) as Hl. pose proof Hl as (Hab & Hba & Ra & Rb). cbn in *.
  split; [split; by eapply flow_prefix|]. destruct (flow_writes _ _ _ _ Hab) as (_ & _ & ?). destruct (flow_writes _ _ _ _ Hba) as (_ & _ & ?).
  split; [by destruct Hab as (? & _ & K), Hba as (? & _ & K'); split; [apply (cr_nonneg _ _ _ K)|apply (cr_nonneg _ _ _ K')]|].
  split; [lia|]. split; eapply (deliver_total size); try done.
Qed.

(** A run on rings of sixteen bytes: the first end writes, the adapter carries the
    write out, the second end polls and reads, its flow control message returns
    and is polled. *)
Definition run_write (data : bytes) (s : End * End) : End * End :=
  let '(a, b) := s in
  let '(r, c, wrs) := write_pass false 8 data (en_conn a) in
  (mkEnd c (en_queue a ++ wrs) (en_written a ++ (if r is PReturned n then take (Z.to_nat n) data else [])) (en_read a), b).
Definition run_read (n : Z) (s : End * End) : End * End :=
  let '(a, b) := s in
  let '(_, _, data, c, wrs) := read_pass false true false 8 n (en_conn a) in
  (mkEnd c (en_queue a ++ wrs) (en_written a) (en_read a ++ data), b).
Definition run_deliver (s : End * End) : End * End := default s (deliver s.1 s.2).
Definition flip (s : End * End) : End * End := (s.2, s.1).

Definition example_start : End * End := default (mkEnd (RDMAConnection_init 0 0) [] [] [], mkEnd (RDMAConnection_init 0 0) [] [] [])
  (rdma_start 8 16 1000 1 5000 2).
Definition example_1 := run_write [1; 2; 3; 4; 5] example_start.
Definition example_2 := run_deliver example_1.
Definition example_3 := flip (run_read 3 (flip example_2)).
Definition example_4 := flip (run_read 3 (flip example_3)).
Definition example_5 := flip (run_read 9 (flip example_4)).
Definition example_6 := flip (run_deliver (flip example_5)).
Definition example_7 := run_write [] example_6.
Definition example_8 := flip (run_write [] (flip example_7)).

Lemma run_write_step data s :
  (write_pass false 8 data (en_conn s.1)).1.1 <> PFailed -> end_step s (run_write data s).
Proof.
  destruct s as [a b]. unfold run_write. cbn. destruct (write_pass _ _ _ _) as [[r c] wrs] eqn:E. intros H.
  by apply (step_write _ _ false 8 data).
Qed.

Lemma run_read_step n s :
  0 < u32 n -> (read_pass false true false 8 n (en_conn s.1)).1.1.1.1 <> PFailed -> end_step s (run_read n s).
Proof.
  destruct s as [a b]. unfold run_read. cbn. intros Hn. destruct (read_pass _ _ _ _ _ _) as [[[[r x] d] c] wrs] eqn:E. intros H.
  by apply (step_read _ _ false true false 8 n r x).
Qed.

Lemma run_deliver_step s : is_Some (deliver s.1 s.2) -> end_step s (run_deliver s).
Proof. destruct s as [a b]. unfold run_deliver. intros [[a' b'] E]. cbn in *. rewrite E. by apply step_deliver. Qed.

Lemma run_first s0 s s' : end_step s s' -> rdma_reachable s0 s -> rdma_reachable s0 s'.
Proof. intros H Hr. eapply rdma_more; [exact Hr|by apply step_first]. Qed.

Lemma run_second s0 s s' : end_step (flip s) s' -> rdma_reachable s0 s -> rdma_reachable s0 (flip s').
Proof. destruct s, s'. intros H Hr. eapply rdma_more; [exact Hr|by apply step_second]. Qed.

Lemma example_reachable_3 : rdma_reachable example_start example_3.
Proof.
  unfold example_3, example_2, example_1.
  eapply run_second; [apply run_read_step; by vm_compute|]. eapply run_first; [apply run_deliver_step; vm_compute; by eexists|].
  eapply run_first; [apply run_write_step; by vm_compute|]. apply rdma_refl.
Qed.

Lemma example_reachable_8 : rdma_reachable example_start example_8.
Proof.
  unfold example_8, example_7, example_6, example_5, example_4.
  eapply run_second; [apply run_write_step; by vm_compute|]. eapply run_first; [apply run_write_step; by vm_compute|].
  eapply run_second; [apply run_deliver_step; vm_compute; by eexists|].
  do 2 (eapply run_second; [apply run_read_step; by vm_compute|]). exact example_reachable_3.
Qed.

Example example_states :
  en_read example_3.2 = [] /\ en_read example_4.2 = [1; 2; 3] /\ en_read example_8.2 = [1; 2; 3; 4; 5] /\ rd_pipe (en_conn example_3.2) = [5] /\
  rd_wcredits (en_conn example_8.1) = 2 /\ quiet example_8.1 example_8.2.
Proof. vm_compute. by split_and!. Qed.

Lemma rdma_stream_safe_witness :
  en_read example_8.2 `prefix_of` en_written example_8.1 /\ 0 < rd_fcredits (en_conn example_8.1).
Proof.
  destruct (rdma_stream_safe 8 16 1000 1 5000 2 example_start example_8.1 example_8.2) as ((H & _) & _ & (H' & _) & _);
    [lia|lia|lia|by vm_compute|exact example_reachable_8|by split].
Defined.

(** No deadlock when the passes of an end do not overlap, for buffers of the same
    size and a depth of at least six; RdmaThreads has a run of overlapping passes
    that ends in one ([rdma_race_deadlock]).  Data that was announced to an end is
    read at once, whatever else is going on; and when nothing is on its way and nothing is left to read,
    everything written has been read, all credits and the whole ring are back, and
    the next write moves at least one byte. *)
Theorem rdma_no_deadlock depth size base1 key1 base2 key2 s0 a b timedOut block extra count nb data :
  6 <= depth <= 65535 -> 0 < size -> 2 * size <= 2 ^ 32 ->
  rdma_start depth size base1 key1 base2 key2 = Some s0 -> rdma_reachable s0 (a, b) -> 0 < u32 nb -> data <> [] ->
  (rd_pipe (en_conn b) <> [] ->
     exists k d c wrs, read_pass timedOut block extra count nb (en_conn b) = (PReturned k, extra, d, c, wrs) /\
       0 < k /\ Z.of_nat (length d) = k /\ (en_read b ++ d) `prefix_of` en_written a) /\
  (quiet a b ->
     en_read b = en_written a /\
     exists m c wrs, write_pass timedOut count data (en_conn a) = (PReturned m, c, wrs) /\ 0 < m).
Proof.
  intros Hd Hs Hs32 Hst Hr Hnb Hne. assert (4 <= depth <= 65535) as Hd4 by lia. pose proof (credit_bounds depth Hd4) as [HC HC4].
  destruct (reachable_linked _ _ _ _ _ _ _ Hd4 Hs Hs32 Hst _ Hr) as (Hab & Hba & _). cbn in *. split.
  - intros Hp. destruct (read_pass_returns _ _ Hs Hs32 a b timedOut block extra count nb Hab Hba Hnb Hp) as (k & d & c & wrs & E & Hk & Hl).
    exists k, d, c, wrs. split_and!; try done. by destruct (read_pass_flow _ _ Hs Hs32 HC _ _ _ _ _ _ _ _ _ _ _ _ Hab Hba Hnb E) as [Hf%flow_prefix _].
  - intros Hq. split.
    + destruct Hab as (p & F & K). destruct (quiet_positions _ _ p a b F K Hq) as (_ & _ & E & _).
      rewrite (fl_read _ _ _ _ F), E, <- (fl_written _ _ _ _ F), Nat2Z.id. by apply take_ge.
    + assert (3 <= depth `quot` 2) by (apply Z.quot_le_lower_bound; lia).
      apply (write_pass_returns size (depth `quot` 2 - 2) Hs Hs32 a b); [exact Hab|done|lia|done].
Qed.

Lemma rdma_no_deadlock_witness :
  (exists k d c wrs, read_pass false true false 8 3 (en_conn example_3.2) = (PReturned k, false, d, c, wrs) /\ 0 < k) /\
  en_read example_8.2 = en_written example_8.1.
Proof.
  split.
  - destruct (rdma_no_deadlock 8 16 1000 1 5000 2 example_start example_3.1 example_3.2 false true false 8 3 [7]) as [H _];
      [lia|lia|lia|by vm_compute|exact example_reachable_3|by vm_compute|done|].
    destruct H as (k & d & c & wrs & E & Hk & _); [by vm_compute|].
    exists k, d, c, wrs. split; [exact E|exact Hk].
  - destruct (rdma_no_deadlock 8 16 1000 1 5000 2 example_start example_8.1 example_8.2 false true false 8 3 [7]) as [_ H];
      [lia|lia|lia|by vm_compute|exact example_reachable_8|by vm_compute|done|].
    apply H. unfold quiet. vm_compute. by split_and!.
Defined.

(** A depth below six is accepted, but leaves no credits for writes at four and
    five, and a negative number at two and three, which disables the check for
    credits. *)
Example rdma_shallow_depths :
  ((fun d => (fun s => (rd_wcredits (en_conn s.1), (write_pass false 8 [1] (en_conn s.1)).1.1)) <$> rdma_start d 16 1000 1 5000 2) <$> [2; 3; 4; 5; 6])
  = [Some (-1, PReturned 1); Some (-1, PReturned 1); Some (0, PRetry); Some (0, PRetry); Some (1, PReturned 1)].
Proof. by vm_compute. Qed.
