(* ===== verification/RdmaThreads.v ===== *)
(** * The read and write threads of an RDMA connection (co/rdmaConnection.cpp)

    An RDMA connection is read by one thread and written by another, and both poll
    the completion queue: the comments in rdmaConnection.h say which ring pointers
    which thread changes.  Here [readSync], [write] and [_checkCQ] are cut into
    steps wherever a step uses or changes something another thread, the peer or
    the adapter changes, and the steps of both threads of both ends and of the
    adapters interleave in any order.  The bodies of the steps are those of Rdma.

    Polling is exclusive ([_poll_lock]) but not tied to the thread that polls, so
    that completions may be handled between any two steps of either thread, which
    includes every schedule of the code.  Memory is sequentially consistent.  A
    thread that fails closes the connection; such steps do not exist here. *)

From S2P Require Import Prelude Bytes Ring Rdma.

(** ** Handling a completion *)

(** The assignments of [_recvRDMAWrite], [_recvFC] and [_checkCQ] *)
Inductive Micro :=
| MSinkHead (b : Z)
| MAvailable (b : Z)
| MFcredits (fcs_received : Z)
| MWrites
| MRemoteTail (b : Z)
| MWcredits (writes_received : Z)
| MFcs
| MSourceTail (len : Z)
| MRecvSetup (rbase rlen rkey : Z).

Definition micros (wc : Completion) : list Micro :=
  match wc with
  | WcRecvImm imm => [MSinkHead (imm_bytes imm); MAvailable (imm_bytes imm); MFcredits (imm_fcs imm); MWrites]
  | WcRecv (MFC bytes_received writes_received) => [MRemoteTail bytes_received; MWcredits writes_received; MFcs]
  | WcRecv (MSetup rbase rlen rkey) => [MRecvSetup rbase rlen rkey]
  | WcSend => []
  | WcWrite len => [MSourceTail (u32 len)]
  end.

Definition exec_micro (m : Micro) (e : RDMAConnection) : RDMAConnection :=
  match m with
  | MSinkHead b => set_sinkptr (incr 32 (rd_sinkptr e) HEAD b) e
  | MAvailable b => _incrAvailableBytes b e
  | MFcredits f => set_fcredits (rd_fcredits e + f) e
  | MWrites => set_writes (rd_writes e + 1) e
  | MRemoteTail b => set_rptr (incr 32 (rd_rptr e) (TAIL (rd_rptr e)) b) e
  | MWcredits w => set_wcredits (rd_wcredits e + w) e
  | MFcs => set_fcs (rd_fcs e + 1) e
  | MSourceTail len => set_sourceptr (incr 32 (rd_sourceptr e) (TAIL (rd_sourceptr e)) len) e
  | MRecvSetup rbase rlen rkey => _recvSetup rbase rlen rkey e
  end.

(** Together they are what handling the completion does. *)
Lemma micros_handle wc e : foldl (fun e m => exec_micro m e) e (micros wc) = handle_completion wc e.
Proof. by destruct wc as [| | |[]]. Qed.

(** ** The threads *)

(** The arguments and local variables of [readSync] *)
Record ReadCall := mkReadCall { rc_bytes : Z; rc_block : bool; rc_extra_event : bool; rc_available : Z }.

Definition set_rc_extra (c : ReadCall) : ReadCall := mkReadCall (rc_bytes c) (rc_block c) true (rc_available c).
Definition set_rc_available (x : Z) (c : ReadCall) : ReadCall := mkReadCall (rc_bytes c) (rc_block c) (rc_extra_event c) x.

(** Where the read thread is: not in a read; at the label [retry]; after
    [_checkEvents] and [_checkCQ]; in the loop of [_getAvailableBytes]; before
    [_drain]; in it, the number of bytes being known; before what was not taken is
    put back; before the last [_needFC]; in [_postFC]; in [_postMessage]. *)
Inductive RPhase :=
| R_idle
| R_retry (c : ReadCall)
| R_events (c : ReadCall) (bufEvent : bool)
| R_take (c : ReadCall)
| R_drain (c : ReadCall)
| R_copy (c : ReadCall) (b : Z)
| R_put (c : ReadCall) (bytes_taken : Z)
| R_need
| R_post
| R_send (message : RDMAMessage).

(** Where the write thread is: not in a write; after [_checkCQ]; before [_fill],
    with a credit; in it, the number of bytes being known; before
    [_postRDMAWrite]; in it, the block being taken from the source buffer. *)
Inductive WPhase :=
| W_idle
| W_retry (data : bytes)
| W_fill (data : bytes)
| W_copy (data : bytes) (b : Z)
| W_post (b : Z)
| W_remote (src len imm : Z).

(** An end with the completion that is being handled, the number of receives to be
    posted again, and its threads. *)
Record TEnd := mkTEnd { te_end : End; te_prog : list Micro; te_recvs : Z; te_w : WPhase; te_r : RPhase }.

Abbreviation te_conn x := (en_conn (te_end x)).

Definition set_te_conn (c : RDMAConnection) (x : TEnd) : TEnd :=
  mkTEnd (set_conn c (te_end x)) (te_prog x) (te_recvs x) (te_w x) (te_r x).
Definition set_te_w (w : WPhase) (x : TEnd) : TEnd := mkTEnd (te_end x) (te_prog x) (te_recvs x) w (te_r x).
Definition set_te_r (r : RPhase) (x : TEnd) : TEnd := mkTEnd (te_end x) (te_prog x) (te_recvs x) (te_w x) r.
Definition add_written (data : bytes) (x : TEnd) : TEnd :=
  mkTEnd (mkEnd (en_conn (te_end x)) (en_queue (te_end x)) (en_written (te_end x) ++ data) (en_read (te_end x)))
    (te_prog x) (te_recvs x) (te_w x) (te_r x).
Definition add_read (data : bytes) (x : TEnd) : TEnd :=
  mkTEnd (mkEnd (en_conn (te_end x)) (en_queue (te_end x)) (en_written (te_end x)) (en_read (te_end x) ++ data))
    (te_prog x) (te_recvs x) (te_w x) (te_r x).
Definition add_request (wr : WorkRequest) (x : TEnd) : TEnd :=
  mkTEnd (mkEnd (en_conn (te_end x)) (en_queue (te_end x) ++ [wr]) (en_written (te_end x)) (en_read (te_end x)))
    (te_prog x) (te_recvs x) (te_w x) (te_r x).

(** *** Polling *)

Definition poll_step (x : TEnd) : option TEnd :=
  match te_prog x, rd_cq (te_conn x) with
  | [], wc :: cq =>
      Some (mkTEnd (set_conn (set_cq cq (te_conn x)) (te_end x)) (micros wc)
              (te_recvs x + (if is_recv wc then 1 else 0)) (te_w x) (te_r x))
  | _, _ => None
  end.

Definition micro_step (x : TEnd) : option TEnd :=
  match te_prog x with
  | [] => None
  | m :: prog => Some (mkTEnd (set_conn (exec_micro m (te_conn x)) (te_end x)) prog (te_recvs x) (te_w x) (te_r x))
  end.

Definition repost_step (x : TEnd) : option TEnd :=
  match te_prog x with
  | [] => Some (mkTEnd (set_conn (_postReceives (te_recvs x) (te_conn x)) (te_end x)) [] 0 (te_w x) (te_r x))
  | _ => None
  end.

(** *** [readSync] *)

Definition pipe_empty (e : RDMAConnection) : bool := match rd_pipe e with [] => true | _ => false end.

Definition read_step (x : TEnd) : option TEnd :=
  let e := te_conn x in
  match te_r x with
  | R_idle => None
  | R_retry c => Some (set_te_r (R_events c (negb (pipe_empty e))) x)
  | R_events c bufEvent =>
      if rd_established e && _needFC e && (rd_fcredits e =? 0) then Some (set_te_r (R_retry c) x)
      else if rd_established e && negb bufEvent then
        Some (set_te_r (if rc_extra_event c && negb (rc_block c) then R_idle else R_retry (set_rc_extra c)) x)
      else Some (set_te_r (if bufEvent then R_take (set_rc_available 0 c) else R_drain c) x)
  | R_take c =>
      match rd_pipe e with
      | currBytes :: pipe =>
          Some (set_te_r (R_take (set_rc_available (u64 (rc_available c + currBytes)) c)) (set_te_conn (set_pipe pipe e) x))
      | [] => if rc_available c =? 0 then None else Some (set_te_r (R_drain c) x)
      end
  | R_drain c => Some (set_te_r (R_copy c (drain_bytes (u32 (rc_bytes c)) e)) x)
  | R_copy c b =>
      let '(data, e) := drain_copy b e in
      let x := add_read data (set_te_conn e x) in
      if b =? 0 then
        if isEmpty (rd_sinkptr e) HEAD (TAIL (rd_sinkptr e)) && negb (rd_established e) then None
        else Some (set_te_r (R_retry c) x)
      else Some (set_te_r (R_put c b) x)
  | R_put c bytes_taken =>
      let e := if rc_available c >? bytes_taken then _incrAvailableBytes (rc_available c - bytes_taken) e else e in
      Some (set_te_r R_need (set_te_conn (set_readBytes (u64 (rd_readBytes e + bytes_taken)) e) x))
  | R_need => Some (set_te_r (if rd_established e && _needFC e then R_post else R_idle) x)
  | R_post => let '(message, e) := take_fc e in Some (set_te_r (R_send message) (set_te_conn e x))
  | R_send message => let '(wr, e) := _postMessage message e in Some (set_te_r R_idle (add_request wr (set_te_conn e x)))
  end.

(** *** [write] *)

Definition can_put (data : bytes) : bytes := take (Z.to_nat (Z.min (Z.of_nat (length data)) MAX_BS)) data.

Definition write_step (x : TEnd) : option TEnd :=
  let e := te_conn x in
  match te_w x with
  | W_idle => None
  | W_retry data =>
      if negb (rd_established e) then None
      else Some (set_te_w (if rd_wcredits e =? 0 then W_retry data else W_fill data) x)
  | W_fill data => Some (set_te_w (W_copy data (fill_bytes (can_put data) e)) x)
  | W_copy data b =>
      let x := add_written (take (Z.to_nat b) (can_put data)) (set_te_conn (fill_copy b (can_put data) e) x) in
      Some (set_te_w (if b =? 0 then W_retry data else W_post b) x)
  | W_post b => let '(src, len, imm, e) := post_source e in Some (set_te_w (W_remote src len imm) (set_te_conn e x))
  | W_remote src len imm =>
      let '(wr, e) := post_remote src len imm e in Some (set_te_w W_idle (add_request wr (set_te_conn e x)))
  end.

(** ** The system *)

Inductive TOp := ORead (n : Z) (block : bool) | OReader | OWrite (data : bytes) | OWriter | OPoll | OMicro | ORepost | ODeliver.

Definition own_step (op : TOp) (x : TEnd) : option TEnd :=
  match op with
  | ORead n block =>
      match te_r x with R_idle => if 0 <? u32 n then Some (set_te_r (R_retry (mkReadCall n block false 0)) x) else None | _ => None end
  | OReader => read_step x
  | OWrite data => match te_w x with W_idle => Some (set_te_w (W_retry data) x) | _ => None end
  | OWriter => write_step x
  | OPoll => poll_step x
  | OMicro => micro_step x
  | ORepost => repost_step x
  | ODeliver => None
  end.

(** A step of the first end; the adapter carries out one of its requests, or one of
    its threads steps. *)
Definition first_step (op : TOp) (s : TEnd * TEnd) : option (TEnd * TEnd) :=
  let '(a, b) := s in
  match op with
  | ODeliver =>
      '(ea, eb) ← deliver (te_end a) (te_end b);
      Some (mkTEnd ea (te_prog a) (te_recvs a) (te_w a) (te_r a), mkTEnd eb (te_prog b) (te_recvs b) (te_w b) (te_r b))
  | _ => a ← own_step op a; Some (a, b)
  end.

Definition thread_step (side : bool) (op : TOp) (s : TEnd * TEnd) : option (TEnd * TEnd) :=
  if side then '(b, a) ← first_step op (s.2, s.1); Some (a, b) else first_step op s.

Fixpoint thread_run (ops : list (bool * TOp)) (s : TEnd * TEnd) : option (TEnd * TEnd) :=
  match ops with
  | [] => Some s
  | (side, op) :: ops => s ← thread_step side op s; thread_run ops s
  end.

Definition TEnd_start (e : End) : TEnd := mkTEnd e [] 0 W_idle R_idle.
Definition threads_start (s : End * End) : TEnd * TEnd := (TEnd_start s.1, TEnd_start s.2).

(** ** Positions *)

(** What a completion being handled still has to do. *)
Definition m_head (m : Micro) : Z := if m is MSinkHead b then b else 0.
Definition m_remote (m : Micro) : Z := if m is MRemoteTail b then b else 0.
Definition m_source (m : Micro) : Z := if m is MSourceTail len then len else 0.

(** Amounts are not negative, and there is no setup message. *)
Definition micro_ok (m : Micro) : Prop :=
  match m with
  | MSinkHead b | MRemoteTail b | MWcredits b | MSourceTail b => 0 <= b
  | MRecvSetup _ _ _ => False
  | _ => True
  end.

(** Bytes the reader took and has not counted yet, or has in its message. *)
Definition r_taken (r : RPhase) : Z :=
  match r with R_put _ taken => taken | R_send (MFC b _) => b | _ => 0 end.

Definition no_setup_wc (wc : Completion) : Prop := if wc is WcRecv (MSetup _ _ _) then False else True.
Definition no_setup_wr (wr : WorkRequest) : Prop := if wr is WrSend (MSetup _ _ _) then False else True.

#[local] Arguments total : simpl never.
#[local] Arguments wc_lens : simpl never.
#[local] Arguments wc_imms : simpl never.
#[local] Arguments wc_fcs : simpl never.
#[local] Arguments wr_imms : simpl never.
#[local] Arguments wr_fcs : simpl never.
#[local] Arguments micros : simpl never.

Section proofs.

Context (n : Z) (Hn : 0 < n) (Hn32 : 2 * n <= 2 ^ 32).

(** Positions in the stream from [a] to [b]: filled, posted, completed at the
    writer, written to the sink, announced to the reader, read, acknowledged. *)
Record tpositions := mkTP { Th : Z; Tq : Z; Tt : Z; Tv : Z; Tk : Z; Td : Z; Tr : Z }.

(** The position of MIDDLE, and what the phase of the writer promises. *)
Definition w_middle (p : tpositions) (w : WPhase) : Z := match w with W_post _ => Tq p | _ => Th p end.

Definition w_ok (p : tpositions) (w : WPhase) (wcredits : Z) : Prop :=
  match w with
  | W_idle | W_retry _ => Tq p = Th p /\ 0 <= wcredits
  | W_fill _ => Tq p = Th p /\ 0 < wcredits
  | W_copy data b => Tq p = Th p /\ 0 < wcredits /\ 0 <= b <= Z.of_nat (length (can_put data)) /\
      b <= n - (Th p - Tt p) /\ b <= n - (Th p - Tr p) /\ Th p `mod` n + b <= n
  | W_post b => 0 < b <= MAX_BS /\ Th p = Tq p + b /\ 0 < wcredits /\ Tq p `mod` n + b <= n
  | W_remote src len imm => 0 < len <= MAX_BS /\ Th p = Tq p + len /\ 0 < wcredits /\ Tq p `mod` n + len <= n /\
      src = Tq p `mod` n /\ imm_bytes imm = len /\ 0 <= imm_fcs imm
  end.

Definition r_ok (p : tpositions) (r : RPhase) : Prop :=
  match r with
  | R_retry c | R_events c _ | R_take c | R_drain c => 0 < u32 (rc_bytes c)
  | R_copy c b => 0 < u32 (rc_bytes c) /\ 0 <= b <= Tk p - Td p
  | R_put _ taken => 0 < taken
  | R_send (MFC b w) => 0 <= b /\ 0 <= w
  | R_send _ => False
  | _ => True
  end.

Record tflows (p : tpositions) (a b : TEnd) : Prop := {
  tf_source : ring_at n (rd_sourceptr (te_conn a)) [Th p; w_middle p (te_w a); Tt p];
  tf_rptr : ring_at n (rd_rptr (te_conn a)) [Tq p; Tr p];
  tf_sink : ring_at n (rd_sinkptr (te_conn b)) [Tk p; Td p];
  tf_order : 0 <= Tr p <= Td p /\ Td p <= Tk p <= Tv p /\ Tt p <= Tv p <= Tq p /\ Tq p <= Th p /\ 0 <= Tt p /\
             Th p - Tr p <= n /\ Th p - Tt p <= n;
  tf_written : Z.of_nat (length (en_written (te_end a))) = Th p;
  tf_read : en_read (te_end b) = take (Z.to_nat (Td p)) (en_written (te_end a));
  tf_buffers : Z.of_nat (length (rd_sourcebuf (te_conn a))) = n /\ Z.of_nat (length (rd_sinkbuf (te_conn b))) = n;
  tf_base : rd_rbase (te_conn a) = rd_sinkbase (te_conn b);
  tf_sourcemem i : Tt p <= i < Th p -> rd_sourcebuf (te_conn a) !! Z.to_nat (i `mod` n) = en_written (te_end a) !! Z.to_nat i;
  tf_sinkmem i : Td p <= i < Tv p -> rd_sinkbuf (te_conn b) !! Z.to_nat (i `mod` n) = en_written (te_end a) !! Z.to_nat i;
  tf_segments : segments n (rd_sinkbase (te_conn b)) (Tv p) (en_queue (te_end a)) = Some (Tq p);
  tf_completed : Tt p + total m_source (te_prog a) + total id (wc_lens (rd_cq (te_conn a))) = Tv p;
  tf_announced : Tk p + total m_head (te_prog b) + total imm_bytes (wc_imms (rd_cq (te_conn b))) = Tv p;
  tf_acked : Tr p + total m_remote (te_prog a) + total fst (wc_fcs (rd_cq (te_conn a)) ++ wr_fcs (en_queue (te_end b))) +
             rd_readBytes (te_conn b) + r_taken (te_r b) = Td p;
  tf_lens : Forall (fun len => 0 <= len) (wc_lens (rd_cq (te_conn a)));
  tf_fcs : Forall (fun fc => 0 <= fc.1 /\ 0 <= fc.2) (wc_fcs (rd_cq (te_conn a)) ++ wr_fcs (en_queue (te_end b)));
  tf_progs : Forall micro_ok (te_prog a) /\ Forall (fun m => 0 <= m_head m) (te_prog b);
  tf_readBytes : 0 <= rd_readBytes (te_conn b);
  tf_writer : w_ok p (te_w a) (rd_wcredits (te_conn a));
  tf_reader : r_ok p (te_r b);
  tf_established : rd_established (te_conn a) = true;
  tf_nosetup : Forall no_setup_wc (rd_cq (te_conn a)) /\ Forall no_setup_wr (en_queue (te_end b))
}.

Definition tflow (a b : TEnd) : Prop := exists p, tflows p a b.

Lemma imms_nonneg l : 0 <= total imm_bytes l.
Proof. apply total_Forall. apply Forall_forall. intros imm _. unfold imm_bytes. apply Z.mod_pos_bound. lia. Qed.

Lemma micros_nonneg l : Forall micro_ok l -> 0 <= total m_remote l /\ 0 <= total m_source l.
Proof. intros Hl. split; (eapply total_impl; [|exact Hl]); by intros [] H; cbn in *; try lia. Qed.

Lemma size32 : 0 < n < 4294967296.
Proof. pose proof Hn32 as H. rewrite pow32 in H. lia. Qed.

Lemma fcs_nonneg l : Forall (fun fc => 0 <= fc.1 /\ 0 <= fc.2) l -> 0 <= total (@fst Z Z) l.
Proof. intros Hl. eapply total_impl; [|exact Hl]. by intros ? []. Qed.

Lemma lens_nonneg l : Forall (fun len => 0 <= len) l -> 0 <= total id l.
Proof. intros Hl. eapply total_impl; [|exact Hl]. done. Qed.

(** What is read and not acknowledged fits the ring. *)
Lemma taken_bound p a b : tflows p a b -> 0 <= r_taken (te_r b) -> rd_readBytes (te_conn b) + r_taken (te_r b) <= n.
Proof.
  intros F Ht. pose proof (tf_acked _ _ _ F). pose proof (tf_order _ _ _ F). pose proof (fcs_nonneg _ (tf_fcs _ _ _ F)).
  destruct (micros_nonneg _ (proj1 (tf_progs _ _ _ F))) as [? _]. lia.
Qed.

(** *** The parts of an end a direction uses *)

Record tw_eq (a a' : TEnd) : Prop := {
  tw_source : rd_sourceptr (te_conn a') = rd_sourceptr (te_conn a);
  tw_buf : rd_sourcebuf (te_conn a') = rd_sourcebuf (te_conn a);
  tw_rptr : rd_rptr (te_conn a') = rd_rptr (te_conn a);
  tw_rbase : rd_rbase (te_conn a') = rd_rbase (te_conn a);
  tw_cq : wc_lens (rd_cq (te_conn a')) = wc_lens (rd_cq (te_conn a)) /\ wc_fcs (rd_cq (te_conn a')) = wc_fcs (rd_cq (te_conn a));
  tw_wcredits : rd_wcredits (te_conn a') = rd_wcredits (te_conn a);
  tw_established : rd_established (te_conn a') = rd_established (te_conn a);
  tw_written : en_written (te_end a') = en_written (te_end a);
  tw_segments base P : segments n base P (en_queue (te_end a')) = segments n base P (en_queue (te_end a));
  tw_phase : te_w a' = te_w a;
  tw_prog : total m_source (te_prog a') = total m_source (te_prog a) /\ total m_remote (te_prog a') = total m_remote (te_prog a);
  tw_progs : Forall micro_ok (te_prog a) -> Forall micro_ok (te_prog a');
  tw_nosetup : Forall no_setup_wc (rd_cq (te_conn a)) -> Forall no_setup_wc (rd_cq (te_conn a'))
}.

Record tr_eq (b b' : TEnd) : Prop := {
  tr_sink : rd_sinkptr (te_conn b') = rd_sinkptr (te_conn b);
  tr_buf : rd_sinkbuf (te_conn b') = rd_sinkbuf (te_conn b);
  tr_base : rd_sinkbase (te_conn b') = rd_sinkbase (te_conn b);
  tr_imms : wc_imms (rd_cq (te_conn b')) = wc_imms (rd_cq (te_conn b));
  tr_readBytes : rd_readBytes (te_conn b') = rd_readBytes (te_conn b);
  tr_read : en_read (te_end b') = en_read (te_end b);
  tr_fcs : wr_fcs (en_queue (te_end b')) = wr_fcs (en_queue (te_end b));
  tr_phase : te_r b' = te_r b;
  tr_prog : total m_head (te_prog b') = total m_head (te_prog b);
  tr_progs : Forall (fun m => 0 <= m_head m) (te_prog b) -> Forall (fun m => 0 <= m_head m) (te_prog b');
  tr_nosetup : Forall no_setup_wr (en_queue (te_end b)) -> Forall no_setup_wr (en_queue (te_end b'))
}.

Lemma tw_refl a : tw_eq a a.
Proof. by constructor. Qed.

Lemma tr_refl b : tr_eq b b.
Proof. by constructor. Qed.

Lemma tflow_frame a a' b b' : tw_eq a a' -> tr_eq b b' -> tflow a b -> tflow a' b'.
Proof.
  intros [? ? ? ? [Hl Hf] ? ? ? ? ? [Hs Hr] ? ?] [] (p & F). exists p. destruct F as [? ? ? ? ? ? ? ? ? ? ? ? ? ? ? ? [? ?] ? ? ? ? [? ?]].
  constructor; rewrite ?tw_source0, ?tw_buf0, ?tw_rptr0, ?tw_rbase0, ?Hl, ?Hf, ?tw_wcredits0, ?tw_established0, ?tw_written0,
    ?tw_segments0, ?tw_phase0, ?Hs, ?Hr, ?tr_sink0, ?tr_buf0, ?tr_base0, ?tr_imms0, ?tr_readBytes0, ?tr_read0, ?tr_fcs0, ?tr_phase0, ?tr_prog0; auto.
Qed.

(** *** Polling *)

Lemma poll_flow_writer x x' b : poll_step x = Some x' -> tflow x b -> tflow x' b.
Proof.
  unfold poll_step. destruct (te_prog x) eqn:Hprog; [|done]. destruct (rd_cq (te_conn x)) as [|wc cq] eqn:Hcq; [done|]. intros [= <-] (p & F).
  exists p. destruct F as [? ? ? H4 ? ? ? ? ? ? ? Hc ? Hack Hlens Hfcs [Hp1 Hp2] ? ? ? ? [Hns ?]]. rewrite Hcq, Hprog in *.
  apply Forall_cons in Hns as [Hwc Hns]. change (total m_source []) with 0 in Hc. change (total m_remote []) with 0 in Hack.
  assert (Forall micro_ok (micros wc) /\ total m_source (micros wc) + total id (wc_lens cq) = total id (wc_lens (wc :: cq)) /\
    total m_remote (micros wc) + total fst (wc_fcs cq ++ wr_fcs (en_queue (te_end b))) = total fst (wc_fcs (wc :: cq) ++ wr_fcs (en_queue (te_end b))) /\
    Forall (fun len => 0 <= len) (wc_lens cq) /\ Forall (fun fc => 0 <= fc.1 /\ 0 <= fc.2) (wc_fcs cq ++ wr_fcs (en_queue (te_end b))))
    as (Hm & E1 & E2 & Hlens' & Hfcs').
  { clear Hack. destruct wc as [len| |imm|[|by_ w]]; try done.
    - wc_simpl_in Hlens. wc_simpl_in Hfcs. wc_simpl_in Hc. apply Forall_cons in Hlens as [Hlen Hlens]. rewrite total_cons in Hc. unfold id in Hc at 1.
      pose proof (lens_nonneg _ Hlens). pose proof size32.
      assert (u32 len = len) as Hu by (unfold u32; apply Z.mod_small; lia).
      unfold micros. rewrite Hu. wc_simpl. split_and!; try done; [by apply Forall_singleton|]. rewrite !total_cons. unfold id, m_source. change (total _ []) with 0. lia.
    - split_and!; try done. repeat apply Forall_cons_2; try done. cbn. unfold imm_bytes. apply Z.mod_pos_bound. lia.
    - wc_simpl_in Hlens. wc_simpl_in Hfcs. apply Forall_cons in Hfcs as [[? ?] Hfcs]. split_and!; try done; [by repeat apply Forall_cons_2|].
      wc_simpl. unfold micros. rewrite !total_cons. cbn. change (total _ []) with 0. lia. }
  constructor; cbn; auto; try lia.
Qed.

Lemma poll_flow_reader a x x' : poll_step x = Some x' -> tflow a x -> tflow a x'.
Proof.
  unfold poll_step. destruct (te_prog x) eqn:Hprog; [|done]. destruct (rd_cq (te_conn x)) as [|wc cq] eqn:Hcq; [done|]. intros [= <-] (p & F).
  exists p. destruct F as [? ? ? H4 ? ? ? ? ? ? ? ? Han ? ? ? [Hp1 Hp2] ? ? ? ? [? ?]]. rewrite Hcq, Hprog in *.
  change (total m_head []) with 0 in Han.
  assert (Forall (fun m => 0 <= m_head m) (micros wc) /\
    total m_head (micros wc) + total imm_bytes (wc_imms cq) = total imm_bytes (wc_imms (wc :: cq))) as [Hm E].
  { destruct wc as [len| |imm|[|by_ w]]; (split; [unfold micros; repeat apply Forall_cons_2; try done|unfold micros; wc_simpl; rewrite ?total_cons; cbn; change (total m_head []) with 0; lia]).
    cbn. unfold imm_bytes. apply Z.mod_pos_bound. lia. }
  constructor; cbn; auto; try lia.
Qed.

(** *** Assignments of the poll *)

Lemma micro_flow_writer x x' b : micro_step x = Some x' -> tflow x b -> tflow x' b.
Proof.
  unfold micro_step. destruct (te_prog x) as [|m prog] eqn:Hprog; [done|]. intros [= <-] (p & F). pose proof size32 as Hs32.
  pose proof (tf_progs _ _ _ F) as [Hp _]. rewrite Hprog in Hp. apply Forall_cons in Hp as [Hm Hp].
  destruct (micros_nonneg _ Hp) as [Hrem Hsrc].
  pose proof (tf_order _ _ _ F) as H4. pose proof (tf_completed _ _ _ F) as Hc. pose proof (tf_acked _ _ _ F) as Hack.
  rewrite Hprog in Hc, Hack. rewrite total_cons in Hc, Hack. pose proof (lens_nonneg _ (tf_lens _ _ _ F)). pose proof (fcs_nonneg _ (tf_fcs _ _ _ F)).
  assert (0 <= r_taken (te_r b)) as Htk by (pose proof (tf_reader _ _ _ F) as Hr; destruct (te_r b) as [| | | | | | | | |[]]; cbn in *; lia).
  pose proof (tf_readBytes _ _ _ F).
  destruct m as [k|k|k| |k|k| |k|]; cbn in Hm, Hc, Hack; try done;
    try (eapply tflow_frame; [|apply tr_refl|exists p; exact F]; constructor; cbn; rewrite ?Hprog; try done; by intros [_ ?]%Forall_cons).
  - exists (mkTP (Th p) (Tq p) (Tt p) (Tv p) (Tk p) (Td p) (Tr p + k)).
    destruct F as [? H2 ? ? ? ? ? ? ? ? ? ? ? ? ? ? [? ?] ? Hw ? ? [? ?]]. constructor; cbn; auto; try lia.
    + rewrite (ring_tail _ _ _ H2). apply (ring_incr _ Hn Hn32 _ _ 1 (Tr p)) with (amount := k) in H2; [done..|]. rewrite pow32. lia.
    + destruct (te_w x); cbn in *; lia.
  - exists p. destruct F as [? ? ? ? ? ? ? ? ? ? ? ? ? ? ? ? [? ?] ? Hw ? ? [? ?]]. constructor; cbn; auto; try lia.
    destruct (te_w x); cbn in *; lia.
  - exists (mkTP (Th p) (Tq p) (Tt p + k) (Tv p) (Tk p) (Td p) (Tr p)).
    destruct F as [Hsp ? ? ? ? ? ? ? Hmem ? ? ? ? ? ? ? [? ?] ? Hw ? ? [? ?]]. constructor; cbn; auto; try lia.
    + rewrite (ring_tail _ _ _ Hsp). apply (ring_incr _ Hn Hn32 _ _ 2 (Tt p)) with (amount := k) in Hsp; [|done|rewrite pow32; lia].
      cbn in Hsp |- *. by destruct (te_w x).
    + intros i Hi. apply Hmem. lia.
    + destruct (te_w x); cbn in *; lia.
Qed.

Lemma micro_flow_reader a x x' : micro_step x = Some x' -> tflow a x -> tflow a x'.
Proof.
  unfold micro_step. destruct (te_prog x) as [|m prog] eqn:Hprog; [done|]. intros [= <-] (p & F). pose proof size32 as Hs32.
  pose proof (tf_progs _ _ _ F) as [_ Hp]. rewrite Hprog in Hp. apply Forall_cons in Hp as [Hm Hp].
  assert (0 <= total m_head prog) as Hh by (by apply total_Forall).
  pose proof (tf_order _ _ _ F) as H4. pose proof (tf_announced _ _ _ F) as Han. rewrite Hprog, total_cons in Han. pose proof (imms_nonneg (wc_imms (rd_cq (te_conn x)))).
  destruct m as [k|k|k| |k|k| |k|]; cbn in Hm, Han; try done;
    try (eapply tflow_frame; [apply tw_refl| |exists p; exact F]; constructor; cbn; rewrite ?Hprog; try done; by intros [_ ?]%Forall_cons).
  exists (mkTP (Th p) (Tq p) (Tt p) (Tv p) (Tk p + k) (Td p) (Tr p)).
  destruct F as [? ? H3 ? ? ? ? ? ? ? ? ? ? ? ? ? [? ?] ? ? Hr ? [? ?]]. constructor; cbn; auto; try lia.
  - apply (ring_incr _ Hn Hn32 _ _ 0 (Tk p)) with (amount := k) in H3; [done..|]. rewrite pow32. lia.
  - destruct (te_r x); cbn in *; try done; lia.
Qed.

Lemma repost_flow x x' y : repost_step x = Some x' -> (tflow x y -> tflow x' y) /\ (tflow y x -> tflow y x').
Proof.
  unfold repost_step. destruct (te_prog x) eqn:Hp; [|done]. intros [= <-]. split; intros F.
  - eapply tflow_frame; [|apply tr_refl|exact F]. constructor; cbn; rewrite ?Hp; done.
  - eapply tflow_frame; [apply tw_refl| |exact F]. constructor; cbn; rewrite ?Hp; done.
Qed.

(** *** The write thread *)

Lemma can_put_bound data : Z.of_nat (length (can_put data)) <= MAX_BS.
Proof. unfold can_put, MAX_BS. rewrite length_take. lia. Qed.

(** The room is what the positions say. *)
Lemma fill_bytes_spec p a b d :
  tflows p a b -> w_middle p (te_w a) = Th p -> Tq p = Th p ->
  let k := fill_bytes d (te_conn a) in
  0 <= k <= Z.of_nat (length d) /\ k <= n - (Th p - Tt p) /\ k <= n - (Th p - Tr p) /\ Th p `mod` n + k <= n.
Proof.
  intros F Hm Hq k. unfold k, fill_bytes. pose proof (tf_source _ _ _ F) as H1. pose proof (tf_rptr _ _ _ F) as H2. pose proof (tf_order _ _ _ F) as H4.
  pose proof (tf_buffers _ _ _ F) as [Hb _]. rewrite Hm in H1. rewrite Hq in *. pose proof size32.
  rewrite (ring_tail _ _ _ H1), (ring_tail _ _ _ H2). cbn [length Nat.sub].
  rewrite (ring_ptr _ Hn Hn32 _ _ HEAD (Th p) H1 eq_refl).
  rewrite (ring_negAvailable _ Hn32 _ _ HEAD 2 (Th p) (Tt p) H1 eq_refl eq_refl) by lia.
  rewrite (ring_negAvailable _ Hn32 _ _ HEAD 1 (Th p) (Tr p) H2 eq_refl eq_refl) by lia.
  pose proof (Z.mod_pos_bound (Th p) n Hn). unfold u32. rewrite (Z.mod_small (_ - _)) by lia. lia.
Qed.

(** Copying a block to the source buffer. *)
Lemma fill_copy_flow p a b data k :
  tflows p a b -> te_w a = W_copy data k -> 0 < k ->
  tflow (set_te_w (W_post k) (add_written (take (Z.to_nat k) (can_put data)) (set_te_conn (fill_copy k (can_put data) (te_conn a)) a))) b.
Proof.
  intros F Hw Hk. exists (mkTP (Th p + k) (Tq p) (Tt p) (Tv p) (Tk p) (Td p) (Tr p)). pose proof size32.
  pose proof (can_put_bound data) as Hcp. pose proof (tf_writer _ _ _ F) as Hwo. rewrite Hw in Hwo. cbn in Hwo.
  destruct Hwo as (Hq & Hwc & Hlen & Hs1 & Hs2 & Hfit).
  destruct F as [H1 ? ? H4 Hwr Hrd [Hb1 Hb2] ? Hmem Hsink ? ? ? ? ? ? [? ?] ? ? ? ? [? ?]]. rewrite Hw in H1. cbn in H1.
  assert (length (take (Z.to_nat k) (can_put data)) = Z.to_nat k) as Htl by (rewrite length_take; lia).
  pose proof (Z.mod_pos_bound (Th p) n Hn). constructor; cbn; auto; try lia.
  - rewrite Hq. apply (ring_incr _ Hn Hn32 _ _ HEAD (Th p)) with (amount := k) in H1; [done..|]. rewrite pow32. lia.
  - rewrite length_app, Htl. lia.
  - rewrite take_app_le by lia. done.
  - rewrite (ring_ptr _ Hn Hn32 _ _ HEAD (Th p) H1 eq_refl), write_at_length by lia. done.
  - intros i Hi. rewrite (ring_ptr _ Hn Hn32 _ _ HEAD (Th p) H1 eq_refl).
    apply (write_block n Hn Hn32 _ _ (fun i => (en_written (te_end a) ++ take (Z.to_nat k) (can_put data)) !! Z.to_nat i) (Tt p)); try lia.
    + intros j Hj. rewrite lookup_app_l by lia. apply Hmem. lia.
    + intros j Hj. rewrite lookup_app_r by lia. f_equal. lia.
  - intros i Hi. rewrite lookup_app_l by lia. apply Hsink. lia.
  - rewrite Hq. split_and!; lia.
Qed.

Lemma write_at_nil P buf : 0 <= P -> write_at P [] buf = buf.
Proof. intros HP. unfold write_at. cbn [length app]. by rewrite Nat.add_0_r, take_drop. Qed.

Lemma write_step_writer x x' b : write_step x = Some x' -> tflow x b -> tflow x' b.
Proof.
  unfold write_step. intros Hs (p & F). pose proof (tf_writer _ _ _ F) as Hwo. pose proof size32. pose proof (tf_order _ _ _ F) as H4.
  destruct (te_w x) as [|data|data|data k|k|src len imm] eqn:Hw; cbn in Hwo; [done|..].
  - rewrite (tf_established _ _ _ F) in Hs. cbn [negb] in Hs. injection Hs as <-. exists p.
    destruct (Z.eqb_spec (rd_wcredits (te_conn x)) 0); destruct F; constructor; cbn; rewrite ?Hw in *; auto; lia.
  - injection Hs as <-. exists p. destruct (fill_bytes_spec p x b (can_put data) F) as (? & ? & ? & ?); [by rewrite Hw|lia|].
    destruct F. constructor; cbn; rewrite ?Hw in *; auto; lia.
  - destruct Hwo as (Hq & Hwc & Hlen & Hs1 & Hs2 & Hfit). destruct (Z.eqb_spec k 0) as [->|Hk]; injection Hs as <-.
    + exists p. pose proof (tf_source _ _ _ F) as H1. rewrite Hw in H1. cbn in H1.
      destruct F. constructor; cbn; rewrite ?Hw in *; auto; rewrite ?app_nil_r; auto; try lia.
      * apply (ring_incr _ Hn Hn32 _ _ HEAD (Th p)) with (amount := 0) in H1; [|done|rewrite pow32; lia]. cbn in H1. by rewrite Z.add_0_r in H1.
      * change (Z.to_nat 0) with 0%nat. rewrite take_0, write_at_nil; [done|].
        rewrite (ring_ptr _ Hn Hn32 _ _ HEAD (Th p) H1 eq_refl). pose proof (Z.mod_pos_bound (Th p) n Hn). lia.
      * change (Z.to_nat 0) with 0%nat. rewrite take_0, write_at_nil; [done|].
        rewrite (ring_ptr _ Hn Hn32 _ _ HEAD (Th p) H1 eq_refl). pose proof (Z.mod_pos_bound (Th p) n Hn). lia.
    + apply (fill_copy_flow p); [done|done|lia].
  - destruct Hwo as (Hk & Hq & Hwc & Hfit). unfold post_source, _makeImm in Hs. cbn in Hs. injection Hs as <-. exists p.
    pose proof (tf_source _ _ _ F) as H1. rewrite Hw in H1. cbn in H1.
    rewrite (ring_ptr _ Hn Hn32 _ _ MIDDLE (Tq p) H1 eq_refl).
    rewrite (ring_available _ Hn32 _ _ HEAD MIDDLE (Th p) (Tq p) H1 eq_refl eq_refl) by lia.
    replace (Th p - Tq p) with k by lia. unfold MAX_BS in Hk.
    assert (0 <= Z.min MAX_FC (u16 (rd_fcs (te_conn x)))) as Hf by (unfold MAX_FC; pose proof (u16_range (rd_fcs (te_conn x))); unfold is_u16 in *; lia).
    destruct (imm_unpack k (Z.min MAX_FC (u16 (rd_fcs (te_conn x))))) as [E1 E2]; [lia|].
    destruct F. constructor; cbn; rewrite ?Hw in *; auto.
    + apply (ring_incr _ Hn Hn32 _ _ MIDDLE (Tq p)) with (amount := k) in H1; [|done|rewrite pow32; lia]. cbn in H1. by rewrite <- Hq in H1.
    + rewrite E1, E2. unfold MAX_BS. split_and!; lia.
  - destruct Hwo as (Hl & Hq & Hwc & Hfit & -> & Hi1 & Hi2). unfold post_remote in Hs. cbn in Hs. injection Hs as <-.
    exists (mkTP (Th p) (Th p) (Tt p) (Tv p) (Tk p) (Td p) (Tr p)). pose proof (tf_rptr _ _ _ F) as H2.
    rewrite (ring_ptr _ Hn Hn32 _ _ HEAD (Tq p) H2 eq_refl).
    destruct F as [? ? ? ? ? ? ? Hbase ? ? Hseg ? ? ? ? ? [? ?] ? ? ? ? [? ?]]. constructor; cbn; rewrite ?Hw in *; auto; try lia.
    + apply (ring_incr _ Hn Hn32 _ _ HEAD (Tq p)) with (amount := len) in H2; [|done|rewrite pow32; lia]. cbn in H2. by rewrite <- Hq in H2.
    + rewrite segments_app, Hseg. cbn. rewrite bool_decide_eq_true_2; [by rewrite <- Hq|]. rewrite Hbase. split_and!; lia.
Qed.

Lemma write_step_reader a x x' : write_step x = Some x' -> tflow a x -> tflow a x'.
Proof.
  unfold write_step, post_source, post_remote, _makeImm. intros Hs F. eapply tflow_frame; [apply tw_refl| |exact F].
  destruct (te_w x); repeat (case_match; try done); simplify_eq; constructor; cbn; wc_simpl; rewrite ?app_nil_r; try done.
  intros ?. apply Forall_app. split; [done|]. by apply Forall_singleton.
Qed.

(** *** The read thread *)

(** A step that changes only the phase, the pipe and the credits of the reader. *)
Lemma read_phase p a b e r :
  tflows p a b -> r_ok p r -> r_taken r = r_taken (te_r b) ->
  rd_sinkptr e = rd_sinkptr (te_conn b) -> rd_sinkbuf e = rd_sinkbuf (te_conn b) -> rd_sinkbase e = rd_sinkbase (te_conn b) ->
  rd_cq e = rd_cq (te_conn b) -> rd_readBytes e = rd_readBytes (te_conn b) ->
  tflow a (set_te_r r (set_te_conn e b)).
Proof.
  intros F Hr Ht E1 E2 E3 E4 E5. exists p. destruct F. constructor; cbn; rewrite ?E1, ?E2, ?E3, ?E4, ?E5, ?Ht; auto.
Qed.

Lemma set_te_conn_same x : set_te_conn (te_conn x) x = x.
Proof. by destruct x as [[] ? ? ? ?]. Qed.

Lemma read_phase_only p a b r : tflows p a b -> r_ok p r -> r_taken r = r_taken (te_r b) -> tflow a (set_te_r r b).
Proof. intros F Hr Ht. pose proof (read_phase p a b (te_conn b) r F Hr Ht) as H. rewrite set_te_conn_same in H. by apply H. Qed.

Lemma drain_copy_flow p a b c k data e :
  tflows p a b -> te_r b = R_copy c k -> drain_copy k (te_conn b) = (data, e) ->
  tflow a (set_te_r (if k =? 0 then R_retry c else R_put c k) (add_read data (set_te_conn e b))).
Proof.
  intros F Hr Hd. pose proof (tf_reader _ _ _ F) as Hro. rewrite Hr in Hro. destruct Hro as [Hb Hk]. pose proof size32.
  exists (mkTP (Th p) (Tq p) (Tt p) (Tv p) (Tk p) (Td p + k) (Tr p)). unfold drain_copy in Hd.
  pose proof (tf_sink _ _ _ F) as H3. pose proof (tf_order _ _ _ F) as H4. pose proof (tf_buffers _ _ _ F) as [_ Hbuf].
  pose proof (tf_written _ _ _ F) as Hw. rewrite (ring_tail _ _ _ H3) in Hd. cbn [length Nat.sub] in Hd.
  rewrite (ring_ptr _ Hn Hn32 _ _ 1 (Td p) H3 eq_refl) in Hd.
  rewrite (read_mapped_stream n Hn _ (en_written (te_end a))) in Hd; [|lia|lia|lia|lia|intros i Hi; apply (tf_sinkmem _ _ _ F); lia].
  injection Hd as <- <-. destruct F as [? ? ? ? ? Hread ? ? ? Hsink ? ? ? Hack ? ? [? ?] ? ? ? ? [? ?]]. rewrite Hr in Hack. cbn in Hack.
  constructor; cbn; auto; try lia.
  - apply (ring_incr _ Hn Hn32 _ _ 1 (Td p)) with (amount := k) in H3; [done..|]. rewrite pow32. lia.
  - rewrite Hread, take_take_drop. f_equal. lia.
  - intros i Hi. apply Hsink. lia.
  - destruct (Z.eqb_spec k 0); cbn; lia.
  - destruct (Z.eqb_spec k 0); cbn; lia.
Qed.

Lemma read_step_reader a x x' : read_step x = Some x' -> rd_established (te_conn x) = true -> tflow a x -> tflow a x'.
Proof.
  unfold read_step. intros Hs He (p & F). rewrite He in Hs. cbn [andb negb] in Hs. pose proof (tf_reader _ _ _ F) as Hro. pose proof size32.
  pose proof (tf_order _ _ _ F) as H4. destruct (te_r x) as [|c|c be|c|c|c k|c k| | |m] eqn:Hr; cbn in Hro; [done|..].
  - injection Hs as <-. by apply (read_phase_only p); rewrite ?Hr.
  - assert (x' = set_te_r (te_r x') x /\ r_ok p (te_r x') /\ r_taken (te_r x') = 0) as (-> & H1 & H2).
    { repeat case_match; simplify_eq; done. }
    apply (read_phase_only p); rewrite ?Hr; done.
  - destruct (rd_pipe (te_conn x)) as [|y pipe].
    + destruct (_ =? 0); [done|]. injection Hs as <-. by apply (read_phase_only p); rewrite ?Hr.
    + injection Hs as <-. by apply (read_phase p); rewrite ?Hr.
  - injection Hs as <-. apply (read_phase_only p); rewrite ?Hr; try done. unfold drain_bytes.
    pose proof (tf_sink _ _ _ F) as H3. rewrite (ring_tail _ _ _ H3). cbn [length Nat.sub].
    rewrite (ring_available _ Hn32 _ _ HEAD 1 (Tk p) (Td p) H3 eq_refl eq_refl) by lia. cbn [r_ok]. split; [done|]. lia.
  - destruct (drain_copy k (te_conn x)) as [data e] eqn:Hd. pose proof (drain_copy_flow p a x c k data e F Hr Hd) as Hf.
    assert (rd_established e = true) as Hee by (unfold drain_copy in Hd; injection Hd as <- <-; exact He). rewrite Hee, andb_false_r in Hs.
    destruct (k =? 0); by injection Hs as <-.
  - pose proof (taken_bound p a x F) as Hb. rewrite Hr in Hb. cbn in Hb. specialize (Hb ltac:(lia)). pose proof (tf_readBytes _ _ _ F).
    assert (u64 (rd_readBytes (te_conn x) + k) = rd_readBytes (te_conn x) + k) as Hu by (unfold u64; apply Z.mod_small; lia).
    exists p. destruct F as [? ? ? ? ? ? ? ? ? ? ? ? ? Hack ? ? [? ?] ? ? ? ? [? ?]]. rewrite Hr in Hack. cbn in Hack.
    injection Hs as <-. destruct (rc_available c >? k); constructor; cbn; rewrite ?Hu; auto; lia.
  - injection Hs as <-. apply (read_phase_only p); rewrite ?Hr; try done; by destruct (_needFC _).
  - pose proof (taken_bound p a x F) as Hb. rewrite Hr in Hb. cbn in Hb. specialize (Hb ltac:(lia)). pose proof (tf_readBytes _ _ _ F).
    assert (u32 (rd_readBytes (te_conn x)) = rd_readBytes (te_conn x)) as Hu by (unfold u32; apply Z.mod_small; lia).
    pose proof (u32_range (rd_writes (te_conn x))) as Hw. unfold is_u32 in Hw. unfold take_fc in Hs. injection Hs as <-.
    exists p. destruct F as [? ? ? ? ? ? ? ? ? ? ? ? ? Hack ? ? [? ?] ? ? ? ? [? ?]]. rewrite Hr in Hack. cbn in Hack.
    constructor; cbn; rewrite ?Hu; auto; lia.
  - destruct m as [|b w]; [done|]. unfold _postMessage in Hs. injection Hs as <-.
    exists p. destruct F as [? ? ? ? ? ? ? ? ? ? ? ? ? Hack ? Hfcs [? ?] ? ? ? ? [? ?]]. rewrite Hr in Hack. cbn in Hack.
    constructor; cbn; wc_simpl; auto.
    + rewrite app_assoc, total_app, total_cons. cbn. change (total _ []) with 0. lia.
    + rewrite app_assoc. apply Forall_app. split; [done|]. by apply Forall_singleton.
    + split; [done|]. apply Forall_app. split; [done|]. by apply Forall_singleton.
Qed.

Lemma read_step_writer x x' b : read_step x = Some x' -> tflow x b -> tflow x' b.
Proof.
  unfold read_step, take_fc, _postMessage, drain_copy. intros Hs F. eapply tflow_frame; [|apply tr_refl|exact F].
  destruct (te_r x); repeat (case_match; try done); simplify_eq; constructor; cbn; wc_simpl; rewrite ?app_nil_r; try done;
    intros; rewrite segments_app; cbn; by destruct (segments _ _ _ _).
Qed.

(** *** The adapter *)

Lemma segments_le base P q Q : segments n base P q = Some Q -> P <= Q.
Proof.
  revert P. induction q as [|[] q IH]; intros P; cbn [segments]; [|case_bool_decide; [|done]|apply IH].
  - intros; simplify_eq; lia.
  - intros E%IH. lia.
Qed.

Definition with_end (e : End) (x : TEnd) : TEnd := mkTEnd e (te_prog x) (te_recvs x) (te_w x) (te_r x).

Lemma deliver_tflow a b ea eb :
  deliver (te_end a) (te_end b) = Some (ea, eb) -> tflow a b -> tflow b a -> tflow (with_end ea a) (with_end eb b) /\ tflow (with_end eb b) (with_end ea a).
Proof.
  unfold deliver. intros Hd Hab Hba. destruct (en_queue (te_end a)) as [|wr queue] eqn:Hq; [done|].
  destruct (rd_posted (te_conn b) <=? 0); [done|]. destruct wr as [src len addr imm|m].
  - destruct (_ || _) eqn:Hbounds; [done|]. simplify_eq. split.
    2: { eapply tflow_frame; [| |exact Hba]; constructor; cbn; rewrite ?Hq; wc_simpl; rewrite ?app_nil_r; try done;
         [intros ?; apply Forall_app; split; [done|]; by constructor|by intros [_ ?]%Forall_cons]. }
    destruct Hab as (p & F). exists (mkTP (Th p) (Tq p) (Tt p) (Tv p + len) (Tk p) (Td p) (Tr p)).
    destruct F as [? ? ? H4 Hwr ? [Hb1 Hb2] Hbase Hmem Hsink Hseg Hc Hann ? Hlens ? [? ?] ? ? ? ? [Hns ?]]. rewrite Hq in *.
    cbn [segments] in Hseg. case_bool_decide as Hs; [|done]. destruct Hs as (-> & -> & Hlen & Hfit & Himm & Hfcs).
    pose proof (segments_le _ _ _ _ Hseg) as Hle.
    set (data := take (Z.to_nat len) (drop (Z.to_nat (Tv p `mod` n)) (rd_sourcebuf (te_conn a)))).
    pose proof (Z.mod_pos_bound (Tv p) n Hn) as HPv.
    assert (Z.of_nat (length data) = len) as Hdl by (unfold data; rewrite length_take, length_drop; lia).
    replace (rd_sinkbase (te_conn b) + Tv p `mod` n - rd_sinkbase (te_conn b)) with (Tv p `mod` n) by lia.
    assert (forall i, Td p <= i < Tv p + len ->
      write_at (Tv p `mod` n) data (rd_sinkbuf (te_conn b)) !! Z.to_nat (i `mod` n) = en_written (te_end a) !! Z.to_nat i) as Hsink'.
    { intros i Hi. apply (write_block n Hn Hn32 _ _ (fun i => en_written (te_end a) !! Z.to_nat i) (Td p)); try lia; [done|].
      intros j Hj. rewrite <- Hmem by lia. unfold data. rewrite lookup_take_lt by lia. rewrite lookup_drop. f_equal.
      assert (j `mod` n = Tv p `mod` n + (j - Tv p)) by (rewrite <- mod_linear by lia; f_equal; lia). lia. }
    constructor; cbn; auto; try lia; wc_simpl; rewrite ?app_nil_r; try done.
    + split; [done|]. rewrite write_at_length; lia.
    + rewrite total_app, total_cons. unfold id in *. change (total _ []) with 0. lia.
    + rewrite total_app, total_cons. change (total _ []) with 0. lia.
    + apply Forall_app. split; [done|]. apply Forall_singleton. lia.
    + split; [|done]. apply Forall_app. split; [done|]. by constructor.
  - simplify_eq. split.
    + eapply tflow_frame; [| |exact Hab]; constructor; cbn; rewrite ?Hq; wc_simpl; rewrite ?app_nil_r; try done.
      intros ?. apply Forall_app. split; [done|]. by constructor.
    + destruct Hba as (p & F). exists p. destruct F as [? ? ? ? ? ? ? ? ? ? ? ? ? Hacked ? Hfcs [? ?] ? ? ? ? [Hns1 Hns2]].
      rewrite Hq in *. apply Forall_cons in Hns2 as [Hm Hns2]. destruct m as [|by_ w]; [done|]. wc_simpl_in Hacked. wc_simpl_in Hfcs.
      constructor; cbn; wc_simpl; rewrite ?app_nil_r, <- ?app_assoc; auto.
      split; [|done]. apply Forall_app. split; [done|]. by constructor.
Qed.

(** *** All steps *)

Definition tlinked (s : TEnd * TEnd) : Prop := tflow s.1 s.2 /\ tflow s.2 s.1.

Lemma own_step_linked op x x' y : own_step op x = Some x' -> tflow x y -> tflow y x -> tflow x' y /\ tflow y x'.
Proof.
  intros Hs Hxy Hyx. destruct op as [k block| |data| | | | |]; cbn in Hs; [..|done].
  - destruct (te_r x) eqn:Hr; try done. destruct (Z.ltb_spec 0 (u32 k)); [|done]. injection Hs as <-. split.
    + eapply tflow_frame; [|apply tr_refl|exact Hxy]. by constructor.
    + destruct Hyx as (p & F). apply (read_phase_only p); rewrite ?Hr; done.
  - split; [by eapply read_step_writer|]. eapply read_step_reader; [done| |done]. destruct Hxy as (p & F). apply (tf_established _ _ _ F).
  - destruct (te_w x) eqn:Hw; try done. injection Hs as <-. split.
    + destruct Hxy as (p & F). exists p. destruct F. constructor; cbn; rewrite ?Hw in *; auto.
    + eapply tflow_frame; [apply tw_refl| |exact Hyx]. by constructor.
  - split; [by eapply write_step_writer|by eapply write_step_reader].
  - split; [by eapply poll_flow_writer|by eapply poll_flow_reader].
  - split; [by eapply micro_flow_writer|by eapply micro_flow_reader].
  - destruct (repost_flow x x' y Hs). auto.
Qed.

Lemma first_step_linked op s s' : first_step op s = Some s' -> tlinked s -> tlinked s'.
Proof.
  destruct s as [a b]. unfold first_step, tlinked. intros Hs [Hab Hba]. cbn in Hab, Hba.
  assert ((exists ea eb, deliver (te_end a) (te_end b) = Some (ea, eb) /\ s' = (with_end ea a, with_end eb b)) \/
    exists a', own_step op a = Some a' /\ s' = (a', b)) as [(ea & eb & Hd & ->)|(a' & Ho & ->)].
  { destruct op; try (right; match type of Hs with (?o ≫= _ = _) => destruct o as [a'|]; [|done] end; cbn in Hs; injection Hs as <-; by exists a').
    left. destruct (deliver (te_end a) (te_end b)) as [[ea eb]|]; [|done]. cbn in Hs. injection Hs as <-. by exists ea, eb. }
  - by apply deliver_tflow.
  - by eapply own_step_linked.
Qed.

Lemma thread_step_linked side op s s' : thread_step side op s = Some s' -> tlinked s -> tlinked s'.
Proof.
  unfold thread_step. destruct side; [|by apply first_step_linked].
  destruct (first_step op (s.2, s.1)) as [[b a]|] eqn:Hs; [|done]. cbn. intros [= <-] [H1 H2].
  apply first_step_linked in Hs as [H3 H4]; by split.
Qed.

Lemma thread_run_linked ops s s' : thread_run ops s = Some s' -> tlinked s -> tlinked s'.
Proof.
  revert s. induction ops as [|[side op] ops IH]; intros s; cbn; [by intros [= <-]|].
  destruct (thread_step side op s) as [s1|] eqn:Hs; [|done]. cbn. intros Hr Hl. eapply IH; [done|]. by eapply thread_step_linked.
Qed.

(** The adapter finds the address of every write inside the sink buffer. *)
Lemma tflow_deliver a b :
  tflow a b -> en_queue (te_end a) <> [] -> 0 < rd_posted (te_conn b) -> is_Some (deliver (te_end a) (te_end b)).
Proof.
  intros (p & F) Hq Hp. unfold deliver. destruct (en_queue (te_end a)) as [|wr q] eqn:Eq; [done|].
  destruct (Z.leb_spec (rd_posted (te_conn b)) 0); [lia|]. destruct wr as [src len addr imm|m]; [|by eauto].
  pose proof (tf_segments _ _ _ F) as Hs. rewrite Eq in Hs. cbn in Hs. case_bool_decide as Hb; [|done].
  destruct Hb as (_ & -> & Hl & Hfit & _). destruct (tf_buffers _ _ _ F) as [_ Hbuf]. pose proof (Z.mod_pos_bound (Tv p) n Hn).
  destruct (_ || _) eqn:E; [lia|]. by eauto.
Qed.

End proofs.

(** ** The connected system *)

Lemma tflow_prefix n a b : tflow n a b -> en_read (te_end b) `prefix_of` en_written (te_end a) /\ 0 <= rd_wcredits (te_conn a).
Proof.
  intros (p & F). split; [rewrite (tf_read _ _ _ _ F); apply prefix_take|].
  pose proof (tf_writer _ _ _ _ F) as Hw. destruct (te_w a); cbn in Hw; lia.
Qed.

(** Both ends after the setup messages. *)
Lemma started_tflow depth size a b :
  4 <= depth -> 0 < size -> 2 * size <= 2 ^ 32 -> started depth size a b ->
  tflow size (TEnd_start (mkEnd a [] [] [])) (TEnd_start (mkEnd b [] [] [])).
Proof.
  intros Hd Hs Hs32 [(R1 & R2 & R3) (B1 & B2) Hbase [C1 C2] (Z1 & Z2 & Z3 & Z4 & Z5 & Z6) He].
  exists (mkTP 0 0 0 0 0 0 0). assert (2 <= depth `quot` 2) by (apply Z.quot_le_lower_bound; lia).
  constructor; cbn -[u32 clear ring_at]; rewrite ?R1, ?R2, ?R3, ?Z2, ?Z4, ?Z5, ?Z6; try done; try lia; try (by split_and!; constructor).
  - exact (ring_at_start 3 size (Ring_init 3 0) Hs Hs32 eq_refl).
  - exact (ring_at_start 2 size (Ring_init 2 0) Hs Hs32 eq_refl).
  - exact (ring_at_start 2 size (Ring_init 2 0) Hs Hs32 eq_refl).
Qed.

Lemma start_tlinked depth size base1 key1 base2 key2 s0 :
  4 <= depth -> 0 < size -> 2 * size <= 2 ^ 32 -> rdma_start depth size base1 key1 base2 key2 = Some s0 -> tlinked size (threads_start s0).
Proof.
  intros Hd Hs Hs32. unfold rdma_start. destruct (RDMAConnection_start depth size base1 key1) as [a|] eqn:Ha; [cbn|done].
  destruct (RDMAConnection_start depth size base2 key2) as [b|] eqn:Hb; [cbn|done].
  pose proof (started_tflow _ _ _ _ Hd Hs Hs32 (start_started _ _ _ _ _ _ _ _ Hs Ha Hb)) as H1.
  pose proof (started_tflow _ _ _ _ Hd Hs Hs32 (start_started _ _ _ _ _ _ _ _ Hs Hb Ha)) as H2.
  intros [= <-]. split; [exact H1|exact H2].
Qed.

(** Receives are posted, used by a completion, or about to be posted again. *)
Definition treceives_ok (depth : Z) (x : TEnd) : Prop :=
  rd_posted (te_conn x) + te_recvs x + total (fun wc => if is_recv wc then 1 else 0) (rd_cq (te_conn x)) = depth.

Lemma micro_posted m e : rd_posted (exec_micro m e) = rd_posted e /\ rd_cq (exec_micro m e) = rd_cq e.
Proof. by destruct m. Qed.

Lemma own_step_receives depth op x x' : own_step op x = Some x' -> treceives_ok depth x -> treceives_ok depth x'.
Proof.
  unfold treceives_ok. intros Hs H. destruct op; cbn in Hs; [..|done].
  - repeat case_match; by simplify_eq.
  - unfold read_step, take_fc, _postMessage, drain_copy in Hs. repeat case_match; simplify_eq; done.
  - repeat case_match; by simplify_eq.
  - unfold write_step, post_source, post_remote, _makeImm in Hs. repeat case_match; simplify_eq; done.
  - unfold poll_step in Hs. destruct (te_prog x); [|done]. destruct (rd_cq (te_conn x)) as [|wc cq]; [done|]. injection Hs as <-. cbn.
    rewrite total_cons in H. lia.
  - unfold micro_step in Hs. destruct (te_prog x) as [|m prog]; [done|]. injection Hs as <-. cbn. by destruct (micro_posted m (te_conn x)) as [-> ->].
  - unfold repost_step in Hs. destruct (te_prog x); [|done]. injection Hs as <-. cbn. lia.
Qed.

Definition receives_both (depth : Z) (s : TEnd * TEnd) : Prop := treceives_ok depth s.1 /\ treceives_ok depth s.2.

Lemma first_step_receives depth op s s' : first_step op s = Some s' -> receives_both depth s -> receives_both depth s'.
Proof.
  destruct s as [a b]. unfold first_step, receives_both. intros Hs [Ha Hb]. cbn in Ha, Hb.
  destruct op; try (match type of Hs with (?o ≫= _ = _) => destruct o as [a'|] eqn:Ho; [|done] end; cbn in Hs; injection Hs as <-;
    split; [by eapply own_step_receives|done]).
  destruct (deliver (te_end a) (te_end b)) as [[ea eb]|] eqn:Hd; [|done]. cbn in Hs. injection Hs as <-. unfold deliver in Hd. unfold treceives_ok in *.
  repeat case_match; simplify_eq; cbn; rewrite !total_app, !total_cons; cbn; change (total _ []) with 0; lia.
Qed.

Lemma thread_run_receives depth ops s s' : thread_run ops s = Some s' -> receives_both depth s -> receives_both depth s'.
Proof.
  revert s. induction ops as [|[side op] ops IH]; intros s; cbn; [by intros [= <-]|].
  destruct (thread_step side op s) as [s1|] eqn:Hs; [|done]. cbn. intros Hr Hl. eapply IH; [done|]. revert Hs. unfold thread_step.
  destruct side; [|by intros; eapply first_step_receives].
  destruct (first_step op (s.2, s.1)) as [[b a]|] eqn:Hs; [|done]. cbn. intros [= <-].
  apply (first_step_receives depth) in Hs as [H1 H2]; [by split|by destruct Hl].
Qed.

Lemma start_receives depth size base1 key1 base2 key2 s0 :
  rdma_start depth size base1 key1 base2 key2 = Some s0 -> receives_both depth (threads_start s0).
Proof.
  unfold rdma_start, RDMAConnection_start, _initProtocol, _initBuffers. destruct (depth <? 2); [done|]. cbn. destruct (size =? 0); [done|]. cbn.
  intros [= <-]. unfold receives_both, treceives_ok. cbn. change (total _ []) with 0. lia.
Qed.

(** ** Theorems *)

(** C6: the stream is safe under concurrency.  Two ends are connected with ring
    buffers of the same size and a queue depth of at least four.  Whatever the read
    and write threads of both ends do, wherever completions are polled and handled
    between their steps, and in whatever order the adapters carry out the requests:
    each end has read a prefix of what the other has written, in order and
    uncorrupted by the reuse of the rings; write credits are never negative; a
    write is carried out at an address inside the peer's sink buffer as soon as a
    receive is posted; and receives are not lost: those posted, used by completions
    or about to be posted again are as many as the depth. *)
Theorem rdma_threads_safe depth size base1 key1 base2 key2 s0 ops a b :
  4 <= depth -> 0 < size -> 2 * size <= 2 ^ 32 ->
  rdma_start depth size base1 key1 base2 key2 = Some s0 -> thread_run ops (threads_start s0) = Some (a, b) ->
  (en_read (te_end b) `prefix_of` en_written (te_end a) /\ en_read (te_end a) `prefix_of` en_written (te_end b)) /\
  (0 <= rd_wcredits (te_conn a) /\ 0 <= rd_wcredits (te_conn b)) /\
  ((en_queue (te_end a) <> [] -> 0 < rd_posted (te_conn b) -> is_Some (deliver (te_end a) (te_end b))) /\
   (en_queue (te_end b) <> [] -> 0 < rd_posted (te_conn a) -> is_Some (deliver (te_end b) (te_end a)))) /\
  treceives_ok depth a /\ treceives_ok depth b.
Proof.
  intros Hd Hs Hs32 Hst Hr. destruct (thread_run_linked _ Hs Hs32 _ _ _ Hr (start_tlinked _ _ _ _ _ _ _ Hd Hs Hs32 Hst)) as [Hab Hba].
  cbn in Hab, Hba. destruct (tflow_prefix _ _ _ Hab), (tflow_prefix _ _ _ Hba). split_and!; try done.
  - by apply (tflow_deliver size).
  - by apply (tflow_deliver size).
  - apply (thread_run_receives depth _ _ _ Hr). by eapply start_receives.
  - apply (thread_run_receives depth _ _ _ Hr). by eapply start_receives.
Qed.

(** ** A run in which the threads of the reader overlap

    The first end writes sixteen bytes, which fill the ring, in two blocks.  The
    read thread of the second end has emptied the pipe of the first block when the
    write thread of that end handles the completion of the second one. *)

Definition handle_one (k : nat) : list TOp := OPoll :: repeat OMicro k.

Definition race_writes : list (bool * TOp) :=
  pair false <$> ([OWrite [1; 2; 3; 4; 5; 6; 7; 8]] ++ repeat OWriter 5 ++ [ODeliver] ++
                  [OWrite [9; 10; 11; 12; 13; 14; 15; 16]] ++ repeat OWriter 5 ++ [ODeliver] ++ handle_one 1 ++ handle_one 1).

(** Up to the end of [_getAvailableBytes]; the other completion; the rest of the read. *)
Definition race_reads : list (bool * TOp) :=
  pair true <$> (handle_one 4 ++ [ORead 100 true] ++ repeat OReader 4 ++ handle_one 4 ++ repeat OReader 4 ++ [ORepost]).

(** The next read finds the announcement of bytes it already took. *)
Definition race_again : list (bool * TOp) := pair true <$> ([ORead 100 true] ++ repeat OReader 6).

Definition race_start : TEnd * TEnd := threads_start example_start.
Definition race_state (ops : list (bool * TOp)) : TEnd * TEnd := default race_start (thread_run ops race_start).

(** *** The deadlock

    The writer has no credit, nothing returns one, and the reader is not told of
    anything. *)

Definition waits_for_credit (a : TEnd) : Prop :=
  rd_wcredits (te_conn a) = 0 /\ (te_w a = W_idle \/ exists data, te_w a = W_retry data) /\
  Forall (fun m => if m is MWcredits _ then False else True) (te_prog a) /\
  wc_fcs (rd_cq (te_conn a)) = [] /\ wr_imms (en_queue (te_end a)) = [].

Definition waits_for_data (b : TEnd) : Prop :=
  rd_pipe (te_conn b) = [] /\ rd_established (te_conn b) = true /\
  (te_r b = R_idle \/ exists c, te_r b = R_retry c \/ te_r b = R_events c false) /\
  Forall (fun m => if m is MAvailable _ then False else True) (te_prog b) /\
  wc_imms (rd_cq (te_conn b)) = [] /\ wr_fcs (en_queue (te_end b)) = [].

Definition deadlocked (s : TEnd * TEnd) : Prop := waits_for_credit s.1 /\ waits_for_data s.2.

Lemma micros_no_credit wc cq : wc_fcs (wc :: cq) = [] -> Forall (fun m => if m is MWcredits _ then False else True) (micros wc) /\ wc_fcs cq = [].
Proof. by destruct wc as [| | |[]]; intros H; (split; [unfold micros; repeat apply Forall_cons_2|]). Qed.

Lemma micros_no_data wc cq : wc_imms (wc :: cq) = [] -> Forall (fun m => if m is MAvailable _ then False else True) (micros wc) /\ wc_imms cq = [].
Proof. by destruct wc as [| | |[]]; intros H; (split; [unfold micros; repeat apply Forall_cons_2|]). Qed.

Lemma credit_step op a a' : own_step op a = Some a' -> waits_for_credit a -> waits_for_credit a' /\ en_written (te_end a') = en_written (te_end a).
Proof.
  intros Hs (Hc & Hw & Hp & Hf & Hq). unfold waits_for_credit. destruct op; cbn in Hs; [..|done].
  - repeat case_match; by simplify_eq.
  - unfold read_step, take_fc, _postMessage, drain_copy in Hs. repeat case_match; simplify_eq; cbn; wc_simpl; rewrite ?Hq, ?app_nil_r; by split_and!.
  - repeat case_match; simplify_eq; cbn. split_and!; try done. right. by eexists.
  - unfold write_step in Hs. rewrite Hc in Hs. destruct Hw as [Hw|[data Hw]]; rewrite Hw in Hs; [done|].
    destruct (negb _); [done|]. injection Hs as <-. cbn. split_and!; try done. right. by eexists.
  - unfold poll_step in Hs. destruct (te_prog a); [|done]. destruct (rd_cq (te_conn a)) as [|wc cq]; [done|]. injection Hs as <-.
    apply micros_no_credit in Hf as [? ?]. by split_and!.
  - unfold micro_step in Hs. destruct (te_prog a) as [|m prog]; [done|]. injection Hs as <-. apply Forall_cons in Hp as [Hm Hp]. cbn.
    destruct m; try done; by split_and!.
  - unfold repost_step in Hs. destruct (te_prog a); [|done]. injection Hs as <-. by split_and!.
Qed.

Lemma data_step op b b' : own_step op b = Some b' -> waits_for_data b -> waits_for_data b' /\ en_read (te_end b') = en_read (te_end b).
Proof.
  intros Hs (Hpipe & He & Hr & Hp & Hf & Hq). unfold waits_for_data. destruct op; cbn in Hs; [..|done].
  - destruct (te_r b); try done. destruct (_ <? _); [|done]. injection Hs as <-. cbn. split_and!; try done. right. eexists. by left.
  - unfold read_step, pipe_empty in Hs. rewrite Hpipe, He in Hs. destruct Hr as [Hr|[c [Hr|Hr]]]; rewrite Hr in Hs; [done|..].
    + injection Hs as <-. cbn. split_and!; try done. right. eexists. by right.
    + cbn [negb andb] in Hs. destruct (_ && _); [injection Hs as <-; cbn; split_and!; try done; right; eexists; by left|].
      injection Hs as <-. cbn. split_and!; try done. destruct (_ && _); [by left|]. right. eexists. by left.
  - repeat case_match; by simplify_eq.
  - unfold write_step, post_source, post_remote, _makeImm in Hs. repeat case_match; simplify_eq; cbn; wc_simpl; rewrite ?Hq; by split_and!.
  - unfold poll_step in Hs. destruct (te_prog b); [|done]. destruct (rd_cq (te_conn b)) as [|wc cq]; [done|]. injection Hs as <-.
    apply micros_no_data in Hf as [? ?]. by split_and!.
  - unfold micro_step in Hs. destruct (te_prog b) as [|m prog]; [done|]. injection Hs as <-. apply Forall_cons in Hp as [Hm Hp]. cbn.
    destruct m; try done; by split_and!.
  - unfold repost_step in Hs. destruct (te_prog b); [|done]. injection Hs as <-. by split_and!.
Qed.

Lemma deliver_deadlocked a b ea eb :
  (deliver (te_end a) (te_end b) = Some (ea, eb) \/ deliver (te_end b) (te_end a) = Some (eb, ea)) -> deadlocked (a, b) ->
  deadlocked (with_end ea a, with_end eb b) /\ en_written ea = en_written (te_end a) /\ en_read eb = en_read (te_end b).
Proof.
  intros Hd ((Hc & Hw & Hp & Hf & Hq) & (Hpipe & He & Hr & Hp' & Hf' & Hq')). unfold deadlocked, waits_for_credit, waits_for_data. cbn in *. unfold deliver in Hd.
  destruct Hd as [Hd|Hd].
  - destruct (en_queue (te_end a)) as [|[|m] q] eqn:Eq; [done|done|]. rewrite (proj1 (wr_cons _ _)) in Hq. cbn in Hq.
    destruct (_ <=? 0); [done|]. injection Hd as <- <-. cbn. wc_simpl. rewrite Hf, Hf'. by split_and!.
  - destruct (en_queue (te_end b)) as [|wr q] eqn:Eq; [done|]. destruct (_ <=? 0); [done|].
    rewrite (proj2 (wr_cons _ _)) in Hq'. destruct wr as [src len addr imm|[]]; cbn in Hq'; [|..|done].
    + destruct (_ || _); [done|]. injection Hd as <- <-. cbn. wc_simpl. rewrite Hf, Hf'. by split_and!.
    + injection Hd as <- <-. cbn. wc_simpl. rewrite Hf, Hf'. by split_and!.
Qed.

Lemma thread_step_deadlocked side op s s' :
  thread_step side op s = Some s' -> deadlocked s ->
  deadlocked s' /\ en_written (te_end s'.1) = en_written (te_end s.1) /\ en_read (te_end s'.2) = en_read (te_end s.2).
Proof.
  destruct s as [a b]. intros Hs Hd. pose proof Hd as [Ha Hb]. cbn in Ha, Hb. unfold thread_step, first_step in Hs. cbn [fst snd] in Hs. destruct side.
  - destruct op; try (match type of Hs with context [own_step ?o b] => destruct (own_step o b) as [b'|] eqn:Ho; [|done] end;
      cbn in Hs; injection Hs as <-; cbn; destruct (data_step _ _ _ Ho Hb) as [? ?]; done).
    destruct (deliver (te_end b) (te_end a)) as [[eb ea]|] eqn:E; [|done]. cbn in Hs. injection Hs as <-.
    apply (deliver_deadlocked a b ea eb); [by right|done].
  - destruct op; try (match type of Hs with context [own_step ?o a] => destruct (own_step o a) as [a'|] eqn:Ho; [|done] end;
      cbn in Hs; injection Hs as <-; cbn; destruct (credit_step _ _ _ Ho Ha) as [? ?]; done).
    destruct (deliver (te_end a) (te_end b)) as [[ea eb]|] eqn:E; [|done]. cbn in Hs. injection Hs as <-.
    apply (deliver_deadlocked a b ea eb); [by left|done].
Qed.

(** Both ends are connected and idle but for a read; everything written was read, and
    nothing the ends do afterwards gets another byte across: the message that would
    return the ring and the credits is never sent. *)
Theorem rdma_race_deadlock :
  exists s, thread_run (race_writes ++ race_reads ++ race_again) race_start = Some s /\
    en_read (te_end s.2) = en_written (te_end s.1) /\ rd_readBytes (te_conn s.2) = 16 /\
    forall ops s', thread_run ops s = Some s' -> en_written (te_end s'.1) = en_written (te_end s.1).
Proof.
  exists (race_state (race_writes ++ race_reads ++ race_again)). split; [by vm_compute|]. split; [by vm_compute|]. split; [by vm_compute|].
  assert (deadlocked (race_state (race_writes ++ race_reads ++ race_again))) as Hd.
  { split.
    - split_and!; [by vm_compute|left; by vm_compute| |by vm_compute|by vm_compute].
      by vm_compute.
    - split_and!; [by vm_compute|by vm_compute|right; eexists; left; vm_compute; reflexivity| |by vm_compute|by vm_compute]. by vm_compute. }
  revert Hd. generalize (race_state (race_writes ++ race_reads ++ race_again)). intros s Hd ops. revert s Hd.
  induction ops as [|[side op] ops IH]; intros s Hd s' Hr; cbn in Hr; [by injection Hr as <-|].
  destruct (thread_step side op s) as [s1|] eqn:Hs; [|done]. destruct (thread_step_deadlocked _ _ _ _ Hs Hd) as (Hd1 & Hw & _).
  rewrite <- Hw. by apply (IH s1 Hd1).
Qed.

Lemma rdma_threads_safe_witness :
  let s := race_state (race_writes ++ race_reads) in
  en_read (te_end s.2) `prefix_of` en_written (te_end s.1) /\ length (en_read (te_end s.2)) = 16%nat.
Proof.
  cbn zeta. split; [|by vm_compute].
  apply (rdma_threads_safe 8 16 1000 1 5000 2 example_start (race_writes ++ race_reads)
    (race_state (race_writes ++ race_reads)).1 (race_state (race_writes ++ race_reads)).2); [lia|lia|lia|by vm_compute|by vm_compute].
Defined.

(** ** Threads that are not interrupted

    The steps of a thread, one after the other, are the passes of Rdma: what the
    passes do is what the threads do when nothing happens between their steps. *)

Fixpoint run_steps (step : TEnd -> option TEnd) (k : nat) (x : TEnd) : TEnd :=
  match k with O => x | S k => match step x with Some x => run_steps step k x | None => x end end.

Lemma run_steps_S step k x x' : step x = Some x' -> run_steps step (S k) x = run_steps step k x'.
Proof. intros Hs. cbn. by rewrite Hs. Qed.

Lemma checkCQ_none e : _checkCQ 0 e = e.
Proof. destruct e. unfold _checkCQ, _postReceives, set_posted. cbn. by rewrite Z.add_0_r. Qed.

(** The write thread makes a pass of [write] that moves data. *)
Lemma write_alone x data k c wrs :
  te_w x = W_retry data -> write_pass false 0 data (te_conn x) = (PReturned k, c, wrs) ->
  run_steps write_step 5 x =
    mkTEnd (mkEnd c (en_queue (te_end x) ++ wrs) (en_written (te_end x) ++ take (Z.to_nat k) data) (en_read (te_end x)))
      (te_prog x) (te_recvs x) W_idle (te_r x).
Proof.
  intros Hw Hp. unfold write_pass in Hp. rewrite checkCQ_none in Hp. destruct (negb (rd_established (te_conn x))) eqn:He; [done|].
  destruct (rd_wcredits (te_conn x) =? 0) eqn:Hc; [done|]. fold (can_put data) in Hp. unfold _fill in Hp.
  destruct (fill_bytes (can_put data) (te_conn x) =? 0) eqn:Hk; [done|]. unfold _postRDMAWrite in Hp.
  destruct (post_source (fill_copy _ (can_put data) (te_conn x))) as [[[src len] imm] e1] eqn:Hs1. destruct (post_remote src len imm e1) as [wr e2] eqn:Hs2.
  injection Hp as Hfb <- <-. rewrite Hfb in *.
  assert (take (Z.to_nat k) (can_put data) = take (Z.to_nat k) data) as Ht.
  { unfold can_put. rewrite take_take. f_equal. rewrite <- Hfb. unfold fill_bytes. unfold can_put. rewrite length_take. lia. }
  rewrite (run_steps_S _ _ x (set_te_w (W_fill data) x)) by (unfold write_step; by rewrite Hw, He, Hc).
  rewrite (run_steps_S _ _ _ (set_te_w (W_copy data k) x)) by (unfold write_step; cbn -[fill_bytes can_put]; by rewrite Hfb).
  rewrite (run_steps_S _ _ _ (set_te_w (W_post k) (add_written (take (Z.to_nat k) (can_put data)) (set_te_conn (fill_copy k (can_put data) (te_conn x)) x))))
    by (unfold write_step; cbn -[post_source post_remote fill_copy fill_bytes can_put Z.eqb]; by rewrite Hk).
  rewrite (run_steps_S _ _ _ (set_te_w (W_remote src len imm) (add_written (take (Z.to_nat k) (can_put data)) (set_te_conn e1 x))))
    by (unfold write_step; cbn -[post_source post_remote fill_copy can_put]; by rewrite Hs1).
  rewrite (run_steps_S _ _ _ (set_te_w W_idle (add_request wr (add_written (take (Z.to_nat k) (can_put data)) (set_te_conn e2 x)))))
    by (unfold write_step; cbn -[post_source post_remote fill_copy can_put]; by rewrite Hs2).
  cbn. by rewrite Ht.
Qed.

(** [_getAvailableBytes] takes what is in the pipe. *)
Lemma take_alone j x c pipe :
  te_r x = R_take c -> rd_pipe (te_conn x) = pipe ->
  run_steps read_step (length pipe + j) x =
    run_steps read_step j
      (set_te_r (R_take (set_rc_available (foldl (fun s y => u64 (s + y)) (rc_available c) pipe) c)) (set_te_conn (set_pipe [] (te_conn x)) x)).
Proof.
  revert x c. induction pipe as [|y pipe IH]; intros x c Hr Hp.
  - cbn [length Nat.add foldl]. f_equal. destruct c, x as [[[]] ? ? ? ?]. cbn in *. by subst.
  - cbn [length Nat.add run_steps]. unfold read_step at 1. rewrite Hr, Hp.
    rewrite (IH (set_te_r _ (set_te_conn (set_pipe pipe (te_conn x)) x)) (set_rc_available (u64 (rc_available c + y)) c)); by destruct c, x as [[[]] ? ? ? ?].
Qed.

Lemma foldl_u64 l s : is_u64 s -> foldl (fun s y => u64 (s + y)) s l = u64 (s + foldr Z.add 0 l).
Proof.
  revert s. induction l as [|y l IH]; intros s Hs; cbn; [by rewrite Z.add_0_r, u64_small|]. rewrite IH by apply u64_range. solve_wrap.
Qed.

Lemma drain_length k e : 0 <= k -> Z.of_nat (length (drain_copy (drain_bytes k e) e).1) = drain_bytes k e.
Proof.
  intros Hk. unfold drain_copy, read_mapped. cbn [fst]. rewrite length_fmap, length_seq. apply Z2Nat.id. unfold drain_bytes, available.
  apply Z.min_glb; [done|]. apply Z.mod_pos_bound. lia.
Qed.

(** The read thread makes a pass of [readSync] that returns data. *)
Lemma read_alone x c k extra d e wrs :
  te_r x = R_retry c -> rd_established (te_conn x) = true -> rd_pipe (te_conn x) <> [] ->
  read_pass false (rc_block c) (rc_extra_event c) 0 (rc_bytes c) (te_conn x) = (PReturned k, extra, d, e, wrs) ->
  run_steps read_step (length (rd_pipe (te_conn x)) + 9) x =
    mkTEnd (mkEnd e (en_queue (te_end x) ++ wrs) (en_written (te_end x)) (en_read (te_end x) ++ d))
      (te_prog x) (te_recvs x) (te_w x) R_idle.
Proof.
  intros Hr He Hne Hp. unfold read_pass in Hp. rewrite checkCQ_none, He in Hp. cbn [andb] in Hp.
  destruct (_needFC (te_conn x) && (rd_fcredits (te_conn x) =? 0)) eqn:Hf; [done|].
  assert (pipe_empty (te_conn x) = false) as Hpe by (unfold pipe_empty; by destruct (rd_pipe (te_conn x))).
  replace (match rd_pipe (te_conn x) with [] => false | _ => true end) with true in Hp by by destruct (rd_pipe (te_conn x)).
  unfold _getAvailableBytes in Hp. cbn [negb andb] in Hp. destruct (_ =? 0) eqn:Hav in Hp; [done|].
  replace (length (rd_pipe (te_conn x)) + 9)%nat with (S (S (length (rd_pipe (te_conn x)) + 7))) by lia.
  rewrite (run_steps_S _ _ x (set_te_r (R_events c true) x)) by (unfold read_step; by rewrite Hr, Hpe).
  rewrite (run_steps_S _ _ _ (set_te_r (R_take (set_rc_available 0 c)) x))
    by (unfold read_step; cbn -[_needFC]; by rewrite He; cbn [andb negb]; rewrite Hf).
  rewrite (take_alone _ _ (set_rc_available 0 c) (rd_pipe (te_conn x))) by done. cbn [rc_available set_rc_available].
  rewrite foldl_u64 by done. rewrite Z.add_0_l.
  set (y := set_te_conn _ _). set (c1 := set_rc_available (u64 _) _). pose proof (drain_length (u32 (rc_bytes c)) (te_conn y) (proj1 (u32_range _))) as Hl.
  change (set_pipe [] (te_conn x)) with (te_conn y) in Hp. unfold _drain in Hp.
  rewrite (run_steps_S _ _ _ (set_te_r (R_drain c1) y)) by (unfold read_step; subst y c1; cbn -[u64 foldr Z.eqb]; by rewrite Hav).
  rewrite (run_steps_S _ _ _ (set_te_r (R_copy c1 (drain_bytes (u32 (rc_bytes c)) (te_conn y))) y)) by done.
  set (b := drain_bytes _ _) in *. destruct (drain_copy b (te_conn y)) as [data e2] eqn:Hd. cbn [fst] in Hl.
  rewrite Hl in Hp. destruct (b =? 0) eqn:Hb; [by repeat case_match|].
  rewrite (run_steps_S _ _ _ (set_te_r (R_put c1 b) (add_read data (set_te_conn e2 y))))
    by (unfold read_step; cbn -[drain_copy y b]; rewrite Hd; by rewrite Hb).
  set (e3 := set_readBytes _ _) in Hp.
  rewrite (run_steps_S _ _ _ (set_te_r R_need (add_read data (set_te_conn e3 y)))) by done.
  destruct (rd_established e3 && _needFC e3) eqn:Hn.
  - rewrite (run_steps_S _ _ _ (set_te_r R_post (add_read data (set_te_conn e3 y)))) by (unfold read_step; cbn -[e3 _needFC]; by rewrite Hn).
    unfold _postFC in Hp. destruct (take_fc e3) as [m e4] eqn:H4. destruct (_postMessage m e4) as [wr e5] eqn:H5. injection Hp as _ _ <- <- <-.
    rewrite (run_steps_S _ _ _ (set_te_r (R_send m) (add_read data (set_te_conn e4 y)))) by (unfold read_step; cbn -[e3 take_fc]; by rewrite H4).
    rewrite (run_steps_S _ _ _ (set_te_r R_idle (add_request wr (add_read data (set_te_conn e5 y))))) by (unfold read_step; cbn -[_postMessage]; by rewrite H5).
    done.
  - rewrite (run_steps_S _ _ _ (set_te_r R_idle (add_read data (set_te_conn e3 y)))) by (unfold read_step; cbn -[e3 _needFC]; by rewrite Hn).
    injection Hp as _ _ <- <- <-. cbn. by rewrite app_nil_r.
Qed.
